(* ===== verification/_CoqProject ===== *)
-Q . S2P
Prelude.v
F32.v
RasterPath.v
RasterFill.v
RasterSpec.v
Tiger.v
TigerSpec.v
Tls.v
TlsSpec.v
Probe.v
HashMap.v
HashMapSpec.v
LongestConsecutive.v
Lru.v
LruSpec.v
Arena.v
ArenaSpec.v
Trie.v
TrieSpec.v
Trees.v
Sieve.v
Sudoku.v
RainWater.v
Fannkuch.v
SmallBenchmarks.v
F64.v
Matmul.v
Training.v
TrainingSpec.v
StbMonad.v
StbBase.v
StbBaseSpec.v
StbStream.v
StbZlib.v
StbHuffman.v
StbBits.v
Rfc1951.v
StbInflate.v
StbZlibSpec.v
StbZlibRun.v
StbWriteZlib.v
StbWriteZlibSpec.v
StbWrite.v
StbWriteSpec.v
StbWritePng.v
StbWriteHdr.v
StbWriteJpeg.v
BitString.v
StbWriteJpegSpec.v
StbPng.v
StbPngSpec.v
StbBmp.v
StbJpeg.v
StbPsd.v
StbTga.v
StbPic.v
StbGif.v
StbGifSpec.v
StbHdr.v
StbPnm.v
StbLoad.v
StbFormats.v
StbJpegBlock.v
StbHdrFile.v
StbBmpFile.v
StbWritePngSpec.v
StbPngFile.v
Runtime.v
FacetOs.v
