(* ===== verification/Prelude.v ===== *)
(** * KeuOS C sources: verification library

    KeuOS is an operating system written in the language Salt, with a C layer
    for what sits on the host: the Facet display stack ([user/facet]: software
    rasterizer, image codecs), NetD's TLS bridge ([user/netd]), the runtime
    substrate the compiled programs link against ([keuos_rt]), Facet's POSIX
    bridge ([user/os]) and the C baselines the Salt programs are measured
    against ([benchmarks]).  This library models that C code and proves what
    makes it correct.  Paths below are relative to the repository.

    ** Conventions

    An [int], [long] or unsigned value is a [Z]; signed results go through
    [i32]/[i64] and are undefined when they overflow, unsigned ones through
    [u8]/[u16]/[u32]/[u64] and wrap.  Arrays are lists, accesses [rd]/[wr] are
    undefined outside the object.  [Res] has a value, [Undef] (undefined
    behaviour) or [NoFuel] (a loop was cut short by its bound); [wp m Q] says
    that [m] ends, defined, in a value of [Q]; [wpu] allows undefinedness, [wlp]
    allows both.  The image codecs thread a state and may fail: [StbMonad.Act]
    and its [awp]/[awp_ok].  Loops whose iterations the code does not count
    take [fuel]; their theorems state how much is enough ([pump_drains]:
    linear in the bytes still to come; [flattening_terminates]: the depth
    bound of the code; the zlib decoder: the number of input bits), so that no
    theorem holds merely because a body ran out of fuel.  What is outside the
    repository is a class: [BearSSL], [Sockets], [Kernel], [Posix], [StbiEnv]
    (allocation, fresh memory, read callbacks, [pow]); [float] and [double] are
    [SpecFloat] at their precision ([F32], [F64]).

    ** Components

    - Facet rasterizer, [user/facet/raster/facet_raster.{h,c}]: [RasterPath]
      (paths, flattening, edge table), [RasterFill] (canvas, compositing, the
      scanline fill); theorems in [RasterSpec].  A path is flattened into the
      edge table, the fill accumulates signed coverage per row and blends.
      The fill paints exactly the pixels whose winding number is inside, for
      every path of fewer than 2^24 edges whose extent and crossing columns fit
      an [int]; flattening ends on every input; a closed polygon is balanced up
      to the sides that were dropped.
    - The rasterizer's reference scene, [bench_raster_c.c]: [Tiger], [TigerSpec].
    - NetD's TLS bridge, [user/netd/tls_bridge.c], [tls_state.h]: [Tls],
      [TlsSpec]: the connection pool leases a slot to one client, the pump
      touches one connection and reports the state it leaves; while the peer
      keeps the stream open it returns with everything delivered, and at the end
      of the file it may spin.
    - Image decoding, [user/facet/gpu/stb_image.h], scalar kernels, no stdio:
      [StbMonad], [StbBase] (context, allocation sizes, channel conversion),
      [StbZlib], [StbPng], [StbBmp], [StbJpeg] and [StbLoad] (dispatch,
      [facet_image_decode]) are what [facet_image.c] compiles; [StbPsd],
      [StbTga], [StbPic], [StbGif], [StbHdr], [StbPnm] and [StbFormats] (the
      dispatch over all formats, HDR to bytes) are the decoders it switches off.
      [StbBaseSpec]: sizes, conversion, flip.  [StbStream]: the context refines a
      stream of bytes ([ByteStream]), over memory and callbacks.  [StbHuffman],
      [StbBits]: canonical codes and the bit reader.  [Rfc1951]: the reference
      inflater as relations; [StbInflate], [StbZlibSpec]: the decoder refines
      it; [StbZlibRun]: what it makes of a stream the reference accepts.
      [StbPngSpec]: filtering and its inverse.  [StbGifSpec]: the GIF decoder is
      safe on every input whose screen leaves room for eight more rows (its
      fuel: 9 * 256 turns for each byte of input, since a turn takes a code from
      the bits at hand or a byte from a block of at most 255), and reads before
      a buffer on animated files with disposal 3.
    - Image writing, [user/facet/gpu/stb_image_write.h]: [StbWriteZlib] (the
      compressor), [StbWrite] (the write context, BMP, TGA), [StbWritePng],
      [StbWriteHdr], [StbWriteJpeg].  [StbWriteSpec]: the buffered context;
      [StbWriteZlibSpec], [StbWritePngSpec], [StbWriteJpegSpec]: what the writers
      produce; [BitString]: bit strings and bytes.
    - The writers against the decoders: [StbWriteZlibSpec] (zlib streams),
      [StbPngFile], [StbHdrFile], [StbBmpFile] (whole files), [StbJpegBlock] (the
      entropy-coded scan of a JPEG, up to the coefficients).
    - Runtime substrate, [keuos_rt/keuos_rt.c]: [Runtime] (arena, kqueue).
    - POSIX bridge, [user/os/facet_os.c]: [FacetOs].
    - Benchmarks, [benchmarks/*.c], one file each: [HashMap]/[HashMapSpec] (both
      hash maps refine a finite map; [Probe] is the shared open addressing),
      [LongestConsecutive], [Lru]/[LruSpec], [Arena]/[ArenaSpec],
      [Trie]/[TrieSpec], [Trees], [Sieve], [Sudoku], [RainWater], [Fannkuch],
      [SmallBenchmarks], [Matmul] (the tiled product is bit-identical to the
      naive one), [Training]/[TrainingSpec].

    ** Not modelled

    The kernel, drivers and services in Salt, assembly and the boot code; the
    Rust and Python tools; Objective-C ([facet_gpu.m], [facet_window.m]) and the
    headers that only declare their entry points; [vendor/] (stb_truetype, font
    data, SHA-1 and base64); of stb_image, reading from stdio, the float
    loader's path over HDR files and the SSE2/NEON kernels; of stb_image_write,
    the JPEG writer's left shifts of a signed int are modelled as they wrap, not
    as the undefined behaviour the standard makes of them; a memory stream's
    position is a number, also where [stbi__skip] moves the pointer past the end
    of the buffer (it is compared with the end before it is read through); benchmark servers and
    echo clients ([c10m], [http_*], [c_bench_server.c]) and the [ecs] stubs, which are system
    calls and timing loops; clock readings and printed reports everywhere. *)

From Stdlib Require Export ZArith Lia.
From stdpp Require Export base tactics numbers list gmap strings.

#[global] Open Scope Z_scope.
#[global] Set Default Proof Using "Type".

(** ** C results

    A C expression either yields a value, has undefined behaviour (an access
    outside an object, a signed overflow, an out-of-range conversion), or, for
    the loops given an explicit bound, has not finished within it. *)
Inductive Res (A : Type) : Type :=
| Ok (a : A)
| Undef
| NoFuel.
Arguments Ok {A} a.
Arguments Undef {A}.
Arguments NoFuel {A}.

#[export] Instance Res_ret : MRet Res := @Ok.
#[export] Instance Res_bind : MBind Res := λ A B f m,
  match m with Ok a => f a | Undef => Undef | NoFuel => NoFuel end.
#[export] Instance Res_fmap : FMap Res := λ A B f m,
  match m with Ok a => Ok (f a) | Undef => Undef | NoFuel => NoFuel end.

(** [wp m Q]: the computation [m] finishes, without undefined behaviour, in a
    value that satisfies [Q] (total correctness). *)
Definition wp {A} (m : Res A) (Q : A → Prop) : Prop :=
  match m with Ok a => Q a | _ => False end.

(** [wlp m Q]: if [m] finishes, its value satisfies [Q] (partial correctness). *)
Definition wlp {A} (m : Res A) (Q : A → Prop) : Prop :=
  match m with Ok a => Q a | _ => True end.

(** [wpu m Q]: [m] finishes, in undefined behaviour or in a value that satisfies
    [Q]; the modality of statements that a run is undefined. *)
Definition wpu {A} (m : Res A) (Q : A → Prop) : Prop :=
  match m with Ok a => Q a | Undef => True | NoFuel => False end.

Section wp.
Context {A B : Type}.
Implicit Types (m : Res A) (k : A → Res B).

Lemma wp_ok (a : A) (Q : A → Prop) : Q a → wp (Ok a) Q.
Proof. done. Qed.

Lemma wp_bind m k (Q : B → Prop) :
  wp m (λ a, wp (k a) Q) → wp (m ≫= k) Q.
Proof. by destruct m. Qed.

Lemma wlp_bind m k (Q : B → Prop) :
  wlp m (λ a, wlp (k a) Q) → wlp (m ≫= k) Q.
Proof. by destruct m. Qed.

Lemma wp_mono m (P Q : A → Prop) : wp m P → (∀ a, P a → Q a) → wp m Q.
Proof. destruct m; simpl; auto. Qed.

Lemma wlp_mono m (P Q : A → Prop) : wlp m P → (∀ a, P a → Q a) → wlp m Q.
Proof. destruct m; simpl; auto. Qed.

Lemma wp_elim m (Q : A → Prop) : wp m Q → ∃ a, m = Ok a ∧ Q a.
Proof. destruct m; simpl; naive_solver. Qed.

Lemma wp_intro m (Q : A → Prop) a : m = Ok a → Q a → wp m Q.
Proof. by intros ->. Qed.

Lemma wp_and m (P Q : A → Prop) : wp m P → wp m Q → wp m (λ a, P a ∧ Q a).
Proof. destruct m; simpl; auto. Qed.

Lemma wpu_bind m k (Q : B → Prop) :
  wpu m (λ a, wpu (k a) Q) → wpu (m ≫= k) Q.
Proof. by destruct m. Qed.

Lemma wpu_mono m (P Q : A → Prop) : wpu m P → (∀ a, P a → Q a) → wpu m Q.
Proof. destruct m; simpl; auto. Qed.

Lemma wp_wpu m (Q : A → Prop) : wp m Q → wpu m Q.
Proof. by destruct m. Qed.

Lemma wpu_undef m : wpu m (λ _, False) → m = Undef.
Proof. by destruct m. Qed.

Lemma bind_Ok m k b : (m ≫= k) = Ok b → ∃ a, m = Ok a ∧ k a = Ok b.
Proof. destruct m; simpl; naive_solver. Qed.
End wp.

(** Inverts every [m ≫= k = Ok b] of the context. *)
Ltac inv_ok :=
  repeat match goal with
  | H : mbind ?k ?m = Ok ?b |- _ =>
      let a := fresh "a" in let E := fresh "E" in
      apply bind_Ok in H as (a & E & H)
  | H : Ok _ = Ok _ |- _ => injection H as H
  | H : Undef = Ok _ |- _ => discriminate H
  | H : NoFuel = Ok _ |- _ => discriminate H
  end.

Lemma wp_fmap {A B} (f : A → B) m (Q : B → Prop) : wp m (λ a, Q (f a)) → wp (f <$> m) Q.
Proof. by destruct m. Qed.

(** ** Lists *)
Lemma forallb_elem {A} (P : A → bool) l x : forallb P l = true → x ∈ l → P x = true.
Proof. intros H Hx. rewrite forallb_forall in H. apply H. by apply list_elem_of_In. Qed.

Lemma mjoin_snoc {A} (ls : list (list A)) l : mjoin (ls ++ [l]) = mjoin ls ++ l.
Proof. rewrite join_app. cbn. by rewrite app_nil_r. Qed.

(** ** Integers of the C types

    Unsigned arithmetic wraps; signed arithmetic is undefined when the exact
    result does not fit, so [i32]/[i64] return [Undef] there.  [sx w] is the
    two's-complement conversion to a signed [w]-bit type. *)
Definition u8 (z : Z) : Z := z mod 2 ^ 8.
Definition u16 (z : Z) : Z := z mod 2 ^ 16.
Definition u32 (z : Z) : Z := z mod 2 ^ 32.
Definition u64 (z : Z) : Z := z mod 2 ^ 64.

Definition INT_MIN : Z := - 2 ^ 31.
Definition INT_MAX : Z := 2 ^ 31 - 1.
Definition LONG_MIN : Z := - 2 ^ 63.
Definition LONG_MAX : Z := 2 ^ 63 - 1.

Definition is_i32 (z : Z) : bool := (INT_MIN <=? z) && (z <=? INT_MAX).
Definition is_i64 (z : Z) : bool := (LONG_MIN <=? z) && (z <=? LONG_MAX).

Definition i32 (z : Z) : Res Z := if is_i32 z then Ok z else Undef.
Definition i64 (z : Z) : Res Z := if is_i64 z then Ok z else Undef.

Definition sx (w z : Z) : Z := (z + 2 ^ (w - 1)) mod 2 ^ w - 2 ^ (w - 1).

Lemma is_i32_true z : is_i32 z = true ↔ INT_MIN ≤ z ≤ INT_MAX.
Proof. unfold is_i32. rewrite andb_true_iff, !Z.leb_le. lia. Qed.

Lemma is_i64_true z : is_i64 z = true ↔ LONG_MIN ≤ z ≤ LONG_MAX.
Proof. unfold is_i64. rewrite andb_true_iff, !Z.leb_le. lia. Qed.

Lemma i32_ok z : INT_MIN ≤ z ≤ INT_MAX → i32 z = Ok z.
Proof. unfold i32. intros H%is_i32_true. by rewrite H. Qed.

Lemma i64_ok z : LONG_MIN ≤ z ≤ LONG_MAX → i64 z = Ok z.
Proof. unfold i64. intros H%is_i64_true. by rewrite H. Qed.

Lemma i32_Ok_inv z a : i32 z = Ok a → a = z ∧ INT_MIN ≤ z ≤ INT_MAX.
Proof.
  unfold i32. destruct (is_i32 z) eqn:E; [|done].
  intros [= ->]. by apply is_i32_true in E.
Qed.

Lemma i64_Ok_inv z a : i64 z = Ok a → a = z ∧ LONG_MIN ≤ z ≤ LONG_MAX.
Proof.
  unfold i64. destruct (is_i64 z) eqn:E; [|done].
  intros [= ->]. by apply is_i64_true in E.
Qed.

Lemma u8_range z : 0 ≤ u8 z < 256.
Proof. apply (Z.mod_pos_bound z 256). lia. Qed.
Lemma u32_range z : 0 ≤ u32 z < 2 ^ 32.
Proof. by apply Z.mod_pos_bound. Qed.
Lemma u64_range z : 0 ≤ u64 z < 2 ^ 64.
Proof. by apply Z.mod_pos_bound. Qed.

Lemma u8_small z : 0 ≤ z < 256 → u8 z = z.
Proof. apply Z.mod_small. Qed.
Lemma u16_small z : 0 ≤ z < 2 ^ 16 → u16 z = z.
Proof. apply Z.mod_small. Qed.
Lemma u32_small z : 0 ≤ z < 2 ^ 32 → u32 z = z.
Proof. apply Z.mod_small. Qed.
Lemma u64_small z : 0 ≤ z < 2 ^ 64 → u64 z = z.
Proof. apply Z.mod_small. Qed.

Lemma sx_32_small v : 0 ≤ v < 2 ^ 31 → sx 32 v = v.
Proof. intros Hv. unfold sx. change (2 ^ (32 - 1)) with (2 ^ 31). rewrite Z.mod_small; lia. Qed.

Ltac c_unfold := unfold INT_MIN, INT_MAX, LONG_MIN, LONG_MAX in *.

Create Rewrite HintDb arr.

(** ** Bit fields *)
Lemma lor_shiftl a b n : 0 ≤ n → 0 ≤ b < 2 ^ n → Z.lor (Z.shiftl a n) b = a * 2 ^ n + b.
Proof.
  intros Hn Hb. rewrite <- Z.shiftl_mul_pow2 by done. symmetry. apply Z.add_nocarry_lor.
  apply Z.bits_inj'. intros i Hi. rewrite Z.land_spec, Z.shiftl_spec, Z.bits_0 by done.
  destruct (decide (i < n)); [by rewrite Z.testbit_neg_r by lia|].
  rewrite <- (Z.mod_small b (2 ^ n)), Z.mod_pow2_bits_high by lia. apply andb_false_r.
Qed.

Lemma lor_shiftl_r a b n : 0 ≤ n → 0 ≤ b < 2 ^ n → Z.lor b (Z.shiftl a n) = a * 2 ^ n + b.
Proof. intros. rewrite Z.lor_comm. by apply lor_shiftl. Qed.

Lemma land_mask a n : 0 ≤ n → Z.land a (2 ^ n - 1) = a mod 2 ^ n.
Proof. intros. rewrite Z.sub_1_r, <- Z.ones_equiv. by apply Z.land_ones. Qed.

Lemma land_mask_shiftl a n : 0 ≤ n → Z.land a (Z.shiftl 1 n - 1) = a mod 2 ^ n.
Proof. intros. rewrite Z.shiftl_mul_pow2, Z.mul_1_l by done. by apply land_mask. Qed.

(** ** Arrays

    An array (or the buffer a pointer points to) is a list; [rd] and [wr] are
    undefined outside it.  [l.[i]] is the element at a valid index and
    [zset l i v] the updated array. *)
Abbreviation zlen l := (Z.of_nat (length l)).
Notation "l .[ i ]" := (l !!! Z.to_nat i) (at level 1, format "l .[ i ]").
Definition zset {A} (l : list A) (i : Z) (v : A) : list A := <[Z.to_nat i := v]> l.

Definition rd {A} (l : list A) (i : Z) : Res A :=
  if i <? 0 then Undef else
  match l !! Z.to_nat i with Some v => Ok v | None => Undef end.

Definition wr {A} (l : list A) (i : Z) (v : A) : Res (list A) :=
  if (0 <=? i) && (i <? zlen l) then Ok (zset l i v) else Undef.

(** The row-major index expression [i * n + j], in [int]. *)
Definition at2 (i n j : Z) : Res Z := p ← i32 (i * n); i32 (p + j).

Section arrays.
Context {A : Type} `{!Inhabited A}.
Implicit Types (l : list A) (v : A).

Lemma znth_lookup l i : 0 ≤ i < zlen l → l !! Z.to_nat i = Some (l.[i]).
Proof. intros ?. apply list_lookup_lookup_total_lt. lia. Qed.

Lemma rd_ok l i : 0 ≤ i < zlen l → rd l i = Ok (l.[i]).
Proof.
  intros Hi. unfold rd. destruct (Z.ltb_spec i 0); [lia|].
  by rewrite znth_lookup.
Qed.

Lemma wr_ok l i v : 0 ≤ i < zlen l → wr l i v = Ok (zset l i v).
Proof.
  intros Hi. unfold wr.
  destruct (Z.leb_spec 0 i), (Z.ltb_spec i (zlen l)); simpl; done || lia.
Qed.

Lemma rd_Ok_inv l i v : rd l i = Ok v → 0 ≤ i < zlen l ∧ v = l.[i].
Proof.
  unfold rd. destruct (Z.ltb_spec i 0); [done|].
  destruct (l !! Z.to_nat i) eqn:E; [|done]. intros [= <-].
  pose proof (lookup_lt_Some _ _ _ E).
  split; [lia|]. by rewrite (list_lookup_total_correct _ _ _ E).
Qed.

Lemma wr_Ok_inv l i v l' : wr l i v = Ok l' → 0 ≤ i < zlen l ∧ l' = zset l i v.
Proof.
  unfold wr. destruct (Z.leb_spec 0 i), (Z.ltb_spec i (zlen l)); simpl; try done.
  intros [= <-]. auto.
Qed.

Lemma length_zset l i v : length (zset l i v) = length l.
Proof. apply length_insert. Qed.

Lemma znth_zset_eq l i v : 0 ≤ i < zlen l → (zset l i v).[i] = v.
Proof. intros ?. apply list_lookup_total_insert_eq. lia. Qed.

Lemma znth_zset_ne l i j v : 0 ≤ i → 0 ≤ j → i ≠ j → (zset l i v).[j] = l.[j].
Proof. intros. apply list_lookup_total_insert_ne. lia. Qed.

Lemma znth_zset l i j v : 0 ≤ i < zlen l → 0 ≤ j →
  (zset l i v).[j] = if decide (i = j) then v else l.[j].
Proof.
  intros. case_decide; subst; [by apply znth_zset_eq|].
  apply znth_zset_ne; lia.
Qed.

Lemma zset_id l i : 0 ≤ i < zlen l → zset l i (l.[i]) = l.
Proof. intros. apply list_insert_id. by apply znth_lookup. Qed.

Lemma znth_ext l1 l2 : length l1 = length l2 →
  (∀ i, 0 ≤ i < zlen l1 → l1.[i] = l2.[i]) → l1 = l2.
Proof.
  intros Hlen H. apply list_eq. intros n.
  destruct (decide (n < length l1)%nat) as [Hn|Hn].
  - specialize (H (Z.of_nat n)). rewrite Nat2Z.id in H.
    rewrite !list_lookup_lookup_total_lt by lia. f_equal. apply H. lia.
  - rewrite !lookup_ge_None_2 by lia. done.
Qed.

Lemma znth_replicate n v i : 0 ≤ i < Z.of_nat n → (replicate n v).[i] = v.
Proof. intros. apply lookup_total_replicate_2. lia. Qed.
End arrays.

Lemma at2_fits i n j : 0 ≤ i → 0 ≤ n → 0 ≤ j → i * n + j ≤ INT_MAX → at2 i n j = Ok (i * n + j).
Proof.
  intros. unfold at2. rewrite i32_ok by (c_unfold; nia). cbn. apply i32_ok. c_unfold; nia.
Qed.

(** A block [malloc] has just returned: [n] cells with arbitrary contents. *)
Definition malloc_arr {A} (junk : nat → A) (n : Z) : list A := junk <$> seq 0 (Z.to_nat n).

Lemma length_malloc {A} (junk : nat → A) n : length (malloc_arr junk n) = Z.to_nat n.
Proof. unfold malloc_arr. by rewrite length_fmap, length_seq. Qed.

Lemma Forall_zset {A} (P : A → Prop) (l : list A) i v : Forall P l → P v → Forall P (zset l i v).
Proof. intros. by apply Forall_insert. Qed.

#[export] Hint Rewrite @length_zset @length_malloc : arr.

(** ** Counting *)
Fixpoint countb {A} (f : A → bool) (l : list A) : Z :=
  match l with [] => 0 | x :: l => Z.b2z (f x) + countb f l end.

Section countb.
Context {A : Type} `{!Inhabited A} (f : A → bool).

Lemma countb_range l : 0 ≤ countb f l ≤ zlen l.
Proof. induction l as [|x l IH]; cbn [countb length]; [lia|]. destruct (f x); cbn; lia. Qed.

Lemma countb_zset l i v : 0 ≤ i < zlen l →
  countb f (zset l i v) = countb f l - Z.b2z (f (l.[i])) + Z.b2z (f v).
Proof.
  intros Hi. unfold zset. remember (Z.to_nat i) as n eqn:En.
  assert (n < length l)%nat as Hn by lia. clear i Hi En. revert n Hn.
  induction l as [|x l IH]; intros [|n] Hn; [cbn in Hn; lia..| |].
  - change (<[0%nat:=v]> (x :: l)) with (v :: l).
    change ((x :: l) !!! 0%nat) with x. cbn [countb]. lia.
  - change (<[S n:=v]> (x :: l)) with (x :: <[n:=v]> l).
    change ((x :: l) !!! S n) with (l !!! n). cbn [countb length] in *.
    rewrite IH by lia. lia.
Qed.

Lemma countb_replicate n v : countb f (replicate n v) = Z.b2z (f v) * Z.of_nat n.
Proof. induction n as [|n IH]; cbn [replicate countb]; [lia|]. rewrite IH. lia. Qed.

Lemma countb_full l : countb f l < zlen l → ∃ i, 0 ≤ i < zlen l ∧ f (l.[i]) = false.
Proof.
  induction l as [|x l IH]; cbn [countb length]; [lia|]. intros H.
  destruct (f x) eqn:E.
  - destruct IH as (i & Hi & Hf); [cbn in H; lia|]. exists (i + 1). split; [lia|].
    replace (Z.to_nat (i + 1)) with (S (Z.to_nat i)) by lia. done.
  - exists 0. split; [lia|done].
Qed.

Lemma countb_le l (g : A → bool) :
  (∀ x, f x = true → g x = true) → countb f l ≤ countb g l.
Proof.
  intros H. induction l as [|x l IH]; cbn [countb]; [lia|].
  specialize (H x). destruct (f x), (g x); cbn in *; lia.
Qed.
End countb.

Lemma countb_app {A} (f : A → bool) l1 l2 : countb f (l1 ++ l2) = countb f l1 + countb f l2.
Proof. induction l1 as [|x l1 IH]; cbn [app countb]; lia. Qed.

Lemma countb_take {A} `{!Inhabited A} (f : A → bool) l i : 0 ≤ i < zlen l →
  countb f (take (Z.to_nat (i + 1)) l) = countb f (take (Z.to_nat i) l) + Z.b2z (f (l.[i])).
Proof.
  intros Hi. replace (Z.to_nat (i + 1)) with (S (Z.to_nat i)) by lia.
  rewrite (take_S_r _ _ (l.[i])) by by apply znth_lookup. rewrite countb_app. cbn. lia.
Qed.

Lemma countb_take_le {A} (f : A → bool) l n : countb f (take n l) ≤ countb f l.
Proof.
  rewrite <- (take_drop n l) at 2. rewrite countb_app.
  pose proof (countb_range f (drop n l)). lia.
Qed.

(** ** Loops

    [for_range lo hi body s] is [for (i = lo; i < hi; i++)] and
    [for_downto hi lo body s] is [for (i = hi; i >= lo; i--)]; [loop] is a
    [while (1)] whose body falls through to the next iteration ([Next]),
    executes [break] ([Break]) or returns from the function ([Return]); its
    [fuel] bounds the number of iterations.  [for_ctl] is a [for] loop with the
    same three ways out. *)
Inductive ctl (St R : Type) : Type :=
| Next (s : St)
| Break (s : St)
| Return (r : R).
Arguments Next {St R} s.
Arguments Break {St R} s.
Arguments Return {St R} r.

(** How a loop ended: control reaches the statement after it, or the function
    has returned. *)
Inductive loop_exit (St R : Type) : Type :=
| Fell (s : St)
| Gave (r : R).
Arguments Fell {St R} s.
Arguments Gave {St R} r.

(** A function without result values returns through the loop with [Empty_set]. *)
Definition fell {St : Type} (x : loop_exit St Empty_set) : St :=
  match x with Fell s => s | Gave r => match r with end end.

Section loops.
Context {St R : Type}.

Fixpoint for_up (n : nat) (i : Z) (body : Z → St → Res St) (s : St) : Res St :=
  match n with
  | O => Ok s
  | S n => s' ← body i s; for_up n (i + 1) body s'
  end.

Definition for_range (lo hi : Z) (body : Z → St → Res St) (s : St) : Res St :=
  for_up (Z.to_nat (hi - lo)) lo body s.

Fixpoint for_down (n : nat) (i : Z) (body : Z → St → Res St) (s : St) : Res St :=
  match n with
  | O => Ok s
  | S n => s' ← body i s; for_down n (i - 1) body s'
  end.

Definition for_downto (hi lo : Z) (body : Z → St → Res St) (s : St) : Res St :=
  for_down (Z.to_nat (hi - lo + 1)) hi body s.

Fixpoint for_up_ctl (n : nat) (i : Z) (body : Z → St → Res (ctl St R)) (s : St)
  : Res (loop_exit St R) :=
  match n with
  | O => Ok (Fell s)
  | S n => c ← body i s;
           match c with
           | Next s' => for_up_ctl n (i + 1) body s'
           | Break s' => Ok (Fell s')
           | Return r => Ok (Gave r)
           end
  end.

Definition for_ctl (lo hi : Z) (body : Z → St → Res (ctl St R)) (s : St)
  : Res (loop_exit St R) :=
  for_up_ctl (Z.to_nat (hi - lo)) lo body s.

Fixpoint loop (fuel : nat) (body : St → Res (ctl St R)) (s : St)
  : Res (loop_exit St R) :=
  match fuel with
  | O => NoFuel
  | S fuel => c ← body s;
              match c with
              | Next s' => loop fuel body s'
              | Break s' => Ok (Fell s')
              | Return r => Ok (Gave r)
              end
  end.

(** [for (i = lo; i < hi; i += step)]. *)
Definition for_step (lo hi step : Z) (body : Z → St → Res St) (s : St) : Res St :=
  for_range 0 ((hi - lo + step - 1) / step) (λ t, body (lo + t * step)) s.

(** Invariant rules. *)
Lemma for_up_wp (I : Z → St → Prop) n lo body s :
  I lo s →
  (∀ i s, lo ≤ i < lo + Z.of_nat n → I i s → wp (body i s) (I (i + 1))) →
  wp (for_up n lo body s) (I (lo + Z.of_nat n)).
Proof.
  revert lo s. induction n as [|n IH]; intros lo s H0 Hstep; cbn [for_up].
  - by rewrite Z.add_0_r.
  - apply wp_bind. eapply wp_mono; [apply Hstep; [lia|done]|].
    intros s' Hs'. replace (lo + Z.of_nat (S n)) with (lo + 1 + Z.of_nat n) by lia.
    apply IH; [done|]. intros. apply Hstep; [lia|done].
Qed.

Lemma for_range_wp (I : Z → St → Prop) lo hi body s (Q : St → Prop) :
  I lo s →
  (∀ i s, lo ≤ i < hi → I i s → wp (body i s) (I (i + 1))) →
  (∀ s, I (Z.max lo hi) s → Q s) →
  wp (for_range lo hi body s) Q.
Proof.
  intros H0 Hstep HQ. eapply wp_mono; [|exact HQ]. unfold for_range.
  replace (Z.max lo hi) with (lo + Z.of_nat (Z.to_nat (hi - lo))) by lia.
  apply for_up_wp; [done|]. intros. apply Hstep; [lia|done].
Qed.

Lemma for_range_wpu (I : Z → St → Prop) lo hi body s (Q : St → Prop) :
  I lo s →
  (∀ i s, lo ≤ i < hi → I i s → wpu (body i s) (I (i + 1))) →
  (∀ s, I (Z.max lo hi) s → Q s) →
  wpu (for_range lo hi body s) Q.
Proof.
  intros H0 Hstep HQ. eapply wpu_mono; [|exact HQ]. unfold for_range.
  replace (Z.max lo hi) with (lo + Z.of_nat (Z.to_nat (hi - lo))) by lia.
  assert (Hs : ∀ i s, lo ≤ i < lo + Z.of_nat (Z.to_nat (hi - lo)) → I i s →
            wpu (body i s) (I (i + 1))) by (intros; apply Hstep; [lia|done]).
  clear Hstep HQ. revert Hs. generalize (Z.to_nat (hi - lo)) as n. intros n.
  revert lo s H0. induction n as [|n IH]; intros lo s H0 Hstep; cbn [for_up].
  - by rewrite Z.add_0_r.
  - apply wpu_bind. eapply wpu_mono; [apply Hstep; [lia|done]|].
    intros s' Hs'. replace (lo + Z.of_nat (S n)) with (lo + 1 + Z.of_nat n) by lia.
    apply IH; [done|]. intros. apply Hstep; [lia|done].
Qed.

Lemma for_step_wp (I : Z → St → Prop) lo hi step body s (Q : St → Prop) :
  0 < step →
  I lo s →
  (∀ i s, lo ≤ i < hi → (step | i - lo) → I i s → wp (body i s) (I (i + step))) →
  (∀ i s, hi ≤ i → I i s → Q s) →
  wp (for_step lo hi step body s) Q.
Proof.
  intros Hs H0 Hstep HQ. pose proof (Z.div_mod (hi - lo + step - 1) step ltac:(lia)) as Hd.
  pose proof (Z.mod_pos_bound (hi - lo + step - 1) step Hs) as Hm.
  unfold for_step. apply (for_range_wp (λ t, I (lo + t * step))).
  - by rewrite Z.mul_0_l, Z.add_0_r.
  - intros t s' Ht HI. eapply wp_mono; [apply Hstep; [nia| |done]|].
    + exists t. lia.
    + intros s'' H''. by replace (lo + (t + 1) * step) with (lo + t * step + step) by lia.
  - intros s' HI. eapply HQ; [|exact HI]. nia.
Qed.

Lemma for_downto_wp (I : Z → St → Prop) hi lo body s (Q : St → Prop) :
  I hi s →
  (∀ i s, lo ≤ i ≤ hi → I i s → wp (body i s) (I (i - 1))) →
  (∀ s, I (Z.min hi (lo - 1)) s → Q s) →
  wp (for_downto hi lo body s) Q.
Proof.
  intros H0 Hstep HQ. eapply wp_mono; [|exact HQ]. clear Q HQ. unfold for_downto.
  remember (Z.to_nat (hi - lo + 1)) as n eqn:En.
  revert hi s H0 Hstep En. induction n as [|n IH]; intros hi s H0 Hstep En; cbn [for_down].
  - by replace (Z.min hi (lo - 1)) with hi by lia.
  - apply wp_bind. eapply wp_mono; [apply Hstep; [lia|done]|].
    intros s' Hs'. replace (Z.min hi (lo - 1)) with (Z.min (hi - 1) (lo - 1)) by lia.
    apply IH; [done| |lia]. intros. apply Hstep; [lia|done].
Qed.

Lemma for_ctl_wp (I : Z → St → Prop) lo hi body s (Q : loop_exit St R → Prop) :
  I lo s →
  (∀ i s, lo ≤ i < hi → I i s →
     wp (body i s) (λ c, match c with
                         | Next s' => I (i + 1) s'
                         | Break s' => Q (Fell s')
                         | Return r => Q (Gave r)
                         end)) →
  (∀ s, I (Z.max lo hi) s → Q (Fell s)) →
  wp (for_ctl lo hi body s) Q.
Proof.
  unfold for_ctl. remember (Z.to_nat (hi - lo)) as n eqn:En.
  revert lo s En. induction n as [|n IH]; intros lo s En H0 Hstep HQ; cbn [for_up_ctl].
  - apply HQ. by replace (Z.max lo hi) with lo by lia.
  - apply wp_bind. eapply wp_mono; [apply Hstep; [lia|done]|].
    intros [s'|s'|r] Hc; simpl; [|done|done].
    apply IH; [lia|done| |].
    + intros. apply Hstep; [lia|done].
    + intros s'' Hs''. apply HQ. by replace (Z.max lo hi) with (Z.max (lo + 1) hi) by lia.
Qed.

Lemma for_ctl_wpu (I : Z → St → Prop) lo hi body s (Q : loop_exit St R → Prop) :
  I lo s →
  (∀ i s, lo ≤ i < hi → I i s →
     wpu (body i s) (λ c, match c with
                          | Next s' => I (i + 1) s'
                          | Break s' => Q (Fell s')
                          | Return r => Q (Gave r)
                          end)) →
  (∀ s, I (Z.max lo hi) s → Q (Fell s)) →
  wpu (for_ctl lo hi body s) Q.
Proof.
  unfold for_ctl. remember (Z.to_nat (hi - lo)) as n eqn:En.
  revert lo s En. induction n as [|n IH]; intros lo s En H0 Hstep HQ; cbn [for_up_ctl].
  - apply HQ. by replace (Z.max lo hi) with lo by lia.
  - apply wpu_bind. eapply wpu_mono; [apply Hstep; [lia|done]|].
    intros [s'|s'|r] Hc; simpl; [|done|done].
    apply IH; [lia|done| |].
    + intros. apply Hstep; [lia|done].
    + intros s'' Hs''. apply HQ. by replace (Z.max lo hi) with (Z.max (lo + 1) hi) by lia.
Qed.

Lemma loop_wp (I : St → Prop) (μ : St → nat) body (Q : loop_exit St R → Prop) fuel s :
  I s → (μ s < fuel)%nat →
  (∀ s, I s →
     wp (body s) (λ c, match c with
                       | Next s' => I s' ∧ (μ s' < μ s)%nat
                       | Break s' => Q (Fell s')
                       | Return r => Q (Gave r)
                       end)) →
  wp (loop fuel body s) Q.
Proof.
  intros Hs Hf Hstep. revert s Hs Hf.
  induction fuel as [|fuel IH]; intros s Hs Hf; [lia|]. cbn [loop].
  apply wp_bind. eapply wp_mono; [by apply Hstep|].
  intros [s'|s'|r] Hc; simpl; [|done|done].
  destruct Hc. apply IH; [done|lia].
Qed.

Lemma loop_wlp (I : St → Prop) body (Q : loop_exit St R → Prop) fuel s :
  I s →
  (∀ s, I s →
     wlp (body s) (λ c, match c with
                        | Next s' => I s'
                        | Break s' => Q (Fell s')
                        | Return r => Q (Gave r)
                        end)) →
  wlp (loop fuel body s) Q.
Proof.
  intros Hs Hstep. revert s Hs.
  induction fuel as [|fuel IH]; intros s Hs; [done|]. cbn [loop].
  apply wlp_bind. eapply wlp_mono; [by apply Hstep|].
  intros [s'|s'|r] Hc; simpl; auto.
Qed.

(** More fuel never changes a result. *)
Lemma loop_fuel_mono n m body s r :
  (n ≤ m)%nat → loop n body s = Ok r → loop m body s = Ok r.
Proof.
  revert m s. induction n as [|n IH]; intros [|m] s Hle; simpl; try done; [lia|].
  destruct (body s) as [[s'|s'|r']| |]; simpl; try done. apply IH. lia.
Qed.
End loops.

Lemma take_zset (l : list Z) n a : 0 ≤ n < zlen l → take (Z.to_nat (n + 1)) (zset l n a) = take (Z.to_nat n) l ++ [a].
Proof.
  intros Hn. replace (Z.to_nat (n + 1)) with (S (Z.to_nat n)) by lia. unfold zset.
  rewrite (take_S_r _ _ a) by (rewrite list_lookup_insert_eq; [done|lia]). by rewrite take_insert_ge by lia.
Qed.

(** ** Proof automation *)

(** Solves index side conditions. *)
Ltac arr_side := autorewrite with arr in *; c_unfold; lia.

(** One symbolic-execution step of a goal [wp m Q]. *)
Ltac wp_step :=
  match goal with
  | |- wp (mbind _ _) _ => apply wp_bind
  | |- wp (mret _) _ => cbn [wp mret Res_ret]
  | |- wp (Ok _) _ => cbn [wp]
  | |- wp (rd ?l ?i) _ => rewrite (rd_ok l i) by arr_side; cbn [wp]
  | |- wp (wr ?l ?i ?v) _ => rewrite (wr_ok l i v) by arr_side; cbn [wp]
  | |- wp (i32 ?z) _ => rewrite (i32_ok z) by arr_side; cbn [wp]
  | |- wp (i64 ?z) _ => rewrite (i64_ok z) by arr_side; cbn [wp]
  end.
Ltac wp_run := repeat wp_step.

(** Reads back what an update of an array stored. *)
Ltac znth_simpl :=
  repeat first
    [ rewrite znth_zset_eq by arr_side
    | rewrite znth_zset_ne by arr_side ].
