(* ===== verification/F32.v ===== *)
(** * IEEE-754 binary32 arithmetic, as C's [float]

    The operations are the executable specification of Corelib's [SpecFloat]
    at precision 24 and maximal exponent 128, with round-to-nearest-even;
    [float] expressions are evaluated without excess precision and without
    contraction.  The second half shows that arithmetic on small dyadic
    numbers is exact, which is what the coverage accumulation of the
    rasterizer and the integer conversions rely on. *)
From Stdlib Require Export Floats.SpecFloat.
From Hammer Require Import Tactics.
From S2P Require Import Prelude.

Abbreviation f32 := spec_float.

Definition prec32 : Z := 24.
Definition emax32 : Z := 128.

Definition fadd : f32 → f32 → f32 := SFadd prec32 emax32.
Definition fsub : f32 → f32 → f32 := SFsub prec32 emax32.
Definition fmul : f32 → f32 → f32 := SFmul prec32 emax32.
Definition fdiv : f32 → f32 → f32 := SFdiv prec32 emax32.
Definition flt : f32 → f32 → bool := SFltb.
Definition fle : f32 → f32 → bool := SFleb.
Definition fabsf : f32 → f32 := SFabs.

(** [dy z e] is the float nearest to [z * 2^e]; [fz z] is [(float)z]. *)
Definition dy (z e : Z) : f32 := binary_normalize prec32 emax32 z e false.
Definition fz (z : Z) : f32 := dy z 0.

#[export] Instance f32_inhabited : Inhabited spec_float := populate (fz 0).

(** A decimal literal [n/d], correctly rounded ([n], [d] exactly representable). *)
Definition flit (n d : Z) : f32 := fdiv (fz n) (fz d).

(** The integer part of the magnitude [m * 2^e], and whether it is exact. *)
Definition int_part (m : positive) (e : Z) : Z * bool :=
  if 0 <=? e then (Z.shiftl (Zpos m) e, true)
  else let q := Z.shiftr (Zpos m) (- e) in
       (q, Z.shiftl q (- e) =? Zpos m).

Definition floorf (x : f32) : f32 :=
  match x with
  | S754_finite s m e =>
      if 0 <=? e then x else
      let '(q, exact) := int_part m e in
      if s then binary_normalize prec32 emax32 (- (if exact then q else q + 1)) 0 true
      else binary_normalize prec32 emax32 q 0 false
  | _ => x
  end.

Definition ceilf (x : f32) : f32 :=
  match x with
  | S754_finite s m e =>
      if 0 <=? e then x else
      let '(q, exact) := int_part m e in
      if s then binary_normalize prec32 emax32 (- q) 0 true
      else binary_normalize prec32 emax32 (if exact then q else q + 1) 0 false
  | _ => x
  end.

(** The float literal [n/d] of any size, correctly rounded. *)
Definition fdec (n d : positive) : f32 :=
  SFdiv prec32 emax32 (S754_finite false n 0) (S754_finite false d 0).

(** Conversion to an integer type: truncation towards zero, undefined when the
    truncated value is not one of the type's. *)
Definition ftrunc (x : f32) : option Z :=
  match x with
  | S754_zero _ => Some 0
  | S754_finite s m e =>
      let q := fst (int_part m e) in Some (if s then - q else q)
  | _ => None
  end.

Definition f2i (x : f32) : Res Z :=
  match ftrunc x with Some q => i32 q | None => Undef end.

Definition f2u8 (x : f32) : Res Z :=
  match ftrunc x with
  | Some q => if (0 <=? q) && (q <? 256) then Ok q else Undef
  | None => Undef
  end.

(** The same for 16 bits. *)
Definition f2u16 (x : f32) : Res Z :=
  match ftrunc x with
  | Some q => if (0 <=? q) && (q <? 65536) then Ok q else Undef
  | None => Undef
  end.

Definition is_finite (x : f32) : bool :=
  match x with S754_zero _ | S754_finite _ _ _ => true | _ => false end.

Definition is_nan (x : f32) : bool :=
  match x with S754_nan => true | _ => false end.

(** ** Comparison *)

Lemma pos_compare_cont_Eq (p q : positive) : Pos.compare_cont Eq p q = Pos.compare p q.
Proof. done. Qed.

Lemma SFcompare_swap x y : SFcompare y x = CompOpp <$> SFcompare x y.
Proof.
  destruct x as [[]|[]| |[] m e], y as [[]|[]| |[] m' e']; try done; simpl;
    rewrite (Z.compare_antisym e' e); destruct (e' ?= e) eqn:E; simpl; try done;
    by rewrite ?Pos.compare_cont_antisym.
Qed.

Lemma SFcompare_None x y : SFcompare x y = None ↔ is_nan x = true ∨ is_nan y = true.
Proof. destruct x as [[]|[]| |[] m e], y as [[]|[]| |[] m' e']; simpl; naive_solver. Qed.

Lemma SFcompare_Eq_finite x y :
  is_finite x = true → SFcompare x y = Some Eq →
  x = y ∨ (∃ s s', x = S754_zero s ∧ y = S754_zero s').
Proof.
  destruct x as [s|[]| |[] m e], y as [s'|[]| |[] m' e']; simpl; try done; intros _ H; eauto.
  all: left; injection H as H; destruct (e ?= e') eqn:Ee; try done;
    apply Z.compare_eq_iff in Ee as ->; f_equal;
    rewrite pos_compare_cont_Eq in H.
  - destruct (Pos.compare_spec m m'); simpl in *; done.
  - by apply Pos.compare_eq in H.
Qed.

Lemma flt_irrefl_swap x y : flt x y = true → flt y x = false.
Proof.
  unfold flt, SFltb. rewrite (SFcompare_swap x y).
  by destruct (SFcompare x y) as [[]|].
Qed.

(** Two finite floats that are neither equal nor increasing are decreasing. *)
Lemma flt_total x y :
  is_finite x = true → is_finite y = true →
  flt x y = false → SFcompare x y ≠ Some Eq → flt y x = true.
Proof.
  unfold flt, SFltb. rewrite (SFcompare_swap x y). intros Hx Hy H HE.
  destruct (SFcompare x y) as [[]|] eqn:E; simpl in *; try done.
  apply SFcompare_None in E. destruct x, y; hauto.
Qed.

(** The order on finite floats is a lexicographic order on integers. *)
Definition fkey (x : f32) : Z * Z * Z :=
  match x with
  | S754_finite false m e => (1, e, Zpos m)
  | S754_finite true m e => (-1, - e, Zneg m)
  | _ => (0, 0, 0)
  end.

Definition key_lt (a b : Z * Z * Z) : Prop :=
  a.1.1 < b.1.1 ∨ (a.1.1 = b.1.1 ∧ (a.1.2 < b.1.2 ∨ (a.1.2 = b.1.2 ∧ a.2 < b.2))).

Lemma fcompare_key x y : is_finite x = true → is_finite y = true →
  match SFcompare x y with
  | Some Lt => key_lt (fkey x) (fkey y)
  | Some Eq => fkey x = fkey y
  | Some Gt => key_lt (fkey y) (fkey x)
  | None => False
  end.
Proof.
  unfold key_lt.
  destruct x as [sx| | |[] m e], y as [sy| | |[] m' e']; simpl; try done; intros _ _; try lia.
  all: destruct (Z.compare_spec e e'); subst; simpl; try lia.
  all: change (Pos.compare_cont Eq) with Pos.compare;
       destruct (Pos.compare_spec m m'); simpl; subst; try done; lia.
Qed.

Lemma flt_key x y : is_finite x = true → is_finite y = true →
  flt x y = true ↔ key_lt (fkey x) (fkey y).
Proof.
  intros Hx Hy. pose proof (fcompare_key x y Hx Hy) as H. unfold flt, SFltb.
  destruct (SFcompare x y) as [[]|]; split; try done; unfold key_lt in *;
    try rewrite H; intros; lia.
Qed.

Lemma fle_key x y : is_finite x = true → is_finite y = true →
  fle x y = true ↔ ¬ key_lt (fkey y) (fkey x).
Proof.
  intros Hx Hy. pose proof (fcompare_key x y Hx Hy) as H. unfold fle, SFleb.
  destruct (SFcompare x y) as [[]|]; split; try done; unfold key_lt in *;
    try rewrite H; intros; lia.
Qed.

Lemma fle_not_flt x y : is_finite x = true → is_finite y = true →
  fle x y = negb (flt y x).
Proof.
  intros Hx Hy. pose proof (fle_key x y Hx Hy). pose proof (flt_key y x Hy Hx).
  destruct (fle x y), (flt y x); simpl; intuition congruence.
Qed.

Lemma flt_fle_trans x y z :
  is_finite x = true → is_finite y = true → is_finite z = true →
  flt x y = true → fle y z = true → fle x z = true.
Proof.
  intros Hx Hy Hz. rewrite flt_key, !fle_key by done. unfold key_lt. lia.
Qed.

Lemma fsub_self x : is_finite x = true → fsub x x = fz 0.
Proof.
  destruct x as [[]| | |s m e]; simpl; try done. intros _. by rewrite Z.sub_diag.
Qed.

Lemma fabsf_fsub_zeros s s' : fabsf (fsub (S754_zero s) (S754_zero s')) = fabsf (fz 0).
Proof. by destruct s, s'. Qed.

(** ** Exactness on small dyadic numbers

    [dy z e] with [|z| < 2^24] and [-100 ≤ e ≤ 100] represents [z * 2^e]
    exactly, so sums, differences and comparisons of such numbers with a
    common exponent, and their products, are those of the integers. *)

Definition small (z : Z) : Prop := Z.abs z < 2 ^ 24.

Lemma digits2_spec p : 2 ^ (Zpos (digits2_pos p) - 1) ≤ Zpos p < 2 ^ Zpos (digits2_pos p).
Proof.
  induction p as [p IH|p IH|]; cbn [digits2_pos]; [| |done];
    rewrite Pos2Z.inj_succ; set (d := Zpos (digits2_pos p)) in *;
    replace (Z.succ d - 1) with (Z.succ (d - 1)) by lia;
    rewrite (Z.pow_succ_r 2 d), (Z.pow_succ_r 2 (d - 1)) by lia; lia.
Qed.

Lemma digits2_unique p d : 2 ^ (d - 1) ≤ Zpos p < 2 ^ d → Zpos (digits2_pos p) = d.
Proof.
  intros [H1 H2]. pose proof (digits2_spec p) as [H3 H4].
  set (d' := Zpos (digits2_pos p)) in *.
  destruct (Z.lt_trichotomy d' d) as [Hlt|[->|Hlt]]; [|done|].
  - pose proof (Z.pow_le_mono_r 2 d' (d - 1)). lia.
  - pose proof (Z.pow_le_mono_r 2 d (d' - 1)). lia.
Qed.

Lemma iter_xO m n : Zpos (Pos.iter xO m n) = Zpos m * 2 ^ Zpos n.
Proof.
  induction n as [|n IH] using Pos.peano_ind; [simpl; lia|].
  rewrite Pos.iter_succ, Pos2Z.inj_succ, Z.pow_succ_r by lia.
  change (Zpos (Pos.iter xO m n)~0) with (2 * Zpos (Pos.iter xO m n)). lia.
Qed.

Lemma shl_align_spec m e e' :
  shl_align m e e' = (Z.to_pos (Zpos m * 2 ^ Z.max 0 (e - e')), Z.min e e').
Proof.
  unfold shl_align. destruct (e' - e) eqn:E.
  - replace (Z.max 0 (e - e')) with 0 by lia. rewrite Z.mul_1_r. simpl. f_equal. lia.
  - replace (Z.max 0 (e - e')) with 0 by lia. rewrite Z.mul_1_r. simpl. f_equal. lia.
  - replace (Z.max 0 (e - e')) with (Zpos p) by lia. rewrite <- iter_xO. simpl. f_equal. lia.
Qed.

Lemma shr_1_even p : shr_1 (Build_shr_record (Zpos (xO p)) false false)
                     = Build_shr_record (Zpos p) false false.
Proof. done. Qed.

Lemma iter_pos_comm {A} (f : A → A) n x :
  SpecFloat.iter_pos f n (f x) = f (SpecFloat.iter_pos f n x).
Proof. revert x. induction n as [n IH|n IH|]; intros x; simpl; by rewrite ?IH. Qed.

Lemma iter_pos_succ {A} (f : A → A) n x :
  SpecFloat.iter_pos f (Pos.succ n) x = SpecFloat.iter_pos f n (f x).
Proof.
  revert x. induction n as [n IH|n IH|]; intros x; simpl; [|done|done].
  by rewrite !IH, <- !iter_pos_comm.
Qed.

Lemma shr_exact m n e :
  shr (Build_shr_record (Zpos m * 2 ^ Z.max 0 n) false false) e n
  = (Build_shr_record (Zpos m) false false, e + Z.max 0 n).
Proof.
  unfold shr. destruct n as [|n|n].
  - cbn [Z.max Z.compare]. rewrite Z.pow_0_r, Z.mul_1_r, Z.add_0_r. done.
  - replace (Z.max 0 (Zpos n)) with (Zpos n) by lia. f_equal.
    rewrite <- iter_xO. revert m.
    induction n as [|n IH] using Pos.peano_ind; intros m; [done|].
    rewrite iter_pos_succ, Pos.iter_succ, shr_1_even. apply IH.
  - cbn [Z.max Z.compare]. rewrite Z.pow_0_r, Z.mul_1_r, Z.add_0_r. done.
Qed.

(** Rounding [c * 2^k] with at most 24 significant digits in [c]. *)
Lemma round_exact s c k e :
  0 ≤ k → let d := Zpos (digits2_pos c) in
  d ≤ 24 → -149 ≤ e + k + d - 24 ≤ 104 →
  binary_round prec32 emax32 s (Z.to_pos (Zpos c * 2 ^ k)) e
  = S754_finite s (Z.to_pos (Zpos c * 2 ^ (24 - d))) (e + k + d - 24).
Proof.
  intros Hk d Hd He.
  pose proof (digits2_spec c) as Hc. fold d in Hc.
  assert (0 < 2 ^ k) by (apply Z.pow_pos_nonneg; lia).
  set (m := Z.to_pos (Zpos c * 2 ^ k)).
  assert (Hm : Zpos m = Zpos c * 2 ^ k) by (apply Z2Pos.id; nia).
  assert (Hdm : Zpos (digits2_pos m) = d + k).
  { apply digits2_unique. rewrite Hm.
    replace (d + k - 1) with (d - 1 + k) by lia.
    rewrite !Z.pow_add_r by lia. nia. }
  set (m24 := Z.to_pos (Zpos c * 2 ^ (24 - d))).
  assert (0 < 2 ^ (24 - d)) by (apply Z.pow_pos_nonneg; lia).
  assert (Hm24 : Zpos m24 = Zpos c * 2 ^ (24 - d)) by (apply Z2Pos.id; nia).
  assert (Hd24 : Zpos (digits2_pos m24) = 24).
  { apply digits2_unique. rewrite Hm24.
    replace 24 with (d + (24 - d)) at 4 by lia.
    replace (24 - 1) with (d - 1 + (24 - d)) by lia.
    rewrite !Z.pow_add_r by lia. nia. }
  unfold binary_round. rewrite Hdm, shl_align_spec.
  assert (Hfe : fexp prec32 emax32 (d + k + e) = e + k + d - 24).
  { unfold fexp, emin, prec32, emax32. lia. }
  rewrite Hfe. unfold binary_round_aux.
  set (m1 := Z.to_pos _). set (e1 := Z.min _ _).
  assert (Hm1 : Zpos m1 = Zpos m24 * 2 ^ Z.max 0 (d + k - 24)).
  { unfold m1. rewrite Z2Pos.id.
    - rewrite Hm, Hm24, <- !Z.mul_assoc, <- !Z.pow_add_r by lia.
      do 2 f_equal. lia.
    - apply Z.mul_pos_pos; [lia|]. apply Z.pow_pos_nonneg; lia. }
  assert (Hdm1 : Zpos (digits2_pos m1) = 24 + Z.max 0 (d + k - 24)).
  { apply digits2_unique. rewrite Hm1. pose proof (digits2_spec m24) as H24.
    rewrite Hd24 in H24.
    replace (24 + Z.max 0 (d + k - 24) - 1) with (24 - 1 + Z.max 0 (d + k - 24)) by lia.
    rewrite !Z.pow_add_r by lia.
    assert (0 < 2 ^ Z.max 0 (d + k - 24)) by (apply Z.pow_pos_nonneg; lia). nia. }
  assert (Hs1 : shr_fexp prec32 emax32 (Zpos m1) e1 loc_Exact
          = (Build_shr_record (Zpos m24) false false, e + k + d - 24)).
  { unfold shr_fexp. cbn [shr_record_of_loc Zdigits2]. rewrite Hdm1, Hm1.
    unfold fexp, emin, prec32, emax32.
    replace (Z.max (24 + Z.max 0 (d + k - 24) + e1 - 24) (3 - 128 - 24) - e1)
      with (Z.max 0 (d + k - 24)) by lia.
    rewrite <- (Z.max_r 0 (Z.max 0 (d + k - 24))) at 1 by lia.
    rewrite shr_exact. f_equal. lia. }
  rewrite Hs1. cbn [shr_m loc_of_shr_record round_nearest_even].
  assert (Hs2 : shr_fexp prec32 emax32 (Zpos m24) (e + k + d - 24) loc_Exact
          = (Build_shr_record (Zpos m24) false false, e + k + d - 24)).
  { unfold shr_fexp. cbn [shr_record_of_loc Zdigits2]. rewrite Hd24.
    unfold fexp, emin, prec32, emax32.
    replace (Z.max _ _ - _) with 0 by lia. done. }
  rewrite Hs2. cbn [shr_m]. unfold prec32, emax32.
  by destruct (Z.leb_spec (e + k + d - 24) (128 - 24)); [|lia].
Qed.

Definition ndig (z : Z) : Z := Zdigits2 z.

Lemma small_digits z : small z → 0 ≤ ndig z ≤ 24.
Proof.
  unfold small, ndig. intros H. destruct z as [|p|p]; simpl; [lia| |];
    pose proof (digits2_spec p) as [H1 _];
    (destruct (Z.le_gt_cases (Zpos (digits2_pos p)) 24); [lia|]);
    pose proof (Z.pow_le_mono_r 2 24 (Zpos (digits2_pos p) - 1)); lia.
Qed.

Lemma ndig_abs z : z ≠ 0 → ndig z = Zpos (digits2_pos (Z.to_pos (Z.abs z))) ∧ 1 ≤ ndig z.
Proof. destruct z; simpl; try done; intros; split; try done; unfold ndig, Zdigits2; lia. Qed.

Lemma dy_0 e : dy 0 e = S754_zero false.
Proof. done. Qed.

(** Normal form of a number with few significant bits. *)
Lemma dy_pow z k e :
  small z → z ≠ 0 → 0 ≤ k → -125 ≤ e + k ≤ 104 →
  dy (z * 2 ^ k) e =
  S754_finite (z <? 0) (Z.to_pos (Z.abs z * 2 ^ (24 - ndig z))) (e + k + ndig z - 24).
Proof.
  intros Hs Hz Hk He. pose proof (small_digits z Hs).
  pose proof (ndig_abs z Hz) as [Hd Hd1].
  assert (0 < 2 ^ k) by (apply Z.pow_pos_nonneg; lia).
  set (c := Z.to_pos (Z.abs z)) in *.
  assert (Hc : Zpos c = Z.abs z) by (apply Z2Pos.id; lia).
  assert (Hzc : z * 2 ^ k = if z <? 0 then Zneg (Z.to_pos (Zpos c * 2 ^ k))
                            else Zpos (Z.to_pos (Zpos c * 2 ^ k))).
  { destruct (Z.ltb_spec z 0).
    - rewrite <- Pos2Z.opp_pos, Z2Pos.id by nia. nia.
    - rewrite Z2Pos.id by nia. nia. }
  unfold dy. rewrite Hzc.
  destruct (z <? 0); cbn [binary_normalize]; rewrite round_exact by lia;
    by rewrite Hc, <- Hd.
Qed.

Lemma dy_fin z e :
  small z → z ≠ 0 → -125 ≤ e ≤ 104 →
  dy z e = S754_finite (z <? 0) (Z.to_pos (Z.abs z * 2 ^ (24 - ndig z))) (e + ndig z - 24).
Proof.
  intros. rewrite <- (Z.mul_1_r z) at 1. change 1 with (2 ^ 0).
  rewrite dy_pow by (done || lia). f_equal. lia.
Qed.

Lemma dy_shift z k e :
  small z → 0 ≤ k → -125 ≤ e + k ≤ 104 → dy (z * 2 ^ k) e = dy z (e + k).
Proof.
  intros. destruct (decide (z = 0)) as [->|]; [done|].
  rewrite dy_pow, dy_fin by (done || lia). done.
Qed.

Lemma dy_mant_pos z : z ≠ 0 → small z →
  Zpos (Z.to_pos (Z.abs z * 2 ^ (24 - ndig z))) = Z.abs z * 2 ^ (24 - ndig z).
Proof.
  intros Hz Hs. apply Z2Pos.id. pose proof (small_digits z Hs).
  assert (0 < 2 ^ (24 - ndig z)) by (apply Z.pow_pos_nonneg; lia). nia.
Qed.

(** Aligning the mantissa of [dy z e] to an exponent below its own. *)
Lemma dy_align z e n :
  z ≠ 0 → small z → n ≤ ndig z →
  cond_Zopp (z <? 0) (Zpos (fst (shl_align (Z.to_pos (Z.abs z * 2 ^ (24 - ndig z)))
                                   (e + ndig z - 24) (e + n - 24))))
  = z * 2 ^ (24 - n).
Proof.
  intros Hz Hs Hn. rewrite shl_align_spec. cbn [fst].
  pose proof (small_digits z Hs).
  replace (Z.max 0 _) with (ndig z - n) by lia.
  assert (0 < 2 ^ (24 - n)) by (apply Z.pow_pos_nonneg; lia).
  rewrite dy_mant_pos, <- Z.mul_assoc, <- Z.pow_add_r by (done || lia).
  replace (24 - ndig z + (ndig z - n)) with (24 - n) by lia.
  rewrite Z2Pos.id by nia. unfold cond_Zopp.
  destruct (Z.ltb_spec z 0); nia.
Qed.

Section exact.
Context (e : Z) (He : -100 ≤ e ≤ 100).

Lemma fadd_exact a b : small a → small b → small (a + b) →
  fadd (dy a e) (dy b e) = dy (a + b) e.
Proof using He.
  intros Ha Hb Hab.
  destruct (decide (a = 0)) as [->|Ha0].
  { destruct (decide (b = 0)) as [->|Hb0]; [done|].
    rewrite Z.add_0_l, (dy_fin b) by (done || lia). done. }
  destruct (decide (b = 0)) as [->|Hb0].
  { rewrite Z.add_0_r, (dy_fin a) by (done || lia). done. }
  pose proof (small_digits a Ha). pose proof (small_digits b Hb).
  set (n := Z.min (ndig a) (ndig b)).
  rewrite (dy_fin a), (dy_fin b) by (done || lia). unfold fadd, SFadd.
  replace (Z.min _ _) with (e + n - 24) by lia.
  rewrite !dy_align by (done || lia).
  change (dy (a * 2 ^ (24 - n) + b * 2 ^ (24 - n)) (e + n - 24) = dy (a + b) e).
  rewrite <- Z.mul_add_distr_r, dy_shift by (done || lia). f_equal. lia.
Qed.

Lemma fsub_exact a b : small a → small b → small (a - b) →
  fsub (dy a e) (dy b e) = dy (a - b) e.
Proof using He.
  intros Ha Hb Hab. pose proof (small_digits b Hb).
  destruct (decide (b = 0)) as [->|Hb0].
  { rewrite Z.sub_0_r. destruct (decide (a = 0)) as [->|Ha0]; [done|].
    rewrite (dy_fin a) by (done || lia). done. }
  destruct (decide (a = 0)) as [->|Ha0].
  { rewrite Z.sub_0_l, (dy_fin b), (dy_fin (- b)) by (unfold small in *; lia).
    unfold dy; simpl. f_equal.
    - destruct (Z.ltb_spec b 0), (Z.ltb_spec (- b) 0); done || lia.
    - rewrite Z.abs_opp. by destruct b.
    - by destruct b. }
  pose proof (small_digits a Ha).
  set (n := Z.min (ndig a) (ndig b)).
  rewrite (dy_fin a), (dy_fin b) by (done || lia). unfold fsub, SFsub.
  replace (Z.min _ _) with (e + n - 24) by lia.
  rewrite !dy_align by (done || lia).
  change (dy (a * 2 ^ (24 - n) - b * 2 ^ (24 - n)) (e + n - 24) = dy (a - b) e).
  rewrite <- Z.mul_sub_distr_r, dy_shift by (done || lia). f_equal. lia.
Qed.

Lemma fabs_exact a : small a → fabsf (dy a e) = dy (Z.abs a) e.
Proof using He.
  intros Ha. destruct (decide (a = 0)) as [->|Ha0]; [done|].
  rewrite (dy_fin a), (dy_fin (Z.abs a)) by (unfold small in *; lia).
  simpl. rewrite Z.abs_involutive.
  replace (ndig (Z.abs a)) with (ndig a) by (by destruct a). f_equal.
  destruct (Z.ltb_spec (Z.abs a) 0); done || lia.
Qed.

Lemma digits_lt a b : ndig a < ndig b → Z.abs a < Z.abs b.
Proof using Type.
  intros H. destruct (decide (b = 0)) as [->|Hb].
  { destruct (decide (a = 0)) as [->|Ha]; [done|]. pose proof (ndig_abs a Ha). simpl in *. lia. }
  pose proof (ndig_abs b Hb) as [Eb _].
  pose proof (digits2_spec (Z.to_pos (Z.abs b))) as [Lb _].
  rewrite <- Eb, Z2Pos.id in Lb by lia.
  destruct (decide (a = 0)) as [->|Ha]; [lia|].
  pose proof (ndig_abs a Ha) as [Ea ?].
  pose proof (digits2_spec (Z.to_pos (Z.abs a))) as [_ Ua].
  rewrite <- Ea, Z2Pos.id in Ua by lia.
  pose proof (Z.pow_le_mono_r 2 (ndig a) (ndig b - 1)). lia.
Qed.

Lemma mant_compare a b :
  a ≠ 0 → b ≠ 0 → small a → small b → ndig a = ndig b →
  Pos.compare_cont Eq (Z.to_pos (Z.abs a * 2 ^ (24 - ndig a)))
                      (Z.to_pos (Z.abs b * 2 ^ (24 - ndig b))) = (Z.abs a ?= Z.abs b).
Proof using Type.
  intros Ha Hb Hsa Hsb Hd.
  change (Pos.compare_cont Eq) with Pos.compare.
  rewrite Pos2Z.inj_compare, !dy_mant_pos, Hd by done.
  assert (0 < 2 ^ (24 - ndig b)).
  { apply Z.pow_pos_nonneg; [lia|]. pose proof (small_digits b Hsb). lia. }
  symmetry. apply Zmult_compare_compat_r. lia.
Qed.

Lemma fcompare_exact a b : small a → small b →
  SFcompare (dy a e) (dy b e) = Some (a ?= b).
Proof using He.
  intros Ha Hb.
  destruct (decide (a = 0)) as [->|Ha0]; destruct (decide (b = 0)) as [->|Hb0]; [done| | |].
  { rewrite (dy_fin b) by (done || lia). simpl. f_equal. by destruct b. }
  { rewrite (dy_fin a) by (done || lia). simpl. f_equal. by destruct a. }
  rewrite (dy_fin a), (dy_fin b) by (done || lia). cbn [SFcompare].
  destruct (Z.compare_spec (e + ndig a - 24) (e + ndig b - 24)) as [Hd|Hd|Hd];
    [rewrite mant_compare by (done || lia)
    |assert (Z.abs a < Z.abs b) by (apply digits_lt; lia)
    |assert (Z.abs b < Z.abs a) by (apply digits_lt; lia)];
    destruct (Z.ltb_spec a 0), (Z.ltb_spec b 0); f_equal; symmetry;
    first [apply Z.compare_gt_iff; lia | apply Z.compare_lt_iff; lia | idtac].
  - rewrite !Z.abs_neq, Z.compare_opp, Z.compare_antisym by lia. done.
  - rewrite !Z.abs_eq by lia. done.
Qed.

Lemma flt_exact a b : small a → small b → flt (dy a e) (dy b e) = (a <? b).
Proof using He.
  intros. unfold flt, SFltb, Z.ltb. rewrite fcompare_exact by done. by destruct (a ?= b).
Qed.

Lemma fle_exact a b : small a → small b → fle (dy a e) (dy b e) = (a <=? b).
Proof using He.
  intros. unfold fle, SFleb, Z.leb. rewrite fcompare_exact by done. by destruct (a ?= b).
Qed.
End exact.

(** Products.  (Signs are excluded because [0 * negative] is [-0].) *)
Lemma binary_round_ge24 s m e :
  24 ≤ Zpos (digits2_pos m) → -149 ≤ Zpos (digits2_pos m) + e - 24 →
  binary_round_aux prec32 emax32 s (Zpos m) e loc_Exact = binary_round prec32 emax32 s m e.
Proof.
  intros Hd He. unfold binary_round. rewrite shl_align_spec.
  set (d := Zpos (digits2_pos m)) in *.
  assert (Hf : fexp prec32 emax32 (d + e) = d + e - 24)
    by (unfold fexp, emin, prec32, emax32; lia).
  rewrite Hf, Z.max_l, Z.pow_0_r, Z.mul_1_r, Z.min_l by lia. done.
Qed.

Lemma digits2_ge p n : 0 ≤ n → 2 ^ n ≤ Zpos p → n + 1 ≤ Zpos (digits2_pos p).
Proof.
  intros Hn H. pose proof (digits2_spec p) as [_ H2].
  destruct (Z.le_gt_cases (n + 1) (Zpos (digits2_pos p))); [done|].
  pose proof (Z.pow_le_mono_r 2 (Zpos (digits2_pos p)) n). lia.
Qed.

Lemma fmul_exact a b e1 e2 :
  0 ≤ a → 0 ≤ b → small a → small b → small (a * b) →
  -50 ≤ e1 ≤ 50 → -50 ≤ e2 ≤ 50 →
  fmul (dy a e1) (dy b e2) = dy (a * b) (e1 + e2).
Proof.
  intros Ha Hb Hsa Hsb Hab He1 He2.
  destruct (decide (a = 0)) as [->|Ha0].
  { destruct (decide (b = 0)) as [->|Hb0]; [done|].
    rewrite (dy_fin b) by (done || lia). simpl. destruct (Z.ltb_spec b 0); done || lia. }
  destruct (decide (b = 0)) as [->|Hb0].
  { rewrite Z.mul_0_r, (dy_fin a) by (done || lia). simpl.
    destruct (Z.ltb_spec a 0); done || lia. }
  pose proof (small_digits a Hsa). pose proof (small_digits b Hsb).
  rewrite (dy_fin a), (dy_fin b) by (done || lia). unfold fmul, SFmul.
  set (ma := Z.to_pos _). set (mb := Z.to_pos (Z.abs b * _)).
  assert (Hma : Zpos ma = a * 2 ^ (24 - ndig a))
    by (unfold ma; rewrite dy_mant_pos, Z.abs_eq by done; done).
  assert (Hmb : Zpos mb = b * 2 ^ (24 - ndig b))
    by (unfold mb; rewrite dy_mant_pos, Z.abs_eq by done; done).
  assert (Hm : Zpos (ma * mb) = a * b * 2 ^ (24 - ndig a + (24 - ndig b))).
  { rewrite Pos2Z.inj_mul, Hma, Hmb, Z.pow_add_r by lia. lia. }
  assert (H23 : ∀ z, z ≠ 0 → small z → 0 ≤ z → 2 ^ 23 ≤ z * 2 ^ (24 - ndig z)).
  { intros z Hz0 Hz Hzp. pose proof (small_digits z Hz).
    pose proof (ndig_abs z Hz0) as [E ?].
    pose proof (digits2_spec (Z.to_pos (Z.abs z))) as [L _].
    rewrite <- E, Z2Pos.id, Z.abs_eq in L by lia.
    replace 23 with (ndig z - 1 + (24 - ndig z)) by lia.
    rewrite Z.pow_add_r by lia. apply Z.mul_le_mono_nonneg_r; [|done].
    apply Z.pow_nonneg. lia. }
  assert (24 ≤ Zpos (digits2_pos (ma * mb))).
  { apply (digits2_ge _ 23); [lia|].
    rewrite Pos2Z.inj_mul, Hma, Hmb.
    pose proof (H23 a Ha0 Hsa Ha). pose proof (H23 b Hb0 Hsb Hb). nia. }
  rewrite binary_round_ge24 by lia.
  replace (xorb _ _) with false
    by (destruct (Z.ltb_spec a 0), (Z.ltb_spec b 0); done || lia).
  change (binary_round prec32 emax32 false (ma * mb)
            (e1 + ndig a - 24 + (e2 + ndig b - 24)))
    with (dy (Zpos (ma * mb)) (e1 + ndig a - 24 + (e2 + ndig b - 24))).
  rewrite Hm, dy_shift by (done || lia). f_equal. lia.
Qed.

Lemma dy_int_part z e :
  z ≠ 0 → small z → e ≤ 0 → e + ndig z - 24 < 0 →
  Z.shiftr (Z.abs z * 2 ^ (24 - ndig z)) (- (e + ndig z - 24)) = Z.abs z / 2 ^ (- e).
Proof.
  intros Hz Hs He Hlt. pose proof (small_digits z Hs).
  rewrite Z.shiftr_div_pow2 by lia.
  replace (- (e + ndig z - 24)) with (24 - ndig z + - e) by lia.
  rewrite Z.pow_add_r, <- Z.div_div by (try apply Z.pow_pos_nonneg; lia).
  rewrite Z.div_mul by (apply Z.pow_nonzero; lia). done.
Qed.

(** [floorf] of a non-negative dyadic number is its integer part. *)
Lemma floorf_exact z e :
  0 ≤ z → small z → -100 ≤ e ≤ 0 → floorf (dy z e) = fz (z / 2 ^ (- e)).
Proof.
  intros Hz Hs He. destruct (decide (z = 0)) as [->|Hz0].
  { rewrite Z.div_0_l by (apply Z.pow_nonzero; lia). done. }
  pose proof (small_digits z Hs). rewrite (dy_fin z) by (done || lia).
  replace (z <? 0) with false by (destruct (Z.ltb_spec z 0); done || lia).
  unfold floorf. destruct (Z.leb_spec 0 (e + ndig z - 24)).
  - replace e with 0 in * by lia. rewrite Z.div_1_r. unfold fz.
    rewrite dy_fin by (done || lia).
    destruct (Z.ltb_spec z 0); done || lia.
  - unfold int_part. destruct (Z.leb_spec 0 (e + ndig z - 24)); [lia|].
    rewrite dy_mant_pos, dy_int_part, Z.abs_eq by (done || lia). done.
Qed.

Lemma ftrunc_exact z : small z → ftrunc (fz z) = Some z.
Proof.
  intros Hs. destruct (decide (z = 0)) as [->|Hz0]; [done|].
  pose proof (small_digits z Hs). unfold fz. rewrite (dy_fin z) by (done || lia).
  unfold ftrunc, int_part. rewrite dy_mant_pos by done.
  destruct (Z.leb_spec 0 (0 + ndig z - 24)).
  - replace (24 - ndig z) with 0 by lia. replace (0 + ndig z - 24) with 0 by lia.
    cbn [fst]. rewrite Z.pow_0_r, Z.mul_1_r, Z.shiftl_0_r. f_equal.
    destruct (Z.ltb_spec z 0); lia.
  - cbn [fst]. rewrite dy_int_part, Z.pow_0_r, Z.div_1_r by (done || lia). f_equal.
    destruct (Z.ltb_spec z 0); lia.
Qed.

(** Small integers. *)
Lemma fadd_fz a b : small a → small b → small (a + b) → fadd (fz a) (fz b) = fz (a + b).
Proof. intros. by apply fadd_exact. Qed.
Lemma fsub_fz a b : small a → small b → small (a - b) → fsub (fz a) (fz b) = fz (a - b).
Proof. intros. by apply fsub_exact. Qed.
Lemma fmul_fz a b : 0 ≤ a → 0 ≤ b → small a → small b → small (a * b) →
  fmul (fz a) (fz b) = fz (a * b).
Proof. intros. by apply (fmul_exact a b 0 0). Qed.
