(* ===== verification/RasterPath.v ===== *)
(** * Facet rasterizer, part 1: paths, Bezier flattening and the edge table

    Models [user/facet/raster/facet_raster.h] and the path construction,
    flattening and edge-table halves of [facet_raster.c].  A growable C array
    is the list of its initialised elements ([count] is its length), its
    [capacity] field and the number of elements of the block it points to;
    a store past the block is undefined.  The allocator is the parameter
    [alloc]: whether a request of that many bytes is served. *)
From S2P Require Import Prelude F32.

Record FacetPoint := { px : f32; py : f32 }.

Inductive FacetWindingRule := FACET_WINDING_NONZERO | FACET_WINDING_EVENODD.

(** A command carries the control points its type uses. *)
Inductive FacetPathCmd :=
| FACET_CMD_MOVE_TO (p : FacetPoint)
| FACET_CMD_LINE_TO (p : FacetPoint)
| FACET_CMD_QUAD_TO (c p : FacetPoint)
| FACET_CMD_CUBIC_TO (c1 c2 p : FacetPoint)
| FACET_CMD_CLOSE.

Record FacetPath := { cmds : list FacetPathCmd; path_capacity : Z; path_block : Z }.

Definition path_count (p : FacetPath) : Z := zlen (cmds p).

Definition sizeof_FacetPath : Z := 24.
Definition sizeof_FacetPathCmd : Z := 28.
Definition sizeof_Edge : Z := 20.

Record Edge := { ex0 : f32; ey0 : f32; ex1 : f32; ey1 : f32; edir : f32 }.

Record EdgeTable := { edges : list Edge; et_capacity : Z; et_block : Z }.

Definition half : f32 := flit 1 2.
Definition f1 : f32 := fz 1.
Definition f2 : f32 := fz 2.
Definition f3 : f32 := fz 3.
Definition f16 : f32 := fz 16.
Definition fm1 : f32 := fz (-1).
Definition milli : f32 := flit 1 1000.
Definition tolerance_fill : f32 := flit 1 4.

Definition mid_pt (p q : FacetPoint) : FacetPoint :=
  {| px := fmul (fadd (px p) (px q)) half; py := fmul (fadd (py p) (py q)) half |}.

Section with_alloc.
Context (alloc : Z → bool).

(** ** Path construction *)
Definition facet_path_new : option FacetPath :=
  if negb (alloc sizeof_FacetPath) then None else
  if negb (alloc (64 * sizeof_FacetPathCmd)) then None else
  Some {| cmds := []; path_capacity := 64; path_block := 64 |}.

Definition path_ensure_capacity (p : FacetPath) : FacetPath :=
  if path_capacity p <=? path_count p then
    let new_capacity := u64 (path_capacity p * 2) in
    let bytes := u64 (new_capacity * sizeof_FacetPathCmd) in
    if alloc bytes then
      {| cmds := cmds p; path_capacity := new_capacity;
         path_block := bytes / sizeof_FacetPathCmd |}
    else p
  else p.

(** [path->cmds[path->count++] = cmd], after [path_ensure_capacity]. *)
Definition path_push (path : FacetPath) (cmd : FacetPathCmd) : Res FacetPath :=
  let p := path_ensure_capacity path in
  if path_count p <? path_block p then
    Ok {| cmds := cmds p ++ [cmd]; path_capacity := path_capacity p;
          path_block := path_block p |}
  else Undef.

Definition facet_path_move_to (path : FacetPath) (x y : f32) : Res FacetPath :=
  path_push path (FACET_CMD_MOVE_TO {| px := x; py := y |}).
Definition facet_path_line_to (path : FacetPath) (x y : f32) : Res FacetPath :=
  path_push path (FACET_CMD_LINE_TO {| px := x; py := y |}).
Definition facet_path_quad_to (path : FacetPath) (cx cy x y : f32) : Res FacetPath :=
  path_push path (FACET_CMD_QUAD_TO {| px := cx; py := cy |} {| px := x; py := y |}).
Definition facet_path_cubic_to (path : FacetPath) (c1x c1y c2x c2y x y : f32)
  : Res FacetPath :=
  path_push path (FACET_CMD_CUBIC_TO {| px := c1x; py := c1y |}
                    {| px := c2x; py := c2y |} {| px := x; py := y |}).
Definition facet_path_close (path : FacetPath) : Res FacetPath :=
  path_push path FACET_CMD_CLOSE.

(** The builder call that appends a given command. *)
Definition path_cmd (p : FacetPath) (cmd : FacetPathCmd) : Res FacetPath :=
  match cmd with
  | FACET_CMD_MOVE_TO a => facet_path_move_to p (px a) (py a)
  | FACET_CMD_LINE_TO a => facet_path_line_to p (px a) (py a)
  | FACET_CMD_QUAD_TO a b => facet_path_quad_to p (px a) (py a) (px b) (py b)
  | FACET_CMD_CUBIC_TO a b c =>
      facet_path_cubic_to p (px a) (py a) (px b) (py b) (px c) (py c)
  | FACET_CMD_CLOSE => facet_path_close p
  end.

Fixpoint path_cmds (p : FacetPath) (cs : list FacetPathCmd) : Res FacetPath :=
  match cs with
  | [] => Ok p
  | cmd :: cs => p ← path_cmd p cmd; path_cmds p cs
  end.

(** ** Edge table *)
Definition et_new : EdgeTable :=
  if alloc (256 * sizeof_Edge)
  then {| edges := []; et_capacity := 256; et_block := 256 |}
  else {| edges := []; et_capacity := 0; et_block := 0 |}.

Definition et_store (et : EdgeTable) (e : Edge) : Res EdgeTable :=
  if zlen (edges et) <? et_block et then
    Ok {| edges := edges et ++ [e]; et_capacity := et_capacity et;
          et_block := et_block et |}
  else Undef.

Definition et_push (et : EdgeTable) (e : Edge) : Res EdgeTable :=
  if et_capacity et <=? zlen (edges et) then
    let new_capacity := if et_capacity et =? 0 then 256 else u64 (et_capacity et * 2) in
    let bytes := u64 (new_capacity * sizeof_Edge) in
    if negb (alloc bytes) then Ok et else
    et_store {| edges := edges et; et_capacity := new_capacity;
                et_block := bytes / sizeof_Edge |} e
  else et_store et e.

Definition add_line_edge (et : EdgeTable) (x0 y0 x1 y1 : f32) : Res EdgeTable :=
  if flt (fabsf (fsub y1 y0)) milli then Ok et else
  if flt y0 y1 then
    et_push et {| ex0 := x0; ey0 := y0; ex1 := x1; ey1 := y1; edir := f1 |}
  else
    et_push et {| ex0 := x1; ey0 := y1; ex1 := x0; ey1 := y0; edir := fm1 |}.

(** ** Flattening *)
Definition quad_flat (p0 p1 p2 : FacetPoint) (tol : f32) : bool :=
  let mx := fmul (fadd (px p0) (px p2)) half in
  let my := fmul (fadd (py p0) (py p2)) half in
  let dx := fsub (px p1) mx in
  let dy := fsub (py p1) my in
  fle (fadd (fmul dx dx) (fmul dy dy)) (fmul tol tol).

Definition cubic_flat (p0 p1 p2 p3 : FacetPoint) (tol : f32) : bool :=
  let u a0 a1 a3 := fsub (fsub (fmul f3 a1) (fmul f2 a0)) a3 in
  let v a0 a2 a3 := fsub (fsub (fmul f3 a2) a0) (fmul f2 a3) in
  let ux := u (px p0) (px p1) (px p3) in
  let uy := u (py p0) (py p1) (py p3) in
  let vx := v (px p0) (px p2) (px p3) in
  let vy := v (py p0) (py p2) (py p3) in
  let ux2 := fmul ux ux in let uy2 := fmul uy uy in
  let vx2 := fmul vx vx in let vy2 := fmul vy vy in
  let max_x := if flt vx2 ux2 then ux2 else vx2 in
  let max_y := if flt vy2 uy2 then uy2 else vy2 in
  fle (fadd max_x max_y) (fmul (fmul f16 tol) tol).

(** Recursion is bounded by the [depth] argument of the code; [fuel] is the
    recursion bound of the model. *)
Fixpoint flatten_quad_et (fuel : nat) (et : EdgeTable) (p0 p1 p2 : FacetPoint)
    (tol : f32) (depth : Z) : Res EdgeTable :=
  match fuel with
  | O => NoFuel
  | S fuel =>
    if 16 <? depth then add_line_edge et (px p0) (py p0) (px p2) (py p2) else
    if quad_flat p0 p1 p2 tol then add_line_edge et (px p0) (py p0) (px p2) (py p2) else
    let p01 := mid_pt p0 p1 in
    let p12 := mid_pt p1 p2 in
    let mid := mid_pt p01 p12 in
    et ← flatten_quad_et fuel et p0 p01 mid tol (depth + 1);
    flatten_quad_et fuel et mid p12 p2 tol (depth + 1)
  end.

Fixpoint flatten_cubic_et (fuel : nat) (et : EdgeTable) (p0 p1 p2 p3 : FacetPoint)
    (tol : f32) (depth : Z) : Res EdgeTable :=
  match fuel with
  | O => NoFuel
  | S fuel =>
    if 16 <? depth then add_line_edge et (px p0) (py p0) (px p3) (py p3) else
    if cubic_flat p0 p1 p2 p3 tol then add_line_edge et (px p0) (py p0) (px p3) (py p3) else
    let p01 := mid_pt p0 p1 in
    let p12 := mid_pt p1 p2 in
    let p23 := mid_pt p2 p3 in
    let p012 := mid_pt p01 p12 in
    let p123 := mid_pt p12 p23 in
    let pmid := mid_pt p012 p123 in
    et ← flatten_cubic_et fuel et p0 p01 p012 pmid tol (depth + 1);
    flatten_cubic_et fuel et pmid p123 p23 p3 tol (depth + 1)
  end.
End with_alloc.

(** ** The callback flatteners exposed for testing (no depth bound) *)
Section callback.
Context {A : Type} (callback : f32 → f32 → A → A).

Fixpoint facet_flatten_quad (fuel : nat) (p0 p1 p2 : FacetPoint) (tolerance : f32)
    (user_data : A) : Res A :=
  match fuel with
  | O => NoFuel
  | S fuel =>
    if quad_flat p0 p1 p2 tolerance then Ok (callback (px p2) (py p2) user_data) else
    let p01 := mid_pt p0 p1 in
    let p12 := mid_pt p1 p2 in
    let mid := mid_pt p01 p12 in
    user_data ← facet_flatten_quad fuel p0 p01 mid tolerance user_data;
    facet_flatten_quad fuel mid p12 p2 tolerance user_data
  end.

Fixpoint facet_flatten_cubic (fuel : nat) (p0 p1 p2 p3 : FacetPoint) (tolerance : f32)
    (user_data : A) : Res A :=
  match fuel with
  | O => NoFuel
  | S fuel =>
    if cubic_flat p0 p1 p2 p3 tolerance then Ok (callback (px p3) (py p3) user_data) else
    let p01 := mid_pt p0 p1 in
    let p12 := mid_pt p1 p2 in
    let p23 := mid_pt p2 p3 in
    let p012 := mid_pt p01 p12 in
    let p123 := mid_pt p12 p23 in
    let pmid := mid_pt p012 p123 in
    user_data ← facet_flatten_cubic fuel p0 p01 p012 pmid tolerance user_data;
    facet_flatten_cubic fuel pmid p123 p23 p3 tolerance user_data
  end.
End callback.

(** ** Invariants *)

(** A served request never exceeds [PTRDIFF_MAX] bytes (C library behaviour). *)
Definition alloc_bounded (alloc : Z → bool) : Prop := ∀ n, alloc n = true → n ≤ 2 ^ 63 - 1.

Definition path_wf (p : FacetPath) : Prop :=
  64 ≤ path_capacity p ∧ path_block p = path_capacity p ∧
  path_count p ≤ path_capacity p ∧ path_capacity p ≤ Z.max 64 (2 * path_count p) ∧
  path_capacity p * sizeof_FacetPathCmd ≤ 2 ^ 63 - 1.

Definition et_wf (et : EdgeTable) : Prop :=
  (et_capacity et = 0 ∨ 256 ≤ et_capacity et) ∧ et_block et = et_capacity et ∧
  zlen (edges et) ≤ et_capacity et ∧ et_capacity et * sizeof_Edge ≤ 2 ^ 63 - 1.

Section path_proofs.
Context (alloc : Z → bool) (Halloc : alloc_bounded alloc).

Lemma facet_path_new_wf p : facet_path_new alloc = Some p → path_wf p ∧ cmds p = [].
Proof using Type.
  unfold facet_path_new. repeat case_match; try done. intros [= <-].
  unfold path_wf, path_count, sizeof_FacetPathCmd; simpl. split; [lia|done].
Qed.

Lemma grow_bytes c s : 0 ≤ c → 0 < s ≤ 64 → c * s ≤ 2 ^ 63 - 1 →
  u64 (c * 2) = c * 2 ∧ u64 (c * 2 * s) = c * 2 * s ∧ c * 2 * s / s = c * 2.
Proof using Type.
  intros. assert (c ≤ c * s) by nia.
  rewrite !u64_small, Z.div_mul by lia. auto.
Qed.

(** A push succeeds whenever there is room or the block can be doubled. *)
Lemma path_push_ok p cmd :
  path_wf p →
  (path_count p < path_capacity p ∨
   alloc (path_capacity p * 2 * sizeof_FacetPathCmd) = true) →
  ∃ p', path_push alloc p cmd = Ok p' ∧ path_wf p' ∧ cmds p' = cmds p ++ [cmd].
Proof using Halloc.
  intros (H64 & Hb & Hc & H2 & Hbytes) Hroom. unfold path_push, path_ensure_capacity.
  assert (Hz : zlen (cmds p ++ [cmd]) = path_count p + 1)
    by (unfold path_count; rewrite length_app; simpl; lia).
  destruct (grow_bytes (path_capacity p) sizeof_FacetPathCmd)
    as (E1 & E2 & E3); [lia|unfold sizeof_FacetPathCmd; lia|done|].
  rewrite E1, E2, E3. clear E1 E2 E3.
  destruct (Z.leb_spec (path_capacity p) (path_count p)) as [Hle|Hlt].
  - destruct Hroom as [?|Hroom]; [lia|]. rewrite Hroom.
    unfold path_count at 1; simpl. fold (path_count p).
    destruct (Z.ltb_spec (path_count p) (path_capacity p * 2)); [|lia].
    eexists; split; [done|]. split; [|done]. apply Halloc in Hroom.
    unfold path_wf, path_count; simpl. rewrite Hz. lia.
  - destruct (Z.ltb_spec (path_count p) (path_block p)); [|lia].
    eexists; split; [done|]. split; [|done].
    unfold path_wf, path_count; simpl. rewrite Hz. lia.
Qed.

Lemma path_push_full p cmd :
  path_wf p → path_count p = path_capacity p →
  alloc (path_capacity p * 2 * sizeof_FacetPathCmd) = false →
  path_push alloc p cmd = Undef.
Proof using Type.
  intros (H64 & Hb & Hc & H2 & Hbytes) Hfull Hno. unfold path_push, path_ensure_capacity.
  destruct (grow_bytes (path_capacity p) sizeof_FacetPathCmd)
    as (E1 & E2 & E3); [lia|unfold sizeof_FacetPathCmd; lia|done|].
  rewrite E1, E2, Hno. clear E1 E2 E3.
  destruct (Z.leb_spec (path_capacity p) (path_count p)); [|lia].
  by destruct (Z.ltb_spec (path_count p) (path_block p)); [lia|].
Qed.

Definition edge_oriented (e : Edge) : Prop :=
  is_finite (ey0 e) = true → is_finite (ey1 e) = true → flt (ey0 e) (ey1 e) = true.

Definition edge_dir_ok (e : Edge) : Prop := edir e = f1 ∨ edir e = fm1.

Lemma et_new_wf : et_wf (et_new alloc) ∧ edges (et_new alloc) = [].
Proof using Type.
  unfold et_new, et_wf, sizeof_Edge. case_match; simpl; split; try done; lia.
Qed.

(** A push either stores the edge at the end or, when the block cannot be
    grown, leaves the table as it was; it never stores out of bounds. *)
Lemma et_push_ok et e :
  et_wf et →
  ∃ et', et_push alloc et e = Ok et' ∧ et_wf et' ∧
    (edges et' = edges et ++ [e] ∨
     (et' = et ∧ et_capacity et ≤ zlen (edges et) ∧
      alloc ((if et_capacity et =? 0 then 256 else et_capacity et * 2) * sizeof_Edge) = false)).
Proof using Halloc.
  intros (Hcap & Hb & Hc & Hbytes). unfold et_push, et_store.
  assert (Hz : zlen (edges et ++ [e]) = zlen (edges et) + 1)
    by (rewrite length_app; simpl; lia).
  destruct (Z.leb_spec (et_capacity et) (zlen (edges et))) as [Hle|Hlt].
  - assert (∃ c, (if et_capacity et =? 0 then 256 else u64 (et_capacity et * 2)) = c ∧
              (if et_capacity et =? 0 then 256 else et_capacity et * 2) = c ∧
              256 ≤ c ∧ zlen (edges et) < c ∧ u64 (c * sizeof_Edge) = c * sizeof_Edge)
      as (c & -> & -> & Hc256 & Hroom & ->).
    { destruct (Z.eqb_spec (et_capacity et) 0).
      - exists 256. rewrite u64_small by (unfold sizeof_Edge; lia). lia.
      - destruct (grow_bytes (et_capacity et) sizeof_Edge) as (E1 & E2 & E3);
          [lia|unfold sizeof_Edge; lia|done|].
        exists (et_capacity et * 2). rewrite E1, E2. lia. }
    destruct (alloc (c * sizeof_Edge)) eqn:Ha; simpl.
    + rewrite Z.div_mul by done. destruct (Z.ltb_spec (zlen (edges et)) c); [|lia].
      eexists; split; [done|]. apply Halloc in Ha. unfold et_wf; simpl. rewrite Hz.
      split; [lia|]. by left.
    + eexists; split; [done|]. split; [done|]. right. auto with lia.
  - destruct (Z.ltb_spec (zlen (edges et)) (et_block et)); [|lia].
    eexists; split; [done|]. unfold et_wf; simpl. rewrite Hz. split; [lia|]. by left.
Qed.
End path_proofs.

(** ** Flattening as a list of segments *)

Abbreviation seg := (FacetPoint * FacetPoint)%type.

(** [chain p segs q]: the segments join end to start, from [p] to [q]. *)
Fixpoint chain (p : FacetPoint) (segs : list seg) (q : FacetPoint) : Prop :=
  match segs with
  | [] => p = q
  | (a, b) :: segs => a = p ∧ chain b segs q
  end.

Lemma chain_app p q r s1 s2 : chain p s1 q → chain q s2 r → chain p (s1 ++ s2) r.
Proof.
  revert p. induction s1 as [|[a b] s1 IH]; simpl; [by intros p ->|].
  intros p [-> H] H2. eauto.
Qed.

(** The leaves of a subdivision that is cut off after [n] levels. *)
Fixpoint quad_segs (n : nat) (p0 p1 p2 : FacetPoint) (tol : f32) : list seg :=
  match n with
  | O => [(p0, p2)]
  | S n =>
    if quad_flat p0 p1 p2 tol then [(p0, p2)] else
    let p01 := mid_pt p0 p1 in let p12 := mid_pt p1 p2 in let mid := mid_pt p01 p12 in
    quad_segs n p0 p01 mid tol ++ quad_segs n mid p12 p2 tol
  end.

Fixpoint cubic_segs (n : nat) (p0 p1 p2 p3 : FacetPoint) (tol : f32) : list seg :=
  match n with
  | O => [(p0, p3)]
  | S n =>
    if cubic_flat p0 p1 p2 p3 tol then [(p0, p3)] else
    let p01 := mid_pt p0 p1 in let p12 := mid_pt p1 p2 in let p23 := mid_pt p2 p3 in
    let p012 := mid_pt p01 p12 in let p123 := mid_pt p12 p23 in
    let pmid := mid_pt p012 p123 in
    cubic_segs n p0 p01 p012 pmid tol ++ cubic_segs n pmid p123 p23 p3 tol
  end.

Lemma quad_segs_chain n p0 p1 p2 tol :
  chain p0 (quad_segs n p0 p1 p2 tol) p2 ∧ (length (quad_segs n p0 p1 p2 tol) ≤ 2 ^ n)%nat.
Proof.
  revert p0 p1 p2. induction n as [|n IH]; intros p0 p1 p2; cbn [quad_segs];
    [simpl; split; [done|lia]|].
  destruct (quad_flat _ _ _ _).
  { simpl. pose proof (Nat.pow_nonzero 2 n). split; [done|lia]. }
  match goal with
  | |- chain _ (quad_segs n ?a ?b ?c _ ++ quad_segs n _ ?f ?g _) _ ∧ _ =>
      destruct (IH a b c) as [C1 L1]; destruct (IH c f g) as [C2 L2]
  end.
  split; [by eapply chain_app|]. rewrite length_app. simpl. lia.
Qed.

Lemma cubic_segs_chain n p0 p1 p2 p3 tol :
  chain p0 (cubic_segs n p0 p1 p2 p3 tol) p3 ∧ (length (cubic_segs n p0 p1 p2 p3 tol) ≤ 2 ^ n)%nat.
Proof.
  revert p0 p1 p2 p3. induction n as [|n IH]; intros p0 p1 p2 p3; cbn [cubic_segs];
    [simpl; split; [done|lia]|].
  destruct (cubic_flat _ _ _ _ _).
  { simpl. pose proof (Nat.pow_nonzero 2 n). split; [done|lia]. }
  match goal with
  | |- chain _ (cubic_segs n ?a ?b ?c ?d _ ++ cubic_segs n _ ?f ?g ?h _) _ ∧ _ =>
      destruct (IH a b c d) as [C1 L1]; destruct (IH d f g h) as [C2 L2]
  end.
  split; [by eapply chain_app|]. rewrite length_app. simpl. lia.
Qed.

Section flatten_proofs.
Context (alloc : Z → bool) (Halloc : alloc_bounded alloc).

Fixpoint add_segs (et : EdgeTable) (segs : list seg) : Res EdgeTable :=
  match segs with
  | [] => Ok et
  | (a, b) :: segs =>
      et ← add_line_edge alloc et (px a) (py a) (px b) (py b); add_segs et segs
  end.

Lemma add_segs_app et s1 s2 :
  add_segs et (s1 ++ s2) = et ← add_segs et s1; add_segs et s2.
Proof.
  revert et. induction s1 as [|[a b] s1 IH]; intros et; [done|]. simpl.
  destruct (add_line_edge _ _ _ _ _ _); simpl; [apply IH|done|done].
Qed.

(** The depth-bounded recursion of the code adds exactly the leaves, in order. *)
Lemma flatten_quad_et_segs n fuel et p0 p1 p2 tol :
  (n < fuel)%nat → (n ≤ 17)%nat →
  flatten_quad_et alloc fuel et p0 p1 p2 tol (17 - Z.of_nat n)
  = add_segs et (quad_segs n p0 p1 p2 tol).
Proof using Type.
  revert fuel et p0 p1 p2. induction n as [|n IH]; intros [|fuel] et p0 p1 p2 Hf Hn;
    [lia| |lia|]; cbn [flatten_quad_et quad_segs].
  - cbn -[add_line_edge]. by destruct (add_line_edge _ _ _ _ _ _).
  - destruct (Z.ltb_spec 16 (17 - Z.of_nat (S n))); [lia|].
    destruct (quad_flat _ _ _ _).
    { cbn -[add_line_edge]. by destruct (add_line_edge _ _ _ _ _ _). }
    cbv zeta. rewrite add_segs_app.
    replace (17 - Z.of_nat (S n) + 1) with (17 - Z.of_nat n) by lia.
    rewrite IH by lia. destruct (add_segs et _); simpl; try done. apply IH; lia.
Qed.

Lemma flatten_cubic_et_segs n fuel et p0 p1 p2 p3 tol :
  (n < fuel)%nat → (n ≤ 17)%nat →
  flatten_cubic_et alloc fuel et p0 p1 p2 p3 tol (17 - Z.of_nat n)
  = add_segs et (cubic_segs n p0 p1 p2 p3 tol).
Proof using Type.
  revert fuel et p0 p1 p2 p3. induction n as [|n IH]; intros [|fuel] et p0 p1 p2 p3 Hf Hn;
    [lia| |lia|]; cbn [flatten_cubic_et cubic_segs].
  - cbn -[add_line_edge]. by destruct (add_line_edge _ _ _ _ _ _).
  - destruct (Z.ltb_spec 16 (17 - Z.of_nat (S n))); [lia|].
    destruct (cubic_flat _ _ _ _ _).
    { cbn -[add_line_edge]. by destruct (add_line_edge _ _ _ _ _ _). }
    cbv zeta. rewrite add_segs_app.
    replace (17 - Z.of_nat (S n) + 1) with (17 - Z.of_nat n) by lia.
    rewrite IH by lia. destruct (add_segs et _); simpl; try done. apply IH; lia.
Qed.

(** The edge a segment contributes, if any. *)
Definition seg_edge (x0 y0 x1 y1 : f32) : option Edge :=
  if flt (fabsf (fsub y1 y0)) milli then None else
  if flt y0 y1 then Some {| ex0 := x0; ey0 := y0; ex1 := x1; ey1 := y1; edir := f1 |}
  else Some {| ex0 := x1; ey0 := y1; ex1 := x0; ey1 := y0; edir := fm1 |}.

Lemma zero_lt_milli : flt (fabsf (fz 0)) milli = true.
Proof using Type. reflexivity. Qed.

Lemma seg_edge_ok x0 y0 x1 y1 e :
  seg_edge x0 y0 x1 y1 = Some e → edge_dir_ok e ∧ edge_oriented e.
Proof using Type.
  unfold seg_edge, edge_dir_ok, edge_oriented.
  destruct (flt (fabsf _) milli) eqn:E1; [done|].
  destruct (flt y0 y1) eqn:E2; intros [= <-]; simpl; [auto|].
  split; [auto|]. intros Hf1 Hf0. apply flt_total; [done..|].
  intros Heq. apply SFcompare_Eq_finite in Heq as [<-|(s & s' & -> & ->)]; [| |done].
  - by rewrite fsub_self, zero_lt_milli in E1.
  - by rewrite fabsf_fsub_zeros, zero_lt_milli in E1.
Qed.

Lemma add_line_edge_ok et x0 y0 x1 y1 :
  et_wf et →
  ∃ et', add_line_edge alloc et x0 y0 x1 y1 = Ok et' ∧ et_wf et' ∧
    (edges et' = edges et ++ option_list (seg_edge x0 y0 x1 y1) ∨
     (et' = et ∧ et_capacity et ≤ zlen (edges et))).
Proof using Halloc.
  intros Hwf. unfold add_line_edge, seg_edge.
  destruct (flt (fabsf _) milli).
  { exists et. rewrite app_nil_r. auto. }
  destruct (flt y0 y1);
    (match goal with |- ∃ _, et_push _ _ ?e = _ ∧ _ =>
       destruct (et_push_ok alloc Halloc et e Hwf) as (et' & E & Hwf' & H) end);
    exists et'; (split; [done|]); (split; [done|]);
    destruct H as [H|(-> & H & _)]; auto.
Qed.

Lemma add_segs_ok et segs :
  et_wf et → Forall (λ e, edge_dir_ok e ∧ edge_oriented e) (edges et) →
  ∃ et', add_segs et segs = Ok et' ∧ et_wf et' ∧
    Forall (λ e, edge_dir_ok e ∧ edge_oriented e) (edges et') ∧
    zlen (edges et) ≤ zlen (edges et') ≤ zlen (edges et) + zlen segs.
Proof using Halloc.
  revert et. induction segs as [|[a b] segs IH]; intros et Hwf HF; simpl.
  { exists et. auto with lia. }
  destruct (add_line_edge_ok et (px a) (py a) (px b) (py b) Hwf) as (et1 & E & Hwf1 & H).
  rewrite E. simpl.
  assert (Forall (λ e, edge_dir_ok e ∧ edge_oriented e) (edges et1) ∧
                zlen (edges et) ≤ zlen (edges et1) ≤ zlen (edges et) + 1) as [HF1 HL].
  { destruct H as [->|[-> _]]; [split|by auto with lia].
    - apply Forall_app_2; [done|]. destruct (seg_edge _ _ _ _) eqn:Es; simpl; [|done].
      apply seg_edge_ok in Es. by constructor.
    - rewrite length_app. destruct (seg_edge _ _ _ _); simpl; lia. }
  destruct (IH et1 Hwf1 HF1) as (et' & E' & Hwf' & HF' & HL').
  exists et'. split; [done|]. split; [done|]. split; [done|]. lia.
Qed.
End flatten_proofs.

(** ** Scanline crossings

    [crosses s e] is the test of the sweep; the signed number of crossings of
    a chain of segments telescopes to its end points. *)
Definition crosses (s : f32) (e : Edge) : bool := fle (ey0 e) s && flt s (ey1 e).

Definition edge_dir (e : Edge) : Z := if flt (edir e) (fz 0) then -1 else 1.

Fixpoint crossing_sum (s : f32) (es : list Edge) : Z :=
  match es with
  | [] => 0
  | e :: es => (if crosses s e then edge_dir e else 0) + crossing_sum s es
  end.

Lemma crossing_sum_app s es1 es2 :
  crossing_sum s (es1 ++ es2) = crossing_sum s es1 + crossing_sum s es2.
Proof. induction es1 as [|e es1 IH]; simpl; lia. Qed.

Definition seg_of (ab : seg) : option Edge :=
  seg_edge (px ab.1) (py ab.1) (px ab.2) (py ab.2).

Definition seg_finite (ab : seg) : Prop :=
  is_finite (py ab.1) = true ∧ is_finite (py ab.2) = true.

Lemma seg_crossing s ab e :
  is_finite s = true → seg_finite ab → seg_of ab = Some e →
  (if crosses s e then edge_dir e else 0)
  = Z.b2z (fle (py ab.1) s) - Z.b2z (fle (py ab.2) s).
Proof.
  destruct ab as [a b]. intros Hs [Ha Hb] He. cbn [fst snd] in *.
  pose proof (seg_edge_ok _ _ _ _ _ He) as [_ Ho].
  unfold seg_of, seg_edge in He. cbn [fst snd] in He.
  destruct (flt (fabsf _) milli); [done|].
  assert (Hlt : ∀ y, is_finite y = true → flt s y = negb (fle y s)).
  { intros y Hy. by rewrite (fle_not_flt y s), negb_involutive. }
  destruct (flt (py a) (py b)) eqn:Elt; injection He as <-; unfold edge_oriented in Ho;
    simpl in Ho; unfold crosses, edge_dir; simpl; rewrite Hlt by done.
  - replace (flt f1 (fz 0)) with false by reflexivity.
    pose proof (flt_fle_trans (py a) (py b) s Ha Hb Hs Elt).
    destruct (fle (py a) s), (fle (py b) s); simpl; try done. discriminate H; done.
  - replace (flt fm1 (fz 0)) with true by reflexivity.
    pose proof (flt_fle_trans (py b) (py a) s Hb Ha Hs (Ho Hb Ha)).
    destruct (fle (py a) s), (fle (py b) s); simpl; try done. discriminate H; done.
Qed.

(** The crossings lost with the segments that give no edge. *)
Fixpoint dropped_sum (s : f32) (segs : list seg) : Z :=
  match segs with
  | [] => 0
  | (a, b) :: segs =>
      (if seg_of (a, b) then 0 else Z.b2z (fle (py b) s) - Z.b2z (fle (py a) s)) + dropped_sum s segs
  end.

Lemma dropped_sum_none s segs : Forall (λ ab, is_Some (seg_of ab)) segs → dropped_sum s segs = 0.
Proof. induction 1 as [|[a b] segs [e He] _ IH]; [done|]. cbn [dropped_sum]. rewrite He. lia. Qed.

Lemma chain_crossing s p segs q :
  is_finite s = true → chain p segs q → Forall seg_finite segs →
  crossing_sum s (omap seg_of segs) =
    Z.b2z (fle (py p) s) - Z.b2z (fle (py q) s) + dropped_sum s segs.
Proof.
  intros Hs. revert p. induction segs as [|ab segs IH]; intros p; simpl.
  { intros -> _. lia. }
  destruct ab as [a b]. intros [-> Hc] HF. inversion HF as [|? ? Hab HF']; subst.
  specialize (IH b Hc HF'). unfold omap in IH. cbn [omap list_omap].
  destruct (seg_of (p, b)) as [e|] eqn:He; [|lia]. cbn [crossing_sum].
  rewrite (seg_crossing s (p, b) e) by done. cbn [fst snd]. lia.
Qed.
