(* ===== verification/RasterFill.v ===== *)
(** * Facet rasterizer, part 2: canvas, compositing and scanline fill

    Models the canvas operations, [canvas_blend] and [facet_canvas_fill] of
    [user/facet/raster/facet_raster.c].  A canvas is its dimensions, its
    stride and its pixel block, a list of bytes; every pixel access is checked
    against the block. *)
From S2P Require Import Prelude F32 RasterPath.

Record FacetCanvas := { pixels : list Z; width : Z; height : Z; stride : Z }.

Definition sizeof_FacetCanvas : Z := 24.

(** The four bytes of an RGBA word. *)
Definition rgba_r (rgba : Z) : Z := Z.land (Z.shiftr rgba 24) 255.
Definition rgba_g (rgba : Z) : Z := Z.land (Z.shiftr rgba 16) 255.
Definition rgba_b (rgba : Z) : Z := Z.land (Z.shiftr rgba 8) 255.
Definition rgba_a (rgba : Z) : Z := Z.land rgba 255.

Definition facet_canvas_new (alloc : Z → bool) (width height : Z) : option FacetCanvas :=
  if negb (alloc sizeof_FacetCanvas) then None else
  let stride := u32 (width * 4) in
  let bytes := u32 (stride * height) in
  if negb (alloc bytes) then None else
  Some {| pixels := replicate (Z.to_nat bytes) 0; width := width; height := height;
          stride := stride |}.

Definition set_pixels (c : FacetCanvas) (p : list Z) : FacetCanvas :=
  {| pixels := p; width := width c; height := height c; stride := stride c |}.

(** Stores the four bytes of a pixel at offset [i] of the block. *)
Definition put4 (p : list Z) (i r g b a : Z) : Res (list Z) :=
  p ← wr p i r; p ← wr p (i + 1) g; p ← wr p (i + 2) b; wr p (i + 3) a.

Definition facet_canvas_clear (canvas : FacetCanvas) (rgba : Z) : Res FacetCanvas :=
  p ← for_range 0 (height canvas) (λ y p,
        let row := u32 (y * stride canvas) in
        for_range 0 (width canvas) (λ x p,
          put4 p (row + u32 (x * 4)) (rgba_r rgba) (rgba_g rgba) (rgba_b rgba) (rgba_a rgba)) p)
      (pixels canvas);
  Ok (set_pixels canvas p).

(** One colour channel of the Source Over operator. *)
Definition over (src dst inv_a : Z) : Z := u8 (src + Z.quot (dst * inv_a) 255).

Definition canvas_blend (c : FacetCanvas) (x y r g b a : Z) : Res FacetCanvas :=
  if (x <? 0) || (sx 32 (width c) <=? x) || (y <? 0) || (sx 32 (height c) <=? y)
  then Ok c else
  let i := u32 (u32 y * stride c) + u32 (u32 x * 4) in
  if a =? 255 then
    p ← put4 (pixels c) i r g b a; Ok (set_pixels c p)
  else if 0 <? a then
    let inv_a := 255 - a in
    p0 ← rd (pixels c) i;       p ← wr (pixels c) i (over r p0 inv_a);
    p1 ← rd p (i + 1);          p ← wr p (i + 1) (over g p1 inv_a);
    p2 ← rd p (i + 2);          p ← wr p (i + 2) (over b p2 inv_a);
    p3 ← rd p (i + 3);          p ← wr p (i + 3) (over a p3 inv_a);
    Ok (set_pixels c p)
  else Ok c.

(** ** Fill *)

Record FlattenState := { fs_et : EdgeTable; fs_cur : FacetPoint; fs_start : FacetPoint }.

(** Phase 1, one command. *)
Definition fill_flatten_cmd (alloc : Z → bool) (cmd : FacetPathCmd) (st : FlattenState)
  : Res FlattenState :=
  let cur := fs_cur st in
  match cmd with
  | FACET_CMD_MOVE_TO p => Ok {| fs_et := fs_et st; fs_cur := p; fs_start := p |}
  | FACET_CMD_LINE_TO p =>
      et ← add_line_edge alloc (fs_et st) (px cur) (py cur) (px p) (py p);
      Ok {| fs_et := et; fs_cur := p; fs_start := fs_start st |}
  | FACET_CMD_QUAD_TO c p =>
      et ← flatten_quad_et alloc 18 (fs_et st) cur c p tolerance_fill 0;
      Ok {| fs_et := et; fs_cur := p; fs_start := fs_start st |}
  | FACET_CMD_CUBIC_TO c1 c2 p =>
      et ← flatten_cubic_et alloc 18 (fs_et st) cur c1 c2 p tolerance_fill 0;
      Ok {| fs_et := et; fs_cur := p; fs_start := fs_start st |}
  | FACET_CMD_CLOSE =>
      et ← add_line_edge alloc (fs_et st) (px cur) (py cur)
             (px (fs_start st)) (py (fs_start st));
      Ok {| fs_et := et; fs_cur := fs_start st; fs_start := fs_start st |}
  end.

Fixpoint fill_flatten (alloc : Z → bool) (cs : list FacetPathCmd) (st : FlattenState)
  : Res FlattenState :=
  match cs with
  | [] => Ok st
  | cmd :: cs => st ← fill_flatten_cmd alloc cmd st; fill_flatten alloc cs st
  end.

Definition origin : FacetPoint := {| px := fz 0; py := fz 0 |}.

(** Phase 2: the vertical extent of the edges after the first one. *)
Fixpoint fill_bbox (es : list Edge) (min_y max_y : f32) : f32 * f32 :=
  match es with
  | [] => (min_y, max_y)
  | e :: es =>
      fill_bbox es (if flt (ey0 e) min_y then ey0 e else min_y)
                   (if flt max_y (ey1 e) then ey1 e else max_y)
  end.

(** The column an edge meets the scanline in, clamped on the left. *)
Definition edge_col (scan_y : f32) (e : Edge) : Res Z :=
  let t := fdiv (fsub scan_y (ey0 e)) (fsub (ey1 e) (ey0 e)) in
  let x_int := fadd (ex0 e) (fmul t (fsub (ex1 e) (ex0 e))) in
  col ← f2i (floorf x_int);
  Ok (if col <? 0 then 0 else col).

(** Phase 4, accumulation: the signed crossings of each column. *)
Fixpoint scan_accumulate (w : Z) (scan_y : f32) (es : list Edge) (coverage : list f32)
  : Res (list f32) :=
  match es with
  | [] => Ok coverage
  | e :: es =>
      coverage ←
        (if crosses scan_y e then
           col ← edge_col scan_y e;
           if col <? sx 32 w then
             v ← rd coverage col; wr coverage col (fadd v (edir e))
           else Ok coverage
         else Ok coverage);
      scan_accumulate w scan_y es coverage
  end.

(** The coverage a winding value gives. *)
Definition fill_amount (rule : FacetWindingRule) (winding : f32) : f32 :=
  let abs_w := fabsf winding in
  match rule with
  | FACET_WINDING_NONZERO => if flt milli abs_w then f1 else fz 0
  | FACET_WINDING_EVENODD =>
      let w_floor := floorf abs_w in
      let w_frac := fsub abs_w w_floor in
      let hf := floorf (fmul w_floor half) in
      if flt half (fsub w_floor (fmul hf f2)) then f1
      else if flt half w_frac then f1 else fz 0
  end.

(** Phase 4, integration: paint the pixels of one scanline. *)
Definition scan_emit (rule : FacetWindingRule) (rgba : Z) (scanline : Z)
    (coverage : list f32) (canvas : FacetCanvas) : Res FacetCanvas :=
  r ← for_range 0 (sx 32 (width canvas)) (λ x st,
        let '(winding, c) := st in
        v ← rd coverage x;
        let winding := fadd winding v in
        let amount := fill_amount rule winding in
        if flt milli amount then
          alpha ← f2u8 (fmul amount (fz (rgba_a rgba)));
          c ← canvas_blend c x scanline (rgba_r rgba) (rgba_g rgba) (rgba_b rgba) alpha;
          Ok (winding, c)
        else Ok (winding, c))
      (fz 0, canvas);
  Ok r.2.

Definition fill_scanline (rule : FacetWindingRule) (rgba : Z) (es : list Edge)
    (scanline : Z) (canvas : FacetCanvas) : Res FacetCanvas :=
  let scan_y := fadd (fz scanline) half in
  coverage ← scan_accumulate (width canvas) scan_y es
               (replicate (Z.to_nat (width canvas)) (fz 0));
  scan_emit rule rgba scanline coverage canvas.

(** Phases 2 to 4. *)
Definition fill_edges (alloc : Z → bool) (rule : FacetWindingRule) (rgba : Z)
    (et : EdgeTable) (canvas : FacetCanvas) : Res FacetCanvas :=
  match edges et with
  | [] => Ok canvas
  | e :: es =>
      let '(min_y, max_y) := fill_bbox es (ey0 e) (ey1 e) in
      y_start ← f2i (floorf min_y);
      y_end ← f2i (ceilf max_y);
      let y_start := if y_start <? 0 then 0 else y_start in
      let y_end := if sx 32 (height canvas) <? y_end then sx 32 (height canvas) else y_end in
      if negb (alloc (width canvas * 4)) then Ok canvas else
      for_range y_start y_end (fill_scanline rule rgba (e :: es)) canvas
  end.

(** A null canvas or path, like an empty path, draws nothing. *)
Definition facet_canvas_fill (alloc : Z → bool) (canvas : option FacetCanvas)
    (path : option FacetPath) (rgba : Z) (rule : FacetWindingRule)
  : Res (option FacetCanvas) :=
  match canvas, path with
  | Some c, Some p =>
      if path_count p =? 0 then Ok canvas else
      st ← fill_flatten alloc (cmds p)
             {| fs_et := et_new alloc; fs_cur := origin; fs_start := origin |};
      c ← fill_edges alloc rule rgba (fs_et st) c;
      Ok (Some c)
  | _, _ => Ok canvas
  end.

Definition facet_canvas_fill_nonzero (alloc : Z → bool) (canvas : option FacetCanvas)
    (path : option FacetPath) (rgba : Z) : Res (option FacetCanvas) :=
  facet_canvas_fill alloc canvas path rgba FACET_WINDING_NONZERO.

(** ** Well-formed canvases *)

Definition is_byte (b : Z) : Prop := 0 ≤ b < 256.

Definition canvas_wf (c : FacetCanvas) : Prop :=
  0 ≤ width c ∧ 0 ≤ height c < 2 ^ 31 ∧ 4 * width c < 2 ^ 32 ∧ width c < 2 ^ 31 ∧
  4 * (width c * height c) < 2 ^ 32 ∧ stride c = 4 * width c ∧
  zlen (pixels c) = 4 * (width c * height c) ∧ Forall is_byte (pixels c).

(** Byte [k] of pixel [(x, y)]. *)
Definition pidx (w x y k : Z) : Z := 4 * (y * w + x) + k.
Definition cbyte (c : FacetCanvas) (x y k : Z) : Z := (pixels c).[pidx (width c) x y k].
Definition chan (r g b a k : Z) : Z :=
  if k =? 0 then r else if k =? 1 then g else if k =? 2 then b else a.

Lemma pidx_range w h x y k :
  0 ≤ x < w → 0 ≤ y < h → 0 ≤ k < 4 → 0 ≤ pidx w x y k < 4 * (w * h).
Proof. unfold pidx. nia. Qed.

Lemma pidx_inj w x y k x' y' k' :
  0 ≤ x < w → 0 ≤ x' < w → 0 ≤ k < 4 → 0 ≤ k' < 4 →
  pidx w x y k = pidx w x' y' k' → x = x' ∧ y = y' ∧ k = k'.
Proof.
  unfold pidx. intros Hx Hx' Hk Hk' H.
  assert (k = k') as <- by lia. assert (E : w * y + x = w * y' + x') by lia.
  apply Z.div_mod_unique in E; [|by left|by left]. lia.
Qed.

Definition upd4 (p : list Z) (i r g b a : Z) : list Z :=
  zset (zset (zset (zset p i r) (i + 1) g) (i + 2) b) (i + 3) a.

Lemma length_upd4 p i r g b a : length (upd4 p i r g b a) = length p.
Proof. unfold upd4. by rewrite !length_zset. Qed.
#[export] Hint Rewrite length_upd4 : arr.

Lemma put4_ok p i r g b a :
  0 ≤ i → i + 3 < zlen p → put4 p i r g b a = Ok (upd4 p i r g b a).
Proof.
  intros. unfold put4, upd4. rewrite wr_ok by lia. simpl.
  rewrite wr_ok by arr_side. simpl. rewrite wr_ok by arr_side. simpl.
  by rewrite wr_ok by arr_side.
Qed.

Lemma znth_upd4 p i j r g b a :
  0 ≤ i → i + 3 < zlen p → 0 ≤ j →
  (upd4 p i r g b a).[j] =
  if (i <=? j) && (j <? i + 4) then chan r g b a (j - i) else p.[j].
Proof.
  intros. unfold upd4, chan.
  rewrite !znth_zset by arr_side.
  repeat case_decide;
    destruct (Z.leb_spec i j), (Z.ltb_spec j (i + 4)); simpl; try lia;
    repeat (match goal with |- context [?x =? ?y] => destruct (Z.eqb_spec x y) end); lia.
Qed.

(** A four-byte store at pixel [(x, y)] changes that pixel's bytes only. *)
Lemma cbyte_upd4 w h p x y x' y' k r g b a :
  zlen p = 4 * (w * h) → 0 ≤ x < w → 0 ≤ y < h → 0 ≤ x' < w → 0 ≤ y' < h → 0 ≤ k < 4 →
  (upd4 p (pidx w x y 0) r g b a).[pidx w x' y' k]
  = if decide (x' = x ∧ y' = y) then chan r g b a k else p.[pidx w x' y' k].
Proof.
  intros Hlen Hx Hy Hx' Hy' Hk.
  pose proof (pidx_range w h x y 3 Hx Hy ltac:(lia)) as R.
  pose proof (pidx_range w h x' y' k Hx' Hy' Hk).
  rewrite znth_upd4 by (unfold pidx in *; lia).
  case_decide as Hd.
  - destruct Hd as [-> ->]. replace (pidx w x y k - pidx w x y 0) with k by (unfold pidx; lia).
    destruct (Z.leb_spec (pidx w x y 0) (pidx w x y k)),
      (Z.ltb_spec (pidx w x y k) (pidx w x y 0 + 4)); simpl; unfold pidx in *; lia.
  - destruct (Z.leb_spec (pidx w x y 0) (pidx w x' y' k)),
      (Z.ltb_spec (pidx w x' y' k) (pidx w x y 0 + 4)); simpl; try done.
    exfalso. apply Hd.
    destruct (pidx_inj w x' y' k x y (pidx w x' y' k - pidx w x y 0)); try lia.
    unfold pidx; lia.
Qed.

Lemma Forall_upd4 p i r g b a :
  Forall is_byte p → is_byte r → is_byte g → is_byte b → is_byte a →
  Forall is_byte (upd4 p i r g b a).
Proof. intros. unfold upd4. by repeat apply Forall_zset. Qed.

Lemma land255_byte z : is_byte (Z.land z 255).
Proof. change 255 with (Z.ones 8). rewrite Z.land_ones by lia. by apply Z.mod_pos_bound. Qed.

Lemma rgba_bytes rgba :
  is_byte (rgba_r rgba) ∧ is_byte (rgba_g rgba) ∧ is_byte (rgba_b rgba) ∧ is_byte (rgba_a rgba).
Proof. repeat split; apply land255_byte. Qed.

(** Offsets of pixels do not wrap on a well-formed canvas. *)
Lemma pixel_offset c x y :
  canvas_wf c → 0 ≤ x < width c → 0 ≤ y < height c →
  u32 (y * stride c) + u32 (x * 4) = pidx (width c) x y 0.
Proof.
  intros (Hw & Hh & Hw4 & Hw31 & Hwh & Hs & _) Hx Hy. rewrite Hs.
  rewrite !u32_small by nia. unfold pidx. lia.
Qed.

Lemma canvas_new_wf alloc w h c :
  0 ≤ w < 2 ^ 30 → 0 ≤ h < 2 ^ 31 → 4 * (w * h) < 2 ^ 32 →
  facet_canvas_new alloc w h = Some c →
  canvas_wf c ∧ width c = w ∧ height c = h ∧ pixels c = replicate (Z.to_nat (4 * (w * h))) 0.
Proof.
  intros Hw Hh Hwh. unfold facet_canvas_new.
  rewrite (u32_small (w * 4)), (u32_small (w * 4 * h)) by nia.
  repeat case_match; try done. intros [= <-].
  replace (w * 4 * h) with (4 * (w * h)) by lia.
  unfold canvas_wf; simpl. rewrite length_replicate.
  repeat split; try lia. by apply Forall_replicate.
Qed.

Lemma set_pixels_wf c p :
  canvas_wf c → length p = length (pixels c) → Forall is_byte p → canvas_wf (set_pixels c p).
Proof. unfold canvas_wf, set_pixels; simpl. intros (?&?&?&?&?&?&E&?) -> ?. auto 10. Qed.

(** Clearing sets every pixel and keeps the canvas well formed. *)
Lemma clear_row c rgba y p :
  canvas_wf c → 0 ≤ y < height c → zlen p = zlen (pixels c) → Forall is_byte p →
  wp (for_range 0 (width c) (λ x p,
        put4 p (u32 (y * stride c) + u32 (x * 4)) (rgba_r rgba) (rgba_g rgba)
          (rgba_b rgba) (rgba_a rgba)) p)
     (λ p', zlen p' = zlen (pixels c) ∧ Forall is_byte p' ∧
        ∀ x y' k, 0 ≤ x < width c → 0 ≤ y' < height c → 0 ≤ k < 4 →
          p'.[pidx (width c) x y' k] =
          if decide (y' = y) then chan (rgba_r rgba) (rgba_g rgba) (rgba_b rgba) (rgba_a rgba) k
          else p.[pidx (width c) x y' k]).
Proof.
  intros Hwf Hy Hlen HF. destruct (rgba_bytes rgba) as (Br & Bg & Bb & Ba).
  apply (for_range_wp (λ X p', zlen p' = zlen (pixels c) ∧ Forall is_byte p' ∧
    ∀ x y' k, 0 ≤ x < width c → 0 ≤ y' < height c → 0 ≤ k < 4 →
      p'.[pidx (width c) x y' k] =
      if decide (y' = y ∧ x < X) then chan (rgba_r rgba) (rgba_g rgba) (rgba_b rgba) (rgba_a rgba) k
      else p.[pidx (width c) x y' k])).
  - split; [done|]. split; [done|]. intros. case_decide; [lia|done].
  - intros x p' Hx (Hlen' & HF' & Hp'). rewrite pixel_offset by done.
    pose proof Hwf as (_ & _ & _ & _ & _ & _ & E & _).
    pose proof (pidx_range _ _ x y 3 Hx Hy ltac:(lia)) as R.
    rewrite put4_ok by (unfold pidx in *; lia). simpl.
    split; [by rewrite length_upd4|]. split; [by apply Forall_upd4|].
    intros x' y' k Hx' Hy' Hk. rewrite (cbyte_upd4 _ (height c)) by (done || lia).
    rewrite Hp' by done. repeat case_decide; try done; lia.
  - intros p' (Hlen' & HF' & Hp'). split; [done|]. split; [done|].
    intros x y' k Hx Hy' Hk. rewrite Hp' by done.
    repeat case_decide; try done; lia.
Qed.

Lemma canvas_clear_ok c rgba :
  canvas_wf c →
  wp (facet_canvas_clear c rgba) (λ c',
    canvas_wf c' ∧ width c' = width c ∧ height c' = height c ∧
    ∀ x y k, 0 ≤ x < width c → 0 ≤ y < height c → 0 ≤ k < 4 →
      cbyte c' x y k = chan (rgba_r rgba) (rgba_g rgba) (rgba_b rgba) (rgba_a rgba) k).
Proof.
  intros Hwf. unfold facet_canvas_clear. apply wp_bind.
  pose proof Hwf as (_ & _ & _ & _ & _ & _ & E & HF).
  apply (for_range_wp (λ Y p', zlen p' = zlen (pixels c) ∧ Forall is_byte p' ∧
    ∀ x y k, 0 ≤ x < width c → 0 ≤ y < height c → 0 ≤ k < 4 → y < Y →
      p'.[pidx (width c) x y k] = chan (rgba_r rgba) (rgba_g rgba) (rgba_b rgba) (rgba_a rgba) k)).
  - split; [done|]. split; [done|]. intros; lia.
  - intros y p' Hy (Hlen' & HF' & Hp').
    eapply wp_mono; [by apply clear_row|].
    intros p'' (Hlen'' & HF'' & Hp''). split; [done|]. split; [done|].
    intros x y' k Hx Hy' Hk Hlt. rewrite Hp'' by done.
    case_decide; [done|]. apply Hp'; lia.
  - intros p' (Hlen' & HF' & Hp'). simpl.
    split; [apply set_pixels_wf; (done || lia)|]. split; [done|]. split; [done|].
    intros x y k Hx Hy Hk. apply Hp'; lia.
Qed.

(** ** Compositing *)

Definition blend_byte (src a dst : Z) : Z :=
  if a =? 255 then src else if 0 <? a then over src dst (255 - a) else dst.

Lemma over_byte src dst inv_a : is_byte (over src dst inv_a).
Proof. apply u8_range. Qed.

Lemma sx32_small z : 0 ≤ z < 2 ^ 31 → sx 32 z = z.
Proof. intros. unfold sx. rewrite Z.mod_small; lia. Qed.

Lemma canvas_blend_out c x y r g b a :
  canvas_wf c → ¬ (0 ≤ x < width c ∧ 0 ≤ y < height c) →
  canvas_blend c x y r g b a = Ok c.
Proof.
  intros (Hw & Hh & Hw4 & Hw31 & _) Hout. unfold canvas_blend.
  rewrite !sx32_small by lia.
  destruct (Z.ltb_spec x 0), (Z.leb_spec (width c) x), (Z.ltb_spec y 0),
    (Z.leb_spec (height c) y); simpl; try done; lia.
Qed.

Lemma canvas_blend_in c x y r g b a :
  canvas_wf c → 0 ≤ x < width c → 0 ≤ y < height c →
  is_byte r → is_byte g → is_byte b → is_byte a →
  canvas_blend c x y r g b a = Ok (
    let i := pidx (width c) x y 0 in
    let old k := cbyte c x y k in
    if decide (a = 0) then c else
    set_pixels c (upd4 (pixels c) i (blend_byte r a (old 0)) (blend_byte g a (old 1))
                    (blend_byte b a (old 2)) (blend_byte a a (old 3)))).
Proof.
  intros Hwf Hx Hy Br Bg Bb Ba. pose proof (pixel_offset c x y Hwf Hx Hy) as Hoff.
  pose proof Hwf as (Hw & Hh & Hw4 & Hw31 & Hwh & Hs & Hlen & HF).
  pose proof (pidx_range (width c) (height c) x y 3 Hx Hy ltac:(lia)) as R.
  unfold canvas_blend. rewrite !sx32_small by lia.
  destruct (Z.ltb_spec x 0), (Z.leb_spec (width c) x), (Z.ltb_spec y 0),
    (Z.leb_spec (height c) y); simpl; try lia.
  rewrite (u32_small y), (u32_small x), Hoff by lia.
  assert (Hold : ∀ k, (pixels c).[pidx (width c) x y 0 + k] = cbyte c x y k).
  { intros k. unfold cbyte. do 2 f_equal. unfold pidx; lia. }
  set (i := pidx (width c) x y 0) in *.
  assert (Hi : 0 ≤ i ∧ i + 3 < zlen (pixels c)) by (unfold i, pidx in *; lia).
  unfold blend_byte. unfold is_byte in *.
  destruct (Z.eqb_spec a 255) as [->|Ha].
  { rewrite put4_ok by lia. done. }
  destruct (Z.ltb_spec 0 a); [|by destruct (decide (a = 0)); [|lia]].
  destruct (decide (a = 0)); [lia|].
  rewrite rd_ok by lia. cbn [mbind Res_bind].
  do 3 (rewrite wr_ok by arr_side; cbn [mbind Res_bind];
        rewrite rd_ok by arr_side; cbn [mbind Res_bind]).
  rewrite wr_ok by arr_side. cbn [mbind Res_bind].
  rewrite !znth_zset_ne by lia. rewrite !Hold, <- (Hold 0), Z.add_0_r. done.
Qed.

Lemma canvas_blend_ok c x y r g b a :
  canvas_wf c → is_byte r → is_byte g → is_byte b → is_byte a →
  wp (canvas_blend c x y r g b a) (λ c',
    canvas_wf c' ∧ width c' = width c ∧ height c' = height c ∧
    ∀ x' y' k, 0 ≤ x' < width c → 0 ≤ y' < height c → 0 ≤ k < 4 →
      cbyte c' x' y' k =
      if decide (x' = x ∧ y' = y) then blend_byte (chan r g b a k) a (cbyte c x' y' k)
      else cbyte c x' y' k).
Proof.
  intros Hwf Br Bg Bb Ba.
  destruct (decide (0 ≤ x < width c ∧ 0 ≤ y < height c)) as [[Hx Hy]|Hout].
  2:{ rewrite canvas_blend_out by done. simpl. do 3 (split; [done|]).
      intros. case_decide; [lia|done]. }
  rewrite canvas_blend_in by done. cbn [wp]. cbv zeta.
  pose proof Hwf as (_ & _ & _ & _ & _ & _ & Hlen & HF).
  assert (Hbb : ∀ s k, is_byte s → is_byte (blend_byte s a (cbyte c x y k)) ∨ a = 0).
  { intros s k Hs. unfold blend_byte. case_match; [by left|].
    case_match; [left; apply over_byte|]. unfold is_byte in Ba. lia. }
  destruct (decide (a = 0)) as [->|Ha].
  { do 3 (split; [done|]). intros. case_decide; [|done]. by unfold blend_byte. }
  split.
  { apply set_pixels_wf; [done|by rewrite length_upd4|].
    apply Forall_upd4; [done|..];
      (match goal with |- is_byte (blend_byte ?s _ (cbyte _ _ _ ?k)) =>
         destruct (Hbb s k); [done..|done] end). }
  do 2 (split; [done|]). intros x' y' k Hx' Hy' Hk.
  unfold cbyte at 1. cbn [pixels set_pixels width].
  rewrite (cbyte_upd4 _ (height c)) by (done || lia).
  case_decide as Hd; [|done]. destruct Hd as [-> ->].
  unfold chan. repeat case_match; rewrite ?Z.eqb_eq, ?Z.eqb_neq in *; subst; try done.
  by replace k with 3 by lia.
Qed.

(** Premultiplied colours stay in range, and so do premultiplied pixels. *)
Lemma over_premul src dst a :
  0 ≤ src ≤ a → 0 ≤ dst ≤ 255 → a ≤ 255 →
  over src dst (255 - a) = src + dst * (255 - a) / 255.
Proof.
  intros Hs Hd Ha. unfold over. rewrite Z.quot_div_nonneg by nia.
  apply u8_small. pose proof (Z.div_pos (dst * (255 - a)) 255).
  assert (dst * (255 - a) / 255 ≤ 255 - a) by (apply Z.div_le_upper_bound; nia). nia.
Qed.

Lemma blend_premul src a dst dst_a :
  0 ≤ src ≤ a → a ≤ 255 → 0 ≤ dst ≤ dst_a → dst_a ≤ 255 →
  0 ≤ blend_byte src a dst ≤ blend_byte a a dst_a ∧ blend_byte a a dst_a ≤ 255.
Proof.
  intros Hs Ha Hd Hda. unfold blend_byte.
  destruct (Z.eqb_spec a 255) as [->|]; [lia|].
  destruct (Z.ltb_spec 0 a); [|lia].
  rewrite !over_premul by lia.
  assert (dst * (255 - a) / 255 ≤ dst_a * (255 - a) / 255) by (apply Z.div_le_mono; nia).
  assert (dst_a * (255 - a) / 255 ≤ 255 - a) by (apply Z.div_le_upper_bound; nia).
  pose proof (Z.div_pos (dst * (255 - a)) 255). nia.
Qed.

(** ** The winding rule

    [winding s es x] is the integer winding number of pixel [x] on the
    scanline at height [s]: the signed crossings in columns up to [x]. *)

Definition hit (P : Z → bool) (s : f32) (e : Edge) : Z :=
  if crosses s e then
    match edge_col s e with Ok c => if P c then edge_dir e else 0 | _ => 0 end
  else 0.

Fixpoint hits (P : Z → bool) (s : f32) (es : list Edge) : Z :=
  match es with [] => 0 | e :: es => hit P s e + hits P s es end.

Definition winding (s : f32) (es : list Edge) (x : Z) : Z := hits (λ c, c <=? x) s es.

Definition inside (rule : FacetWindingRule) (w : Z) : bool :=
  match rule with
  | FACET_WINDING_NONZERO => negb (w =? 0)
  | FACET_WINDING_EVENODD => Z.odd w
  end.

(** Every crossing column converts to [int]. *)
Definition cols_ok (s : f32) (es : list Edge) : Prop :=
  Forall (λ e, crosses s e = true → ∃ c, edge_col s e = Ok c) es.

Lemma edge_dir_unit e : -1 ≤ edge_dir e ≤ 1.
Proof. unfold edge_dir. case_match; lia. Qed.

Lemma edge_dir_float e : edge_dir_ok e → edir e = fz (edge_dir e).
Proof. unfold edge_dir_ok, edge_dir. by intros [-> | ->]. Qed.

Lemma edge_col_nonneg s e c : edge_col s e = Ok c → 0 ≤ c.
Proof.
  unfold edge_col. intros H. inv_ok. subst.
  destruct (Z.ltb_spec a 0); lia.
Qed.

Lemma hit_unit P s e : -1 ≤ hit P s e ≤ 1.
Proof. unfold hit. pose proof (edge_dir_unit e). repeat case_match; lia. Qed.

Lemma hits_bound P s es : - zlen es ≤ hits P s es ≤ zlen es.
Proof.
  induction es as [|e es IH]; simpl; [lia|]. pose proof (hit_unit P s e). lia.
Qed.

Lemma winding_step s es x :
  winding s es x = winding s es (x - 1) + hits (λ c, c =? x) s es.
Proof.
  unfold winding. induction es as [|e es IH]; simpl; [lia|]. rewrite IH.
  assert (hit (λ c, c <=? x) s e = hit (λ c, c <=? x - 1) s e + hit (λ c, c =? x) s e); [|lia].
  unfold hit. destruct (crosses s e); [|lia]. destruct (edge_col s e) as [c| |]; try lia.
  destruct (Z.leb_spec c x), (Z.leb_spec c (x - 1)), (Z.eqb_spec c x); lia.
Qed.

Lemma winding_left s es : winding s es (-1) = 0.
Proof.
  unfold winding. induction es as [|e es IH]; simpl; [done|]. rewrite IH.
  unfold hit. destruct (crosses s e); [|lia]. destruct (edge_col s e) as [c| |] eqn:E; try lia.
  apply edge_col_nonneg in E. destruct (Z.leb_spec c (-1)); lia.
Qed.

(** The coverage buffer holds the exact number of signed crossings. *)
Lemma scan_accumulate_ok w s es cov (f : Z → Z) n :
  0 ≤ w < 2 ^ 31 → zlen cov = w → n + zlen es < 2 ^ 24 →
  Forall edge_dir_ok es → cols_ok s es →
  (∀ i, 0 ≤ i < w → cov.[i] = fz (f i) ∧ Z.abs (f i) ≤ n) →
  wp (scan_accumulate w s es cov) (λ cov', zlen cov' = w ∧
    ∀ i, 0 ≤ i < w → cov'.[i] = fz (f i + hits (λ c, c =? i) s es)).
Proof.
  intros Hw. revert cov f n. induction es as [|e es IH]; intros cov f n Hlen Hn Hdir Hcols Hcov.
  { simpl. split; [done|]. intros i Hi. rewrite Z.add_0_r. by apply Hcov. }
  inversion Hdir as [|? ? Hd Hdir']; inversion Hcols as [|? ? Hc Hcols']; subst x l x0 l0.
  cbn [scan_accumulate hits]. apply wp_bind. rewrite sx32_small by lia. cbn [length] in Hn.
  assert (Hskip : (∀ i, 0 ≤ i < w → hit (λ c, c =? i) s e = 0) →
    wp (scan_accumulate w s es cov) (λ cov', zlen cov' = w ∧
      ∀ i, 0 ≤ i < w → cov'.[i] = fz (f i + (hit (λ c, c =? i) s e + hits (λ c, c =? i) s es)))).
  { intros H0. eapply wp_mono; [apply (IH cov f n); (done || lia)|].
    intros cov' [Hl' Hcov']. split; [done|]. intros i Hi. by rewrite H0, Z.add_0_l, Hcov' by done. }
  unfold hit in Hskip |- *. destruct (crosses s e); [|apply Hskip; lia].
  destruct (Hc eq_refl) as [c Ec]. rewrite Ec in *. cbn [mbind Res_bind].
  pose proof (edge_col_nonneg s e c Ec).
  destruct (Z.ltb_spec c w) as [Hlt|Hge].
  2:{ apply Hskip. intros i Hi. destruct (Z.eqb_spec c i); lia. }
  rewrite rd_ok by lia. cbn [mbind Res_bind]. rewrite wr_ok by lia. cbn [wp].
  destruct (Hcov c) as [Ev Hv]; [lia|]. pose proof (edge_dir_unit e).
  rewrite Ev, edge_dir_float by done. rewrite fadd_fz by (unfold small; lia).
  eapply wp_mono; [apply (IH _ (λ i, if i =? c then f c + edge_dir e else f i) (n + 1)); try done|].
  - by rewrite length_zset.
  - lia.
  - intros i Hi. rewrite znth_zset by lia.
    destruct (decide (c = i)) as [<-|].
    + rewrite Z.eqb_refl. split; [done|lia].
    + destruct (Z.eqb_spec i c); [lia|]. destruct (Hcov i Hi). split; [done|lia].
  - intros cov' [Hl' Hcov']. split; [done|]. intros i Hi. rewrite Hcov' by done. f_equal.
    rewrite (Z.eqb_sym i c). destruct (Z.eqb_spec c i) as [->|]; lia.
Qed.

Lemma milli_lt n : small n → flt milli (fz (Z.abs n)) = negb (n =? 0).
Proof.
  intros Hn. destruct (Z.eqb_spec n 0) as [->|Hn0]; [reflexivity|]. simpl.
  unfold fz. pose proof (ndig_abs (Z.abs n) ltac:(lia)) as [_ ?].
  rewrite dy_fin by (unfold small in *; lia).
  destruct (Z.ltb_spec (Z.abs n) 0); [lia|].
  apply flt_key; [done..|]. unfold key_lt, fkey.
  assert (Hm : ∃ m e, milli = S754_finite false m e ∧ e < -23).
  { exists 8589935%positive, (-33). split; [reflexivity|lia]. }
  destruct Hm as (m & e & -> & He). simpl. lia.
Qed.

Lemma fill_amount_ok rule w : small w →
  fill_amount rule (fz w) = if inside rule w then f1 else fz 0.
Proof.
  intros Hw. unfold fill_amount. cbv zeta.
  set (n := Z.abs w). assert (Hn : 0 ≤ n ∧ small n) by (unfold n, small in *; lia).
  destruct Hn as [Hn0 Hn].
  assert (Eabs : fabsf (fz w) = fz n) by (apply fabs_exact; (done || lia)).
  rewrite Eabs. destruct rule; cbn [inside].
  { unfold n. rewrite milli_lt by done. by destruct (w =? 0). }
  assert (Efl : floorf (fz n) = fz n).
  { unfold fz. rewrite floorf_exact by (done || lia). by rewrite Z.div_1_r. }
  pose proof (Z.div_pos n 2). pose proof (Z.mul_div_le n 2). unfold small in *.
  assert (Ehf : floorf (fmul (fz n) half) = fz (n / 2)).
  { change half with (dy 1 (-1)). unfold fz at 1.
    rewrite (fmul_exact n 1), floorf_exact, Z.mul_1_r by (unfold small; lia). done. }
  assert (Etw : fmul (fz (n / 2)) f2 = fz (n / 2 * 2))
    by (apply fmul_exact; unfold small; lia).
  rewrite Efl, Ehf, Etw. unfold fz. rewrite !fsub_exact by (unfold small; lia).
  replace (n - n / 2 * 2) with (n mod 2) by (rewrite Z.mod_eq; lia).
  rewrite Zmod_odd, Z.sub_diag. replace (Z.odd n) with (Z.odd w) by (unfold n; by destruct w).
  by destruct (Z.odd w).
Qed.

(** ** One scanline

    A pixel of the scanline is composited with the colour exactly when its
    winding number is inside; no other pixel changes. *)
Definition painted (rule : FacetWindingRule) (rgba : Z) (es : list Edge) (c : FacetCanvas)
    (ys : Z → Prop) `{!∀ y, Decision (ys y)} (c' : FacetCanvas) : Prop :=
  canvas_wf c' ∧ width c' = width c ∧ height c' = height c ∧
  ∀ x y k, 0 ≤ x < width c → 0 ≤ y < height c → 0 ≤ k < 4 →
    cbyte c' x y k =
    if decide (ys y ∧ inside rule (winding (fadd (fz y) half) es x) = true)
    then blend_byte (chan (rgba_r rgba) (rgba_g rgba) (rgba_b rgba) (rgba_a rgba) k)
           (rgba_a rgba) (cbyte c x y k)
    else cbyte c x y k.

Lemma alpha_exact rgba : f2u8 (fmul f1 (fz (rgba_a rgba))) = Ok (rgba_a rgba).
Proof.
  destruct (rgba_bytes rgba) as (_ & _ & _ & Ha). unfold is_byte in Ha.
  unfold f1. rewrite fmul_fz, Z.mul_1_l by (unfold small; lia).
  unfold f2u8. rewrite ftrunc_exact by (unfold small; lia).
  destruct (Z.leb_spec 0 (rgba_a rgba)), (Z.ltb_spec (rgba_a rgba) 256); done || lia.
Qed.

Lemma fill_scanline_ok rule rgba es y c :
  canvas_wf c → Forall edge_dir_ok es → zlen es < 2 ^ 24 →
  cols_ok (fadd (fz y) half) es →
  wp (fill_scanline rule rgba es y c) (painted rule rgba es c (λ y', y' = y)).
Proof.
  intros Hwf Hdir Hn Hcols. pose proof Hwf as (Hw & Hh & Hw4 & Hw31 & _).
  unfold fill_scanline. set (s := fadd (fz y) half) in *. apply wp_bind.
  eapply wp_mono; [apply (scan_accumulate_ok _ _ _ _ (λ _, 0) 0); try done; try lia|].
  { rewrite length_replicate. lia. }
  { intros i Hi. rewrite znth_replicate by lia. split; [done|lia]. }
  intros cov [Hlen Hcov]. unfold scan_emit. apply wp_bind.
  rewrite sx32_small by lia. destruct (rgba_bytes rgba) as (Br & Bg & Bb & Ba).
  apply (for_range_wp (λ X st, st.1 = fz (winding s es (X - 1)) ∧
    canvas_wf st.2 ∧ width st.2 = width c ∧ height st.2 = height c ∧
    ∀ x y' k, 0 ≤ x < width c → 0 ≤ y' < height c → 0 ≤ k < 4 →
      cbyte st.2 x y' k =
      if decide (x < X ∧ y' = y ∧ inside rule (winding (fadd (fz y') half) es x) = true)
      then blend_byte (chan (rgba_r rgba) (rgba_g rgba) (rgba_b rgba) (rgba_a rgba) k)
             (rgba_a rgba) (cbyte c x y' k)
      else cbyte c x y' k)).
  - cbn [fst snd]. rewrite winding_left. do 4 (split; [done|]).
    intros. case_decide; [lia|done].
  - intros x [wnd c1] Hx (Hwnd & Hwf1 & Hw1 & Hh1 & Hc1). cbn [fst snd] in *.
    rewrite rd_ok by lia. cbn [mbind Res_bind]. cbv zeta.
    pose proof (hits_bound (λ c, c =? x) s es) as Hb1.
    pose proof (hits_bound (λ c, c <=? x - 1) s es) as Hb2. fold (winding s es (x - 1)) in Hb2.
    pose proof (hits_bound (λ c, c <=? x) s es) as Hb3. fold (winding s es x) in Hb3.
    pose proof (winding_step s es x) as Hstep.
    rewrite Hcov, Hwnd, Z.add_0_l by done.
    rewrite fadd_fz by (unfold small; lia). rewrite <- Hstep.
    rewrite fill_amount_ok by (unfold small; lia).
    replace (x + 1 - 1) with x by lia.
    destruct (inside rule (winding s es x)) eqn:Hin.
    + replace (flt milli f1) with true by reflexivity. rewrite alpha_exact. cbn [mbind Res_bind].
      apply wp_bind. eapply wp_mono; [by apply canvas_blend_ok|].
      intros c2 (Hwf2 & Hw2 & Hh2 & Hc2). cbn [wp fst snd]. rewrite Hw1, Hh1 in *.
      do 4 (split; [done|]). intros x' y' k Hx' Hy' Hk. rewrite Hc2, !Hc1 by done.
      destruct (decide (x' = x ∧ y' = y)) as [[-> ->]|D1].
      { rewrite decide_False by (intros [? _]; lia).
        rewrite decide_True by (split; [lia|done]). done. }
      case_decide as D2; case_decide as D3; try done.
      * exfalso. apply D3. destruct D2 as (? & ? & ?). split; [lia|done].
      * exfalso. destruct D3 as (? & ? & ?). apply D2. split; [lia|done].
    + replace (flt milli (fz 0)) with false by reflexivity. cbn [wp fst snd].
      do 4 (split; [done|]). intros x' y' k Hx' Hy' Hk. rewrite Hc1 by done.
      case_decide as D1; case_decide as D2; try done.
      { exfalso. apply D2. destruct D1 as (? & ? & ?). split; [lia|done]. }
      destruct D2 as (? & -> & Hi).
      destruct (decide (x' = x)) as [->|]; [fold s in Hi; congruence|].
      exfalso. apply D1. split; [lia|done].
  - intros [wnd c1] (_ & Hwf1 & Hw1 & Hh1 & Hc1). cbn [fst snd wp] in *.
    do 3 (split; [done|]). intros x y' k Hx Hy Hk. rewrite Hc1 by done.
    case_decide as D1; case_decide as D2; try done; [naive_solver|].
    exfalso. apply D1. destruct D2. split; [lia|done].
Qed.

(** ** The whole fill *)
Section fill_proofs.
Context (alloc : Z → bool) (Halloc : alloc_bounded alloc).

Definition edges_ok (et : EdgeTable) : Prop :=
  Forall (λ e, edge_dir_ok e ∧ edge_oriented e) (edges et).

(** Flattening any command list succeeds; each command adds at most [2^17] edges. *)
Lemma fill_flatten_cmd_ok cmd st :
  et_wf (fs_et st) → edges_ok (fs_et st) →
  wp (fill_flatten_cmd alloc cmd st) (λ st', et_wf (fs_et st') ∧ edges_ok (fs_et st') ∧
    zlen (edges (fs_et st')) ≤ zlen (edges (fs_et st)) + 2 ^ 17).
Proof using Halloc.
  intros Hwf Hok.
  assert (Hsegs : ∀ segs, (length segs ≤ 2 ^ 17)%nat →
    wp (add_segs alloc (fs_et st) segs) (λ et, et_wf et ∧ edges_ok et ∧
      zlen (edges et) ≤ zlen (edges (fs_et st)) + 2 ^ 17)).
  { intros segs Hl. destruct (add_segs_ok alloc Halloc (fs_et st) segs Hwf Hok)
      as (et' & E & Hwf' & Hok' & HL). rewrite E. split; [done|]. split; [done|].
    assert (zlen segs ≤ Z.of_nat (2 ^ 17)) by lia.
    rewrite Nat2Z.inj_pow in *. lia. }
  assert (H1 : (1 ≤ 2 ^ 17)%nat) by (pose proof (Nat.pow_nonzero 2 17); lia).
  assert (Hline : ∀ p q, wp (add_line_edge alloc (fs_et st) (px p) (py p) (px q) (py q))
    (λ et, et_wf et ∧ edges_ok et ∧ zlen (edges et) ≤ zlen (edges (fs_et st)) + 2 ^ 17)).
  { intros p q. specialize (Hsegs [(p, q)] H1). simpl in Hsegs.
    by destruct (add_line_edge _ _ _ _ _ _). }
  destruct cmd as [p|p|c p|c1 c2 p|]; cbn [fill_flatten_cmd].
  - cbn [wp fs_et]. split; [done|]. split; [done|]. lia.
  - apply wp_bind. eapply wp_mono; [apply Hline|]. done.
  - change 0 with (17 - Z.of_nat 17) at 1. rewrite flatten_quad_et_segs by lia.
    apply wp_bind. eapply wp_mono; [apply Hsegs, quad_segs_chain|]. done.
  - change 0 with (17 - Z.of_nat 17) at 1. rewrite flatten_cubic_et_segs by lia.
    apply wp_bind. eapply wp_mono; [apply Hsegs, cubic_segs_chain|]. done.
  - apply wp_bind. eapply wp_mono; [apply Hline|]. done.
Qed.

Lemma fill_flatten_ok cs st :
  et_wf (fs_et st) → edges_ok (fs_et st) →
  wp (fill_flatten alloc cs st) (λ st', et_wf (fs_et st') ∧ edges_ok (fs_et st') ∧
    zlen (edges (fs_et st')) ≤ zlen (edges (fs_et st)) + 2 ^ 17 * zlen cs).
Proof using Halloc.
  revert st. induction cs as [|cmd cs IH]; intros st Hwf Hok; cbn [fill_flatten length].
  { cbn [wp]. split; [done|]. split; [done|]. lia. }
  apply wp_bind. eapply wp_mono; [by apply fill_flatten_cmd_ok|].
  intros st1 (Hwf1 & Hok1 & Hl1). eapply wp_mono; [by apply IH|].
  intros st2 (Hwf2 & Hok2 & Hl2). split; [done|]. split; [done|]. lia.
Qed.

(** What the conversions of phases 2 and 4 need: the vertical bounds and the
    crossing columns are values of [int]. *)
Definition scan_rows (et : EdgeTable) (c : FacetCanvas) (ys ye : Z) : Prop :=
  match edges et with
  | [] => ys = ye
  | e :: es =>
      ∃ y0 y1, f2i (floorf (fill_bbox es (ey0 e) (ey1 e)).1) = Ok y0 ∧
               f2i (ceilf (fill_bbox es (ey0 e) (ey1 e)).2) = Ok y1 ∧
               ys = Z.max 0 y0 ∧ ye = Z.min (height c) y1
  end.

Lemma painted_step rule rgba es c (A : Z → Prop) `{!∀ y, Decision (A y)}
    (B : Z → Prop) `{!∀ y, Decision (B y)} c1 c2 y :
  ¬ A y → (∀ y', B y' ↔ A y' ∨ y' = y) →
  painted rule rgba es c A c1 → painted rule rgba es c1 (λ y', y' = y) c2 →
  painted rule rgba es c B c2.
Proof using Type.
  intros HA HB (Hwf1 & Hw1 & Hh1 & H1) (Hwf2 & Hw2 & Hh2 & H2).
  split; [done|]. split; [congruence|]. split; [congruence|].
  intros x y' k Hx Hy Hk. rewrite H2 by (rewrite ?Hw1, ?Hh1; done). rewrite !H1 by done.
  destruct (decide (y' = y)) as [->|Hne].
  - rewrite (decide_False (P := A y ∧ _)) by naive_solver.
    repeat case_decide; naive_solver.
  - rewrite decide_False by naive_solver.
    pose proof (HB y'). repeat case_decide; naive_solver.
Qed.

Lemma fill_edges_ok rule rgba et c ys ye :
  canvas_wf c → edges_ok et → zlen (edges et) < 2 ^ 24 → alloc (width c * 4) = true →
  scan_rows et c ys ye →
  (∀ y, ys ≤ y < ye → cols_ok (fadd (fz y) half) (edges et)) →
  wp (fill_edges alloc rule rgba et c)
     (painted rule rgba (edges et) c (λ y, ys ≤ y < ye)).
Proof using Type.
  intros Hwf Hok Hn Hal Hrows Hcols. unfold fill_edges, scan_rows in *.
  destruct (edges et) as [|e es] eqn:Ees.
  { subst ye. cbn [wp]. do 3 (split; [done|]). intros. rewrite decide_False by lia. done. }
  destruct Hrows as (y0 & y1 & E0 & E1 & -> & ->).
  destruct (fill_bbox es (ey0 e) (ey1 e)) as [mn mx]. cbn [fst snd] in *.
  rewrite E0, E1. cbn [mbind Res_bind]. cbv zeta. rewrite Hal. cbn [negb].
  pose proof Hwf as (_ & Hh & _). rewrite sx32_small by lia.
  replace (if y0 <? 0 then 0 else y0) with (Z.max 0 y0)
    by (destruct (Z.ltb_spec y0 0); lia).
  replace (if height c <? y1 then height c else y1) with (Z.min (height c) y1)
    by (destruct (Z.ltb_spec (height c) y1); lia).
  set (ys := Z.max 0 y0) in *. set (ye := Z.min (height c) y1) in *.
  apply (for_range_wp (λ Y c', painted rule rgba (e :: es) c (λ y, ys ≤ y < Y) c')).
  - do 3 (split; [done|]). intros. rewrite decide_False by (intros [? _]; lia). done.
  - intros y c1 Hy Hp. pose proof Hp as (Hwf1 & Hw1 & Hh1 & _).
    eapply wp_mono; [apply fill_scanline_ok; [done| |lia|by apply Hcols]|].
    { unfold edges_ok in Hok. rewrite Ees in Hok.
      eapply Forall_impl; [exact Hok|]. by intros ? []. }
    intros c2 Hp2. eapply painted_step; [| |exact Hp|exact Hp2]; [simpl; lia|]. simpl; intros y2. lia.
  - intros c' (Hwf' & Hw' & Hh' & Hc'). do 3 (split; [done|]).
    intros x y k Hx Hy Hk. rewrite Hc' by done.
    destruct (decide (ys ≤ y < ye)) as [D|D].
    + destruct (inside _ _).
      * rewrite !decide_True by (split; [lia|done]). done.
      * rewrite !decide_False by (intros []; done). done.
    + rewrite !decide_False by (intros [? _]; lia). done.
Qed.
End fill_proofs.
