(* ===== verification/RasterSpec.v ===== *)
(** * Facet rasterizer: what the paths, the flattening and the fill guarantee

    The properties of [RasterPath] and [RasterFill], with their witnesses. *)
From S2P Require Import Prelude F32 RasterPath RasterFill.

(** ** Paths *)

(** Every request of at most [n] bytes is served. *)
Definition alloc_serves (alloc : Z → bool) (n : Z) : Prop := ∀ b, 0 ≤ b ≤ n → alloc b = true.

Lemma path_cmd_push alloc p cmd : path_cmd alloc p cmd = path_push alloc p cmd.
Proof.
  destruct cmd as [[]|[]|[] []|[] [] []|]; reflexivity.
Qed.

Lemma path_cmds_ok alloc cs p :
  alloc_bounded alloc → path_wf p →
  alloc_serves alloc (56 * (64 + 2 * (path_count p + zlen cs))) →
  ∃ p', path_cmds alloc p cs = Ok p' ∧ path_wf p' ∧ cmds p' = cmds p ++ cs.
Proof.
  intros Hb. revert p. induction cs as [|cmd cs IH]; intros p Hwf Hs; cbn [path_cmds].
  { exists p. by rewrite app_nil_r. }
  rewrite path_cmd_push. cbn [length] in Hs.
  destruct (path_push_ok alloc Hb p cmd Hwf) as (p1 & E1 & Hwf1 & Hc1).
  { right. apply Hs. destruct Hwf as (? & ? & ? & ? & ?). unfold sizeof_FacetPathCmd, path_count in *. lia. }
  rewrite E1. cbn [mbind Res_bind].
  assert (path_count p1 = path_count p + 1).
  { unfold path_count. rewrite Hc1, length_app. simpl. lia. }
  destruct (IH p1 Hwf1) as (p' & E & Hwf' & Hc').
  { intros b Hb'. apply Hs. lia. }
  exists p'. split; [done|]. split; [done|]. by rewrite Hc', Hc1, <- app_assoc.
Qed.

(** While the allocator serves its requests, the path builders record the
    commands they are called with, in order, for any number of calls: the
    command array is grown in time, never written out of bounds, and its
    capacity stays within twice the command count. *)
Theorem path_builders_record alloc cs :
  alloc_bounded alloc → alloc_serves alloc (56 * (64 + 2 * zlen cs)) →
  ∃ p0 p, facet_path_new alloc = Some p0 ∧ path_cmds alloc p0 cs = Ok p ∧
    cmds p = cs ∧ path_wf p.
Proof.
  intros Hb Hs.
  destruct (facet_path_new alloc) as [p0|] eqn:E.
  2:{ exfalso. unfold facet_path_new in E. unfold sizeof_FacetPath, sizeof_FacetPathCmd in E.
      rewrite !Hs in E by lia. done. }
  destruct (facet_path_new_wf alloc p0 E) as [Hwf Hc].
  destruct (path_cmds_ok alloc cs p0 Hb Hwf) as (p & E' & Hwf' & Hc').
  { unfold path_count. rewrite Hc. done. }
  exists p0, p. rewrite Hc' , Hc. auto.
Qed.

(** An allocator that serves requests up to 1 MiB. *)
Definition alloc_1M (n : Z) : bool := n <=? 2 ^ 20.

Lemma alloc_1M_bounded : alloc_bounded alloc_1M.
Proof. intros n H%Z.leb_le. lia. Qed.

Lemma path_builders_record_witness :
  ∃ p0 p, facet_path_new alloc_1M = Some p0 ∧
    path_cmds alloc_1M p0 [FACET_CMD_MOVE_TO origin; FACET_CMD_CLOSE] = Ok p ∧
    cmds p = [FACET_CMD_MOVE_TO origin; FACET_CMD_CLOSE] ∧ path_wf p.
Proof.
  apply (path_builders_record alloc_1M [FACET_CMD_MOVE_TO origin; FACET_CMD_CLOSE]).
  - exact alloc_1M_bounded.
  - intros b Hb. apply Z.leb_le. simpl in Hb. lia.
Defined.

(** C25. When the block is full and [realloc] fails, [path_ensure_capacity]
    keeps the full block and every builder then stores one element past its
    end: the failure is ignored and the append is undefined behaviour. *)
Theorem path_append_after_failed_realloc alloc p cmd :
  path_wf p → path_count p = path_capacity p →
  alloc (path_capacity p * 2 * sizeof_FacetPathCmd) = false →
  path_cmd alloc p cmd = Undef.
Proof. intros. rewrite path_cmd_push. by apply path_push_full. Qed.

Lemma path_append_after_failed_realloc_witness :
  path_cmd (λ n, n <=? 1792)
    {| cmds := replicate 64 FACET_CMD_CLOSE; path_capacity := 64; path_block := 64 |}
    FACET_CMD_CLOSE = Undef.
Proof.
  apply (path_append_after_failed_realloc (λ n, n <=? 1792)
    {| cmds := replicate 64 FACET_CMD_CLOSE; path_capacity := 64; path_block := 64 |}).
  - unfold path_wf, path_count, sizeof_FacetPathCmd; simpl. lia.
  - reflexivity.
  - reflexivity.
Defined.

(** ** Flattening *)

(** C18. Adaptive flattening terminates for every curve, tolerance and float
    input (NaN and infinities included): the recursion is cut off at depth 17,
    so it adds the edges of a continuous chain of at most [2^17] segments
    that joins the first control point to the last, without storing out of
    bounds and keeping the table well formed; every stored edge has direction
    [+1] or [-1] and, when its ordinates are finite, goes strictly downwards. *)
Theorem flattening_terminates alloc et p0 p1 p2 p3 tol :
  alloc_bounded alloc → et_wf et → edges_ok et →
  (∃ segs et', flatten_quad_et alloc 18 et p0 p1 p2 tol 0 = Ok et' ∧
     add_segs alloc et segs = Ok et' ∧
     chain p0 segs p2 ∧ (length segs ≤ 2 ^ 17)%nat ∧ et_wf et' ∧ edges_ok et') ∧
  (∃ segs et', flatten_cubic_et alloc 18 et p0 p1 p2 p3 tol 0 = Ok et' ∧
     add_segs alloc et segs = Ok et' ∧
     chain p0 segs p3 ∧ (length segs ≤ 2 ^ 17)%nat ∧ et_wf et' ∧ edges_ok et').
Proof.
  intros Hb Hwf Hok. split.
  - destruct (quad_segs_chain 17 p0 p1 p2 tol) as [Hc Hl].
    destruct (add_segs_ok alloc Hb et (quad_segs 17 p0 p1 p2 tol) Hwf Hok)
      as (et' & E & Hwf' & Hok' & _).
    exists (quad_segs 17 p0 p1 p2 tol), et'.
    change 0 with (17 - Z.of_nat 17). rewrite flatten_quad_et_segs by lia. auto 10.
  - destruct (cubic_segs_chain 17 p0 p1 p2 p3 tol) as [Hc Hl].
    destruct (add_segs_ok alloc Hb et (cubic_segs 17 p0 p1 p2 p3 tol) Hwf Hok)
      as (et' & E & Hwf' & Hok' & _).
    exists (cubic_segs 17 p0 p1 p2 p3 tol), et'.
    change 0 with (17 - Z.of_nat 17). rewrite flatten_cubic_et_segs by lia. auto 10.
Qed.

Definition pt (x y : Z) : FacetPoint := {| px := fz x; py := fz y |}.

Lemma flattening_terminates_witness :
  ∃ segs et', flatten_quad_et alloc_1M 18 (et_new alloc_1M) (pt 0 0) (pt 4 8) (pt 8 0)
                tolerance_fill 0 = Ok et' ∧
     add_segs alloc_1M (et_new alloc_1M) segs = Ok et' ∧
     chain (pt 0 0) segs (pt 8 0) ∧ (length segs ≤ 2 ^ 17)%nat ∧ et_wf et' ∧ edges_ok et'.
Proof.
  destruct (flattening_terminates alloc_1M (et_new alloc_1M) (pt 0 0) (pt 4 8) (pt 8 0)
              (pt 9 9) tolerance_fill) as [H _].
  - exact alloc_1M_bounded.
  - apply et_new_wf.
  - unfold edges_ok, et_new. simpl. constructor.
  - exact H.
Defined.

(** C26. The callback flatteners have no depth bound: a NaN control point makes
    the flatness test false at every level, so the recursion never ends, for
    any tolerance and any number of levels. *)
Theorem callback_flatten_nan_diverges {A} (callback : f32 → f32 → A → A)
    (p0 p2 : FacetPoint) (y1 tol : f32) (a : A) fuel :
  facet_flatten_quad callback fuel p0 {| px := S754_nan; py := y1 |} p2 tol a = NoFuel.
Proof.
  assert (Hadd : ∀ x, fadd x S754_nan = S754_nan) by by intros [].
  revert p0 p2 y1. induction fuel as [|fuel IH]; intros p0 p2 y1; [done|].
  cbn [facet_flatten_quad].
  assert (E : quad_flat p0 {| px := S754_nan; py := y1 |} p2 tol = false) by reflexivity.
  rewrite E. cbv zeta.
  assert (Em : ∃ y, mid_pt p0 {| px := S754_nan; py := y1 |} = {| px := S754_nan; py := y |}).
  { eexists. unfold mid_pt. cbn [px py]. rewrite Hadd. reflexivity. }
  destruct Em as [y ->]. by rewrite IH.
Qed.

(** ** Closed contours *)

Definition polygon (p : FacetPoint) (pts : list FacetPoint) : list FacetPathCmd :=
  FACET_CMD_MOVE_TO p :: (FACET_CMD_LINE_TO <$> pts) ++ [FACET_CMD_CLOSE].

(** The sides of a polygon, the closing one included. *)
Fixpoint sides (cur start : FacetPoint) (pts : list FacetPoint) : list seg :=
  match pts with
  | [] => [(cur, start)]
  | q :: pts => (cur, q) :: sides q start pts
  end.

Lemma sides_chain cur start pts : chain cur (sides cur start pts) start.
Proof. revert cur. induction pts as [|q pts IH]; intros cur; simpl; auto. Qed.

Lemma length_sides cur start pts : length (sides cur start pts) = S (length pts).
Proof. revert cur. induction pts as [|q pts IH]; intros cur; simpl; auto. Qed.

Lemma fill_flatten_sides alloc et cur start pts :
  fill_flatten alloc ((FACET_CMD_LINE_TO <$> pts) ++ [FACET_CMD_CLOSE])
    {| fs_et := et; fs_cur := cur; fs_start := start |}
  = et ← add_segs alloc et (sides cur start pts);
    Ok {| fs_et := et; fs_cur := start; fs_start := start |}.
Proof.
  revert et cur. induction pts as [|q pts IH]; intros et cur; cbn.
  - by destruct (add_line_edge _ _ _ _ _ _).
  - destruct (add_line_edge _ _ _ _ _ _); simpl; [apply IH|done|done].
Qed.

(** With memory available no edge is lost. *)
Lemma add_segs_exact alloc et segs :
  alloc_bounded alloc → et_wf et → et_capacity et ≤ Z.max 256 (2 * zlen (edges et)) →
  alloc_serves alloc (40 * (256 + 2 * (zlen (edges et) + zlen segs))) →
  ∃ et', add_segs alloc et segs = Ok et' ∧ edges et' = edges et ++ omap seg_of segs.
Proof.
  intros Hb. revert et. induction segs as [|[a b] segs IH]; intros et Hwf Hcap Hs; cbn [add_segs].
  { exists et. by rewrite app_nil_r. }
  cbn [length] in Hs. unfold add_line_edge.
  change (omap seg_of ((a, b) :: segs))
    with (match seg_of (a, b) with Some y => y :: omap seg_of segs | None => omap seg_of segs end).
  unfold seg_of at 1, seg_edge. cbn [fst snd].
  assert (Hpush : ∀ e, ∃ et1, et_push alloc et e = Ok et1 ∧ et_wf et1 ∧
            edges et1 = edges et ++ [e] ∧ et_capacity et1 ≤ Z.max 256 (2 * zlen (edges et1))).
  { intros e. destruct (et_push_ok alloc Hb et e Hwf) as (et1 & E & Hwf1 & [He|(_ & _ & Hno)]).
    - exists et1. split; [done|]. split; [done|]. split; [done|].
      assert (Hz : zlen (edges et1) = zlen (edges et) + 1) by (rewrite He, length_app; simpl; lia).
      rewrite Hz. unfold et_push in E. destruct Hwf as (H1 & H2 & H3 & H4).
      destruct (Z.leb_spec (et_capacity et) (zlen (edges et))).
      + case_match eqn:Ea; [injection E as <-; lia|]. unfold et_store in E. cbn in E.
        case_match; [|done]. injection E as <-. cbn.
        destruct (Z.eqb_spec (et_capacity et) 0); [lia|].
        destruct (grow_bytes (et_capacity et) sizeof_Edge) as (E1 & _ & _);
          [lia|unfold sizeof_Edge; lia|done|]. rewrite E1. lia.
      + unfold et_store in E. case_match; [|done]. injection E as <-. cbn. lia.
    - exfalso. rewrite Hs in Hno; [done|]. destruct Hwf as (H1 & H2 & H3 & H4).
      unfold sizeof_Edge. destruct (Z.eqb_spec (et_capacity et) 0); lia. }
  destruct (flt (fabsf _) milli).
  { cbn [mbind Res_bind]. apply IH; [done|done|]. intros n Hn. apply Hs. lia. }
  destruct (flt (py a) (py b));
    match goal with |- context [et_push alloc et ?e] =>
      destruct (Hpush e) as (et1 & -> & Hwf1 & He1 & Hc1) end;
    cbn [mbind Res_bind];
    (destruct (IH et1 Hwf1 Hc1) as (et' & E' & He');
      [intros n Hn; apply Hs; rewrite He1, length_app in Hn; simpl in Hn; lia|]);
    exists et'; (split; [done|]); by rewrite He', He1, <- app_assoc.
Qed.

Lemma polygon_edges alloc p pts :
  alloc_bounded alloc → alloc_serves alloc (40 * (256 + 2 * (1 + zlen pts))) →
  ∃ st, fill_flatten alloc (polygon p pts)
          {| fs_et := et_new alloc; fs_cur := origin; fs_start := origin |} = Ok st ∧
    edges (fs_et st) = omap seg_of (sides p p pts).
Proof.
  intros Hb Hs. unfold polygon. cbn [fill_flatten fill_flatten_cmd mbind Res_bind fs_et].
  rewrite fill_flatten_sides. destruct (et_new_wf alloc) as [Hwf He].
  destruct (add_segs_exact alloc (et_new alloc) (sides p p pts) Hb Hwf) as (et & E & Het).
  { rewrite He. unfold et_new. case_match; simpl; lia. }
  { rewrite He, length_sides. intros n Hn. apply Hs. simpl in Hn. lia. }
  rewrite E. cbn [mbind Res_bind]. eexists; split; [done|]. cbn [fs_et]. by rewrite Het, He.
Qed.

Lemma length_kept segs : (length (omap seg_of segs) ≤ length segs)%nat.
Proof.
  induction segs as [|ab segs IH]; [done|]. cbn [omap list_omap].
  destruct (seg_of ab); cbn [length]; lia.
Qed.

(** To the right of every crossing the winding number is the sum of all. *)
Definition right_of (s : f32) (es : list Edge) (x : Z) : Prop :=
  Forall (λ e, crosses s e = true → ∃ c, edge_col s e = Ok c ∧ c ≤ x) es.

Lemma winding_right s es x : right_of s es x → winding s es x = crossing_sum s es.
Proof.
  unfold winding. induction 1 as [|e l He _ IH]; [done|]. cbn [hits crossing_sum]. rewrite IH. f_equal.
  unfold hit. destruct (crosses s e); [|done]. destruct (He eq_refl) as (c & -> & Hc).
  destruct (Z.leb_spec c x); [done|lia].
Qed.

(** C19. A closed contour is balanced: when memory is available, all ordinates
    are finite and no side is so flat that it is dropped, the signed crossings
    of a polygon with any scanline sum to zero, so its winding number is zero
    to the right of every crossing and the fill cannot run to the right edge
    of the canvas. *)
Theorem closed_polygon_balanced alloc p pts s :
  alloc_bounded alloc → alloc_serves alloc (40 * (256 + 2 * (1 + zlen pts))) →
  is_finite s = true →
  Forall seg_finite (sides p p pts) →
  Forall (λ ab, is_Some (seg_of ab)) (sides p p pts) →
  ∃ st, fill_flatten alloc (polygon p pts)
          {| fs_et := et_new alloc; fs_cur := origin; fs_start := origin |} = Ok st ∧
    length (edges (fs_et st)) = S (length pts) ∧
    crossing_sum s (edges (fs_et st)) = 0 ∧
    (∀ x, Forall (λ e, crosses s e = true → ∃ c, edge_col s e = Ok c ∧ c ≤ x)
            (edges (fs_et st)) → winding s (edges (fs_et st)) x = 0).
Proof.
  intros Hb Hs Hfin Hf Hk. destruct (polygon_edges alloc p pts Hb Hs) as (st & E & Het).
  exists st. split; [done|]. rewrite Het.
  assert (Hcs : crossing_sum s (omap seg_of (sides p p pts)) = 0).
  { rewrite (chain_crossing s p (sides p p pts) p) by (done || apply sides_chain).
    rewrite dropped_sum_none by done. lia. }
  split.
  { rewrite <- (length_sides p p pts). clear -Hk. induction Hk as [|ab l [e Ee] _ IH]; [done|].
    cbn [omap list_omap length]. rewrite Ee. cbn [length]. f_equal. exact IH. }
  split; [done|]. intros x Hx. by rewrite winding_right.
Qed.

Lemma closed_polygon_balanced_witness :
  ∃ st, fill_flatten alloc_1M (polygon (pt 0 0) [pt 8 2; pt 0 4])
          {| fs_et := et_new alloc_1M; fs_cur := origin; fs_start := origin |} = Ok st ∧
    length (edges (fs_et st)) = 3%nat ∧
    crossing_sum half (edges (fs_et st)) = 0 ∧
    (∀ x, Forall (λ e, crosses half e = true → ∃ c, edge_col half e = Ok c ∧ c ≤ x)
            (edges (fs_et st)) → winding half (edges (fs_et st)) x = 0).
Proof.
  apply (closed_polygon_balanced alloc_1M (pt 0 0) [pt 8 2; pt 0 4] half).
  - exact alloc_1M_bounded.
  - intros b Hb. apply Z.leb_le. simpl in Hb. lia.
  - reflexivity.
  - repeat constructor.
  - repeat constructor; eexists; reflexivity.
Defined.

(** ** Canvas *)

(** A new canvas whose byte size fits 32 bits is well formed and blank, and
    clearing it stays inside the block and gives every pixel exactly the four
    bytes of the RGBA word. *)
Theorem canvas_new_clear alloc w h rgba c :
  0 ≤ w < 2 ^ 30 → 0 ≤ h < 2 ^ 31 → 4 * (w * h) < 2 ^ 32 →
  facet_canvas_new alloc w h = Some c →
  canvas_wf c ∧ Forall (λ b, b = 0) (pixels c) ∧
  wp (facet_canvas_clear c rgba) (λ c', canvas_wf c' ∧ width c' = w ∧ height c' = h ∧
    ∀ x y k, 0 ≤ x < w → 0 ≤ y < h → 0 ≤ k < 4 →
      cbyte c' x y k = chan (rgba_r rgba) (rgba_g rgba) (rgba_b rgba) (rgba_a rgba) k).
Proof.
  intros Hw Hh Hwh Hc. destruct (canvas_new_wf alloc w h c Hw Hh Hwh Hc) as (Hwf & Ew & Eh & Ep).
  split; [done|]. split; [rewrite Ep; by apply Forall_replicate|].
  pose proof (canvas_clear_ok c rgba Hwf) as H. by rewrite Ew, Eh in H.
Qed.

Lemma canvas_new_clear_witness :
  ∃ c, facet_canvas_new alloc_1M 2 1 = Some c ∧
  canvas_wf c ∧ Forall (λ b, b = 0) (pixels c) ∧
  wp (facet_canvas_clear c 0x102030FF) (λ c', canvas_wf c' ∧ width c' = 2 ∧ height c' = 1 ∧
    ∀ x y k, 0 ≤ x < 2 → 0 ≤ y < 1 → 0 ≤ k < 4 →
      cbyte c' x y k = chan (rgba_r 0x102030FF) (rgba_g 0x102030FF) (rgba_b 0x102030FF)
                         (rgba_a 0x102030FF) k).
Proof.
  eexists. split; [reflexivity|].
  apply (canvas_new_clear alloc_1M 2 1 0x102030FF); [lia|lia|lia|reflexivity].
Defined.

(** C27. The pixel block is sized in 32-bit arithmetic: for a 32768 x 32768
    canvas the product wraps to zero, [facet_canvas_new] succeeds with an
    empty block as soon as [calloc] serves a request of zero bytes, and the
    first store of [facet_canvas_clear] is out of bounds. *)
Theorem canvas_size_wraps alloc rgba :
  alloc sizeof_FacetCanvas = true → alloc 0 = true →
  ∃ c, facet_canvas_new alloc 32768 32768 = Some c ∧ pixels c = [] ∧
    width c = 32768 ∧ height c = 32768 ∧ facet_canvas_clear c rgba = Undef.
Proof.
  intros H1 H2. unfold facet_canvas_new. rewrite H1. cbn [negb].
  change (u32 (u32 (32768 * 4) * 32768)) with 0. rewrite H2. cbn [negb].
  eexists; split; [reflexivity|]. do 3 (split; [reflexivity|]).
  unfold facet_canvas_clear, for_range. cbn [height width pixels].
  change (Z.to_nat (32768 - 0)) with (S (Z.to_nat 32767)). cbn [for_up].
  reflexivity.
Qed.

Lemma canvas_size_wraps_witness :
  ∃ c, facet_canvas_new alloc_1M 32768 32768 = Some c ∧ pixels c = [] ∧
    width c = 32768 ∧ height c = 32768 ∧ facet_canvas_clear c 0xFF = Undef.
Proof. apply (canvas_size_wraps alloc_1M 0xFF); reflexivity. Defined.

(** ** Compositing *)

(** A premultiplied colour or pixel: no channel exceeds its alpha. *)
Definition premul_rgba (rgba : Z) : Prop :=
  rgba_r rgba ≤ rgba_a rgba ∧ rgba_g rgba ≤ rgba_a rgba ∧ rgba_b rgba ≤ rgba_a rgba.

Definition premul_canvas (c : FacetCanvas) : Prop :=
  ∀ x y k, 0 ≤ x < width c → 0 ≤ y < height c → 0 ≤ k < 3 →
    cbyte c x y k ≤ cbyte c x y 3.

Lemma cbyte_byte c x y k :
  canvas_wf c → 0 ≤ x < width c → 0 ≤ y < height c → 0 ≤ k < 4 → is_byte (cbyte c x y k).
Proof.
  intros (_ & _ & _ & _ & _ & _ & Hlen & HF) Hx Hy Hk. unfold cbyte.
  pose proof (pidx_range (width c) (height c) x y k Hx Hy Hk).
  rewrite Forall_forall in HF. apply HF, list_elem_of_lookup.
  exists (Z.to_nat (pidx (width c) x y k)). apply znth_lookup. lia.
Qed.

(** C28. Source Over on premultiplied data: blending a premultiplied colour at
    any coordinates (outside ones included) touches at most the addressed
    pixel, whose channels become [src + dst * (255 - a) / 255] with no
    wrap-around, and the canvas stays premultiplied. *)
Theorem blend_keeps_premultiplied c x y r g b a :
  canvas_wf c → premul_canvas c → 0 ≤ r ≤ a → 0 ≤ g ≤ a → 0 ≤ b ≤ a → a ≤ 255 →
  wp (canvas_blend c x y r g b a) (λ c', canvas_wf c' ∧ premul_canvas c' ∧
    width c' = width c ∧ height c' = height c ∧
    ∀ x' y' k, 0 ≤ x' < width c → 0 ≤ y' < height c → 0 ≤ k < 4 →
      cbyte c' x' y' k =
      if decide (x' = x ∧ y' = y ∧ 0 < a)
      then chan r g b a k + cbyte c x' y' k * (255 - a) / 255
      else cbyte c x' y' k).
Proof.
  intros Hwf Hp Hr Hg Hb Ha.
  eapply wp_mono; [apply canvas_blend_ok; (done || unfold is_byte; lia)|].
  intros c' (Hwf' & Hw & Hh & Hc'). split; [done|].
  assert (Hch : ∀ k, 0 ≤ chan r g b a k ≤ a) by (intros k; unfold chan; repeat case_match; lia).
  split; [|split; [done|]; split; [done|]].
  - intros x' y' k Hx Hy Hk. rewrite Hw in Hx. rewrite Hh in Hy.
    rewrite !Hc' by lia. specialize (Hp x' y' k Hx Hy Hk).
    pose proof (cbyte_byte c x' y' 3 Hwf Hx Hy ltac:(lia)) as H3.
    pose proof (cbyte_byte c x' y' k Hwf Hx Hy ltac:(lia)) as Hk'. unfold is_byte in *.
    case_decide; [|done]. change (chan r g b a 3) with a.
    destruct (blend_premul (chan r g b a k) a (cbyte c x' y' k) (cbyte c x' y' 3)); auto with lia.
  - intros x' y' k Hx Hy Hk. rewrite Hc' by done.
    pose proof (cbyte_byte c x' y' k Hwf Hx Hy Hk) as Hb'. unfold is_byte in Hb'.
    pose proof (Hch k). unfold blend_byte.
    destruct (decide (x' = x ∧ y' = y)) as [[-> ->]|Hne].
    2:{ rewrite decide_False by naive_solver. done. }
    destruct (Z.eqb_spec a 255) as [->|].
    { rewrite decide_True by lia. rewrite Z.sub_diag, Z.mul_0_r, Z.div_0_l by lia. lia. }
    destruct (Z.ltb_spec 0 a).
    + rewrite decide_True by lia. apply over_premul; lia.
    + rewrite decide_False by lia. done.
Qed.

Definition canvas_1x1 : FacetCanvas :=
  {| pixels := [240; 144; 48; 255]; width := 1; height := 1; stride := 4 |}.

Lemma canvas_1x1_wf : canvas_wf canvas_1x1.
Proof. unfold canvas_wf, is_byte; simpl. repeat split; try lia. repeat constructor; lia. Qed.

Lemma canvas_1x1_premul : premul_canvas canvas_1x1.
Proof.
  intros x y k Hx Hy Hk. simpl in Hx, Hy.
  assert (x = 0) as -> by lia. assert (y = 0) as -> by lia.
  assert (k = 0 ∨ k = 1 ∨ k = 2) as [-> | [-> | ->]] by lia; vm_compute; discriminate.
Qed.

Lemma blend_keeps_premultiplied_witness :
  wp (canvas_blend canvas_1x1 0 0 100 0 20 128) (λ c', canvas_wf c' ∧ premul_canvas c' ∧
    width c' = 1 ∧ height c' = 1 ∧
    ∀ x' y' k, 0 ≤ x' < 1 → 0 ≤ y' < 1 → 0 ≤ k < 4 →
      cbyte c' x' y' k =
      if decide (x' = 0 ∧ y' = 0 ∧ 0 < 128)
      then chan 100 0 20 128 k + cbyte canvas_1x1 x' y' k * (255 - 128) / 255
      else cbyte canvas_1x1 x' y' k).
Proof.
  apply (blend_keeps_premultiplied canvas_1x1 0 0 100 0 20 128);
    [exact canvas_1x1_wf|exact canvas_1x1_premul|lia..].
Defined.

(** C29. A colour that is not premultiplied can wrap around.  Blending a translucent
    colour over a pixel, a channel is [src + dst * (255 - a) / 255] while that is
    below 256, and 256 less otherwise; it only gets there when the channel of the
    colour exceeds its alpha, and then the result is darker than both the colour
    and the pixel it is laid over. *)
Theorem blend_straight_alpha_wraps c x y r g b a k :
  canvas_wf c → 0 ≤ x < width c → 0 ≤ y < height c →
  is_byte r → is_byte g → is_byte b → 0 < a < 255 → 0 ≤ k < 4 →
  let sum := chan r g b a k + cbyte c x y k * (255 - a) / 255 in
  wp (canvas_blend c x y r g b a) (λ c',
    (sum < 256 → cbyte c' x y k = sum) ∧
    (256 ≤ sum → cbyte c' x y k = sum - 256 ∧ a < chan r g b a k ∧
                 cbyte c' x y k < chan r g b a k ∧ cbyte c' x y k < cbyte c x y k)).
Proof.
  intros Hwf Hx Hy Hr Hg Hb Ha Hk sum.
  eapply wp_mono; [apply canvas_blend_ok; try done; unfold is_byte; lia|].
  intros c' (_ & _ & _ & Hc'). rewrite Hc', decide_True by done.
  pose proof (cbyte_byte c x y k Hwf Hx Hy Hk) as Hd.
  assert (is_byte (chan r g b a k)) as Hs
    by (unfold chan; repeat case_match; try done; unfold is_byte; lia).
  unfold is_byte in *. set (src := chan r g b a k) in *. set (dst := cbyte c x y k) in *.
  unfold blend_byte. rewrite (proj2 (Z.eqb_neq a 255)), (proj2 (Z.ltb_lt 0 a)) by lia.
  unfold over. rewrite Z.quot_div_nonneg by nia. fold sum.
  assert (0 ≤ dst * (255 - a) / 255) by (apply Z.div_pos; nia).
  assert (dst * (255 - a) / 255 ≤ 255 - a) by (apply Z.div_le_upper_bound; nia).
  assert (dst * (255 - a) / 255 ≤ dst) by (apply Z.div_le_upper_bound; nia).
  split; intros Hsum; [apply u8_small; lia|].
  replace (u8 sum) with (sum - 256); [lia|].
  unfold u8. rewrite <- (Z.mod_add sum (-1) (2 ^ 8)), Z.mod_small by lia. lia.
Qed.

(** The benchmark scene's translucent pink 0xFF80A0C0 over its opaque orange
    0xF09030FF turns the red channel from 240 into 58. *)
Lemma blend_straight_alpha_wraps_witness :
  pixels canvas_1x1 = [rgba_r 0xF09030FF; rgba_g 0xF09030FF; rgba_b 0xF09030FF; rgba_a 0xF09030FF] ∧
  ∃ c', canvas_blend canvas_1x1 0 0 (rgba_r 0xFF80A0C0) (rgba_g 0xFF80A0C0)
          (rgba_b 0xFF80A0C0) (rgba_a 0xFF80A0C0) = Ok c' ∧ cbyte c' 0 0 0 = 58.
Proof.
  split; [reflexivity|].
  destruct (wp_elim _ _ (blend_straight_alpha_wraps canvas_1x1 0 0 (rgba_r 0xFF80A0C0)
    (rgba_g 0xFF80A0C0) (rgba_b 0xFF80A0C0) (rgba_a 0xFF80A0C0) 0 canvas_1x1_wf
    ltac:(done) ltac:(done) ltac:(done) ltac:(done) ltac:(done) ltac:(done) ltac:(done)))
    as (c' & E & _ & H).
  exists c'. split; [exact E|]. destruct H as [H _]; [vm_compute; discriminate|].
  rewrite H. reflexivity.
Defined.

(** ** Fill *)

Lemma painted_keeps_premultiplied rule rgba es c (ys : Z → Prop) `{!∀ y, Decision (ys y)} c' :
  canvas_wf c → premul_canvas c → premul_rgba rgba →
  painted rule rgba es c ys c' → premul_canvas c'.
Proof.
  intros Hwf Hp (Hr & Hg & Hb) (Hwf' & Hw & Hh & Hc') x y k Hx Hy Hk.
  rewrite Hw in Hx. rewrite Hh in Hy. rewrite !Hc' by lia.
  specialize (Hp x y k Hx Hy Hk). case_decide; [|done].
  pose proof (cbyte_byte c x y 3 Hwf Hx Hy ltac:(lia)).
  pose proof (cbyte_byte c x y k Hwf Hx Hy ltac:(lia)).
  destruct (rgba_bytes rgba) as (Br & Bg & Bb & Ba). unfold is_byte in *.
  apply blend_premul; try lia. unfold chan. repeat case_match; rewrite ?Z.eqb_eq in *; lia.
Qed.

Lemma fill_paints alloc c p rgba rule st ys ye :
  alloc_bounded alloc → canvas_wf c → alloc (width c * 4) = true →
  fill_flatten alloc (cmds p)
    {| fs_et := et_new alloc; fs_cur := origin; fs_start := origin |} = Ok st →
  zlen (edges (fs_et st)) < 2 ^ 24 →
  scan_rows (fs_et st) c ys ye →
  (∀ y, ys ≤ y < ye → cols_ok (fadd (fz y) half) (edges (fs_et st))) →
  wp (facet_canvas_fill alloc (Some c) (Some p) rgba rule) (λ oc, ∃ c', oc = Some c' ∧
    painted rule rgba (edges (fs_et st)) c (λ y, ys ≤ y < ye) c').
Proof.
  intros Hb Hwf Hal Hfl Hn Hrows Hcols. unfold facet_canvas_fill.
  destruct (et_new_wf alloc) as [Hwf0 He0].
  pose proof (fill_flatten_ok alloc Hb (cmds p)
    {| fs_et := et_new alloc; fs_cur := origin; fs_start := origin |} Hwf0) as Hw.
  rewrite Hfl in Hw. cbn [wp fs_et] in Hw. rewrite He0 in Hw. unfold edges_ok at 1 in Hw.
  rewrite He0 in Hw. destruct Hw as (Hwf' & Hok & _); [done|].
  destruct (Z.eqb_spec (path_count p) 0) as [H0|H0].
  - cbn [wp]. exists c. split; [done|].
    assert (Hnil : cmds p = []) by (unfold path_count in H0; destruct (cmds p); [done|simpl in H0; lia]).
    rewrite Hnil in Hfl. cbn in Hfl. injection Hfl as <-. cbn [fs_et] in *. rewrite He0.
    do 3 (split; [done|]). intros.
    rewrite decide_False; [done|]. intros [_ Hin]. by destruct rule.
  - rewrite Hfl. cbn [mbind Res_bind]. apply wp_bind.
    eapply wp_mono; [by apply (fill_edges_ok alloc rule rgba _ c ys ye)|].
    intros c' Hc'. cbn [wp]. by exists c'.
Qed.

(** C6. The fill paints the winding rule: after flattening, pixel [(x, y)] of
    a scanline inside the path's vertical extent is composited with the colour
    exactly when its integer winding number (the directions of the edges that
    cross the scanline's centre in columns up to [x]) is non-zero, or odd
    under the even-odd rule; every other pixel keeps its bytes, no access is
    out of bounds and the float accumulation is exact; a premultiplied colour
    keeps a premultiplied canvas premultiplied.  This is for a path that
    flattens to fewer than [2^24] edges (beyond that a count in [float] is no
    longer exact), with an extent and crossing columns that are values of [int],
    when the coverage row can be allocated. *)
Theorem fill_paints_winding alloc c p rgba rule st ys ye :
  alloc_bounded alloc → canvas_wf c → alloc (width c * 4) = true →
  fill_flatten alloc (cmds p)
    {| fs_et := et_new alloc; fs_cur := origin; fs_start := origin |} = Ok st →
  zlen (edges (fs_et st)) < 2 ^ 24 →
  scan_rows (fs_et st) c ys ye →
  (∀ y, ys ≤ y < ye → cols_ok (fadd (fz y) half) (edges (fs_et st))) →
  wp (facet_canvas_fill alloc (Some c) (Some p) rgba rule) (λ oc, ∃ c', oc = Some c' ∧
    painted rule rgba (edges (fs_et st)) c (λ y, ys ≤ y < ye) c' ∧
    (premul_canvas c → premul_rgba rgba → premul_canvas c')).
Proof.
  intros Hb Hwf Hal Hfl Hn Hrows Hcols.
  eapply wp_mono; [by eapply fill_paints|]. intros oc (c' & -> & Hc').
  exists c'. split; [done|]. split; [done|]. intros. by eapply painted_keeps_premultiplied.
Qed.

Definition tri_path : FacetPath :=
  {| cmds := polygon (pt 0 0) [pt 4 0; pt 0 4]; path_capacity := 64; path_block := 64 |}.

Definition blank (w h : Z) : FacetCanvas :=
  {| pixels := replicate (Z.to_nat (4 * (w * h))) 0; width := w; height := h; stride := 4 * w |}.

Lemma blank_wf w h : 0 ≤ w < 2 ^ 30 → 0 ≤ h < 2 ^ 31 → 4 * (w * h) < 2 ^ 32 → canvas_wf (blank w h).
Proof.
  intros. unfold canvas_wf, is_byte; simpl. rewrite length_replicate.
  repeat split; try lia. apply Forall_replicate. lia.
Qed.

Lemma fill_paints_winding_witness :
  ∃ st, fill_flatten alloc_1M (cmds tri_path)
    {| fs_et := et_new alloc_1M; fs_cur := origin; fs_start := origin |} = Ok st ∧
  length (edges (fs_et st)) = 2%nat ∧
  wp (facet_canvas_fill alloc_1M (Some (blank 5 2)) (Some tri_path) 0xFF0000FF
        FACET_WINDING_EVENODD) (λ oc, ∃ c', oc = Some c' ∧
    painted FACET_WINDING_EVENODD 0xFF0000FF (edges (fs_et st)) (blank 5 2)
      (λ y, 0 ≤ y < 2) c' ∧
    (premul_canvas (blank 5 2) → premul_rgba 0xFF0000FF → premul_canvas c')).
Proof.
  eexists. split; [vm_compute; reflexivity|]. split; [reflexivity|].
  apply (fill_paints_winding alloc_1M (blank 5 2) tri_path 0xFF0000FF FACET_WINDING_EVENODD).
  - exact alloc_1M_bounded.
  - apply blank_wf; lia.
  - reflexivity.
  - vm_compute; reflexivity.
  - reflexivity.
  - exists 0, 4. repeat split; vm_compute; reflexivity.
  - intros y Hy. assert (y = 0 ∨ y = 1) as [-> | ->] by lia;
      repeat constructor; intros _; eexists; vm_compute; reflexivity.
Defined.

(** ** Dropped sides *)

(** C24. The balance of a closed polygon is lost with the sides [add_line_edge]
    drops (those shorter than 0.001 vertically): on every scanline the signed
    crossings of the edges that are kept sum to [dropped_sum], the crossings of
    the dropped sides with the opposite sign, and the fill paints every pixel to
    the right of all crossings, up to the edge of the canvas, or none, as that
    number is inside or outside under the winding rule.  (Finite ordinates, fewer
    than [2^24] sides, memory available, extent and columns in [int].) *)
Theorem dropped_side_leaks alloc c p pts rgba rule ys ye cap blk :
  alloc_bounded alloc → alloc_serves alloc (40 * (256 + 2 * (1 + zlen pts))) →
  canvas_wf c → alloc (width c * 4) = true → 1 + zlen pts < 2 ^ 24 →
  Forall seg_finite (sides p p pts) → (∀ y, ys ≤ y < ye → is_finite (fadd (fz y) half) = true) →
  ∃ st,
    fill_flatten alloc (polygon p pts)
      {| fs_et := et_new alloc; fs_cur := origin; fs_start := origin |} = Ok st ∧
    let es := edges (fs_et st) in
    (∀ s, is_finite s = true → crossing_sum s es = dropped_sum s (sides p p pts)) ∧
    (scan_rows (fs_et st) c ys ye → (∀ y, ys ≤ y < ye → cols_ok (fadd (fz y) half) es) →
     wp (facet_canvas_fill alloc (Some c)
           (Some {| cmds := polygon p pts; path_capacity := cap; path_block := blk |}) rgba rule)
       (λ oc, ∃ c', oc = Some c' ∧
          ∀ x y k, 0 ≤ x < width c → 0 ≤ y < height c → ys ≤ y < ye → 0 ≤ k < 4 →
            right_of (fadd (fz y) half) es x →
            cbyte c' x y k =
            if inside rule (dropped_sum (fadd (fz y) half) (sides p p pts))
            then blend_byte (chan (rgba_r rgba) (rgba_g rgba) (rgba_b rgba) (rgba_a rgba) k)
                   (rgba_a rgba) (cbyte c x y k)
            else cbyte c x y k)).
Proof.
  intros Hb Hs Hwf Hal Hn Hf Hys. destruct (polygon_edges alloc p pts Hb Hs) as (st & E & Het).
  exists st. split; [done|]. intros es.
  assert (∀ s, is_finite s = true → crossing_sum s es = dropped_sum s (sides p p pts)) as Hcs.
  { intros s Hfin. unfold es. rewrite Het.
    rewrite (chain_crossing s p (sides p p pts) p) by (done || apply sides_chain). lia. }
  split; [done|]. intros Hrows Hcols.
  eapply wp_mono; [eapply (fill_paints alloc c _ rgba rule st ys ye); try done|].
  { rewrite Het. pose proof (length_kept (sides p p pts)). rewrite length_sides in *. lia. }
  intros oc (c' & -> & _ & _ & _ & Hc'). exists c'. split; [done|]. intros x y k Hx Hy Hin Hk Hr.
  rewrite Hc' by done. fold es. rewrite winding_right, Hcs by auto.
  destruct (inside rule _); [rewrite decide_True by done|rewrite decide_False by naive_solver]; done.
Qed.

(** The triangle (1,0), (3,0.5-2^-12), (1,0.5+2^-12): its last side but one is
    dropped although it crosses the centre of scanline 0, the remaining winding
    is -1, and the fill paints the row from column 1 to the right edge. *)
Lemma dropped_side_leaks_witness :
  let low := {| px := fz 3; py := dy 2047 (-12) |} in
  let high := {| px := fz 1; py := dy 2049 (-12) |} in
  dropped_sum half (sides (pt 1 0) (pt 1 0) [low; high]) = -1 ∧
  ∃ c', facet_canvas_fill alloc_1M (Some (blank 6 1))
      (Some {| cmds := polygon (pt 1 0) [low; high]; path_capacity := 64; path_block := 64 |})
      0xFFFFFFFF FACET_WINDING_NONZERO = Ok (Some c') ∧
    cbyte c' 5 0 0 = 255.
Proof.
  intros low high. split; [vm_compute; reflexivity|].
  destruct (dropped_side_leaks alloc_1M (blank 6 1) (pt 1 0) [low; high] 0xFFFFFFFF
    FACET_WINDING_NONZERO 0 1 64 64) as (st & E & _ & H).
  - exact alloc_1M_bounded.
  - intros b Hb. apply Z.leb_le. simpl in Hb. lia.
  - apply blank_wf; lia.
  - reflexivity.
  - done.
  - repeat constructor.
  - intros y Hy. by assert (y = 0) as -> by lia.
  - vm_compute in E. injection E as <-.
    unshelve epose proof (H _ _) as Hw.
    + exists 0, 1. repeat split; vm_compute; reflexivity.
    + intros y Hy. assert (y = 0) as -> by lia.
      repeat constructor; intros _; eexists; vm_compute; reflexivity.
    + destruct (wp_elim _ _ Hw) as (oc & Ef & c' & -> & Hc').
      exists c'. split; [exact Ef|].
      specialize (Hc' 5 0 0). cbn [width height blank] in Hc'.
      specialize (Hc' ltac:(lia) ltac:(lia) ltac:(lia) ltac:(lia)).
      rewrite Hc'; [vm_compute; reflexivity|].
      repeat (apply Forall_cons_2 || apply Forall_nil_2); intros _; eexists;
        (split; [vm_compute; reflexivity|lia]).
Defined.
