(* ===== verification/Tiger.v ===== *)
(** * The rasterizer's reference scene (facet/raster/bench_raster_c.c)

    The scene of thirty paths the benchmark draws, as the program builds it:
    a [block] is one brace block of [build_tiger], its builder calls in order
    and the colour it fills with.  [pixel_checksum] and the frame loop follow
    the C text; the clock readings and the printed report are not modelled, and
    the blocks' [facet_path_free] releases memory the model does not track. *)
From S2P Require Import Prelude F32 RasterPath RasterFill.

Record block := { calls : list FacetPathCmd; colour : Z }.

(** ** The builder calls with literal coordinates *)
Definition move_to (x y : Z) : FacetPathCmd := FACET_CMD_MOVE_TO {| px := fz x; py := fz y |}.
Definition line_to (x y : Z) : FacetPathCmd := FACET_CMD_LINE_TO {| px := fz x; py := fz y |}.
Definition quad_to (cx cy x y : Z) : FacetPathCmd :=
  FACET_CMD_QUAD_TO {| px := fz cx; py := fz cy |} {| px := fz x; py := fz y |}.
Definition cubic_to (c1x c1y c2x c2y x y : Z) : FacetPathCmd :=
  FACET_CMD_CUBIC_TO {| px := fz c1x; py := fz c1y |} {| px := fz c2x; py := fz c2y |}
    {| px := fz x; py := fz y |}.

(** The four arcs of an oval; a circle has [rx = ry]. *)
Definition oval (cx cy rx ry : f32) : list FacetPathCmd :=
  let kx := fmul (flit 5523 10000) rx in
  let ky := fmul (flit 5523 10000) ry in
  let cubic a b c d e f :=
    FACET_CMD_CUBIC_TO {| px := a; py := b |} {| px := c; py := d |} {| px := e; py := f |} in
  [FACET_CMD_MOVE_TO {| px := fadd cx rx; py := cy |};
   cubic (fadd cx rx) (fadd cy ky) (fadd cx kx) (fadd cy ry) cx (fadd cy ry);
   cubic (fsub cx kx) (fadd cy ry) (fsub cx rx) (fadd cy ky) (fsub cx rx) cy;
   cubic (fsub cx rx) (fsub cy ky) (fsub cx kx) (fsub cy ry) cx (fsub cy ry);
   cubic (fadd cx kx) (fsub cy ry) (fadd cx rx) (fsub cy ky) (fadd cx rx) cy;
   FACET_CMD_CLOSE].

(** ** The blocks of build_tiger *)
Definition head_outline : block := {|
  calls := [
    move_to 256 60;
    cubic_to 380 60 460 140 460 240;
    cubic_to 460 300 440 360 400 400;
    cubic_to 370 430 320 460 256 470;
    cubic_to 192 460 142 430 112 400;
    cubic_to 72 360 52 300 52 240;
    cubic_to 52 140 132 60 256 60;
    FACET_CMD_CLOSE];
  colour := 0xF09030FF |}.
Definition left_ear : block := {|
  calls := [
    move_to 120 140;
    cubic_to 100 80 60 30 40 20;
    cubic_to 20 10 30 60 50 100;
    cubic_to 60 120 80 150 120 160;
    FACET_CMD_CLOSE];
  colour := 0xF09030FF |}.
Definition right_ear : block := {|
  calls := [
    move_to 392 140;
    cubic_to 412 80 452 30 472 20;
    cubic_to 492 10 482 60 462 100;
    cubic_to 452 120 432 150 392 160;
    FACET_CMD_CLOSE];
  colour := 0xF09030FF |}.
Definition left_inner_ear : block := {|
  calls := [
    move_to 115 140;
    cubic_to 100 95 75 55 60 45;
    cubic_to 50 40 55 70 65 105;
    cubic_to 72 125 90 148 115 155;
    FACET_CMD_CLOSE];
  colour := 0xFF80A0C0 |}.
Definition right_inner_ear : block := {|
  calls := [
    move_to 397 140;
    cubic_to 412 95 437 55 452 45;
    cubic_to 462 40 457 70 447 105;
    cubic_to 440 125 422 148 397 155;
    FACET_CMD_CLOSE];
  colour := 0xFF80A0C0 |}.
Definition stripe_1 : block := {|
  calls := [
    move_to 180 90;
    cubic_to 175 110 155 140 140 170;
    cubic_to 130 190 120 200 125 180;
    cubic_to 135 150 160 115 185 88;
    FACET_CMD_CLOSE];
  colour := 0x302010FF |}.
Definition stripe_2 : block := {|
  calls := [
    move_to 215 75;
    cubic_to 210 95 200 130 195 160;
    cubic_to 192 175 188 185 195 165;
    cubic_to 202 135 212 100 218 73;
    FACET_CMD_CLOSE];
  colour := 0x302010FF |}.
Definition stripe_3 : block := {|
  calls := [
    move_to 297 75;
    cubic_to 302 95 312 130 317 160;
    cubic_to 320 175 324 185 317 165;
    cubic_to 310 135 300 100 294 73;
    FACET_CMD_CLOSE];
  colour := 0x302010FF |}.
Definition stripe_4 : block := {|
  calls := [
    move_to 332 90;
    cubic_to 337 110 357 140 372 170;
    cubic_to 382 190 392 200 387 180;
    cubic_to 377 150 352 115 327 88;
    FACET_CMD_CLOSE];
  colour := 0x302010FF |}.
Definition stripe_5 : block := {|
  calls := [
    move_to 100 220;
    cubic_to 85 250 80 290 90 320;
    cubic_to 95 335 100 325 95 295;
    cubic_to 90 265 95 240 105 218;
    FACET_CMD_CLOSE];
  colour := 0x302010FF |}.
Definition stripe_6 : block := {|
  calls := [
    move_to 412 220;
    cubic_to 427 250 432 290 422 320;
    cubic_to 417 335 412 325 417 295;
    cubic_to 422 265 417 240 407 218;
    FACET_CMD_CLOSE];
  colour := 0x302010FF |}.
Definition stripe_7 : block := {|
  calls := [
    move_to 145 100;
    cubic_to 130 120 110 160 100 200;
    cubic_to 96 215 105 210 108 195;
    cubic_to 118 155 135 118 150 98;
    FACET_CMD_CLOSE];
  colour := 0x302010FF |}.
Definition stripe_8 : block := {|
  calls := [
    move_to 367 100;
    cubic_to 382 120 402 160 412 200;
    cubic_to 416 215 407 210 404 195;
    cubic_to 394 155 377 118 362 98;
    FACET_CMD_CLOSE];
  colour := 0x302010FF |}.
Definition muzzle : block :=
  {| calls := oval (fz 256) (fz 340) (fz 90) (fz 70); colour := 0xFFF0D0FF |}.
Definition left_eye : block :=
  {| calls := oval (fz 190) (fz 220) (fz 45) (fz 35); colour := 0xFFFFFFFF |}.
Definition right_eye : block :=
  {| calls := oval (fz 322) (fz 220) (fz 45) (fz 35); colour := 0xFFFFFFFF |}.
Definition left_pupil : block :=
  {| calls := oval (fz 195) (fz 222) (fz 18) (fz 18); colour := 0x101010FF |}.
Definition right_pupil : block :=
  {| calls := oval (fz 317) (fz 222) (fz 18) (fz 18); colour := 0x101010FF |}.
Definition nose : block := {|
  calls := [
    move_to 256 290;
    cubic_to 268 290 280 300 280 310;
    cubic_to 280 320 268 330 256 330;
    cubic_to 244 330 232 320 232 310;
    cubic_to 232 300 244 290 256 290;
    FACET_CMD_CLOSE];
  colour := 0x301818FF |}.
Definition upper_mouth_line : block := {|
  calls := [
    move_to 256 330;
    line_to 256 355;
    cubic_to 256 358 254 358 254 355;
    line_to 254 330;
    FACET_CMD_CLOSE];
  colour := 0x301818FF |}.
Definition left_mouth_curve : block := {|
  calls := [
    move_to 254 355;
    cubic_to 240 370 210 380 200 370;
    cubic_to 198 368 208 378 222 373;
    cubic_to 238 367 252 357 254 353;
    FACET_CMD_CLOSE];
  colour := 0x301818FF |}.
Definition right_mouth_curve : block := {|
  calls := [
    move_to 258 355;
    cubic_to 272 370 302 380 312 370;
    cubic_to 314 368 304 378 290 373;
    cubic_to 274 367 260 357 258 353;
    FACET_CMD_CLOSE];
  colour := 0x301818FF |}.
Definition left_whisker_1 : block := {|
  calls := [
    move_to 170 335;
    quad_to 100 320 30 310;
    quad_to 100 325 170 338;
    FACET_CMD_CLOSE];
  colour := 0x202020FF |}.
Definition left_whisker_2 : block := {|
  calls := [
    move_to 170 350;
    quad_to 95 350 25 355;
    quad_to 95 354 170 353;
    FACET_CMD_CLOSE];
  colour := 0x202020FF |}.
Definition left_whisker_3 : block := {|
  calls := [
    move_to 172 365;
    quad_to 105 380 35 400;
    quad_to 105 384 172 368;
    FACET_CMD_CLOSE];
  colour := 0x202020FF |}.
Definition right_whisker_1 : block := {|
  calls := [
    move_to 342 335;
    quad_to 412 320 482 310;
    quad_to 412 325 342 338;
    FACET_CMD_CLOSE];
  colour := 0x202020FF |}.
Definition right_whisker_2 : block := {|
  calls := [
    move_to 342 350;
    quad_to 417 350 487 355;
    quad_to 417 354 342 353;
    FACET_CMD_CLOSE];
  colour := 0x202020FF |}.
Definition right_whisker_3 : block := {|
  calls := [
    move_to 340 365;
    quad_to 407 380 477 400;
    quad_to 407 384 340 368;
    FACET_CMD_CLOSE];
  colour := 0x202020FF |}.
Definition left_highlight : block :=
  {| calls := oval (fz 200) (fz 216) (fz 6) (fz 6); colour := 0xFFFFFFE0 |}.
Definition right_highlight : block :=
  {| calls := oval (fz 322) (fz 216) (fz 6) (fz 6); colour := 0xFFFFFFE0 |}.

Definition tiger : list block :=
  [head_outline; left_ear; right_ear; left_inner_ear;
   right_inner_ear; stripe_1; stripe_2; stripe_3;
   stripe_4; stripe_5; stripe_6; stripe_7;
   stripe_8; muzzle; left_eye; right_eye;
   left_pupil; right_pupil; nose; upper_mouth_line;
   left_mouth_curve; right_mouth_curve; left_whisker_1; left_whisker_2;
   left_whisker_3; right_whisker_1; right_whisker_2; right_whisker_3;
   left_highlight; right_highlight].

Section with_alloc.
Context (alloc : Z → bool).

(** A block: a new path, its calls, the fill.  The builders dereference the
    path without a test, so a failed [facet_path_new] is undefined. *)
Definition draw_block (c : option FacetCanvas) (b : block) : Res (option FacetCanvas) :=
  match facet_path_new alloc with
  | None => Undef
  | Some p =>
      p ← path_cmds alloc p (calls b);
      facet_canvas_fill_nonzero alloc c (Some p) (colour b)
  end.

Fixpoint draw_blocks (c : option FacetCanvas) (bs : list block) : Res (option FacetCanvas) :=
  match bs with
  | [] => Ok c
  | b :: bs => c ← draw_block c b; draw_blocks c bs
  end.

Definition build_tiger (c : option FacetCanvas) : Res (option FacetCanvas) := draw_blocks c tiger.

(** The multiplication is signed, so it is undefined when it overflows. *)
Definition hash_byte (pixels : list Z) (i hash : Z) : Res Z :=
  byte_val ← rd pixels i;
  i64 (Z.lxor hash byte_val * 1099511628211).

Definition pixel_checksum (c : FacetCanvas) : Res Z :=
  hash ← for_range 0 (u64 (stride c * height c)) (hash_byte (pixels c)) 0;
  Ok (u64 hash).

(** A canvas pointer that is dereferenced. *)
Definition deref (c : option FacetCanvas) : Res FacetCanvas :=
  match c with Some c => Ok c | None => Undef end.

(** One frame: clear and draw. *)
Definition draw_frame (c : option FacetCanvas) : Res (option FacetCanvas) :=
  c ← deref c;
  c ← facet_canvas_clear c 0x181820FF;
  build_tiger (Some c).

Definition WIDTH : Z := 512.
Definition HEIGHT : Z := 512.
Definition WARMUP : Z := 3.
Definition ITERATIONS : Z := 20.

(** The checksum over the timed frames and the one of the golden frame. *)
Definition tiger_main : Res (Z * Z) :=
  let c := facet_canvas_new alloc WIDTH HEIGHT in
  c ← for_range 0 WARMUP (λ _ c, draw_frame c) c;
  '(c, acc) ← for_range 0 ITERATIONS (λ _ '(c, acc),
    c ← draw_frame c;
    cv ← deref c;
    h ← pixel_checksum cv;
    Ok (c, u64 (acc + h))) (c, 0);
  c ← draw_frame c;
  cv ← deref c;
  golden ← pixel_checksum cv;
  Ok (acc, golden).
End with_alloc.
