(* ===== verification/TigerSpec.v ===== *)
(** * The reference scene: what drawing it guarantees

    The properties of [Tiger], with their witnesses. *)
From S2P Require Import Prelude F32 RasterPath RasterFill Tiger.

(** ** The segments of a path, whatever the allocator does *)
(** The edges of one command, as segments. *)
Definition cmd_segs (cmd : FacetPathCmd) (cur start : FacetPoint) : list seg :=
  match cmd with
  | FACET_CMD_MOVE_TO p => []
  | FACET_CMD_LINE_TO p => [(cur, p)]
  | FACET_CMD_QUAD_TO c p => quad_segs 17 cur c p tolerance_fill
  | FACET_CMD_CUBIC_TO c1 c2 p => cubic_segs 17 cur c1 c2 p tolerance_fill
  | FACET_CMD_CLOSE => [(cur, start)]
  end.

Definition cmd_points (cmd : FacetPathCmd) (cur start : FacetPoint) : FacetPoint * FacetPoint :=
  match cmd with
  | FACET_CMD_MOVE_TO p => (p, p)
  | FACET_CMD_LINE_TO p | FACET_CMD_QUAD_TO _ p | FACET_CMD_CUBIC_TO _ _ p => (p, start)
  | FACET_CMD_CLOSE => (start, start)
  end.

Fixpoint path_segs (cs : list FacetPathCmd) (cur start : FacetPoint) : list seg :=
  match cs with
  | [] => []
  | cmd :: cs =>
      cmd_segs cmd cur start
        ++ path_segs cs (cmd_points cmd cur start).1 (cmd_points cmd cur start).2
  end.

Section edges.
Context (alloc : Z → bool) (Halloc : alloc_bounded alloc) (P : Edge → Prop).

(** Every stored edge is one of the segments. *)
Lemma add_segs_forall et segs et' :
  et_wf et → add_segs alloc et segs = Ok et' →
  Forall P (edges et) → Forall P (omap seg_of segs) → Forall P (edges et').
Proof using Halloc.
  revert et. induction segs as [|[a b] segs IH]; intros et Hwf E Het HP; cbn [add_segs] in E.
  { by injection E as <-. }
  destruct (add_line_edge_ok alloc Halloc et (px a) (py a) (px b) (py b) Hwf)
    as (et1 & E1 & Hwf1 & Hed).
  rewrite E1 in E. cbn [mbind Res_bind] in E. cbn [omap list_omap] in HP.
  change (seg_of (a, b)) with (seg_edge (px a) (py a) (px b) (py b)) in HP.
  apply (IH et1 Hwf1 E); [|by destruct (seg_edge _ _ _ _); [inversion HP|]].
  destruct Hed as [->|[-> _]]; [|done]. apply Forall_app. split; [done|].
  destruct (seg_edge _ _ _ _); [|done]. inversion HP; subst. by constructor.
Qed.

Lemma fill_flatten_cmd_segs cmd st st' :
  fill_flatten_cmd alloc cmd st = Ok st' →
  add_segs alloc (fs_et st) (cmd_segs cmd (fs_cur st) (fs_start st)) = Ok (fs_et st') ∧
  (fs_cur st', fs_start st') = cmd_points cmd (fs_cur st) (fs_start st).
Proof using Type.
  assert (Hq : ∀ et p0 p1 p2, flatten_quad_et alloc 18 et p0 p1 p2 tolerance_fill 0
            = add_segs alloc et (quad_segs 17 p0 p1 p2 tolerance_fill)).
  { intros et p0 p1 p2. rewrite <- (flatten_quad_et_segs alloc 17 18) by lia. done. }
  assert (Hc : ∀ et p0 p1 p2 p3, flatten_cubic_et alloc 18 et p0 p1 p2 p3 tolerance_fill 0
            = add_segs alloc et (cubic_segs 17 p0 p1 p2 p3 tolerance_fill)).
  { intros et p0 p1 p2 p3. rewrite <- (flatten_cubic_et_segs alloc 17 18) by lia. done. }
  destruct cmd as [p|p|c p|c1 c2 p|]; cbn [fill_flatten_cmd cmd_segs cmd_points];
    [intros [= <-]; done|..]; rewrite ?Hq, ?Hc; intros E;
    apply bind_Ok in E as (et & Ea & E); injection E as <-; cbn [fs_et fs_cur fs_start];
    (split; [|reflexivity]); [|exact Ea|exact Ea|];
    cbn [add_segs]; rewrite Ea; reflexivity.
Qed.

Lemma fill_flatten_forall cs st st' :
  et_wf (fs_et st) → edges_ok (fs_et st) → fill_flatten alloc cs st = Ok st' →
  Forall P (edges (fs_et st)) → Forall P (omap seg_of (path_segs cs (fs_cur st) (fs_start st))) →
  Forall P (edges (fs_et st')).
Proof using Halloc.
  revert st. induction cs as [|cmd cs IH]; intros st Hwf Hok E Hst HP; cbn [fill_flatten] in E.
  { by injection E as <-. }
  pose proof (fill_flatten_cmd_ok alloc Halloc cmd st Hwf Hok) as Hw.
  destruct (fill_flatten_cmd alloc cmd st) as [st1| |] eqn:E1; [|done|done].
  destruct Hw as (Hwf1 & Hok1 & _). cbn [mbind Res_bind] in E.
  apply fill_flatten_cmd_segs in E1 as [Ea Ep].
  cbn [path_segs] in HP. rewrite omap_app, <- Ep in HP. apply Forall_app in HP as [HP1 HP2].
  exact (IH st1 Hwf1 Hok1 E (add_segs_forall _ _ _ Hwf Ea Hst HP1) HP2).
Qed.
End edges.

(** ** Edges whose conversions are values of [int]

    The vertical bounds of the edge, and its column in each of the scanlines
    [0..h-1] it crosses. *)
Definition is_Ok {A} (m : Res A) : bool := match m with Ok _ => true | _ => false end.

Definition scan_ys (h : Z) : list f32 := (λ y, fadd (fz y) half) <$> seqZ 0 h.

Definition edge_placed (ss : list f32) (e : Edge) : bool :=
  is_Ok (f2i (floorf (ey0 e))) && is_Ok (f2i (ceilf (ey1 e))) &&
  forallb (λ s, if crosses s e then is_Ok (edge_col s e) else true) ss.

Lemma is_Ok_true {A} (m : Res A) : is_Ok m = true → ∃ a, m = Ok a.
Proof. destruct m; [eauto|done|done]. Qed.

Lemma fill_bbox_forall (P Q : f32 → Prop) es mn mx :
  Forall (λ e, P (ey0 e) ∧ Q (ey1 e)) es → P mn → Q mx →
  P (fill_bbox es mn mx).1 ∧ Q (fill_bbox es mn mx).2.
Proof.
  revert mn mx. induction es as [|e es IH]; intros mn mx HF Hmn Hmx; [done|].
  inversion HF as [|? ? [HP HQ] HF']; subst. cbn [fill_bbox].
  apply IH; [done| |]; by case_match.
Qed.

Lemma placed_scan et c :
  Forall (λ e, edge_placed (scan_ys (height c)) e = true) (edges et) →
  ∃ ys ye, scan_rows et c ys ye ∧
    ∀ y, ys ≤ y < ye → cols_ok (fadd (fz y) half) (edges et).
Proof.
  intros HF.
  assert (Hrows : ∃ ys ye, scan_rows et c ys ye ∧ (ys < ye → 0 ≤ ys ∧ ye ≤ height c)).
  { unfold scan_rows. destruct (edges et) as [|e es] eqn:Ee.
    { exists 0, 0. split; [done|lia]. }
    assert (HF' : Forall (λ e, (∃ y, f2i (floorf (ey0 e)) = Ok y) ∧
                               (∃ y, f2i (ceilf (ey1 e)) = Ok y)) (e :: es)).
    { eapply Forall_impl; [exact HF|]. cbv beta. intros e' H.
      apply andb_true_iff in H as [H _]. apply andb_true_iff in H as [H1 H2].
      split; by apply is_Ok_true. }
    inversion HF' as [|? ? [H0 H1] HF2]; subst.
    destruct (fill_bbox_forall (λ f, ∃ y, f2i (floorf f) = Ok y) (λ f, ∃ y, f2i (ceilf f) = Ok y)
                es (ey0 e) (ey1 e) HF2 H0 H1) as [[y0 E0] [y1 E1]].
    exists (Z.max 0 y0), (Z.min (height c) y1). split; [|lia].
    exists y0, y1. auto. }
  destruct Hrows as (ys & ye & Hs & Hr). exists ys, ye. split; [done|].
  intros y Hy. unfold cols_ok. eapply Forall_impl; [exact HF|]. cbv beta. intros e H Hc.
  apply andb_true_iff in H as [_ H]. rewrite forallb_forall in H.
  assert (Hin : In (fadd (fz y) half) (scan_ys (height c))).
  { apply list_elem_of_In, list_elem_of_fmap. exists y. split; [done|]. apply elem_of_seqZ. lia. }
  specialize (H _ Hin). rewrite Hc in H. by apply is_Ok_true.
Qed.

(** ** Drawing *)

(** A canvas of the benchmark's size whose pixels are all opaque. *)
Definition opaque_canvas (c : FacetCanvas) : Prop :=
  canvas_wf c ∧ width c = WIDTH ∧ height c = HEIGHT ∧
  ∀ x y, 0 ≤ x < WIDTH → 0 ≤ y < HEIGHT → cbyte c x y 3 = 255.

Definition placed_block (b : block) : bool :=
  (zlen (calls b) <=? 64) &&
  forallb (edge_placed (scan_ys HEIGHT)) (omap seg_of (path_segs (calls b) origin origin)).

Lemma path_cmds_room alloc cs p :
  path_capacity p = 64 → path_block p = 64 → path_count p + zlen cs ≤ 64 →
  path_cmds alloc p cs = Ok {| cmds := cmds p ++ cs; path_capacity := 64; path_block := 64 |}.
Proof.
  revert p. induction cs as [|cmd cs IH]; intros p Hc Hb Hn; cbn [path_cmds length] in *.
  { rewrite app_nil_r. destruct p; cbn in *; by subst. }
  assert (E : path_cmd alloc p cmd = path_push alloc p cmd) by by destruct cmd as [[]|[]|[] []|[] [] []|].
  rewrite E. unfold path_push, path_ensure_capacity. rewrite Hc.
  destruct (Z.leb_spec 64 (path_count p)); [lia|]. rewrite Hb.
  destruct (Z.ltb_spec (path_count p) 64); [|lia]. cbn [mbind Res_bind].
  rewrite IH; cbn [cmds path_capacity path_block]; [by rewrite <- app_assoc|done|done|].
  unfold path_count in *. cbn [cmds]. rewrite length_app. cbn. lia.
Qed.

Lemma blend_opaque a : 0 ≤ a < 256 → blend_byte a a 255 = 255.
Proof.
  intros Ha. unfold blend_byte, over.
  destruct (Z.eqb_spec a 255) as [->|]; [done|]. destruct (Z.ltb_spec 0 a); [|done].
  rewrite Z.quot_div_nonneg by lia. rewrite Z.mul_comm, Z.div_mul by lia.
  rewrite u8_small; lia.
Qed.

Section draw.
Context (alloc : Z → bool) (Halloc : alloc_bounded alloc).
Context (Hpath : alloc sizeof_FacetPath = true) (Hcmds : alloc (64 * sizeof_FacetPathCmd) = true).

Lemma fill_placed c p rgba rule st :
  opaque_canvas c → zlen (cmds p) ≤ 64 →
  fill_flatten alloc (cmds p)
    {| fs_et := et_new alloc; fs_cur := origin; fs_start := origin |} = Ok st →
  Forall (λ e, edge_placed (scan_ys HEIGHT) e = true) (edges (fs_et st)) →
  zlen (edges (fs_et st)) < 2 ^ 24 → edges_ok (fs_et st) →
  wp (facet_canvas_fill alloc (Some c) (Some p) rgba rule)
     (λ oc, ∃ c', oc = Some c' ∧ opaque_canvas c').
Proof using Type.
  intros Hc Hn Hfl Hpl Hlen Hok. pose proof Hc as (Hwf & Hw & Hh & Ha).
  unfold facet_canvas_fill.
  destruct (path_count p =? 0); [cbn [wp]; eauto|]. rewrite Hfl. cbn [mbind Res_bind].
  apply wp_bind. destruct (alloc (width c * 4)) eqn:Ew.
  - rewrite <- Hh in Hpl. destruct (placed_scan _ _ Hpl) as (ys & ye & Hrows & Hcols).
    eapply wp_mono; [by apply (fill_edges_ok alloc rule rgba (fs_et st) c ys ye)|].
    intros c' (Hwf' & Hw' & Hh' & Hc'). cbn [wp]. exists c'. split; [done|].
    split; [done|]. split; [congruence|]. split; [congruence|].
    intros x y Hx Hy. rewrite Hc' by (rewrite ?Hw, ?Hh; lia).
    rewrite Ha by done. case_decide; [|done]. change (chan _ _ _ _ 3) with (rgba_a rgba).
    apply blend_opaque. destruct (rgba_bytes rgba) as (_ & _ & _ & Hb). exact Hb.
  - unfold fill_edges. destruct (edges (fs_et st)) as [|e es] eqn:Ee; [cbn [wp]; eauto|].
    assert (Hpl' : Forall (λ e, edge_placed (scan_ys (height c)) e = true) (edges (fs_et st)))
      by by rewrite Hh, Ee.
    destruct (placed_scan _ _ Hpl') as (ys & ye & Hrows & _).
    unfold scan_rows in Hrows. rewrite Ee in Hrows. destruct Hrows as (y0 & y1 & E0 & E1 & _).
    destruct (fill_bbox es (ey0 e) (ey1 e)) as [mn mx]. cbn [fst snd] in *.
    rewrite E0, E1. cbn [mbind Res_bind]. rewrite Ew. cbn [negb wp]. eauto.
Qed.

Lemma draw_block_ok c b :
  placed_block b = true → opaque_canvas c →
  wp (draw_block alloc (Some c) b) (λ oc, ∃ c', oc = Some c' ∧ opaque_canvas c').
Proof using Halloc Hpath Hcmds.
  intros Hb Hc. apply andb_true_iff in Hb as [Hl Hpl]. apply Z.leb_le in Hl.
  unfold draw_block, facet_path_new. rewrite Hpath, Hcmds. cbn [negb].
  rewrite path_cmds_room by (unfold path_count; cbn; lia). cbn [mbind Res_bind cmds app].
  destruct (et_new_wf alloc) as [Hwf0 He0].
  set (st0 := {| fs_et := et_new alloc; fs_cur := origin; fs_start := origin |}).
  assert (Hok0 : edges_ok (fs_et st0)) by (unfold edges_ok; cbn [fs_et st0]; by rewrite He0).
  pose proof (fill_flatten_ok alloc Halloc (calls b) st0 Hwf0 Hok0) as Hfl.
  destruct (fill_flatten alloc (calls b) st0) as [st| |] eqn:Est; [|done|done].
  destruct Hfl as (_ & Hok & Hlen). apply (fill_placed _ _ _ _ st); [done|done|exact Est| | |done].
  - apply (fill_flatten_forall alloc Halloc _ (calls b) st0 st Hwf0 Hok0 Est).
    + cbn [fs_et st0]. by rewrite He0.
    + apply Forall_forall. intros e He. rewrite forallb_forall in Hpl.
      by apply Hpl, list_elem_of_In.
  - cbn [fs_et st0] in Hlen. rewrite He0 in Hlen. cbn [length] in Hlen. lia.
Qed.

Lemma draw_blocks_ok bs c :
  forallb placed_block bs = true → opaque_canvas c →
  wp (draw_blocks alloc (Some c) bs) (λ oc, ∃ c', oc = Some c' ∧ opaque_canvas c').
Proof using Halloc Hpath Hcmds.
  revert c. induction bs as [|b bs IH]; intros c Hbs Hc; cbn [draw_blocks].
  { cbn [wp]. eauto. }
  apply andb_true_iff in Hbs as [Hb Hbs].
  apply wp_bind. eapply wp_mono; [by apply draw_block_ok|]. intros oc (c' & -> & Hc').
  by apply IH.
Qed.
End draw.

(** Every conversion the thirty paths need is in range. *)
Lemma tiger_placed : forallb placed_block tiger = true.
Proof. vm_compute. reflexivity. Qed.

(** The reference scene is drawn safely: on any opaque canvas of the
    benchmark's size, with any allocator that serves the small requests of
    [facet_path_new] (the edge table and the coverage buffer may fail), all
    thirty paths are built and filled without undefined behaviour, every
    conversion of a vertical bound or a column is in range, and the canvas
    keeps its size and stays opaque. *)
Theorem tiger_scene_safe alloc c :
  alloc_bounded alloc → alloc sizeof_FacetPath = true →
  alloc (64 * sizeof_FacetPathCmd) = true → opaque_canvas c →
  wp (build_tiger alloc (Some c)) (λ oc, ∃ c', oc = Some c' ∧ opaque_canvas c').
Proof.
  intros Hb Hp Hc. apply draw_blocks_ok; [done|done|done|exact tiger_placed].
Qed.

(** An allocator that serves requests up to 1 MiB. *)
Definition alloc_MiB (n : Z) : bool := n <=? 2 ^ 20.

Lemma alloc_MiB_bounded : alloc_bounded alloc_MiB.
Proof. intros n H%Z.leb_le. lia. Qed.

Definition white (w h : Z) : FacetCanvas :=
  {| pixels := replicate (Z.to_nat (4 * (w * h))) 255; width := w; height := h; stride := 4 * w |}.

Lemma white_wf w h : 0 ≤ w < 2 ^ 30 → 0 ≤ h < 2 ^ 31 → 4 * (w * h) < 2 ^ 32 → canvas_wf (white w h).
Proof.
  intros. unfold canvas_wf, is_byte; simpl. rewrite length_replicate.
  repeat split; try lia. apply Forall_replicate. lia.
Qed.

Lemma white_opaque w h : w = WIDTH → h = HEIGHT → opaque_canvas (white w h).
Proof.
  intros Hw Hh. assert (0 ≤ w < 2 ^ 10 ∧ 0 ≤ h < 2 ^ 10) by (unfold WIDTH, HEIGHT in *; lia).
  split; [apply white_wf; nia|]. split; [done|]. split; [done|]. intros x y Hx Hy.
  unfold cbyte. cbn [white pixels width]. rewrite <- Hw in Hx. rewrite <- Hh in Hy.
  apply znth_replicate. pose proof (pidx_range w h x y 3 Hx Hy). lia.
Qed.

Lemma tiger_scene_safe_witness :
  wp (build_tiger alloc_MiB (Some (white WIDTH HEIGHT)))
     (λ oc, ∃ c', oc = Some c' ∧ opaque_canvas c').
Proof.
  apply (tiger_scene_safe alloc_MiB (white WIDTH HEIGHT));
    [exact alloc_MiB_bounded|reflexivity|reflexivity|by apply white_opaque].
Defined.

(** ** The checksum *)

(** The hash before byte [i]: zero while the bytes are, then one product. *)
Definition hash_inv (px : list Z) (i hash : Z) : Prop :=
  (∀ k, 0 ≤ k < i - 1 → px.[k] = 0) ∧
  ((hash = 0 ∧ (0 < i → px.[i - 1] = 0)) ∨ 1099511628211 ≤ hash ≤ 255 * 1099511628211).

Lemma land_le_r h b : 0 ≤ b → 0 ≤ Z.land h b ≤ b.
Proof.
  intros Hb. split; [apply Z.land_nonneg; lia|].
  assert (E : Z.land h b + Z.ldiff b h = b).
  { rewrite Z.add_nocarry_lxor; apply Z.bits_inj'; intros n Hn;
      rewrite ?Z.bits_0, ?Z.lxor_spec, ?Z.land_spec, ?Z.lxor_spec, Z.ldiff_spec, ?Z.land_spec;
      by destruct (Z.testbit h n), (Z.testbit b n). }
  assert (0 ≤ Z.ldiff b h) by (apply Z.ldiff_nonneg; lia). lia.
Qed.

Lemma lxor_byte h b : is_byte b → h - 255 ≤ Z.lxor h b.
Proof.
  unfold is_byte. intros Hb. pose proof (Z.add_lxor_2land h b). pose proof (land_le_r h b). lia.
Qed.

Lemma hash_byte_step px i hash :
  Forall is_byte px → 0 ≤ i < zlen px → hash_inv px i hash →
  wpu (hash_byte px i hash) (hash_inv px (i + 1)).
Proof.
  intros HF Hi [Hz Hh]. unfold hash_byte. rewrite rd_ok by done. cbn [mbind Res_bind].
  assert (Hb : is_byte (px.[i])).
  { rewrite Forall_forall in HF. apply HF, list_elem_of_lookup.
    exists (Z.to_nat i). by apply znth_lookup. }
  destruct Hh as [[-> Hl]|Hh].
  - rewrite Z.lxor_0_l. unfold is_byte in Hb.
    rewrite (i64_ok (px.[i] * 1099511628211)) by (c_unfold; lia). cbn [wpu].
    split; [|destruct (decide (px.[i] = 0)) as [E|E]; [left|right; lia]].
    + intros k Hk. destruct (decide (k = i - 1)) as [->|]; [apply Hl; lia|apply Hz; lia].
    + rewrite E. split; [done|]. intros _. by replace (i + 1 - 1) with i by lia.
  - pose proof (lxor_byte hash (px.[i]) Hb). unfold i64.
    destruct (is_i64 _) eqn:Eo; [|done]. apply is_i64_true in Eo. c_unfold. lia.
Qed.

(** The checksum multiplies a signed 64-bit hash by the FNV prime without
    wrapping: on a well-formed canvas it has a defined result only when every
    byte before the last one is zero, because after the first non-zero byte
    the next product exceeds [INT64_MAX]. *)
Theorem checksum_defined_only_blank c h :
  canvas_wf c → pixel_checksum c = Ok h →
  ∀ i, 0 ≤ i < zlen (pixels c) - 1 → (pixels c).[i] = 0.
Proof.
  intros (Hw & Hh & Hw4 & _ & Hwh & Hst & Hlen & HF) E.
  assert (W : wpu (pixel_checksum c)
                (λ _, ∀ i, 0 ≤ i < zlen (pixels c) - 1 → (pixels c).[i] = 0)).
  { unfold pixel_checksum. rewrite Hst, u64_small by nia. apply wpu_bind.
    apply (for_range_wpu (hash_inv (pixels c))).
    - split; [lia|]. left. split; [done|lia].
    - intros i hash Hi. apply hash_byte_step; [done|lia].
    - intros hash [Hz _]. cbn [wpu]. intros i Hi. apply Hz. lia. }
  rewrite E in W. exact W.
Qed.

Lemma checksum_defined_only_blank_witness :
  pixel_checksum {| pixels := [0; 0; 0; 7]; width := 1; height := 1; stride := 4 |}
    = Ok (7 * 1099511628211) ∧
  ∀ i, 0 ≤ i < 3 → [0; 0; 0; 7].[i] = 0.
Proof.
  split; [reflexivity|].
  apply (checksum_defined_only_blank
    {| pixels := [0; 0; 0; 7]; width := 1; height := 1; stride := 4 |} (7 * 1099511628211));
    [|reflexivity].
  unfold canvas_wf, is_byte; simpl. repeat split; try lia. repeat constructor; lia.
Defined.

Lemma checksum_opaque c : opaque_canvas c → wpu (pixel_checksum c) (λ _, False).
Proof.
  intros (Hwf & Hw & Hh & Ha).
  pose proof Hwf as (Hw0 & Hh0 & Hw4 & _ & Hwh & Hst & Hlen & HF).
  assert (H3 : (pixels c).[3] = 255).
  { specialize (Ha 0 0 ltac:(done) ltac:(done)). unfold cbyte, pidx in Ha.
    by rewrite Z.mul_0_l in Ha. }
  unfold WIDTH, HEIGHT in *. unfold pixel_checksum. rewrite Hst, u64_small by nia.
  apply wpu_bind. apply (for_range_wpu (hash_inv (pixels c))).
  - split; [lia|]. left. split; [done|lia].
  - intros i hash Hi. apply hash_byte_step; [done|lia].
  - intros hash [Hz _]. cbn [wpu]. specialize (Hz 3). rewrite H3 in Hz.
    assert (255 = 0) by (apply Hz; rewrite Hw, Hh; lia). lia.
Qed.

Lemma draw_frame_ok alloc c :
  alloc_bounded alloc → alloc sizeof_FacetPath = true →
  alloc (64 * sizeof_FacetPathCmd) = true → canvas_wf c → width c = WIDTH → height c = HEIGHT →
  wp (draw_frame alloc (Some c)) (λ oc, ∃ c', oc = Some c' ∧ opaque_canvas c').
Proof.
  intros Hb Hp Hc Hwf Hw Hh. unfold draw_frame. cbn [deref mbind Res_bind]. apply wp_bind.
  eapply wp_mono; [by apply canvas_clear_ok|]. intros c1 (Hwf1 & Hw1 & Hh1 & Hc1).
  apply draw_blocks_ok; [done|done|done|exact tiger_placed|].
  split; [done|]. split; [congruence|]. split; [congruence|].
  intros x y Hx Hy. rewrite Hc1 by (rewrite ?Hw, ?Hh; lia). reflexivity.
Qed.

(** So the benchmark program is undefined: it allocates the canvas, draws
    the three warm-up frames and the first timed frame, and overflows in the
    checksum of that frame. *)
Theorem tiger_main_undefined alloc :
  alloc_bounded alloc → alloc sizeof_FacetCanvas = true → alloc (4 * (WIDTH * HEIGHT)) = true →
  alloc sizeof_FacetPath = true → alloc (64 * sizeof_FacetPathCmd) = true →
  tiger_main alloc = Undef.
Proof.
  intros Hb Hcv Hpx Hp Hc. apply wpu_undef. unfold tiger_main.
  assert (Hnew : ∃ c, facet_canvas_new alloc WIDTH HEIGHT = Some c ∧ canvas_wf c ∧
            width c = WIDTH ∧ height c = HEIGHT).
  { destruct (facet_canvas_new alloc WIDTH HEIGHT) as [c|] eqn:E.
    - destruct (canvas_new_wf alloc WIDTH HEIGHT c) as (H1 & H2 & H3 & _);
        [unfold WIDTH, HEIGHT; lia..|exact E|]. eauto.
    - exfalso. unfold facet_canvas_new in E. rewrite Hcv in E. cbn [negb] in E.
      rewrite (u32_small (WIDTH * 4)) in E by (unfold WIDTH; lia).
      rewrite u32_small in E by (unfold WIDTH, HEIGHT; lia).
      replace (WIDTH * 4 * HEIGHT) with (4 * (WIDTH * HEIGHT)) in E by lia.
      by rewrite Hpx in E. }
  destruct Hnew as (c0 & -> & Hwf0 & Hw0 & Hh0).
  assert (Hframe : ∀ oc, (∃ c, oc = Some c ∧ canvas_wf c ∧ width c = WIDTH ∧ height c = HEIGHT) →
            wpu (draw_frame alloc oc) (λ oc, ∃ c, oc = Some c ∧ opaque_canvas c)).
  { intros oc (c & -> & Hwf & Hw & Hh). apply wp_wpu. by apply draw_frame_ok. }
  assert (Hop : ∀ oc, (∃ c, oc = Some c ∧ opaque_canvas c) →
            ∃ c, oc = Some c ∧ canvas_wf c ∧ width c = WIDTH ∧ height c = HEIGHT).
  { intros oc (c & -> & Hwf & Hw & Hh & _). eauto. }
  apply wpu_bind.
  apply (for_range_wpu (λ _ oc, ∃ c, oc = Some c ∧ canvas_wf c ∧ width c = WIDTH ∧
                                      height c = HEIGHT)).
  - eauto.
  - intros _ oc _ H. eapply wpu_mono; [by apply Hframe|]. exact Hop.
  - intros oc Hoc. apply wpu_bind.
    change (for_range 0 ITERATIONS ?b (oc, 0)) with (for_up (S 19) 0 b (oc, 0)).
    cbn [for_up]. apply wpu_bind. apply wpu_bind.
    eapply wpu_mono; [by apply Hframe|]. intros oc1 (c1 & -> & Hc1). cbn [deref mbind Res_bind].
    apply wpu_bind. eapply wpu_mono; [by apply checksum_opaque|]. done.
Qed.

Lemma tiger_main_undefined_witness : tiger_main alloc_MiB = Undef.
Proof.
  apply (tiger_main_undefined alloc_MiB); [exact alloc_MiB_bounded|reflexivity..].
Defined.
