(* ===== verification/Tls.v ===== *)
(** * NetD's TLS bridge

    Models [user/netd/tls_state.h] and [user/netd/tls_bridge.c]: the static
    pool of connections, the asynchronous pump, the send path and the getters.
    BearSSL and the socket calls are third-party code: they are the operations
    of the classes [BearSSL] and [Sockets], over an abstract engine, X.509
    context and operating-system state.  [ipc_ring_push_bytes] is recorded as
    the list of its calls. *)
From S2P Require Import Prelude.

Inductive NetDTLSState :=
| TLS_CONN_IDLE | TLS_CONN_HANDSHAKING | TLS_CONN_ESTABLISHED | TLS_CONN_CLOSING
| TLS_CONN_ERROR.

#[export] Instance NetDTLSState_eq_dec : EqDecision NetDTLSState.
Proof. solve_decision. Defined.

Definition tls_state_code (s : NetDTLSState) : Z :=
  match s with
  | TLS_CONN_IDLE => 0 | TLS_CONN_HANDSHAKING => 1 | TLS_CONN_ESTABLISHED => 2
  | TLS_CONN_CLOSING => 3 | TLS_CONN_ERROR => 4
  end.

Definition MAX_CONCURRENT_TLS_SOCKETS : Z := 64.

(** The embedded trust anchor. *)
Definition ISRG_ROOT_X1_DN : list Z :=
  [0x30; 0x4F; 0x31; 0x0B; 0x30; 0x09; 0x06; 0x03; 0x55; 0x04; 0x06; 0x13;
   0x02; 0x55; 0x53; 0x31; 0x29; 0x30; 0x27; 0x06; 0x03; 0x55; 0x04; 0x0A;
   0x13; 0x20; 0x49; 0x6E; 0x74; 0x65; 0x72; 0x6E; 0x65; 0x74; 0x20; 0x53;
   0x65; 0x63; 0x75; 0x72; 0x69; 0x74; 0x79; 0x20; 0x52; 0x65; 0x73; 0x65;
   0x61; 0x72; 0x63; 0x68; 0x20; 0x47; 0x72; 0x6F; 0x75; 0x70; 0x31; 0x15;
   0x30; 0x13; 0x06; 0x03; 0x55; 0x04; 0x03; 0x13; 0x0C; 0x49; 0x53; 0x52;
   0x47; 0x20; 0x52; 0x6F; 0x6F; 0x74; 0x20; 0x58; 0x31].

Definition ISRG_ROOT_X1_RSA_N : list Z :=
  [0xAD; 0xE8; 0x24; 0x73; 0xF4; 0x14; 0x37; 0xF3; 0x9B; 0x9E; 0x2B; 0x57;
   0x28; 0x1C; 0x87; 0xBE; 0xDC; 0xB7; 0xDF; 0x38; 0x90; 0x8C; 0x6E; 0x3C;
   0xE6; 0x57; 0xA0; 0x78; 0xF7; 0x75; 0xC2; 0xA2; 0xFE; 0xF5; 0x6A; 0x6E;
   0xF6; 0x00; 0x4F; 0x28; 0xDB; 0xDE; 0x68; 0x86; 0x6C; 0x44; 0x93; 0xB6;
   0xB1; 0x63; 0xFD; 0x14; 0x12; 0x6B; 0xBF; 0x1F; 0xD2; 0xEA; 0x31; 0x9B;
   0x21; 0x7E; 0xD1; 0x33; 0x3C; 0xBA; 0x48; 0xF5; 0xF5; 0x6A; 0x7A; 0x04;
   0x45; 0x2E; 0x2C; 0xBD; 0x12; 0xE7; 0xC7; 0x88; 0x0A; 0xE0; 0x9C; 0xC4;
   0xBB; 0x5D; 0x07; 0x5B; 0x2F; 0x68; 0x0D; 0xC8; 0x03; 0xE1; 0x27; 0xAC;
   0x63; 0x65; 0x42; 0x51; 0x17; 0x96; 0x1F; 0x14; 0x69; 0xA3; 0x5B; 0x82;
   0x6A; 0x93; 0xD4; 0xBB; 0x15; 0x55; 0x5A; 0x8D; 0x7B; 0x27; 0x58; 0xC3;
   0x68; 0xCA; 0x75; 0x6E; 0x47; 0x80; 0x8D; 0x93].

Record TrustAnchor := { ta_dn : list Z; ta_ca : bool; ta_rsa_n : list Z; ta_rsa_e : list Z }.

Definition TRUST_ANCHORS : list TrustAnchor :=
  [ {| ta_dn := ISRG_ROOT_X1_DN; ta_ca := true; ta_rsa_n := ISRG_ROOT_X1_RSA_N;
       ta_rsa_e := [0x01; 0x00; 0x01] |} ].

(** ** The third-party interfaces

    An engine buffer is given by the bytes it holds (or, for the two buffers
    the bridge fills, its free length); an acknowledgement tells the engine
    how many bytes were consumed, or which bytes were stored. *)
Class BearSSL (Eng X509 : Type) := {
  BR_SSL_CLOSED : Z; BR_SSL_SENDREC : Z; BR_SSL_RECVREC : Z;
  BR_SSL_SENDAPP : Z; BR_SSL_RECVAPP : Z; BR_ERR_OK : Z;
  BR_SSL_BUFSIZE_BIDI : Z;
  br_x509_minimal_init : X509 → list TrustAnchor → X509;
  br_x509_minimal_set_rsa : X509 → X509;
  br_x509_minimal_set_ecdsa : X509 → X509;
  br_ssl_client_init_full : Eng → X509 → list TrustAnchor → Eng * X509;
  br_ssl_engine_set_buffer : Eng → Z → Z → Eng;
  br_ssl_client_reset : Eng → string → Z → Eng;
  br_ssl_engine_current_state : Eng → Z;
  br_ssl_engine_last_error : Eng → Z;
  br_ssl_engine_recvrec_buf : Eng → Z;
  br_ssl_engine_recvrec_ack : Eng → list Z → Eng;
  br_ssl_engine_sendrec_buf : Eng → list Z;
  br_ssl_engine_sendrec_ack : Eng → Z → Eng;
  br_ssl_engine_recvapp_buf : Eng → list Z;
  br_ssl_engine_recvapp_ack : Eng → Z → Eng;
  br_ssl_engine_sendapp_buf : Eng → Z;
  br_ssl_engine_sendapp_ack : Eng → list Z → Eng;
  br_ssl_engine_flush : Eng → Z → Eng;
  br_ssl_engine_close : Eng → Eng;
}.

(** [os_read] gives the result, the bytes stored in the buffer and [errno];
    [os_write] the result and [errno]. *)
Class Sockets (OS : Type) := {
  EAGAIN : Z; EWOULDBLOCK : Z;
  os_read : OS → Z → Z → Z * list Z * Z * OS;
  os_write : OS → Z → list Z → Z * Z * OS;
  os_close : OS → Z → OS;
}.

Section tls.
Context {Eng X509 OS : Type} `{!BearSSL Eng X509} `{!Sockets OS}.

Record NetDTLSConnection := {
  fd : Z; tab_multiplex_id : Z; state : NetDTLSState; sc_eng : Eng; xc : X509 }.

(** The pool, the operating system and the calls made to the IPC ring. *)
Record NetD := {
  global_tls_connections : list NetDTLSConnection;
  os : OS;
  ring : list (Z * list Z) }.

Definition set_conn (n : NetD) (i : Z) (c : NetDTLSConnection) : NetD :=
  {| global_tls_connections := zset (global_tls_connections n) i c; os := os n; ring := ring n |}.

Definition with_state (c : NetDTLSConnection) (s : NetDTLSState) : NetDTLSConnection :=
  {| fd := fd c; tab_multiplex_id := tab_multiplex_id c; state := s;
     sc_eng := sc_eng c; xc := xc c |}.

Definition with_eng (c : NetDTLSConnection) (e : Eng) : NetDTLSConnection :=
  {| fd := fd c; tab_multiplex_id := tab_multiplex_id c; state := state c;
     sc_eng := e; xc := xc c |}.

Definition with_fd (c : NetDTLSConnection) (f : Z) : NetDTLSConnection :=
  {| fd := f; tab_multiplex_id := tab_multiplex_id c; state := state c;
     sc_eng := sc_eng c; xc := xc c |}.

(** ** Connection lifecycle *)
Definition netd_tls_acquire_slot (n : NetD) : Res (Z * NetD) :=
  r ← for_ctl 0 MAX_CONCURRENT_TLS_SOCKETS (λ i n,
        c ← rd (global_tls_connections n) i;
        if decide (state c = TLS_CONN_IDLE) then
          Ok (Return (i, set_conn n i (with_fd (with_state c TLS_CONN_HANDSHAKING) (-1))))
        else Ok (Next n)) n;
  match r with Fell n => Ok (-1, n) | Gave r => Ok r end.

Definition netd_tls_init_connection (n : NetD) (slot f : Z) (hostname : string)
    (multiplex_id : Z) : Res NetD :=
  c ← rd (global_tls_connections n) slot;
  let xc := br_x509_minimal_init (xc c) TRUST_ANCHORS in
  let xc := br_x509_minimal_set_rsa xc in
  let xc := br_x509_minimal_set_ecdsa xc in
  let '(eng, xc) := br_ssl_client_init_full (sc_eng c) xc TRUST_ANCHORS in
  let eng := br_ssl_engine_set_buffer eng BR_SSL_BUFSIZE_BIDI 1 in
  let eng := br_ssl_client_reset eng hostname 0 in
  Ok (set_conn n slot {| fd := f; tab_multiplex_id := multiplex_id;
                         state := TLS_CONN_HANDSHAKING; sc_eng := eng; xc := xc |}).

Definition netd_tls_release_slot (n : NetD) (slot : Z) : Res NetD :=
  if (slot <? 0) || (MAX_CONCURRENT_TLS_SOCKETS <=? slot) then Ok n else
  c ← rd (global_tls_connections n) slot;
  let '(c, o) := if 0 <=? fd c then (with_fd c (-1), os_close (os n) (fd c)) else (c, os n) in
  Ok {| global_tls_connections :=
          zset (global_tls_connections n) slot
            {| fd := fd c; tab_multiplex_id := 0; state := TLS_CONN_IDLE;
               sc_eng := sc_eng c; xc := xc c |};
        os := o; ring := ring n |}.

(** ** The state pump

    The pump works on one connection; [PumpState] is what it can change. *)
Record PumpState := { p_conn : NetDTLSConnection; p_os : OS; p_ring : list (Z * list Z) }.

Definition has_flag (st flag : Z) : bool := negb (Z.land st flag =? 0).

Definition would_block (errno : Z) : bool := (errno =? EAGAIN) || (errno =? EWOULDBLOCK).

(** Step 1: ciphertext from the network.  The result is the new state and
    whether progress was made, or the code to return. *)
Definition pump_recvrec (p : PumpState) : (PumpState * bool) + (PumpState * Z) :=
  let eng := sc_eng (p_conn p) in
  if has_flag (br_ssl_engine_current_state eng) BR_SSL_RECVREC then
    let len := br_ssl_engine_recvrec_buf eng in
    let '(rlen, data, errno, o) := os_read (p_os p) (fd (p_conn p)) len in
    if 0 <? rlen then
      inl ({| p_conn := with_eng (p_conn p) (br_ssl_engine_recvrec_ack eng data);
              p_os := o; p_ring := p_ring p |}, true)
    else if rlen =? 0 then
      inl ({| p_conn := with_eng (p_conn p) (br_ssl_engine_close eng);
              p_os := o; p_ring := p_ring p |}, true)
    else if negb (would_block errno) then
      inr ({| p_conn := with_state (p_conn p) TLS_CONN_ERROR; p_os := o;
              p_ring := p_ring p |}, -1)
    else inl ({| p_conn := p_conn p; p_os := o; p_ring := p_ring p |}, false)
  else inl (p, false).

(** Step 2: ciphertext to the network. *)
Definition pump_sendrec (p : PumpState) (progress : bool)
  : (PumpState * bool) + (PumpState * Z) :=
  let eng := sc_eng (p_conn p) in
  if has_flag (br_ssl_engine_current_state eng) BR_SSL_SENDREC then
    let buf := br_ssl_engine_sendrec_buf eng in
    let '(rlen, errno, o) := os_write (p_os p) (fd (p_conn p)) buf in
    if 0 <? rlen then
      inl ({| p_conn := with_eng (p_conn p) (br_ssl_engine_sendrec_ack eng rlen);
              p_os := o; p_ring := p_ring p |}, true)
    else if (rlen <? 0) && negb (would_block errno) then
      inr ({| p_conn := with_state (p_conn p) TLS_CONN_ERROR; p_os := o;
              p_ring := p_ring p |}, -1)
    else inl ({| p_conn := p_conn p; p_os := o; p_ring := p_ring p |}, progress)
  else inl (p, progress).

(** Step 3: cleartext to the IPC ring. *)
Definition pump_recvapp (p : PumpState) (progress : bool) : PumpState * bool :=
  let c := p_conn p in
  let eng := sc_eng c in
  if has_flag (br_ssl_engine_current_state eng) BR_SSL_RECVAPP then
    let buf := br_ssl_engine_recvapp_buf eng in
    let len := zlen buf in
    let c := with_eng c (br_ssl_engine_recvapp_ack eng len) in
    ({| p_conn := if decide (state c = TLS_CONN_HANDSHAKING)
                  then with_state c TLS_CONN_ESTABLISHED else c;
        p_os := p_os p;
        p_ring := p_ring p ++ [(tab_multiplex_id c, take (Z.to_nat (u32 len)) buf)] |}, true)
  else (p, progress).

(** One turn of [while (progress)]: fall through when progress was made. *)
Definition pump_turn (p : PumpState) : Res (ctl PumpState (PumpState * Z)) :=
  let eng := sc_eng (p_conn p) in
  if br_ssl_engine_current_state eng =? BR_SSL_CLOSED then
    if br_ssl_engine_last_error eng =? BR_ERR_OK then
      Ok (Return ({| p_conn := with_state (p_conn p) TLS_CONN_CLOSING; p_os := p_os p;
                     p_ring := p_ring p |}, 1))
    else
      Ok (Return ({| p_conn := with_state (p_conn p) TLS_CONN_ERROR; p_os := p_os p;
                     p_ring := p_ring p |}, -1))
  else
  match pump_recvrec p with
  | inr ret => Ok (Return ret)
  | inl (p, progress) =>
    match pump_sendrec p progress with
    | inr ret => Ok (Return ret)
    | inl (p, progress) =>
      let '(p, progress) := pump_recvapp p progress in
      if progress : bool then Ok (Next p) else Ok (Break p)
    end
  end.

Definition pump_loop (fuel : nat) (p : PumpState) : Res (PumpState * Z) :=
  r ← loop fuel pump_turn p;
  match r with Fell p => Ok (p, 0) | Gave ret => Ok ret end.

Definition netd_tls_pump (fuel : nat) (n : NetD) (slot : Z) : Res (Z * NetD) :=
  c ← rd (global_tls_connections n) slot;
  '(p, ret) ← pump_loop fuel {| p_conn := c; p_os := os n; p_ring := ring n |};
  Ok (ret, {| global_tls_connections := zset (global_tls_connections n) slot (p_conn p);
              os := p_os p; ring := p_ring p |}).

(** ** Sending *)
Definition netd_tls_send (fuel : nat) (n : NetD) (slot : Z) (data : list Z) : Res (Z * NetD) :=
  c ← rd (global_tls_connections n) slot;
  let eng := sc_eng c in
  if negb (has_flag (br_ssl_engine_current_state eng) BR_SSL_SENDAPP) then Ok (0, n) else
  let avail := br_ssl_engine_sendapp_buf eng in
  if avail =? 0 then Ok (0, n) else
  let to_send := if zlen data <? avail then zlen data else avail in
  let eng := br_ssl_engine_sendapp_ack eng (take (Z.to_nat to_send) data) in
  let eng := br_ssl_engine_flush eng 0 in
  '(_, n) ← netd_tls_pump fuel (set_conn n slot (with_eng c eng)) slot;
  Ok (sx 32 to_send, n).

(** ** Getters *)
Definition netd_tls_get_state (n : NetD) (slot : Z) : Res Z :=
  if (slot <? 0) || (MAX_CONCURRENT_TLS_SOCKETS <=? slot) then Ok (-1) else
  c ← rd (global_tls_connections n) slot; Ok (tls_state_code (state c)).

Definition netd_tls_get_fd (n : NetD) (slot : Z) : Res Z :=
  if (slot <? 0) || (MAX_CONCURRENT_TLS_SOCKETS <=? slot) then Ok (-1) else
  c ← rd (global_tls_connections n) slot; Ok (fd c).

Definition netd_tls_get_multiplex_id (n : NetD) (slot : Z) : Res Z :=
  if (slot <? 0) || (MAX_CONCURRENT_TLS_SOCKETS <=? slot) then Ok 0 else
  c ← rd (global_tls_connections n) slot; Ok (tab_multiplex_id c).

(** ** The pool as a state machine

    [netd_run] is one call of the public interface; its result is the value the
    C function returns (0 for a [void] one). *)
Inductive NetDOp :=
| OpAcquire
| OpInit (slot f : Z) (hostname : string) (multiplex_id : Z)
| OpRelease (slot : Z)
| OpPump (fuel : nat) (slot : Z)
| OpSend (fuel : nat) (slot : Z) (data : list Z).

Definition netd_run (op : NetDOp) (n : NetD) : Res (Z * NetD) :=
  match op with
  | OpAcquire => netd_tls_acquire_slot n
  | OpInit slot f h id => n ← netd_tls_init_connection n slot f h id; Ok (0, n)
  | OpRelease slot => n ← netd_tls_release_slot n slot; Ok (0, n)
  | OpPump fuel slot => netd_tls_pump fuel n slot
  | OpSend fuel slot data => netd_tls_send fuel n slot data
  end.

(** Any call except the release of slot [i]. *)
Definition step_keeping (i : Z) (n n' : NetD) : Prop :=
  ∃ op r, op ≠ OpRelease i ∧ netd_run op n = Ok (r, n').

Definition conns (n : NetD) : list NetDTLSConnection := global_tls_connections n.

Definition pool_ok (n : NetD) : Prop := zlen (conns n) = MAX_CONCURRENT_TLS_SOCKETS.

Definition idle (n : NetD) (i : Z) : Prop :=
  ∃ c, rd (conns n) i = Ok c ∧ state c = TLS_CONN_IDLE.

Definition leased (n : NetD) (i : Z) : Prop :=
  ∃ c, rd (conns n) i = Ok c ∧ state c ≠ TLS_CONN_IDLE.

End tls.
Arguments NetDTLSConnection : clear implicits.
Arguments NetD : clear implicits.
Arguments PumpState : clear implicits.
Arguments NetDOp : clear implicits.
