(* ===== verification/TlsSpec.v ===== *)
(** * Correctness of NetD's TLS bridge

    The pool hands out each slot at most once between releases; the pump only
    touches its own connection, reports exactly the state it leaves behind and,
    while the peer keeps the stream open, terminates with everything delivered;
    at the end of the file it may not; the send path. *)
From S2P Require Import Prelude Tls.

Section pool.
Context {Eng X509 OS : Type} `{!BearSSL Eng X509} `{!Sockets OS}.
Implicit Types (n : NetD Eng X509 OS) (c : NetDTLSConnection Eng X509).
Abbreviation conn := (NetDTLSConnection Eng X509).

(** Reading back an updated pool. *)
Lemma rd_zset_eq (l : list conn) i c : 0 ≤ i < zlen l → rd (zset l i c) i = Ok c.
Proof.
  intros Hi. unfold rd, zset. destruct (Z.ltb_spec i 0); [lia|].
  by rewrite list_lookup_insert_eq by lia.
Qed.

Lemma rd_zset_ne (l : list conn) i j c : 0 ≤ i → i ≠ j → rd (zset l i c) j = rd l j.
Proof.
  intros Hi Hne. unfold rd, zset. destruct (Z.ltb_spec j 0); [done|].
  by rewrite list_lookup_insert_ne by lia.
Qed.

Lemma rd_inv (l : list conn) i c : rd l i = Ok c → 0 ≤ i < zlen l.
Proof.
  unfold rd. destruct (Z.ltb_spec i 0); [done|].
  destruct (l !! Z.to_nat i) eqn:E; [|done]. apply lookup_lt_Some in E. lia.
Qed.

Lemma rd_some (l : list conn) i : 0 ≤ i < zlen l → ∃ c, rd l i = Ok c.
Proof.
  intros Hi. unfold rd. destruct (Z.ltb_spec i 0); [lia|].
  destruct (lookup_lt_is_Some_2 l (Z.to_nat i)) as [c ->]; [lia|]. by exists c.
Qed.

Lemma acquire_wp n : pool_ok n →
  wp (netd_tls_acquire_slot n) (λ '(i, n'),
    (i = -1 ∧ n' = n ∧ ∀ j, ¬ idle n j) ∨
    (0 ≤ i < MAX_CONCURRENT_TLS_SOCKETS ∧ idle n i ∧ (∀ j, j < i → ¬ idle n j) ∧
     ∃ c, rd (conns n) i = Ok c ∧
          n' = set_conn n i (with_fd (with_state c TLS_CONN_HANDSHAKING) (-1)))).
Proof.
  intros Hok. unfold netd_tls_acquire_slot. apply wp_bind.
  apply (for_ctl_wp (λ i m, m = n ∧ ∀ j, j < i → ¬ idle n j)).
  - split; [done|]. intros j Hj (c & Hc & _). apply rd_inv in Hc. lia.
  - intros i m Hi [-> Hlow].
    destruct (rd_some (conns n) i) as [c Hc]; [unfold pool_ok in Hok; lia|].
    apply wp_bind. fold (conns n). rewrite Hc. cbn [wp]. case_decide as Hs; cbn [wp].
    + right. split; [done|]. split; [by exists c|]. split; [done|]. by exists c.
    + split; [done|]. intros j Hj (c' & Hc' & Hs').
      destruct (decide (j = i)) as [->|]; [congruence|].
      apply (Hlow j); [lia|by exists c'].
  - intros m [-> Hlow]. cbn [wp]. left. split_and!; [done..|].
    intros j Hj. apply (Hlow j); [|done]. destruct Hj as (c & Hc & _).
    apply rd_inv in Hc. unfold pool_ok in Hok. lia.
Qed.

(** C31. [netd_tls_acquire_slot] on the 64-entry pool always returns: either -1,
    exactly when no slot is idle and then nothing changes, or the lowest idle
    slot, which becomes HANDSHAKING with no descriptor while every other
    connection, the operating system and the ring are untouched. *)
Theorem acquire_lowest_idle n : pool_ok n →
  ∃ i n', netd_tls_acquire_slot n = Ok (i, n') ∧
    (i = -1 ↔ ∀ j, ¬ idle n j) ∧ (i = -1 → n' = n) ∧
    (i ≠ -1 → idle n i ∧ (∀ j, j < i → ¬ idle n j) ∧
       (∃ c, rd (conns n') i = Ok c ∧ state c = TLS_CONN_HANDSHAKING ∧ fd c = -1) ∧
       (∀ j, j ≠ i → rd (conns n') j = rd (conns n) j) ∧
       os n' = os n ∧ ring n' = ring n).
Proof.
  intros Hok. destruct (wp_elim _ _ (acquire_wp n Hok)) as ([i n'] & E & HP).
  exists i, n'. split; [done|]. destruct HP as [(-> & -> & Hn)|(Hi & Hid & Hlow & c & Hc & ->)].
  - done.
  - split; [|split; [lia|]].
    + split; [lia|]. intros Hn. by destruct (Hn i).
    + intros _. split_and!; [done..| | |done|done].
      * eexists. cbn. split; [apply rd_zset_eq; by apply rd_inv in Hc|]. done.
      * intros j Hj. cbn. apply rd_zset_ne; lia.
Qed.

(** ** The pump *)

(** What a run of the pump has delivered so far: the descriptor and the
    multiplex id stay, the ring grows by chunks tagged with that id, and the
    state advances to [adv] of it. *)
Definition pump_adv (c0 : conn) (chunks : list (list Z)) : NetDTLSState :=
  if decide (state c0 = TLS_CONN_HANDSHAKING ∧ chunks ≠ []) then TLS_CONN_ESTABLISHED
  else state c0.

Definition pump_frame (c0 : conn) (ring0 : list (Z * list Z)) (chunks : list (list Z))
    (p : PumpState Eng X509 OS) : Prop :=
  fd (p_conn p) = fd c0 ∧ tab_multiplex_id (p_conn p) = tab_multiplex_id c0 ∧
  p_ring p = ring0 ++ (pair (tab_multiplex_id c0) <$> chunks).

Definition pump_inv (c0 : conn) ring0 (p : PumpState Eng X509 OS) : Prop :=
  ∃ chunks, pump_frame c0 ring0 chunks p ∧ state (p_conn p) = pump_adv c0 chunks.

(** The three returns of the pump. *)
Definition pump_post (c0 : conn) ring0 (p : PumpState Eng X509 OS) (ret : Z) : Prop :=
  ∃ chunks, pump_frame c0 ring0 chunks p ∧
    (ret = 0 ∧ state (p_conn p) = pump_adv c0 chunks ∨
     ret = 1 ∧ state (p_conn p) = TLS_CONN_CLOSING ∨
     ret = -1 ∧ state (p_conn p) = TLS_CONN_ERROR).

Lemma recvrec_inv c0 ring0 p : pump_inv c0 ring0 p →
  match pump_recvrec p with
  | inl (p', _) => pump_inv c0 ring0 p'
  | inr (p', r) => pump_post c0 ring0 p' r
  end.
Proof.
  intros (chunks & Hf & Hs). unfold pump_recvrec.
  destruct (has_flag _ _); [|by exists chunks].
  destruct (os_read _ _ _) as [[[rlen data] errno] o].
  repeat case_match; simplify_eq; exists chunks; (split; [done|]); auto.
Qed.

Lemma sendrec_inv c0 ring0 p b : pump_inv c0 ring0 p →
  match pump_sendrec p b with
  | inl (p', _) => pump_inv c0 ring0 p'
  | inr (p', r) => pump_post c0 ring0 p' r
  end.
Proof.
  intros (chunks & Hf & Hs). unfold pump_sendrec.
  destruct (has_flag _ _); [|by exists chunks].
  destruct (os_write _ _ _) as [[rlen errno] o].
  repeat case_match; simplify_eq; exists chunks; (split; [done|]); auto.
Qed.

Lemma recvapp_inv c0 ring0 p b : pump_inv c0 ring0 p →
  pump_inv c0 ring0 (fst (pump_recvapp p b)).
Proof.
  intros (chunks & Hf & Hs). unfold pump_recvapp.
  destruct (has_flag _ _); [|by exists chunks]. cbn -[decide].
  set (buf := br_ssl_engine_recvapp_buf _). destruct Hf as (Hfd & Hid & Hr).
  exists (chunks ++ [take (Z.to_nat (u32 (zlen buf))) buf]). split.
  - split_and!; cbn [p_conn p_ring]; [by case_decide..|].
    rewrite Hr, Hid, fmap_app, app_assoc. done.
  - cbn [p_conn]. unfold pump_adv in *.
    assert (chunks ++ [take (Z.to_nat (u32 (zlen buf))) buf] ≠ []) by (by destruct chunks).
    repeat case_decide; cbn in *; try done; try tauto; rewrite ?Hs in *; try done; tauto.
Qed.

Lemma turn_inv c0 ring0 p : pump_inv c0 ring0 p →
  wlp (pump_turn p) (λ k, match k with
    | Next p' | Break p' => pump_inv c0 ring0 p'
    | Return (p', r) => pump_post c0 ring0 p' r
    end).
Proof.
  intros Hp. unfold pump_turn. case_match.
  { destruct Hp as (chunks & Hf & Hs). case_match; simpl; exists chunks; auto. }
  pose proof (recvrec_inv c0 ring0 p Hp) as H1.
  destruct (pump_recvrec p) as [[p1 b1]|[p1 r1]]; [|done].
  pose proof (sendrec_inv c0 ring0 p1 b1 H1) as H2.
  destruct (pump_sendrec p1 b1) as [[p2 b2]|[p2 r2]]; [|done].
  pose proof (recvapp_inv c0 ring0 p2 b2 H2) as H3.
  destruct (pump_recvapp p2 b2) as [p3 []]; done.
Qed.

Lemma pump_inv_init c o ring0 :
  pump_inv c ring0 {| p_conn := c; p_os := o; p_ring := ring0 |}.
Proof.
  exists []. split; [split_and!; cbn; [done..|by rewrite app_nil_r]|].
  cbn. unfold pump_adv. by rewrite decide_False by (intros [_ ?]; done).
Qed.

Lemma pump_loop_inv fuel c o ring0 :
  wlp (pump_loop fuel {| p_conn := c; p_os := o; p_ring := ring0 |})
      (λ '(p, ret), pump_post c ring0 p ret).
Proof.
  unfold pump_loop. apply wlp_bind.
  eapply (wlp_mono _ (λ x, match x with
    | Fell p => pump_inv c ring0 p | Gave (p, r) => pump_post c ring0 p r end)).
  - apply (loop_wlp (pump_inv c ring0)); [apply pump_inv_init|].
    intros p Hp. eapply wlp_mono; [by apply turn_inv|]. by intros [?|?|[? ?]].
  - intros [p|[p r]]; [|done]. intros (chunks & Hf & Hs). exists chunks. auto.
Qed.

(** C13. Whenever [netd_tls_pump] returns, it has touched only its own
    connection: every other slot is unchanged, the descriptor and multiplex id
    stay, and the ring has grown by chunks tagged with that id alone.  The
    returned code tells the state: 1 is CLOSING, -1 is ERROR, and 0 leaves the
    state alone except that a HANDSHAKING connection becomes ESTABLISHED exactly
    when cleartext was delivered. *)
Theorem pump_touches_own_connection fuel n slot ret n' :
  netd_tls_pump fuel n slot = Ok (ret, n') →
  ∃ c c' chunks,
    rd (conns n) slot = Ok c ∧ rd (conns n') slot = Ok c' ∧
    (∀ j, j ≠ slot → rd (conns n') j = rd (conns n) j) ∧
    zlen (conns n') = zlen (conns n) ∧
    fd c' = fd c ∧ tab_multiplex_id c' = tab_multiplex_id c ∧
    ring n' = ring n ++ (pair (tab_multiplex_id c) <$> chunks) ∧
    (ret = 0 ∧ state c' = (if decide (state c = TLS_CONN_HANDSHAKING ∧ chunks ≠ [])
                           then TLS_CONN_ESTABLISHED else state c) ∨
     ret = 1 ∧ state c' = TLS_CONN_CLOSING ∨
     ret = -1 ∧ state c' = TLS_CONN_ERROR).
Proof.
  unfold netd_tls_pump. intros H. apply bind_Ok in H as (c & Hc & H).
  apply bind_Ok in H as ([p r] & Hp & H). cbn in H. injection H as <- <-.
  pose proof (pump_loop_inv fuel c (os n) (ring n)) as Hi. rewrite Hp in Hi. cbn in Hi.
  destruct Hi as (chunks & (Hfd & Hid & Hr) & Hs).
  pose proof (rd_inv _ _ _ Hc). exists c, (p_conn p), chunks. cbn.
  split_and!; try done; [by apply rd_zset_eq| |by autorewrite with arr].
  intros j Hj. apply rd_zset_ne; lia.
Qed.

(** ** Leases *)
Lemma leased_zset n n' i j c : 0 ≤ j < zlen (conns n) → conns n' = zset (conns n) j c →
  (i = j → state c ≠ TLS_CONN_IDLE) → leased n i → leased n' i.
Proof.
  intros Hj Hc Hs (ci & Hi & Hsi). unfold leased. rewrite Hc.
  destruct (decide (i = j)) as [->|].
  - exists c. split; [by apply rd_zset_eq|auto].
  - exists ci. rewrite rd_zset_ne by lia. done.
Qed.

Lemma pump_lease fuel n slot ret n' i :
  netd_tls_pump fuel n slot = Ok (ret, n') → leased n i →
  leased n' i ∧ zlen (conns n') = zlen (conns n).
Proof.
  unfold netd_tls_pump. intros H Hl. apply bind_Ok in H as (c & Hc & H).
  apply bind_Ok in H as ([p r] & Hp & H). cbn in H. injection H as <- <-.
  pose proof (rd_inv _ _ _ Hc) as Hslot. split; [|cbn; by autorewrite with arr].
  eapply (leased_zset n _ i slot); [done|done| |done]. intros ->.
  pose proof (pump_loop_inv fuel c (os n) (ring n)) as Hi. rewrite Hp in Hi.
  destruct Hi as (chunks & _ & Hs). destruct Hl as (c0 & Hc0 & Hl). simplify_eq.
  unfold conns in *. rewrite Hc in Hc0. injection Hc0 as <-.
  unfold pump_adv in Hs. destruct Hs as [(_ & ->)|[(_ & ->)|(_ & ->)]]; [|done..].
  by case_decide.
Qed.

Lemma step_keeps_lease i n n' :
  step_keeping i n n' → pool_ok n → leased n i → leased n' i ∧ pool_ok n'.
Proof.
  intros (op & r & Hop & H) Hok Hl. destruct op as [|slot f h id|slot|fuel slot|fuel slot data];
    cbn in H.
  - pose proof (acquire_wp n Hok) as Ha. rewrite H in Ha. cbn in Ha.
    destruct Ha as [(_ & -> & _)|(Hi & _ & _ & c & Hc & ->)]; [done|].
    split; [|unfold pool_ok, conns in *; cbn; by autorewrite with arr].
    eapply leased_zset; [by eapply rd_inv|done|done|done].
  - apply bind_Ok in H as (n1 & H & E). injection E as _ <-.
    unfold netd_tls_init_connection in H. apply bind_Ok in H as (c & Hc & H).
    destruct (br_ssl_client_init_full _ _ _) as [eng x]. injection H as <-.
    split; [|unfold pool_ok, conns in *; cbn; by autorewrite with arr].
    eapply leased_zset; [by eapply rd_inv|done|done|done].
  - apply bind_Ok in H as (n1 & H & E). injection E as _ <-.
    unfold netd_tls_release_slot in H. case_match; [by injection H as <-|].
    apply bind_Ok in H as (c & Hc & H).
    destruct (if 0 <=? fd c then _ else _) as [c' o']. injection H as <-.
    split; [|unfold pool_ok, conns in *; cbn; by autorewrite with arr].
    eapply leased_zset; [by eapply rd_inv|done|congruence|done].
  - destruct (pump_lease _ _ _ _ _ i H Hl) as [? E].
    split; [done|]. unfold pool_ok. congruence.
  - unfold netd_tls_send in H. apply bind_Ok in H as (c & Hc & H).
    case_match; [by injection H as _ <-|]. case_match; [by injection H as _ <-|].
    apply bind_Ok in H as ([r' n1] & H & E). injection E as _ <-.
    assert (leased (set_conn n slot
      (with_eng c (br_ssl_engine_flush (br_ssl_engine_sendapp_ack (sc_eng c)
        (take (Z.to_nat (if zlen data <? br_ssl_engine_sendapp_buf (sc_eng c) then zlen data
                         else br_ssl_engine_sendapp_buf (sc_eng c))) data)) 0))) i) as Hl1.
    { eapply leased_zset; [by eapply rd_inv|done| |done]. intros ->.
      destruct Hl as (c0 & Hc0 & Hl). unfold conns in *. cbn. congruence. }
    destruct (pump_lease _ _ _ _ _ i H Hl1) as [? E].
    split; [done|]. unfold pool_ok in *. rewrite E. cbn. by autorewrite with arr.
Qed.

(** C12. A slot [netd_tls_acquire_slot] has handed out is leased: whatever
    sequence of acquires, initialisations, pumps, sends and releases of other
    slots follows, no later acquire returns it again. *)
Theorem lease_is_exclusive n0 n1 n2 n3 i j :
  pool_ok n0 → netd_tls_acquire_slot n0 = Ok (i, n1) → i ≠ -1 →
  rtc (step_keeping i) n1 n2 → netd_tls_acquire_slot n2 = Ok (j, n3) → j ≠ i.
Proof.
  intros Hok Ha Hi Hsteps Hb. pose proof (acquire_wp n0 Hok) as Hw. rewrite Ha in Hw.
  destruct Hw as [(? & _)|(Hr & _ & _ & c & Hc & ->)]; [done|].
  assert (leased n2 i ∧ pool_ok n2) as [Hl Hok2].
  { assert (pool_ok (set_conn n0 i (with_fd (with_state c TLS_CONN_HANDSHAKING) (-1)))) as Hp1.
    { unfold pool_ok, conns in *. cbn. by autorewrite with arr. }
    assert (leased (set_conn n0 i (with_fd (with_state c TLS_CONN_HANDSHAKING) (-1))) i) as Hl1.
    { eexists. cbn. split; [apply rd_zset_eq; by eapply rd_inv|done]. }
    clear -Hsteps Hp1 Hl1. induction Hsteps as [|x y z Hstep _ IH]; [done|].
    destruct (step_keeps_lease i x y Hstep Hp1 Hl1). auto. }
  pose proof (acquire_wp n2 Hok2) as Hw. rewrite Hb in Hw. destruct Hl as (c2 & Hc2 & Hs2).
  destruct Hw as [(-> & _)|(_ & (c3 & Hc3 & Hs3) & _)]; [lia|].
  intros ->. congruence.
Qed.
End pool.

(** ** Termination of the pump

    What the pump relies on: [read] and [write] move the bytes they report, of
    which finitely many are to come, and while the peer keeps its end open
    ([stream_open]) a [read] into a buffer with room never gives 0; the engine
    has room when it asks for records, answers [k] bytes of input with at most
    [io_factor * k] bytes of further output and cleartext, counted as pending
    from then on, and its acknowledgements consume what they acknowledge.
    Nothing is assumed of [br_ssl_engine_close]: what happens at the end of the
    file is the next section. *)
Class PumpLaws (Eng X509 OS : Type) `{!BearSSL Eng X509} `{!Sockets OS} := {
  io_factor : nat;
  pending_in : OS → nat;
  pending : Eng → nat;
  stream_open : OS → Prop;
  os_read_in o f len r d e o' :
    os_read o f len = (r, d, e, o') →
    (pending_in o' ≤ pending_in o)%nat ∧
    (0 < r → d ≠ [] ∧ (pending_in o' + length d ≤ pending_in o)%nat);
  os_read_open o f len r d e o' :
    stream_open o → 0 < len → os_read o f len = (r, d, e, o') → r ≠ 0 ∧ stream_open o';
  os_write_in o f b r e o' :
    os_write o f b = (r, e, o') → (pending_in o' ≤ pending_in o)%nat ∧ r ≤ zlen b;
  os_write_open o f b r e o' : stream_open o → os_write o f b = (r, e, o') → stream_open o';
  recvrec_buf_room e :
    has_flag (br_ssl_engine_current_state e) BR_SSL_RECVREC = true → 0 < br_ssl_engine_recvrec_buf e;
  recvrec_ack_pending e d :
    (pending (br_ssl_engine_recvrec_ack e d) ≤ pending e + io_factor * length d)%nat;
  sendrec_ack_pending e k :
    has_flag (br_ssl_engine_current_state e) BR_SSL_SENDREC = true →
    0 < k ≤ zlen (br_ssl_engine_sendrec_buf e) →
    (pending (br_ssl_engine_sendrec_ack e k) < pending e)%nat;
  recvapp_ack_pending e :
    has_flag (br_ssl_engine_current_state e) BR_SSL_RECVAPP = true →
    (pending (br_ssl_engine_recvapp_ack e (zlen (br_ssl_engine_recvapp_buf e))) < pending e)%nat;
}.

Section termination.
Context {Eng X509 OS : Type} `{!BearSSL Eng X509} `{!Sockets OS} `{!PumpLaws Eng X509 OS}.
Implicit Types (p : PumpState Eng X509 OS) (n : NetD Eng X509 OS).

(** An upper bound on the number of productive operations still possible. *)
Definition pump_potential (o : OS) (e : Eng) : nat := (io_factor + 1) * pending_in o + pending e.

Abbreviation pot p := (pump_potential (p_os p) (sc_eng (p_conn p))).

Lemma recvrec_pot p : stream_open (p_os p) →
  match pump_recvrec p with
  | inl (p', b) => stream_open (p_os p') ∧ (pot p' + Nat.b2n b ≤ pot p)%nat
  | inr _ => True
  end.
Proof.
  intros Ho. unfold pump_recvrec. destruct (has_flag _ _) eqn:Hf; [|cbn; auto with lia].
  destruct (os_read _ _ _) as [[[rlen data] errno] o] eqn:Hr.
  destruct (os_read_open _ _ _ _ _ _ _ Ho (recvrec_buf_room _ Hf) Hr) as [Hne Ho'].
  apply os_read_in in Hr as [Hle Hlt]. unfold pump_potential.
  destruct (Z.ltb_spec 0 rlen) as [Hpos|_].
  - destruct (Hlt Hpos) as [Hd Hin]. cbn [p_os p_conn sc_eng with_eng]. split; [done|].
    pose proof (recvrec_ack_pending (sc_eng (p_conn p)) data).
    assert (1 ≤ length data)%nat by (destruct data; [done|cbn; lia]). cbn [Nat.b2n]. nia.
  - destruct (Z.eqb_spec rlen 0); [done|]. destruct (negb _); [done|].
    cbn [p_os p_conn Nat.b2n]. split; [done|nia].
Qed.

Lemma sendrec_pot p b : stream_open (p_os p) →
  match pump_sendrec p b with
  | inl (p', b') => stream_open (p_os p') ∧ (pot p' + Nat.b2n b' ≤ pot p + Nat.b2n b)%nat
  | inr _ => True
  end.
Proof.
  intros Ho. unfold pump_sendrec. destruct (has_flag _ _) eqn:Hf; [|cbn; auto with lia].
  destruct (os_write _ _ _) as [[rlen errno] o] eqn:Hw. pose proof (os_write_open _ _ _ _ _ _ Ho Hw).
  apply os_write_in in Hw as [Hle Hlen]. unfold pump_potential.
  destruct (Z.ltb_spec 0 rlen) as [Hpos|_].
  - pose proof (sendrec_ack_pending _ rlen Hf (conj Hpos Hlen)).
    cbn [p_os p_conn sc_eng with_eng Nat.b2n]. split; [done|]. destruct b; cbn; nia.
  - destruct (_ && _); [done|]. cbn [p_os p_conn]. split; [done|nia].
Qed.

Lemma recvapp_pot p b :
  p_os (fst (pump_recvapp p b)) = p_os p ∧
  (pot (fst (pump_recvapp p b)) + Nat.b2n (snd (pump_recvapp p b)) ≤ pot p + Nat.b2n b)%nat.
Proof.
  unfold pump_recvapp. destruct (has_flag _ _) eqn:Hf; [|cbn; auto with lia].
  pose proof (recvapp_ack_pending _ Hf). unfold pump_potential.
  cbn -[decide Nat.mul Nat.add]. split; [done|].
  case_decide; cbn [sc_eng with_state with_eng]; destruct b; cbn [Nat.b2n]; nia.
Qed.

Lemma turn_pot p : stream_open (p_os p) →
  wp (pump_turn p) (λ k, match k with
    | Next p' => stream_open (p_os p') ∧ (pot p' < pot p)%nat
    | _ => True
    end).
Proof.
  intros Ho. unfold pump_turn. case_match; [by case_match|].
  pose proof (recvrec_pot p Ho) as H1.
  destruct (pump_recvrec p) as [[p1 b1]|[p1 r1]]; [|done]. destruct H1 as [Ho1 H1].
  pose proof (sendrec_pot p1 b1 Ho1) as H2.
  destruct (pump_sendrec p1 b1) as [[p2 b2]|[p2 r2]]; [|done]. destruct H2 as [Ho2 H2].
  destruct (recvapp_pot p2 b2) as [Ho3 H3].
  destruct (pump_recvapp p2 b2) as [p3 []]; cbn in *; [|done]. split; [by rewrite Ho3|lia].
Qed.

(** Nothing more can be done: no cleartext waits in the engine, and the network
    has refused to deliver what the engine asks for and to take what it offers
    (from [o], in the order read, write; [o'] is what remains). *)
Definition drained (c : NetDTLSConnection Eng X509) (o o' : OS) : Prop :=
  let e := sc_eng c in
  let st := br_ssl_engine_current_state e in
  has_flag st BR_SSL_RECVAPP = false ∧
  ∃ o1,
    (if has_flag st BR_SSL_RECVREC
     then ∃ r d errno, os_read o (fd c) (br_ssl_engine_recvrec_buf e) = (r, d, errno, o1) ∧ r < 0 ∧ would_block errno = true
     else o1 = o) ∧
    (if has_flag st BR_SSL_SENDREC
     then ∃ r errno, os_write o1 (fd c) (br_ssl_engine_sendrec_buf e) = (r, errno, o') ∧ (r = 0 ∨ r < 0 ∧ would_block errno = true)
     else o' = o1).

(** The steps of a turn without progress. *)
Lemma recvrec_quiet p p' : pump_recvrec p = inl (p', false) →
  p_conn p' = p_conn p ∧
  if has_flag (br_ssl_engine_current_state (sc_eng (p_conn p))) BR_SSL_RECVREC
  then ∃ r d errno, os_read (p_os p) (fd (p_conn p)) (br_ssl_engine_recvrec_buf (sc_eng (p_conn p))) = (r, d, errno, p_os p') ∧
    r < 0 ∧ would_block errno = true
  else p_os p' = p_os p.
Proof.
  unfold pump_recvrec. destruct (has_flag _ _); [|by intros [= ->]].
  destruct (os_read _ _ _) as [[[r d] errno] o] eqn:Er. destruct (Z.ltb_spec 0 r); [done|].
  destruct (Z.eqb_spec r 0); [done|]. destruct (would_block errno) eqn:Ew; [|done]. intros [= <-].
  split; [done|]. exists r, d, errno. split; [done|]. split; [lia|done].
Qed.

Lemma sendrec_quiet p b p' : pump_sendrec p b = inl (p', false) →
  b = false ∧ p_conn p' = p_conn p ∧
  if has_flag (br_ssl_engine_current_state (sc_eng (p_conn p))) BR_SSL_SENDREC
  then ∃ r errno, os_write (p_os p) (fd (p_conn p)) (br_ssl_engine_sendrec_buf (sc_eng (p_conn p))) = (r, errno, p_os p') ∧
    (r = 0 ∨ r < 0 ∧ would_block errno = true)
  else p_os p' = p_os p.
Proof.
  unfold pump_sendrec. destruct (has_flag _ _); [|by intros [= -> ->]].
  destruct (os_write _ _ _) as [[r errno] o] eqn:Ew. destruct (Z.ltb_spec 0 r); [done|].
  destruct ((r <? 0) && negb (would_block errno)) eqn:Eb; [done|]. intros [= <- ->].
  split; [done|]. split; [done|]. exists r, errno. split; [done|]. apply andb_false_iff in Eb as [Eb|Eb]; [left; lia|].
  destruct (decide (r = 0)); [by left|right]. split; [lia|by apply negb_false_iff in Eb].
Qed.

Lemma recvapp_quiet p b p' : pump_recvapp p b = (p', false) →
  b = false ∧ p' = p ∧ has_flag (br_ssl_engine_current_state (sc_eng (p_conn p))) BR_SSL_RECVAPP = false.
Proof. unfold pump_recvapp. destruct (has_flag _ _); [done|]. by intros [= -> ->]. Qed.

Lemma turn_drained p :
  wp (pump_turn p) (λ k, match k with
    | Break p' => ∃ o, drained (p_conn p') o (p_os p')
    | Return (_, r) => r = 1 ∨ r = -1
    | Next _ => True
    end).
Proof.
  unfold pump_turn. case_match; [case_match; cbn; auto|].
  assert (∀ p0 r, pump_recvrec p = inr (p0, r) → r = -1) as Hr1
    by (unfold pump_recvrec; intros ? ?; repeat (case_match; try done); congruence).
  assert (∀ p0 b p1 r, pump_sendrec p0 b = inr (p1, r) → r = -1) as Hr2
    by (unfold pump_sendrec; intros ? ? ? ?; repeat (case_match; try done); congruence).
  destruct (pump_recvrec p) as [[p1 b1]|[p1 r1]] eqn:E1; [|right; by eapply Hr1].
  destruct (pump_sendrec p1 b1) as [[p2 b2]|[p2 r2]] eqn:E2; [|right; by eapply Hr2].
  destruct (pump_recvapp p2 b2) as [p3 []] eqn:E3; [done|]. cbn [wp].
  apply recvapp_quiet in E3 as (-> & -> & H3). apply sendrec_quiet in E2 as (-> & Ec2 & H2).
  apply recvrec_quiet in E1 as (Ec1 & H1). exists (p_os p). unfold drained. split; [done|].
  rewrite Ec2, Ec1. rewrite Ec1 in H2. by exists (p_os p1).
Qed.

End termination.

(** ** End of file and sending *)
Section eof.
Context {Eng X509 OS : Type} `{!BearSSL Eng X509} `{!Sockets OS}.
Implicit Types (p : PumpState Eng X509 OS) (n : NetD Eng X509 OS).

(** [awaits e]: the engine wants records and nothing else, and closing it
    leaves it so: it has sent its close_notify and waits for the peer's. *)
Context (awaits : Eng → Prop).
Hypothesis awaits_state : ∀ e, awaits e →
  br_ssl_engine_current_state e ≠ BR_SSL_CLOSED ∧
  has_flag (br_ssl_engine_current_state e) BR_SSL_RECVREC = true ∧
  has_flag (br_ssl_engine_current_state e) BR_SSL_SENDREC = false ∧
  has_flag (br_ssl_engine_current_state e) BR_SSL_RECVAPP = false.
Hypothesis awaits_close : ∀ e, awaits e → awaits (br_ssl_engine_close e).

(** C30. When the peer has closed the TCP stream without a close_notify (every
    [read] gives 0) and the engine goes on waiting for one, the pump never
    returns: the end of file counts as progress, so whatever the number of turns
    allowed the [while (progress)] loop is still running. *)
Theorem pump_spins_at_eof n slot c :
  rd (conns n) slot = Ok c → awaits (sc_eng c) →
  (∀ len, ∃ e, os_read (os n) (fd c) len = (0, [], e, os n)) →
  ∀ fuel, netd_tls_pump fuel n slot = NoFuel.
Proof using awaits_state awaits_close.
  intros Hc He Heof fuel. unfold netd_tls_pump, pump_loop. fold (conns n). rewrite Hc.
  cbn [mbind Res_bind].
  enough (∀ p, fd (p_conn p) = fd c → p_os p = os n → awaits (sc_eng (p_conn p)) →
            loop fuel pump_turn p = NoFuel) as H by (by rewrite H).
  induction fuel as [|fuel IH]; intros p Hfd Hos Hp; [done|]. cbn [loop].
  assert (pump_turn p = Ok (Next {| p_conn := with_eng (p_conn p)
            (br_ssl_engine_close (sc_eng (p_conn p))); p_os := os n; p_ring := p_ring p |})) as ->.
  - destruct (awaits_state _ Hp) as (Hcl & Hrr & _).
    destruct (awaits_state _ (awaits_close _ Hp)) as (_ & _ & Hsr & Hra).
    unfold pump_turn, pump_recvrec. rewrite Hrr. apply Z.eqb_neq in Hcl. rewrite Hcl.
    rewrite Hfd, Hos. destruct (Heof (br_ssl_engine_recvrec_buf (sc_eng (p_conn p)))) as [e ->].
    cbn. unfold pump_sendrec. cbn. rewrite Hsr. unfold pump_recvapp. cbn. by rewrite Hra.
  - cbn [mbind Res_bind]. apply IH; cbn; auto.
Qed.
End eof.

Section send.
Context {Eng X509 OS : Type} `{!BearSSL Eng X509} `{!Sockets OS}.
Implicit Types (n : NetD Eng X509 OS).

(** C32. [netd_tls_send] hands the engine the longest prefix of the data that
    fits its buffer, flushes it, pumps, and returns the length of that prefix
    (0, with nothing done, when the engine takes no application data) whatever
    the pump reported: the result is never negative, so that a connection the
    pump has put in ERROR is not visible to the sender. *)
Theorem send_result fuel n slot data c r n' :
  rd (conns n) slot = Ok c →
  0 ≤ br_ssl_engine_sendapp_buf (sc_eng c) ≤ INT_MAX →
  netd_tls_send fuel n slot data = Ok (r, n') →
  0 ≤ r ∧
  if has_flag (br_ssl_engine_current_state (sc_eng c)) BR_SSL_SENDAPP &&
     (0 <? br_ssl_engine_sendapp_buf (sc_eng c))
  then r = Z.min (zlen data) (br_ssl_engine_sendapp_buf (sc_eng c)) ∧
       ∃ ret, netd_tls_pump fuel
         (set_conn n slot (with_eng c (br_ssl_engine_flush
            (br_ssl_engine_sendapp_ack (sc_eng c) (take (Z.to_nat r) data)) 0))) slot
         = Ok (ret, n')
  else r = 0 ∧ n' = n.
Proof.
  intros Hc Hav. unfold netd_tls_send. fold (conns n). rewrite Hc. cbn [mbind Res_bind].
  destruct (has_flag _ BR_SSL_SENDAPP); cbn [negb andb]; [|intros [= <- <-]; by split].
  destruct (Z.eqb_spec (br_ssl_engine_sendapp_buf (sc_eng c)) 0) as [E|E].
  { intros [= <- <-]. split; [done|]. by rewrite E. }
  destruct (Z.ltb_spec 0 (br_ssl_engine_sendapp_buf (sc_eng c))); [|lia].
  set (k := if zlen data <? _ then _ else _).
  assert (k = Z.min (zlen data) (br_ssl_engine_sendapp_buf (sc_eng c))) as Hk.
  { unfold k. destruct (Z.ltb_spec (zlen data) (br_ssl_engine_sendapp_buf (sc_eng c))); lia. }
  assert (sx 32 k = k) as Hsx.
  { unfold sx. c_unfold. rewrite Z.mod_small; lia. }
  destruct (netd_tls_pump _ _ _) as [[ret n1]| |] eqn:Hp; cbn; [|done..].
  rewrite Hsx. intros [= <- <-]. split; [lia|]. split; [done|]. by exists ret.
Qed.
End send.

(** ** A concrete engine

    A plaintext engine over a byte stream, with BearSSL's flag values, on which
    the theorems are applied.  [awaiting] makes it wait for a close_notify. *)
Module Toy.
Record Eng := { closed : bool; out : list Z; app : list Z }.
Record Net := { inb : list Z; eof : bool; bad_write : bool }.

Definition eng_state (awaiting : bool) (e : Eng) : Z :=
  if closed e && (negb awaiting && match out e, app e with [], [] => true | _, _ => false end)
  then 1 else
  (match out e with [] => 0 | _ => 2 end) +
  (if closed e && negb awaiting then 0 else 4) +
  (if closed e then 0 else 8) +
  (match app e with [] => 0 | _ => 16 end).

Definition bear_of (awaiting : bool) : BearSSL Eng unit := {|
  BR_SSL_CLOSED := 1; BR_SSL_SENDREC := 2; BR_SSL_RECVREC := 4;
  BR_SSL_SENDAPP := 8; BR_SSL_RECVAPP := 16; BR_ERR_OK := 0;
  BR_SSL_BUFSIZE_BIDI := 33178;
  br_x509_minimal_init x _ := x;
  br_x509_minimal_set_rsa x := x;
  br_x509_minimal_set_ecdsa x := x;
  br_ssl_client_init_full e x _ := (e, x);
  br_ssl_engine_set_buffer e _ _ := e;
  br_ssl_client_reset _ _ _ := {| closed := false; out := []; app := [] |};
  br_ssl_engine_current_state := eng_state awaiting;
  br_ssl_engine_last_error _ := 0;
  br_ssl_engine_recvrec_buf _ := 16384;
  br_ssl_engine_recvrec_ack e d :=
    {| closed := closed e; out := out e; app := app e ++ d |};
  br_ssl_engine_sendrec_buf := out;
  br_ssl_engine_sendrec_ack e k :=
    {| closed := closed e; out := drop (Z.to_nat k) (out e); app := app e |};
  br_ssl_engine_recvapp_buf := app;
  br_ssl_engine_recvapp_ack e k :=
    {| closed := closed e; out := out e; app := drop (Z.to_nat k) (app e) |};
  br_ssl_engine_sendapp_buf _ := 4;
  br_ssl_engine_sendapp_ack e d :=
    {| closed := closed e; out := out e ++ d; app := app e |};
  br_ssl_engine_flush e _ := e;
  br_ssl_engine_close e :=
    {| closed := true; out := out e; app := app e |} |}.

#[global] Instance bear : BearSSL Eng unit := bear_of false.

#[global] Instance net : Sockets Net := {|
  EAGAIN := 11; EWOULDBLOCK := 11;
  os_read o _ len := match inb o with
    | [] => if eof o then (0, [], 0, o) else (-1, [], 11, o)
    | b => let d := take (Z.to_nat (Z.max 1 len)) b in
           (zlen d, d, 0, {| inb := drop (Z.to_nat (Z.max 1 len)) b; eof := eof o;
                             bad_write := bad_write o |})
    end;
  os_write o _ b := if bad_write o then (-1, 32, o) else (zlen b, 0, o);
  os_close o _ := o |}.

Definition eng (c : bool) (o ap : list Z) : Eng :=
  {| closed := c; out := o; app := ap |}.

Definition conn (s : NetDTLSState) (e : Eng) : NetDTLSConnection Eng unit :=
  {| fd := 7; tab_multiplex_id := 42; state := s; sc_eng := e; xc := tt |}.

Definition pool (c0 c1 : NetDTLSConnection Eng unit) (o : Net) : NetD Eng unit Net :=
  {| global_tls_connections := c0 :: c1 :: replicate 62 (conn TLS_CONN_IDLE (eng false [] []));
     os := o; ring := [] |}.

Definition quiet : Net := {| inb := []; eof := false; bad_write := false |}.
End Toy.

Lemma acquire_lowest_idle_witness :
  ∃ i n', netd_tls_acquire_slot
    (Toy.pool (Toy.conn TLS_CONN_ERROR (Toy.eng false [] []))
              (Toy.conn TLS_CONN_IDLE (Toy.eng false [] [])) Toy.quiet) = Ok (i, n') ∧ i = 1.
Proof.
  destruct (acquire_lowest_idle
    (Toy.pool (Toy.conn TLS_CONN_ERROR (Toy.eng false [] []))
              (Toy.conn TLS_CONN_IDLE (Toy.eng false [] [])) Toy.quiet))
    as (i & n' & E & _); [reflexivity|].
  exists i, n'. split; [exact E|]. vm_compute in E. by injection E as <-.
Defined.

(** Three bytes arrive on a handshaking connection. *)
Lemma pump_touches_own_connection_witness :
  let n := Toy.pool (Toy.conn TLS_CONN_HANDSHAKING (Toy.eng false [] []))
             (Toy.conn TLS_CONN_IDLE (Toy.eng false [] []))
             {| Toy.inb := [1; 2; 3]; Toy.eof := false; Toy.bad_write := false |} in
  ∃ n', netd_tls_pump 5 n 0 = Ok (0, n') ∧ ring n' = [(42, [1; 2; 3])] ∧
  ∃ c c' chunks,
    rd (conns n) 0 = Ok c ∧ rd (conns n') 0 = Ok c' ∧
    (∀ j, j ≠ 0 → rd (conns n') j = rd (conns n) j) ∧
    zlen (conns n') = zlen (conns n) ∧
    fd c' = fd c ∧ tab_multiplex_id c' = tab_multiplex_id c ∧
    ring n' = ring n ++ (pair (tab_multiplex_id c) <$> chunks) ∧
    (0 = 0 ∧ state c' = (if decide (state c = TLS_CONN_HANDSHAKING ∧ chunks ≠ [])
                         then TLS_CONN_ESTABLISHED else state c) ∨
     0 = 1 ∧ state c' = TLS_CONN_CLOSING ∨
     0 = -1 ∧ state c' = TLS_CONN_ERROR).
Proof.
  intros n. eexists. split; [reflexivity|]. split; [reflexivity|].
  apply (pump_touches_own_connection 5 n 0). reflexivity.
Defined.

(** After slot 0 is acquired, pumping slot 1 and acquiring again gives slot 2. *)
Lemma lease_is_exclusive_witness :
  let n0 := Toy.pool (Toy.conn TLS_CONN_IDLE (Toy.eng false [] []))
              (Toy.conn TLS_CONN_ESTABLISHED (Toy.eng false [] [])) Toy.quiet in
  ∃ n1 n3, netd_tls_acquire_slot n0 = Ok (0, n1) ∧ netd_tls_acquire_slot n1 = Ok (2, n3) ∧ 2 ≠ 0.
Proof.
  intros n0.
  exists (set_conn n0 0 (with_fd (with_state (Toy.conn TLS_CONN_IDLE (Toy.eng false [] []))
                                    TLS_CONN_HANDSHAKING) (-1))).
  eexists. split; [reflexivity|]. split; [reflexivity|].
  eapply (lease_is_exclusive n0 _ _ _ 0 2); [reflexivity|reflexivity|done| |].
  - eapply (rtc_l _ _ _ _); [exists (OpPump 1 1), 0; split; [done|reflexivity]|apply rtc_refl].
  - reflexivity.
Defined.

Lemma toy_flag_send e : has_flag (Toy.eng_state false e) 2 = true → Toy.out e ≠ [].
Proof. destruct e as [[] [|x o] [|y a]]; cbn; done. Qed.

Lemma toy_flag_app e : has_flag (Toy.eng_state false e) 16 = true → Toy.app e ≠ [].
Proof. destruct e as [[] [|x o] [|y a]]; cbn; done. Qed.

#[global] Instance toy_laws : PumpLaws Toy.Eng unit Toy.Net.
Proof.
  refine {| io_factor := 1; pending_in o := length (Toy.inb o);
            pending e := (length (Toy.out e) + length (Toy.app e))%nat;
            stream_open o := Toy.eof o = false |}.
  - intros [[|x b] [] w] f len r d e o'; cbn; intros [= <- <- <- <-]; cbn -[take drop];
      rewrite ?length_take, ?length_drop; cbn -[take]; split; try lia; intros _.
    all: destruct (Z.to_nat (Z.max 1 len)) eqn:E; [lia|]; split; [done|lia].
  - intros [[|x b] ef w] f len r d e o' Ho Hlen; cbn in Ho; subst ef; cbn -[take drop];
      intros [= <- <- <- <-]; (split; [|done]); [done|].
    destruct (Z.to_nat (Z.max 1 len)) eqn:E; [lia|]. cbn. lia.
  - intros o f b r e o'. cbn. case_match; intros [= <- _ <-]; lia.
  - intros o f b r e o' Ho. cbn. case_match; intros [= _ _ <-]; done.
  - intros e _. cbn. lia.
  - intros e d. cbn. rewrite length_app. lia.
  - intros e k Hf Hk. apply toy_flag_send in Hf. cbn in *. rewrite length_drop.
    destruct (Toy.out e); [done|]. cbn. lia.
  - intros e Hf. apply toy_flag_app in Hf. cbn. rewrite length_drop.
    destruct (Toy.app e); [done|]. cbn. lia.
Defined.


Lemma pump_spins_at_eof_witness :
  let c := Toy.conn TLS_CONN_ESTABLISHED (Toy.eng true [] []) in
  let n := Toy.pool c c {| Toy.inb := []; Toy.eof := true; Toy.bad_write := false |} in
  netd_tls_pump (BearSSL0 := Toy.bear_of true) 1000 n 0 = NoFuel.
Proof.
  intros c n.
  apply (pump_spins_at_eof (BearSSL0 := Toy.bear_of true) (λ e, e = Toy.eng true [] []))
    with (c := c); try reflexivity.
  - intros e ->. split_and!; done.
  - intros e ->. done.
  - intros len. by exists 0.
Defined.

(** The peer has reset the connection: the pump reports -1, [netd_tls_send] 4. *)
Lemma send_result_witness :
  let c := Toy.conn TLS_CONN_ESTABLISHED (Toy.eng false [] []) in
  let n := Toy.pool c c {| Toy.inb := []; Toy.eof := false; Toy.bad_write := true |} in
  ∃ n' c', netd_tls_send 3 n 0 [1; 2; 3; 4; 5] = Ok (4, n') ∧
    rd (conns n') 0 = Ok c' ∧ state c' = TLS_CONN_ERROR ∧ 0 ≤ 4.
Proof.
  intros c n. do 2 eexists. split; [reflexivity|]. split; [reflexivity|]. split; [reflexivity|].
  eapply (send_result 3 n 0 [1; 2; 3; 4; 5] c 4); [reflexivity|done|reflexivity].
Defined.
