(* ===== verification/Probe.v ===== *)
(** * Open addressing with control bytes

    The part shared by the three hash tables of the benchmarks
    ([benchmarks/hashmap_bench.c], [benchmarks/string_hashmap_bench.c],
    [benchmarks/longest_consecutive.c]): the control bytes, the 64-bit mixing
    hash, the probe sequence, and the invariant that makes probing find a key
    exactly when some slot holds it. *)
From S2P Require Import Prelude.

Definition CTRL_EMPTY : Z := -128.
Definition CTRL_DELETED : Z := -2.
Definition INITIAL_CAP : Z := 8.
Definition LOAD_FACTOR_NUM : Z := 7.
Definition LOAD_FACTOR_DEN : Z := 8.

(** [(int8_t)(hash & 0x7F)] and [(hash >> 7) % cap]. *)
Definition hash_tag (hash : Z) : Z := sx 8 (Z.land hash 0x7F).
Definition hash_home (hash cap : Z) : Z := Z.shiftr hash 7 mod cap.

Definition hash_i64 (val : Z) : Z :=
  let h := Z.lxor (u64 val) 0xa0761d6478bd642f in
  let h := u64 (Z.lxor h (Z.shiftr h 32) * 0xe7037ed1a0b428db) in
  Z.lxor h (Z.shiftr h 32).

(** [while (cap < min_cap) cap *= 2]: 64 doublings leave [int64_t]. *)
Definition round_cap (min_cap : Z) : Res Z :=
  r ← loop 64 (λ cap, if cap <? min_cap then cap ← i64 (cap * 2); Ok (Next cap)
                      else Ok (Break cap)) INITIAL_CAP;
  Ok (fell r).

Definition load_limit (cap : Z) : Res Z :=
  t ← i64 (cap * LOAD_FACTOR_NUM); Ok (Z.quot t LOAD_FACTOR_DEN).

(** [while (new_ctrl[new_idx] != CTRL_EMPTY)]: [new_cap] steps visit every slot,
    so that a longer walk is an endless one. *)
Definition find_empty (ctrl : list Z) (cap idx : Z) : Res Z :=
  r ← loop (S (Z.to_nat cap)) (λ idx,
        c ← rd ctrl idx;
        if c =? CTRL_EMPTY then Ok (Break idx) else Ok (Next ((idx + 1) mod cap))) idx;
  Ok (fell r).

(** The slot reached after [d] probes. *)
Definition slot (hash cap d : Z) : Z := (hash_home hash cap + d) mod cap.

Lemma hash_tag_range x : 0 ≤ hash_tag x < 128.
Proof.
  unfold hash_tag. change 0x7F with (Z.ones 7). rewrite Z.land_ones by lia.
  pose proof (Z.mod_pos_bound x (2 ^ 7) ltac:(lia)) as H. unfold sx.
  change (2 ^ 7) with 128 in *. change (2 ^ (8 - 1)) with 128. change (2 ^ 8) with 256.
  rewrite Z.mod_small; lia.
Qed.

Lemma slot_range x cap d : 0 < cap → 0 ≤ slot x cap d < cap.
Proof. intros. by apply Z.mod_pos_bound. Qed.

Lemma slot_0 x cap : 0 < cap → slot x cap 0 = hash_home x cap.
Proof. intros. unfold slot, hash_home. by rewrite Z.add_0_r, Z.mod_mod by lia. Qed.

Lemma slot_next x cap d : 0 < cap → (slot x cap d + 1) mod cap = slot x cap (d + 1).
Proof.
  intros. unfold slot. rewrite Z.add_mod_idemp_l by lia. f_equal. lia.
Qed.

(** Every slot is reached within [cap] probes. *)
Lemma slot_surj x cap i : 0 ≤ i < cap → ∃ d, 0 ≤ d < cap ∧ slot x cap d = i.
Proof.
  intros Hi. exists ((i - hash_home x cap) mod cap).
  split; [apply Z.mod_pos_bound; lia|]. unfold slot.
  rewrite Z.add_mod_idemp_r by lia.
  replace (hash_home x cap + (i - hash_home x cap)) with i by lia.
  by apply Z.mod_small.
Qed.

(** A slot that holds a key, and one that is not empty. *)
Definition is_full (c : Z) : bool := 0 <=? c.
Definition is_used (c : Z) : bool := negb (c =? CTRL_EMPTY).

Lemma is_full_tag x : is_full (hash_tag x) = true.
Proof. apply Z.leb_le, hash_tag_range. Qed.
Lemma is_used_tag x : is_used (hash_tag x) = true.
Proof.
  apply negb_true_iff, Z.eqb_neq. pose proof (hash_tag_range x). unfold CTRL_EMPTY. lia.
Qed.
Lemma is_full_true c : 0 ≤ c → is_full c = true.
Proof. apply Z.leb_le. Qed.
Lemma is_full_false c : c < 0 → is_full c = false.
Proof. apply Z.leb_gt. Qed.
Lemma is_used_true c : 0 ≤ c → is_used c = true.
Proof. intros. apply negb_true_iff, Z.eqb_neq. unfold CTRL_EMPTY. lia. Qed.

(** ** The probing invariant

    [keyat i] is the (abstract) key stored in slot [i], [h] the hash. *)
Section table.
Context {A : Type} (h : A → Z).
Implicit Types (ctrl : list Z) (keyat : Z → A).

(** The first [d] probes of [x] meet no empty slot. *)
Definition no_gap ctrl (cap x d : Z) : Prop :=
  ∀ d', 0 ≤ d' < d → ctrl.[slot x cap d'] ≠ CTRL_EMPTY.

Record table_ok ctrl keyat (cap : Z) : Prop := {
  t_cap : 0 < cap;
  t_len : zlen ctrl = cap;
  t_ctrl i : 0 ≤ i < cap →
    ctrl.[i] = CTRL_EMPTY ∨ ctrl.[i] = CTRL_DELETED ∨ 0 ≤ ctrl.[i];
  t_tag i : 0 ≤ i < cap → 0 ≤ ctrl.[i] → ctrl.[i] = hash_tag (h (keyat i));
  t_reach i : 0 ≤ i < cap → 0 ≤ ctrl.[i] →
    ∃ d, 0 ≤ d < cap ∧ i = slot (h (keyat i)) cap d ∧ no_gap ctrl cap (h (keyat i)) d;
  t_uniq i j : 0 ≤ i < cap → 0 ≤ j < cap → 0 ≤ ctrl.[i] → 0 ≤ ctrl.[j] →
    keyat i = keyat j → i = j;
}.

(** Slot [i] holds the key [a]. *)
Definition holds ctrl keyat (cap : Z) (a : A) (i : Z) : Prop :=
  0 ≤ i < cap ∧ 0 ≤ ctrl.[i] ∧ keyat i = a.

(** A probe that meets an empty slot before the key proves it absent. *)
Lemma absent_at_gap ctrl keyat cap a d :
  table_ok ctrl keyat cap → 0 ≤ d →
  ctrl.[slot (h a) cap d] = CTRL_EMPTY →
  (∀ d', 0 ≤ d' < d → ¬ holds ctrl keyat cap a (slot (h a) cap d')) →
  ∀ i, ¬ holds ctrl keyat cap a i.
Proof.
  intros Hok Hd He Hno i (Hi & Hf & Hk).
  destruct (t_reach _ _ _ Hok i Hi Hf) as (d' & Hd' & Ei & Hgap). rewrite Hk in *.
  destruct (decide (d' < d)).
  - apply (Hno d'); [lia|]. rewrite <- Ei. exact (conj Hi (conj Hf Hk)).
  - destruct (decide (d' = d)) as [->|].
    + rewrite Ei, He in Hf. unfold CTRL_EMPTY in Hf. lia.
    + apply (Hgap d); [lia|done].
Qed.

Lemma absent_no_gap ctrl keyat cap a :
  table_ok ctrl keyat cap →
  (∀ d', 0 ≤ d' < cap → ¬ holds ctrl keyat cap a (slot (h a) cap d')) →
  ∀ i, ¬ holds ctrl keyat cap a i.
Proof.
  intros Hok Hno i Hh. destruct (slot_surj (h a) cap i) as (d & Hd & <-).
  - apply Hh.
  - by apply (Hno d).
Qed.

Lemma empty_table_ok cap keyat :
  0 < cap → table_ok (replicate (Z.to_nat cap) CTRL_EMPTY) keyat cap.
Proof.
  intros Hc.
  assert (∀ i, 0 ≤ i < cap → (replicate (Z.to_nat cap) CTRL_EMPTY).[i] = CTRL_EMPTY) as E.
  { intros i Hi. apply znth_replicate. lia. }
  split; try (intros; rewrite E in * by lia; unfold CTRL_EMPTY in *; lia); [done|].
  rewrite length_replicate. lia.
Qed.

(** Storing an absent key at the first free slot of its probe sequence, or at an
    earlier deleted one. *)
Lemma table_store ctrl keyat keyat' cap a d :
  table_ok ctrl keyat cap → 0 ≤ d < cap →
  no_gap ctrl cap (h a) d → ctrl.[slot (h a) cap d] < 0 →
  (∀ i, ¬ holds ctrl keyat cap a i) →
  (∀ i, 0 ≤ i < cap →
     keyat' i = if decide (i = slot (h a) cap d) then a else keyat i) →
  table_ok (zset ctrl (slot (h a) cap d) (hash_tag (h a))) keyat' cap.
Proof.
  intros Hok Hd Hgap Hfree Habs Hk. pose proof (t_cap _ _ _ Hok) as Hcap.
  pose proof (slot_range (h a) cap d Hcap) as Hs.
  pose proof (t_len _ _ _ Hok) as Hlen. pose proof (hash_tag_range (h a)) as Ht.
  set (j := slot (h a) cap d) in *.
  assert (∀ i, 0 ≤ i < cap → (zset ctrl j (hash_tag (h a))).[i] =
            if decide (j = i) then hash_tag (h a) else ctrl.[i]) as Hget.
  { intros i Hi. apply znth_zset; lia. }
  assert (∀ x d', 0 ≤ d' → no_gap ctrl cap x d' →
            no_gap (zset ctrl j (hash_tag (h a))) cap x d') as Hmono.
  { intros x d' _ Hg e He. rewrite Hget by by apply slot_range.
    case_decide; [unfold CTRL_EMPTY; lia|by apply Hg]. }
  split.
  - done.
  - by rewrite length_zset.
  - intros i Hi. rewrite Hget by done. case_decide; [lia|by apply (t_ctrl _ _ _ Hok)].
  - intros i Hi. rewrite Hget, Hk by done. intros Hf.
    destruct (decide (i = j)) as [->|]; [by rewrite decide_True|].
    rewrite decide_False in * by done. by apply (t_tag _ _ _ Hok).
  - intros i Hi. rewrite Hget, Hk by done. intros Hf.
    destruct (decide (i = j)) as [->|].
    + exists d. split_and!; [lia..|done|]. apply Hmono; [lia|done].
    + rewrite decide_False in Hf by done.
      destruct (t_reach _ _ _ Hok i Hi Hf) as (e & He & Ei & Hg).
      exists e. split_and!; [lia..|done|]. apply Hmono; [lia|done].
  - intros i i' Hi Hi'. rewrite !Hget, !Hk by done. intros Hf Hf' E.
    rewrite (decide_ext (j = i) (i = j)) in Hf by done.
    rewrite (decide_ext (j = i') (i' = j)) in Hf' by done.
    destruct (decide (i = j)) as [Ej|], (decide (i' = j)) as [Ej'|].
    + congruence.
    + destruct (Habs i'). split_and!; [lia..|done].
    + destruct (Habs i). split_and!; [lia..|done].
    + by apply (t_uniq _ _ _ Hok).
Qed.

(** Marking a slot deleted. *)
Lemma table_delete ctrl keyat cap j :
  table_ok ctrl keyat cap → 0 ≤ j < cap →
  table_ok (zset ctrl j CTRL_DELETED) keyat cap.
Proof.
  intros Hok Hj. pose proof (t_len _ _ _ Hok) as Hlen.
  assert (∀ i, 0 ≤ i < cap → (zset ctrl j CTRL_DELETED).[i] =
            if decide (j = i) then CTRL_DELETED else ctrl.[i]) as Hget.
  { intros i Hi. apply znth_zset; lia. }
  assert (∀ i, 0 ≤ i < cap → 0 ≤ (zset ctrl j CTRL_DELETED).[i] → 0 ≤ ctrl.[i]) as Hfull.
  { intros i Hi. rewrite Hget by done. case_decide; [unfold CTRL_DELETED; lia|done]. }
  split.
  - apply Hok.
  - by rewrite length_zset.
  - intros i Hi. rewrite Hget by done. case_decide; [auto|by apply (t_ctrl _ _ _ Hok)].
  - intros i Hi Hf. pose proof (Hfull i Hi Hf) as Hf'. rewrite Hget in * by done.
    case_decide; [unfold CTRL_DELETED in Hf; lia|by apply (t_tag _ _ _ Hok)].
  - intros i Hi Hf%Hfull; [|done].
    destruct (t_reach _ _ _ Hok i Hi Hf) as (e & He & Ei & Hg). exists e.
    split_and!; [lia..|done|]. intros e' He'.
    rewrite Hget by (apply slot_range, Hok). case_decide; [done|by apply Hg].
  - intros i i' Hi Hi' Hf%Hfull Hf'%Hfull; [|done..]. by apply (t_uniq _ _ _ Hok).
Qed.

(** With fewer used slots than slots, every probe sequence meets a gap. *)
Lemma gap_exists ctrl keyat cap x :
  table_ok ctrl keyat cap → countb is_used ctrl < cap →
  ∃ d, 0 ≤ d < cap ∧ ctrl.[slot x cap d] = CTRL_EMPTY ∧ no_gap ctrl cap x d.
Proof.
  intros Hok Hc. rewrite <- (t_len _ _ _ Hok) in Hc.
  destruct (countb_full _ _ Hc) as (i & Hi & Hf). rewrite (t_len _ _ _ Hok) in Hi.
  apply negb_false_iff, Z.eqb_eq in Hf.
  destruct (slot_surj x cap i Hi) as (d & Hd & <-).
  assert (∀ n : nat, ∀ d, Z.to_nat d = n → 0 ≤ d < cap → ctrl.[slot x cap d] = CTRL_EMPTY →
    ∃ d, 0 ≤ d < cap ∧ ctrl.[slot x cap d] = CTRL_EMPTY ∧ no_gap ctrl cap x d) as Hmin.
  { clear d Hf Hd Hi. intros n. induction (lt_wf n) as [n _ IH]. intros d Hn Hd Hf.
    destruct (decide (Exists (λ e, ctrl.[slot x cap (Z.of_nat e)] = CTRL_EMPTY) (seq 0 n)))
      as [HE|HE].
    - apply Exists_exists in HE as (e & He%elem_of_seq & HE).
      apply (IH e) with (Z.of_nat e); [lia|lia|lia|done].
    - exists d. split_and!; [lia..|done|]. intros d' Hd' E. apply HE.
      apply Exists_exists. exists (Z.to_nat d'). rewrite Z2Nat.id by lia.
      split; [|done]. apply elem_of_seq. lia. }
  by apply (Hmin (Z.to_nat d) d).
Qed.
End table.

(** ** Capacities *)
Lemma round_cap_wp min_cap : 0 < min_cap ≤ 2 ^ 58 →
  wp (round_cap min_cap) (λ c, (8 | c) ∧ min_cap ≤ c ∧ 8 ≤ c ≤ Z.max 8 (2 * min_cap)).
Proof.
  intros Hmin. unfold round_cap. wp_step.
  apply (loop_wp (λ c, ∃ j, 0 ≤ j ∧ c = 8 * 2 ^ j ∧ (c = 8 ∨ c < 2 * min_cap))
                 (λ c, Z.to_nat (63 - Z.log2 c))).
  - exists 0. split_and!; [done..|by left].
  - cbn. lia.
  - intros c (j & Hj & -> & Hc).
    assert (1 ≤ 2 ^ j) by (pose proof (Z.pow_pos_nonneg 2 j); lia).
    destruct (Z.ltb_spec (8 * 2 ^ j) min_cap) as [Hlt|Hge]; cbn [wp].
    + wp_step. rewrite i64_ok by (c_unfold; lia). cbn [wp].
      replace (8 * 2 ^ j * 2) with (8 * 2 ^ (j + 1)) by (rewrite Z.pow_add_r by lia; lia).
      split; [exists (j + 1); split_and!; [lia|done|]|].
      { right. rewrite Z.pow_add_r by lia. lia. }
      assert (2 ^ (3 + j) < 2 ^ 58) as Hp by (rewrite Z.pow_add_r by lia; lia).
      apply Z.pow_lt_mono_r_iff in Hp; [|lia..].
      change 8 with (2 ^ 3). rewrite <- !Z.pow_add_r, !Z.log2_pow2 by lia. lia.
    + cbn [fell]. split_and!; [exists (2 ^ j); lia|lia..].
Qed.

Lemma load_limit_ok c : 0 ≤ c → c * 7 ≤ LONG_MAX → load_limit c = Ok (c * 7 / 8).
Proof.
  intros H0 Hc. unfold load_limit, LOAD_FACTOR_NUM, LOAD_FACTOR_DEN.
  rewrite i64_ok by (c_unfold; lia). cbn. by rewrite Z.quot_div_nonneg by lia.
Qed.

Lemma full_used_replicate n :
  countb is_full (replicate n CTRL_EMPTY) = 0 ∧ countb is_used (replicate n CTRL_EMPTY) = 0.
Proof. by rewrite !countb_replicate. Qed.

(** ** The walk to a free slot *)
Lemma find_empty_wp c cap x :
  zlen c = cap → 0 < cap → (∃ d, 0 ≤ d < cap ∧ c.[slot x cap d] = CTRL_EMPTY) →
  wp (find_empty c cap (hash_home x cap)) (λ j, ∃ d, 0 ≤ d < cap ∧ j = slot x cap d ∧
    no_gap c cap x d ∧ c.[j] = CTRL_EMPTY).
Proof.
  intros Hl Hc (D & HD & HE). unfold find_empty. apply wp_bind.
  rewrite <- slot_0 by done.
  enough (∀ n d, no_gap c cap x d → 0 ≤ d ≤ D → (Z.to_nat (D - d) < n)%nat →
    wp (loop n (λ idx, c ← rd c idx; if c =? CTRL_EMPTY then Ok (Break idx)
                                     else Ok (Next ((idx + 1) mod cap))) (slot x cap d))
      (λ a, wp (Ok (fell a)) (λ j, ∃ d, 0 ≤ d < cap ∧ j = slot x cap d ∧
        no_gap c cap x d ∧ c.[j] = CTRL_EMPTY))) as Hn.
  { apply Hn; [intros d' ?; lia|lia|lia]. }
  intros n.
  induction n as [|n IH]; intros d Hg Hd Hf; [lia|]. cbn [loop].
  pose proof (slot_range x cap d Hc). wp_step. wp_step. rewrite rd_ok by lia. cbn [wp].
  destruct (Z.eqb_spec (c.[slot x cap d]) CTRL_EMPTY) as [He|He]; cbn [wp].
  - exists d. split_and!; [lia..|done|done|done].
  - rewrite slot_next by done. assert (d ≠ D) by congruence. apply IH; [|lia..].
    intros d' Hd'. destruct (decide (d' = d)) as [->|]; [done|]. apply Hg. lia.
Qed.
