(* ===== verification/HashMap.v ===== *)
(** * The Swiss-style hash maps

    Models [benchmarks/hashmap_bench.c] and [benchmarks/string_hashmap_bench.c].
    The two files differ in the key type alone, which is the interface
    [HashKey]; [junk] is what [malloc] returns. *)
From S2P Require Import Prelude Probe.

(** What the map asks of its keys: hashing, comparing a stored key with an
    argument, and copying an argument into an entry. *)
Class HashKey (K : Type) := {
  key_hash : K → Res Z;
  key_eq : K → K → Res bool;
  key_copy : K → Res K;
}.

Record Entry (K : Type) := { key : K; val : Z }.
Arguments key {K}.
Arguments val {K}.

Record HashMap (K : Type) := {
  ctrl : list Z; entries : list (Entry K); len : Z; cap : Z; growth_left : Z }.
Arguments ctrl {K}.
Arguments entries {K}.
Arguments len {K}.
Arguments cap {K}.
Arguments growth_left {K}.

Section hashmap.
Context {K : Type} `{!HashKey K} (junk : nat → Entry K).
Implicit Types (map : HashMap K).

Definition hashmap_new (min_cap : Z) : Res (HashMap K) :=
  if min_cap <=? 0 then
    Ok {| ctrl := []; entries := []; len := 0; cap := 0; growth_left := 0 |}
  else
  cap ← round_cap min_cap;
  limit ← load_limit cap;
  Ok {| ctrl := replicate (Z.to_nat cap) CTRL_EMPTY; entries := malloc_arr junk cap;
        len := 0; cap := cap; growth_left := limit |}.

(** Does slot [idx], whose control byte is [c], hold the key? *)
Definition slot_matches map (c tag idx : Z) (k : K) : Res bool :=
  if c =? tag then e ← rd (entries map) idx; key_eq (key e) k else Ok false.

Definition hashmap_get map (k : K) : Res Z :=
  if cap map =? 0 then Ok 0 else
  hash ← key_hash k;
  r ← for_ctl 0 (cap map) (λ _ idx,
        c ← rd (ctrl map) idx;
        hit ← slot_matches map c (hash_tag hash) idx k;
        if hit : bool then e ← rd (entries map) idx; Ok (Return (val e)) else
        if c =? CTRL_EMPTY then Ok (Return 0) else
        Ok (Next ((idx + 1) mod cap map))) (hash_home hash (cap map));
  match r with Fell _ => Ok 0 | Gave v => Ok v end.

Definition grow_step map (new_cap i : Z) (s : list Z * list (Entry K))
  : Res (list Z * list (Entry K)) :=
  let '(new_ctrl, new_entries) := s in
  c ← rd (ctrl map) i;
  if 0 <=? c then
    e ← rd (entries map) i;
    hash ← key_hash (key e);
    new_idx ← find_empty new_ctrl new_cap (hash_home hash new_cap);
    new_ctrl ← wr new_ctrl new_idx (hash_tag hash);
    new_entries ← wr new_entries new_idx e;
    Ok (new_ctrl, new_entries)
  else Ok s.

Definition hashmap_grow map : Res (HashMap K) :=
  new_cap ← (if cap map =? 0 then Ok INITIAL_CAP else i64 (cap map * 2));
  '(new_ctrl, new_entries) ←
    for_range 0 (cap map) (grow_step map new_cap)
      (replicate (Z.to_nat new_cap) CTRL_EMPTY, malloc_arr junk new_cap);
  limit ← load_limit new_cap;
  Ok {| ctrl := new_ctrl; entries := new_entries; len := len map; cap := new_cap;
        growth_left := limit - len map |}.

(** Writing a new entry at [i]. *)
Definition store_entry map (i tag : Z) (k : K) (v gl : Z) : Res (HashMap K) :=
  ctrl ← wr (ctrl map) i tag;
  k ← key_copy k;
  entries ← wr (entries map) i {| key := k; val := v |};
  len ← i64 (len map + 1);
  Ok {| ctrl := ctrl; entries := entries; len := len; cap := cap map; growth_left := gl |}.

Definition insert_step map (hash : Z) (k : K) (v : Z) (s : Z * Z)
  : Res (ctl (Z * Z) (HashMap K)) :=
  let '(idx, first_deleted) := s in
  c ← rd (ctrl map) idx;
  hit ← slot_matches map c (hash_tag hash) idx k;
  if hit : bool then
    e ← rd (entries map) idx;
    entries ← wr (entries map) idx {| key := key e; val := v |};
    Ok (Return {| ctrl := ctrl map; entries := entries; len := len map; cap := cap map;
                  growth_left := growth_left map |})
  else
  let first_deleted :=
    if (c =? CTRL_DELETED) && (first_deleted =? -1) then idx else first_deleted in
  if c =? CTRL_EMPTY then
    let insert_idx := if 0 <=? first_deleted then first_deleted else idx in
    map ← store_entry map insert_idx (hash_tag hash) k v
            (if first_deleted <? 0 then growth_left map - 1 else growth_left map);
    Ok (Return map)
  else Ok (Next ((idx + 1) mod cap map, first_deleted)).

Definition hashmap_insert map (k : K) (v : Z) : Res (HashMap K) :=
  map ← (if growth_left map =? 0 then hashmap_grow map else Ok map);
  hash ← key_hash k;
  r ← for_ctl 0 (cap map) (λ _, insert_step map hash k v) (hash_home hash (cap map), -1);
  match r with
  | Gave map => Ok map
  | Fell (_, first_deleted) =>
      if 0 <=? first_deleted
      then store_entry map first_deleted (hash_tag hash) k v (growth_left map)
      else Ok map
  end.

Definition hashmap_remove map (k : K) : Res (Z * HashMap K) :=
  if cap map =? 0 then Ok (0, map) else
  hash ← key_hash k;
  r ← for_ctl 0 (cap map) (λ _ idx,
        c ← rd (ctrl map) idx;
        hit ← slot_matches map c (hash_tag hash) idx k;
        if hit : bool then
          ctrl ← wr (ctrl map) idx CTRL_DELETED;
          Ok (Return (1, {| ctrl := ctrl; entries := entries map; len := len map - 1;
                            cap := cap map; growth_left := growth_left map |}))
        else
        if c =? CTRL_EMPTY then Ok (Return (0, map)) else
        Ok (Next ((idx + 1) mod cap map))) (hash_home hash (cap map));
  match r with Fell _ => Ok (0, map) | Gave r => Ok r end.
End hashmap.

(** ** Integer keys: [hashmap_bench.c] *)
#[export] Instance int_key : HashKey Z := {|
  key_hash k := Ok (hash_i64 k);
  key_eq k k' := Ok (k =? k');
  key_copy k := Ok k;
|}.

(** ** String keys: [string_hashmap_bench.c]

    A [char] array or the memory a [char*] points to is the list of its bytes;
    reading past it is undefined. *)
Definition MAX_KEY_LEN : Z := 32.

Fixpoint hash_string_from (h : Z) (s : list Z) : Res Z :=
  match s with
  | [] => Undef
  | c :: s => if c =? 0 then Ok h
              else hash_string_from (u64 (Z.lxor h (u8 c) * 0x100000001b3)) s
  end.

Definition hash_string (s : list Z) : Res Z := hash_string_from 0xcbf29ce484222325 s.

(** [strcmp(s, t) == 0]. *)
Fixpoint strcmp_eq (s t : list Z) : Res bool :=
  match s, t with
  | c :: s, d :: t => if negb (c =? d) then Ok false else
                      if c =? 0 then Ok true else strcmp_eq s t
  | _, _ => Undef
  end.

(** [strncpy(dst, s, n)]: the characters up to the terminator, then zeros. *)
Fixpoint strncpy (s : list Z) (n : nat) : Res (list Z) :=
  match n, s with
  | O, _ => Ok []
  | S _, [] => Undef
  | S n', c :: s => if c =? 0 then Ok (replicate n 0)
                    else r ← strncpy s n'; Ok (c :: r)
  end.

Definition string_copy (s : list Z) : Res (list Z) :=
  r ← strncpy s (Z.to_nat (MAX_KEY_LEN - 1)); Ok (r ++ [0]).

#[export] Instance string_key : HashKey (list Z) := {|
  key_hash := hash_string;
  key_eq := strcmp_eq;
  key_copy := string_copy;
|}.

Definition str_hashmap_new := hashmap_new (K := list Z).
Definition str_hashmap_get := hashmap_get (K := list Z).
Definition str_hashmap_insert := hashmap_insert (K := list Z).
Definition str_hashmap_remove := hashmap_remove (K := list Z).
Definition str_hashmap_grow := hashmap_grow (K := list Z).

(** ** The benchmark program of [hashmap_bench.c]

    [key_of i] is the key the loops use for index [i]. *)
Section bench.
Context {K : Type} `{!HashKey K} (junk : nat → Entry K) (key_of : Z → K).

Definition bench_lookups (map : HashMap K) (checksum : Z) : Res Z :=
  for_range 0 1000 (λ i checksum, v ← hashmap_get map (key_of i); i64 (checksum + v)) checksum.

Definition bench_round (checksum : Z) : Res Z :=
  map ← hashmap_new junk 16;
  map ← for_range 0 1000 (λ i map, hashmap_insert junk map (key_of i) (i * 7)) map;
  checksum ← bench_lookups map checksum;
  map ← for_range 0 500 (λ i map, '(_, map) ← hashmap_remove map (key_of (i * 2)); Ok map) map;
  map ← for_range 0 500 (λ i map, hashmap_insert junk map (key_of (i * 2)) (i * 11)) map;
  bench_lookups map checksum.
End bench.

Definition hashmap_bench_main (junk : nat → Entry Z) : Res Z :=
  for_range 0 1000 (λ _ checksum, bench_round junk (λ i, i) checksum) 0.
