(* ===== verification/HashMapSpec.v ===== *)
(** * The hash maps refine finite maps

    [map_ok m M] relates a [HashMap] to the finite map it stands for; every
    operation preserves it, and a whole sequence of operations from
    [hashmap_new] answers as the finite map does. *)
From S2P Require Import Prelude Probe HashMap.

(** The laws of [HashKey]: [absk] is the key a stored or argument key stands
    for; [fits] are the arguments [key_copy] copies completely. *)
Class HashKeyLaws (K A : Type) `{!HashKey K} `{Countable A} := {
  absk : K → A;
  khash : A → Z;
  readable : K → Prop;
  stored : K → Prop;
  fits : K → Prop;
  key_hash_ok k : readable k → key_hash k = Ok (khash (absk k));
  stored_readable k : stored k → readable k;
  key_eq_ok s k : stored s → readable k → key_eq s k = Ok (bool_decide (absk s = absk k));
  key_copy_ok k : readable k →
    ∃ s, key_copy k = Ok s ∧ stored s ∧ (fits k → absk s = absk k);
}.

Section spec.
Context {K A : Type} `{!Inhabited K} `{!HashKey K} `{Countable A} `{!HashKeyLaws K A}.
Context (junk : nat → Entry K).
Implicit Types (m : HashMap K) (M : gmap A Z) (k : K) (es : list (Entry K)).

#[local] Instance entry_inhabited : Inhabited (Entry K) :=
  populate {| key := inhabitant; val := 0 |}.

Definition keyat es (i : Z) : A := absk (key (es.[i])).

Abbreviation holds_key c es cap a i := (holds c (keyat es) cap a i).

(** A control array and its entries hold the finite map [M]. *)
Record tab (c : list Z) es (cap : Z) M : Prop := {
  tab_table : table_ok khash c (keyat es) cap;
  tab_entries : zlen es = cap;
  tab_stored i : 0 ≤ i < cap → 0 ≤ c.[i] → stored (key (es.[i]));
  tab_abs a v : M !! a = Some v ↔ ∃ i, holds_key c es cap a i ∧ val (es.[i]) = v;
}.

Lemma tab_len c es cap M : tab c es cap M → zlen c = cap.
Proof. intros []. by eapply t_len. Qed.

Lemma tab_cap c es cap M : tab c es cap M → 0 < cap.
Proof. intros []. by eapply t_cap. Qed.

Lemma tab_none c es cap M a : tab c es cap M →
  (∀ i, ¬ holds_key c es cap a i) ↔ M !! a = None.
Proof.
  intros Ht. split.
  - intros Hn. destruct (M !! a) as [v|] eqn:E; [|done].
    apply (tab_abs _ _ _ _ Ht) in E as (i & Hi & _). by destruct (Hn i).
  - intros E i Hi. assert (M !! a = Some (val (es.[i]))) as E'; [|congruence].
    apply (tab_abs _ _ _ _ Ht). by exists i.
Qed.

Lemma tab_empty cap : 0 < cap →
  tab (replicate (Z.to_nat cap) CTRL_EMPTY) (malloc_arr junk cap) cap ∅.
Proof.
  intros Hc.
  assert (∀ i, 0 ≤ i < cap → (replicate (Z.to_nat cap) CTRL_EMPTY).[i] = CTRL_EMPTY) as E.
  { intros i Hi. apply znth_replicate. lia. }
  split.
  - by apply empty_table_ok.
  - rewrite length_malloc. lia.
  - intros i Hi. rewrite E by done. unfold CTRL_EMPTY. lia.
  - intros a v. rewrite lookup_empty. split; [done|]. intros (i & (Hi & Hf & _) & _).
    rewrite E in Hf by done. unfold CTRL_EMPTY in Hf. lia.
Qed.

Lemma keyat_zset es j e i : 0 ≤ j < zlen es → 0 ≤ i →
  keyat (zset es j e) i = if decide (i = j) then absk (key e) else keyat es i.
Proof.
  intros Hj Hi. unfold keyat. rewrite znth_zset by lia.
  repeat case_decide; subst; done.
Qed.

(** Storing a new key. *)
Lemma tab_store c es cap M a d e :
  tab c es cap M → M !! a = None → 0 ≤ d < cap →
  no_gap c cap (khash a) d → c.[slot (khash a) cap d] < 0 →
  stored (key e) → absk (key e) = a →
  tab (zset c (slot (khash a) cap d) (hash_tag (khash a)))
      (zset es (slot (khash a) cap d) e) cap (<[a := val e]> M).
Proof.
  intros Ht Hn Hd Hgap Hfree Hst Ha. set (j := slot _ _ _) in *.
  pose proof (tab_entries _ _ _ _ Ht) as Hes. pose proof (tab_len _ _ _ _ Ht) as Hlen.
  assert (0 ≤ j < cap) as Hj by (apply slot_range, (tab_cap _ _ _ _ Ht)).
  pose proof (hash_tag_range (khash a)) as Htag.
  assert (table_ok khash (zset c j (hash_tag (khash a))) (keyat (zset es j e)) cap) as Htab.
  { apply (table_store khash c (keyat es) _ cap a d); [apply Ht|done..| |].
    - by apply (tab_none _ _ _ _ _ Ht).
    - intros i Hi. rewrite keyat_zset by lia. by rewrite Ha. }
  split.
  - done.
  - by rewrite length_zset.
  - intros i Hi. rewrite !znth_zset by lia. case_decide; [done|]. by apply (tab_stored _ _ _ _ Ht).
  - intros b v. destruct (decide (b = a)) as [->|Hb].
    + rewrite lookup_insert_eq. split.
      * intros [= <-]. exists j. unfold holds. rewrite keyat_zset, !znth_zset_eq by lia.
        rewrite decide_True by done. split_and!; [lia..|done|done].
      * intros (i & (Hi & Hf & Hk) & <-). f_equal.
        assert (i = j) as ->; [|by rewrite znth_zset_eq by lia].
        apply (t_uniq _ _ _ _ Htab); try done.
        -- rewrite znth_zset_eq by lia. lia.
        -- rewrite Hk, keyat_zset, decide_True by lia. done.
    + rewrite lookup_insert_ne by done. rewrite (tab_abs _ _ _ _ Ht).
      apply exist_proper. intros i. unfold holds.
      destruct (decide (0 ≤ i < cap)) as [Hi|]; [|naive_solver].
      rewrite keyat_zset, !znth_zset by lia.
      destruct (decide (i = j)) as [E|E], (decide (j = i)) as [E'|E']; try congruence; [|done].
      rewrite Ha, E.
      split; [intros ((_ & ? & _) & _); lia|intros ((_ & _ & ?) & _); congruence].
Qed.

(** Overwriting the value of a present key. *)
Lemma tab_update c es cap M a i v :
  tab c es cap M → holds_key c es cap a i →
  tab c (zset es i {| key := key (es.[i]); val := v |}) cap (<[a := v]> M).
Proof.
  intros Ht Hh. pose proof (tab_entries _ _ _ _ Ht) as Hes. destruct Hh as (Hi & Hf & Hk).
  assert (∀ i', 0 ≤ i' < cap →
    keyat (zset es i {| key := key (es.[i]); val := v |}) i' = keyat es i') as Hkey.
  { intros i' Hi'. rewrite keyat_zset by lia. by case_decide; subst. }
  pose proof (tab_table _ _ _ _ Ht) as Htab.
  split.
  - split; try apply Htab.
    + intros i' Hi'. rewrite Hkey by done. by apply (t_tag _ _ _ _ Htab).
    + intros i' Hi'. rewrite Hkey by done. by apply (t_reach _ _ _ _ Htab).
    + intros i1 i2 Hi1 Hi2. rewrite !Hkey by done. by apply (t_uniq _ _ _ _ Htab).
  - by rewrite length_zset.
  - intros i' Hi' Hf'. rewrite znth_zset by lia. case_decide; cbn.
    + by apply (tab_stored _ _ _ _ Ht).
    + by apply (tab_stored _ _ _ _ Ht).
  - intros b w. destruct (decide (b = a)) as [->|Hb].
    + rewrite lookup_insert_eq. split.
      * intros [= <-]. exists i. unfold holds. rewrite Hkey, znth_zset_eq by lia. auto.
      * intros (i' & (Hi' & Hf' & Hk') & <-). rewrite Hkey in Hk' by done.
        assert (i' = i) as ->; [|by rewrite znth_zset_eq by lia].
        apply (t_uniq _ _ _ _ Htab); congruence.
    + rewrite lookup_insert_ne by done. rewrite (tab_abs _ _ _ _ Ht).
      apply exist_proper. intros i'. unfold holds.
      destruct (decide (0 ≤ i' < cap)) as [Hi'|]; [|naive_solver].
      rewrite Hkey, znth_zset by lia. case_decide; [|done]. subst i'.
      split; intros ((_ & _ & ?) & _); congruence.
Qed.

Lemma tab_delete c es cap M a i :
  tab c es cap M → holds_key c es cap a i → tab (zset c i CTRL_DELETED) es cap (delete a M).
Proof.
  intros Ht (Hi & Hf & Hk). pose proof (tab_len _ _ _ _ Ht) as Hlen.
  pose proof (tab_table _ _ _ _ Ht) as Htab.
  split.
  - by apply table_delete.
  - by apply (tab_entries _ _ _ _ Ht).
  - intros i' Hi'. rewrite znth_zset by lia. case_decide; [unfold CTRL_DELETED; lia|].
    by apply (tab_stored _ _ _ _ Ht).
  - intros b v. destruct (decide (b = a)) as [->|Hb].
    + rewrite lookup_delete_eq. split; [done|]. intros (i' & (Hi' & Hf' & Hk') & _).
      rewrite znth_zset in Hf' by lia. case_decide; [unfold CTRL_DELETED in Hf'; lia|].
      assert (i' = i) by (apply (t_uniq _ _ _ _ Htab); congruence). congruence.
    + rewrite lookup_delete_ne by done. rewrite (tab_abs _ _ _ _ Ht).
      apply exist_proper. intros i'. unfold holds.
      destruct (decide (0 ≤ i' < cap)) as [Hi'|]; [|naive_solver].
      rewrite znth_zset by lia. case_decide; [|done]. subst i'.
      split; intros ((_ & _ & ?) & _); congruence.
Qed.

(** ** The map invariant *)
Record map_ok m M : Prop := {
  mo_tab : (cap m = 0 ∧ ctrl m = [] ∧ M = ∅) ∨ tab (ctrl m) (entries m) (cap m) M;
  mo_cap : (8 | cap m);
  mo_len : len m = countb is_full (ctrl m);
  mo_growth : growth_left m + countb is_used (ctrl m) = cap m * 7 / 8;
  mo_growth_pos : 0 ≤ growth_left m;
}.

Lemma mo_cap_nonneg m M : map_ok m M → 0 ≤ cap m.
Proof. intros Hm. destruct (mo_tab _ _ Hm) as [(-> & _)|Ht]; [done|]. apply tab_cap in Ht. lia. Qed.

Lemma mo_tab_pos m M : map_ok m M → cap m ≠ 0 → tab (ctrl m) (entries m) (cap m) M.
Proof. intros Hm Hc. by destruct (mo_tab _ _ Hm) as [(? & _)|]. Qed.

Lemma used_lt_cap c : 0 < c → c * 7 / 8 < c.
Proof. intros. apply Z.div_lt_upper_bound; lia. Qed.

Lemma mo_used m M : map_ok m M → cap m ≠ 0 → countb is_used (ctrl m) < cap m.
Proof.
  intros Hm Hc. pose proof (mo_growth _ _ Hm). pose proof (mo_growth_pos _ _ Hm).
  pose proof (mo_cap_nonneg _ _ Hm). pose proof (used_lt_cap (cap m)). lia.
Qed.

#[local] Instance holds_dec c es cap a i : Decision (holds_key c es cap a i).
Proof. unfold holds. apply _. Defined.

(** The test of the loops decides [holds]. *)
Lemma slot_matches_ok m M k i :
  tab (ctrl m) (entries m) (cap m) M → readable k → 0 ≤ i < cap m →
  slot_matches m ((ctrl m).[i]) (hash_tag (khash (absk k))) i k =
  Ok (bool_decide (holds_key (ctrl m) (entries m) (cap m) (absk k) i)).
Proof.
  intros Ht Hk Hi. pose proof (tab_entries _ _ _ _ Ht). unfold slot_matches.
  pose proof (hash_tag_range (khash (absk k))).
  destruct (Z.eqb_spec ((ctrl m).[i]) (hash_tag (khash (absk k)))) as [E|E].
  - rewrite rd_ok by lia. cbn [mbind Res_bind]. rewrite key_eq_ok.
    + f_equal. apply bool_decide_ext. unfold holds, keyat. rewrite E. intuition lia.
    + apply (tab_stored _ _ _ _ Ht); lia.
    + done.
  - f_equal. symmetry. apply bool_decide_eq_false. intros (_ & Hf & Hka). apply E.
    rewrite <- Hka. by apply (t_tag _ _ _ _ (tab_table _ _ _ _ Ht)).
Qed.

(** What a probing loop knows after [d] probes without a hit. *)
Definition probed m (a : A) (d idx : Z) : Prop :=
  idx = slot (khash a) (cap m) d ∧ no_gap (ctrl m) (cap m) (khash a) d ∧
  ∀ d', 0 ≤ d' < d → ¬ holds_key (ctrl m) (entries m) (cap m) a (slot (khash a) (cap m) d').

Lemma probed_0 m a : 0 < cap m → probed m a 0 (hash_home (khash a) (cap m)).
Proof. intros. split_and!; [by rewrite slot_0|intros d' ?; lia|intros d' ?; lia]. Qed.

Lemma probed_next m a d idx : 0 < cap m → probed m a d idx →
  ¬ holds_key (ctrl m) (entries m) (cap m) a idx → (ctrl m).[idx] ≠ CTRL_EMPTY →
  probed m a (d + 1) ((idx + 1) mod cap m).
Proof.
  intros Hc (-> & Hg & Hn) Hh He. split_and!; [by rewrite slot_next| |].
  - intros d' Hd'. destruct (decide (d' = d)) as [->|]; [done|]. apply Hg. lia.
  - intros d' Hd'. destruct (decide (d' = d)) as [->|]; [done|]. apply Hn. lia.
Qed.

Lemma probed_absent m M a d idx :
  tab (ctrl m) (entries m) (cap m) M → 0 ≤ d → probed m a d idx →
  (ctrl m).[idx] = CTRL_EMPTY → M !! a = None.
Proof.
  intros Ht Hd (-> & Hg & Hn) He. apply (tab_none _ _ _ _ _ Ht).
  eapply absent_at_gap; [apply Ht|done|done|done].
Qed.

(** The probe of a whole table that has a gap never runs to its end. *)
Lemma probed_end m M a idx : map_ok m M → cap m ≠ 0 → probed m a (cap m) idx → False.
Proof.
  intros Hm Hc (_ & Hg & _). pose proof (mo_tab_pos _ _ Hm Hc) as Ht.
  destruct (gap_exists khash _ _ _ (khash a) (tab_table _ _ _ _ Ht) (mo_used _ _ Hm Hc))
    as (d & Hd & He & _). by apply (Hg d).
Qed.

Lemma get_wp m M k : map_ok m M → readable k →
  wp (hashmap_get m k) (λ v, v = default 0 (M !! absk k)).
Proof.
  intros Hm Hk. unfold hashmap_get. destruct (Z.eqb_spec (cap m) 0) as [Hc|Hc].
  { destruct (mo_tab _ _ Hm) as [(_ & _ & ->)|Ht]; cbn [wp]; [by rewrite lookup_empty|].
    apply tab_cap in Ht. lia. }
  pose proof (mo_tab_pos _ _ Hm Hc) as Ht. pose proof (tab_cap _ _ _ _ Ht).
  pose proof (tab_len _ _ _ _ Ht). pose proof (tab_entries _ _ _ _ Ht).
  rewrite key_hash_ok by done. cbn [mbind Res_bind]. apply wp_bind.
  apply (for_ctl_wp (λ d idx, probed m (absk k) d idx)).
  - by apply probed_0.
  - intros d idx Hd Hp. assert (0 ≤ idx < cap m) as Hi.
    { destruct Hp as (-> & _). by apply slot_range. }
    wp_step. rewrite rd_ok by lia. cbn [wp]. wp_step.
    rewrite (slot_matches_ok m M) by done. cbn [wp]. case_bool_decide as Hh.
    + wp_step. rewrite rd_ok by lia. cbn [wp].
      assert (M !! absk k = Some (val ((entries m).[idx]))) as ->; [|done].
      apply (tab_abs _ _ _ _ Ht). by exists idx.
    + destruct (Z.eqb_spec ((ctrl m).[idx]) CTRL_EMPTY) as [He|He]; cbn [wp].
      * by rewrite (probed_absent m M (absk k) d idx) by (done || lia).
      * by apply probed_next.
  - intros idx Hp. rewrite Z.max_r in Hp by lia. by destruct (probed_end m M (absk k) idx).
Qed.

Lemma remove_wp m M k : map_ok m M → readable k →
  wp (hashmap_remove m k) (λ '(r, m'),
    r = (if M !! absk k then 1 else 0) ∧ map_ok m' (delete (absk k) M) ∧ cap m' = cap m ∧
    countb is_used (ctrl m') = countb is_used (ctrl m)).
Proof.
  intros Hm Hk. unfold hashmap_remove. destruct (Z.eqb_spec (cap m) 0) as [Hc|Hc].
  { destruct (mo_tab _ _ Hm) as [(_ & _ & HM)|Ht]; cbn [wp].
    - split_and!; [by rewrite HM| |done..]. by rewrite HM, delete_empty, <- HM.
    - apply tab_cap in Ht. lia. }
  pose proof (mo_tab_pos _ _ Hm Hc) as Ht. pose proof (tab_cap _ _ _ _ Ht).
  pose proof (tab_len _ _ _ _ Ht). pose proof (tab_entries _ _ _ _ Ht).
  rewrite key_hash_ok by done. cbn [mbind Res_bind]. apply wp_bind.
  apply (for_ctl_wp (λ d idx, probed m (absk k) d idx)).
  - by apply probed_0.
  - intros d idx Hd Hp. assert (0 ≤ idx < cap m) as Hi.
    { destruct Hp as (-> & _). by apply slot_range. }
    wp_step. rewrite rd_ok by lia. cbn [wp]. wp_step.
    rewrite (slot_matches_ok m M) by done. cbn [wp]. case_bool_decide as Hh.
    + wp_step. rewrite wr_ok by lia. cbn [wp].
      assert (M !! absk k = Some (val ((entries m).[idx]))) as E.
      { apply (tab_abs _ _ _ _ Ht). by exists idx. }
      assert (countb is_used (zset (ctrl m) idx CTRL_DELETED) = countb is_used (ctrl m)) as Hu.
      { rewrite countb_zset by lia. destruct Hh as (_ & Hf & _).
        rewrite is_used_true by done. cbn. lia. }
      split_and!; [by rewrite E| |done|done]. split; cbn.
      * right. by apply tab_delete.
      * apply Hm.
      * rewrite countb_zset by lia. rewrite (mo_len _ _ Hm). destruct Hh as (_ & Hf & _).
        rewrite is_full_true by done. cbn. lia.
      * rewrite Hu. apply Hm.
      * apply Hm.
    + destruct (Z.eqb_spec ((ctrl m).[idx]) CTRL_EMPTY) as [He|He]; cbn [wp].
      * rewrite delete_id by (apply (probed_absent m M (absk k) d idx); done || lia).
        by rewrite (probed_absent m M (absk k) d idx) by (done || lia).
      * by apply probed_next.
  - intros idx Hp. rewrite Z.max_r in Hp by lia. by destruct (probed_end m M (absk k) idx).
Qed.

(** ** Growing *)
(** The old table's content below slot [i]. *)
Definition below m (Mi : gmap A Z) (i : Z) : Prop :=
  ∀ a v, Mi !! a = Some v ↔
    ∃ j, j < i ∧ holds_key (ctrl m) (entries m) (cap m) a j ∧ val ((entries m).[j]) = v.

Definition grow_inv m (new_cap i : Z) (s : list Z * list (Entry K)) : Prop :=
  ∃ Mi, tab s.1 s.2 new_cap Mi ∧ below m Mi i ∧
    countb is_full s.1 = countb is_full (take (Z.to_nat i) (ctrl m)) ∧
    countb is_used s.1 = countb is_full s.1.

Lemma grow_step_wp m M new_cap i s :
  map_ok m M → cap m ≠ 0 → cap m < new_cap → 0 ≤ i < cap m → grow_inv m new_cap i s →
  wp (grow_step m new_cap i s) (grow_inv m new_cap (i + 1)).
Proof.
  intros Hm Hc0 Hnew Hi (Mi & Hs & Hbel & Hcnt & Hused). destruct s as [nc ne]. cbn in *.
  pose proof (mo_tab_pos _ _ Hm Hc0) as Ht.
  pose proof (tab_len _ _ _ _ Ht) as Hl. pose proof (tab_entries _ _ _ _ Ht) as Hle.
  pose proof (tab_len _ _ _ _ Hs) as Hnl. pose proof (tab_entries _ _ _ _ Hs) as Hnle.
  wp_step. rewrite rd_ok by lia. cbn [wp].
  destruct (Z.leb_spec 0 ((ctrl m).[i])) as [Hf|Hf].
  - wp_step. rewrite rd_ok by lia. cbn [wp]. set (e := (entries m).[i]).
    pose proof (tab_stored _ _ _ _ Ht i Hi Hf) as Hst. fold e in Hst.
    wp_step. rewrite key_hash_ok by by apply stored_readable. cbn [wp].
    assert (Mi !! absk (key e) = None) as Hn.
    { destruct (Mi !! absk (key e)) eqn:E; [|done].
      apply Hbel in E as (j & Hj & (Hj1 & Hj2 & Hj3) & _).
      assert (j = i); [|lia].
      by apply (t_uniq _ _ _ _ (tab_table _ _ _ _ Ht)). }
    wp_step. eapply wp_mono.
    { apply find_empty_wp; [done|lia|].
      destruct (gap_exists khash _ _ _ (khash (absk (key e))) (tab_table _ _ _ _ Hs))
        as (d & Hd & He & _); [|by exists d].
      rewrite Hused, Hcnt. pose proof (countb_take_le is_full (ctrl m) (Z.to_nat i)).
      pose proof (countb_range is_full (ctrl m)). lia. }
    intros j (d & Hd & -> & Hg & He). pose proof (slot_range (khash (absk (key e))) new_cap d ltac:(lia)).
    wp_step. rewrite wr_ok by lia. cbn [wp]. wp_step. rewrite wr_ok by lia. cbn [wp].
    exists (<[absk (key e) := val e]> Mi). cbn [fst snd]. split_and!.
    + apply tab_store; [done|done|done|done| |done|done]. by rewrite He.
    + intros a v. destruct (decide (a = absk (key e))) as [->|Ha].
      * rewrite lookup_insert_eq. split.
        -- intros [= <-]. exists i. split; [lia|]. done.
        -- intros (j & _ & (Hj1 & Hj2 & Hj3) & <-). do 2 f_equal.
           assert (j = i) as ->; [|done]. by apply (t_uniq _ _ _ _ (tab_table _ _ _ _ Ht)).
      * rewrite lookup_insert_ne by done. rewrite (Hbel a v). apply exist_proper. intros j.
        destruct (decide (j = i)) as [->|].
        -- split; [lia|]. intros (_ & (_ & _ & Hk) & _). by destruct Ha.
        -- intuition lia.
    + rewrite countb_take, countb_zset, Hcnt by lia. rewrite He.
      rewrite is_full_tag, (is_full_true ((ctrl m).[i])) by done. cbn. lia.
    + rewrite !countb_zset by lia. rewrite He, Hused, is_full_tag, is_used_tag. done.
  - cbn [wp]. exists Mi. cbn [fst snd]. split_and!; [done| | |done].
    + intros a v. rewrite (Hbel a v). apply exist_proper. intros j.
      destruct (decide (j = i)) as [->|]; [|intuition lia].
      split; [lia|]. intros (_ & (_ & ? & _) & _). lia.
    + rewrite countb_take, Hcnt, is_full_false by lia. cbn. lia.
Qed.

Definition next_cap (c : Z) : Z := if c =? 0 then INITIAL_CAP else c * 2.

Lemma full_le_used m M : map_ok m M → len m ≤ countb is_used (ctrl m).
Proof.
  intros Hm. rewrite (mo_len _ _ Hm). apply countb_le. intros c Hc.
  unfold is_full, is_used, CTRL_EMPTY in *. apply negb_true_iff, Z.eqb_neq.
  apply Z.leb_le in Hc. lia.
Qed.

Lemma grow_wp m M : map_ok m M → growth_left m = 0 → cap m ≤ 2 ^ 58 →
  wp (hashmap_grow junk m) (λ m', map_ok m' M ∧ 0 < growth_left m' ∧ cap m' = next_cap (cap m) ∧
    countb is_used (ctrl m') ≤ countb is_used (ctrl m)).
Proof.
  intros Hm Hgl Hbig. unfold hashmap_grow.
  pose proof (mo_cap_nonneg _ _ Hm) as Hc0. pose proof (mo_cap _ _ Hm) as [q Hq].
  pose proof (mo_growth _ _ Hm) as Hg. pose proof (full_le_used _ _ Hm) as Hfu.
  assert ((if cap m =? 0 then Ok INITIAL_CAP else i64 (cap m * 2)) = Ok (next_cap (cap m))) as ->.
  { unfold next_cap. case_match; [done|]. apply i64_ok. c_unfold. lia. }
  cbn [mbind Res_bind].
  assert (cap m < next_cap (cap m) ∧ next_cap (cap m) * 7 ≤ LONG_MAX ∧ (8 | next_cap (cap m)) ∧
    len m < next_cap (cap m) * 7 / 8) as (Hn1 & Hn2 & Hn3 & Hn4).
  { unfold next_cap. c_unfold. destruct (Z.eqb_spec (cap m) 0) as [E|E].
    - rewrite E in *. split_and!; [done|done|by exists 1|]. change (INITIAL_CAP * 7 / 8) with 7.
      change (0 * 7 / 8) with 0 in *. lia.
    - split_and!; [lia|lia|exists (q * 2); lia|].
      replace (cap m * 2 * 7 / 8) with (q * 14) by (rewrite Hq; apply Z.div_unique_exact; lia).
      replace (cap m * 7 / 8) with (q * 7) in Hg by (rewrite Hq; apply Z.div_unique_exact; lia).
      lia. }
  set (nc := next_cap (cap m)) in *. wp_step. eapply wp_mono.
  - apply (for_range_wp (grow_inv m nc) 0 (cap m) _ _ (grow_inv m nc (cap m))).
    + exists ∅. cbn. destruct (full_used_replicate (Z.to_nat nc)) as [-> ->].
      split_and!; [apply tab_empty; lia| |by rewrite take_0|done].
      intros a v. rewrite lookup_empty. split; [done|]. intros (j & ? & (? & _) & _). lia.
    + intros i s Hi Hs. apply (grow_step_wp m M); [done|lia|done|done|done].
    + intros s. by rewrite Z.max_r by lia.
  - intros [nct nen] (Mi & Ht & Hbel & Hcnt & Hused). cbn in *.
    rewrite load_limit_ok by lia. cbn.
    assert (Mi = M) as ->.
    { destruct (mo_tab _ _ Hm) as [(E & _ & ->)|Htm].
      - apply map_eq. intros a. rewrite lookup_empty. destruct (Mi !! a) as [v|] eqn:Ea; [|done].
        apply Hbel in Ea as (j & ? & (? & _) & _). lia.
      - apply map_eq. intros a. apply option_eq. intros v.
        rewrite (Hbel a v), (tab_abs _ _ _ _ Htm). apply exist_proper. intros j.
        split; [tauto|]. intros [Hh ?]. split; [apply Hh|done]. }
    assert (zlen (ctrl m) = cap m) as Hlm.
    { destruct (mo_tab _ _ Hm) as [(-> & -> & _)|Htm]; [done|by apply tab_len in Htm]. }
    rewrite <- Hlm, Nat2Z.id, firstn_all, <- (mo_len _ _ Hm) in Hcnt.
    split_and!; [|lia|done|lia]. split; cbn; [by right|done|lia|lia|lia].
Qed.

(** ** Inserting *)
Definition updated m (i v : Z) : HashMap K :=
  {| ctrl := ctrl m; entries := zset (entries m) i {| key := key ((entries m).[i]); val := v |};
     len := len m; cap := cap m; growth_left := growth_left m |}.

Definition stored_at m (j hash v : Z) (s : K) : HashMap K :=
  {| ctrl := zset (ctrl m) j (hash_tag hash); entries := zset (entries m) j {| key := s; val := v |};
     len := len m + 1; cap := cap m;
     growth_left := if (ctrl m).[j] =? CTRL_EMPTY then growth_left m - 1 else growth_left m |}.

(** How the probe of [hashmap_insert] ends on a map with room. *)
Definition insert_ends m M (k s : K) (v : Z) m' : Prop :=
  (∃ i, holds_key (ctrl m) (entries m) (cap m) (absk k) i ∧ m' = updated m i v) ∨
  (M !! absk k = None ∧ ∃ e, 0 ≤ e < cap m ∧ no_gap (ctrl m) (cap m) (khash (absk k)) e ∧
     (ctrl m).[slot (khash (absk k)) (cap m) e] < 0 ∧
     m' = stored_at m (slot (khash (absk k)) (cap m) e) (khash (absk k)) v s).

(** [first_deleted] after [d] probes. *)
Definition deleted_seen m (a : A) (d fd : Z) : Prop :=
  fd = -1 ∨ ∃ e, 0 ≤ e < d ∧ fd = slot (khash a) (cap m) e ∧ (ctrl m).[fd] = CTRL_DELETED.

Lemma store_entry_ok m j hash k s v gl :
  key_copy k = Ok s → 0 ≤ j < zlen (ctrl m) → zlen (entries m) = zlen (ctrl m) →
  0 ≤ len m < LONG_MAX →
  gl = (if (ctrl m).[j] =? CTRL_EMPTY then growth_left m - 1 else growth_left m) →
  store_entry m j (hash_tag hash) k v gl = Ok (stored_at m j hash v s).
Proof.
  intros Hs Hj Hes Hlen ->. unfold store_entry. rewrite wr_ok by lia. cbn [mbind Res_bind].
  rewrite Hs. cbn [mbind Res_bind]. rewrite wr_ok by lia. cbn [mbind Res_bind].
  by rewrite i64_ok by (c_unfold; lia).
Qed.

Lemma insert_probe_wp m M k s v :
  map_ok m M → 0 < growth_left m → cap m ≠ 0 → cap m ≤ 2 ^ 60 → readable k →
  key_copy k = Ok s →
  wp (for_ctl 0 (cap m) (λ _, insert_step m (khash (absk k)) k v)
        (hash_home (khash (absk k)) (cap m), -1))
     (λ r, match r with Gave m' => insert_ends m M k s v m' | Fell _ => False end).
Proof.
  intros Hm Hgl Hc Hbig Hk Hs.
  pose proof (mo_tab_pos _ _ Hm Hc) as Ht. pose proof (tab_cap _ _ _ _ Ht).
  pose proof (tab_len _ _ _ _ Ht) as Hl. pose proof (tab_entries _ _ _ _ Ht).
  set (a := absk k) in *.
  assert (0 ≤ len m < LONG_MAX) as Hlen.
  { rewrite (mo_len _ _ Hm). pose proof (countb_range is_full (ctrl m)). c_unfold. lia. }
  apply (for_ctl_wp (λ d '(idx, fd), probed m a d idx ∧ deleted_seen m a d fd)).
  - split; [by apply probed_0|by left].
  - intros d [idx fd] Hd [Hp Hdel]. assert (0 ≤ idx < cap m) as Hi.
    { destruct Hp as (-> & _). by apply slot_range. }
    unfold insert_step. wp_step. rewrite rd_ok by lia. cbn [wp]. wp_step.
    pose proof (slot_matches_ok m M k idx Ht Hk Hi) as Hsm. fold a in Hsm.
    rewrite Hsm. cbn [wp]. case_bool_decide as Hh.
    { wp_step. rewrite rd_ok by lia. cbn [wp]. wp_step. rewrite wr_ok by lia. cbn [wp].
      left. by exists idx. }
    set (fd' := if _ && _ then idx else fd).
    assert (deleted_seen m a (d + 1) fd') as Hdel'.
    { unfold fd'. destruct (Z.eqb_spec ((ctrl m).[idx]) CTRL_DELETED) as [Ed|Ed],
        (Z.eqb_spec fd (-1)) as [Ef|Ef]; cbn.
      - right. exists d. destruct Hp as (-> & _). split_and!; [lia..|done|done].
      - destruct Hdel as [?|(e & ? & ? & ?)]; [done|]. right. exists e. split_and!; [lia..|done|done].
      - by left.
      - destruct Hdel as [?|(e & ? & ? & ?)]; [done|]. right. exists e. split_and!; [lia..|done|done]. }
    destruct (Z.eqb_spec ((ctrl m).[idx]) CTRL_EMPTY) as [He|He]; cbn [wp].
    + assert (M !! a = None) as Hn by (apply (probed_absent m M a d idx); done || lia).
      assert (fd' = fd) as Hfd.
      { unfold fd'. by rewrite He. }
      rewrite Hfd in *. clear fd' Hfd. wp_step.
      destruct Hp as (-> & Hg & _).
      destruct Hdel as [->|(e & Hed & -> & Hdd)].
      * change (0 <=? -1) with false. change (-1 <? 0) with true. cbn iota.
        rewrite (store_entry_ok _ _ _ _ s) by (done || lia || by rewrite (proj2 (Z.eqb_eq _ _) He)).
        cbn [wp]. right. split; [done|]. exists d. split_and!; [lia..|done| |done].
        fold a. by rewrite He.
      * pose proof (slot_range (khash a) (cap m) e ltac:(lia)) as Hse.
        rewrite (proj2 (Z.leb_le 0 _)) by lia. rewrite (proj2 (Z.ltb_ge _ 0)) by lia.
        rewrite (store_entry_ok _ _ _ _ s) by (done || lia || by rewrite Hdd).
        cbn [wp]. right. split; [done|]. exists e. split_and!; [lia..| |fold a; by rewrite Hdd|done].
        intros d' Hd'. apply Hg. lia.
    + split; [by apply probed_next|done].
  - intros [idx fd] [Hp _]. rewrite Z.max_r in Hp by lia. by destruct (probed_end m M a idx).
Qed.

Lemma updated_ok m M i a v :
  map_ok m M → cap m ≠ 0 → holds_key (ctrl m) (entries m) (cap m) a i →
  map_ok (updated m i v) (<[a := v]> M).
Proof.
  intros Hm Hc Hh. pose proof (mo_tab_pos _ _ Hm Hc) as Ht. split; cbn; try apply Hm.
  right. by apply tab_update.
Qed.

Lemma stored_at_ok m M a e s v :
  map_ok m M → 0 < growth_left m → cap m ≠ 0 → M !! a = None → 0 ≤ e < cap m →
  no_gap (ctrl m) (cap m) (khash a) e → (ctrl m).[slot (khash a) (cap m) e] < 0 →
  stored s → absk s = a →
  map_ok (stored_at m (slot (khash a) (cap m) e) (khash a) v s) (<[a := v]> M) ∧
  countb is_used (ctrl (stored_at m (slot (khash a) (cap m) e) (khash a) v s)) ≤
    countb is_used (ctrl m) + 1.
Proof.
  intros Hm Hgl Hc Hn He Hg Hf Hs Ha. pose proof (mo_tab_pos _ _ Hm Hc) as Ht.
  pose proof (tab_len _ _ _ _ Ht). pose proof (tab_cap _ _ _ _ Ht).
  pose proof (slot_range (khash a) (cap m) e ltac:(lia)).
  pose proof (mo_len _ _ Hm). pose proof (mo_growth _ _ Hm).
  assert (0 ≤ slot (khash a) (cap m) e < zlen (ctrl m)) as Hj by lia.
  pose proof (countb_zset is_full _ _ (hash_tag (khash a)) Hj) as E1.
  pose proof (countb_zset is_used _ _ (hash_tag (khash a)) Hj) as E2.
  rewrite is_full_tag, is_full_false in E1 by done. rewrite is_used_tag in E2.
  cbn [Z.b2z] in *.
  assert (is_used (ctrl m).[slot (khash a) (cap m) e] = negb ((ctrl m).[slot (khash a) (cap m) e] =? CTRL_EMPTY)) as E3 by done.
  rewrite E3 in E2. split; [split; cbn|cbn].
  - right. by apply (tab_store _ _ _ _ _ _ {| key := s; val := v |}).
  - apply Hm.
  - lia.
  - destruct (_ =? CTRL_EMPTY); cbn in *; lia.
  - destruct (_ =? CTRL_EMPTY); lia.
  - destruct (_ =? CTRL_EMPTY); cbn in *; lia.
Qed.

(** Making room, as [hashmap_insert] does first. *)
Lemma make_room_wp m M : map_ok m M → cap m ≤ 2 ^ 58 →
  wp (if growth_left m =? 0 then hashmap_grow junk m else Ok m)
     (λ m', map_ok m' M ∧ 0 < growth_left m' ∧ cap m' ≠ 0 ∧ cap m' ≤ 2 ^ 60 ∧
        (cap m' = cap m ∨ growth_left m = 0 ∧ cap m' = next_cap (cap m)) ∧
        countb is_used (ctrl m') ≤ countb is_used (ctrl m)).
Proof.
  intros Hm Hbig. pose proof (mo_cap_nonneg _ _ Hm).
  destruct (Z.eqb_spec (growth_left m) 0) as [E|E].
  - eapply wp_mono; [by apply (grow_wp m M)|]. intros m' (Hm' & Hg & Hc & Hu).
    assert (cap m' ≠ 0 ∧ cap m' ≤ 2 ^ 60) as [? ?].
    { rewrite Hc. unfold next_cap, INITIAL_CAP. case_match; lia. }
    split_and!; try done. by right.
  - cbn [wp]. pose proof (mo_growth_pos _ _ Hm). pose proof (mo_growth _ _ Hm) as Hg.
    pose proof (countb_range is_used (ctrl m)).
    assert (cap m ≠ 0) as Hc by (intros Hc; rewrite Hc in Hg; change (0 * 7 / 8) with 0 in Hg; lia).
    split_and!; [done|lia|done|lia|by left|lia].
Qed.

Lemma insert_wp m M k v : map_ok m M → cap m ≤ 2 ^ 58 → readable k → fits k →
  wp (hashmap_insert junk m k v) (λ m', map_ok m' (<[absk k := v]> M) ∧
    (cap m' = cap m ∨ growth_left m = 0 ∧ cap m' = next_cap (cap m)) ∧
    countb is_used (ctrl m') ≤ countb is_used (ctrl m) + 1).
Proof.
  intros Hm Hbig Hk Hfit. destruct (key_copy_ok k Hk) as (s & Hcopy & Hst & Ha).
  unfold hashmap_insert. wp_step. eapply wp_mono; [by apply make_room_wp|].
  intros m1 (Hm1 & Hgl & Hc & Hb & Hcap & Hu).
  rewrite key_hash_ok by done. cbn [mbind Res_bind]. wp_step.
  eapply wp_mono; [by apply (insert_probe_wp m1 M k s v)|].
  intros [[idx fd]|m'] Hend; [done|]. cbn [wp].
  destruct Hend as [(i & Hh & ->)|(Hn & e & He & Hg & Hf & ->)].
  - split_and!; [by apply updated_ok|done|cbn; lia].
  - destruct (stored_at_ok m1 M (absk k) e s v) as [Hok Hcnt]; auto.
    split_and!; [done|done|lia].
Qed.

(** ** Creation *)
Lemma new_wp min_cap : min_cap ≤ 2 ^ 58 →
  wp (hashmap_new junk min_cap) (λ m, map_ok m ∅ ∧ cap m ≤ Z.max 8 (2 * min_cap) ∧
    countb is_used (ctrl m) = 0).
Proof.
  intros Hmin. unfold hashmap_new. destruct (Z.leb_spec min_cap 0); cbn [wp].
  { split_and!; [|cbn; lia|done]. split; cbn; [by left|by exists 0|done..]. }
  wp_step. eapply wp_mono; [apply round_cap_wp; lia|]. intros c (H8 & Hlo & Hc).
  rewrite load_limit_ok by (c_unfold; lia). cbn.
  destruct (full_used_replicate (Z.to_nat c)) as [Ef Eu].
  split_and!; [|lia|done]. split; cbn; [right; apply tab_empty; lia|done|lia|lia|].
  apply Z.div_pos; lia.
Qed.

(** ** Sequences of operations *)
Inductive MapOp := OpInsert (k : K) (v : Z) | OpGet (k : K) | OpRemove (k : K).

Definition run_op m (op : MapOp) : Res (Z * HashMap K) :=
  match op with
  | OpInsert k v => m ← hashmap_insert junk m k v; Ok (0, m)
  | OpGet k => v ← hashmap_get m k; Ok (v, m)
  | OpRemove k => hashmap_remove m k
  end.

Fixpoint run_ops m (ops : list MapOp) : Res (list Z * HashMap K) :=
  match ops with
  | [] => Ok ([], m)
  | op :: ops => '(r, m) ← run_op m op; '(rs, m) ← run_ops m ops; Ok (r :: rs, m)
  end.

(** The same operations on the finite map. *)
Definition spec_op M (op : MapOp) : Z * gmap A Z :=
  match op with
  | OpInsert k v => (0, <[absk k := v]> M)
  | OpGet k => (default 0 (M !! absk k), M)
  | OpRemove k => (if M !! absk k then 1 else 0, delete (absk k) M)
  end.

Fixpoint spec_ops M (ops : list MapOp) : list Z * gmap A Z :=
  match ops with
  | [] => ([], M)
  | op :: ops => let '(r, M) := spec_op M op in
                 let '(rs, M) := spec_ops M ops in (r :: rs, M)
  end.

Definition op_ok (op : MapOp) : Prop :=
  match op with OpInsert k _ => readable k ∧ fits k | OpGet k | OpRemove k => readable k end.

(** After [n] operations: the used slots are at most [n], and the capacity is
    what it was at the start or was forced by them. *)
Definition sized m (n : Z) : Prop :=
  countb is_used (ctrl m) ≤ n ∧ (cap m ≤ 2 ^ 57 ∨ 7 * cap m ≤ 16 * n).

Lemma run_op_wp m M op n : map_ok m M → sized m n → 0 ≤ n ≤ 2 ^ 56 → op_ok op →
  wp (run_op m op) (λ '(r, m'), r = (spec_op M op).1 ∧ map_ok m' (spec_op M op).2 ∧ sized m' (n + 1)).
Proof.
  intros Hm [Hu Hc] Hn Hop. destruct op as [k v|k|k]; cbn [run_op spec_op fst snd op_ok] in *.
  - wp_step. destruct Hop. eapply wp_mono; [apply (insert_wp m M k v); [done|lia|done..]|].
    intros m' (Hm' & Hc' & Hu'). cbn [wp]. split_and!; [done|done|]. split; [lia|].
    destruct Hc' as [->|[Hg ->]]; [lia|]. pose proof (mo_growth _ _ Hm) as Hgr.
    unfold next_cap, INITIAL_CAP. case_match; [lia|]. right.
    destruct (mo_cap _ _ Hm) as [q Hq].
    replace (cap m * 7 / 8) with (q * 7) in Hgr by (rewrite Hq; apply Z.div_unique_exact; lia). lia.
  - wp_step. eapply wp_mono; [by apply (get_wp m M)|]. intros v ->. cbn [wp].
    split_and!; [done|done|]. split; [lia|]. destruct Hc; [by left|right; lia].
  - eapply wp_mono; [by apply (remove_wp m M)|]. intros [r m'] (-> & Hm' & Ec & Eu).
    split_and!; [done|done|]. split; [lia|]. rewrite Ec. destruct Hc; [by left|right; lia].
Qed.

Lemma run_ops_wp m M ops n : map_ok m M → sized m n → 0 ≤ n → n + zlen ops ≤ 2 ^ 56 →
  Forall op_ok ops →
  wp (run_ops m ops) (λ '(rs, m'), rs = (spec_ops M ops).1 ∧ map_ok m' (spec_ops M ops).2).
Proof.
  revert m M n. induction ops as [|op ops IH]; intros m M n Hm Hs Hn Hlen Hops; [done|].
  cbn [run_ops spec_ops length] in *. apply Forall_cons in Hops as [Hop Hops].
  wp_step. eapply wp_mono; [by apply (run_op_wp m M op n); [..|lia|]|].
  intros [r m'] (-> & Hm' & Hs'). wp_step.
  eapply wp_mono; [apply (IH m' (spec_op M op).2 (n + 1)); [done|done|lia|lia|done]|].
  intros [rs m''] (-> & Hm''). cbn [wp].
  destruct (spec_op M op) as [r M']. cbn in *. by destruct (spec_ops M' ops).
Qed.

(** C16. The hash maps implement finite maps: a map created for up to 2^56 keys
    answers every sequence of at most 2^56 insertions, lookups and removals (of
    readable keys that fit an entry) exactly as the finite map does, 0 standing
    for an absent key, through all growing and reuse of deleted slots, without
    undefined behaviour; afterwards the probing invariant relates the two. *)
Theorem hashmap_refines_gmap min_cap ops :
  min_cap ≤ 2 ^ 56 → zlen ops ≤ 2 ^ 56 → Forall op_ok ops →
  ∃ m0 m, hashmap_new junk min_cap = Ok m0 ∧
    run_ops m0 ops = Ok ((spec_ops ∅ ops).1, m) ∧ map_ok m (spec_ops ∅ ops).2.
Proof.
  intros Hmin Hlen Hops.
  destruct (wp_elim _ _ (new_wp min_cap ltac:(lia))) as (m0 & E0 & Hm0 & Hc & Hu).
  assert (sized m0 0) as Hs by (split; [lia|left; lia]).
  destruct (wp_elim _ _ (run_ops_wp m0 ∅ ops 0 Hm0 Hs ltac:(lia) ltac:(lia) Hops))
    as ([rs m] & E & -> & Hm).
  by exists m0, m.
Qed.

(** ** Lookups that match nothing *)
Lemma get_no_match m k :
  0 ≤ cap m → zlen (ctrl m) = cap m → zlen (entries m) = cap m → readable k →
  (∀ i, 0 ≤ i < cap m → 0 ≤ (ctrl m).[i] →
     stored (key ((entries m).[i])) ∧ keyat (entries m) i ≠ absk k) →
  hashmap_get m k = Ok 0.
Proof.
  intros Hc0 Hl Hle Hk Hno. unfold hashmap_get. destruct (Z.eqb_spec (cap m) 0) as [Hc|Hc]; [done|].
  rewrite key_hash_ok by done. cbn [mbind Res_bind].
  enough (wp (for_ctl 0 (cap m) (λ _ idx,
    c ← rd (ctrl m) idx;
    hit ← slot_matches m c (hash_tag (khash (absk k))) idx k;
    if hit : bool then e ← rd (entries m) idx; Ok (Return (val e)) else
    if c =? CTRL_EMPTY then Ok (Return 0) else
    Ok (Next ((idx + 1) mod cap m))) (hash_home (khash (absk k)) (cap m)))
    (λ r, match r with Fell _ => True | Gave v => v = 0 end)) as Hw.
  { apply wp_elim in Hw as ([x|x] & -> & Hx); cbn; [done|by rewrite Hx]. }
  apply (for_ctl_wp (λ _ idx, 0 ≤ idx < cap m)); [apply Z.mod_pos_bound; lia| |done].
  intros d idx Hd Hi. wp_step. rewrite rd_ok by lia. cbn [wp]. wp_step.
  unfold slot_matches. pose proof (hash_tag_range (khash (absk k))).
  assert ((if (ctrl m).[idx] =? hash_tag (khash (absk k))
           then e ← rd (entries m) idx; key_eq (key e) k else Ok false) = Ok false) as ->.
  { destruct (Z.eqb_spec ((ctrl m).[idx]) (hash_tag (khash (absk k)))) as [E|E]; [|done].
    destruct (Hno idx) as [Hs Hne]; [lia..|]. rewrite rd_ok by lia. cbn [mbind Res_bind].
    rewrite key_eq_ok by done. by rewrite bool_decide_false. }
  cbn [wp]. case_match; cbn [wp]; [done|]. apply Z.mod_pos_bound. lia.
Qed.

(** Inserting a key that does not fit an entry, when no stored key can equal it. *)
Lemma insert_unfit m M k v :
  map_ok m M → cap m ≤ 2 ^ 58 → readable k →
  (∀ s, stored s → absk s ≠ absk k) →
  ∃ m', hashmap_insert junk m k v = Ok m' ∧ hashmap_get m' k = Ok 0.
Proof.
  intros Hm Hbig Hk Hne. destruct (key_copy_ok k Hk) as (s & Hcopy & Hst & _).
  assert (wp (hashmap_insert junk m k v) (λ m', hashmap_get m' k = Ok 0)) as Hw;
    [|by apply wp_elim in Hw as (m' & ? & ?); exists m'].
  unfold hashmap_insert. wp_step. eapply wp_mono; [by apply make_room_wp|].
  intros m1 (Hm1 & Hgl & Hc & Hb & _ & _). pose proof (mo_tab_pos _ _ Hm1 Hc) as Ht.
  pose proof (tab_len _ _ _ _ Ht) as Hl. pose proof (tab_entries _ _ _ _ Ht) as Hle.
  pose proof (tab_cap _ _ _ _ Ht).
  rewrite key_hash_ok by done. cbn [mbind Res_bind]. wp_step.
  eapply wp_mono; [by apply (insert_probe_wp m1 M k s v)|].
  intros [[idx fd]|m'] Hend; [done|]. cbn [wp].
  destruct Hend as [(i & (Hi & Hf & Hka) & ->)|(Hn & e & He & Hg & Hf & ->)].
  { destruct (Hne (key ((entries m1).[i]))); [by apply (tab_stored _ _ _ _ Ht)|done]. }
  pose proof (slot_range (khash (absk k)) (cap m1) e ltac:(lia)) as Hj.
  apply get_no_match; cbn; [lia|by rewrite length_zset..|done|].
  intros i Hi. unfold keyat. rewrite !znth_zset by lia. case_decide; cbn; [auto|].
  intros Hfi. pose proof (tab_stored _ _ _ _ Ht i Hi Hfi). auto.
Qed.
End spec.

(** ** Integer keys *)
#[export] Instance int_key_laws : HashKeyLaws Z Z.
Proof.
  refine {| absk k := k; khash := hash_i64; readable _ := True; stored _ := True; fits _ := True |}.
  - done.
  - done.
  - intros s k _ _. cbn. f_equal. apply Bool.eq_iff_eq_true.
    by rewrite Z.eqb_eq, bool_decide_eq_true.
  - intros k _. by exists k.
Defined.

(** ** String keys

    A string stands for the characters before its terminator. *)
Fixpoint cstr (s : list Z) : list Z :=
  match s with [] => [] | c :: s => if c =? 0 then [] else c :: cstr s end.

Definition fnv (h : Z) (s : list Z) : Z :=
  foldl (λ h c, u64 (Z.lxor h (u8 c) * 0x100000001b3)) h s.

Lemma hash_string_from_ok h s : 0 ∈ s → hash_string_from h s = Ok (fnv h (cstr s)).
Proof.
  revert h. induction s as [|c s IH]; intros h Hs; [by apply elem_of_nil in Hs|].
  cbn. destruct (Z.eqb_spec c 0) as [->|Hc]; [done|]. cbn. apply IH.
  apply elem_of_cons in Hs as [?|?]; [lia|done].
Qed.

Lemma strcmp_eq_ok s t : 0 ∈ s → 0 ∈ t → strcmp_eq s t = Ok (bool_decide (cstr s = cstr t)).
Proof.
  revert t. induction s as [|c s IH]; intros [|d t] Hs Ht;
    try (by apply elem_of_nil in Hs); try (by apply elem_of_nil in Ht).
  cbn. apply elem_of_cons in Hs, Ht.
  destruct (Z.eqb_spec c d) as [->|Hcd]; cbn [negb].
  - destruct (Z.eqb_spec d 0) as [->|Hd]; [done|].
    rewrite IH; [|by destruct Hs..|by destruct Ht]. f_equal.
    apply bool_decide_ext. split; [by intros ->|by intros [= ->]].
  - f_equal. symmetry. apply bool_decide_eq_false.
    destruct (Z.eqb_spec c 0), (Z.eqb_spec d 0); congruence.
Qed.

Lemma strncpy_ok s n : 0 ∈ s →
  ∃ r, strncpy s n = Ok r ∧ length r = n ∧ cstr (r ++ [0]) = take n (cstr s).
Proof.
  revert n. induction s as [|c s IH]; intros n Hs; [by apply elem_of_nil in Hs|].
  destruct n as [|n]; [by exists []|]. cbn [strncpy cstr].
  destruct (Z.eqb_spec c 0) as [->|Hc].
  - exists (replicate (S n) 0). by rewrite length_replicate.
  - apply elem_of_cons in Hs as [?|Hs]; [lia|]. destruct (IH n Hs) as (r & -> & Hl & Hr).
    exists (c :: r). cbn. split_and!; [done|by rewrite Hl|].
    apply Z.eqb_neq in Hc. by rewrite Hc, Hr.
Qed.

Lemma cstr_length s : 0 ∈ s → (length (cstr s) < length s)%nat.
Proof.
  induction s as [|c s IH]; intros Hs; [by apply elem_of_nil in Hs|]. cbn.
  destruct (Z.eqb_spec c 0); cbn; [lia|]. apply elem_of_cons in Hs as [?|Hs]; [lia|].
  specialize (IH Hs). lia.
Qed.

#[export] Instance string_key_laws : HashKeyLaws (list Z) (list Z).
Proof.
  refine {| absk := cstr; khash := fnv 0xcbf29ce484222325; readable s := 0 ∈ s;
            stored s := 0 ∈ s ∧ zlen s = MAX_KEY_LEN;
            fits s := zlen (cstr s) < MAX_KEY_LEN |}.
  - intros k Hk. by apply hash_string_from_ok.
  - by intros k [Hk _].
  - intros s k [Hs _] Hk. by apply strcmp_eq_ok.
  - intros k Hk. destruct (strncpy_ok k 31 Hk) as (r & Hr & Hl & Hc).
    exists (r ++ [0]). cbn. unfold string_copy. change (Z.to_nat (MAX_KEY_LEN - 1)) with 31%nat.
    rewrite Hr. cbn. split_and!; [done| | |].
    + apply elem_of_app. right. by left.
    + rewrite length_app, Hl. done.
    + intros Hfit. rewrite Hc. apply take_ge. unfold MAX_KEY_LEN in Hfit. lia.
Defined.

(** A key of more than 31 characters is lost: [hashmap_insert] accepts it in
    any map, but stores only its first 31 characters, so that a lookup of the
    very key just inserted answers 0. *)
Theorem long_string_key_lost junk (m : HashMap (list Z)) M k v :
  map_ok m M → cap m ≤ 2 ^ 58 → 0 ∈ k → MAX_KEY_LEN ≤ zlen (cstr k) →
  ∃ m', str_hashmap_insert junk m k v = Ok m' ∧ str_hashmap_get m' k = Ok 0.
Proof.
  intros Hm Hbig Hk Hlen. apply (insert_unfit junk m M k v Hm Hbig Hk).
  intros s [Hs Hls] E. cbn in E. rewrite <- E in Hlen. apply cstr_length in Hs. lia.
Qed.

(** ** The benchmark *)
Section bench.
Context {K A : Type} `{!Inhabited K} `{!HashKey K} `{Countable A} `{!HashKeyLaws K A}.
Context (junk : nat → Entry K) (key_of : Z → K).
Hypothesis keys_ok : ∀ i, 0 ≤ i < 1000 → readable (key_of i) ∧ fits (key_of i).
Hypothesis keys_inj : ∀ i j, 0 ≤ i < 1000 → 0 ≤ j < 1000 →
  absk (key_of i) = absk (key_of j) → i = j.
#[local] Set Default Proof Using "Type*".

(** The map holds [f i] under the [i]-th key, for the [i] where it is defined. *)
Definition keyed (m : HashMap K) (n : Z) (f : Z → option Z) : Prop :=
  ∃ M, map_ok m M ∧ sized m n ∧ ∀ i, 0 ≤ i < 1000 → M !! absk (key_of i) = f i.

Lemma keyed_insert m n f i v : keyed m n f → 0 ≤ n ≤ 2 ^ 56 → 0 ≤ i < 1000 →
  wp (hashmap_insert junk m (key_of i) v)
     (λ m', keyed m' (n + 1) (λ j, if decide (j = i) then Some v else f j)).
Proof.
  intros (M & Hm & Hs & Hf) Hn Hi.
  pose proof (run_op_wp junk m M (OpInsert (key_of i) v) n Hm Hs Hn (keys_ok i Hi)) as Hw.
  apply wp_elim in Hw as ([r m'] & E & _ & Hm' & Hs'). cbn in E, Hm'.
  destruct (hashmap_insert junk m (key_of i) v) as [m''| |]; try discriminate E.
  injection E as _ ->. cbn [wp]. exists (<[absk (key_of i) := v]> M). split_and!; [done..|].
  intros j Hj. case_decide as Hji; [subst; by rewrite lookup_insert_eq|].
  rewrite lookup_insert_ne; [by apply Hf|]. intros ?. by destruct Hji; apply keys_inj.
Qed.

Lemma keyed_remove m n f i : keyed m n f → 0 ≤ n ≤ 2 ^ 56 → 0 ≤ i < 1000 →
  wp (hashmap_remove m (key_of i))
     (λ '(_, m'), keyed m' (n + 1) (λ j, if decide (j = i) then None else f j)).
Proof.
  intros (M & Hm & Hs & Hf) Hn Hi.
  pose proof (run_op_wp junk m M (OpRemove (key_of i)) n Hm Hs Hn (proj1 (keys_ok i Hi))) as Hw.
  cbn [run_op] in Hw. eapply wp_mono; [exact Hw|]. intros [r m'] (_ & Hm' & Hs').
  exists (delete (absk (key_of i)) M). split_and!; [done..|].
  intros j Hj. case_decide as Hji; [subst; by rewrite lookup_delete_eq|].
  rewrite lookup_delete_ne; [by apply Hf|]. intros ?. by destruct Hji; apply keys_inj.
Qed.

Lemma keyed_get m n f i : keyed m n f → 0 ≤ i < 1000 →
  wp (hashmap_get m (key_of i)) (λ v, v = default 0 (f i)).
Proof.
  intros (M & Hm & Hs & Hf) Hi. rewrite <- (Hf i Hi). apply get_wp; [done|].
  by apply keys_ok.
Qed.

Lemma keyed_ext m n f g : (∀ i, 0 ≤ i < 1000 → f i = g i) → keyed m n f → keyed m n g.
Proof.
  intros Hfg (M & Hm & Hs & Hf). exists M. split_and!; [done..|].
  intros i Hi. rewrite <- Hfg by done. by apply Hf.
Qed.

(** The sum of the first [i] looked-up values. *)
Fixpoint fsum (f : Z → option Z) (n : nat) : Z :=
  match n with O => 0 | S n => fsum f n + default 0 (f (Z.of_nat n)) end.

Lemma lookups_wp m n f c : keyed m n f → 0 ≤ c ≤ 2 ^ 50 →
  (∀ i, 0 ≤ i < 1000 → 0 ≤ default 0 (f i) ≤ 2 ^ 40) →
  wp (bench_lookups key_of m c) (λ s, s = c + fsum f 1000).
Proof.
  intros Hm Hc Hf. unfold bench_lookups.
  apply (for_range_wp (λ i s, s = c + fsum f (Z.to_nat i) ∧ c ≤ s ≤ c + i * 2 ^ 40)).
  - change (Z.to_nat 0) with 0%nat. cbn [fsum]. lia.
  - intros i s Hi [Hs Hr]. wp_step. eapply wp_mono; [by apply (keyed_get m n f)|].
    intros v ->. pose proof (Hf i Hi). rewrite i64_ok by (c_unfold; lia). cbn [wp].
    replace (Z.to_nat (i + 1)) with (S (Z.to_nat i)) by lia. cbn [fsum].
    rewrite Z2Nat.id by lia. lia.
  - intros s [-> _]. done.
Qed.

(** What the keys map to after the first insertions, and after the evens have
    been removed and inserted again. *)
Definition first_value (i : Z) : option Z := Some (i * 7).
Definition final_value (i : Z) : option Z :=
  Some (if Z.even i then i / 2 * 11 else i * 7).

Lemma even_half i j : 0 ≤ j → Z.even i = true → (i = j * 2 ↔ i / 2 = j).
Proof.
  intros Hj He. apply Z.even_spec in He as [k ->].
  rewrite Z.mul_comm, Z.div_mul by lia. lia.
Qed.

Lemma even_mul2 j : Z.even (j * 2) = true.
Proof. rewrite Z.even_mul. apply orb_true_r. Qed.

Lemma round_wp c : 0 ≤ c ≤ 2 ^ 49 →
  wp (bench_round junk key_of c)
     (λ s, s = c + fsum first_value 1000 + fsum final_value 1000).
Proof.
  intros Hc. unfold bench_round. wp_step.
  eapply wp_mono; [apply new_wp; lia|]. intros m0 (Hm0 & Hcap & Hu).
  (* insert every key *)
  wp_step. eapply wp_mono.
  { apply (for_range_wp (λ i m, keyed m i (λ j, if decide (j < i) then first_value j else None))
      0 1000 _ m0 (λ m, keyed m 1000 first_value)).
    - exists ∅. split_and!; [done|split; [lia|left; lia]|].
      intros i Hi. rewrite decide_False by lia. by rewrite lookup_empty.
    - intros i m Hi Hm. eapply wp_mono; [apply (keyed_insert _ _ _ _ _ Hm); lia|].
      intros m'. apply keyed_ext. intros j Hj. unfold first_value.
      repeat case_decide; subst; try done; lia.
    - intros m. apply keyed_ext. intros j Hj. by rewrite decide_True by lia. }
  intros m1 Hm1. wp_step. eapply wp_mono.
  { apply (lookups_wp _ _ _ _ Hm1); [lia|]. intros i Hi. cbn. lia. }
  intros s ->. assert (fsum first_value 1000 = 3496500) as Ef by (vm_compute; done).
  (* remove the even ones *)
  wp_step. eapply wp_mono.
  { apply (for_range_wp (λ i m, keyed m (1000 + i)
      (λ j, if decide (Z.even j ∧ j / 2 < i) then None else first_value j))
      0 500 _ m1 (λ m, keyed m 1500 (λ j, if Z.even j then None else first_value j))).
    - eapply keyed_ext; [|exact Hm1]. intros j Hj. rewrite decide_False; [done|].
      intros [_ ?]. pose proof (Z.div_pos j 2). lia.
    - intros i m Hi Hm. wp_step. eapply wp_mono; [apply (keyed_remove _ _ _ (i * 2) Hm); lia|].
      intros [r m'] Hm'. cbn [wp]. replace (1000 + (i + 1)) with (1000 + i + 1) by lia.
      revert Hm'. apply keyed_ext. intros j Hj.
      destruct (decide (j = i * 2)) as [->|Hne].
      + rewrite decide_True; [done|]. rewrite even_mul2, Z.div_mul by lia. split; [done|lia].
      + apply decide_ext. split; [intros [? ?]; split; [done|lia]|].
        intros [He ?]. split; [done|]. apply Is_true_true in He.
        pose proof (even_half j i). assert (j / 2 ≠ i) by tauto. lia.
    - intros m. apply keyed_ext. intros j Hj. destruct (Z.even j) eqn:He.
      + rewrite decide_True; [done|]. split; [done|]. apply Z.div_lt_upper_bound; lia.
      + by rewrite decide_False by (intros [? _]; done). }
  intros m2 Hm2.
  (* and put them back *)
  wp_step. eapply wp_mono.
  { apply (for_range_wp (λ i m, keyed m (1500 + i)
      (λ j, if decide (Z.even j ∧ i ≤ j / 2) then None else final_value j))
      0 500 _ m2 (λ m, keyed m 2000 final_value)).
    - eapply keyed_ext; [|exact Hm2]. intros j Hj. unfold final_value.
      destruct (Z.even j) eqn:He.
      + rewrite decide_True; [done|]. split; [done|]. apply Z.div_pos; lia.
      + by rewrite decide_False by (intros [? _]; done).
    - intros i m Hi Hm. eapply wp_mono; [apply (keyed_insert _ _ _ (i * 2) (i * 11) Hm); lia|].
      intros m' Hm'. replace (1500 + (i + 1)) with (1500 + i + 1) by lia.
      revert Hm'. apply keyed_ext. intros j Hj.
      destruct (decide (j = i * 2)) as [->|Hne].
      + unfold final_value. rewrite even_mul2, Z.div_mul by lia.
        rewrite decide_False; [done|]. intros [_ ?]. lia.
      + apply decide_ext. split; [|intros [? ?]; split; [done|lia]].
        intros [He ?]. split; [done|]. apply Is_true_true in He.
        pose proof (even_half j i). assert (j / 2 ≠ i) by tauto. lia.
    - intros m. apply keyed_ext. intros j Hj. rewrite decide_False; [done|].
      intros [_ ?]. pose proof (Z.div_lt_upper_bound j 2 500). lia. }
  intros m3 Hm3. eapply wp_mono.
  { apply (lookups_wp _ _ _ _ Hm3); [lia|]. intros i Hi. cbn. case_match; [|lia].
    pose proof (Z.div_pos i 2). pose proof (Z.div_lt_upper_bound i 2 500). lia. }
  intros s ->. lia.
Qed.
End bench.

(** The program of [hashmap_bench.c] runs without undefined behaviour and
    prints the checksum 6618750000, whatever [malloc] returns: each of its
    1000 rounds adds 6618750. *)
Theorem hashmap_bench_checksum junk : hashmap_bench_main junk = Ok 6618750000.
Proof.
  enough (wp (hashmap_bench_main junk) (λ s, s = 6618750000)) as Hw
    by (by apply wp_elim in Hw as (s & -> & ->)).
  unfold hashmap_bench_main.
  apply (for_range_wp (λ i s, s = i * 6618750)); [done| |].
  - intros i s Hi ->. eapply wp_mono; [apply round_wp|].
    + done.
    + done.
    + lia.
    + intros s ->. assert (fsum first_value 1000 = 3496500) as -> by (vm_compute; done).
      assert (fsum final_value 1000 = 3122250) as -> by (vm_compute; done). lia.
  - intros s ->. done.
Qed.

(** ** Applications *)
Lemma hashmap_refines_gmap_witness :
  let junk := λ _, {| key := 0; val := 0 |} in
  let ops := [OpInsert 5 7; OpInsert 6 8; OpGet 5; OpRemove 5; OpGet 5] in
  ∃ m0 m, hashmap_new junk 16 = Ok m0 ∧ run_ops junk m0 ops = Ok ([0; 0; 7; 1; 0], m) ∧
          map_ok m (spec_ops ∅ ops).2.
Proof.
  intros junk ops.
  replace [0; 0; 7; 1; 0] with (spec_ops (K := Z) ∅ ops).1 by (vm_compute; reflexivity).
  apply (hashmap_refines_gmap junk 16 ops); [done|done|]. repeat constructor.
Defined.

Lemma long_string_key_lost_witness :
  let junk := λ _, {| key := []; val := 0 |} in
  let m := {| ctrl := []; entries := []; len := 0; cap := 0; growth_left := 0 |} in
  let k := replicate 40 107 ++ [0] in
  str_hashmap_new junk 0 = Ok m ∧
  ∃ m', str_hashmap_insert junk m k 9 = Ok m' ∧ str_hashmap_get m' k = Ok 0.
Proof.
  intros junk m k. split; [reflexivity|].
  apply (long_string_key_lost junk m ∅ k 9); [|done| |done].
  - split; [by left|by exists 0|done..].
  - apply elem_of_app. right. by left.
Defined.
