(* ===== verification/LongestConsecutive.v ===== *)
(** * Longest consecutive run

    Models [benchmarks/longest_consecutive.c]: the open-addressing set of
    integers and the linear-time search built on it, and proves the search
    against its definition: the largest [l] such that [a, a+1, .., a+l-1] all
    occur in the array. *)
From S2P Require Import Prelude Probe.

Record HashSet := {
  ctrl : list Z; keys : list Z; len : Z; cap : Z; growth_left : Z }.

Section hashset.
Context (junk : nat → Z).
Implicit Types (set : HashSet).

Definition hashset_new (min_cap : Z) : Res HashSet :=
  cap ← round_cap min_cap;
  limit ← load_limit cap;
  Ok {| ctrl := replicate (Z.to_nat cap) CTRL_EMPTY; keys := malloc_arr junk cap;
        len := 0; cap := cap; growth_left := limit |}.

(** One old slot of [hashset_grow], which fills the new arrays in place. *)
Definition grow_step (old_ctrl old_keys : list Z) (i : Z) set : Res HashSet :=
  c ← rd old_ctrl i;
  if 0 <=? c then
    key ← rd old_keys i;
    let hash := hash_i64 key in
    idx ← find_empty (ctrl set) (cap set) (hash_home hash (cap set));
    ctrl ← wr (ctrl set) idx (hash_tag hash);
    keys ← wr (keys set) idx key;
    Ok {| ctrl := ctrl; keys := keys; len := len set + 1; cap := cap set;
          growth_left := growth_left set - 1 |}
  else Ok set.

Definition hashset_grow set : Res HashSet :=
  new_cap ← i64 (cap set * 2);
  limit ← load_limit new_cap;
  for_range 0 (cap set) (grow_step (ctrl set) (keys set))
    {| ctrl := replicate (Z.to_nat new_cap) CTRL_EMPTY; keys := malloc_arr junk new_cap;
       len := 0; cap := new_cap; growth_left := limit |}.

(** [set->ctrl[idx] == tag && set->keys[idx] == key]. *)
Definition key_at set (c tag idx key : Z) : Res bool :=
  if c =? tag then k ← rd (keys set) idx; Ok (k =? key) else Ok false.

Definition hashset_insert set (key : Z) : Res HashSet :=
  set ← (if growth_left set =? 0 then hashset_grow set else Ok set);
  let hash := hash_i64 key in
  r ← loop (S (Z.to_nat (cap set))) (λ idx,
        c ← rd (ctrl set) idx;
        if c =? CTRL_EMPTY then Ok (Break idx) else
        hit ← key_at set c (hash_tag hash) idx key;
        if hit : bool then Ok (Return set) else Ok (Next ((idx + 1) mod cap set)))
      (hash_home hash (cap set));
  match r with
  | Gave set => Ok set
  | Fell idx =>
      ctrl ← wr (ctrl set) idx (hash_tag hash);
      keys ← wr (keys set) idx key;
      Ok {| ctrl := ctrl; keys := keys; len := len set + 1; cap := cap set;
            growth_left := growth_left set - 1 |}
  end.

Definition hashset_contains set (key : Z) : Res bool :=
  if cap set =? 0 then Ok false else
  let hash := hash_i64 key in
  r ← for_ctl 0 (cap set) (λ _ idx,
        c ← rd (ctrl set) idx;
        if c =? CTRL_EMPTY then Ok (Return false) else
        hit ← key_at set c (hash_tag hash) idx key;
        if hit : bool then Ok (Return true) else Ok (Next ((idx + 1) mod cap set)))
      (hash_home hash (cap set));
  match r with Fell _ => Ok false | Gave b => Ok b end.

(** [while (hashset_contains(set, num + len)) len++]: a run in an array of [n]
    elements is at most [n] long, so [n + 1] turns are enough. *)
Definition run_length (fuel : nat) set (num : Z) : Res Z :=
  r ← loop fuel (λ len,
        k ← i64 (num + len);
        b ← hashset_contains set k;
        if b : bool then Ok (Next (len + 1)) else Ok (Break len)) 1;
  Ok (fell r).

Definition search_step (fuel : nat) set (nums : list Z) (i best : Z) : Res Z :=
  num ← rd nums i;
  k ← i64 (num - 1);
  b ← hashset_contains set k;
  if negb b then
    len ← run_length fuel set num;
    Ok (if best <? len then len else best)
  else Ok best.

Definition longest_consecutive (nums : list Z) : Res Z :=
  let n := zlen nums in
  if n =? 0 then Ok 0 else
  set ← hashset_new n;
  set ← for_range 0 n (λ i set, num ← rd nums i; hashset_insert set num) set;
  for_range 0 n (search_step (S (length nums)) set nums) 0.

(** The benchmark program: [n] pseudo-random numbers, [rounds] times. *)
Definition fill_nums (round : Z) (nums : list Z) : Res (list Z) :=
  let n := zlen nums in
  for_range 0 n (λ i nums,
    a ← i64 (i * 1103515245);
    wr nums i (Z.rem (a + 12345 + round) (n * 10))) nums.

Definition longest_consecutive_main : Res Z :=
  '(total, _) ← for_range 0 100 (λ round '(total, nums),
    nums ← fill_nums round nums;
    l ← longest_consecutive nums;
    total ← i64 (total + l); Ok (total, nums)) (0, malloc_arr junk 100000);
  Ok total.
End hashset.

(** ** The set refines a finite set *)
Section spec.
Context (junk : nat → Z).
Implicit Types (s : HashSet) (X : gset Z).

Definition keyat (ks : list Z) (i : Z) : Z := ks.[i].

Record set_ok s X : Prop := {
  so_table : table_ok hash_i64 (ctrl s) (keyat (keys s)) (cap s);
  so_keys : zlen (keys s) = cap s;
  so_cap : (8 | cap s);
  so_no_deleted i : 0 ≤ i < cap s → (ctrl s).[i] ≠ CTRL_DELETED;
  so_growth : growth_left s + countb is_used (ctrl s) = cap s * 7 / 8;
  so_growth_pos : 0 ≤ growth_left s;
  so_abs a : a ∈ X ↔ ∃ i, holds (ctrl s) (keyat (keys s)) (cap s) a i;
}.

Lemma so_bounds s X : set_ok s X →
  0 < cap s ∧ zlen (ctrl s) = cap s ∧ countb is_used (ctrl s) < cap s.
Proof.
  intros Hs. pose proof (t_cap _ _ _ _ (so_table _ _ Hs)).
  pose proof (t_len _ _ _ _ (so_table _ _ Hs)). pose proof (so_growth _ _ Hs).
  pose proof (so_growth_pos _ _ Hs). split_and!; [done..|].
  assert (cap s * 7 / 8 < cap s) by (apply Z.div_lt_upper_bound; lia). lia.
Qed.

Lemma so_none s X a : set_ok s X →
  (∀ i, ¬ holds (ctrl s) (keyat (keys s)) (cap s) a i) ↔ a ∉ X.
Proof. intros Hs. rewrite (so_abs _ _ Hs). naive_solver. Qed.

(** The next store of an absent key. *)
Lemma set_store s X a d :
  set_ok s X → 0 < growth_left s → a ∉ X → 0 ≤ d < cap s →
  no_gap (ctrl s) (cap s) (hash_i64 a) d →
  (ctrl s).[slot (hash_i64 a) (cap s) d] = CTRL_EMPTY →
  set_ok {| ctrl := zset (ctrl s) (slot (hash_i64 a) (cap s) d) (hash_tag (hash_i64 a));
            keys := zset (keys s) (slot (hash_i64 a) (cap s) d) a;
            len := len s + 1; cap := cap s; growth_left := growth_left s - 1 |} ({[a]} ∪ X).
Proof.
  intros Hs Hgl Ha Hd Hg He. destruct (so_bounds _ _ Hs) as (Hcap & Hl & Hu).
  pose proof (so_keys _ _ Hs) as Hk. set (j := slot _ _ _) in *.
  assert (0 ≤ j < cap s) as Hj by by apply slot_range.
  assert (∀ i, 0 ≤ i < cap s → keyat (zset (keys s) j a) i =
            if decide (i = j) then a else keyat (keys s) i) as Hkey.
  { intros i Hi. unfold keyat. rewrite znth_zset by lia. by apply decide_ext. }
  assert (table_ok hash_i64 (zset (ctrl s) j (hash_tag (hash_i64 a)))
            (keyat (zset (keys s) j a)) (cap s)) as Ht.
  { apply (table_store hash_i64 _ (keyat (keys s))); [apply Hs|done|done| | |done].
    - fold j. rewrite He. done.
    - by apply (so_none _ _ _ Hs). }
  split; cbn.
  - done.
  - by rewrite length_zset.
  - apply Hs.
  - intros i Hi. rewrite znth_zset by lia. pose proof (hash_tag_range (hash_i64 a)).
    case_decide; [unfold CTRL_DELETED; lia|by apply Hs].
  - rewrite countb_zset, is_used_tag, He by lia. cbn. rewrite <- (so_growth _ _ Hs). lia.
  - lia.
  - intros b. rewrite elem_of_union, elem_of_singleton. destruct (decide (b = a)) as [->|Hb].
    + split; [intros _|by left]. exists j. unfold holds. rewrite Hkey, znth_zset_eq by lia.
      rewrite decide_True by done. pose proof (hash_tag_range (hash_i64 a)). split_and!; lia || done.
    + rewrite (so_abs _ _ Hs). split.
      * intros [?|(i & Hi & Hf & Hka)]; [done|]. exists i. unfold holds.
        rewrite Hkey, znth_zset by lia.
        destruct (decide (j = i)) as [<-|]; [rewrite He in Hf; unfold CTRL_EMPTY in Hf; lia|].
        by rewrite decide_False by congruence.
      * intros (i & Hi & Hf & Hka). right. exists i. rewrite Hkey in Hka by done.
        rewrite znth_zset in Hf by lia. case_decide; [by destruct Hb|].
        rewrite decide_False in Hf by congruence. exact (conj Hi (conj Hf Hka)).
Qed.

Lemma set_fresh c : 0 < c → (8 | c) →
  set_ok {| ctrl := replicate (Z.to_nat c) CTRL_EMPTY; keys := malloc_arr junk c; len := 0;
            cap := c; growth_left := c * 7 / 8 |} ∅.
Proof.
  intros Hc H8.
  assert (∀ i, 0 ≤ i < c → (replicate (Z.to_nat c) CTRL_EMPTY).[i] = CTRL_EMPTY) as E.
  { intros i Hi. apply znth_replicate. lia. }
  split; cbn.
  - by apply empty_table_ok.
  - rewrite length_malloc. lia.
  - done.
  - intros i Hi. by rewrite E.
  - destruct (full_used_replicate (Z.to_nat c)) as [_ ->]. lia.
  - apply Z.div_pos; lia.
  - intros a. split; [by intros ?%not_elem_of_empty|]. intros (i & Hi & Hf & _).
    rewrite E in Hf by done. unfold CTRL_EMPTY in Hf. lia.
Qed.

(** ** Scanning *)
#[local] Instance holds_dec c ks cap a i : Decision (holds c (keyat ks) cap a i).
Proof. unfold holds. apply _. Defined.

Lemma key_at_ok s X a i : set_ok s X → 0 ≤ i < cap s →
  key_at s ((ctrl s).[i]) (hash_tag (hash_i64 a)) i a =
  Ok (bool_decide (holds (ctrl s) (keyat (keys s)) (cap s) a i)).
Proof.
  intros Hs Hi. pose proof (so_keys _ _ Hs). unfold key_at.
  pose proof (hash_tag_range (hash_i64 a)).
  destruct (Z.eqb_spec ((ctrl s).[i]) (hash_tag (hash_i64 a))) as [E|E].
  - rewrite rd_ok by lia. cbn [mbind Res_bind]. f_equal. apply Bool.eq_iff_eq_true.
    rewrite Z.eqb_eq, bool_decide_eq_true. unfold holds, keyat. rewrite E. intuition lia.
  - f_equal. symmetry. apply bool_decide_eq_false. intros (_ & Hf & Hka). apply E.
    rewrite <- Hka. by apply (t_tag _ _ _ _ (so_table _ _ Hs)).
Qed.

(** After [d] probes without a hit. *)
Definition scanned s (a d idx : Z) : Prop :=
  idx = slot (hash_i64 a) (cap s) d ∧ no_gap (ctrl s) (cap s) (hash_i64 a) d ∧
  ∀ d', 0 ≤ d' < d →
    ¬ holds (ctrl s) (keyat (keys s)) (cap s) a (slot (hash_i64 a) (cap s) d').

Lemma scanned_0 s a : 0 < cap s → scanned s a 0 (hash_home (hash_i64 a) (cap s)).
Proof. intros. split_and!; [by rewrite slot_0|intros d' ?; lia|intros d' ?; lia]. Qed.

Lemma scanned_next s a d idx : 0 < cap s → scanned s a d idx →
  ¬ holds (ctrl s) (keyat (keys s)) (cap s) a idx → (ctrl s).[idx] ≠ CTRL_EMPTY →
  scanned s a (d + 1) ((idx + 1) mod cap s).
Proof.
  intros Hc (-> & Hg & Hn) Hh He. split_and!; [by rewrite slot_next| |].
  - intros d' Hd'. destruct (decide (d' = d)) as [->|]; [done|]. apply Hg. lia.
  - intros d' Hd'. destruct (decide (d' = d)) as [->|]; [done|]. apply Hn. lia.
Qed.

Lemma scanned_absent s X a d idx : set_ok s X → 0 ≤ d → scanned s a d idx →
  (ctrl s).[idx] = CTRL_EMPTY → a ∉ X.
Proof.
  intros Hs Hd (-> & Hg & Hn) He. apply (so_none _ _ _ Hs).
  eapply absent_at_gap; [apply Hs|done|done|done].
Qed.

Lemma set_gap s X x : set_ok s X →
  ∃ d, 0 ≤ d < cap s ∧ (ctrl s).[slot x (cap s) d] = CTRL_EMPTY ∧ no_gap (ctrl s) (cap s) x d.
Proof.
  intros Hs. apply (gap_exists hash_i64 _ (keyat (keys s))); [apply Hs|].
  by destruct (so_bounds _ _ Hs) as (_ & _ & ?).
Qed.

Lemma contains_wp s X a : set_ok s X →
  wp (hashset_contains s a) (λ b, b = bool_decide (a ∈ X)).
Proof.
  intros Hs. destruct (so_bounds _ _ Hs) as (Hcap & Hl & _).
  unfold hashset_contains. rewrite (proj2 (Z.eqb_neq _ _)) by lia. wp_step.
  apply (for_ctl_wp (λ d idx, scanned s a d idx)); [by apply scanned_0| |].
  - intros d idx Hd Hp. assert (0 ≤ idx < cap s) as Hi.
    { destruct Hp as (-> & _). by apply slot_range. }
    wp_step. rewrite rd_ok by lia. cbn [wp].
    destruct (Z.eqb_spec ((ctrl s).[idx]) CTRL_EMPTY) as [He|He]; cbn [wp].
    + rewrite bool_decide_false; [done|]. apply (scanned_absent s X a d idx); done || lia.
    + wp_step. rewrite (key_at_ok s X) by done. cbn [wp]. case_bool_decide as Hh; cbn [wp].
      * rewrite bool_decide_true; [done|]. apply (so_abs _ _ Hs). by exists idx.
      * by apply scanned_next.
  - intros idx (_ & Hg & _). rewrite Z.max_r in Hg by lia.
    destruct (set_gap s X (hash_i64 a) Hs) as (d & Hd & He & _). by destruct (Hg d).
Qed.

(** ** Growing re-inserts every key *)
Section grow.
Context (oc oks : list Z) (ocap L : Z).
Hypothesis Ho : table_ok hash_i64 oc (keyat oks) ocap.
Hypothesis Hoks : zlen oks = ocap.
Hypothesis HL : countb is_full oc < L.

(** The new set [s] holds the keys of the old slots below [i]. *)
Definition grown (c i : Z) s : Prop :=
  ∃ X, set_ok s X ∧ cap s = c ∧
    growth_left s + countb is_full (take (Z.to_nat i) oc) = L ∧
    (∀ a, a ∈ X ↔ ∃ j, j < i ∧ holds oc (keyat oks) ocap a j).

Lemma hs_grow_step_wp s c i : grown c i s → 0 ≤ i < ocap →
  wp (grow_step oc oks i s) (grown c (i + 1)).
Proof using Ho Hoks HL.
  intros (X & Hs & Hc & Hroom & Hbel) Hi. pose proof (t_len _ _ _ _ Ho) as Hol.
  destruct (so_bounds _ _ Hs) as (Hcap & Hl & _). pose proof (so_keys _ _ Hs) as Hk.
  unfold grow_step. wp_step. rewrite rd_ok by lia. cbn [wp].
  destruct (Z.leb_spec 0 (oc.[i])) as [Hf|Hf].
  - wp_step. rewrite rd_ok by lia. cbn [wp]. set (a := oks.[i]). wp_step.
    assert (countb is_full (take (Z.to_nat (i + 1)) oc) =
            countb is_full (take (Z.to_nat i) oc) + 1) as Ec.
    { rewrite countb_take by lia. by rewrite is_full_true by done. }
    pose proof (countb_take_le is_full oc (Z.to_nat (i + 1))).
    assert (a ∉ X) as Ha.
    { intros (j & Hj & Hj1 & Hj2 & Hj3)%Hbel. assert (j = i); [|lia].
      by apply (t_uniq _ _ _ _ Ho). }
    destruct (set_gap s X (hash_i64 a) Hs) as (D & HD & HE & _).
    eapply wp_mono; [apply find_empty_wp; [done|done|by exists D]|].
    intros j (d & Hd & -> & Hg & He). pose proof (slot_range (hash_i64 a) (cap s) d Hcap).
    wp_step. rewrite wr_ok by lia. cbn [wp]. wp_step. rewrite wr_ok by lia. cbn [wp].
    exists ({[a]} ∪ X). split_and!; [apply set_store; done || lia|done|cbn; lia|].
    intros b. rewrite elem_of_union, elem_of_singleton, Hbel. split.
    + intros [->|(j & Hj & Hh)]; [|exists j; split; [lia|done]].
      exists i. split; [lia|]. done.
    + intros (j & Hj & Hh). destruct (decide (j = i)) as [->|].
      * left. symmetry. apply Hh.
      * right. exists j. split; [lia|done].
  - cbn [wp]. exists X. split_and!; [done|done| |].
    + rewrite countb_take, is_full_false by lia. cbn. lia.
    + intros a. rewrite Hbel. apply exist_proper. intros j.
      destruct (decide (j = i)) as [->|]; [|intuition lia].
      split; [lia|]. intros (_ & _ & ? & _). lia.
Qed.
End grow.

Lemma hs_grow_wp s X : set_ok s X → growth_left s = 0 → cap s ≤ 2 ^ 59 →
  wp (hashset_grow junk s) (λ s', set_ok s' X ∧ 0 < growth_left s' ∧ cap s' = cap s * 2 ∧
    countb is_used (ctrl s') ≤ countb is_used (ctrl s)).
Proof.
  intros Hs Hgl Hbig. destruct (so_bounds _ _ Hs) as (Hcap & Hl & Hu).
  pose proof (so_growth _ _ Hs) as Hg. destruct (so_cap _ _ Hs) as [q Hq].
  replace (cap s * 7 / 8) with (q * 7) in Hg by (rewrite Hq; apply Z.div_unique_exact; lia).
  assert (countb is_full (ctrl s) ≤ countb is_used (ctrl s)) as Hfu.
  { apply countb_le. intros c Hc%Z.leb_le. by apply is_used_true. }
  assert (cap s * 2 * 7 / 8 = q * 14) as Hlim.
  { rewrite Hq. symmetry. apply Z.div_unique_exact; lia. }
  unfold hashset_grow. wp_step. rewrite i64_ok by (c_unfold; lia). cbn [wp]. wp_step.
  rewrite load_limit_ok by (c_unfold; lia). cbn [wp].
  apply (for_range_wp (grown (ctrl s) (keys s) (cap s) (q * 14) (cap s * 2))).
  - exists ∅. split_and!; [apply set_fresh; [lia|exists (q * 2); lia]|done|cbn [growth_left]; rewrite Hlim, take_0; cbn [countb]; lia|].
    intros a. split; [by intros ?%not_elem_of_empty|]. intros (j & ? & (? & _)). lia.
  - intros i s' Hi Hs'. apply hs_grow_step_wp; [apply Hs|apply (so_keys _ _ Hs)|lia|done|lia].
  - intros s' (X' & Hs' & Hc' & Hroom & Hbel). rewrite Z.max_r in * by lia.
    assert (X' = X) as ->.
    { apply set_eq. intros a. rewrite Hbel, (so_abs _ _ Hs). apply exist_proper. intros j.
      split; [tauto|]. intros Hh. split; [apply Hh|done]. }
    pose proof (countb_take_le is_full (ctrl s) (Z.to_nat (cap s))).
    pose proof (so_growth _ _ Hs') as Hg'. rewrite Hc', Hlim in Hg'.
    split_and!; [done|lia|done|lia].
Qed.

Lemma hs_insert_wp s X a : set_ok s X → cap s ≤ 2 ^ 58 →
  wp (hashset_insert junk s a) (λ s', set_ok s' ({[a]} ∪ X) ∧
    (cap s' = cap s ∨ cap s' = cap s * 2 ∧ cap s * 7 / 8 ≤ countb is_used (ctrl s)) ∧
    countb is_used (ctrl s') ≤ countb is_used (ctrl s) + 1).
Proof.
  intros Hs Hbig. unfold hashset_insert. wp_step.
  assert (wp (if growth_left s =? 0 then hashset_grow junk s else Ok s) (λ s',
    set_ok s' X ∧ 0 < growth_left s' ∧
    (cap s' = cap s ∨ cap s' = cap s * 2 ∧ cap s * 7 / 8 ≤ countb is_used (ctrl s)) ∧
    countb is_used (ctrl s') ≤ countb is_used (ctrl s))) as Hroom.
  { destruct (Z.eqb_spec (growth_left s) 0) as [E|E].
    - eapply wp_mono; [by apply (hs_grow_wp s X); [..|lia]|].
      intros s' (? & ? & ? & ?). split_and!; [done..| |done]. right.
      pose proof (so_growth _ _ Hs). lia.
    - cbn [wp]. pose proof (so_growth_pos _ _ Hs). split_and!; [done|lia|by left|lia]. }
  eapply wp_mono; [exact Hroom|]. clear Hroom. intros s1 (Hs1 & Hgl & Hc1 & Hu1).
  destruct (so_bounds _ _ Hs1) as (Hcap & Hl & _). pose proof (so_keys _ _ Hs1) as Hk.
  wp_step. lazymatch goal with |- wp (loop _ ?b _) _ => set (body := b) end.
  assert (∀ n d idx, 0 ≤ d → scanned s1 a d idx → (Z.to_nat (cap s1 - d) < n)%nat →
    wp (loop n body idx) (λ r, match r with
      | Gave s' => s' = s1 ∧ a ∈ X
      | Fell idx => a ∉ X ∧ ∃ d, 0 ≤ d < cap s1 ∧ idx = slot (hash_i64 a) (cap s1) d ∧
          no_gap (ctrl s1) (cap s1) (hash_i64 a) d ∧ (ctrl s1).[idx] = CTRL_EMPTY
      end)) as Hloop.
  { intros n. induction n as [|n IH]; intros d idx Hd Hp Hn; [lia|]. cbn [loop].
    assert (d < cap s1) as Hdc.
    { destruct (set_gap s1 X (hash_i64 a) Hs1) as (e & He & HE & _).
      destruct (decide (d < cap s1)); [done|]. destruct Hp as (_ & Hg & _).
      destruct (Hg e); [lia|done]. }
    assert (0 ≤ idx < cap s1) as Hi. { destruct Hp as (-> & _). by apply slot_range. }
    wp_step. unfold body at 1. wp_step. rewrite rd_ok by lia. cbn [wp].
    destruct (Z.eqb_spec ((ctrl s1).[idx]) CTRL_EMPTY) as [He|He]; cbn [wp].
    - split; [by apply (scanned_absent s1 X a d idx)|]. exists d.
      destruct Hp as (-> & Hg & _). by split_and!.
    - wp_step. rewrite (key_at_ok s1 X) by done. cbn [wp]. case_bool_decide as Hh; cbn [wp].
      + split; [done|]. apply (so_abs _ _ Hs1). by exists idx.
      + apply (IH (d + 1)); [lia|by apply scanned_next|lia]. }
  eapply wp_mono; [apply (Hloop _ 0); [done|by apply scanned_0|lia]|].
  intros [idx|s'].
  - intros (Ha & d & Hd & -> & Hg & He). pose proof (slot_range (hash_i64 a) (cap s1) d Hcap).
    wp_step. rewrite wr_ok by lia. cbn [wp]. wp_step. rewrite wr_ok by lia. cbn [wp].
    pose proof (set_store s1 X a d Hs1 Hgl Ha Hd Hg He) as Hset.
    split_and!; [done|done|]. pose proof (so_growth _ _ Hset) as Hgs.
    pose proof (so_growth _ _ Hs1). cbn in *. lia.
  - intros [-> Ha]. cbn [wp]. replace ({[a]} ∪ X) with X by set_solver.
    split_and!; [done|done|lia].
Qed.

Lemma hs_new_wp min_cap : 0 < min_cap ≤ 2 ^ 58 →
  wp (hashset_new junk min_cap) (λ s, set_ok s ∅ ∧ cap s ≤ Z.max 8 (2 * min_cap) ∧
    countb is_used (ctrl s) = 0).
Proof.
  intros Hmin. unfold hashset_new. wp_step. eapply wp_mono; [by apply round_cap_wp|].
  intros c (H8 & Hlo & Hc). wp_step. rewrite load_limit_ok by (c_unfold; lia). cbn [wp].
  split_and!; [by apply set_fresh; [lia|]|cbn; lia|apply full_used_replicate].
Qed.

(** All numbers of an array are in the set after the insertions. *)
Lemma hs_insert_all_wp nums : 0 < zlen nums ≤ 2 ^ 56 →
  wp (set ← hashset_new junk (zlen nums);
      for_range 0 (zlen nums) (λ i set, num ← rd nums i; hashset_insert junk set num) set)
     (λ s, set_ok s (list_to_set nums)).
Proof.
  intros Hn. wp_step. eapply wp_mono; [apply hs_new_wp; lia|]. intros s0 (Hs0 & Hc0 & Hu0).
  apply (for_range_wp (λ i s, set_ok s (list_to_set (take (Z.to_nat i) nums)) ∧
    countb is_used (ctrl s) ≤ i ∧ (cap s ≤ 2 ^ 57 ∨ 7 * cap s ≤ 16 * i))).
  - split_and!; [done|lia|left; lia].
  - intros i s Hi (Hs & Hu & Hc). wp_step. rewrite rd_ok by lia. cbn [wp].
    eapply wp_mono; [apply hs_insert_wp; [done|lia]|]. intros s' (Hs' & Hc' & Hu').
    split_and!; [|lia|].
    + replace (Z.to_nat (i + 1)) with (S (Z.to_nat i)) by lia.
      rewrite (take_S_r _ _ (nums.[i])) by (by apply znth_lookup; lia).
      rewrite list_to_set_app_L. cbn. by rewrite union_empty_r_L, union_comm_L.
    + destruct Hc' as [->|[-> Hg]]; [lia|]. right. destruct (so_cap _ _ Hs) as [q Hq].
      replace (cap s * 7 / 8) with (q * 7) in Hg by (rewrite Hq; apply Z.div_unique_exact; lia).
      lia.
  - intros s (Hs & _). rewrite Z.max_r, Nat2Z.id, firstn_all in Hs by lia. done.
Qed.

(** ** The search *)

(** [a, a+1, .., a+l-1] all occur in the array. *)
Definition is_run (nums : list Z) (a l : Z) : Prop := ∀ j, 0 ≤ j < l → a + j ∈ nums.

Lemma run_bound nums a l : is_run nums a l → l ≤ zlen nums.
Proof.
  intros Hr. destruct (decide (0 ≤ l)) as [Hl|]; [|lia].
  assert (length (seqZ a l) ≤ length nums)%nat as Hle.
  { apply submseteq_length, NoDup_submseteq; [apply NoDup_seqZ|].
    intros x Hx. apply elem_of_seqZ in Hx. replace x with (a + (x - a)) by lia. apply Hr. lia. }
  rewrite length_seqZ in Hle. lia.
Qed.

Lemma run_length_wp s nums a :
  set_ok s (list_to_set nums) → a ∈ nums → (∀ x, x ∈ nums → LONG_MIN < x < LONG_MAX) →
  zlen nums ≤ 2 ^ 56 →
  wp (run_length (S (length nums)) s a) (λ l, is_run nums a l ∧ a + l ∉ nums ∧ 1 ≤ l).
Proof.
  intros Hs Ha Hb Hlen. unfold run_length. wp_step.
  apply (loop_wp (λ l, is_run nums a l ∧ 1 ≤ l) (λ l, Z.to_nat (zlen nums + 1 - l))).
  - split; [|lia]. intros j Hj. by replace (a + j) with a by lia.
  - lia.
  - intros l [Hr Hl]. pose proof (run_bound _ _ _ Hr) as Hrb.
    pose proof (Hb (a + (l - 1)) ltac:(apply Hr; lia)) as Hlast.
    wp_step. rewrite i64_ok by (c_unfold; lia). cbn [wp]. wp_step.
    eapply wp_mono; [by apply contains_wp|]. intros b ->.
    case_bool_decide as Hin; rewrite elem_of_list_to_set in Hin; cbn [wp fell].
    + assert (is_run nums a (l + 1)) as Hr'.
      { intros j Hj. destruct (decide (j = l)) as [->|]; [done|]. apply Hr. lia. }
      pose proof (run_bound _ _ _ Hr'). split; [by split; [|lia]|]. lia.
    + done.
Qed.

(** The best run that starts at one of the first [i] numbers. *)
Definition best_below (nums : list Z) (i best : Z) : Prop :=
  0 ≤ best ∧ (∃ a, is_run nums a best) ∧
  ∀ j a l, 0 ≤ j < i → a = nums.[j] → a - 1 ∉ nums → is_run nums a l → l ≤ best.

Lemma search_step_wp s nums i best :
  set_ok s (list_to_set nums) → (∀ x, x ∈ nums → LONG_MIN < x < LONG_MAX) →
  zlen nums ≤ 2 ^ 56 → 0 ≤ i < zlen nums → best_below nums i best →
  wp (search_step (S (length nums)) s nums i best) (best_below nums (i + 1)).
Proof.
  intros Hs Hb Hlen Hi (Hpos & [a0 Ha0] & Hbest). unfold search_step.
  wp_step. rewrite rd_ok by lia. cbn [wp]. set (a := nums.[i]).
  assert (a ∈ nums) as Ha.
  { apply (list_elem_of_lookup_2 _ (Z.to_nat i)). by apply znth_lookup. }
  pose proof (Hb a Ha). wp_step. rewrite i64_ok by (c_unfold; lia). cbn [wp]. wp_step.
  eapply wp_mono; [by apply contains_wp|]. intros b ->.
  case_bool_decide as Hin; rewrite elem_of_list_to_set in Hin; cbn [negb].
  - cbn [wp]. split_and!; [done|by exists a0|]. intros j b l Hj -> Hstart Hr.
    destruct (decide (j = i)) as [->|]; [done|]. eapply (Hbest j); [lia|done..].
  - wp_step. eapply wp_mono; [by apply (run_length_wp s nums a)|].
    intros l (Hr & Hend & Hl). cbn [wp].
    assert (∀ l', is_run nums a l' → l' ≤ l) as Hmax.
    { intros l' Hr'. destruct (decide (l < l')); [|lia]. destruct Hend. apply Hr'. lia. }
    destruct (Z.ltb_spec best l); split_and!; try lia.
    + by exists a.
    + intros j b l' Hj -> Hstart Hr'. destruct (decide (j = i)) as [->|]; [by apply Hmax|].
      transitivity best; [|lia]. eapply (Hbest j); [lia|done..].
    + by exists a0.
    + intros j b l' Hj -> Hstart Hr'. destruct (decide (j = i)) as [->|].
      * pose proof (Hmax l' Hr'). lia.
      * eapply (Hbest j); [lia|done..].
Qed.

(** Every run extends to one that starts where no predecessor occurs. *)
Lemma run_start nums a l : is_run nums a l → 0 < l →
  ∃ j l', 0 ≤ j < zlen nums ∧ nums.[j] - 1 ∉ nums ∧ is_run nums (nums.[j]) l' ∧ l ≤ l'.
Proof.
  remember (Z.to_nat (zlen nums - l)) as n eqn:En. revert a l En.
  induction n as [n IH] using lt_wf_ind. intros a l En Hr Hl.
  pose proof (run_bound _ _ _ Hr) as Hb.
  destruct (decide (a - 1 ∈ nums)) as [Hp|Hp].
  - assert (is_run nums (a - 1) (l + 1)) as Hr'.
    { intros j Hj. destruct (decide (j = 0)) as [->|]; [by rewrite Z.add_0_r|].
      replace (a - 1 + j) with (a + (j - 1)) by lia. apply Hr. lia. }
    pose proof (run_bound _ _ _ Hr').
    destruct (IH (Z.to_nat (zlen nums - (l + 1))) ltac:(lia) (a - 1) (l + 1) eq_refl Hr' ltac:(lia))
      as (j & l' & ? & ? & ? & ?). exists j, l'. split_and!; lia || done.
  - assert (a ∈ nums) as Ha by (replace a with (a + 0) by lia; apply Hr; lia).
    apply list_elem_of_lookup_1 in Ha as [k Hk]. pose proof (lookup_lt_Some _ _ _ Hk).
    exists (Z.of_nat k), l. rewrite Nat2Z.id, (list_lookup_total_correct _ _ _ Hk).
    split_and!; lia || done.
Qed.
End spec.

(** C33. [longest_consecutive] on an array of at most 2^56 numbers strictly
    between [INT64_MIN] and [INT64_MAX] terminates without undefined behaviour
    and returns the length of the longest run of consecutive numbers occurring
    in it: some run has that length and none is longer.  In particular the set
    it builds, with all its growing, contains exactly the array's numbers. *)
Theorem longest_consecutive_correct junk nums :
  zlen nums ≤ 2 ^ 56 → (∀ x, x ∈ nums → LONG_MIN < x < LONG_MAX) →
  ∃ best, longest_consecutive junk nums = Ok best ∧
    (∃ a, is_run nums a best) ∧ ∀ a l, is_run nums a l → l ≤ best.
Proof.
  intros Hlen Hb.
  enough (wp (longest_consecutive junk nums) (best_below nums (zlen nums))) as Hw.
  { apply wp_elim in Hw as (best & E & Hpos & Ha & Hbest). exists best.
    split_and!; [done|done|]. intros a l Hr. destruct (decide (0 < l)); [|lia].
    destruct (run_start _ _ _ Hr) as (j & l' & Hj & Hs & Hr' & ?); [done|].
    transitivity l'; [done|]. by eapply (Hbest j). }
  unfold longest_consecutive. destruct (Z.eqb_spec (zlen nums) 0) as [E|E]; cbn [wp].
  { split_and!; [done| |intros; lia]. exists 0. intros j Hj. lia. }
  wp_step. pose proof (hs_insert_all_wp junk nums ltac:(lia)) as Hall.
  destruct (hashset_new junk (zlen nums)) as [s0| |]; cbn [mbind Res_bind] in Hall; [|done..].
  cbn [wp]. wp_step. eapply wp_mono; [exact Hall|]. intros s Hs. cbn beta.
  apply (for_range_wp (best_below nums)).
  - split_and!; [done| |intros; lia]. exists 0. intros j Hj. lia.
  - intros i best Hi. by apply search_step_wp.
  - intros best. by rewrite Z.max_r by lia.
Qed.

Lemma longest_consecutive_correct_witness :
  ∃ best, longest_consecutive (λ _, 0) [100; 4; 200; 1; 3; 2] = Ok best ∧ best = 4 ∧
    (∃ a, is_run [100; 4; 200; 1; 3; 2] a best) ∧
    ∀ a l, is_run [100; 4; 200; 1; 3; 2] a l → l ≤ best.
Proof.
  destruct (longest_consecutive_correct (λ _, 0) [100; 4; 200; 1; 3; 2]) as (best & E & H1 & H2).
  - done.
  - intros x Hx. c_unfold. repeat (apply elem_of_cons in Hx as [->|Hx]; [lia|]).
    by apply elem_of_nil in Hx.
  - exists best. split; [exact E|]. split; [|by split].
    vm_compute in E. by injection E as <-.
Defined.

(** The predecessor of [INT64_MIN] overflows. *)
Example longest_consecutive_overflow : longest_consecutive (λ _, 0) [LONG_MIN] = Undef.
Proof. vm_compute. done. Qed.
