(* ===== verification/Lru.v ===== *)
(** * The LRU cache

    Models [benchmarks/lru_cache.c]: nodes in an explicit heap, the doubly linked
    list between two sentinels and the direct-mapped key table, and proves that
    the cache answers as the list of its key/value pairs, most recently used
    first. *)
From S2P Require Import Prelude.

(** A pointer is an address; [NULL] is 0 and [malloc] gives the addresses
    1, 2, ... in turn (nothing is ever freed). *)
Record Node := { key : Z; val : Z; prev : Z; next : Z }.
Abbreviation heap := (list Node).

#[export] Instance Node_inhabited : Inhabited Node :=
  populate {| key := 0; val := 0; prev := 0; next := 0 |}.

Definition deref (h : heap) (p : Z) : Res Node := rd h (p - 1).
Definition assign (h : heap) (p : Z) (n : Node) : Res heap := wr h (p - 1) n.

Definition set_val (h : heap) (p v : Z) : Res heap :=
  n ← deref h p; assign h p {| key := key n; val := v; prev := prev n; next := next n |}.
Definition set_prev (h : heap) (p v : Z) : Res heap :=
  n ← deref h p; assign h p {| key := key n; val := val n; prev := v; next := next n |}.
Definition set_next (h : heap) (p v : Z) : Res heap :=
  n ← deref h p; assign h p {| key := key n; val := val n; prev := prev n; next := v |}.

Record LRUCache := { capacity : Z; count : Z; head : Z; tail : Z; map : list Z }.

Definition MAP_SIZE : Z := 10000.

Definition node_create (h : heap) (k v : Z) : heap * Z :=
  (h ++ [{| key := k; val := v; prev := 0; next := 0 |}], zlen h + 1).

Definition cache_create (h : heap) (cap : Z) : Res (heap * LRUCache) :=
  let '(h, hd) := node_create h 0 0 in
  let '(h, tl) := node_create h 0 0 in
  h ← set_next h hd tl;
  h ← set_prev h tl hd;
  Ok (h, {| capacity := cap; count := 0; head := hd; tail := tl;
            map := replicate (Z.to_nat MAP_SIZE) 0 |}).

Definition remove_node (h : heap) (node : Z) : Res heap :=
  n ← deref h node;
  h ← set_next h (prev n) (next n);
  n ← deref h node;
  set_prev h (next n) (prev n).

Definition add_to_head (h : heap) (cache : LRUCache) (node : Z) : Res heap :=
  h ← set_prev h node (head cache);
  n ← deref h (head cache);
  h ← set_next h node (next n);
  n ← deref h (head cache);
  h ← set_prev h (next n) node;
  set_next h (head cache) node.

Definition get (h : heap) (cache : LRUCache) (k : Z) : Res (Z * heap) :=
  node ← rd (map cache) k;
  if negb (node =? 0) then
    h ← remove_node h node;
    h ← add_to_head h cache node;
    n ← deref h node;
    Ok (val n, h)
  else Ok (-1, h).

Definition put (h : heap) (cache : LRUCache) (k v : Z) : Res (heap * LRUCache) :=
  node ← rd (map cache) k;
  if negb (node =? 0) then
    h ← set_val h node v;
    h ← remove_node h node;
    h ← add_to_head h cache node;
    Ok (h, cache)
  else
    let '(h, new_node) := node_create h k v in
    m ← wr (map cache) k new_node;
    h ← add_to_head h cache new_node;
    count ← i32 (count cache + 1);
    if capacity cache <? count then
      t ← deref h (tail cache);
      let lru := prev t in
      h ← remove_node h lru;
      n ← deref h lru;
      m ← wr m (key n) 0;
      Ok (h, {| capacity := capacity cache; count := count - 1; head := head cache;
                tail := tail cache; map := m |})
    else
      Ok (h, {| capacity := capacity cache; count := count; head := head cache;
                tail := tail cache; map := m |}).

(** The benchmark program. *)
Definition lru_round (h : heap) (checksum : Z) : Res (heap * Z) :=
  '(h, cache) ← cache_create h 100;
  '(h, _, checksum) ← for_range 0 1000 (λ i '(h, cache, checksum),
    '(h, cache) ← put h cache i (i * 10);
    if Z.rem i 2 =? 0 then
      '(v, h) ← get h cache (Z.quot i 2);
      checksum ← i32 (checksum + v);
      Ok (h, cache, checksum)
    else Ok (h, cache, checksum)) (h, cache, checksum);
  Ok (h, checksum).

Definition lru_main : Res Z :=
  '(_, checksum) ← for_range 0 1000 (λ _ '(h, checksum), lru_round h checksum) ([], 0);
  Ok checksum.

(** ** Specification: the key/value pairs, most recently used first *)
Abbreviation pairs := (list (Z * Z)).

Definition spec_find (l : pairs) (k : Z) : option Z :=
  (λ p, p.2.2) <$> list_find (λ p, p.1 = k) l.

Definition drop_key (l : pairs) (k : Z) : pairs := filter (λ p, p.1 ≠ k) l.

Definition spec_get (l : pairs) (k : Z) : Z * pairs :=
  match spec_find l k with
  | Some v => (v, (k, v) :: drop_key l k)
  | None => (-1, l)
  end.

Definition spec_put (cap : Z) (l : pairs) (k v : Z) : pairs :=
  if spec_find l k then (k, v) :: drop_key l k else take (Z.to_nat cap) ((k, v) :: l).
