(* ===== verification/LruSpec.v ===== *)
(** * The LRU cache refines its list of pairs *)
From S2P Require Import Prelude Lru.

(** ** The heap as functions of the address *)
Definition node_at (h : heap) (p : Z) : Node := h.[p - 1].
Abbreviation nx h p := (next (node_at h p)).
Abbreviation pv h p := (prev (node_at h p)).
Abbreviation kv h p := (key (node_at h p), val (node_at h p)).

Definition valid (h : heap) (p : Z) : Prop := 0 < p ≤ zlen h.

Lemma deref_ok h p : valid h p → deref h p = Ok (node_at h p).
Proof. intros [? ?]. unfold deref. rewrite rd_ok; [done|lia]. Qed.

Lemma node_at_zset h p q n : valid h p → valid h q →
  node_at (zset h (p - 1) n) q = if decide (q = p) then n else node_at h q.
Proof.
  intros [? ?] [? ?]. unfold node_at. rewrite znth_zset by lia.
  repeat case_decide; done || lia.
Qed.

Lemma assign_ok h p n : valid h p → assign h p n = Ok (zset h (p - 1) n).
Proof. intros [? ?]. unfold assign. apply wr_ok. lia. Qed.

Lemma valid_zset h p q n : valid (zset h (p - 1) n) q ↔ valid h q.
Proof. unfold valid. by rewrite length_zset. Qed.

(** [h'] has the same addresses as [h], with the links and contents given. *)
Record upd (h h' : heap) (fn fp : Z → Z) (fkv : Z → Z * Z) : Prop := {
  upd_len : length h' = length h;
  upd_nx q : valid h q → nx h' q = fn q;
  upd_pv q : valid h q → pv h' q = fp q;
  upd_kv q : valid h q → kv h' q = fkv q;
}.

Lemma upd_valid h h' fn fp fkv q : upd h h' fn fp fkv → valid h' q ↔ valid h q.
Proof. intros []. unfold valid. by rewrite upd_len0. Qed.

Abbreviation fupd f p v := (λ q, if decide (q = p) then v else f q).

Ltac heap_upd :=
  intros; unfold set_next, set_prev, set_val; rewrite deref_ok by done;
  cbn [mbind Res_bind]; rewrite assign_ok by done; cbn [wp];
  split; [by rewrite length_zset|..]; intros q Hq;
  rewrite node_at_zset by done; case_decide; subst; done.

Lemma set_next_wp h p v : valid h p →
  wp (set_next h p v) (λ h', upd h h' (fupd (λ q, nx h q) p v) (λ q, pv h q) (λ q, kv h q)).
Proof. heap_upd. Qed.

Lemma set_prev_wp h p v : valid h p →
  wp (set_prev h p v) (λ h', upd h h' (λ q, nx h q) (fupd (λ q, pv h q) p v) (λ q, kv h q)).
Proof. heap_upd. Qed.

Lemma set_val_wp h p v : valid h p →
  wp (set_val h p v) (λ h', upd h h' (λ q, nx h q) (λ q, pv h q)
    (fupd (λ q, kv h q) p (key (node_at h p), v))).
Proof. heap_upd. Qed.

(** ** Doubly linked segments *)
Fixpoint seg (fn fp : Z → Z) (l : list Z) : Prop :=
  match l with
  | [] => True
  | a :: l' => match l' with [] => True | b :: _ => fn a = b ∧ fp b = a ∧ seg fn fp l' end
  end.

Lemma seg_cons2 fn fp a b l : seg fn fp (a :: b :: l) ↔ fn a = b ∧ fp b = a ∧ seg fn fp (b :: l).
Proof. done. Qed.

Lemma seg_app fn fp l1 a l2 :
  seg fn fp (l1 ++ a :: l2) ↔ seg fn fp (l1 ++ [a]) ∧ seg fn fp (a :: l2).
Proof.
  induction l1 as [|b l1 IH]; [cbn; tauto|]. destruct l1 as [|c l1].
  - cbn [app]. rewrite !seg_cons2. cbn. tauto.
  - cbn [app] in *. rewrite !seg_cons2, IH. tauto.
Qed.

(** Only the links inside the segment matter. *)
Lemma seg_ext fn fp fn' fp' l1 a l2 :
  (∀ q, q ∈ a :: l1 → fn' q = fn q) → (∀ q, q ∈ l1 ++ [l2] → fp' q = fp q) →
  seg fn fp (a :: l1 ++ [l2]) → seg fn' fp' (a :: l1 ++ [l2]).
Proof.
  revert a. induction l1 as [|b l1 IH]; intros a Hn Hp; cbn [app].
  - rewrite !seg_cons2. intros (H1 & H2 & _). cbn. rewrite Hn, Hp by (cbn; set_solver). done.
  - rewrite !seg_cons2. intros (H1 & H2 & H3).
    rewrite Hn by set_solver. rewrite Hp by set_solver. split_and!; [done..|].
    apply IH; [set_solver..|done].
Qed.

(** The same with the segment's end points left implicit. *)
Lemma seg_ext_any fn fp fn' fp' l :
  (∀ q, q ∈ removelast l → fn' q = fn q) → (∀ q, q ∈ tl l → fp' q = fp q) →
  seg fn fp l → seg fn' fp' l.
Proof.
  destruct l as [|a l]; [done|]. destruct l as [|b l _] using rev_ind; [done|].
  rewrite app_comm_cons, removelast_last. cbn [tl app].
  intros Hn Hp. by apply seg_ext.
Qed.

(** ** Unlinking and linking *)
Definition all_valid (h : heap) (l : list Z) : Prop := ∀ q, q ∈ l → valid h q.

(** What [remove_node] leaves untouched. *)
Definition same_kv (h h' : heap) : Prop :=
  length h' = length h ∧ ∀ q, valid h q → kv h' q = kv h q.

Lemma remove_node_wp h l1 p n q l2 :
  NoDup (l1 ++ p :: n :: q :: l2) → all_valid h (l1 ++ p :: n :: q :: l2) →
  seg (λ x, nx h x) (λ x, pv h x) (l1 ++ p :: n :: q :: l2) →
  wp (remove_node h n) (λ h', same_kv h h' ∧
    seg (λ x, nx h' x) (λ x, pv h' x) (l1 ++ p :: q :: l2)).
Proof.
  intros Hnd Hv Hs. apply seg_app in Hs as [Hs1 Hs2].
  rewrite !seg_cons2 in Hs2. destruct Hs2 as (Hpn & Hnp & Hnq & Hqn & Hs2).
  assert (valid h p ∧ valid h n ∧ valid h q) as (Vp & Vn & Vq)
    by (split_and!; apply Hv; set_solver).
  assert (p ≠ n ∧ q ≠ n ∧ p ≠ q ∧ (∀ x, x ∈ l1 → x ≠ p ∧ x ≠ q) ∧ (∀ x, x ∈ l2 → x ≠ p ∧ x ≠ q))
    as (N1 & N2 & N3 & N4 & N5).
  { apply NoDup_app in Hnd as (_ & Hd & Hnd). rewrite !NoDup_cons in Hnd. set_solver. }
  unfold remove_node. rewrite deref_ok by done. cbn [mbind Res_bind]. wp_step.
  rewrite Hnp, Hnq. eapply wp_mono; [by apply set_next_wp|]. intros h1 H1.
  assert (∀ x, valid h x → valid h1 x) as V1 by (intros x; by apply (upd_valid _ _ _ _ _ _ H1)).
  rewrite deref_ok by auto. cbn [mbind Res_bind].
  rewrite (upd_nx _ _ _ _ _ H1), (upd_pv _ _ _ _ _ H1) by done.
  rewrite decide_False by done. rewrite Hnp, Hnq.
  eapply wp_mono; [apply set_prev_wp; auto|]. intros h2 H2.
  assert (∀ x, valid h x → nx h2 x = (if decide (x = p) then q else nx h x) ∧
            pv h2 x = (if decide (x = q) then p else pv h x) ∧ kv h2 x = kv h x) as E.
  { intros x Vx. specialize (V1 x Vx).
    rewrite (upd_nx _ _ _ _ _ H2), (upd_nx _ _ _ _ _ H1), (upd_pv _ _ _ _ _ H2),
      (upd_kv _ _ _ _ _ H2), (upd_kv _ _ _ _ _ H1) by done.
    split_and!; [done| |done]. case_decide; [done|]. by rewrite (upd_pv _ _ _ _ _ H1). }
  split; [split; [rewrite (upd_len _ _ _ _ _ H2); apply H1|apply E]|].
  apply seg_app. split.
  - eapply seg_ext_any; [..|exact Hs1].
    + intros x Hx. rewrite removelast_last in Hx. destruct (E x) as (-> & _); [apply Hv; set_solver|].
      rewrite decide_False; [done|]. by apply N4.
    + intros x Hx. assert (x ∈ l1 ++ [p]) as Hx' by (destruct l1; set_solver).
      destruct (E x) as (_ & -> & _); [apply Hv; set_solver|].
      rewrite decide_False; [done|]. set_solver.
  - rewrite seg_cons2. destruct (E p Vp) as (-> & _), (E q Vq) as (_ & -> & _).
    rewrite !decide_True by done. split_and!; [done..|].
    eapply seg_ext_any; [..|exact Hs2].
    + intros x Hx. assert (x ∈ q :: l2) as Hx'.
      { clear -Hx. destruct l2 as [|y l2 _] using rev_ind; [set_solver|].
        rewrite app_comm_cons, removelast_last in Hx. set_solver. }
      destruct (E x) as (-> & _); [apply Hv; set_solver|].
      rewrite decide_False; [done|]. set_solver.
    + intros x Hx. cbn in Hx. destruct (E x) as (_ & -> & _); [apply Hv; set_solver|].
      rewrite decide_False; [done|]. by apply N5.
Qed.

Lemma add_to_head_wp h c n x l :
  NoDup (head c :: n :: x :: l) → all_valid h (head c :: n :: x :: l) →
  seg (λ x, nx h x) (λ x, pv h x) (head c :: x :: l) →
  wp (add_to_head h c n) (λ h', same_kv h h' ∧
    seg (λ x, nx h' x) (λ x, pv h' x) (head c :: n :: x :: l)).
Proof.
  intros Hnd Hv Hs. rewrite seg_cons2 in Hs. destruct Hs as (Hhx & Hxh & Hs).
  set (hd := head c) in *.
  assert (valid h hd ∧ valid h n ∧ valid h x) as (Vh & Vn & Vx)
    by (split_and!; apply Hv; set_solver).
  rewrite !NoDup_cons in Hnd. destruct Hnd as (N1 & N2 & N3 & _).
  assert (hd ≠ n ∧ hd ≠ x ∧ n ≠ x) as (D1 & D2 & D3) by set_solver.
  unfold add_to_head. fold hd. wp_step. eapply wp_mono; [by apply set_prev_wp|]. intros h1 H1.
  assert (∀ y, valid h y → valid h1 y) as V1 by (intros y; by apply (upd_valid _ _ _ _ _ _ H1)).
  rewrite deref_ok by auto. cbn [mbind Res_bind].
  rewrite (upd_nx _ _ _ _ _ H1), Hhx by done. wp_step.
  eapply wp_mono; [apply set_next_wp; auto|]. intros h2 H2.
  assert (∀ y, valid h y → valid h2 y) as V2
    by (intros y Hy; by apply (upd_valid _ _ _ _ _ _ H2), V1).
  rewrite deref_ok by auto. cbn [mbind Res_bind].
  rewrite (upd_nx _ _ _ _ _ H2), (decide_False (P := hd = n)), (upd_nx _ _ _ _ _ H1), Hhx by auto.
  wp_step. eapply wp_mono; [apply set_prev_wp; auto|]. intros h3 H3.
  assert (∀ y, valid h y → valid h3 y) as V3
    by (intros y Hy; by apply (upd_valid _ _ _ _ _ _ H3), V2).
  eapply wp_mono; [apply set_next_wp; auto|]. intros h4 H4.
  assert (∀ y, valid h y →
    nx h4 y = (if decide (y = hd) then n else if decide (y = n) then x else nx h y) ∧
    pv h4 y = (if decide (y = x) then n else if decide (y = n) then hd else pv h y) ∧
    kv h4 y = kv h y) as E.
  { intros y Vy. specialize (V1 y Vy) as W1. specialize (V2 y Vy) as W2. specialize (V3 y Vy) as W3.
    rewrite (upd_nx _ _ _ _ _ H4), (upd_nx _ _ _ _ _ H3), (upd_nx _ _ _ _ _ H2),
      (upd_nx _ _ _ _ _ H1), (upd_pv _ _ _ _ _ H4), (upd_pv _ _ _ _ _ H3),
      (upd_pv _ _ _ _ _ H2), (upd_pv _ _ _ _ _ H1), (upd_kv _ _ _ _ _ H4),
      (upd_kv _ _ _ _ _ H3), (upd_kv _ _ _ _ _ H2), (upd_kv _ _ _ _ _ H1) by done. done. }
  split; [split; [|apply E]|].
  { rewrite (upd_len _ _ _ _ _ H4), (upd_len _ _ _ _ _ H3), (upd_len _ _ _ _ _ H2). apply H1. }
  rewrite !seg_cons2.
  destruct (E hd Vh) as (-> & _), (E n Vn) as (-> & -> & _), (E x Vx) as (_ & -> & _).
  rewrite !(decide_True (P := hd = hd)), !(decide_True (P := n = n)),
    !(decide_True (P := x = x)) by done.
  rewrite (decide_False (P := n = x)), (decide_False (P := n = hd)) by done.
  split_and!; [done..|]. eapply seg_ext_any; [..|exact Hs].
  - intros y Hy. assert (y ∈ x :: l) as Hy'.
    { clear -Hy. destruct l as [|z l _] using rev_ind; [set_solver|].
      rewrite app_comm_cons, removelast_last in Hy. set_solver. }
    destruct (E y) as (-> & _); [apply Hv; set_solver|].
    rewrite !decide_False; [done|set_solver..].
  - intros y Hy. cbn in Hy. destruct (E y) as (_ & -> & _); [apply Hv; set_solver|].
    rewrite !decide_False; [done|set_solver..].
Qed.

(** ** The list of pairs *)
Lemma spec_find_none (l : pairs) k : k ∉ l.*1 → spec_find l k = None.
Proof.
  intros Hk. unfold spec_find. rewrite (proj2 (list_find_None _ _)); [done|].
  apply Forall_forall. intros [k' v'] Hin <-. apply Hk.
  apply list_elem_of_fmap. by exists (k', v').
Qed.

Lemma spec_find_mid (l1 l2 : pairs) k v : k ∉ l1.*1 → spec_find (l1 ++ (k, v) :: l2) k = Some v.
Proof.
  intros Hk. unfold spec_find. rewrite list_find_app_r.
  - cbn. by rewrite decide_True.
  - apply list_find_None, Forall_forall. intros [k' v'] Hin <-. apply Hk.
    apply list_elem_of_fmap. by exists (k', v').
Qed.

Lemma drop_key_absent (l : pairs) k : k ∉ l.*1 → drop_key l k = l.
Proof.
  intros Hk. unfold drop_key. induction l as [|[k' v'] l IH]; [done|].
  cbn in Hk. rewrite filter_cons_True by (cbn; set_solver). rewrite IH by set_solver. done.
Qed.

Lemma drop_key_mid (l1 l2 : pairs) k v : k ∉ l1.*1 → k ∉ l2.*1 →
  drop_key (l1 ++ (k, v) :: l2) k = l1 ++ l2.
Proof.
  intros H1 H2. unfold drop_key. rewrite filter_app, filter_cons_False by (cbn; auto).
  f_equal; by apply drop_key_absent.
Qed.

(** ** The cache invariant *)
Record lru_ok (h : heap) (c : LRUCache) (ns : list Z) (l : pairs) : Prop := {
  lo_nodup : NoDup (head c :: ns ++ [tail c]);
  lo_valid : all_valid h (head c :: ns ++ [tail c]);
  lo_seg : seg (λ x, nx h x) (λ x, pv h x) (head c :: ns ++ [tail c]);
  lo_pairs : l = (λ n, kv h n) <$> ns;
  lo_keys : NoDup (l.*1);
  lo_count : count c = zlen l ∧ zlen l ≤ Z.max 0 (capacity c);
  lo_map_len : zlen (map c) = MAP_SIZE;
  lo_map k : 0 ≤ k < MAP_SIZE →
    ((map c).[k] = 0 ∧ k ∉ l.*1) ∨ ((map c).[k] ∈ ns ∧ key (node_at h ((map c).[k])) = k);
  lo_range k : k ∈ l.*1 → 0 ≤ k < MAP_SIZE;
}.

Definition lru_inv h c l : Prop := ∃ ns, lru_ok h c ns l.

Lemma lo_length h c ns l : lru_ok h c ns l → zlen l ≤ MAP_SIZE.
Proof.
  intros Hok. assert (length (l.*1) ≤ length (seqZ 0 MAP_SIZE))%nat as Hle.
  { apply submseteq_length, NoDup_submseteq; [apply Hok|].
    intros k Hk. apply elem_of_seqZ. pose proof (lo_range _ _ _ _ Hok k Hk). lia. }
  rewrite length_fmap, length_seqZ in Hle. unfold MAP_SIZE in *. lia.
Qed.

Lemma pairs_keys h ns : ((λ n, kv h n) <$> ns).*1 = (λ n, key (node_at h n)) <$> ns.
Proof. by rewrite <- list_fmap_compose. Qed.

Lemma same_kv_pairs h h' ns : same_kv h h' → all_valid h ns →
  (λ n, kv h' n) <$> ns = (λ n, kv h n) <$> ns.
Proof.
  intros [_ Hk] Hv. apply list_fmap_ext. intros i n Hn. apply Hk, Hv.
  by eapply list_elem_of_lookup_2.
Qed.

Lemma unlink_wp h A n B :
  A ≠ [] → B ≠ [] → NoDup (A ++ n :: B) → all_valid h (A ++ n :: B) →
  seg (λ x, nx h x) (λ x, pv h x) (A ++ n :: B) →
  wp (remove_node h n) (λ h', same_kv h h' ∧ seg (λ x, nx h' x) (λ x, pv h' x) (A ++ B)).
Proof.
  intros HA HB. destruct A as [|p A _] using rev_ind; [done|]. destruct B as [|q B]; [done|].
  rewrite <- !app_assoc. cbn [app]. apply remove_node_wp.
Qed.

Lemma all_valid_len h h' l : length h' = length h → all_valid h l → all_valid h' l.
Proof. unfold all_valid, valid. intros ->. done. Qed.

(** Moving a listed node to the front. *)
Lemma move_front_wp h c n1 n n2 :
  NoDup (head c :: n1 ++ n :: n2 ++ [tail c]) →
  all_valid h (head c :: n1 ++ n :: n2 ++ [tail c]) →
  seg (λ x, nx h x) (λ x, pv h x) (head c :: n1 ++ n :: n2 ++ [tail c]) →
  wp (h ← remove_node h n; add_to_head h c n) (λ h', same_kv h h' ∧
    seg (λ x, nx h' x) (λ x, pv h' x) (head c :: n :: n1 ++ n2 ++ [tail c])).
Proof.
  intros Hnd Hv Hs. wp_step.
  assert (n2 ++ [tail c] ≠ []) as Hne by by destruct n2.
  eapply wp_mono; [apply (unlink_wp h (head c :: n1) n (n2 ++ [tail c])); done|].
  intros h1 [[Hlen Hkv] Hs1]. cbn [app] in Hs1.
  destruct (n1 ++ n2 ++ [tail c]) as [|x B] eqn:EB; [by destruct n1, n2|].
  assert (n :: x :: B ≡ₚ n1 ++ n :: n2 ++ [tail c]) as HP.
  { rewrite <- EB. by rewrite Permutation_middle. }
  eapply wp_mono; [apply (add_to_head_wp h1 c n x B)|].
  - by rewrite HP.
  - apply (all_valid_len h); [done|]. intros q. rewrite HP. apply Hv.
  - done.
  - intros h2 [[Hlen2 Hkv2] Hs2]. split; [|done]. split; [congruence|].
    intros q Hq. rewrite Hkv2; [by apply Hkv|]. unfold valid in *. by rewrite Hlen.
Qed.

(** After a move the invariant holds of the re-ordered list. *)
Lemma move_front_ok h h' c n1 n n2 k v w :
  lru_ok h c (n1 ++ n :: n2) (((λ n, kv h n) <$> n1) ++ (k, w) :: ((λ n, kv h n) <$> n2)) →
  length h' = length h → (∀ q, valid h q → q ≠ n → kv h' q = kv h q) → kv h' n = (k, v) →
  seg (λ x, nx h' x) (λ x, pv h' x) (head c :: n :: n1 ++ n2 ++ [tail c]) →
  lru_inv h' c ((k, v) :: ((λ n, kv h n) <$> n1) ++ ((λ n, kv h n) <$> n2)).
Proof.
  intros Hok Hlen Hkv Hkn Hs. exists (n :: n1 ++ n2).
  pose proof (lo_nodup _ _ _ _ Hok) as Hnd. pose proof (lo_valid _ _ _ _ Hok) as Hv.
  assert (n :: n1 ++ n2 ≡ₚ n1 ++ n :: n2) as HP by by rewrite Permutation_middle.
  assert (n ∉ n1 ∧ n ∉ n2) as [Hn1 Hn2].
  { rewrite <- HP in Hnd. rewrite NoDup_cons in Hnd. cbn in Hnd. rewrite NoDup_cons in Hnd.
    set_solver. }
  assert (∀ ns, ns ⊆ n1 ++ n2 → (λ n, kv h' n) <$> ns = (λ n, kv h n) <$> ns) as Hmap.
  { intros ns Hns. apply list_fmap_ext. intros i q Hq%list_elem_of_lookup_2.
    apply Hns in Hq. apply Hkv; [apply Hv; set_solver|set_solver]. }
  assert ((((k, v) :: ((λ n, kv h n) <$> n1) ++ ((λ n, kv h n) <$> n2)) : pairs).*1 ≡ₚ
          (((λ n, kv h n) <$> n1) ++ (k, w) :: ((λ n, kv h n) <$> n2)).*1) as HK.
  { rewrite !fmap_app. cbn. rewrite fmap_app. by rewrite Permutation_middle. }
  split.
  - cbn [app]. rewrite <- app_assoc. rewrite app_comm_cons, app_assoc, HP, <- app_assoc.
    by rewrite <- app_assoc in Hnd.
  - apply (all_valid_len h); [done|]. intros q Hq. apply Hv. set_solver.
  - cbn [app]. by rewrite <- app_assoc.
  - cbn. rewrite Hkn. f_equal. rewrite fmap_app, !Hmap by set_solver. done.
  - rewrite HK. apply Hok.
  - pose proof (lo_count _ _ _ _ Hok) as Hc. cbn [length] in *.
    rewrite !length_app in *. cbn [length] in *. lia.
  - apply Hok.
  - intros j Hj. rewrite HK. destruct (lo_map _ _ _ _ Hok j Hj) as [?|[Hin Hkey]]; [by left|].
    right. split; [by rewrite HP|]. rewrite <- Hkey at 2.
    destruct (decide ((map c).[j] = n)) as [E|E].
    + rewrite E in *. assert (kv h n = (k, w)) as Ekw.
      { pose proof (lo_pairs _ _ _ _ Hok) as Hp. rewrite fmap_app in Hp. cbn in Hp.
        apply app_inj_1 in Hp as [_ Hp]; [congruence|by rewrite !length_fmap]. }
      injection Hkn as -> _. by injection Ekw as -> _.
    + assert (valid h ((map c).[j])) as Hvj by (apply Hv; set_solver).
      specialize (Hkv _ Hvj E). by injection Hkv as -> _.
  - intros j. rewrite HK. apply Hok.
Qed.

(** A table entry points at the node of its key, or at none. *)
Lemma lookup_node h c ns l k : lru_ok h c ns l → 0 ≤ k < MAP_SIZE →
  ((map c).[k] = 0 ∧ k ∉ l.*1) ∨
  ∃ n1 n2 v, ns = n1 ++ (map c).[k] :: n2 ∧ kv h ((map c).[k]) = (k, v) ∧
    valid h ((map c).[k]) ∧
    l = ((λ n, kv h n) <$> n1) ++ (k, v) :: ((λ n, kv h n) <$> n2) ∧
    k ∉ ((λ n, kv h n) <$> n1).*1 ∧ k ∉ ((λ n, kv h n) <$> n2).*1.
Proof.
  intros Hok Hk. destruct (lo_map _ _ _ _ Hok k Hk) as [?|[Hin Hkey]]; [by left|right].
  pose proof (lo_valid _ _ _ _ Hok ((map c).[k]) ltac:(set_solver)) as Hv.
  apply list_elem_of_split in Hin as (n1 & n2 & E).
  exists n1, n2, (val (node_at h ((map c).[k]))).
  assert (l = ((λ n, kv h n) <$> n1) ++ (k, val (node_at h ((map c).[k]))) ::
              ((λ n, kv h n) <$> n2)) as El.
  { rewrite (lo_pairs _ _ _ _ Hok), E at 1. rewrite fmap_app. cbn. by rewrite Hkey. }
  split_and!; [done|by rewrite Hkey|done|done|..];
    pose proof (lo_keys _ _ _ _ Hok) as Hnd; rewrite El, fmap_app in Hnd; cbn in Hnd;
    apply NoDup_app in Hnd as (_ & Hd & Hnd); apply NoDup_cons in Hnd as [? _]; set_solver.
Qed.

Lemma lru_get_wp h c l k : lru_inv h c l → 0 ≤ k < MAP_SIZE →
  wp (get h c k) (λ '(v, h'), v = (spec_get l k).1 ∧ lru_inv h' c (spec_get l k).2).
Proof.
  intros [ns Hok] Hk. unfold get, spec_get.
  rewrite rd_ok by (rewrite (lo_map_len _ _ _ _ Hok); lia). cbn [mbind Res_bind].
  destruct (lookup_node _ _ _ _ k Hok Hk) as [[-> Hn]|(n1 & n2 & v & E & Ekv & Hv & -> & H1 & H2)].
  { rewrite spec_find_none by done. cbn. split; [done|by exists ns]. }
  rewrite spec_find_mid, drop_key_mid by done. cbn [fst snd].
  set (n := (map c).[k]) in *. rewrite (proj2 (Z.eqb_neq n 0)) by (unfold valid in Hv; lia).
  cbn [negb]. pose proof (lo_nodup _ _ _ _ Hok) as Hnd. pose proof (lo_valid _ _ _ _ Hok) as Hav.
  pose proof (lo_seg _ _ _ _ Hok) as Hs. rewrite E, <- app_assoc in Hnd, Hav, Hs. cbn [app] in *.
  pose proof (move_front_wp h c n1 n n2 Hnd Hav Hs) as Hmv.
  destruct (remove_node h n) as [h1| |]; cbn [mbind Res_bind wp] in Hmv |- *; [|done..].
  wp_step. eapply wp_mono; [exact Hmv|]. intros h2 [[Hlen Hkv] Hs2].
  rewrite deref_ok by (unfold valid in *; by rewrite Hlen). cbn.
  assert (kv h2 n = (k, v)) as Ek2 by (by rewrite Hkv).
  split; [by injection Ek2|].
  eapply (move_front_ok h h2 c n1 n n2 k v v); [by rewrite <- E|done|intros; by apply Hkv|done|done].
Qed.

Lemma put_hit_wp h c ns l k v : lru_ok h c ns l → 0 ≤ k < MAP_SIZE → (map c).[k] ≠ 0 →
  wp (put h c k v) (λ '(h', c'), lru_inv h' c' (spec_put (capacity c) l k v) ∧
    capacity c' = capacity c).
Proof.
  intros Hok Hk Hne. unfold put, spec_put.
  rewrite rd_ok by (rewrite (lo_map_len _ _ _ _ Hok); lia). cbn [mbind Res_bind].
  destruct (lookup_node _ _ _ _ k Hok Hk) as [[? _]|(n1 & n2 & w & E & Ekv & Hv & -> & H1 & H2)];
    [done|]. rewrite spec_find_mid, drop_key_mid by done.
  set (n := (map c).[k]) in *. rewrite (proj2 (Z.eqb_neq n 0)) by done.
  cbn [negb]. pose proof (lo_nodup _ _ _ _ Hok) as Hnd. pose proof (lo_valid _ _ _ _ Hok) as Hav.
  pose proof (lo_seg _ _ _ _ Hok) as Hs. rewrite E, <- app_assoc in Hnd, Hav, Hs. cbn [app] in *.
  wp_step. eapply wp_mono; [by apply set_val_wp|]. intros h1 U.
  assert (all_valid h1 (head c :: n1 ++ n :: n2 ++ [tail c])) as Hav1.
  { apply (all_valid_len h); [apply U|done]. }
  assert (seg (λ x, nx h1 x) (λ x, pv h1 x) (head c :: n1 ++ n :: n2 ++ [tail c])) as Hs1.
  { eapply seg_ext_any; [..|exact Hs]; intros q Hq.
    - apply (upd_nx _ _ _ _ _ U), Hav. clear -Hq. revert Hq.
      generalize (head c :: n1 ++ n :: n2 ++ [tail c]). intros m Hq.
      destruct m as [|y m _] using rev_ind; [done|]. rewrite removelast_last in Hq. set_solver.
    - apply (upd_pv _ _ _ _ _ U), Hav. cbn in Hq. set_solver. }
  pose proof (move_front_wp h1 c n1 n n2 Hnd Hav1 Hs1) as Hmv.
  destruct (remove_node h1 n) as [h2| |]; cbn [mbind Res_bind wp] in Hmv |- *; [|done..].
  wp_step. eapply wp_mono; [exact Hmv|]. intros h3 [[Hlen Hkv] Hs3]. cbn [wp].
  split; [|done]. pose proof (upd_valid _ _ _ _ _ n U) as Vn.
  eapply (move_front_ok h h3 c n1 n n2 k v w); [by rewrite <- E| | | |done].
  - rewrite Hlen. apply U.
  - intros q Hq Hqn. rewrite Hkv by by apply (upd_valid _ _ _ _ _ q U).
    rewrite (upd_kv _ _ _ _ _ U) by done. by rewrite decide_False.
  - rewrite Hkv by by apply Vn. rewrite (upd_kv _ _ _ _ _ U), decide_True by done.
    by injection Ekv as ->.
Qed.

(** ** Inserting a new key *)
Lemma node_at_app h n q : valid h q → node_at (h ++ [n]) q = node_at h q.
Proof. intros [? ?]. unfold node_at. by rewrite lookup_total_app_l by lia. Qed.

Lemma node_at_new h n : node_at (h ++ [n]) (zlen h + 1) = n.
Proof.
  unfold node_at. replace (Z.to_nat (zlen h + 1 - 1)) with (length h) by lia.
  rewrite lookup_total_app_r, Nat.sub_diag by lia. done.
Qed.

(** The cache with the new node in front, before the eviction. *)
Lemma push_front_wp h c ns l k v : lru_ok h c ns l → 0 ≤ k < MAP_SIZE → k ∉ l.*1 →
  let n := zlen h + 1 in
  wp (add_to_head (h ++ [{| key := k; val := v; prev := 0; next := 0 |}]) c n) (λ h',
    NoDup (head c :: n :: ns ++ [tail c]) ∧ all_valid h' (head c :: n :: ns ++ [tail c]) ∧
    seg (λ x, nx h' x) (λ x, pv h' x) (head c :: n :: ns ++ [tail c]) ∧
    ((λ n, kv h' n) <$> n :: ns) = (k, v) :: l).
Proof.
  intros Hok Hk Hnew n. set (nd := {| key := k; val := v; prev := 0; next := 0 |}).
  pose proof (lo_valid _ _ _ _ Hok) as Hv. pose proof (lo_nodup _ _ _ _ Hok) as Hnd.
  assert (∀ q, valid h q → valid (h ++ [nd]) q) as Vmono.
  { intros q []. split; [done|]. rewrite length_app. lia. }
  assert (valid (h ++ [nd]) n) as Vn by (split; [lia|rewrite length_app; cbn; lia]).
  assert (n ∉ head c :: ns ++ [tail c]) as Hfresh.
  { intros Hin%Hv. unfold valid in Hin. lia. }
  assert (NoDup (head c :: n :: ns ++ [tail c])) as Hnd'.
  { rewrite NoDup_cons in Hnd. rewrite !NoDup_cons. set_solver. }
  assert (all_valid (h ++ [nd]) (head c :: n :: ns ++ [tail c])) as Hv'.
  { intros q Hq. destruct (decide (q = n)) as [->|]; [done|]. apply Vmono, Hv. set_solver. }
  assert (seg (λ x, nx (h ++ [nd]) x) (λ x, pv (h ++ [nd]) x) (head c :: ns ++ [tail c])) as Hs'.
  { eapply seg_ext_any; [..|apply (lo_seg _ _ _ _ Hok)]; intros q Hq; rewrite node_at_app; try done;
      apply Hv.
    - rewrite app_comm_cons, removelast_last in Hq. set_solver.
    - cbn in Hq. set_solver. }
  destruct (ns ++ [tail c]) as [|x B] eqn:EB; [by destruct ns|].
  eapply wp_mono; [by apply add_to_head_wp|]. intros h2 [[Hlen Hkv] Hs2].
  split_and!; [done|by apply (all_valid_len (h ++ [nd]))|done|].
  cbn. rewrite Hkv by done. rewrite (lo_pairs _ _ _ _ Hok). f_equal.
  - by rewrite node_at_new.
  - apply list_fmap_ext. intros i q Hq%list_elem_of_lookup_2.
    assert (q ∈ x :: B) by (rewrite <- EB; set_solver).
    rewrite Hkv by (apply Vmono, Hv; set_solver). rewrite node_at_app; [done|].
    apply Hv. set_solver.
Qed.

Lemma seg_last fn fp l z t : seg fn fp (l ++ z :: [t]) → fp t = z.
Proof. intros [_ H]%seg_app. rewrite seg_cons2 in H. apply H. Qed.

Lemma take_pairs {A B} (f : A → B) l z n :
  length l = n → take n (f <$> l ++ [z]) = f <$> l.
Proof.
  intros <-. rewrite fmap_app. rewrite <- (length_fmap f l). by rewrite take_app_length.
Qed.

(** Table and keys after a new key [k] went to the front, node [z] being evicted
    if there is one. *)
Lemma new_key_map h h' c ns l k v n :
  lru_ok h c ns l → k ∉ l.*1 → ((λ n, kv h' n) <$> n :: ns) = (k, v) :: l →
  0 ≤ k < MAP_SIZE → ∀ j, 0 ≤ j < MAP_SIZE →
  ((zset (map c) k n).[j] = 0 ∧ j ∉ ((k, v) :: l).*1) ∨
  ((zset (map c) k n).[j] ∈ n :: ns ∧ key (node_at h' ((zset (map c) k n).[j])) = j).
Proof.
  intros Hok Hnew Hp Hk j Hj. pose proof (lo_map_len _ _ _ _ Hok) as Hml. cbn in Hp.
  injection Hp as Hkn Hvn Hp.
  rewrite znth_zset by lia. destruct (decide (k = j)) as [<-|Hne].
  - right. split; [by left|done].
  - destruct (lo_map _ _ _ _ Hok j Hj) as [[-> ?]|[Hin Hkey]]; [left|right].
    + split; [done|]. rewrite fmap_cons, not_elem_of_cons. cbn [fst]. split; [congruence|done].
    + split; [by right|]. apply list_elem_of_lookup_1 in Hin as [i Hi].
      assert (kv h' ((map c).[j]) = kv h ((map c).[j])) as E; [|by injection E as ->].
      pose proof (lo_pairs _ _ _ _ Hok) as Hl. rewrite <- Hp in Hl.
      apply (f_equal (.!! i)) in Hl. rewrite !list_lookup_fmap, Hi in Hl. cbn in Hl. congruence.
Qed.

Lemma put_new_wp h c ns l k v : lru_ok h c ns l → 0 ≤ k < MAP_SIZE → (map c).[k] = 0 →
  wp (put h c k v) (λ '(h', c'), lru_inv h' c' (spec_put (capacity c) l k v) ∧
    capacity c' = capacity c).
Proof.
  intros Hok Hk Hz. pose proof (lo_map_len _ _ _ _ Hok) as Hml.
  assert (k ∉ l.*1) as Hnew.
  { destruct (lookup_node _ _ _ _ k Hok Hk) as [[_ ?]|(? & ? & ? & _ & _ & Hv & _)]; [done|].
    unfold valid in Hv. lia. }
  unfold put, spec_put. rewrite spec_find_none by done. rewrite rd_ok by lia.
  cbn [mbind Res_bind]. rewrite Hz. cbn [negb Z.eqb node_create].
  rewrite wr_ok by lia. cbn [mbind Res_bind]. wp_step.
  eapply wp_mono; [by apply (push_front_wp h c ns l k v)|].
  intros h1 (Hnd & Hv & Hs & Hp). set (n := zlen h + 1) in *.
  pose proof (lo_length _ _ _ _ Hok) as Hlen. pose proof (lo_count _ _ _ _ Hok) as [Hcount Hcap].
  unfold MAP_SIZE in Hlen. rewrite i32_ok by (c_unfold; lia). cbn [mbind Res_bind].
  pose proof (new_key_map h h1 c ns l k v n Hok Hnew Hp Hk) as Hmap.
  assert (NoDup (((k, v) :: l).*1)) as HndK.
  { cbn. rewrite NoDup_cons. split; [done|apply Hok]. }
  assert (∀ j, j ∈ ((k, v) :: l).*1 → 0 ≤ j < MAP_SIZE) as Hrange.
  { intros j Hj. cbn in Hj. apply elem_of_cons in Hj as [->|Hj]; [done|].
    by apply (lo_range _ _ _ _ Hok). }
  destruct (Z.ltb_spec (capacity c) (count c + 1)) as [Hlt|Hge].
  - (* the least recently used node leaves *)
    destruct (n :: ns) as [|z ms _] eqn:Ens using rev_ind; [done|].
    change (head c :: n :: ns ++ [tail c]) with (head c :: (n :: ns) ++ [tail c]) in *.
    rewrite Ens, <- app_assoc in Hnd, Hv, Hs. cbn [app] in Hnd, Hv, Hs.
    rewrite deref_ok by (apply Hv; set_solver). cbn [mbind Res_bind].
    assert (pv h1 (tail c) = z) as ->
      by by apply (seg_last (λ x, nx h1 x) (λ x, pv h1 x) (head c :: ms)).
    wp_step. eapply wp_mono; [apply (unlink_wp h1 (head c :: ms) z [tail c]); done|].
    intros h2 [[Hlen2 Hkv2] Hs2].
    assert (valid h1 z) as Vz by (apply Hv; set_solver).
    rewrite deref_ok by (unfold valid in *; by rewrite Hlen2). cbn [mbind Res_bind].
    assert (key (node_at h2 z) = key (node_at h1 z)) as Ekz.
    { specialize (Hkv2 z Vz). by injection Hkv2. }
    rewrite Ekz. set (kz := key (node_at h1 z)) in *.
    assert ((λ n, kv h2 n) <$> ms ++ [z] = (k, v) :: l) as Hp2.
    { rewrite <- Hp. apply list_fmap_ext. intros i q Hq%list_elem_of_lookup_2.
      apply Hkv2, Hv. set_solver. }
    assert (((k, v) :: l).*1 = ((λ n, kv h2 n) <$> ms).*1 ++ [kz]) as HK.
    { rewrite <- Hp2, !fmap_app. cbn. by rewrite Ekz. }
    assert (0 ≤ kz < MAP_SIZE) as Hkz by (apply Hrange; rewrite HK; set_solver).
    rewrite wr_ok by (rewrite length_zset; lia). cbn [mbind Res_bind wp]. split; [|done].
    assert (take (Z.to_nat (capacity c)) ((k, v) :: l) = (λ n, kv h2 n) <$> ms) as ->.
    { rewrite <- Hp2. apply take_pairs. apply (f_equal length) in Hp2.
      rewrite length_fmap, length_app in Hp2. cbn in Hp2. lia. }
    rewrite HK in HndK, Hrange. apply NoDup_app in HndK as (HndK & Hdisj & _).
    exists ms. split; cbn [head tail capacity count map].
    + rewrite app_comm_cons in Hnd |- *. apply NoDup_app in Hnd as (? & ? & Hnd).
      apply NoDup_app. rewrite NoDup_cons in Hnd. set_solver.
    + apply (all_valid_len h1); [done|]. intros q Hq. apply Hv. set_solver.
    + done.
    + done.
    + done.
    + apply (f_equal length) in Hp2. rewrite length_fmap, length_app in *. cbn in Hp2. lia.
    + by rewrite !length_zset.
    + intros j Hj. rewrite (znth_zset _ kz) by (rewrite ?length_zset; lia).
      destruct (decide (kz = j)) as [<-|Hne].
      * left. split; [done|]. intros Hin. apply (Hdisj _ Hin). set_solver.
      * destruct (Hmap j Hj) as [[-> Hn]|[Hin Hkey]]; [left|right].
        -- split; [done|]. rewrite HK in Hn. set_solver.
        -- assert ((zset (map c) k n).[j] ≠ z) as Hnz by (intros E; rewrite E in Hkey; done).
           split; [set_solver|].
           assert (valid h1 ((zset (map c) k n).[j])) as Vj by (apply Hv; set_solver).
           specialize (Hkv2 _ Vj). by injection Hkv2 as ->.
    + intros j Hj. apply Hrange. set_solver.
  - cbn [wp]. split; [|done]. cbn [length] in *.
    rewrite take_ge by (cbn; lia). exists (n :: ns).
    split; cbn [head tail capacity count map app]; try done.
    + cbn. lia.
    + by rewrite length_zset.
Qed.

Lemma put_wp h c l k v : lru_inv h c l → 0 ≤ k < MAP_SIZE →
  wp (put h c k v) (λ '(h', c'), lru_inv h' c' (spec_put (capacity c) l k v) ∧
    capacity c' = capacity c).
Proof.
  intros [ns Hok] Hk. destruct (decide ((map c).[k] = 0)).
  - by eapply put_new_wp.
  - by eapply put_hit_wp.
Qed.

Lemma cache_create_wp h cap :
  wp (cache_create h cap) (λ '(h', c), lru_inv h' c [] ∧ capacity c = cap).
Proof.
  unfold cache_create, node_create.
  set (nd := {| key := 0; val := 0; prev := 0; next := 0 |}).
  set (hd := zlen h + 1). set (tl := zlen (h ++ [nd]) + 1).
  set (h0 := (h ++ [nd]) ++ [nd]).
  assert (tl = hd + 1) as Et by (unfold tl, hd; rewrite length_app; cbn; lia).
  assert (valid h0 hd ∧ valid h0 tl) as [Vh Vt].
  { unfold valid, h0. rewrite Et. unfold hd. rewrite !length_app. cbn. lia. }
  wp_step. eapply wp_mono; [by apply set_next_wp|]. intros h1 U1.
  assert (valid h1 hd ∧ valid h1 tl) as [Vh1 Vt1] by (by rewrite !(upd_valid _ _ _ _ _ _ U1)).
  wp_step. eapply wp_mono; [by apply set_prev_wp|]. intros h2 U2. cbn [wp]. split; [|done].
  exists []. split; cbn [head tail capacity count map app].
  - rewrite NoDup_cons, list_elem_of_singleton. split; [lia|apply NoDup_singleton].
  - intros q Hq. rewrite (upd_valid _ _ _ _ _ _ U2). set_solver.
  - rewrite seg_cons2, (upd_nx _ _ _ _ _ U2), (upd_nx _ _ _ _ _ U1), (upd_pv _ _ _ _ _ U2) by done.
    by rewrite !decide_True by done.
  - done.
  - apply NoDup_nil_2.
  - cbn. lia.
  - by rewrite length_replicate.
  - intros j Hj. left. rewrite znth_replicate by (unfold MAP_SIZE in *; lia). split; [done|].
    apply not_elem_of_nil.
  - intros j Hj. by apply elem_of_nil in Hj.
Qed.

(** ** Sequences of operations *)
Inductive CacheOp := OpGet (k : Z) | OpPut (k v : Z).

Definition op_key (op : CacheOp) : Z := match op with OpGet k | OpPut k _ => k end.

Fixpoint run_ops (h : heap) (c : LRUCache) (ops : list CacheOp)
  : Res (list Z * heap * LRUCache) :=
  match ops with
  | [] => Ok ([], h, c)
  | OpGet k :: ops => '(v, h) ← get h c k; '(vs, h, c) ← run_ops h c ops; Ok (v :: vs, h, c)
  | OpPut k v :: ops => '(h, c) ← put h c k v; run_ops h c ops
  end.

Fixpoint spec_ops (cap : Z) (l : pairs) (ops : list CacheOp) : list Z * pairs :=
  match ops with
  | [] => ([], l)
  | OpGet k :: ops => let '(v, l) := spec_get l k in
                      let '(vs, l) := spec_ops cap l ops in (v :: vs, l)
  | OpPut k v :: ops => spec_ops cap (spec_put cap l k v) ops
  end.

Lemma lru_run_ops_wp h c l ops : lru_inv h c l →
  Forall (λ op, 0 ≤ op_key op < MAP_SIZE) ops →
  wp (run_ops h c ops) (λ '(vs, h', c'),
    vs = (spec_ops (capacity c) l ops).1 ∧ lru_inv h' c' (spec_ops (capacity c) l ops).2).
Proof.
  revert h c l. induction ops as [|[k|k v] ops IH]; intros h c l Hi Hops; cbn [run_ops spec_ops].
  - done.
  - apply Forall_cons in Hops as [Hk Hops]. wp_step. eapply wp_mono; [by apply lru_get_wp|].
    intros [v h1] [-> H1]. wp_step. eapply wp_mono; [by apply IH|].
    intros [[vs h2] c2] [-> H2]. cbn [wp].
    destruct (spec_get l k) as [v' l']. cbn in *. by destruct (spec_ops (capacity c) l' ops).
  - apply Forall_cons in Hops as [Hk Hops]. wp_step. eapply wp_mono; [by apply put_wp|].
    intros [h1 c1] [H1 E]. rewrite <- E in *. by apply IH.
Qed.

(** C17. The LRU cache refines its specification: from [cache_create] with any
    capacity, every sequence of [get]s and [put]s with keys 0..9999 is free of
    undefined behaviour and answers as the list of pairs does, which a hit moves
    to the front and which [put] cuts to the capacity from its
    least-recently-used end. *)
Theorem lru_refines_list cap ops :
  Forall (λ op, 0 ≤ op_key op < MAP_SIZE) ops →
  ∃ h c vs h' c', cache_create [] cap = Ok (h, c) ∧ run_ops h c ops = Ok (vs, h', c') ∧
    vs = (spec_ops cap [] ops).1 ∧ lru_inv h' c' (spec_ops cap [] ops).2.
Proof.
  intros Hops. destruct (wp_elim _ _ (cache_create_wp [] cap)) as ([h c] & E & Hi & <-).
  destruct (wp_elim _ _ (lru_run_ops_wp h c [] ops Hi Hops)) as ([[vs h'] c'] & E' & Hvs & Hi').
  by exists h, c, vs, h', c'.
Qed.

(** Capacity 2: the third key evicts the least recently used one, 2. *)
Lemma lru_refines_list_witness :
  let ops := [OpPut 1 10; OpPut 2 20; OpGet 1; OpPut 3 30; OpGet 2; OpGet 1] in
  (spec_ops 2 [] ops).1 = [10; -1; 10] ∧
  ∃ h c vs h' c', cache_create [] 2 = Ok (h, c) ∧ run_ops h c ops = Ok (vs, h', c') ∧
    vs = (spec_ops 2 [] ops).1 ∧ lru_inv h' c' (spec_ops 2 [] ops).2.
Proof.
  intros ops. split; [reflexivity|]. apply (lru_refines_list 2 ops).
  repeat (constructor; [done|]). constructor.
Defined.
