(* ===== verification/Arena.v ===== *)
(** * Arenas of nodes

    Models [benchmarks/merge_sorted_lists.c] and [benchmarks/forest.c]: both
    programs keep their nodes in a fixed array from which [arena_alloc] hands
    out the cells in order, and link them by index. *)
From S2P Require Import Prelude.

Record Arena (T : Type) := { data : list T; size : Z; capacity : Z }.
Arguments data {T}.
Arguments size {T}.
Arguments capacity {T}.

Section arena.
Context {T : Type} (junk : nat → T).

Definition arena_new (cap : Z) : Arena T :=
  {| data := malloc_arr junk cap; size := 0; capacity := cap |}.

Definition arena_alloc (a : Arena T) (n : T) : Res (Z * Arena T) :=
  let idx := size a in
  d ← wr (data a) idx n;
  Ok (idx, {| data := d; size := u32 (size a + 1); capacity := capacity a |}).

Definition arena_reset (a : Arena T) : Arena T :=
  {| data := data a; size := 0; capacity := capacity a |}.
End arena.

(** ** Merging sorted lists: [merge_sorted_lists.c] *)
Module Lists.
Record ListNode := { val : Z; next : Z }.

#[export] Instance ListNode_inhabited : Inhabited ListNode := populate {| val := 0; next := 0 |}.

Definition NULL_NODE : Z := 0xFFFFFFFF.

(** [create_list(a, len, start, step)]; [n] is [len], which the recursion
    counts down. *)
Fixpoint create_list (n : nat) (a : Arena ListNode) (start step : Z)
  : Res (Z * Arena ListNode) :=
  match n with
  | O => Ok (NULL_NODE, a)
  | S n =>
      start' ← i32 (start + step);
      '(next, a) ← create_list n a start' step;
      arena_alloc a {| val := start; next := next |}
  end.

Definition set_next (a : Arena ListNode) (i nxt : Z) : Res (Arena ListNode) :=
  n ← rd (data a) i;
  d ← wr (data a) i {| val := val n; next := nxt |};
  Ok {| data := d; size := size a; capacity := capacity a |}.

(** The recursion consumes one node per call; [fuel] bounds their number. *)
Fixpoint merge_two_lists (fuel : nat) (a : Arena ListNode) (l1 l2 : Z)
  : Res (Z * Arena ListNode) :=
  match fuel with
  | O => NoFuel
  | S fuel =>
    if l1 =? NULL_NODE then Ok (l2, a) else
    if l2 =? NULL_NODE then Ok (l1, a) else
    n1 ← rd (data a) l1;
    n2 ← rd (data a) l2;
    if val n1 <? val n2 then
      '(r, a) ← merge_two_lists fuel a (next n1) l2;
      a ← set_next a l1 r; Ok (l1, a)
    else
      '(r, a) ← merge_two_lists fuel a l1 (next n2);
      a ← set_next a l2 r; Ok (l2, a)
  end.

(** [while (curr != NULL_NODE)]: the sum of the list. *)
Definition sum_list (fuel : nat) (a : Arena ListNode) (curr checksum : Z) : Res Z :=
  r ← loop fuel (λ '(curr, checksum),
        if negb (curr =? NULL_NODE) then
          n ← rd (data a) curr;
          checksum ← i32 (checksum + val n);
          Ok (Next (next n, checksum))
        else Ok (Break (curr, checksum))) (curr, checksum);
  Ok (snd (fell r)).

Definition merge_round (a : Arena ListNode) (checksum : Z) : Res (Arena ListNode * Z) :=
  let a := arena_reset a in
  '(l1, a) ← create_list 100 a 0 2;
  '(l2, a) ← create_list 100 a 1 2;
  '(merged, a) ← merge_two_lists 201 a l1 l2;
  checksum ← sum_list 201 a merged checksum;
  Ok (a, checksum).

Definition merge_main (junk : nat → ListNode) : Res Z :=
  '(_, checksum) ← for_range 0 5000 (λ _ '(a, checksum), merge_round a checksum)
                     (arena_new junk 1000, 0);
  Ok checksum.
End Lists.

(** ** Building a forest: [forest.c] *)
Module Forest.
Record Node := { left : Z; right : Z; val : Z }.

Definition NULL_NODE : Z := 0xFFFFFFFFFFFFFFFF.

(** [make_tree(a, depth)] for [depth >= 0]. *)
Fixpoint make_tree (depth : nat) (a : Arena Node) : Res (Z * Arena Node) :=
  match depth with
  | O => Ok (NULL_NODE, a)
  | S d =>
      '(l, a) ← make_tree d a;
      '(r, a) ← make_tree d a;
      arena_alloc a {| left := l; right := r; val := Z.of_nat depth |}
  end.

(** [main] without its clock readings: the root, and the arena after the reset. *)
Definition forest_main (junk : nat → Node) : Res (Z * Arena Node) :=
  '(root, a) ← make_tree 22 (arena_new junk 4200000);
  Ok (u32 root, arena_reset a).
End Forest.
