(* ===== verification/ArenaSpec.v ===== *)
(** * Correctness of the arena programs

    Merging relinks the cells of two lists into their merge, in place; building
    a forest lays out a perfect tree. *)
From Stdlib Require Import Sorted.
From S2P Require Import Prelude Arena.

Module ListsSpec.
Import Lists.

(** The list at index [i]: its cells with their values. *)
Fixpoint chain (d : list ListNode) (i : Z) (l : list (Z * Z)) : Prop :=
  match l with
  | [] => i = NULL_NODE
  | (p, v) :: l =>
      i = p ∧ p ≠ NULL_NODE ∧ 0 ≤ p < zlen d ∧ val (d.[p]) = v ∧ chain d (next (d.[p])) l
  end.

Lemma chain_ext d d' i l : length d' = length d → (∀ p, p ∈ l.*1 → d'.[p] = d.[p]) →
  chain d i l → chain d' i l.
Proof.
  intros Hlen. revert i. induction l as [|[p v] l IH]; intros i Heq; [done|].
  cbn [chain]. intros (-> & ? & ? & ? & ?).
  rewrite (Heq p) by (rewrite fmap_cons; set_solver). rewrite Hlen.
  split_and!; try done; try lia. apply IH; [|done]. intros q Hq. apply Heq.
  rewrite fmap_cons. set_solver.
Qed.

Lemma chain_valid d i l p : chain d i l → p ∈ l.*1 → 0 ≤ p < zlen d.
Proof.
  revert i. induction l as [|[q v] l IH]; intros i; [intros _ Hp; by apply elem_of_nil in Hp|].
  intros (_ & _ & ? & _ & Hc) Hp. rewrite fmap_cons in Hp.
  apply elem_of_cons in Hp as [->|Hp]; [done|]. by eapply IH.
Qed.

(** The merge of two lists of cells; on equal values the second comes first. *)
Fixpoint merge (l1 : list (Z * Z)) : list (Z * Z) → list (Z * Z) :=
  match l1 with
  | [] => λ l2, l2
  | x1 :: l1' => fix merge_l2 l2 :=
      match l2 with
      | [] => x1 :: l1'
      | x2 :: l2' => if x1.2 <? x2.2 then x1 :: merge l1' l2 else x2 :: merge_l2 l2'
      end
  end.

Lemma merge_nil_r l : merge l [] = l.
Proof. by destruct l. Qed.

Lemma merge_cons x1 l1 x2 l2 : merge (x1 :: l1) (x2 :: l2) =
  if x1.2 <? x2.2 then x1 :: merge l1 (x2 :: l2) else x2 :: merge (x1 :: l1) l2.
Proof. done. Qed.

Lemma merge_perm l1 l2 : merge l1 l2 ≡ₚ l1 ++ l2.
Proof.
  revert l2. induction l1 as [|x1 l1 IH1]; intros l2; [done|].
  induction l2 as [|x2 l2 IH2]; [by rewrite app_nil_r|].
  rewrite merge_cons. destruct (x1.2 <? x2.2).
  - by rewrite IH1.
  - by rewrite IH2, Permutation_middle.
Qed.

Definition le_val (x y : Z * Z) : Prop := x.2 ≤ y.2.

#[export] Instance le_val_trans : Transitive le_val.
Proof. intros x y z. unfold le_val. lia. Qed.

Lemma merge_sorted l1 l2 :
  StronglySorted le_val l1 → StronglySorted le_val l2 → StronglySorted le_val (merge l1 l2).
Proof.
  revert l2. induction l1 as [|x1 l1 IH1]; intros l2 H1 H2; [done|].
  induction l2 as [|x2 l2 IH2]; [done|]. rewrite merge_cons.
  apply StronglySorted_inv in H1 as [H1 F1].
  pose proof (StronglySorted_inv H2) as [H2' F2].
  rewrite Forall_forall in F1, F2. destruct (Z.ltb_spec (x1.2) (x2.2)).
  - constructor; [by apply IH1|]. apply Forall_forall. intros y Hy.
    rewrite merge_perm in Hy. apply elem_of_app in Hy as [Hy|Hy]; [by apply F1|].
    apply elem_of_cons in Hy as [->|Hy]; [unfold le_val; lia|].
    specialize (F2 y Hy). unfold le_val in *. lia.
  - constructor; [apply IH2; done|]. apply Forall_forall. intros y Hy.
    rewrite merge_perm in Hy. apply elem_of_app in Hy as [Hy|Hy]; [|by apply F2].
    apply elem_of_cons in Hy as [->|Hy]; [unfold le_val; lia|].
    specialize (F1 y Hy). unfold le_val in *. lia.
Qed.

(** What a merge changes: the [next] fields of the merged cells only. *)
Definition relinked (a a' : Arena ListNode) (ps : list Z) : Prop :=
  length (data a') = length (data a) ∧ size a' = size a ∧ capacity a' = capacity a ∧
  (∀ p, 0 ≤ p → p ∉ ps → (data a').[p] = (data a).[p]).

Lemma link_next_wp a p nxt : 0 ≤ p < zlen (data a) →
  wp (set_next a p nxt) (λ a', relinked a a' [p] ∧
    (data a').[p] = {| val := val ((data a).[p]); next := nxt |}).
Proof.
  intros Hp. unfold set_next. wp_step. rewrite rd_ok by lia. cbn [wp]. wp_step.
  rewrite wr_ok by lia. cbn [wp]. split; [split_and!; cbn; try done|].
  - by rewrite length_zset.
  - intros q Hq Hn. rewrite znth_zset_ne; [done|lia..|set_solver].
  - cbn. by apply znth_zset_eq.
Qed.

Lemma merge_wp fuel a i1 i2 l1 l2 :
  (length l1 + length l2 < fuel)%nat → NoDup ((l1 ++ l2).*1) →
  chain (data a) i1 l1 → chain (data a) i2 l2 →
  wp (merge_two_lists fuel a i1 i2) (λ '(r, a'),
    chain (data a') r (merge l1 l2) ∧ relinked a a' ((l1 ++ l2).*1)).
Proof.
  revert a i1 i2 l1 l2. induction fuel as [|fuel IH]; intros a i1 i2 l1 l2 Hf Hnd H1 H2; [lia|].
  cbn [merge_two_lists]. assert (relinked a a ((l1 ++ l2).*1)) as Hrefl by done.
  destruct l1 as [|[p1 v1] l1]; cbn [chain] in H1.
  { subst i1. rewrite Z.eqb_refl. done. }
  destruct H1 as (-> & Hn1 & Hp1 & Hv1 & H1). rewrite (proj2 (Z.eqb_neq _ _) Hn1).
  destruct l2 as [|[p2 v2] l2]; cbn [chain] in H2.
  { subst i2. rewrite Z.eqb_refl. cbn [wp]. rewrite merge_nil_r. done. }
  destruct H2 as (-> & Hn2 & Hp2 & Hv2 & H2). rewrite (proj2 (Z.eqb_neq _ _) Hn2).
  wp_step. rewrite rd_ok by lia. cbn [wp]. wp_step. rewrite rd_ok by lia. cbn [wp].
  rewrite merge_cons. cbn [snd]. rewrite Hv1, Hv2. rewrite !fmap_app, !fmap_cons in *.
  cbn [fst length app] in *. destruct (v1 <? v2).
  - wp_step. eapply wp_mono.
    { apply (IH a _ p2 l1 ((p2, v2) :: l2)); [cbn; lia| |done|by cbn].
      apply NoDup_cons in Hnd as [_ Hnd]. by rewrite fmap_app, fmap_cons. }
    intros [r a1] [Hc (Hl & Hs & Hcap & Hframe)]. rewrite fmap_app, fmap_cons in Hframe. cbn [fst] in Hframe.
    wp_step. eapply wp_mono; [apply link_next_wp; lia|].
    intros a2 [(Hl2 & Hs2 & Hcap2 & Hframe2) Hnew]. cbn [wp]. split.
    + cbn [chain]. rewrite Hnew. cbn. split_and!; [done|done|lia|lia| |].
      * rewrite Hframe; [done|lia|]. apply NoDup_cons in Hnd as [Hnd _]. set_solver.
      * eapply chain_ext; [..|exact Hc]; [done|]. intros q Hq.
        pose proof (chain_valid _ _ _ _ Hc Hq). apply Hframe2; [lia|].
        rewrite (merge_perm l1 ((p2, v2) :: l2)), fmap_app in Hq.
        apply NoDup_cons in Hnd as [Hnd _]. rewrite fmap_cons in Hq. cbn in Hq.
        rewrite list_elem_of_singleton. intros ->. done.
    + split_and!; [congruence..|]. intros q Hq0 Hq. rewrite Hframe2, Hframe by set_solver. done.
  - wp_step. eapply wp_mono.
    { apply (IH a p1 _ ((p1, v1) :: l1) l2); [cbn; lia| |by cbn|done].
      rewrite fmap_app, fmap_cons. cbn. rewrite <- Permutation_middle in Hnd.
      rewrite Permutation_swap in Hnd. by apply NoDup_cons in Hnd as [_ Hnd]. }
    assert (p2 ∉ p1 :: l1.*1 ++ l2.*1) as Hp2n.
    { rewrite <- Permutation_middle in Hnd. rewrite Permutation_swap in Hnd.
      by apply NoDup_cons in Hnd as [? _]. }
    intros [r a1] [Hc (Hl & Hs & Hcap & Hframe)]. rewrite fmap_app, fmap_cons in Hframe. cbn [fst app] in Hframe.
    wp_step. eapply wp_mono; [apply link_next_wp; lia|].
    intros a2 [(Hl2 & Hs2 & Hcap2 & Hframe2) Hnew]. cbn [wp]. split.
    + cbn [chain]. rewrite Hnew. cbn [val next]. split_and!; [done|done|lia|lia| |].
      * rewrite Hframe; [done|lia|done].
      * eapply chain_ext; [..|exact Hc]; [done|]. intros q Hq.
        pose proof (chain_valid _ _ _ _ Hc Hq). apply Hframe2; [lia|].
        rewrite (merge_perm ((p1, v1) :: l1) l2), fmap_app, fmap_cons in Hq. cbn in Hq.
        rewrite list_elem_of_singleton. intros ->. done.
    + split_and!; [congruence..|]. intros q Hq0 Hq. rewrite Hframe2, Hframe by set_solver. done.
Qed.

(** [merge_two_lists] on two lists of distinct cells terminates within one
    call per cell plus one, without undefined behaviour.  The result is the list
    of exactly the same cells, sorted when both inputs are, and no other cell of
    the arena changes. *)
Theorem merge_two_lists_correct fuel a i1 i2 l1 l2 :
  (length l1 + length l2 < fuel)%nat → NoDup ((l1 ++ l2).*1) →
  chain (data a) i1 l1 → chain (data a) i2 l2 →
  ∃ r a' l, merge_two_lists fuel a i1 i2 = Ok (r, a') ∧
    chain (data a') r l ∧ l ≡ₚ l1 ++ l2 ∧
    (StronglySorted le_val l1 → StronglySorted le_val l2 → StronglySorted le_val l) ∧
    relinked a a' ((l1 ++ l2).*1).
Proof.
  intros Hf Hnd H1 H2.
  destruct (wp_elim _ _ (merge_wp fuel a i1 i2 l1 l2 Hf Hnd H1 H2)) as ([r a'] & E & Hc & Hr).
  exists r, a', (merge l1 l2). split_and!; [done|done|apply merge_perm|apply merge_sorted|done].
Qed.

Lemma merge_two_lists_correct_witness :
  let a := {| data := [{| val := 5; next := NULL_NODE |}; {| val := 1; next := 0 |};
                       {| val := 3; next := NULL_NODE |}]; size := 3; capacity := 3 |} in
  ∃ r a' l, merge_two_lists 4 a 1 2 = Ok (r, a') ∧ r = 1 ∧
    chain (data a') r l ∧ l ≡ₚ [(1, 1); (0, 5)] ++ [(2, 3)] ∧
    (StronglySorted le_val [(1, 1); (0, 5)] → StronglySorted le_val [(2, 3)] →
     StronglySorted le_val l) ∧ relinked a a' [1; 0; 2].
Proof.
  intros a.
  destruct (merge_two_lists_correct 4 a 1 2 [(1, 1); (0, 5)] [(2, 3)]) as (r & a' & l & E & H).
  - cbn. lia.
  - cbn. repeat (constructor; [set_solver|]). constructor.
  - cbn. done.
  - cbn. done.
  - exists r, a', l. split; [exact E|]. split; [|exact H].
    vm_compute in E. by injection E as <-.
Defined.
End ListsSpec.

Module ForestSpec.
Import Forest.

#[export] Instance Node_inhabited : Inhabited Node := populate {| left := 0; right := 0; val := 0 |}.

(** The perfect tree of the given depth with root [p] that occupies the
    [2^depth - 1] cells from [lo], children before parents, each node holding its
    height. *)
Fixpoint perfect (d : list Node) (p : Z) (depth : nat) (lo : Z) : Prop :=
  match depth with
  | O => p = NULL_NODE
  | S n =>
      p = lo + 2 * (2 ^ Z.of_nat n - 1) ∧ val (d.[p]) = Z.of_nat depth ∧
      perfect d (left (d.[p])) n lo ∧
      perfect d (right (d.[p])) n (lo + (2 ^ Z.of_nat n - 1))
  end.

Lemma perfect_ext d d' p depth lo : 0 ≤ lo →
  (∀ q, lo ≤ q < lo + (2 ^ Z.of_nat depth - 1) → d'.[q] = d.[q]) →
  perfect d p depth lo → perfect d' p depth lo.
Proof.
  revert p lo. induction depth as [|n IH]; intros p lo Hlo Heq; [done|].
  rewrite Nat2Z.inj_succ, Z.pow_succ_r in Heq by lia.
  pose proof (Z.pow_pos_nonneg 2 (Z.of_nat n) ltac:(lia) ltac:(lia)).
  cbn [perfect]. intros (-> & Hv & Hl & Hr). rewrite Heq by lia.
  split_and!; [done|done|apply IH; [lia| |done]; intros; apply Heq; lia|].
  apply IH; [lia| |done]. intros. apply Heq. lia.
Qed.

Lemma alloc_wp {T} `{!Inhabited T} (a : Arena T) n : 0 ≤ size a < zlen (data a) → zlen (data a) < 2 ^ 32 →
  wp (arena_alloc a n) (λ '(i, a'), i = size a ∧ size a' = size a + 1 ∧ capacity a' = capacity a ∧
    data a' = zset (data a) (size a) n).
Proof.
  intros Hs Hl. unfold arena_alloc. rewrite wr_ok by lia. cbn.
  split_and!; [done| |done|done]. apply u32_small. lia.
Qed.

Lemma make_tree_wp depth a :
  0 ≤ size a → size a + (2 ^ Z.of_nat depth - 1) ≤ zlen (data a) → zlen (data a) < 2 ^ 32 →
  wp (make_tree depth a) (λ '(p, a'),
    perfect (data a') p depth (size a) ∧ size a' = size a + (2 ^ Z.of_nat depth - 1) ∧
    length (data a') = length (data a) ∧
    ∀ q, 0 ≤ q < size a → (data a').[q] = (data a).[q]).
Proof.
  revert a. induction depth as [|n IH]; intros a Hs Hroom Hlen; cbn [make_tree].
  { cbn. split_and!; [done|lia|done|done]. }
  rewrite Nat2Z.inj_succ, Z.pow_succ_r in * by lia.
  pose proof (Z.pow_pos_nonneg 2 (Z.of_nat n) ltac:(lia) ltac:(lia)).
  wp_step. eapply wp_mono; [apply IH; lia|]. intros [l a1] (Hl & Hs1 & Hl1 & Hf1).
  wp_step. eapply wp_mono; [apply IH; [lia|rewrite Hl1; lia|by rewrite Hl1]|].
  intros [r a2] (Hr & Hs2 & Hl2 & Hf2).
  eapply wp_mono; [apply alloc_wp; [rewrite Hl2, Hl1; lia|by rewrite Hl2, Hl1]|].
  intros [p a3] (-> & Hs3 & _ & Hd). rewrite Hd, Hs3.
  assert (zlen (data a2) = zlen (data a)) as Hl3 by by rewrite Hl2, Hl1.
  split_and!; [|lia|by rewrite length_zset, Hl2, Hl1|].
  - cbn [perfect]. rewrite znth_zset_eq by lia. cbn [left right val].
    split_and!; [lia|lia| |].
    + apply (perfect_ext (data a1)); [lia| |done]. intros q Hq.
      rewrite znth_zset_ne by lia. apply Hf2. lia.
    + rewrite <- Hs1. apply (perfect_ext (data a2)); [lia| |done]. intros q Hq.
      by rewrite znth_zset_ne by lia.
  - intros q Hq. rewrite znth_zset_ne by lia. rewrite Hf2 by lia. by apply Hf1.
Qed.

Lemma make_tree_root n a0 root :
  size a0 = 0 → 2 * 2 ^ Z.of_nat n - 1 ≤ zlen (data a0) < 2 ^ 32 →
  root = 2 * (2 ^ Z.of_nat n - 1) →
  ∃ a, make_tree (S n) a0 = Ok (root, a) ∧ perfect (data a) root (S n) 0 ∧ size a = root + 1.
Proof.
  intros Hs Hl ->. pose proof (make_tree_wp (S n) a0) as Hw.
  rewrite Hs, Nat2Z.inj_succ, Z.pow_succ_r in Hw by lia.
  specialize (Hw ltac:(lia) ltac:(lia) ltac:(lia)).
  apply wp_elim in Hw as ([p a] & E & Hp & Hsz & _). exists a.
  assert (p = 2 * (2 ^ Z.of_nat n - 1)) as <- by (destruct Hp as [-> _]; lia).
  split_and!; [done|done|]. destruct Hp as [-> _]. lia.
Qed.

Lemma new_arena_ok {T} (junk : nat → T) cap : 0 ≤ cap →
  size (arena_new junk cap) = 0 ∧ zlen (data (arena_new junk cap)) = cap.
Proof. intros. cbn. rewrite length_malloc. lia. Qed.

(** The forest program runs within its arena of 4200000 cells whatever
    [malloc] returned in it: the tree of depth 22 it builds is perfect, each node
    holding its height, it occupies the cells 0..4194302 with the root last, and
    the arena is empty again after the reset. *)
Theorem forest_main_builds junk :
  ∃ a, forest_main junk = Ok (4194302, arena_reset a) ∧ perfect (data a) 4194302 22 0 ∧
       size a = 4194303 ∧ size (arena_reset a) = 0.
Proof.
  unfold forest_main.
  destruct (new_arena_ok junk 4200000) as [Hs0 Hl0]; [done|].
  destruct (make_tree_root 21 (arena_new junk 4200000) 4194302 Hs0) as (a & E & Hp & Hs).
  - rewrite Hl0. lia.
  - reflexivity.
  - exists a. rewrite E. split; [reflexivity|]. split; [exact Hp|]. split; [exact Hs|reflexivity].
Qed.
End ForestSpec.
