(* ===== verification/TrieSpec.v ===== *)
(** * The trie represents the set of inserted words *)
From S2P Require Import Prelude Trie.

Definition lower (w : list Z) : Prop := Forall (λ c, 97 ≤ c < 123) w.

Abbreviation kid a p i := ((children ((data a).[p])).[i]).

Record trie_ok (a : Arena) : Prop := {
  to_size : 0 < size a ≤ zlen (data a);
  to_len : zlen (data a) < 2 ^ 32;
  to_kids p : 0 ≤ p < size a → zlen (children ((data a).[p])) = 26;
  to_kid p i : 0 ≤ p < size a → 0 ≤ i < 26 → kid a p i = NO_CHILD ∨ p < kid a p i < size a;
  to_inj p q i j : 0 ≤ p < size a → 0 ≤ q < size a → 0 ≤ i < 26 → 0 ≤ j < 26 →
    kid a p i = kid a q j → kid a p i ≠ NO_CHILD → p = q ∧ i = j;
}.

(** Following a word from a node. *)
Fixpoint walk (a : Arena) (p : Z) (w : list Z) : option Z :=
  match w with
  | [] => Some p
  | ch :: w =>
      if decide (97 ≤ ch < 123 ∧ kid a p (ch - 97) ≠ NO_CHILD) then walk a (kid a p (ch - 97)) w
      else None
  end.

(** Is the word in the trie? *)
Definition mem (a : Arena) (w : list Z) : bool :=
  match walk a 0 w with Some n => is_word ((data a).[n]) | None => false end.

Lemma walk_app a p u v :
  walk a p (u ++ v) = match walk a p u with Some n => walk a n v | None => None end.
Proof. revert p. induction u as [|c u IH]; intros p; [done|]. cbn. case_decide; [apply IH|done]. Qed.

Lemma walk_range a p w n : trie_ok a → 0 ≤ p < size a → walk a p w = Some n →
  p ≤ n < size a ∧ (w ≠ [] → p < n).
Proof.
  intros Hok. revert p. induction w as [|c w IH]; intros p Hp; cbn.
  - intros [= <-]. split; [lia|done].
  - case_decide as Hd; [|done]. destruct Hd as [Hc Hk]. intros Hw.
    destruct (to_kid _ Hok p (c - 97)) as [?|?]; [done|lia|done|].
    apply IH in Hw as [? _]; [|lia]. lia.
Qed.

(** Only one word leads to a node. *)
Lemma walk_inj a u v n : trie_ok a → walk a 0 u = Some n → walk a 0 v = Some n → u = v.
Proof.
  intros Hok. pose proof (to_size _ Hok) as Hs.
  revert v n. induction u as [|c u IH] using rev_ind; intros v n Hu Hv.
  - destruct v as [|d v]; [done|]. injection Hu as <-.
    apply walk_range in Hv as [_ Hlt]; [|done|lia]. specialize (Hlt ltac:(done)). lia.
  - destruct v as [|d v _] using rev_ind.
    { injection Hv as <-. apply walk_range in Hu as [_ Hlt]; [|done|lia].
      specialize (Hlt ltac:(by destruct u)). lia. }
    rewrite walk_app in Hu, Hv.
    destruct (walk a 0 u) as [p|] eqn:Eu; [|done]. destruct (walk a 0 v) as [q|] eqn:Ev; [|done].
    cbn in Hu, Hv. case_decide as Hd; [|done]. case_decide as Hd'; [|done].
    injection Hu as Hu. injection Hv as Hv.
    apply walk_range in Eu as Hp; [|done|lia]. apply walk_range in Ev as Hq; [|done|lia].
    destruct (to_inj _ Hok p q (c - 97) (d - 97)) as [-> ?]; [lia..|congruence|tauto|].
    rewrite (IH v q); [by replace c with d by lia|done|done].
Qed.

(** ** Adding a node *)
Lemma child_ok a p i : trie_ok a → 0 ≤ p < size a → 0 ≤ i < 26 → child a p i = Ok (kid a p i).
Proof.
  intros Hok Hp Hi. pose proof (to_size _ Hok). unfold child. rewrite rd_ok by lia.
  cbn [mbind Res_bind]. apply rd_ok. rewrite to_kids by done. lia.
Qed.

(** [a'] is [a] with the fresh node [size a] as child [i] of [p]. *)
Record added (a a' : Arena) (p i : Z) : Prop := {
  ad_ok : trie_ok a';
  ad_size : size a' = size a + 1;
  ad_len : length (data a') = length (data a);
  ad_kid q j : 0 ≤ q < size a → 0 ≤ j < 26 →
    kid a' q j = if decide (q = p ∧ j = i) then size a else kid a q j;
  ad_new j : 0 ≤ j < 26 → kid a' (size a) j = NO_CHILD;
  ad_word q : 0 ≤ q < size a → is_word ((data a').[q]) = is_word ((data a).[q]);
  ad_new_word : is_word ((data a').[size a]) = false;
}.

Lemma add_wp a p i : trie_ok a → size a < zlen (data a) → 0 ≤ p < size a → 0 ≤ i < 26 →
  kid a p i = NO_CHILD →
  wp ('(m, a) ← arena_alloc a; set_child a p i m) (λ a', added a a' p i).
Proof.
  intros Hok Hroom Hp Hi Hnone. pose proof (to_size _ Hok) as Hs. pose proof (to_len _ Hok) as Hl.
  unfold arena_alloc, set_child. wp_step. wp_step. rewrite wr_ok by lia. cbn [wp data size capacity].
  wp_step. rewrite rd_ok by (rewrite length_zset; lia). cbn [wp].
  rewrite znth_zset_ne by lia. wp_step. rewrite wr_ok by (rewrite to_kids by done; lia). cbn [wp].
  wp_step. rewrite wr_ok by (rewrite length_zset; lia). cbn [wp].
  set (nd := {| children := replicate 26 NO_CHILD; is_word := false |}).
  set (pd := {| children := zset _ _ _; is_word := _ |}).
  assert (u32 (size a + 1) = size a + 1) as Eu by (apply u32_small; lia).
  assert (∀ q, 0 ≤ q < size a → q ≠ p → (zset (zset (data a) (size a) nd) p pd).[q] = (data a).[q]) as E1.
  { intros q Hq Hne. rewrite !znth_zset_ne by lia. done. }
  assert ((zset (zset (data a) (size a) nd) p pd).[p] = pd) as E2.
  { apply znth_zset_eq. rewrite length_zset. lia. }
  assert ((zset (zset (data a) (size a) nd) p pd).[size a] = nd) as E3.
  { rewrite znth_zset_ne by lia. apply znth_zset_eq. lia. }
  set (a' := {| data := _; size := _; capacity := _ |}).
  assert (∀ q j, 0 ≤ q < size a → 0 ≤ j < 26 →
    kid a' q j = if decide (q = p ∧ j = i) then size a else kid a q j) as Ek.
  { intros q j Hq Hj. cbn. destruct (decide (q = p)) as [->|Hne].
    - rewrite E2. cbn. rewrite znth_zset by (rewrite ?to_kids by done; lia).
      destruct (decide (i = j)) as [<-|]; [by rewrite decide_True|].
      by rewrite decide_False by (intros [_ ?]; congruence).
    - rewrite E1 by done. by rewrite decide_False by (intros [? _]; congruence). }
  assert (∀ j, 0 ≤ j < 26 → kid a' (size a) j = NO_CHILD) as En.
  { intros j Hj. change (data a') with (zset (zset (data a) (size a) nd) p pd). rewrite E3. apply znth_replicate. lia. }
  assert (size a' = size a + 1) as Es by done.
  assert (∀ q, 0 ≤ q < size a' → q = size a ∨ 0 ≤ q < size a) as Hcase by lia.
  split; [split|done|cbn; by rewrite !length_zset|done|done| |cbn; by rewrite E3].
  - cbn. rewrite !length_zset. lia.
  - cbn. by rewrite !length_zset.
  - intros q [->|Hq]%Hcase; cbn.
    + by rewrite E3.
    + destruct (decide (q = p)) as [->|Hne]; [rewrite E2; cbn; rewrite length_zset|rewrite E1 by done];
        by apply (to_kids _ Hok).
  - intros q j [->|Hq]%Hcase Hj; [left; by apply En|]. rewrite Ek, Es by done.
    case_decide as Hd; [right; lia|]. destruct (to_kid _ Hok q j Hq Hj); [by left|right; lia].
  - intros q q' j j' [->|Hq]%Hcase [->|Hq']%Hcase Hj Hj'.
    + rewrite En by done. done.
    + rewrite En by done. done.
    + rewrite (En j') by done. congruence.
    + rewrite !Ek by done. destruct (decide (q = p ∧ j = i)) as [[-> ->]|], (decide (q' = p ∧ j' = i)) as [[-> ->]|].
      * done.
      * intros E. destruct (to_kid _ Hok q' j' Hq' Hj'); [|lia].
        intros HN. congruence.
      * intros E HN. destruct (to_kid _ Hok q j Hq Hj); [done|lia].
      * by apply (to_inj _ Hok).
  - intros q Hq. cbn. destruct (decide (q = p)) as [->|]; [by rewrite E2|by rewrite E1].
Qed.

Lemma added_walk a a' p i q w n : trie_ok a → added a a' p i → kid a p i = NO_CHILD →
  0 ≤ p < size a → 0 ≤ i < 26 → 0 ≤ q < size a →
  walk a q w = Some n → walk a' q w = Some n.
Proof.
  intros Hok Had Hnone Hp Hi. revert q. induction w as [|c w IH]; intros q Hq; [done|].
  cbn. case_decide as Hd; [|done]. destruct Hd as [Hc Hk]. intros Hw.
  assert (kid a' q (c - 97) = kid a q (c - 97)) as E.
  { rewrite (ad_kid _ _ _ _ Had) by lia. rewrite decide_False; [done|]. intros [-> <-]. done. }
  rewrite E, decide_True by done. apply IH; [|done].
  destruct (to_kid _ Hok q (c - 97)); [lia|lia|done|lia].
Qed.

Lemma added_walk_inv a a' p i q w n : trie_ok a → added a a' p i →
  0 ≤ p < size a → 0 ≤ i < 26 → 0 ≤ q < size a →
  walk a' q w = Some n → n ≠ size a → walk a q w = Some n.
Proof.
  intros Hok Had Hp Hi. revert q. induction w as [|c w IH]; intros q Hq; [done|].
  cbn. case_decide as Hd; [|done]. destruct Hd as [Hc Hk].
  rewrite (ad_kid _ _ _ _ Had) in * by lia. case_decide as Hd.
  - (* through the new node, which has no children *)
    intros Hw Hn. destruct w as [|d w]; cbn in Hw; [congruence|].
    case_decide as Hd'; [|done]. destruct Hd' as [? Hd'].
    by rewrite (ad_new _ _ _ _ Had) in Hd' by lia.
  - intros Hw Hn. rewrite decide_True by done. apply IH; [|done..].
    destruct (to_kid _ Hok q (c - 97)); [lia|lia|done|lia].
Qed.

Lemma added_mem a a' p i w : trie_ok a → added a a' p i → kid a p i = NO_CHILD →
  0 ≤ p < size a → 0 ≤ i < 26 → mem a' w = mem a w.
Proof.
  intros Hok Had Hnone Hp Hi. pose proof (to_size _ Hok) as Hs. unfold mem.
  destruct (walk a 0 w) as [n|] eqn:E.
  - rewrite (added_walk a a' p i 0 w n) by (done || lia).
    apply (ad_word _ _ _ _ Had). apply walk_range in E; [lia|done|lia].
  - destruct (walk a' 0 w) as [n|] eqn:E'; [|done].
    destruct (decide (n = size a)) as [->|Hn]; [by apply (ad_new_word _ _ _ _ Had)|].
    rewrite (added_walk_inv a a' p i 0 w n) in E by (done || lia). done.
Qed.

(** ** Insertion *)
Lemma mark_wp a u n : trie_ok a → walk a 0 u = Some n →
  wp (nd ← rd (data a) n; d ← wr (data a) n {| children := children nd; is_word := true |};
      Ok {| data := d; size := size a; capacity := capacity a |})
     (λ a', trie_ok a' ∧ size a' = size a ∧ length (data a') = length (data a) ∧
            ∀ w, mem a' w = bool_decide (w = u) || mem a w).
Proof.
  intros Hok Hu. pose proof (to_size _ Hok) as Hs.
  apply walk_range in Hu as Hn; [|done|lia]. destruct Hn as [Hn _].
  wp_step. rewrite rd_ok by lia. cbn [wp]. wp_step. rewrite wr_ok by lia. cbn [wp].
  set (nd := {| children := _; is_word := true |}). set (a' := {| data := _; size := _; capacity := _ |}).
  assert (∀ p, 0 ≤ p < size a → children ((data a').[p]) = children ((data a).[p])) as Ek.
  { intros p Hp. cbn. rewrite znth_zset by lia. by case_decide; subst. }
  assert (trie_ok a') as Hok'.
  { split.
    - cbn. rewrite length_zset. lia.
    - cbn. rewrite length_zset. apply Hok.
    - intros p Hp. rewrite Ek by done. by apply (to_kids _ Hok).
    - intros p i Hp Hi. rewrite Ek by done. by apply (to_kid _ Hok).
    - intros p q i j Hp Hq Hi Hj. rewrite !Ek by done. by apply (to_inj _ Hok). }
  assert (∀ w p, 0 ≤ p < size a → walk a' p w = walk a p w) as Ew.
  { intros w. induction w as [|c w IH]; intros p Hp; [done|]. cbn [walk].
    rewrite Ek by done. case_decide as Hd; [|done]. destruct Hd as [Hc Hk]. apply IH.
    destruct (to_kid _ Hok p (c - 97)); [lia|lia|done|lia]. }
  split_and!; [done|done|cbn; by rewrite length_zset|].
  intros w. unfold mem. rewrite Ew by lia. destruct (walk a 0 w) as [m|] eqn:E.
  - apply walk_range in E as Hm; [|done|lia]. cbn. rewrite znth_zset by lia.
    destruct (decide (n = m)) as [<-|Hne]; cbn.
    + rewrite (walk_inj a w u n) by done. by rewrite bool_decide_true.
    + rewrite bool_decide_false; [done|]. intros ->. congruence.
  - rewrite bool_decide_false; [done|]. intros ->. congruence.
Qed.

Lemma insert_at_wp a u p w : trie_ok a → walk a 0 u = Some p → lower w →
  size a + zlen w ≤ zlen (data a) →
  wp (insert_at a p (w ++ [0])) (λ a', trie_ok a' ∧ size a' ≤ size a + zlen w ∧
    length (data a') = length (data a) ∧ ∀ v, mem a' v = bool_decide (v = u ++ w) || mem a v).
Proof.
  revert a u p. induction w as [|c w IH]; intros a u p Hok Hu Hw Hroom; cbn [app insert_at].
  - rewrite Z.eqb_refl. eapply wp_mono; [by apply (mark_wp a u)|].
    intros a' (Hok' & Hs & Hl & Hm). rewrite app_nil_r. cbn [length]. split_and!; [done|lia|done|done].
  - apply Forall_cons in Hw as [Hc Hw]. cbn [length] in Hroom.
    rewrite (proj2 (Z.eqb_neq c 0)) by lia. cbn zeta. pose proof (to_size _ Hok) as Hs.
    apply walk_range in Hu as Hp; [|done|lia]. destruct Hp as [Hp _].
    rewrite child_ok by (done || lia). cbn [mbind Res_bind].
    assert (wp (if kid a p (c - 97) =? NO_CHILD
                then '(m, a) ← arena_alloc a; set_child a p (c - 97) m else Ok a)
      (λ a', trie_ok a' ∧ size a' ≤ size a + 1 ∧ length (data a') = length (data a) ∧
        (∀ v, mem a' v = mem a v) ∧ walk a' 0 (u ++ [c]) = Some (kid a' p (c - 97)) ∧
        child a' p (c - 97) = Ok (kid a' p (c - 97)))) as Hstep.
    { destruct (Z.eqb_spec (kid a p (c - 97)) NO_CHILD) as [E|E].
      - eapply wp_mono; [apply add_wp; done || lia|]. intros a' Had.
        split_and!; [apply Had|rewrite (ad_size _ _ _ _ Had); lia|apply Had| | |].
        + intros v. apply (added_mem a a' p (c - 97)); done || lia.
        + rewrite walk_app, (added_walk a a' p (c - 97) 0 u p) by (done || lia). cbn.
          rewrite decide_True; [done|]. split; [lia|].
          rewrite (ad_kid _ _ _ _ Had), decide_True by (done || lia).
          pose proof (to_len _ Hok). unfold NO_CHILD. lia.
        + apply child_ok; [apply Had|rewrite (ad_size _ _ _ _ Had); lia|lia].
      - cbn [wp]. split_and!; [done|lia|done|done| |].
        + rewrite walk_app, Hu. cbn. by rewrite decide_True.
        + apply child_ok; done || lia. }
    wp_step. eapply wp_mono; [exact Hstep|]. intros a1 (Hok1 & Hs1 & Hl1 & Hm1 & Hw1 & Hc1).
    rewrite Hc1. cbn [mbind Res_bind].
    eapply wp_mono; [apply (IH a1 (u ++ [c])); [done|done|done|rewrite Hl1; lia]|].
    intros a2 (Hok2 & Hs2 & Hl2 & Hm2). cbn [length]. split_and!; [done|lia|congruence|].
    intros v. rewrite Hm2, Hm1, <- app_assoc. done.
Qed.

(** ** Search *)
Lemma search_at_ok a p w : trie_ok a → 0 ≤ p < size a → lower w →
  search_at a p (w ++ [0]) =
  Ok match walk a p w with Some n => is_word ((data a).[n]) | None => false end.
Proof.
  intros Hok. revert p. induction w as [|c w IH]; intros p Hp Hw; cbn [app search_at walk].
  - rewrite Z.eqb_refl. pose proof (to_size _ Hok). rewrite rd_ok by lia. done.
  - apply Forall_cons in Hw as [Hc Hw]. rewrite (proj2 (Z.eqb_neq c 0)) by lia. cbn zeta.
    rewrite !child_ok by (done || lia). cbn [mbind Res_bind].
    destruct (Z.eqb_spec (kid a p (c - 97)) NO_CHILD) as [E|E].
    + by rewrite decide_False by (intros [_ ?]; done).
    + rewrite decide_True by done. apply IH; [|done].
      destruct (to_kid _ Hok p (c - 97)); [lia|lia|done|lia].
Qed.

(** ** Building a trie *)
Fixpoint insert_all (a : Arena) (root : Z) (ws : list (list Z)) : Res Arena :=
  match ws with
  | [] => Ok a
  | w :: ws => a ← insert a root (w ++ [0]); insert_all a root ws
  end.

Definition total_length (ws : list (list Z)) : Z := foldr (λ w n, zlen w + n) 0 ws.

Lemma total_length_nonneg ws : 0 ≤ total_length ws.
Proof. unfold total_length. induction ws; cbn [foldr]; lia. Qed.

Lemma trie_insert_all_wp a ws : trie_ok a → Forall lower ws →
  size a + total_length ws ≤ zlen (data a) →
  wp (insert_all a 0 ws) (λ a', trie_ok a' ∧ ∀ v, mem a' v = bool_decide (v ∈ ws) || mem a v).
Proof.
  revert a. induction ws as [|w ws IH]; intros a Hok Hws Hroom; cbn [insert_all].
  { cbn [wp]. split; [done|]. intros v. rewrite bool_decide_false; [done|apply not_elem_of_nil]. }
  apply Forall_cons in Hws as [Hw Hws]. cbn [total_length foldr] in Hroom.
  change (foldr (λ w n, zlen w + n) 0 ws) with (total_length ws) in Hroom.
  pose proof (total_length_nonneg ws) as Hpos.
  wp_step. eapply wp_mono; [apply (insert_at_wp a [] 0 w); [done|done|done|lia]|].
  intros a1 (Hok1 & Hs1 & Hl1 & Hm1).
  eapply wp_mono; [apply IH; [done|done|rewrite Hl1; lia]|].
  intros a2 [Hok2 Hm2]. split; [done|]. intros v. rewrite Hm2, Hm1. cbn [app].
  rewrite orb_assoc. f_equal. destruct (bool_decide (v ∈ w :: ws)) eqn:E.
  - apply bool_decide_eq_true in E. apply elem_of_cons in E as [->|E].
    + rewrite (bool_decide_true (w = w)) by done. apply orb_true_r.
    + by rewrite (bool_decide_true (v ∈ ws)) by done.
  - apply bool_decide_eq_false in E. rewrite !bool_decide_false by set_solver. done.
Qed.

(** C34. The trie is the set of its words: in an arena with room for them, whatever
    it contained, all insertions of lower-case words succeed, and afterwards a
    search answers true exactly for the words inserted. *)
Theorem trie_search_complete junk cap ws :
  Forall lower ws → 1 + total_length ws ≤ cap < 2 ^ 32 →
  ∃ root a0 a, arena_alloc (arena_new junk cap) = Ok (root, a0) ∧
    insert_all a0 root ws = Ok a ∧
    ∀ v, lower v → search a root (v ++ [0]) = Ok (bool_decide (v ∈ ws)).
Proof.
  intros Hws Hcap. pose proof (total_length_nonneg ws) as Hpos.
  set (nd := {| children := replicate 26 NO_CHILD; is_word := false |}).
  set (a0 := {| data := zset (malloc_arr junk cap) 0 nd; size := 1; capacity := cap |}).
  assert (arena_alloc (arena_new junk cap) = Ok (0, a0)) as E0.
  { unfold arena_alloc. cbn. rewrite wr_ok by (rewrite length_malloc; lia). done. }
  assert ((data a0).[0] = nd) as Hnd.
  { cbn. apply (znth_zset_eq _ 0). rewrite length_malloc. lia. }
  assert (zlen (data a0) = cap) as Hl by (cbn; rewrite length_zset, length_malloc; lia).
  assert (∀ p, 0 ≤ p < size a0 → p = 0) as H0 by (cbn; lia).
  assert (∀ i, 0 ≤ i < 26 → kid a0 0 i = NO_CHILD) as Hk.
  { intros i Hi. rewrite Hnd. apply znth_replicate. lia. }
  assert (trie_ok a0) as Hok.
  { split.
    - rewrite Hl. cbn. lia.
    - rewrite Hl. lia.
    - intros p ->%H0. by rewrite Hnd.
    - intros p i ->%H0 Hi. left. by apply Hk.
    - intros p q i j ->%H0 ->%H0 Hi Hj. rewrite !Hk by done. done. }
  destruct (wp_elim _ _ (trie_insert_all_wp a0 ws Hok Hws ltac:(rewrite Hl; cbn; lia)))
    as (a & E & Hok' & Hm).
  exists 0, a0, a. split_and!; [done|done|]. intros v Hv. unfold search.
  rewrite search_at_ok; [|done|pose proof (to_size _ Hok'); lia|done].
  f_equal. change (mem a v = bool_decide (v ∈ ws)). rewrite Hm.
  assert (mem a0 v = false) as ->; [|apply orb_false_r].
  unfold mem. destruct v as [|c v]; cbn [walk]; [by rewrite Hnd|].
  apply Forall_cons in Hv as [Hc _].
  rewrite decide_False; [done|]. rewrite Hk by lia. intros [_ ?]. done.
Qed.

Lemma trie_search_complete_witness :
  let ws := [[97; 98]; [97; 98; 99]] in
  ∃ root a0 a, arena_alloc (arena_new (λ _, {| children := []; is_word := true |}) 10) = Ok (root, a0) ∧
    insert_all a0 root ws = Ok a ∧
    ∀ v, lower v → search a root (v ++ [0]) = Ok (bool_decide (v ∈ ws)).
Proof.
  intros ws. apply (trie_search_complete _ 10 ws); [|by vm_compute].
  repeat constructor; lia.
Defined.
