(* ===== verification/Trees.v ===== *)
(** * Trees of [malloc]ed nodes

    Models [benchmarks/binary_trees.c] and [benchmarks/binary_tree_path.c] on an
    explicit heap: allocation, [free] and every access are checked, so that a
    use after [free] or a double [free] is undefined behaviour.  The theorems
    show that the first program frees exactly what it allocates and what it
    returns, and that the second overflows. *)
From S2P Require Import Prelude.

(** A heap of nodes of type [T]; the allocator hands out increasing addresses,
    and 0 is [NULL]. *)
Record Heap (T : Type) := { cells : gmap Z T; brk : Z }.
Arguments cells {T}.
Arguments brk {T}.

Section heap.
Context {T : Type}.

Definition malloc (h : Heap T) (n : T) : Z * Heap T :=
  (brk h, {| cells := <[brk h := n]> (cells h); brk := brk h + 1 |}).

Definition load (h : Heap T) (p : Z) : Res T :=
  match cells h !! p with Some n => Ok n | None => Undef end.

Definition store (h : Heap T) (p : Z) (n : T) : Res (Heap T) :=
  match cells h !! p with
  | Some _ => Ok {| cells := <[p := n]> (cells h); brk := brk h |}
  | None => Undef
  end.

Definition free (h : Heap T) (p : Z) : Res (Heap T) :=
  match cells h !! p with
  | Some _ => Ok {| cells := delete p (cells h); brk := brk h |}
  | None => Undef
  end.
End heap.

(** ** [binary_trees.c] *)
Module BinaryTrees.
Record TreeNode := { left : Z; right : Z }.

(** [create_tree(depth)]; [n] is [depth] when that is positive and 0 below.
    [junk] is what the fresh node contains. *)
Fixpoint create_tree (n : nat) (junk : TreeNode) (h : Heap TreeNode) : Res (Z * Heap TreeNode) :=
  let '(node, h) := malloc h junk in
  match n with
  | S n =>
      '(l, h) ← create_tree n junk h;
      nd ← load h node;
      h ← store h node {| left := l; right := right nd |};
      '(r, h) ← create_tree n junk h;
      nd ← load h node;
      h ← store h node {| left := left nd; right := r |};
      Ok (node, h)
  | O =>
      nd ← load h node;
      h ← store h node {| left := 0; right := right nd |};
      nd ← load h node;
      h ← store h node {| left := left nd; right := 0 |};
      Ok (node, h)
  end.

(** [compute_checksum(node)], which also frees the tree; the recursion depth is
    bounded by [fuel]. *)
Fixpoint compute_checksum (fuel : nat) (h : Heap TreeNode) (node : Z) : Res (Z * Heap TreeNode) :=
  match fuel with
  | O => NoFuel
  | S fuel =>
    if negb (node =? 0) then
      nd ← load h node;
      '(cl, h) ← compute_checksum fuel h (left nd);
      s ← i32 (1 + cl);
      nd ← load h node;
      '(cr, h) ← compute_checksum fuel h (right nd);
      checksum ← i32 (s + cr);
      h ← free h node;
      Ok (checksum, h)
    else Ok (0, h)
  end.

(** One round trip of the benchmark: build, then check and free. *)
Definition churn (junk : TreeNode) (depth : Z) (h : Heap TreeNode) : Res (Z * Heap TreeNode) :=
  '(t, h) ← create_tree (Z.to_nat depth) junk h;
  compute_checksum (Z.to_nat depth + 2) h t.

(** The loop over the depths 4, 6, .. [max_depth]; [n] counts its iterations. *)
Definition churn_depth (junk : TreeNode) (max_depth depth : Z) (s : Z * Heap TreeNode)
  : Res (Z * Heap TreeNode) :=
  let '(total_check, h) := s in
  let shift := max_depth - depth + 4 in
  iterations ← (if (0 <=? shift) && (shift <? 32) then i32 (Z.shiftl 1 shift) else Undef);
  '(check, h) ← for_range 1 (iterations + 1) (λ _ '(check, h),
    '(c, h) ← churn junk depth h;
    check ← i64 (check + c);
    Ok (check, h)) (0, h);
  total_check ← i64 (total_check + check);
  Ok (total_check, h).

(** [main]: the exit status is the low byte of the result.  [max_depth] is 15 or
    the program's argument. *)
Definition binary_trees_main (junk : TreeNode) (max_depth : Z) (h : Heap TreeNode)
  : Res (Z * Heap TreeNode) :=
  stretch_depth ← i32 (max_depth + 1);
  '(_, h) ← churn junk stretch_depth h;
  '(long_lived_tree, h) ← create_tree (Z.to_nat max_depth) junk h;
  '(total_check, h) ← for_range 0 (Z.quot (max_depth - 4 + 2) 2)
      (λ i, churn_depth junk max_depth (4 + 2 * i)) (0, h);
  '(_, h) ← compute_checksum (Z.to_nat max_depth + 2) h long_lived_tree;
  Ok (Z.rem total_check 256, h).
End BinaryTrees.

(** ** [binary_tree_path.c] *)
Module TreePath.
Record TreeNode := { val : Z; left : Z; right : Z }.

Definition create_node (h : Heap TreeNode) (v : Z) : Z * Heap TreeNode :=
  malloc h {| val := v; left := 0; right := 0 |}.

(** [build_tree(depth)] for [depth >= 0]. *)
Fixpoint build_tree (depth : nat) (h : Heap TreeNode) : Res (Z * Heap TreeNode) :=
  match depth with
  | O => Ok (0, h)
  | S d =>
      let '(node, h) := create_node h (Z.of_nat depth) in
      '(l, h) ← build_tree d h;
      nd ← load h node;
      h ← store h node {| val := val nd; left := l; right := right nd |};
      '(r, h) ← build_tree d h;
      nd ← load h node;
      h ← store h node {| val := val nd; left := left nd; right := r |};
      Ok (node, h)
  end.

Fixpoint free_tree (fuel : nat) (h : Heap TreeNode) (root : Z) : Res (Heap TreeNode) :=
  match fuel with
  | O => NoFuel
  | S fuel =>
    if root =? 0 then Ok h else
    nd ← load h root;
    h ← free_tree fuel h (left nd);
    nd ← load h root;
    h ← free_tree fuel h (right nd);
    free h root
  end.

Fixpoint dfs (fuel : nat) (h : Heap TreeNode) (root sum : Z) : Res Z :=
  match fuel with
  | O => NoFuel
  | S fuel =>
    if root =? 0 then Ok 0 else
    nd ← load h root;
    t ← i32 (sum * 10);
    current ← i32 (t + val nd);
    if (left nd =? 0) && (right nd =? 0) then Ok current else
    a ← dfs fuel h (left nd) current;
    b ← dfs fuel h (right nd) current;
    i32 (a + b)
  end.

Definition tree_path_main : Res (Z * Heap TreeNode) :=
  '(root, h) ← build_tree 12 {| cells := ∅; brk := 1 |};
  total ← for_range 0 600 (λ _ total, d ← dfs 13 h root 0; i32 (total + d)) 0;
  h ← free_tree 13 h root;
  Ok (total, h).
End TreePath.

(** ** Heaps *)
Section heap_lemmas.
Context {T : Type}.
Implicit Types (h : Heap T).

(** Every allocated address is positive and below the next one. *)
Definition heap_ok h : Prop := 0 < brk h ∧ ∀ q n, cells h !! q = Some n → 0 < q < brk h.

Lemma load_ok h p n : cells h !! p = Some n → load h p = Ok n.
Proof. unfold load. by intros ->. Qed.

Lemma store_ok h p n n' : cells h !! p = Some n →
  store h p n' = Ok {| cells := <[p := n']> (cells h); brk := brk h |}.
Proof. unfold store. by intros ->. Qed.

Lemma free_ok h p n : cells h !! p = Some n →
  free h p = Ok {| cells := delete p (cells h); brk := brk h |}.
Proof. unfold free. by intros ->. Qed.
End heap_lemmas.

Module BinaryTreesSpec.
Import BinaryTrees.

(** The number of nodes of the perfect tree of depth [n]. *)
Definition nodes (n : nat) : Z := 2 ^ (Z.of_nat n + 1) - 1.

Lemma nodes_S n : nodes (S n) = 1 + nodes n + nodes n.
Proof.
  unfold nodes. rewrite Nat2Z.inj_succ. replace (Z.succ (Z.of_nat n) + 1) with (Z.succ (Z.of_nat n + 1)) by lia.
  rewrite Z.pow_succ_r by lia. lia.
Qed.

Lemma nodes_pos n : 0 < nodes n.
Proof. induction n; [done|]. rewrite nodes_S. lia. Qed.

Lemma nodes_mono n m : (n ≤ m)%nat → nodes n ≤ nodes m.
Proof. intros H. induction H as [|m _ IH]; [done|]. rewrite nodes_S. pose proof (nodes_pos m). lia. Qed.

(** A perfect tree laid out in preorder from [p]. *)
Fixpoint perfect (m : gmap Z TreeNode) (p : Z) (n : nat) : Prop :=
  match n with
  | O => m !! p = Some {| left := 0; right := 0 |}
  | S n => m !! p = Some {| left := p + 1; right := p + 1 + nodes n |} ∧
           perfect m (p + 1) n ∧ perfect m (p + 1 + nodes n) n
  end.

Lemma bt_perfect_ext m m' p n :
  (∀ q, p ≤ q < p + nodes n → m' !! q = m !! q) → perfect m p n → perfect m' p n.
Proof.
  revert p. induction n as [|n IH]; intros p Heq; cbn [perfect].
  - rewrite Heq by (unfold nodes; cbn; lia). done.
  - rewrite nodes_S in Heq. pose proof (nodes_pos n). intros (H1 & H2 & H3).
    rewrite Heq by lia. split_and!; [done|apply IH; [|done]|apply IH; [|done]];
      intros q Hq; apply Heq; lia.
Qed.

Lemma create_wp n junk h : heap_ok h →
  wp (create_tree n junk h) (λ '(p, h'), p = brk h ∧ perfect (cells h') p n ∧ heap_ok h' ∧
    brk h' = brk h + nodes n ∧ ∀ q, q < brk h → cells h' !! q = cells h !! q).
Proof.
  revert h. induction n as [|n IH]; intros h [Hb Hok].
  - unfold create_tree, malloc. cbn beta iota zeta.
    rewrite (load_ok _ _ junk) by apply lookup_insert_eq. cbn [mbind Res_bind].
    erewrite store_ok by apply lookup_insert_eq. cbn [mbind Res_bind cells brk].
    erewrite load_ok by apply lookup_insert_eq. cbn [mbind Res_bind].
    erewrite store_ok by apply lookup_insert_eq. cbn [mbind Res_bind cells brk wp left right].
    split_and!; [done|apply lookup_insert_eq| |done|].
    + split; cbn; [lia|]. intros q nd. rewrite !insert_insert_eq.
      destruct (decide (q = brk h)) as [->|Hq]; [lia|]. rewrite lookup_insert_ne by done.
      intros Hs%Hok. lia.
    + intros q Hq. by rewrite !lookup_insert_ne by lia.
  - cbn [create_tree malloc]. rewrite nodes_S. pose proof (nodes_pos n) as Hpos.
    set (h0 := {| cells := <[brk h:=junk]> (cells h); brk := brk h + 1 |}).
    assert (heap_ok h0) as Hok0.
    { split; cbn; [lia|]. intros q nd. destruct (decide (q = brk h)) as [->|Hq]; [lia|].
      rewrite lookup_insert_ne by done. intros Hs%Hok. lia. }
    wp_step. eapply wp_mono; [by apply IH|].
    intros [l h1] (-> & Hp1 & Hok1 & Hb1 & Hf1). cbn [brk h0] in *.
    assert (cells h1 !! brk h = Some junk) as E1.
    { rewrite Hf1 by lia. cbn. apply lookup_insert_eq. }
    rewrite (load_ok _ _ _ E1). cbn [mbind Res_bind]. rewrite (store_ok _ _ _ _ E1).
    cbn [mbind Res_bind].
    set (h2 := {| cells := <[brk h:={| left := brk h + 1; right := right junk |}]> (cells h1); brk := brk h1 |}).
    assert (heap_ok h2) as Hok2.
    { destruct Hok1 as [? Hok1]. split; cbn; [done|]. intros q nd.
      destruct (decide (q = brk h)) as [->|Hq]; [lia|]. rewrite lookup_insert_ne by done. apply Hok1. }
    wp_step. eapply wp_mono; [by apply IH|].
    intros [r h3] (-> & Hp3 & Hok3 & Hb3 & Hf3). cbn [brk h2] in *.
    assert (cells h3 !! brk h = Some {| left := brk h + 1; right := right junk |}) as E3.
    { rewrite Hf3 by lia. cbn. apply lookup_insert_eq. }
    rewrite (load_ok _ _ _ E3). cbn [mbind Res_bind]. rewrite (store_ok _ _ _ _ E3).
    cbn [mbind Res_bind wp left right brk cells]. rewrite Hb1 in *.
    split_and!; [done| | |lia|].
    + cbn [perfect]. split_and!.
      * by rewrite lookup_insert_eq.
      * apply (bt_perfect_ext (cells h1)); [|done]. intros q Hq.
        rewrite lookup_insert_ne by lia. rewrite Hf3 by lia. cbn. by rewrite lookup_insert_ne by lia.
      * apply (bt_perfect_ext (cells h3)); [|done]. intros q Hq. by rewrite lookup_insert_ne by lia.
    + destruct Hok3 as [? Hok3]. split; cbn; [done|]. intros q nd.
      destruct (decide (q = brk h)) as [->|Hq]; [lia|]. rewrite lookup_insert_ne by done. apply Hok3.
    + intros q Hq. rewrite lookup_insert_ne by lia. rewrite Hf3 by lia. cbn.
      rewrite lookup_insert_ne by lia. rewrite Hf1 by lia. cbn. by rewrite lookup_insert_ne by lia.
Qed.

(** [h'] is [h] with the addresses from [p] to [p + k - 1] freed. *)
Definition freed (h h' : Heap TreeNode) (p k : Z) : Prop :=
  brk h' = brk h ∧
  ∀ q, cells h' !! q = if decide (p ≤ q < p + k) then None else cells h !! q.

Lemma checksum_wp fuel n h p : (S n < fuel)%nat → 0 < p → nodes n ≤ INT_MAX →
  perfect (cells h) p n →
  wp (compute_checksum fuel h p) (λ '(c, h'), c = nodes n ∧ freed h h' p (nodes n)).
Proof.
  revert n h p. induction fuel as [|fuel IH]; intros n h p Hf Hp Hmax Hperf; [lia|].
  cbn [compute_checksum]. rewrite (proj2 (Z.eqb_neq p 0)) by lia. cbn [negb].
  destruct n as [|n].
  - cbn [perfect] in Hperf. rewrite (load_ok _ _ _ Hperf). cbn [mbind Res_bind left right].
    destruct fuel as [|fuel]; [lia|]. cbn [compute_checksum]. cbn. rewrite (load_ok _ _ _ Hperf).
    cbn. rewrite (free_ok _ _ _ Hperf). cbn. split; [done|]. split; [done|]. cbn. intros q.
    change (nodes 0) with 1. case_decide.
    + assert (q = p) as -> by lia. apply lookup_delete_eq.
    + apply lookup_delete_ne. lia.
  - rewrite nodes_S in *. pose proof (nodes_pos n). cbn [perfect] in Hperf.
    destruct Hperf as (Hn & Hl & Hr). rewrite (load_ok _ _ _ Hn). cbn [mbind Res_bind left right].
    wp_step. eapply wp_mono; [apply (IH n); [lia|lia|lia|done]|].
    intros [cl h1] (-> & Hb1 & Hf1). rewrite i32_ok by (c_unfold; lia). cbn [mbind Res_bind].
    assert (cells h1 !! p = Some {| left := p + 1; right := p + 1 + nodes n |}) as Hn1.
    { rewrite Hf1, decide_False by lia. done. }
    rewrite (load_ok _ _ _ Hn1). cbn [mbind Res_bind left right].
    wp_step. eapply wp_mono; [apply (IH n); [lia|lia|lia|]|].
    { apply (bt_perfect_ext (cells h)); [|done]. intros q Hq. by rewrite Hf1, decide_False by lia. }
    intros [cr h2] (-> & Hb2 & Hf2). rewrite i32_ok by (c_unfold; lia). cbn [mbind Res_bind].
    assert (cells h2 !! p = Some {| left := p + 1; right := p + 1 + nodes n |}) as Hn2.
    { rewrite Hf2, decide_False by lia. done. }
    rewrite (free_ok _ _ _ Hn2). cbn [mbind Res_bind wp]. split; [lia|].
    split; cbn; [congruence|]. intros q. destruct (decide (q = p)) as [->|Hq].
    + by rewrite lookup_delete_eq, decide_True by lia.
    + rewrite lookup_delete_ne, Hf2, Hf1 by done. repeat case_decide; done || lia.
Qed.

(** Building and checking a tree leaves no cell behind. *)
Lemma churn_wp junk d h : heap_ok h → 0 ≤ d ≤ 30 →
  wp (churn junk d h) (λ '(c, h'), c = nodes (Z.to_nat d) ∧ heap_ok h' ∧ cells h' = cells h).
Proof.
  intros Hok Hd. unfold churn. wp_step. eapply wp_mono; [by apply create_wp|].
  intros [t h1] (-> & Hp & Hok1 & Hb1 & Hf1). destruct Hok as [Hb Hok].
  assert (nodes (Z.to_nat d) ≤ INT_MAX) as Hmax.
  { apply (Z.le_trans _ (nodes 30)); [apply nodes_mono; lia|done]. }
  eapply wp_mono; [apply (checksum_wp _ (Z.to_nat d)); [lia|lia|done|done]|].
  intros [c h2] (-> & Hb2 & Hf2). split; [done|].
  assert (cells h2 = cells h) as E.
  { apply map_eq. intros q. rewrite Hf2. case_decide.
    - destruct (cells h !! q) eqn:Eq; [|done]. apply Hok in Eq. lia.
    - destruct (decide (q < brk h)); [by apply Hf1|].
      destruct (cells h !! q) eqn:Eq; [apply Hok in Eq; lia|].
      destruct (cells h1 !! q) eqn:Eq1; [|done]. apply Hok1 in Eq1. lia. }
  split; [|done]. split; [rewrite Hb2, Hb1; pose proof (nodes_pos (Z.to_nat d)); lia|].
  intros q nd. rewrite E. intros Hq%Hok. rewrite Hb2, Hb1.
  pose proof (nodes_pos (Z.to_nat d)). lia.
Qed.

(** The sum the program computes over the first [k] depths. *)
Fixpoint expected (max_depth : Z) (k : nat) : Z :=
  match k with
  | O => 0
  | S k => expected max_depth k +
      2 ^ (max_depth - (4 + 2 * Z.of_nat k) + 4) * nodes (Z.to_nat (4 + 2 * Z.of_nat k))
  end.

Lemma churn_depth_wp junk M d t h : heap_ok h → 4 ≤ d ≤ M → M ≤ 29 → 0 ≤ t ≤ 2 ^ 40 * 20 →
  wp (churn_depth junk M d (t, h)) (λ '(t', h'),
    t' = t + 2 ^ (M - d + 4) * nodes (Z.to_nat d) ∧ heap_ok h' ∧ cells h' = cells h).
Proof.
  intros Hok Hd HM Ht. unfold churn_depth.
  assert (1 ≤ 2 ^ (M - d + 4) ≤ 2 ^ 29) as Hit.
  { split; [pose proof (Z.pow_pos_nonneg 2 (M - d + 4)); lia|].
    apply Z.pow_le_mono_r; lia. }
  assert (0 < nodes (Z.to_nat d) ≤ 2 ^ 30) as Hnd.
  { split; [apply nodes_pos|]. transitivity (nodes 29); [apply nodes_mono; lia|done]. }
  rewrite (proj2 (Z.leb_le 0 _)), (proj2 (Z.ltb_lt _ 32)) by lia. cbn [andb].
  rewrite Z.shiftl_mul_pow2, Z.mul_1_l by lia. rewrite i32_ok by (c_unfold; lia).
  cbn [mbind Res_bind]. wp_step.
  apply (for_range_wp (λ i '(c, h'), c = (i - 1) * nodes (Z.to_nat d) ∧ heap_ok h' ∧ cells h' = cells h)).
  - split_and!; [lia|done|done].
  - intros i [c h1] Hi (-> & Hok1 & E1). wp_step. eapply wp_mono; [apply churn_wp; [done|lia]|].
    intros [c' h2] (-> & Hok2 & E2). rewrite i64_ok by (c_unfold; nia). cbn.
    split_and!; [lia|done|congruence].
  - intros [c h1] (-> & Hok1 & E1). rewrite Z.max_r by lia.
    rewrite i64_ok by (c_unfold; nia). cbn. split_and!; [lia|done|done].
Qed.

Lemma expected_range M k : 0 ≤ M ≤ 29 → 4 + 2 * Z.of_nat k ≤ M + 2 →
  0 ≤ expected M k ≤ Z.of_nat k * 2 ^ 40.
Proof.
  intros HM. induction k as [|k IH]; intros Hk; cbn [expected]; [lia|].
  specialize (IH ltac:(lia)). unfold nodes. rewrite Z2Nat.id by lia.
  set (d := 4 + 2 * Z.of_nat k) in *. rewrite Z.mul_sub_distr_l, <- Z.pow_add_r by lia.
  replace (M - d + 4 + (d + 1)) with (M + 5) by lia.
  pose proof (Z.pow_le_mono_r 2 (M + 5) 34 ltac:(lia) ltac:(lia)).
  pose proof (Z.pow_pos_nonneg 2 (M - d + 4) ltac:(lia) ltac:(lia)).
  pose proof (Z.pow_le_mono_r 2 (M - d + 4) (M + 5) ltac:(lia) ltac:(lia)). lia.
Qed.

(** [binary_trees] has no use after free, double free or overflow for a
    maximal depth up to 29 and frees all it allocates: from any heap it returns
    the low byte of its sum of checksums, each tree counting its
    [2^(depth+1) - 1] nodes, and leaves exactly the cells that were there before.
    With the default depth 15 the exit status is 96. *)
Theorem binary_trees_no_leak junk M h : heap_ok h → 4 ≤ M ≤ 29 →
  ∃ h', binary_trees_main junk M h =
          Ok (Z.rem (expected M (Z.to_nat (Z.quot (M - 2) 2))) 256, h') ∧
        cells h' = cells h ∧
        (M = 15 → Z.rem (expected M (Z.to_nat (Z.quot (M - 2) 2))) 256 = 96).
Proof.
  intros Hok HM. set (k := Z.quot (M - 2) 2).
  assert (1 ≤ k ∧ 2 * k ≤ M - 2) as Hk.
  { unfold k. rewrite Z.quot_div_nonneg by lia. pose proof (Z.div_mod (M - 2) 2).
    pose proof (Z.mod_pos_bound (M - 2) 2). lia. }
  enough (wp (binary_trees_main junk M h) (λ '(r, h'),
    r = Z.rem (expected M (Z.to_nat k)) 256 ∧ cells h' = cells h)) as Hw.
  { apply wp_elim in Hw as ([r h'] & E & -> & Hc). exists h'. split_and!; [done|done|].
    unfold k. by intros ->. }
  unfold binary_trees_main. rewrite i32_ok by (c_unfold; lia). cbn [mbind Res_bind].
  wp_step. eapply wp_mono; [apply churn_wp; [done|lia]|]. intros [c0 h1] (_ & Hok1 & E1).
  wp_step. eapply wp_mono; [by apply create_wp|].
  intros [t h2] (-> & Hp2 & Hok2 & Hb2 & Hf2).
  replace (M - 4 + 2) with (M - 2) by lia. fold k. wp_step.
  apply (for_range_wp (λ i '(t, h'), t = expected M (Z.to_nat i) ∧ heap_ok h' ∧ cells h' = cells h2)).
  - done.
  - intros i [t h3] Hi (-> & Hok3 & E3).
    pose proof (expected_range M (Z.to_nat i) ltac:(lia) ltac:(lia)).
    eapply wp_mono; [apply churn_depth_wp; [done|lia|lia|lia]|].
    intros [t' h4] (-> & Hok4 & E4). split_and!; [|done|congruence].
    replace (Z.to_nat (i + 1)) with (S (Z.to_nat i)) by lia. cbn [expected].
    by rewrite Z2Nat.id by lia.
  - intros [t h3] (-> & Hok3 & E3). rewrite Z.max_r by lia. wp_step.
    eapply wp_mono; [apply (checksum_wp _ (Z.to_nat M)); [lia|apply Hok1| |by rewrite E3]|].
    { apply (Z.le_trans _ (nodes 30)); [apply nodes_mono; lia|done]. }
    intros [c h4] (_ & _ & Hf4). cbn [wp]. split; [done|].
    apply map_eq. intros q. rewrite Hf4, E3, <- E1. case_decide as Hq.
    + destruct (cells h1 !! q) eqn:Eq; [|done]. apply Hok1 in Eq. lia.
    + destruct (decide (q < brk h1)); [by apply Hf2|].
      destruct (cells h1 !! q) eqn:Eq; [apply Hok1 in Eq; lia|].
      destruct (cells h2 !! q) eqn:Eq2; [|done]. apply Hok2 in Eq2. lia.
Qed.

Lemma binary_trees_no_leak_witness :
  let h := {| cells := ∅; brk := 1 |} in
  ∃ h', binary_trees_main {| left := 7; right := 7 |} 15 h = Ok (96, h') ∧ cells h' = cells h.
Proof.
  intros h. destruct (binary_trees_no_leak {| left := 7; right := 7 |} 15 h)
    as (h' & E & Hc & H96).
  - split; [done|]. intros q n. cbn. by rewrite lookup_empty.
  - lia.
  - exists h'. rewrite H96 in E by done. by split.
Defined.
End BinaryTreesSpec.

Module TreePathSpec.
Import TreePath.

(** A perfect tree of height [n] at [p], inside the addresses from [lo] to [hi],
    each node holding its height. *)
Fixpoint perfect (m : gmap Z TreeNode) (lo hi p : Z) (n : nat) : Prop :=
  match n with
  | O => p = 0
  | S n' => 0 < p ∧ lo ≤ p < hi ∧ ∃ l r,
      m !! p = Some {| val := Z.of_nat n; left := l; right := r |} ∧
      perfect m lo hi l n' ∧ perfect m lo hi r n'
  end.

Lemma tp_perfect_ext m m' lo hi lo' hi' p n :
  (∀ q, lo ≤ q < hi → m' !! q = m !! q) → lo' ≤ lo → hi ≤ hi' →
  perfect m lo hi p n → perfect m' lo' hi' p n.
Proof.
  intros Heq Hlo Hhi. revert p. induction n as [|n IH]; intros p; [done|].
  cbn [perfect]. intros (Hp & Hr & l & r & Hn & Hl & Hrt).
  split_and!; [done|lia|lia|]. exists l, r. rewrite Heq by lia. auto.
Qed.

Lemma build_wp n h : heap_ok h →
  wp (build_tree n h) (λ '(p, h'), perfect (cells h') (brk h) (brk h') p n ∧ heap_ok h' ∧
    brk h ≤ brk h' ∧ ∀ q, q < brk h → cells h' !! q = cells h !! q).
Proof.
  revert h. induction n as [|n IH]; intros h Hh; cbn [build_tree].
  { cbn. split_and!; [done|done|lia|done]. }
  destruct Hh as [Hb Hok]. cbn [create_node malloc].
  set (nd := {| val := Z.of_nat (S n); left := 0; right := 0 |}).
  set (h0 := {| cells := <[brk h:=nd]> (cells h); brk := brk h + 1 |}).
  assert (∀ (g : Heap TreeNode) n', heap_ok g → brk h < brk g →
    heap_ok {| cells := <[brk h := n']> (cells g); brk := brk g |}) as Hset.
  { intros g n' [? Hg] Hlt. split; cbn; [done|]. intros q nd'.
    destruct (decide (q = brk h)) as [->|Hq]; [lia|]. rewrite lookup_insert_ne by done. apply Hg. }
  assert (heap_ok h0) as Hok0.
  { split; cbn; [lia|]. intros q nd'. destruct (decide (q = brk h)) as [->|Hq]; [lia|].
    rewrite lookup_insert_ne by done. intros Hs%Hok. lia. }
  wp_step. eapply wp_mono; [by apply IH|]. intros [l h1] (Hp1 & Hok1 & Hb1 & Hf1).
  cbn [brk h0] in *.
  assert (cells h1 !! brk h = Some nd) as E1.
  { rewrite Hf1 by lia. cbn. apply lookup_insert_eq. }
  rewrite (load_ok _ _ _ E1). cbn [mbind Res_bind]. rewrite (store_ok _ _ _ _ E1).
  cbn [mbind Res_bind nd val left right].
  set (nd1 := {| val := Z.of_nat (S n); left := l; right := 0 |}).
  set (h2 := {| cells := <[brk h:=nd1]> (cells h1); brk := brk h1 |}).
  assert (heap_ok h2) as Hok2 by (apply Hset; [done|lia]).
  wp_step. eapply wp_mono; [by apply IH|]. intros [r h3] (Hp3 & Hok3 & Hb3 & Hf3).
  cbn [brk h2] in *.
  assert (cells h3 !! brk h = Some nd1) as E3.
  { rewrite Hf3 by lia. cbn. apply lookup_insert_eq. }
  rewrite (load_ok _ _ _ E3). cbn [mbind Res_bind]. rewrite (store_ok _ _ _ _ E3).
  cbn [mbind Res_bind nd1 val left right wp brk cells]. split_and!; [|by apply Hset; [|lia]|lia|].
  - cbn [perfect]. split_and!; [lia..|]. exists l, r. rewrite lookup_insert_eq.
    split_and!; [done| |].
    + apply (tp_perfect_ext (cells h1) _ (brk h + 1) (brk h1)); [|lia..|done].
      intros q Hq. rewrite lookup_insert_ne by lia. rewrite Hf3 by lia. cbn.
      by rewrite lookup_insert_ne by lia.
    + apply (tp_perfect_ext (cells h3) _ (brk h1) (brk h3)); [|lia..|done].
      intros q Hq. by rewrite lookup_insert_ne by lia.
  - intros q Hq. rewrite lookup_insert_ne by lia. rewrite Hf3 by lia. cbn.
    rewrite lookup_insert_ne by lia. rewrite Hf1 by lia. cbn. by rewrite lookup_insert_ne by lia.
Qed.

(** The search on the tree itself. *)
Fixpoint dfs_tree (n : nat) (sum : Z) : Res Z :=
  match n with
  | O => Ok 0
  | S n' =>
      t ← i32 (sum * 10);
      current ← i32 (t + Z.of_nat n);
      match n' with
      | O => Ok current
      | S _ => a ← dfs_tree n' current; b ← dfs_tree n' current; i32 (a + b)
      end
  end.

Lemma dfs_ok fuel h lo hi p n sum : (n < fuel)%nat → perfect (cells h) lo hi p n →
  dfs fuel h p sum = dfs_tree n sum.
Proof.
  revert p n sum. induction fuel as [|fuel IH]; intros p n sum Hf Hp; [lia|]. cbn [dfs].
  destruct n as [|n]; cbn [perfect] in Hp; [by subst|].
  destruct Hp as (Hp0 & _ & l & r & Hn & Hl & Hr).
  rewrite (proj2 (Z.eqb_neq p 0)) by lia. rewrite (load_ok _ _ _ Hn).
  cbn [mbind Res_bind val left right]. change (dfs_tree (S n) sum) with
    (t ← i32 (sum * 10); current ← i32 (t + Z.of_nat (S n));
     match n with O => Ok current
     | S _ => a ← dfs_tree n current; b ← dfs_tree n current; i32 (a + b) end).
  destruct (i32 (sum * 10)) as [t| |]; cbn [mbind Res_bind]; [|done..].
  destruct (i32 (t + Z.of_nat (S n))) as [current| |]; cbn [mbind Res_bind]; [|done..].
  destruct n as [|n].
  - cbn in Hl, Hr. by subst.
  - assert (l ≠ 0) by (cbn [perfect] in Hl; lia).
    rewrite (proj2 (Z.eqb_neq l 0)) by done. cbn [andb].
    rewrite (IH l (S n) current), (IH r (S n) current); [done|lia|done|lia|done].
Qed.

(** [binary_tree_path] overflows: whatever the heap, the first path of its tree
    of height 12 spells 12, 131, 1320, .. and leaves [int] at its tenth node, so
    that the program has undefined behaviour. *)
Theorem tree_path_overflows : tree_path_main = Undef.
Proof.
  unfold tree_path_main. set (h0 := {| cells := ∅; brk := 1 |}).
  assert (heap_ok h0) as Hok by (split; [done|]; intros q n; cbn; by rewrite lookup_empty).
  destruct (wp_elim _ _ (build_wp 12 h0 Hok)) as ([p h] & -> & Hp & _).
  cbn [mbind Res_bind]. unfold for_range. change (Z.to_nat (600 - 0)) with (S 599).
  cbn [for_up]. rewrite (dfs_ok 13 h _ _ p 12 0 ltac:(lia) Hp).
  assert (dfs_tree 12 0 = Undef) as -> by (vm_compute; done). done.
Qed.
End TreePathSpec.
