(* ===== verification/Sieve.v ===== *)
(** * The sieve of Eratosthenes

    Models [benchmarks/sieve.c] and proves that it counts the primes. *)
From Stdlib Require Import Znumtheory.
From S2P Require Import Prelude.

Definition arena_new (junk : nat → Z) (capacity : Z) : list Z := malloc_arr junk capacity.

(** [while (j <= limit) { is_prime[j] = 0; j += p; }]: at most [limit + 1] turns. *)
Definition cross_out (limit p : Z) (is_prime : list Z) : Res (list Z) :=
  r ← loop (S (S (Z.to_nat limit))) (λ '(j, is_prime),
        if j <=? limit then
          is_prime ← wr is_prime j 0;
          j ← i64 (j + p);
          Ok (Next (j, is_prime))
        else Ok (Break (j, is_prime))) (p * p, is_prime);
  Ok (snd (fell r)).

Definition sieve_step (limit p : Z) (is_prime : list Z)
  : Res (ctl (list Z) Empty_set) :=
  pp ← i64 (p * p);
  if limit <? pp then Ok (Break is_prime) else
  f ← rd is_prime p;
  if negb (f =? 0) then
    is_prime ← cross_out limit p is_prime; Ok (Next is_prime)
  else Ok (Next is_prime).

Definition sieve (limit : Z) (arena : list Z) : Res (Z * list Z) :=
  is_prime ← for_range 0 (limit + 1) (λ i is_prime, wr is_prime i 1) arena;
  is_prime ← wr is_prime 0 0;
  is_prime ← wr is_prime 1 0;
  r ← for_ctl 2 (limit + 1) (sieve_step limit) is_prime;
  let is_prime := fell r in
  count ← for_range 0 (limit + 1) (λ k count,
    f ← rd is_prime k;
    if negb (f =? 0) then i32 (count + 1) else Ok count) 0;
  Ok (count, is_prime).

(** [main]: the exit status. *)
Definition sieve_main (junk : nat → Z) : Res Z :=
  '(total_primes, _) ← for_range 0 200 (λ _ '(total, arena),
    '(c, arena) ← sieve 1000000 arena;
    total ← i64 (total + c);
    Ok (total, arena)) (0, arena_new junk (1000000 + 1));
  Ok (if negb (total_primes =? 15699600) then 1 else 0).

(** ** Specification *)

#[export] Instance divide_decision (a b : Z) : Decision (a | b) := Zdivide_dec a b.

(** The number of primes below [n]. *)
Fixpoint primes_below (n : nat) : Z :=
  match n with
  | O => 0
  | S n => primes_below n + (if prime_dec (Z.of_nat n) then 1 else 0)
  end.

Definition primes_upto (limit : Z) : Z := primes_below (Z.to_nat (limit + 1)).

(** A composite number has a prime divisor up to its square root. *)
Lemma small_prime_divisor k : 1 < k → ¬ prime k →
  ∃ q, prime q ∧ (q | k) ∧ q * q ≤ k.
Proof.
  revert k. enough (∀ n k, Z.to_nat k = n → 1 < k → ¬ prime k →
    ∃ q, prime q ∧ (q | k) ∧ q * q ≤ k) as H by eauto.
  intros n. induction (lt_wf n) as [n _ IH]. intros k <- Hk Hnp.
  destruct (not_prime_divide k Hk Hnp) as (d & Hd & [e He]).
  (* the smaller of the two cofactors *)
  assert (∃ m, 1 < m < k ∧ (m | k) ∧ m * m ≤ k) as (m & Hm & [e' Hmk] & Hmm).
  { destruct (Z.le_ge_cases d e).
    - exists d. split_and!; [lia|lia|by exists e|nia].
    - exists e. split_and!; [nia|nia|exists d; lia|nia]. }
  destruct (prime_dec m) as [Hp|Hp].
  - exists m. split_and!; [done|by exists e'|done].
  - destruct (IH (Z.to_nat m) ltac:(lia) m eq_refl ltac:(lia) Hp) as (q & Hq & [f Hf] & Hqq).
    exists q. split_and!; [done|exists (e' * f); lia|lia].
Qed.

(** The marks after the passes for the numbers below [p]: only non-primes are
    crossed out, and every number with a prime divisor [q < p] not above its
    square root is. *)
Definition crossed (limit p : Z) (is_prime : list Z) : Prop :=
  zlen is_prime > limit ∧
  (∀ k, 0 ≤ k ≤ limit → is_prime.[k] = 0 ∨ is_prime.[k] = 1) ∧
  (∀ k, 0 ≤ k < 2 → is_prime.[k] = 0) ∧
  (∀ k, 2 ≤ k ≤ limit → is_prime.[k] = 0 → ¬ prime k) ∧
  (∀ k q, 2 ≤ k ≤ limit → prime q → q < p → (q | k) → q * q ≤ k → is_prime.[k] = 0).

(** One pass keeps what is crossed out and adds the multiples of [p] from
    [p * p]. *)
Lemma cross_out_wp limit p l : 2 ≤ p → p * p ≤ limit → limit < INT_MAX → zlen l > limit →
  wp (cross_out limit p l) (λ l', length l' = length l ∧
    ∀ k, 0 ≤ k ≤ limit → l'.[k] = if decide ((p | k) ∧ p * p ≤ k) then 0 else l.[k]).
Proof.
  intros Hp Hpp Hlim Hl. unfold cross_out. wp_step. c_unfold.
  apply (loop_wp (λ '(j, l'), (p | j) ∧ p * p ≤ j ∧ length l' = length l ∧
      ∀ k, 0 ≤ k ≤ limit → l'.[k] = if decide ((p | k) ∧ p * p ≤ k < j) then 0 else l.[k])
    (λ '(j, _), Z.to_nat (limit + 1 - j))).
  - split_and!; [by exists p|lia|done|]. intros k Hk. rewrite decide_False; [done|lia].
  - lia.
  - intros [j l'] ([q Hq] & Hj & Hlen & Hk). destruct (Z.leb_spec j limit) as [Hle|Hgt].
    + assert (zlen l' = zlen l) as Hzl by lia.
      wp_step. rewrite wr_ok by lia. cbn [wp]. wp_step. rewrite i64_ok by (c_unfold; nia).
      cbn [wp]. split; [|lia]. split_and!; [exists (q + 1); lia|lia|by rewrite length_zset|].
      intros k Hkr. rewrite znth_zset by lia. destruct (decide (j = k)) as [<-|Hne].
      * rewrite decide_True; [done|]. split; [by exists q|lia].
      * rewrite Hk by done. apply decide_ext. split; intros [[e He] ?]; (split; [by exists e|]); [lia|].
        assert (e < q + 1) by nia. assert (e ≠ q) by congruence. nia.
    + cbn [wp fell snd]. split; [done|]. intros k Hkr. rewrite Hk by done.
      apply decide_ext. intuition lia.
Qed.

Lemma sieve_step_wp limit p l : 2 ≤ p ≤ limit → limit < INT_MAX → crossed limit p l →
  wp (sieve_step limit p l) (λ c, match c with
    | Next l' => crossed limit (p + 1) l'
    | Break l' => limit < p * p ∧ crossed limit p l'
    | Return r => match r with end
    end).
Proof.
  intros Hp Hlim Hc. pose proof Hc as (Hl & H01 & H2 & Hsound & Hcompl).
  unfold sieve_step. wp_step. rewrite i64_ok by (c_unfold; nia). cbn [wp].
  destruct (Z.ltb_spec limit (p * p)) as [Hbig|Hsmall]; [done|].
  wp_step. rewrite rd_ok by lia. cbn [wp].
  destruct (Z.eqb_spec (l.[p]) 0) as [E|E]; cbn [negb].
  - cbn [wp]. split_and!; [done..|]. intros k q Hk Hq Hqp Hdiv Hqq.
    destruct (decide (q = p)) as [->|]; [by apply Hsound in E|]. apply (Hcompl k q); done || lia.
  - wp_step. eapply wp_mono; [apply cross_out_wp; lia|]. intros l' [Hlen Hk].
    cbn [wp]. split_and!.
    + lia.
    + intros k Hkr. rewrite Hk by done. case_decide; [by left|by apply H01].
    + intros k Hkr. rewrite Hk by lia. rewrite decide_False by nia. by apply H2.
    + intros k Hkr. rewrite Hk by lia. case_decide as Hd; [|by apply Hsound].
      intros _ Hprime. destruct Hd as [Hd ?].
      destruct (prime_divisors k Hprime p Hd) as [?|[?|[?|?]]]; nia.
    + intros k q Hkr Hq Hqp Hdiv Hqq. rewrite Hk by lia. case_decide as Hd; [done|].
      apply (Hcompl k q); try done. destruct (decide (q = p)) as [->|]; [by destruct Hd|lia].
Qed.

(** After the passes, exactly the primes are left. *)
Lemma crossed_all limit p l : crossed limit p l → limit < p * p → 0 ≤ p → ∀ k, 0 ≤ k ≤ limit →
  l.[k] = if prime_dec k then 1 else 0.
Proof.
  intros (Hl & H01 & H2 & Hsound & Hcompl) Hp Hp0 k Hk.
  destruct (prime_dec k) as [Hprime|Hnp].
  - destruct (H01 k Hk) as [E|]; [|done]. pose proof (prime_ge_2 k Hprime).
    by destruct (Hsound k ltac:(lia) E).
  - destruct (decide (k < 2)); [apply H2; lia|].
    destruct (small_prime_divisor k ltac:(lia) Hnp) as (q & Hq & Hdiv & Hqq).
    pose proof (prime_ge_2 q Hq). apply (Hcompl k q); try done; [lia|nia].
Qed.

Lemma primes_below_range n : 0 ≤ primes_below n ≤ Z.of_nat n.
Proof. induction n as [|n IH]; cbn [primes_below]; [lia|]. destruct (prime_dec _); lia. Qed.

Lemma sieve_wp limit arena : 1 ≤ limit < INT_MAX → limit < zlen arena →
  wp (sieve limit arena) (λ '(count, l), count = primes_upto limit ∧ length l = length arena).
Proof.
  intros Hlim Hl. unfold sieve. c_unfold.
  wp_step. eapply wp_mono.
  { apply (for_range_wp (λ i l, length l = length arena ∧ ∀ k, 0 ≤ k < i → l.[k] = 1) 0 (limit + 1)
      _ _ (λ l, length l = length arena ∧ ∀ k, 0 ≤ k ≤ limit → l.[k] = 1)).
    - split; [done|]. lia.
    - intros i l Hi [Hlen Hk]. rewrite wr_ok by lia. cbn [wp]. split; [by rewrite length_zset|].
      intros k Hkr. rewrite znth_zset by lia. case_decide; [done|]. apply Hk. lia.
    - intros l [Hlen Hk]. split; [done|]. intros k Hkr. apply Hk. lia. }
  intros l1 [Hlen1 Hk1]. wp_step. rewrite wr_ok by lia. cbn [wp].
  wp_step. rewrite wr_ok by (rewrite length_zset; lia). cbn [wp].
  set (l2 := zset (zset l1 0 0) 1 0).
  assert (crossed limit 2 l2) as Hc.
  { unfold l2.
    assert (∀ k, 0 ≤ k ≤ limit → (zset (zset l1 0 0) 1 0).[k] = if decide (k < 2) then 0 else 1) as E.
    { intros k Hk. rewrite !znth_zset by (rewrite ?length_zset; lia).
      destruct (decide (1 = k)) as [<-|]; [done|]. destruct (decide (0 = k)) as [<-|]; [done|].
      rewrite Hk1 by done. rewrite decide_False by lia. done. }
    split_and!.
    - rewrite !length_zset. lia.
    - intros k Hk. rewrite E by done. case_decide; auto.
    - intros k Hk. rewrite E by lia. by rewrite decide_True by lia.
    - intros k Hk. rewrite E by lia. rewrite decide_False by lia. done.
    - intros k q Hk Hq. pose proof (prime_ge_2 q Hq). lia. }
  wp_step. eapply wp_mono.
  { apply (for_ctl_wp (λ p l, crossed limit p l ∧ length l = length arena) 2 (limit + 1) _ l2
      (λ r, ∃ p, crossed limit p (fell r) ∧ limit < p * p ∧ 0 ≤ p ∧ length (fell r) = length arena)).
    - split; [done|]. unfold l2. by rewrite !length_zset.
    - intros p l Hp [Hcp Hlp]. pose proof (sieve_step_wp limit p l ltac:(lia) ltac:(c_unfold; lia) Hcp) as Hw.
      assert (wlp (sieve_step limit p l) (λ c, match c with
        | Next l' | Break l' => length l' = length l | Return _ => True end)) as Hlen.
      { unfold sieve_step. unfold wlp. destruct (i64 (p * p)) as [pp| |]; cbn [mbind Res_bind]; [|done..].
        destruct (limit <? pp); [done|]. destruct (rd l p) as [f| |]; cbn [mbind Res_bind]; [|done..].
        destruct (negb (f =? 0)); [|done].
        destruct (cross_out limit p l) as [l'| |] eqn:Eco; cbn [mbind Res_bind]; [|done..].
        destruct (decide (p * p ≤ limit)) as [Hpp|Hpp].
        - pose proof (cross_out_wp limit p l ltac:(lia) Hpp ltac:(c_unfold; lia) ltac:(lia)) as H1.
          rewrite Eco in H1. by destruct H1.
        - unfold cross_out in Eco. cbn [loop] in Eco. rewrite (proj2 (Z.leb_gt _ _)) in Eco by lia.
          cbn in Eco. by injection Eco as <-. }
      destruct (sieve_step limit p l) as [[l'|l'|[]]| |]; cbn [wp wlp] in *; try done.
      + split; [done|congruence].
      + exists p. destruct Hw. split_and!; [done|done|lia|cbn; congruence].
    - intros l [Hcl Hll]. rewrite Z.max_r in Hcl by lia. exists (limit + 1).
      split_and!; [done|nia|lia|done]. }
  intros r (p & Hcr & Hp & Hp0 & Hlr). pose proof (crossed_all _ _ _ Hcr Hp Hp0) as Hall.
  cbn zeta. wp_step.
  apply (for_range_wp (λ k count, count = primes_below (Z.to_nat k))); [done| |].
  - intros k count Hk ->. pose proof (primes_below_range (Z.to_nat k)).
    wp_step. rewrite rd_ok by lia. cbn [wp]. rewrite Hall by lia.
    replace (Z.to_nat (k + 1)) with (S (Z.to_nat k)) by lia. cbn [primes_below].
    rewrite Z2Nat.id by lia. destruct (prime_dec k); cbn [negb Z.eqb wp].
    + rewrite i32_ok by (c_unfold; lia). done.
    + lia.
  - intros count ->. rewrite Z.max_r by lia. cbn [wp]. done.
Qed.

(** [sieve] counts the primes up to its limit, for every limit from 1 up to
    one below [INT_MAX] and every arena of more than [limit] bytes whatever it
    contains: it terminates without undefined behaviour and without overflow of
    its counters, and the arena keeps its size. *)
Theorem sieve_counts_primes limit arena : 1 ≤ limit < INT_MAX → limit < zlen arena →
  ∃ arena', sieve limit arena = Ok (primes_upto limit, arena') ∧ length arena' = length arena.
Proof.
  intros Hlim Hl. destruct (wp_elim _ _ (sieve_wp limit arena Hlim Hl)) as ([c l] & E & -> & Hlen).
  by exists l.
Qed.

Lemma sieve_counts_primes_witness :
  fst <$> sieve 30 (replicate 31 77) = Ok 10 ∧
  ∃ arena', sieve 30 (replicate 31 77) = Ok (primes_upto 30, arena') ∧
            length arena' = length (replicate 31 77).
Proof.
  split; [vm_compute; reflexivity|].
  apply (sieve_counts_primes 30 (replicate 31 77)); [c_unfold; lia|cbn; lia].
Defined.
