(* ===== verification/Sudoku.v ===== *)
(** * The sudoku solver

    Models [benchmarks/sudoku_solver.c] and proves the backtracking search sound
    and complete. *)
From S2P Require Import Prelude.

(** [can_place]: no cell of the row, the column or the box holds [num].  Cells
    are read with [rd], so that a read outside the board is undefined. *)
Definition can_place (board : list Z) (row col num : Z) : Res bool :=
  r ← for_ctl 0 9 (λ x _,
        a ← rd board (row * 9 + x);
        if a =? num then Ok (Return false) else
        b ← rd board (x * 9 + col);
        if b =? num then Ok (Return false) else Ok (Next tt)) tt;
  match r with
  | Gave b => Ok b
  | Fell _ =>
    let startRow := row - Z.rem row 3 in
    let startCol := col - Z.rem col 3 in
    r ← for_ctl 0 3 (λ i _,
          r ← for_ctl 0 3 (λ j _,
                a ← rd board ((i + startRow) * 9 + (j + startCol));
                if a =? num then Ok (Return false) else Ok (Next tt)) tt;
          match r with Gave b => Ok (Return b) | Fell u => Ok (Next u) end) tt;
    match r with Gave b => Ok b | Fell _ => Ok true end
  end.

(** [solve_sudoku]; the recursion fills one empty cell per level, so that 82
    levels are enough for 81 cells. *)
Fixpoint solve_sudoku (fuel : nat) (board : list Z) : Res (bool * list Z) :=
  match fuel with
  | O => NoFuel
  | S fuel =>
    r ← for_ctl 0 81 (λ i board,
          v ← rd board i;
          if v =? 0 then
            let row := Z.quot i 9 in
            let col := Z.rem i 9 in
            r ← for_ctl 1 10 (λ num board,
                  ok ← can_place board row col num;
                  if ok : bool then
                    board ← wr board i num;
                    '(solved, board) ← solve_sudoku fuel board;
                    if solved : bool then Ok (Return (true, board)) else
                    board ← wr board i 0;
                    Ok (Next board)
                  else Ok (Next board)) board;
            match r with
            | Gave r => Ok (Return r)
            | Fell board => Ok (Return (false, board))
            end
          else Ok (Next board)) board;
    match r with Gave r => Ok r | Fell board => Ok (true, board) end
  end.

Definition bench_board : list Z :=
  [3; 0; 6; 5; 0; 8; 4; 0; 0; 5; 2; 0; 0; 0; 0; 0; 0; 0;
   0; 8; 7; 0; 0; 0; 0; 3; 1; 0; 0; 3; 0; 1; 0; 0; 8; 0;
   9; 0; 0; 8; 6; 3; 0; 0; 5; 0; 5; 0; 0; 9; 0; 6; 0; 0;
   1; 3; 0; 0; 0; 0; 2; 5; 0; 0; 0; 0; 0; 0; 0; 0; 7; 4;
   0; 0; 5; 2; 0; 6; 3; 0; 0].

(** [main]: the exit status. *)
Definition sudoku_main : Res Z :=
  total_solved ← for_range 0 600 (λ _ total,
    '(solved, _) ← solve_sudoku 82 bench_board;
    if solved : bool then i32 (total + 1) else Ok total) 0;
  Ok (if negb (total_solved =? 600) then 1 else 0).

(** ** Specification *)

(** The cells [i] and [j] share a row, a column or a box. *)
Definition same_unit (i j : Z) : Prop :=
  i / 9 = j / 9 ∨ i mod 9 = j mod 9 ∨ (i / 27 = j / 27 ∧ i mod 9 / 3 = j mod 9 / 3).

Definition wf (b : list Z) : Prop := zlen b = 81 ∧ ∀ i, 0 ≤ i < 81 → 0 ≤ b.[i] ≤ 9.

(** No filled cell equals another of its row, column or box. *)
Definition consistent (b : list Z) : Prop :=
  ∀ i j, 0 ≤ i < 81 → 0 ≤ j < 81 → i ≠ j → same_unit i j → b.[i] ≠ 0 → b.[i] ≠ b.[j].

(** [s] completes [b]. *)
Definition solution (s b : list Z) : Prop :=
  wf s ∧ consistent s ∧ (∀ i, 0 ≤ i < 81 → s.[i] ≠ 0) ∧
  ∀ i, 0 ≤ i < 81 → b.[i] ≠ 0 → s.[i] = b.[i].

Lemma same_unit_sym i j : same_unit i j → same_unit j i.
Proof. unfold same_unit. intuition. Qed.

Definition no_clash (b : list Z) (i num : Z) : Prop :=
  ∀ j, 0 ≤ j < 81 → same_unit i j → b.[j] ≠ num.

Ltac divmod := Z.to_euclidean_division_equations; lia.

Lemma can_place_wp b i num : zlen b = 81 → 0 ≤ i < 81 →
  wp (can_place b (Z.quot i 9) (Z.rem i 9) num) (λ r,
    if r : bool then no_clash b i num else ∃ j, 0 ≤ j < 81 ∧ same_unit i j ∧ b.[j] = num).
Proof.
  intros Hl Hi. rewrite Z.quot_div_nonneg, Z.rem_mod_nonneg by lia.
  assert (0 ≤ i / 9 < 9 ∧ 0 ≤ i mod 9 < 9) as [Hr Hc] by divmod.
  unfold can_place. wp_step. eapply wp_mono.
  { apply (for_ctl_wp (λ x _, ∀ y, 0 ≤ y < x → b.[i / 9 * 9 + y] ≠ num ∧ b.[y * 9 + i mod 9] ≠ num) 0 9 _ tt
      (λ r, match r with
        | Gave r => r = false ∧ ∃ j, 0 ≤ j < 81 ∧ same_unit i j ∧ b.[j] = num
        | Fell _ => ∀ y, 0 ≤ y < 9 → b.[i / 9 * 9 + y] ≠ num ∧ b.[y * 9 + i mod 9] ≠ num
        end)).
    - lia.
    - intros x _ Hx Hlow. wp_step. rewrite rd_ok by lia. cbn [wp].
      destruct (Z.eqb_spec (b.[i / 9 * 9 + x]) num) as [E|E]; cbn [wp].
      { split; [done|]. exists (i / 9 * 9 + x). split_and!; [lia|lia|left; divmod|done]. }
      wp_step. rewrite rd_ok by lia. cbn [wp].
      destruct (Z.eqb_spec (b.[x * 9 + i mod 9]) num) as [E'|E']; cbn [wp].
      { split; [done|]. exists (x * 9 + i mod 9). split_and!; [lia|lia|right; left; divmod|done]. }
      intros y Hy. destruct (decide (y = x)) as [->|]; [done|]. apply Hlow. lia.
    - intros _ Hlow. done. }
  intros [u|r]; [|intros [-> Hj]; done]. intros Hrc. cbn zeta.
  rewrite !Z.rem_mod_nonneg by lia.
  set (sr := i / 9 - i / 9 mod 3). set (sc := i mod 9 - i mod 9 mod 3).
  assert (0 ≤ sr ≤ 6 ∧ 0 ≤ sc ≤ 6) as [Hsr Hsc] by (unfold sr, sc; divmod).
  assert (∀ x y, 0 ≤ x < 3 → 0 ≤ y < 3 → same_unit i ((x + sr) * 9 + (y + sc))) as Hbox.
  { intros x y Hx Hy. right. right. unfold sr, sc. divmod. }
  wp_step. eapply wp_mono.
  { apply (for_ctl_wp (λ x _, ∀ x' y, 0 ≤ x' < x → 0 ≤ y < 3 → b.[(x' + sr) * 9 + (y + sc)] ≠ num) 0 3 _ tt
      (λ r, match r with
        | Gave r => r = false ∧ ∃ j, 0 ≤ j < 81 ∧ same_unit i j ∧ b.[j] = num
        | Fell _ => ∀ x y, 0 ≤ x < 3 → 0 ≤ y < 3 → b.[(x + sr) * 9 + (y + sc)] ≠ num
        end)).
    - lia.
    - intros x _ Hx Hlow. wp_step.
      apply (for_ctl_wp (λ y _, ∀ y', 0 ≤ y' < y → b.[(x + sr) * 9 + (y' + sc)] ≠ num)).
      + lia.
      + intros y _ Hy Hlow'. wp_step. rewrite rd_ok by lia. cbn [wp].
        destruct (Z.eqb_spec (b.[(x + sr) * 9 + (y + sc)]) num) as [E|E]; cbn [wp].
        * split; [done|]. exists ((x + sr) * 9 + (y + sc)).
          split_and!; [lia|lia|by apply Hbox|done].
        * intros y' Hy'. destruct (decide (y' = y)) as [->|]; [done|]. apply Hlow'. lia.
      + intros [] Hlow'. cbn [wp]. intros x' y Hx' Hy.
        destruct (decide (x' = x)) as [->|]; [by apply Hlow'|]. apply Hlow; lia.
    - intros _ Hlow. done. }
  intros [v|r]; [|intros [-> Hj]; done]. intros Hall. cbn [wp].
  intros j Hj [E|[E|[E1 E2]]].
  - replace j with (i / 9 * 9 + j mod 9) by divmod. apply Hrc. divmod.
  - replace j with (j / 9 * 9 + i mod 9) by divmod. apply Hrc. divmod.
  - replace j with ((j / 9 - sr + sr) * 9 + (j mod 9 - sc + sc)) by divmod.
    apply Hall; unfold sr, sc; divmod.
Qed.

(** ** The search *)
Lemma solution_place s b i num : zlen b = 81 → 0 ≤ i < 81 → b.[i] = 0 → num ≠ 0 →
  solution s (zset b i num) ↔ solution s b ∧ s.[i] = num.
Proof.
  intros Hl Hi Hb Hn. unfold solution.
  assert (∀ j, 0 ≤ j < 81 → (zset b i num).[j] = if decide (i = j) then num else b.[j]) as E.
  { intros j Hj. apply znth_zset; lia. }
  split.
  - intros (Hw & Hc & Hf & He). assert (s.[i] = num) as Hsi.
    { rewrite He by (rewrite ?E, ?decide_True by done; lia || done). by rewrite E, decide_True by done. }
    split; [|done]. split_and!; [done..|]. intros j Hj Hbj. rewrite He, E.
    + rewrite decide_False; [done|]. congruence.
    + done.
    + done.
    + rewrite E by done. by case_decide.
  - intros ((Hw & Hc & Hf & He) & Hsi). split_and!; [done..|]. intros j Hj.
    rewrite E by done. case_decide; [congruence|auto].
Qed.

Lemma place_ok b i num : wf b → consistent b → 0 ≤ i < 81 → b.[i] = 0 → 1 ≤ num ≤ 9 →
  no_clash b i num →
  wf (zset b i num) ∧ consistent (zset b i num) ∧
  countb (Z.eqb 0) (zset b i num) = countb (Z.eqb 0) b - 1.
Proof.
  intros [Hl Hr] Hc Hi Hb Hn Hno.
  assert (∀ j, 0 ≤ j < 81 → (zset b i num).[j] = if decide (i = j) then num else b.[j]) as E.
  { intros j Hj. apply znth_zset; lia. }
  split_and!.
  - split; [by rewrite length_zset|]. intros j Hj. rewrite E by done. case_decide; [lia|auto].
  - intros j k Hj Hk Hne Hu. rewrite !E by done. repeat case_decide; subst; try done.
    + intros _ E'. by apply (Hno k).
    + intros _ E'. apply (Hno j); [done|by apply same_unit_sym|done].
    + by apply Hc.
  - rewrite countb_zset by lia. rewrite Hb. destruct (Z.eqb_spec 0 num); cbn; lia.
Qed.

Lemma solve_wp fuel b : wf b → consistent b → countb (Z.eqb 0) b < Z.of_nat fuel →
  wp (solve_sudoku fuel b) (λ '(r, b'),
    if r : bool then solution b' b else b' = b ∧ ∀ s, ¬ solution s b).
Proof.
  revert b. induction fuel as [|fuel IH]; intros b Hwf Hc Hf.
  { pose proof (countb_range (Z.eqb 0) b). lia. }
  pose proof Hwf as [Hl Hr]. cbn [solve_sudoku]. wp_step.
  apply (for_ctl_wp (λ i b', b' = b ∧ ∀ j, 0 ≤ j < i → b.[j] ≠ 0)).
  - split; [done|lia].
  - intros i b' Hi [-> Hfull]. wp_step. rewrite rd_ok by lia. cbn [wp].
    destruct (Z.eqb_spec (b.[i]) 0) as [E|E].
    + cbn zeta. wp_step.
      apply (for_ctl_wp (λ num b', b' = b ∧
        ∀ n s, 1 ≤ n < num → solution s b → s.[i] ≠ n)).
      * split; [done|lia].
      * intros num b' Hnum [-> Hno]. wp_step.
        eapply wp_mono; [by apply (can_place_wp b i num)|]. intros [|].
        -- intros Hclear. destruct (place_ok b i num) as (Hwf1 & Hc1 & Hcnt); [done..|lia|done|].
           wp_step. rewrite wr_ok by lia. cbn [wp]. wp_step.
           eapply wp_mono; [apply IH; [done|done|lia]|]. intros [[|] b2].
           ++ intros Hsol. cbn [wp].
              apply (solution_place b2 b i num) in Hsol as [? _]; [done|done|done|done|lia].
           ++ intros [-> Hnosol]. wp_step. rewrite wr_ok by (rewrite length_zset; lia). cbn [wp].
              split.
              ** unfold zset. rewrite list_insert_insert_eq. rewrite <- E at 1. by apply zset_id; lia.
              ** intros n s Hn Hsol. destruct (decide (n = num)) as [->|]; [|apply Hno; [lia|done]].
                 intros Es. apply (Hnosol s). apply solution_place; [done|done|done|lia|done].
        -- intros (j & Hj & Hu & Ej). cbn [wp]. split; [done|]. intros n s Hn Hsol.
           destruct (decide (n = num)) as [->|]; [|apply Hno; [lia|done]].
           destruct Hsol as (_ & Hcs & Hfs & Hes). intros Es.
           assert (i ≠ j) by (intros ->; lia).
           apply (Hcs i j); [done..|by apply Hfs|]. rewrite Es, Hes; [done|done|lia].
      * intros b' [-> Hno]. cbn [wp]. split; [done|]. intros s Hsol.
        pose proof Hsol as ((_ & Hrs) & _ & Hfs & _).
        specialize (Hrs i Hi). specialize (Hfs i Hi).
        apply (Hno (s.[i]) s); [lia|done|done].
    + cbn [wp]. split; [done|]. intros j Hj. destruct (decide (j = i)) as [->|]; [done|].
      apply Hfull. lia.
  - intros b' [-> Hfull]. cbn [wp]. split_and!; [done..| |done]. intros i Hi. apply Hfull. lia.
Qed.

(** C35. The sudoku solver is sound and complete on every board whose filled cells
    do not clash: with 82 levels of recursion it terminates without undefined
    behaviour, and it answers true with a completed, clash-free board that keeps
    the given cells, or false with the board unchanged exactly when no completion
    exists. *)
Theorem solve_sudoku_correct b : wf b → consistent b →
  ∃ r b', solve_sudoku 82 b = Ok (r, b') ∧
    (r = true → solution b' b) ∧ (r = false → b' = b ∧ ∀ s, ¬ solution s b).
Proof.
  intros Hwf Hc. pose proof (countb_range (Z.eqb 0) b) as Hr. destruct Hwf as [Hl Hwf].
  destruct (wp_elim _ _ (solve_wp 82 b (conj Hl Hwf) Hc ltac:(lia))) as ([r b'] & E & HP).
  exists r, b'. split; [done|]. by destruct r.
Qed.

(** Quantification over the cells is decidable. *)
#[export] Instance forall_range_dec (n : Z) (P : Z → Prop) `{!∀ i, Decision (P i)} :
  Decision (∀ i, 0 ≤ i < n → P i).
Proof.
  refine (cast_if (decide (Forall P (seqZ 0 n)))); rewrite Forall_forall in *.
  - intros i Hi. apply f, elem_of_seqZ. lia.
  - intros Hall. apply n0. intros i Hi%elem_of_seqZ. apply Hall. lia.
Defined.

#[export] Instance same_unit_dec i j : Decision (same_unit i j).
Proof. unfold same_unit. apply _. Defined.

Definition clash_free (b : list Z) : Prop :=
  ∀ i, 0 ≤ i < 81 → ∀ j, 0 ≤ j < 81 → i ≠ j → same_unit i j → b.[i] ≠ 0 → b.[i] ≠ b.[j].

Lemma solve_sudoku_correct_witness :
  ∃ r b', solve_sudoku 82 bench_board = Ok (r, b') ∧
    (r = true → solution b' bench_board) ∧
    (r = false → b' = bench_board ∧ ∀ s, ¬ solution s bench_board).
Proof.
  apply (solve_sudoku_correct bench_board).
  - split; [done|]. apply (bool_decide_unpack _). vm_compute. exact I.
  - enough (clash_free bench_board) as H.
    { intros i j Hi Hj. by apply H. }
    apply (bool_decide_unpack _). vm_compute. exact I.
Defined.
