(* ===== verification/RainWater.v ===== *)
(** * Trapping rain water

    Models [benchmarks/trapping_rain_water.c] and proves the two-pass algorithm
    against the definition of the water level. *)
From S2P Require Import Prelude.

Definition left_pass (junk : nat → Z) (height : list Z) : Res (list Z) :=
  h0 ← rd height 0;
  left ← wr (malloc_arr junk (zlen height)) 0 h0;
  for_range 1 (zlen height) (λ i left,
    h ← rd height i;
    prev ← rd left (i - 1);
    wr left i (if prev <? h then h else prev)) left.

Definition right_pass (junk : nat → Z) (height : list Z) : Res (list Z) :=
  let n := zlen height in
  hl ← rd height (n - 1);
  right ← wr (malloc_arr junk n) (n - 1) hl;
  for_downto (n - 2) 0 (λ i right,
    h ← rd height i;
    next ← rd right (i + 1);
    wr right i (if next <? h then h else next)) right.

(** [heightSize] is the length of the array. *)
Definition trap (junk1 junk2 : nat → Z) (height : list Z) : Res Z :=
  if zlen height <=? 2 then Ok 0 else
  left ← left_pass junk1 height;
  right ← right_pass junk2 height;
  for_range 0 (zlen height) (λ i ans,
    l ← rd left i;
    r ← rd right i;
    let min_h := if l <? r then l else r in
    h ← rd height i;
    d ← i32 (min_h - h);
    i32 (ans + d)) 0.

(** The benchmark: a zigzag of 100000 columns, 1000 times. *)
Definition zigzag (i : Z) : Z :=
  if Z.rem (Z.quot i 10) 2 =? 1 then 9 - Z.rem i 10 else Z.rem i 10.

Definition trap_main (junk0 junk1 junk2 : nat → Z) : Res Z :=
  height ← for_range 0 100000 (λ i height, wr height i (zigzag i)) (malloc_arr junk0 100000);
  for_range 0 1000 (λ _ total, t ← trap junk1 junk2 height; i32 (total + t)) 0.

(** ** Specification *)

(** [m] is the greatest of the heights from [a] to [b]. *)
Definition highest (height : list Z) (a b m : Z) : Prop :=
  (∃ j, a ≤ j ≤ b ∧ height.[j] = m) ∧ ∀ j, a ≤ j ≤ b → height.[j] ≤ m.

(** Water stands over column [i] up to the lower of the highest columns on its
    two sides, itself included. *)
Definition water_level (height : list Z) (i w : Z) : Prop :=
  ∃ l r, highest height 0 i l ∧ highest height i (zlen height - 1) r ∧ w = Z.min l r.

(** The water over the first [n] columns. *)
Inductive water (height : list Z) : Z → Z → Prop :=
| water_0 : water height 0 0
| water_S n w total : 0 ≤ n → water height n total → water_level height n w →
    water height (n + 1) (total + (w - height.[n])).

Lemma highest_one height a : highest height a a (height.[a]).
Proof. split; [exists a; lia|]. intros j Hj. by replace j with a by lia. Qed.

Lemma highest_right height a b m : a ≤ b + 1 → highest height a b m →
  highest height a (b + 1) (if m <? height.[b + 1] then height.[b + 1] else m).
Proof.
  intros Hab [(j & Hj & Ej) Hle]. split.
  - destruct (Z.ltb_spec m (height.[b + 1])); [exists (b + 1)|exists j]; lia.
  - intros k Hk. destruct (decide (k = b + 1)) as [->|].
    + destruct (Z.ltb_spec m (height.[b + 1])); lia.
    + specialize (Hle k ltac:(lia)). destruct (Z.ltb_spec m (height.[b + 1])); lia.
Qed.

Lemma highest_left height a b m : a - 1 ≤ b → highest height a b m →
  highest height (a - 1) b (if m <? height.[a - 1] then height.[a - 1] else m).
Proof.
  intros Hab [(j & Hj & Ej) Hle]. split.
  - destruct (Z.ltb_spec m (height.[a - 1])); [exists (a - 1)|exists j]; lia.
  - intros k Hk. destruct (decide (k = a - 1)) as [->|].
    + destruct (Z.ltb_spec m (height.[a - 1])); lia.
    + specialize (Hle k ltac:(lia)). destruct (Z.ltb_spec m (height.[a - 1])); lia.
Qed.

Lemma left_pass_wp junk height : 0 < zlen height →
  wp (left_pass junk height) (λ left, zlen left = zlen height ∧
    ∀ i, 0 ≤ i < zlen height → highest height 0 i (left.[i])).
Proof.
  intros Hn. unfold left_pass. wp_step. rewrite rd_ok by lia. cbn [wp].
  wp_step. rewrite wr_ok by (rewrite length_malloc; lia). cbn [wp].
  apply (for_range_wp (λ i left, zlen left = zlen height ∧
    ∀ j, 0 ≤ j < i → highest height 0 j (left.[j]))).
  - split; [rewrite length_zset, length_malloc; lia|]. intros j Hj.
    replace j with 0 by lia. rewrite znth_zset_eq by (rewrite length_malloc; lia).
    apply highest_one.
  - intros i left Hi [Hl Hlow]. wp_step. rewrite rd_ok by lia. cbn [wp].
    wp_step. rewrite rd_ok by lia. cbn [wp]. rewrite wr_ok by lia. cbn [wp].
    split; [by rewrite length_zset|]. intros j Hj. rewrite znth_zset by lia. case_decide as E.
    + subst j. replace i with (i - 1 + 1) by lia. replace (i - 1 + 1 - 1) with (i - 1) by lia.
      apply highest_right; [lia|]. apply Hlow. lia.
    + apply Hlow. lia.
  - intros left. rewrite Z.max_r by lia. done.
Qed.

Lemma right_pass_wp junk height : 0 < zlen height →
  wp (right_pass junk height) (λ right, zlen right = zlen height ∧
    ∀ i, 0 ≤ i < zlen height → highest height i (zlen height - 1) (right.[i])).
Proof.
  intros Hn. unfold right_pass. wp_step. rewrite rd_ok by lia. cbn [wp].
  wp_step. rewrite wr_ok by (rewrite length_malloc; lia). cbn [wp].
  apply (for_downto_wp (λ i right, zlen right = zlen height ∧
    ∀ j, i < j < zlen height → highest height j (zlen height - 1) (right.[j]))).
  - split; [rewrite length_zset, length_malloc; lia|]. intros j Hj.
    replace j with (zlen height - 1) by lia.
    rewrite znth_zset_eq by (rewrite length_malloc; lia). apply highest_one.
  - intros i right Hi [Hl Hlow]. wp_step. rewrite rd_ok by lia. cbn [wp].
    wp_step. rewrite rd_ok by lia. cbn [wp]. rewrite wr_ok by lia. cbn [wp].
    split; [by rewrite length_zset|]. intros j Hj. rewrite znth_zset by lia. case_decide as E.
    + subst j. replace i with (i + 1 - 1) by lia. replace (i + 1 - 1 + 1) with (i + 1) by lia.
      apply highest_left; [lia|]. apply Hlow. lia.
    + apply Hlow. lia.
  - intros right [Hl Hlow]. split; [done|]. intros i Hi. apply Hlow. lia.
Qed.

Lemma highest_bounds height a b m lo hi : (∀ j, a ≤ j ≤ b → lo ≤ height.[j] ≤ hi) →
  highest height a b m → lo ≤ m ≤ hi.
Proof. intros Hb [(j & Hj & <-) _]. by apply Hb. Qed.

(** [trap] computes the trapped water: on an array of heights between 0 and
    [hi], with [n * hi] within [int], it terminates without undefined behaviour
    (whatever [malloc] returns) and its result is the sum over the columns of the
    water level minus the height, where the level is the lower of the highest
    columns on either side; the shortcut for two columns or fewer agrees. *)
Theorem trap_correct junk1 junk2 height hi :
  (∀ i, 0 ≤ i < zlen height → 0 ≤ height.[i] ≤ hi) → zlen height * hi ≤ INT_MAX →
  hi ≤ INT_MAX →
  ∃ total, trap junk1 junk2 height = Ok total ∧ water height (zlen height) total.
Proof.
  intros Hh Hsum Hhi. unfold trap. destruct (Z.leb_spec (zlen height) 2) as [Hle|Hgt].
  - exists 0. split; [done|]. assert (∀ i, 0 ≤ i < zlen height → water_level height i (height.[i])) as Hw.
    { intros i Hi. assert (zlen height = 1 ∨ zlen height = 2) as [E|E] by lia.
      - exists (height.[i]), (height.[i]). rewrite E. replace i with 0 by lia.
        split_and!; [apply highest_one..|lia].
      - assert (i = 0 ∨ i = 1) as [->| ->] by lia; unfold water_level; rewrite E; change (2 - 1) with 1.
        + exists (height.[0]), (if height.[1] <? height.[1 - 1] then height.[1 - 1] else height.[1]).
          split_and!; [apply highest_one|apply (highest_left _ 1); [lia|apply highest_one]|].
          change (1 - 1) with 0. destruct (Z.ltb_spec (height.[1]) (height.[0])); lia.
        + exists (if height.[0] <? height.[0 + 1] then height.[0 + 1] else height.[0]), (height.[1]).
          split_and!; [apply (highest_right _ 0 0); [lia|apply highest_one]|apply highest_one|].
          change (0 + 1) with 1. destruct (Z.ltb_spec (height.[0]) (height.[1])); lia. }
    assert (∀ n, Z.of_nat n ≤ zlen height → water height (Z.of_nat n) 0) as Hall.
    { intros n. induction n as [|n IH]; intros Hn; [constructor|].
      replace (Z.of_nat (S n)) with (Z.of_nat n + 1) by lia.
      replace 0 with (0 + (height.[Z.of_nat n] - height.[Z.of_nat n])) by lia.
      constructor; [lia|apply IH; lia|apply Hw; lia]. }
    by apply Hall.
  - enough (wp (left ← left_pass junk1 height; right ← right_pass junk2 height;
      for_range 0 (zlen height) (λ i ans,
        l ← rd left i; r ← rd right i;
        let min_h := if l <? r then l else r in
        h ← rd height i; d ← i32 (min_h - h); i32 (ans + d)) 0)
      (λ t, water height (zlen height) t)) as Hw by (by apply wp_elim in Hw as (t & E & Ht); exists t).
    wp_step. eapply wp_mono; [apply left_pass_wp; lia|]. intros left [Hll Hleft].
    wp_step. eapply wp_mono; [apply right_pass_wp; lia|]. intros right [Hlr Hright].
    apply (for_range_wp (λ i t, water height i t ∧ 0 ≤ t ≤ i * hi)).
    + split; [constructor|lia].
    + intros i t Hi [Hwt Ht]. wp_step. rewrite rd_ok by lia. cbn [wp].
      wp_step. rewrite rd_ok by lia. cbn [wp]. wp_step. rewrite rd_ok by lia. cbn [wp].
      pose proof (Hleft i Hi) as HL. pose proof (Hright i Hi) as HR.
      pose proof (highest_bounds height 0 i _ 0 hi ltac:(intros; apply Hh; lia) HL).
      pose proof (highest_bounds height i (zlen height - 1) _ 0 hi ltac:(intros; apply Hh; lia) HR).
      pose proof (proj2 HL i ltac:(lia)). pose proof (proj2 HR i ltac:(lia)).
      pose proof (Hh i Hi).
      assert ((if left.[i] <? right.[i] then left.[i] else right.[i]) = Z.min (left.[i]) (right.[i])) as ->.
      { destruct (Z.ltb_spec (left.[i]) (right.[i])); lia. }
      assert (t + (Z.min (left.[i]) (right.[i]) - height.[i]) ≤ (i + 1) * hi) by lia.
      assert ((i + 1) * hi ≤ zlen height * hi) by (apply Z.mul_le_mono_nonneg_r; lia).
      wp_step. rewrite i32_ok by (c_unfold; lia). cbn [wp]. rewrite i32_ok by (c_unfold; lia). cbn [wp].
      split; [|lia]. constructor; [lia|done|]. by exists (left.[i]), (right.[i]).
    + intros t [Hwt _]. by rewrite Z.max_r in Hwt by lia.
Qed.

Lemma trap_correct_witness :
  ∃ total, trap (λ _, 5) (λ _, 7) [0; 1; 0; 2; 1; 0; 1; 3; 2; 1; 2; 1] = Ok total ∧ total = 6 ∧
    water [0; 1; 0; 2; 1; 0; 1; 3; 2; 1; 2; 1] 12 total.
Proof.
  destruct (trap_correct (λ _, 5) (λ _, 7) [0; 1; 0; 2; 1; 0; 1; 3; 2; 1; 2; 1] 3) as (t & E & Hw).
  - intros i Hi. cbn in Hi.
    assert (Forall (λ x, 0 ≤ x ≤ 3) [0; 1; 0; 2; 1; 0; 1; 3; 2; 1; 2; 1]) as Hf
      by (repeat constructor; lia).
    apply (Forall_lookup_1 (λ x, 0 ≤ x ≤ 3) _ (Z.to_nat i) _ Hf), znth_lookup. cbn. lia.
  - c_unfold. cbn. lia.
  - c_unfold. lia.
  - exists t. split; [exact E|]. split; [|exact Hw]. vm_compute in E. by injection E as <-.
Defined.
