(* ===== verification/Fannkuch.v ===== *)
(** * Fannkuch

    Models [benchmarks/fannkuch.c].  The flip loop is proved to compute the
    pancake flips of a permutation and to terminate (Knuth's argument: each flip
    puts its first card where it stays until a higher one is placed). *)
From S2P Require Import Prelude.

(** [while (i < j)]: reverse [perm[0..k]] in place. *)
Definition reverse_prefix (k : Z) (perm : list Z) : Res (list Z) :=
  r ← loop (S (S (Z.to_nat k))) (λ '(i, j, perm),
        if i <? j then
          temp ← rd perm i;
          v ← rd perm j;
          perm ← wr perm i v;
          perm ← wr perm j temp;
          Ok (Next (i + 1, j - 1, perm))
        else Ok (Break (i, j, perm))) (0, k, perm);
  Ok (snd (fell r)).

(** [while ((k = perm[0]) != 0)]; the flips of [n] cards end within [2^n]. *)
Definition count_flips (n : Z) (perm : list Z) : Res (Z * list Z) :=
  r ← loop (S (Z.to_nat (2 ^ n))) (λ '(flips, perm),
        k ← rd perm 0;
        if negb (k =? 0) then
          perm ← reverse_prefix k perm;
          flips ← i32 (flips + 1);
          Ok (Next (flips, perm))
        else Ok (Break (flips, perm))) (0, perm);
  Ok (fell r).

Record Fannkuch := {
  perm1 : list Z; count : list Z; max_flips : Z; checksum : Z; perm_count : Z; r : Z }.

(** [while (r != 1)]. *)
Definition reset_counts (count : list Z) (r : Z) : Res (list Z * Z) :=
  x ← loop (S (Z.to_nat r)) (λ '(count, r),
        if negb (r =? 1) then
          count ← wr count (r - 1) r;
          Ok (Next (count, r - 1))
        else Ok (Break (count, r))) (count, r);
  Ok (fell x).

(** The inner [while (1)]: rotate until a count is left ([Break]) or all
    permutations are done ([Return]). *)
Definition next_permutation (n : Z) (s : Fannkuch) : Res (loop_exit Fannkuch Z) :=
  loop (S (Z.to_nat n)) (λ s,
    if r s =? n then
      t ← i32 (checksum s * 1000);
      res ← i32 (t + max_flips s);
      Ok (Return res)
    else
      perm0 ← rd (perm1 s) 0;
      p ← for_range 0 (r s) (λ i p, v ← rd p (i + 1); wr p i v) (perm1 s);
      p ← wr p (r s) perm0;
      c ← rd (count s) (r s);
      counts ← wr (count s) (r s) (c - 1);
      let s := {| perm1 := p; count := counts; max_flips := max_flips s;
                  checksum := checksum s; perm_count := perm_count s; r := r s |} in
      if 0 <? c - 1 then Ok (Break s)
      else Ok (Next {| perm1 := p; count := counts; max_flips := max_flips s;
                       checksum := checksum s; perm_count := perm_count s; r := r s + 1 |})) s.

(** One turn of the outer [while (1)]. *)
Definition fannkuch_turn (n : Z) (junk : nat → Z) (s : Fannkuch) : Res (ctl Fannkuch Z) :=
  '(counts, r) ← reset_counts (count s) (r s);
  perm ← for_range 0 n (λ i perm, v ← rd (perm1 s) i; wr perm i v) (malloc_arr junk n);
  '(flips, _) ← count_flips n perm;
  let max_flips := if max_flips s <? flips then flips else max_flips s in
  checksum ← i32 (if Z.rem (perm_count s) 2 =? 0 then checksum s + flips
                  else checksum s - flips);
  pc ← i32 (perm_count s + 1);
  x ← next_permutation n {| perm1 := perm1 s; count := counts; max_flips := max_flips;
                            checksum := checksum; perm_count := pc; r := r |};
  match x with Fell s => Ok (Next s) | Gave res => Ok (Return res) end.

(** [fuel] bounds the number of permutations. *)
Definition fannkuch (fuel : nat) (junk : nat → Z) (n : Z) : Res Z :=
  p ← for_range 0 n (λ i p, wr p i i) (malloc_arr junk n);
  x ← loop fuel (fannkuch_turn n junk)
        {| perm1 := p; count := malloc_arr junk n; max_flips := 0; checksum := 0;
           perm_count := 0; r := n |};
  match x with Gave res => Ok res | Fell _ => NoFuel end.

(** [main]: the exit status. *)
Definition fannkuch_main (fuel : nat) (junk : nat → Z) (argc : Z) : Res Z :=
  result ← fannkuch fuel junk (10 + (argc - 1));
  let checksum := Z.quot result 1000 in
  let max_flips := Z.rem result 1000 in
  if (argc =? 1) && ((checksum =? 73196) && (max_flips =? 38)) then Ok 0 else
  if 0 <? max_flips then Ok 0 else Ok 1.

(** ** Flips *)

(** Reversing the first [k + 1] cards, [k] being the first one. *)
Definition flip (l : list Z) : list Z :=
  let k := Z.to_nat (l.[0]) in reverse (take (S k) l) ++ drop (S k) l.

(** [l] is an arrangement of [0 .. n-1]. *)
Definition arrangement (n : Z) (l : list Z) : Prop := l ≡ₚ seqZ 0 n.

Lemma flip_perm l : flip l ≡ₚ l.
Proof. unfold flip. by rewrite reverse_Permutation, take_drop. Qed.

Lemma arrangement_spec n l : 0 ≤ n → arrangement n l →
  zlen l = n ∧ NoDup l ∧ ∀ i, 0 ≤ i < n → 0 ≤ l.[i] < n.
Proof.
  intros Hn Hl. assert (zlen l = n) as Hlen by (rewrite Hl, length_seqZ; lia).
  split_and!; [done|rewrite Hl; apply NoDup_seqZ|]. intros i Hi.
  assert (l.[i] ∈ l) as Hin by (apply (list_elem_of_lookup_2 _ (Z.to_nat i)), znth_lookup; lia).
  revert Hin. generalize (l.[i]). intros x Hin. rewrite Hl in Hin. apply elem_of_seqZ in Hin. lia.
Qed.

Lemma znth_inj (l : list Z) i j : NoDup l → 0 ≤ i < zlen l → 0 ≤ j < zlen l → l.[i] = l.[j] → i = j.
Proof.
  intros Hnd Hi Hj E. pose proof (znth_lookup l i Hi) as Ei. pose proof (znth_lookup l j Hj) as Ej.
  rewrite E in Ei. pose proof (NoDup_lookup l _ _ _ Hnd Ei Ej). lia.
Qed.

Lemma length_flip l : length (flip l) = length l.
Proof. by rewrite flip_perm. Qed.

Lemma flip_nth l m : 0 ≤ l.[0] < zlen l → 0 ≤ m < zlen l →
  (flip l).[m] = if decide (m ≤ l.[0]) then l.[l.[0] - m] else l.[m].
Proof.
  intros Hk Hm. unfold flip. set (k := l.[0]) in *. case_decide.
  - rewrite lookup_total_app_l by (rewrite length_reverse, length_take; lia).
    apply list_lookup_total_correct. rewrite reverse_lookup by (rewrite length_take; lia).
    rewrite length_take.
    replace (Nat.min (S (Z.to_nat k)) (length l) - S (Z.to_nat m))%nat with (Z.to_nat (k - m)) by lia.
    rewrite lookup_take_lt by lia.
    apply znth_lookup. lia.
  - rewrite lookup_total_app_r by (rewrite length_reverse, length_take; lia).
    rewrite length_reverse, length_take.
    apply list_lookup_total_correct. rewrite lookup_drop.
    replace (S (Z.to_nat k) + (Z.to_nat m - Nat.min (S (Z.to_nat k)) (length l)))%nat with (Z.to_nat m) by lia.
    apply znth_lookup. lia.
Qed.

Lemma reverse_prefix_wp l : 0 ≤ l.[0] < zlen l → wp (reverse_prefix (l.[0]) l) (λ l', l' = flip l).
Proof.
  intros Hk. set (k := l.[0]) in *. unfold reverse_prefix. wp_step.
  apply (loop_wp (λ '(i, j, l'), 0 ≤ i ∧ i + j = k ∧ i ≤ j + 1 ∧ length l' = length l ∧
      ∀ m, 0 ≤ m < zlen l → l'.[m] = if decide (m ≤ k ∧ ¬ (i ≤ m ≤ j)) then l.[k - m] else l.[m])
    (λ '(i, j, _), Z.to_nat (j - i + 1))).
  - split_and!; [lia..|done|]. intros m Hm. rewrite decide_False; [done|lia].
  - lia.
  - intros [[i j] l'] (Hi & Hij & Hle & Hlen & Hget). destruct (Z.ltb_spec i j).
    + wp_step. rewrite rd_ok by lia. cbn [wp]. wp_step. rewrite rd_ok by lia. cbn [wp].
      wp_step. rewrite wr_ok by lia. cbn [wp].
      wp_step. rewrite wr_ok by (rewrite length_zset; lia). cbn [wp].
      split; [|lia]. split_and!; [lia|lia|lia|by rewrite !length_zset|].
      intros m Hm. rewrite !znth_zset by (rewrite ?length_zset; lia).
      destruct (decide (j = m)) as [<-|].
      { rewrite decide_True by lia. rewrite Hget, decide_False by lia. f_equal. f_equal. lia. }
      destruct (decide (i = m)) as [<-|].
      { rewrite decide_True by lia. rewrite Hget, decide_False by lia. f_equal. f_equal. lia. }
      rewrite Hget by done. apply decide_ext. lia.
    + cbn [wp fell snd]. apply znth_ext; [by rewrite length_flip|]. intros m Hm.
      rewrite Hget, flip_nth by lia. fold k. repeat case_decide; try done; try lia.
      f_equal. f_equal. lia.
Qed.

(** Knuth's potential: the cards (0 apart) in their final place, weighted. *)
Fixpoint placed (l : list Z) (n : nat) : Z :=
  match n with
  | O => 0
  | S m => placed l m +
      if decide (m ≠ 0%nat ∧ l.[Z.of_nat m] = Z.of_nat m) then 2 ^ Z.of_nat m else 0
  end.

Lemma placed_range l n : 0 ≤ placed l n < 2 ^ Z.of_nat n.
Proof.
  induction n as [|n IH]; cbn [placed]; [done|]. rewrite Nat2Z.inj_succ, Z.pow_succ_r by lia.
  case_decide; lia.
Qed.

Lemma placed_ext l l' n : (∀ m, 0 ≤ m < Z.of_nat n → l.[m] = l'.[m]) → placed l n = placed l' n.
Proof.
  induction n as [|n IH]; intros H; [done|]. cbn [placed]. rewrite IH by (intros; apply H; lia).
  by rewrite H by lia.
Qed.

Lemma flip_progress n l : 0 < n → arrangement n l → l.[0] ≠ 0 →
  placed l (Z.to_nat n) < placed (flip l) (Z.to_nat n).
Proof.
  intros Hn Hl H0. destruct (arrangement_spec n l ltac:(lia) Hl) as (Hlen & Hnd & Hr).
  set (k := l.[0]) in *. pose proof (Hr 0 ltac:(lia)) as Hk. fold k in Hk.
  assert (0 ≤ l.[0] < zlen l) as Hk' by (fold k; lia).
  enough (∀ m : nat, Z.of_nat m ≤ n → k < Z.of_nat m → placed l m < placed (flip l) m) as H.
  { apply H; lia. }
  intros m. induction m as [|m IH]; intros Hm Hkm; [lia|]. cbn [placed].
  rewrite (flip_nth l (Z.of_nat m)) by lia. fold k.
  destruct (decide (k = Z.of_nat m)) as [Ek|Ek].
  - rewrite (decide_True (P := Z.of_nat m ≤ k)) by lia.
    replace (k - Z.of_nat m) with 0 by lia. fold k.
    rewrite (decide_True (P := m ≠ 0%nat ∧ k = Z.of_nat m)) by lia.
    rewrite decide_False.
    + pose proof (placed_range l m). pose proof (placed_range (flip l) m). lia.
    + intros [_ E]. apply H0. rewrite <- Ek in E. unfold k in E at 2.
      symmetry. apply (znth_inj l 0 k); [done|lia|lia|done].
  - specialize (IH ltac:(lia) ltac:(lia)). rewrite (decide_False (P := Z.of_nat m ≤ k)) by lia. lia.
Qed.

(** The flip loop of [fannkuch] on any arrangement of [0 .. n-1] stays inside
    the array and terminates within [2^n] flips (for [n] up to 30, so that the
    counter cannot overflow): it performs the pancake flips one after the other
    until card 0 comes to the top, and counts them. *)
Theorem count_flips_correct n l : 0 < n ≤ 30 → arrangement n l →
  ∃ f, count_flips n l = Ok (Z.of_nat f, Nat.iter f flip l) ∧ (Nat.iter f flip l).[0] = 0 ∧
    Z.of_nat f < 2 ^ n ∧ ∀ g, (g < f)%nat → (Nat.iter g flip l).[0] ≠ 0.
Proof.
  intros Hn Hl. assert (∀ f, arrangement n (Nat.iter f flip l)) as Hiter.
  { intros f. induction f as [|f IH]; [done|]. unfold arrangement. cbn. by rewrite flip_perm. }
  assert (2 ^ n ≤ 2 ^ 30) as Hpow by (apply Z.pow_le_mono_r; lia).
  enough (wp (count_flips n l) (λ '(x, l'), ∃ f, x = Z.of_nat f ∧ l' = Nat.iter f flip l ∧
    l'.[0] = 0 ∧ Z.of_nat f < 2 ^ n ∧ ∀ g, (g < f)%nat → (Nat.iter g flip l).[0] ≠ 0)) as Hw.
  { apply wp_elim in Hw as ([x l'] & E & f & -> & -> & ?). by exists f. }
  unfold count_flips. wp_step.
  apply (loop_wp (λ '(x, l'), ∃ f, x = Z.of_nat f ∧ l' = Nat.iter f flip l ∧
      x ≤ placed l' (Z.to_nat n) ∧ ∀ g, (g < f)%nat → (Nat.iter g flip l).[0] ≠ 0)
    (λ '(_, l'), Z.to_nat (2 ^ n - placed l' (Z.to_nat n)))).
  - exists 0%nat. split_and!; [done|done|apply placed_range|lia].
  - pose proof (placed_range l (Z.to_nat n)). lia.
  - intros [x l'] (f & -> & -> & Hf & Hg).
    pose proof (Hiter f) as Ha. set (l' := Nat.iter f flip l) in *.
    destruct (arrangement_spec n l' ltac:(lia) Ha) as (Hlen & Hnd & Hr).
    pose proof (placed_range l' (Z.to_nat n)) as Hpl. rewrite Z2Nat.id in Hpl by lia.
    wp_step. rewrite rd_ok by lia. cbn [wp].
    destruct (Z.eqb_spec (l'.[0]) 0) as [E|E]; cbn [negb wp fell].
    + exists f. split_and!; [done|done|done|lia|done].
    + wp_step. eapply wp_mono; [apply reverse_prefix_wp; rewrite Hlen; apply Hr; lia|].
      intros l2 ->. pose proof (flip_progress n l' ltac:(lia) Ha E) as Hp.
      pose proof (placed_range (flip l') (Z.to_nat n)) as Hpl2. rewrite Z2Nat.id in Hpl2 by lia.
      wp_step. rewrite i32_ok by (c_unfold; lia). cbn [wp].
      split; [|lia]. exists (S f). split_and!; [lia|done|lia|].
      intros g Hgf. destruct (decide (g = f)) as [->|]; [done|]. apply Hg. lia.
Qed.

Lemma count_flips_correct_witness :
  ∃ f, count_flips 4 [2; 0; 3; 1] = Ok (Z.of_nat f, Nat.iter f flip [2; 0; 3; 1]) ∧ f = 4%nat ∧
    (Nat.iter f flip [2; 0; 3; 1]).[0] = 0 ∧ Z.of_nat f < 2 ^ 4.
Proof.
  destruct (count_flips_correct 4 [2; 0; 3; 1]) as (f & E & H0 & Hf & _).
  - lia.
  - unfold arrangement. apply (bool_decide_unpack _). vm_compute. exact I.
  - exists f. split; [exact E|]. split; [|by split].
    assert (fst <$> count_flips 4 [2; 0; 3; 1] = Ok 4) as E4 by (vm_compute; reflexivity).
    rewrite E in E4. injection E4 as E4. lia.
Defined.

(** The known values for 6 cards. *)
Example fannkuch_6 : fannkuch 721 (λ _, 0) 6 = Ok 49010.
Proof. vm_compute. done. Qed.
