(* ===== verification/SmallBenchmarks.v ===== *)
(** * The small benchmark programs

    Models [benchmarks/fib.c], [bitwise.c], [global_counter.c], [vector_add.c],
    [window_access.c], [sliding_window_bench.c] and [chase_lev_bench.c]: each is
    one loop or recursion on machine integers, and its theorem says whether that
    arithmetic stays defined. *)
From S2P Require Import Prelude.

(** ** [fib.c]; the recursion depth is at most [n + 1]. *)
Fixpoint fib (fuel : nat) (n : Z) : Res Z :=
  match fuel with
  | O => NoFuel
  | S fuel =>
    if n <=? 1 then Ok n else
    a ← fib fuel (n - 1);
    b ← fib fuel (n - 2);
    i32 (a + b)
  end.

Definition fib_main (argc : Z) : Res Z :=
  let n := 39 + argc in
  res ← fib (S (Z.to_nat n)) n;
  Ok (if res =? 102334155 then 0 else 1).

(** ** [sliding_window_bench.c] and [chase_lev_bench.c]: the same loop, without
    the clock readings and the print. *)
Definition int_sum : Res Z := for_range 0 1000000 (λ i sum, i32 (sum + i)) 0.

Definition sliding_window_main : Res Z := _ ← int_sum; Ok 0.
Definition chase_lev_main : Res Z := _ ← int_sum; Ok 0.

(** ** [bitwise.c] *)
Fixpoint popcount (n : nat) (x : Z) : Z :=
  match n with
  | O => 0
  | S n => Z.b2z (Z.odd x) + popcount n (Z.shiftr x 1)
  end.

Definition builtin_popcountll (x : Z) : Z := popcount 64 x.

Definition bitwise_main (argc : Z) : Res Z :=
  let base := Z.lor (u64 argc) 0x123456789ABCDEF0 in
  total ← for_range 0 100000000
    (λ i total, Ok (u64 (total + builtin_popcountll (Z.lxor base i)))) 0;
  Ok (if 0 <? total then 0 else 1).

(** ** [global_counter.c] *)
Definition counter_step (s : Z * list Z) : Res (Z * list Z) :=
  let '(COUNTER, SCRATCH) := s in
  let idx := Z.land COUNTER 0xFF in
  v ← rd SCRATCH idx;
  COUNTER ← i32 (COUNTER + v);
  SCRATCH ← wr SCRATCH idx COUNTER;
  Ok (COUNTER, SCRATCH).

Definition global_counter_main (argc : Z) : Res Z :=
  SCRATCH ← for_range 0 256 (λ i s, v ← i32 (i + argc); wr s i v) (replicate 256 0);
  '(COUNTER, _) ← for_range 0 50000000 (λ _, counter_step) (argc, SCRATCH);
  Ok (if negb (COUNTER =? 0) then 0 else 1).

(** ** [vector_add.c] *)
Record Vec_int := { data : Z }.

Definition add_generic (a b : Vec_int) : Res Vec_int :=
  d ← i32 (data a + data b); Ok {| data := d |}.

Definition vector_step (argc i sum : Z) : Res Z :=
  t ← i32 (Z.lxor i (Z.shiftr i 3) + argc);
  val1 ← i32 (t + Z.land sum 0xFF);
  m ← i32 (i * 17);
  val2 ← i32 (Z.lxor m (Z.shiftr i 5) + argc);
  res ← add_generic {| data := val1 |} {| data := val2 |};
  i32 (sum + data res).

Definition vector_add_main (argc : Z) : Res Z :=
  sum ← for_range 0 100000000 (vector_step argc) 0;
  Ok (if negb (sum =? 0) then 0 else 1).

(** ** [window_access.c] *)
Record Pixel := { red : Z; green : Z; blue : Z }.

#[export] Instance Pixel_inhabited : Inhabited Pixel :=
  populate {| red := 0; green := 0; blue := 0 |}.

Definition WINDOW_N : Z := 10000000.

Definition window_pixel (argc i : Z) : Res Pixel :=
  r ← i32 (i + argc); g ← i32 (i * 2);
  Ok {| red := r; green := g; blue := Z.lxor i argc |}.

Definition window_step (pixels : list Pixel) (s : Z * Z) : Res (Z * Z) :=
  let '(sum, idx) := s in
  p ← rd pixels idx;
  t ← i32 (red p + green p);
  t ← i32 (t + blue p);
  sum ← i64 (sum + t);
  t ← i32 (idx + red p);
  Ok (sum, Z.land t (WINDOW_N - 1)).

Definition window_main (junk : nat → Pixel) (argc : Z) : Res Z :=
  pixels ← for_range 0 WINDOW_N (λ i px, p ← window_pixel argc i; wr px i p)
             (malloc_arr junk WINDOW_N);
  '(sum, _) ← for_range 0 100000000 (λ _, window_step pixels)
                (0, Z.land argc (WINDOW_N - 1));
  Ok (if negb (sum =? 0) then 0 else 1).

(** ** Theorems *)
Fixpoint fibs (n : nat) : Z * Z :=
  match n with O => (0, 1) | S n => let '(a, b) := fibs n in (b, a + b) end.

Lemma fib_ok fuel n : 0 ≤ n ≤ 46 → (Z.to_nat n < fuel)%nat →
  fib fuel n = Ok (fst (fibs (Z.to_nat n))).
Proof.
  revert n. induction fuel as [|fuel IH]; intros n Hn Hf; [lia|]. cbn [fib].
  destruct (Z.leb_spec n 1) as [Hle|Hgt].
  { assert (n = 0 ∨ n = 1) as [->| ->] by lia; done. }
  rewrite !IH by lia. cbn [mbind Res_bind].
  set (m := Z.to_nat (n - 2)).
  replace (Z.to_nat (n - 1)) with (S m) by lia. replace (Z.to_nat n) with (S (S m)) by lia.
  assert (fst (fibs (S m)) + fst (fibs m) = fst (fibs (S (S m)))) as E.
  { cbn [fibs]. destruct (fibs m) as [a b]. cbn. lia. }
  rewrite E. apply i32_ok.
  assert (∀ k : nat, (k ≤ 46)%nat → INT_MIN ≤ fst (fibs k) ≤ INT_MAX) as Hb; [|apply Hb; lia].
  assert (Forall (λ k, INT_MIN ≤ fst (fibs k) ≤ INT_MAX) (seq 0 47)) as Hall.
  { apply (bool_decide_unpack _). vm_compute. exact I. }
  intros k Hk. rewrite Forall_forall in Hall. apply Hall. apply elem_of_seq. lia.
Qed.

(** With no argument ([argc = 1]) the program exits with 0. *)
Lemma fib_main_ok : fib_main 1 = Ok 0.
Proof. unfold fib_main. by rewrite fib_ok by lia. Qed.

(** A loop that is undefined when every partial result it could have is ruled
    out. *)
Lemma for_up_wlp {St} (I : Z → St → Prop) n lo body s :
  I lo s → (∀ i s, lo ≤ i < lo + Z.of_nat n → I i s → wlp (body i s) (I (i + 1))) →
  wlp (for_up n lo body s) (I (lo + Z.of_nat n)).
Proof.
  revert lo s. induction n as [|n IH]; intros lo s H0 Hstep; cbn [for_up].
  - by rewrite Z.add_0_r.
  - apply wlp_bind. eapply wlp_mono; [apply Hstep; [lia|done]|].
    intros s' Hs'. replace (lo + Z.of_nat (S n)) with (lo + 1 + Z.of_nat n) by lia.
    apply IH; [done|]. intros. apply Hstep; [lia|done].
Qed.

Lemma for_up_fuel {St} n lo (body : Z → St → Res St) s :
  (∀ i s, body i s ≠ NoFuel) → for_up n lo body s ≠ NoFuel.
Proof.
  intros Hb. revert lo s. induction n as [|n IH]; intros lo s; cbn [for_up]; [done|].
  pose proof (Hb lo s). destruct (body lo s); cbn; [apply IH|done|done].
Qed.

Lemma int_sum_undef : int_sum = Undef.
Proof.
  unfold int_sum, for_range.
  pose proof (for_up_wlp (λ i sum, 2 * sum = i * (i - 1) ∧ (i ≤ 1 ∨ sum ≤ INT_MAX))
    (Z.to_nat (1000000 - 0)) 0 (λ i sum, i32 (sum + i)) 0) as Hw.
  assert (for_up (Z.to_nat (1000000 - 0)) 0 (λ i sum, i32 (sum + i)) 0 ≠ NoFuel) as Hf.
  { apply for_up_fuel. intros i s. unfold i32. by destruct (is_i32 _). }
  destruct (for_up _ 0 _ 0) as [sum| |]; [|done|done]. exfalso.
  rewrite Z2Nat.id in Hw by lia. cbn [wlp] in Hw. c_unfold.
  destruct Hw as [Hs Hb]; [lia| |lia].
  intros i s Hi [Hs _]. unfold i32, wlp. destruct (is_i32 (s + i)) eqn:E; [|done].
  apply is_i32_true in E. c_unfold. lia.
Qed.

(** The "sliding window" and "Chase-Lev" programs have undefined behaviour:
    both add 0, 1, .. 999999 in an [int], which passes [INT_MAX]. *)
Theorem int_sum_overflows : sliding_window_main = Undef ∧ chase_lev_main = Undef.
Proof. unfold sliding_window_main, chase_lev_main. by rewrite int_sum_undef. Qed.

(** The masked index of [window_access] stays inside its array although the
    mask is not one less than a power of two. *)
Lemma land_le a b : 0 ≤ a → 0 ≤ b → 0 ≤ Z.land a b ≤ b.
Proof.
  intros Ha Hb. split; [apply Z.land_nonneg; by left|].
  apply Z.ldiff_le; [lia|]. apply Z.bits_inj'. intros n Hn.
  rewrite Z.ldiff_spec, Z.land_spec, Z.bits_0.
  destruct (Z.testbit a n), (Z.testbit b n); done.
Qed.

Lemma window_step_wp argc pixels s i :
  1 ≤ argc ≤ 1000 → zlen pixels = WINDOW_N →
  (∀ k, 0 ≤ k < WINDOW_N → window_pixel argc k = Ok (pixels.[k])) →
  0 ≤ i < 2 ^ 30 → Z.abs (s.1) ≤ i * 2 ^ 32 → 0 ≤ s.2 < WINDOW_N →
  wp (window_step pixels s) (λ s', Z.abs (s'.1) ≤ (i + 1) * 2 ^ 32 ∧ 0 ≤ s'.2 < WINDOW_N).
Proof.
  destruct s as [sum idx]. cbn [fst snd]. unfold WINDOW_N. intros Hargc Hl Hpx Hi Hs Hidx.
  specialize (Hpx idx Hidx). unfold window_pixel in Hpx.
  rewrite !i32_ok in Hpx by (c_unfold; lia). cbn in Hpx. injection Hpx as Hpx.
  assert (0 ≤ Z.lxor idx argc < 2 ^ 24) as Hx.
  { split; [apply Z.lxor_nonneg; lia|].
    destruct (decide (Z.lxor idx argc = 0)) as [->|Hne]; [lia|].
    apply Z.log2_lt_pow2.
    - assert (0 ≤ Z.lxor idx argc) by (apply Z.lxor_nonneg; lia). lia.
    - pose proof (Z.log2_lxor idx argc ltac:(lia) ltac:(lia)).
      pose proof (Z.log2_le_mono idx 9999999 ltac:(lia)) as H1.
      pose proof (Z.log2_le_mono argc 1000 ltac:(lia)) as H2.
      change (Z.log2 9999999) with 23 in H1. change (Z.log2 1000) with 9 in H2. lia. }
  unfold window_step. wp_step. rewrite rd_ok by lia. cbn [wp]. rewrite <- Hpx. cbn [red green blue].
  wp_step. rewrite i32_ok by (c_unfold; lia). cbn [wp].
  wp_step. rewrite i32_ok by (c_unfold; lia). cbn [wp].
  wp_step. rewrite i64_ok by (c_unfold; lia). cbn [wp].
  wp_step. rewrite i32_ok by (c_unfold; lia). cbn [wp fst snd]. split; [lia|].
  pose proof (land_le (idx + (idx + argc)) (WINDOW_N - 1) ltac:(lia) ltac:(unfold WINDOW_N; lia)).
  unfold WINDOW_N in *. lia.
Qed.
