(* ===== verification/F64.v ===== *)
(** * IEEE-754 binary64 arithmetic, as C's [double]

    [SpecFloat] at precision 53 and maximal exponent 1024, and the conversions
    between [float] and [double]. *)
From S2P Require Import Prelude F32.

Abbreviation f64 := spec_float.

Definition prec64 : Z := 53.
Definition emax64 : Z := 1024.

Definition dadd : f64 → f64 → f64 := SFadd prec64 emax64.
Definition dsub : f64 → f64 → f64 := SFsub prec64 emax64.
Definition dmul : f64 → f64 → f64 := SFmul prec64 emax64.
Definition ddiv : f64 → f64 → f64 := SFdiv prec64 emax64.
Definition dlt : f64 → f64 → bool := SFltb.
Definition deq : f64 → f64 → bool := SFeqb.

(** [(double)z], and the decimal literal [n/d] ([n], [d] below [2^53]). *)
Definition dz (z : Z) : f64 := binary_normalize prec64 emax64 z 0 false.
Definition dlit (n d : Z) : f64 := ddiv (dz n) (dz d).

(** A float rounded to another format. *)
Definition convert (prec emax : Z) (x : spec_float) : spec_float :=
  match x with
  | S754_finite s m e => binary_normalize prec emax (if s then Zneg m else Zpos m) e s
  | _ => x
  end.

Definition d2f (x : f64) : f32 := convert prec32 emax32 x.
Definition f2d (x : f32) : f64 := convert prec64 emax64 x.

Example d2f_thousandth : d2f (dlit 1 1000) = flit 1 1000.
Proof. vm_compute. reflexivity. Qed.
