(* ===== verification/Matmul.v ===== *)
(** * Matrix products (benchmarks/matmul.c, benchmarks/matmul_tiled.c)

    The naive triple loop and the 32x32 blocked one on row-major arrays of
    doubles that do not overlap.  Floating-point addition is not associative,
    so the two agree only because the blocked loop adds the products of each
    element in the same order; that is the theorem of this file. *)
From S2P Require Import Prelude F32 F64.

(** [sum += a[i * n + k] * b[k * n + j]]. *)
Definition mul_add (n : Z) (a b : list f64) (i j k : Z) (sum : f64) : Res f64 :=
  ia ← at2 i n k;
  x ← rd a ia;
  ib ← at2 k n j;
  y ← rd b ib;
  Ok (dadd sum (dmul x y)).

Definition matmul (n : Z) (a b c : list f64) : Res (list f64) :=
  for_range 0 n (λ i c,
    for_range 0 n (λ j c,
      sum ← for_range 0 n (mul_add n a b i j) (dz 0);
      ic ← at2 i n j;
      wr c ic sum) c) c.

Definition TILE_SIZE : Z := 32.

(** [(x + TILE_SIZE < n) ? x + TILE_SIZE : n] *)
Definition tile_end (n x : Z) : Res Z :=
  e ← i32 (x + TILE_SIZE);
  Ok (if e <? n then e else n).

(** The three inner loops: one tile. *)
Definition tile (n : Z) (a b : list f64) (ii jj kk : Z) (c : list f64) : Res (list f64) :=
  i_max ← tile_end n ii;
  j_max ← tile_end n jj;
  k_max ← tile_end n kk;
  for_range ii i_max (λ i c,
    for_range jj j_max (λ j c,
      ic ← at2 i n j;
      sum0 ← rd c ic;
      sum ← for_range kk k_max (mul_add n a b i j) sum0;
      ic ← at2 i n j;
      wr c ic sum) c) c.

Definition matmul_tiled (n : Z) (a b c : list f64) : Res (list f64) :=
  nn ← i32 (n * n);
  c ← for_range 0 nn (λ i c, wr c i (dz 0)) c;
  for_step 0 n TILE_SIZE (λ ii c,
    for_step 0 n TILE_SIZE (λ jj c,
      for_step 0 n TILE_SIZE (tile n a b ii jj) c) c) c.

(** The two [main]s; [junk] is what [malloc] returned.  The result is the exit
    status. *)
Definition matmul_run (mm : Z → list f64 → list f64 → list f64 → Res (list f64))
    (n : Z) (junk : nat → f64) (argc : Z) : Res Z :=
  nn ← i32 (n * n);
  a ← for_range 0 nn (λ i a, wr a i (dmul (dz 1) (dz argc))) (malloc_arr junk nn);
  b ← for_range 0 nn (λ i b, wr b i (dz 2)) (malloc_arr junk nn);
  c ← mm n a b (malloc_arr junk nn);
  checksum ← for_range 0 nn (λ i checksum, x ← rd c i; Ok (dadd checksum x)) (dz 0);
  Ok (if negb (deq checksum (dmul (dz 2147483648) (dz argc))) then 1 else 0).

Definition matmul_main : (nat → f64) → Z → Res Z := matmul_run matmul 1024.
Definition matmul_tiled_main : (nat → f64) → Z → Res Z := matmul_run matmul_tiled 1024.

(** ** Correctness *)

(** The sum of the first [k] products of element [i, j], in index order. *)
Fixpoint dot (n : Z) (a b : list f64) (i j : Z) (k : nat) : f64 :=
  match k with
  | O => dz 0
  | S k' => dadd (dot n a b i j k')
                 (dmul (a.[i * n + Z.of_nat k']) (b.[Z.of_nat k' * n + j]))
  end.

Section matmul.
Context (n : Z) (a b : list f64).

Lemma index_bound i j : 0 ≤ i < n → 0 ≤ j < n → 0 ≤ i * n + j < n * n.
Proof. nia. Qed.

(** [progress f c]: element [i, j] of [c] holds its first [f i j] products. *)
Definition progress (f : Z → Z → Z) (c : list f64) : Prop :=
  zlen c = n * n ∧
  ∀ i j, 0 ≤ i < n → 0 ≤ j < n → c.[i * n + j] = dot n a b i j (Z.to_nat (f i j)).

Lemma progress_ext f g c : (∀ i j, 0 ≤ i < n → 0 ≤ j < n → f i j = g i j) →
  progress f c → progress g c.
Proof.
  intros E [Hl H]. split; [done|]. intros i j Hi Hj. rewrite <- E by done. by apply H.
Qed.

Lemma progress_wr f c i j k : progress f c → 0 ≤ i < n → 0 ≤ j < n →
  wp (wr c (i * n + j) (dot n a b i j (Z.to_nat k)))
     (progress (λ i' j', if decide (i' = i ∧ j' = j) then k else f i' j')).
Proof.
  intros [Hl H] Hi Hj. pose proof (index_bound i j Hi Hj).
  rewrite wr_ok by lia. cbn [wp]. split; [by rewrite length_zset|].
  intros i' j' Hi' Hj'. pose proof (index_bound i' j' Hi' Hj').
  rewrite znth_zset by lia. case_decide as E.
  - assert (i' = i) as -> by nia. assert (j' = j) as -> by nia. by rewrite decide_True.
  - rewrite decide_False; [by apply H|]. intros [-> ->]. done.
Qed.

(** Two arrays with the same finished elements are the same array. *)
Lemma progress_unique c c' : 0 ≤ n →
  progress (λ _ _, n) c → progress (λ _ _, n) c' → c = c'.
Proof.
  intros Hn [Hl H] [Hl' H']. apply znth_ext; [lia|]. intros m Hm.
  assert (0 < n) by nia.
  rewrite (Z.div_mod m n) by lia. rewrite (Z.mul_comm n).
  pose proof (Z.mod_pos_bound m n ltac:(lia)).
  assert (0 ≤ m / n < n) by (split; [apply Z.div_pos; lia|apply Z.div_lt_upper_bound; lia]).
  by rewrite H, H' by done.
Qed.

Context (Hn : 0 ≤ n) (Hnn : n * n ≤ INT_MAX) (Ha : zlen a = n * n) (Hb : zlen b = n * n).

Lemma at2_ok i j : 0 ≤ i < n → 0 ≤ j < n → at2 i n j = Ok (i * n + j).
Proof using Hn Hnn Ha Hb.
  intros Hi Hj. pose proof (index_bound i j Hi Hj). apply at2_fits; lia.
Qed.

Lemma mul_add_ok i j k sum : 0 ≤ i < n → 0 ≤ j < n → 0 ≤ k < n →
  mul_add n a b i j k sum = Ok (dadd sum (dmul (a.[i * n + k]) (b.[k * n + j]))).
Proof using Hn Hnn Ha Hb.
  intros Hi Hj Hk. unfold mul_add.
  pose proof (index_bound i k Hi Hk). pose proof (index_bound k j Hk Hj).
  rewrite at2_ok by done. cbn. rewrite rd_ok by lia. cbn.
  rewrite at2_ok by done. cbn. by rewrite rd_ok by lia.
Qed.

Lemma inner_wp i j lo hi : 0 ≤ i < n → 0 ≤ j < n → 0 ≤ lo ≤ hi → hi ≤ n →
  wp (for_range lo hi (mul_add n a b i j) (dot n a b i j (Z.to_nat lo)))
     (λ s, s = dot n a b i j (Z.to_nat hi)).
Proof using Hn Hnn Ha Hb.
  intros Hi Hj Hlo Hhi.
  apply (for_range_wp (λ k s, s = dot n a b i j (Z.to_nat k))); [done| |].
  - intros k s Hk ->. rewrite mul_add_ok by lia. cbn [wp].
    replace (Z.to_nat (k + 1)) with (S (Z.to_nat k)) by lia. cbn [dot].
    by rewrite Z2Nat.id by lia.
  - intros s ->. by rewrite Z.max_r by lia.
Qed.

Lemma matmul_wp c : zlen c = n * n → wp (matmul n a b c) (progress (λ _ _, n)).
Proof using Hn Hnn Ha Hb.
  intros Hc. unfold matmul.
  apply (for_range_wp (λ i c, zlen c = n * n ∧ ∀ i' j', 0 ≤ i' < i → 0 ≤ j' < n →
           c.[i' * n + j'] = dot n a b i' j' (Z.to_nat n))); [split; [done|lia]| |].
  - intros i c1 Hi [Hl H1].
    apply (for_range_wp (λ j c, zlen c = n * n ∧ ∀ i' j', 0 ≤ i' < n → 0 ≤ j' < n →
           i' < i ∨ (i' = i ∧ j' < j) → c.[i' * n + j'] = dot n a b i' j' (Z.to_nat n))).
    + split; [done|]. intros i' j' Hi' Hj' HH. apply H1; lia.
    + intros j c2 Hj [Hl2 H2]. wp_step.
      eapply wp_mono; [apply (inner_wp i j 0 n); lia|]. intros sum ->.
      rewrite at2_ok by lia. cbn [mbind Res_bind].
      pose proof (index_bound i j Hi Hj). rewrite wr_ok by lia. cbn [wp].
      split; [by rewrite length_zset|]. intros i' j' Hi' Hj' HH.
      pose proof (index_bound i' j' Hi' Hj'). rewrite znth_zset by lia.
      case_decide as E; [|apply H2; [done..|]; nia].
      assert (i' = i) as -> by nia. by assert (j' = j) as -> by nia.
    + intros c2 [Hl2 H2]. split; [done|]. intros i' j' Hi' Hj'. apply H2; lia.
  - intros c1 [Hl H1]. split; [done|]. intros i' j' Hi' Hj'. apply H1; lia.
Qed.

Lemma tile_end_ok x : 0 ≤ x < n → tile_end n x = Ok (Z.min (x + TILE_SIZE) n).
Proof using Hn Hnn Ha Hb.
  intros Hx. unfold tile_end, TILE_SIZE in *. assert (n ≤ 46341) by (c_unfold; nia).
  rewrite i32_ok by (c_unfold; lia). cbn. f_equal. destruct (Z.ltb_spec (x + 32) n); lia.
Qed.

(** Within a tile: rows [< i], and row [i] up to column [j], are advanced. *)
Lemma tile_wp f ii jj kk c : 0 ≤ ii < n → 0 ≤ jj < n → 0 ≤ kk < n →
  let ie := Z.min (ii + TILE_SIZE) n in
  let je := Z.min (jj + TILE_SIZE) n in
  let ke := Z.min (kk + TILE_SIZE) n in
  (∀ i j, ii ≤ i < ie → jj ≤ j < je → f i j = kk) →
  progress f c →
  wp (tile n a b ii jj kk c)
     (progress (λ i j, if decide (ii ≤ i < ie ∧ jj ≤ j < je) then ke else f i j)).
Proof using Hn Hnn Ha Hb.
  intros Hii Hjj Hkk ie je ke Hf Hc. unfold tile. rewrite !tile_end_ok by done.
  cbn [mbind Res_bind]. fold ie je ke.
  assert (kk ≤ ke ≤ n ∧ ie ≤ n ∧ je ≤ n) as Hke by (unfold ie, je, ke, TILE_SIZE; lia).
  assert (ii ≤ ie) as Hie by (unfold ie, TILE_SIZE; lia).
  assert (jj ≤ je) as Hje by (unfold je, TILE_SIZE; lia).
  clearbody ie je ke.
  apply (for_range_wp (λ i, progress (λ i' j',
    if decide (ii ≤ i' < i ∧ jj ≤ j' < je) then ke else f i' j'))).
  { eapply progress_ext; [|exact Hc]. intros i j _ _. by rewrite decide_False by lia. }
  - intros i c1 Hi H1.
    apply (for_range_wp (λ j, progress (λ i' j',
      if decide ((ii ≤ i' < i ∧ jj ≤ j' < je) ∨ (i' = i ∧ jj ≤ j' < j)) then ke else f i' j'))).
    { eapply progress_ext; [|exact H1]. intros i' j' _ _. cbn beta. f_equal.
      apply decide_ext. lia. }
    + intros j c2 Hj H2. rewrite at2_ok by lia. cbn [mbind Res_bind].
      pose proof (index_bound i j ltac:(lia) ltac:(lia)).
      destruct H2 as [Hl2 H2]. rewrite rd_ok by lia. cbn [mbind Res_bind].
      rewrite H2 by lia. cbn beta. rewrite decide_False by lia. rewrite Hf by lia.
      wp_step. eapply wp_mono; [apply inner_wp; lia|]. intros sum ->.
      eapply wp_mono; [apply progress_wr; [exact (conj Hl2 H2)|lia..]|].
      intros c3 H3. eapply progress_ext; [|exact H3]. intros i' j' _ _. cbn beta.
      repeat case_decide; try done; lia.
    + intros c2 H2. eapply progress_ext; [|exact H2]. intros i' j' _ _. cbn beta.
      f_equal. apply decide_ext. lia.
  - intros c1 H1. eapply progress_ext; [|exact H1]. intros i' j' _ _. cbn beta.
    f_equal. apply decide_ext. lia.
Qed.

(** Compares two progress functions by cases. *)
Ltac tile_cases := unfold TILE_SIZE in *; repeat case_decide; lia.

Lemma matmul_tiled_wp c : zlen c = n * n → wp (matmul_tiled n a b c) (progress (λ _ _, n)).
Proof using Hn Hnn Ha Hb.
  intros Hc. unfold matmul_tiled. rewrite i32_ok by (c_unfold; nia). cbn [mbind Res_bind].
  wp_step. apply (for_range_wp (λ m c, zlen c = n * n ∧ ∀ l, 0 ≤ l < m → c.[l] = dz 0)).
  { split; [done|lia]. }
  { intros m c1 Hm [Hl1 H1]. rewrite wr_ok by lia. split; [by rewrite length_zset|].
    intros l Hl. rewrite znth_zset by lia. case_decide; [done|]. apply H1. lia. }
  intros c1 [Hl1 H1].
  assert (progress (λ _ _, 0) c1) as Hc1.
  { split; [done|]. intros i j Hi Hj. pose proof (index_bound i j Hi Hj). apply H1. lia. }
  clear H1 Hl1.
  apply (for_step_wp (λ ii, progress (λ i j, if decide (i < ii) then n else 0))); [done| | |].
  { eapply progress_ext; [|exact Hc1]. intros i j Hi Hj. cbn beta. by rewrite decide_False by lia. }
  2:{ intros ii c2 Hii H2. eapply progress_ext; [|exact H2]. intros i j Hi Hj. cbn beta.
      by rewrite decide_True by lia. }
  intros ii c2 Hii _ H2.
  apply (for_step_wp (λ jj, progress (λ i j,
    if decide (i < ii ∨ (i < ii + TILE_SIZE ∧ j < jj)) then n else 0))); [done| | |].
  { eapply progress_ext; [|exact H2]. intros i j Hi Hj. cbn beta. tile_cases. }
  2:{ intros jj c3 Hjj H3. eapply progress_ext; [|exact H3]. intros i j Hi Hj. cbn beta.
      tile_cases. }
  intros jj c3 Hjj _ H3.
  apply (for_step_wp (λ kk, progress (λ i j,
    if decide (i < ii ∨ (i < ii + TILE_SIZE ∧ j < jj)) then n
    else if decide (i < ii + TILE_SIZE ∧ j < jj + TILE_SIZE) then Z.min kk n else 0))); [done| | |].
  { eapply progress_ext; [|exact H3]. intros i j Hi Hj. cbn beta. tile_cases. }
  2:{ intros kk c4 Hkk H4. eapply progress_ext; [|exact H4]. intros i j Hi Hj. cbn beta.
      tile_cases. }
  intros kk c4 Hkk _ H4.
  eapply wp_mono; [eapply tile_wp; [lia..| |exact H4]|].
  { intros i j Hi Hj. cbn beta. unfold TILE_SIZE in *. rewrite decide_False by lia. rewrite decide_True by lia. lia. }
  intros c5 H5. eapply progress_ext; [|exact H5]. intros i j Hi Hj. cbn beta.
  tile_cases.
Qed.
End matmul.

(** C36. For every [n] whose square fits an [int] and every pair of [n]x[n]
    matrices, the naive and the tiled product both finish without leaving their
    arrays and leave bit-identical results, whatever the result arrays held
    before; element [i, j] is the sum of the products in index order. *)
Theorem matmul_tiled_same n a b c c' :
  0 ≤ n → n * n ≤ INT_MAX →
  zlen a = n * n → zlen b = n * n → zlen c = n * n → zlen c' = n * n →
  ∃ r, matmul n a b c = Ok r ∧ matmul_tiled n a b c' = Ok r ∧ zlen r = n * n ∧
       ∀ i j, 0 ≤ i < n → 0 ≤ j < n → r.[i * n + j] = dot n a b i j (Z.to_nat n).
Proof.
  intros Hn Hnn Ha Hb Hc Hc'.
  destruct (wp_elim _ _ (matmul_wp n a b Hn Hnn Ha Hb c Hc)) as (r & E & Hr).
  destruct (wp_elim _ _ (matmul_tiled_wp n a b Hn Hnn Ha Hb c' Hc')) as (r' & E' & Hr').
  exists r. rewrite (progress_unique n a b r' r Hn Hr' Hr) in E'. by destruct Hr.
Qed.

Lemma matmul_tiled_same_witness :
  ∃ r, matmul 2 (dz <$> [1; 2; 3; 4]) (dz <$> [5; 6; 7; 8]) (dz <$> [9; 9; 9; 9]) = Ok r ∧
       matmul_tiled 2 (dz <$> [1; 2; 3; 4]) (dz <$> [5; 6; 7; 8]) (dz <$> [0; 1; 0; 1]) = Ok r ∧
       r = dz <$> [19; 22; 43; 50].
Proof.
  destruct (matmul_tiled_same 2 (dz <$> [1; 2; 3; 4]) (dz <$> [5; 6; 7; 8])
              (dz <$> [9; 9; 9; 9]) (dz <$> [0; 1; 0; 1])) as (r & E & E' & _ & _);
    [done..|].
  exists r. split; [exact E|]. split; [exact E'|].
  vm_compute in E. injection E as <-. reflexivity.
Defined.
