(* ===== verification/Training.v ===== *)
(** * The training baseline (benchmarks/ml/keuos_train.c)

    A 784-128-10 network trained by fused stochastic gradient descent and
    evaluated on a test set.  Every buffer is a list; the network's five
    parameter and activation arrays that survive from one sample to the next
    form the record [Net].  [expf] is the C library's function, whose accuracy
    the standard leaves open: a parameter.  [sqrtf] is correctly rounded.  The
    files are [None] when [open] fails and otherwise their contents; the clock
    readings and the text of the messages are left out, the numbers printed
    are kept in [Report]. *)
From S2P Require Import Prelude F32 F64.

Definition INPUT_SIZE : Z := 784.
Definition HIDDEN_SIZE : Z := 128.
Definition OUTPUT_SIZE : Z := 10.
Definition TRAIN_COUNT : Z := 60000.
Definition TEST_COUNT : Z := 10000.
Definition EPOCHS : Z := 8.
Definition LEARNING_RATE : f64 := dlit 1 1000.

Definition sqrtf : f32 → f32 := SFsqrt prec32 emax32.

(** The comparisons and the alternatives are [double]. *)
Definition relu (x : f32) : f32 :=
  d2f (if dlt (dz 0) (f2d x) then f2d x else dz 0).
Definition relu_grad (x : f32) : f32 :=
  d2f (if dlt (dz 0) (f2d x) then dz 1 else dz 0).

(** [( *seed * 1103515245 + 12345) % 2147483647], in [unsigned int]. *)
Definition next_seed (seed : Z) : Z := u32 (u32 (seed * 1103515245) + 12345) mod 2147483647.

Definition init_weights (w : list f32) (count : Z) (scale : f32) (seed : Z)
  : Res (list f32 * Z) :=
  for_range 0 count (λ i '(w, seed),
    let seed := next_seed seed in
    let r := fdiv (fz (seed mod 2000 - 1000)) (fz 1000) in
    w ← wr w i (fmul r scale);
    Ok (w, seed)) (w, seed).

Record Net := {
  w1 : list f32; b1 : list f32; w2 : list f32; b2 : list f32;
  pre_relu : list f32; hidden : list f32; output : list f32;
  delta_out : list f32; delta_hidden : list f32
}.

(** [sum += w[i * cols + j] * x[off + j]] for every column [j]; [x + off] is
    the pointer the code walks. *)
Definition row_dot (cols : Z) (w x : list f32) (off i : Z) (sum : f32) : Res f32 :=
  for_range 0 cols (λ j sum,
    iw ← at2 i cols j;
    a ← rd w iw;
    b ← rd x (off + j);
    Ok (fadd sum (fmul a b))) sum.

(** Forward pass, layer 1. *)
Definition forward1 (w1 b1 : list f32) (images : list f32) (off : Z)
    (s : list f32 * list f32) : Res (list f32 * list f32) :=
  for_range 0 HIDDEN_SIZE (λ i '(pre_relu, hidden),
    b ← rd b1 i;
    sum ← row_dot INPUT_SIZE w1 images off i b;
    pre_relu ← wr pre_relu i sum;
    hidden ← wr hidden i (relu sum);
    Ok (pre_relu, hidden)) s.

(** Forward pass, layer 2. *)
Definition forward2 (w2 b2 hidden output : list f32) : Res (list f32) :=
  for_range 0 OUTPUT_SIZE (λ i output,
    b ← rd b2 i;
    sum ← row_dot HIDDEN_SIZE w2 hidden 0 i b;
    wr output i sum) output.

Definition argmax (output : list f32) : Res (Z * f32) :=
  m0 ← rd output 0;
  for_range 1 OUTPUT_SIZE (λ i '(pred, max_val),
    o ← rd output i;
    Ok (if flt max_val o then (i, o) else (pred, max_val))) (0, m0).

Section train.
Context (expf : f32 → f32).

(** The softmax cross-entropy gradient, into [delta_out]. *)
Definition softmax_grad (output delta_out : list f32) (label : Z) : Res (list f32) :=
  m0 ← rd output 0;
  max_out ← for_range 1 OUTPUT_SIZE (λ i m,
    o ← rd output i; Ok (if flt m o then o else m)) m0;
  '(delta_out, exp_sum) ← for_range 0 OUTPUT_SIZE (λ i '(delta_out, exp_sum),
    o ← rd output i;
    let e := expf (fsub o max_out) in
    delta_out ← wr delta_out i e;
    Ok (delta_out, fadd exp_sum e)) (delta_out, fz 0);
  for_range 0 OUTPUT_SIZE (λ i delta_out,
    e ← rd delta_out i;
    let softmax := fdiv e exp_sum in
    let target := if i =? label then fz 1 else fz 0 in
    wr delta_out i (fsub softmax target)) delta_out.

(** [W2] read by columns. *)
Definition hidden_grad (w2 delta_out pre_relu delta_hidden : list f32) : Res (list f32) :=
  for_range 0 HIDDEN_SIZE (λ j delta_hidden,
    sum ← for_range 0 OUTPUT_SIZE (λ i sum,
      iw ← at2 i HIDDEN_SIZE j;
      a ← rd w2 iw;
      d ← rd delta_out i;
      Ok (fadd sum (fmul a d))) (fz 0);
    p ← rd pre_relu j;
    wr delta_hidden j (fmul sum (relu_grad p))) delta_hidden.

(** [b[i] -= lr * d; w[i * cols + j] -= (lr * d) * x[off + j]], row by row. *)
Definition sgd_update (rows cols : Z) (lr : f32) (delta x : list f32) (off : Z)
    (s : list f32 * list f32) : Res (list f32 * list f32) :=
  for_range 0 rows (λ i '(w, b),
    d ← rd delta i;
    bi ← rd b i;
    b ← wr b i (fsub bi (fmul lr d));
    w ← for_range 0 cols (λ j w,
      iw ← at2 i cols j;
      wij ← rd w iw;
      xj ← rd x (off + j);
      wr w iw (fsub wij (fmul (fmul lr d) xj))) w;
    Ok (w, b)) s.

(** One sample: the body of the inner training loop. *)
Definition train_sample (images : list f32) (labels : list Z) (sample : Z)
    (s : Net * list f32 * Z) : Res (Net * list f32 * Z) :=
  let '(net, confusion_matrix, correct) := s in
  off ← i32 (sample * INPUT_SIZE);
  label ← rd labels sample;
  '(pre_relu, hidden) ← forward1 (w1 net) (b1 net) images off (pre_relu net, hidden net);
  output ← forward2 (w2 net) (b2 net) hidden (output net);
  '(pred, _) ← argmax output;
  correct ← (if pred =? label then i32 (correct + 1) else Ok correct);
  confusion_matrix ←
    (if (0 <=? label) && (label <? 10) && (0 <=? pred) && (pred <? 10) then
       c ← rd confusion_matrix (label * 10 + pred);
       wr confusion_matrix (label * 10 + pred) (fadd c (fz 1))
     else Ok confusion_matrix);
  delta_out ← softmax_grad output (delta_out net) label;
  let lr := d2f LEARNING_RATE in
  delta_hidden ← hidden_grad (w2 net) delta_out pre_relu (delta_hidden net);
  '(w2, b2) ← sgd_update OUTPUT_SIZE HIDDEN_SIZE lr delta_out hidden 0 (w2 net, b2 net);
  '(w1, b1) ← sgd_update HIDDEN_SIZE INPUT_SIZE lr delta_hidden images off (w1 net, b1 net);
  Ok ({| w1 := w1; b1 := b1; w2 := w2; b2 := b2; pre_relu := pre_relu; hidden := hidden;
         output := output; delta_out := delta_out; delta_hidden := delta_hidden |},
      confusion_matrix, correct).

(** The training loop with its convergence test. *)
Record Progress := {
  net : Net; prev_accuracy : Z; plateau_count : Z; converged : bool;
  accuracies : list Z  (** the percentages printed, oldest first *)
}.

Definition train_epoch (images : list f32) (labels : list Z) (p : Progress) : Res Progress :=
  '(net, _, correct) ← for_range 0 TRAIN_COUNT (train_sample images labels)
                         (net p, replicate 100 (fz 0), 0);
  c100 ← i32 (correct * 100);
  let accuracy := c100 ÷ TRAIN_COUNT in
  diff ← i32 (accuracy - prev_accuracy p);
  '(plateau, conv) ←
    (if diff <? 1 then
       plateau ← i32 (plateau_count p + 1);
       Ok (plateau, if 5 <=? plateau then true else converged p)
     else Ok (0, converged p));
  Ok {| net := net; prev_accuracy := accuracy; plateau_count := plateau; converged := conv;
        accuracies := accuracies p ++ [accuracy] |}.

Definition train_loop (images : list f32) (labels : list Z) (net0 : Net) : Res Progress :=
  fell <$> for_ctl 0 EPOCHS (λ _ p,
    if converged p then Ok (Break p) else p ← train_epoch images labels p; Ok (Next p))
    {| net := net0; prev_accuracy := 0; plateau_count := 0; converged := false;
       accuracies := [] |}.
End train.

(** ** Test-set evaluation *)
Record Counts := { tp : list Z; fp : list Z; fn : list Z; test_correct : Z }.

Definition bump (l : list Z) (i : Z) : Res (list Z) :=
  x ← rd l i; x' ← i32 (x + 1); wr l i x'.

(** Layer 2 with the running maximum; [-1e9] is converted to [float]. *)
Definition classify (w2 b2 hidden output : list f32) : Res (list f32 * Z * f32) :=
  for_range 0 OUTPUT_SIZE (λ j '(output, pred, max_val),
    b ← rd b2 j;
    sum ← row_dot HIDDEN_SIZE w2 hidden 0 j b;
    output ← wr output j sum;
    Ok (if flt max_val sum then (output, j, sum) else (output, pred, max_val)))
    (output, 0, d2f (dz (-1000000000))).

(** The hidden layer; [pre_relu] is not written here. *)
Definition eval_hidden (w1 b1 images : list f32) (off : Z) (hidden : list f32)
  : Res (list f32) :=
  for_range 0 HIDDEN_SIZE (λ j hidden,
    b ← rd b1 j;
    sum ← row_dot INPUT_SIZE w1 images off j b;
    wr hidden j (relu sum)) hidden.

Definition count_result (label pred : Z) (k : Counts) : Res Counts :=
  if pred =? label then
    c ← i32 (test_correct k + 1);
    t ← bump (tp k) label;
    Ok {| tp := t; fp := fp k; fn := fn k; test_correct := c |}
  else
    f ← bump (fp k) pred;
    n ← bump (fn k) label;
    Ok {| tp := tp k; fp := f; fn := n; test_correct := test_correct k |}.

Definition eval_sample (w1 b1 w2 b2 : list f32) (images : list f32) (labels : list Z) (i : Z)
    (s : list f32 * list f32 * Counts) : Res (list f32 * list f32 * Counts) :=
  let '(hidden, output, k) := s in
  off ← i32 (i * INPUT_SIZE);
  label ← rd labels i;
  hidden ← eval_hidden w1 b1 images off hidden;
  '(output, pred, _) ← classify w2 b2 hidden output;
  k ← count_result label pred k;
  Ok (hidden, output, k).

Definition evaluate (net : Net) (images : list f32) (labels : list Z) : Res Counts :=
  '(_, _, k) ← for_range 0 TEST_COUNT
    (eval_sample (w1 net) (b1 net) (w2 net) (b2 net) images labels)
    (hidden net, output net,
     {| tp := replicate 10 0; fp := replicate 10 0; fn := replicate 10 0; test_correct := 0 |});
  Ok k.

(** [(a + b > 0) ? (float)a / (a + b) : 0] *)
Definition ratio (a b : Z) : Res f32 :=
  ab ← i32 (a + b);
  Ok (if 0 <? ab then fdiv (fz a) (fz ab) else fz 0).

Definition f1_score (prec rec : f32) : f32 :=
  if flt (fz 0) (fadd prec rec)
  then fdiv (fmul (fmul (fz 2) prec) rec) (fadd prec rec) else fz 0.

Record Report := {
  per_class : list (f32 * f32 * f32);
  total_precision : f32; total_recall : f32; total_f1 : f32; valid_classes : Z
}.

Definition class_metrics (classes : Z) (tp fp fn : list Z) : Res Report :=
  for_range 0 classes (λ c r,
    t ← rd tp c; p ← rd fp c; n ← rd fn c;
    prec ← ratio t p;
    rec ← ratio t n;
    let f1 := f1_score prec rec in
    tpp ← i32 (t + p);
    all ← i32 (tpp + n);
    let rows := per_class r ++ [(prec, rec, f1)] in
    if 0 <? all then
      v ← i32 (valid_classes r + 1);
      Ok {| per_class := rows; total_precision := fadd (total_precision r) prec;
            total_recall := fadd (total_recall r) rec; total_f1 := fadd (total_f1 r) f1;
            valid_classes := v |}
    else Ok {| per_class := rows; total_precision := total_precision r;
               total_recall := total_recall r; total_f1 := total_f1 r;
               valid_classes := valid_classes r |})
    {| per_class := []; total_precision := fz 0; total_recall := fz 0; total_f1 := fz 0;
       valid_classes := 0 |}.

(** [(float)test_correct / 10000.0f * 100.0f]. *)
Definition test_accuracy (k : Counts) : f32 :=
  fmul (fdiv (fz (test_correct k)) (fz 10000)) (fz 100).

(** The macro averages printed. *)
Definition macro (r : Report) : f32 * f32 * f32 :=
  (fdiv (total_precision r) (fz (valid_classes r)), fdiv (total_recall r) (fz (valid_classes r)),
   fdiv (total_f1 r) (fz (valid_classes r))).

(** ** The program *)
Definition xavier (fan_in fan_out : Z) : f32 := sqrtf (fdiv (fz 6) (fz (fan_in + fan_out))).

Definition init_net (junk : nat → f32) : Res Net :=
  '(w1, _) ← init_weights (malloc_arr junk (HIDDEN_SIZE * INPUT_SIZE))
               (HIDDEN_SIZE * INPUT_SIZE) (xavier INPUT_SIZE HIDDEN_SIZE) 42;
  '(w2, _) ← init_weights (malloc_arr junk (OUTPUT_SIZE * HIDDEN_SIZE))
               (OUTPUT_SIZE * HIDDEN_SIZE) (xavier HIDDEN_SIZE OUTPUT_SIZE) 123;
  Ok {| w1 := w1; b1 := replicate (Z.to_nat HIDDEN_SIZE) (fz 0);
        w2 := w2; b2 := replicate (Z.to_nat OUTPUT_SIZE) (fz 0);
        pre_relu := malloc_arr junk HIDDEN_SIZE; hidden := malloc_arr junk HIDDEN_SIZE;
        output := malloc_arr junk OUTPUT_SIZE; delta_out := malloc_arr junk OUTPUT_SIZE;
        delta_hidden := malloc_arr junk HIDDEN_SIZE |}.

(** The exit status, the accuracies printed while training, and what the
    evaluation printed if it ran. *)
Definition train_main (expf : f32 → f32) (junk : nat → f32)
    (train_images : option (list f32)) (train_labels : option (list Z))
    (test_images : option (list f32)) (test_labels : option (list Z))
  : Res (Z * list Z * option (f32 * Report * (f32 * f32 * f32))) :=
  match train_images, train_labels with
  | Some images, Some labels =>
      net0 ← init_net junk;
      p ← train_loop expf images labels net0;
      match test_images, test_labels with
      | Some images, Some labels =>
          k ← evaluate (net p) images labels;
          r ← class_metrics OUTPUT_SIZE (tp k) (fp k) (fn k);
          Ok (0, accuracies p, Some (test_accuracy k, r, macro r))
      | _, _ => Ok (0, accuracies p, None)
      end
  | _, _ => Ok (1, [], None)
  end.
