(* ===== verification/TrainingSpec.v ===== *)
(** * The training baseline is safe and counts correctly

    Pure reference definitions of the forward pass, and the proofs that the
    program of [Training] never leaves its buffers and that the evaluation's
    counters are the true ones. *)
From S2P Require Import Prelude F32 F64 Training.

(** ** The forward pass as functions *)
Fixpoint dotf (w x : list f32) (wo xo : Z) (k : nat) (sum : f32) : f32 :=
  match k with
  | O => sum
  | S k => fadd (dotf w x wo xo k sum) (fmul (w.[wo + Z.of_nat k]) (x.[xo + Z.of_nat k]))
  end.

(** One fully connected layer. *)
Definition layer (rows cols : Z) (w b x : list f32) (off : Z) : list f32 :=
  (λ i, dotf w x (i * cols) off (Z.to_nat cols) (b.[i])) <$> seqZ 0 rows.

(** The first index, from 0, at which the running maximum was last raised. *)
Fixpoint best (l : list f32) (n : nat) : Z * f32 :=
  match n with
  | O => (0, d2f (dz (-1000000000)))
  | S n => if flt (best l n).2 (l.[Z.of_nat n]) then (Z.of_nat n, l.[Z.of_nat n]) else best l n
  end.

(** The class the network assigns to the image that starts at [off]. *)
Definition prediction (net : Net) (images : list f32) (off : Z) : Z :=
  let h := relu <$> layer HIDDEN_SIZE INPUT_SIZE (w1 net) (b1 net) images off in
  (best (layer OUTPUT_SIZE HIDDEN_SIZE (w2 net) (b2 net) h 0) (Z.to_nat OUTPUT_SIZE)).1.

Ltac dims := unfold INPUT_SIZE, HIDDEN_SIZE, OUTPUT_SIZE, TRAIN_COUNT, TEST_COUNT in *.

Lemma length_layer rows cols w b x off : 0 ≤ rows → zlen (layer rows cols w b x off) = rows.
Proof. intros. unfold layer. rewrite length_fmap, length_seqZ. lia. Qed.

Lemma znth_fmap_seqZ (f : Z → f32) n i : 0 ≤ i < n → (f <$> seqZ 0 n).[i] = f i.
Proof.
  intros Hi. apply list_lookup_total_correct. rewrite list_lookup_fmap, lookup_seqZ_lt by lia.
  cbn. do 2 f_equal. lia.
Qed.

Lemma best_range l n : (0 < n)%nat → 0 ≤ (best l n).1 < Z.of_nat n.
Proof.
  induction n as [|n IH]; [lia|]. intros _. cbn [best].
  destruct (flt _ _); cbn [fst]; [lia|]. destruct n; [cbn; lia|]. lia.
Qed.

Lemma prediction_range net images off : 0 ≤ prediction net images off < 10.
Proof. apply (best_range _ 10). lia. Qed.

Lemma row_dot_wp cols w x off i sum : 0 ≤ i → 0 ≤ cols → 0 ≤ off →
  i * cols + cols ≤ zlen w → i * cols + cols ≤ INT_MAX → off + cols ≤ zlen x →
  wp (row_dot cols w x off i sum) (λ s, s = dotf w x (i * cols) off (Z.to_nat cols) sum).
Proof.
  intros Hi Hc Ho Hw Hm Hx. unfold row_dot.
  apply (for_range_wp (λ j s, s = dotf w x (i * cols) off (Z.to_nat j) sum)); [done| |].
  - intros j s Hj ->. rewrite at2_fits by nia. cbn [mbind Res_bind].
    rewrite rd_ok by nia. cbn [mbind Res_bind]. rewrite rd_ok by lia. cbn [mbind Res_bind wp].
    replace (Z.to_nat (j + 1)) with (S (Z.to_nat j)) by lia. cbn [dotf].
    by rewrite Z2Nat.id by lia.
  - intros s ->. by rewrite Z.max_r by lia.
Qed.

(** A loop that writes [f j] to every cell [j] leaves the list of the [f j]. *)
Definition filled (f : Z → f32) (n j : Z) (l : list f32) : Prop :=
  zlen l = n ∧ ∀ i, 0 ≤ i < j → l.[i] = f i.

Lemma filled_zset f n j l : filled f n j l → 0 ≤ j < n → filled f n (j + 1) (zset l j (f j)).
Proof.
  intros [Hl H] Hj. split; [by rewrite length_zset|]. intros i Hi.
  rewrite znth_zset by lia. case_decide; [by subst|]. apply H. lia.
Qed.

Lemma filled_all f n l : 0 ≤ n → filled f n n l → l = f <$> seqZ 0 n.
Proof.
  intros Hn [Hl H]. apply znth_ext; [rewrite length_fmap, length_seqZ; lia|].
  intros i Hi. rewrite znth_fmap_seqZ by lia. apply H. lia.
Qed.

Lemma forward1_wp w b images off p h :
  zlen w = HIDDEN_SIZE * INPUT_SIZE → zlen b = HIDDEN_SIZE →
  0 ≤ off → off + INPUT_SIZE ≤ zlen images → zlen p = HIDDEN_SIZE → zlen h = HIDDEN_SIZE →
  wp (forward1 w b images off (p, h)) (λ '(p', h'),
    zlen p' = HIDDEN_SIZE ∧ zlen h' = HIDDEN_SIZE).
Proof.
  intros Hw Hb Ho Hx Hp Hh. unfold forward1. dims.
  apply (for_range_wp (λ i '(p, h), zlen p = 128 ∧ zlen h = 128)); [done| |by intros [] []].
  intros i [p1 h1] Hi [Hp1 Hh1]. rewrite rd_ok by lia. cbn [mbind Res_bind]. wp_step.
  eapply wp_mono; [apply row_dot_wp; c_unfold; lia|]. intros sum _.
  rewrite wr_ok by lia. cbn [mbind Res_bind]. rewrite wr_ok by lia. cbn [mbind Res_bind wp].
  by rewrite !length_zset.
Qed.

Lemma layer_wp (act : f32 → f32) rows cols w b x off l :
  0 ≤ rows → 0 ≤ cols → zlen w = rows * cols → zlen w ≤ INT_MAX → zlen b = rows →
  0 ≤ off → off + cols ≤ zlen x → zlen l = rows →
  wp (for_range 0 rows (λ i l, b ← rd b i; sum ← row_dot cols w x off i b; wr l i (act sum)) l)
     (λ l', l' = act <$> layer rows cols w b x off).
Proof.
  intros Hr Hc Hw Hwm Hb Ho Hx Hl. unfold layer. rewrite <- list_fmap_compose.
  apply (for_range_wp (filled (act ∘ λ i, dotf w x (i * cols) off (Z.to_nat cols) (b.[i])) rows));
    [split; [done|lia]| |].
  - intros j l1 Hj H1. rewrite rd_ok by lia. cbn [mbind Res_bind]. wp_step.
    eapply wp_mono; [apply row_dot_wp; nia|]. intros sum ->.
    pose proof H1 as [Hl1 _]. rewrite wr_ok by lia. cbn [wp].
    exact (filled_zset _ _ _ _ H1 Hj).
  - intros l1 H1. rewrite Z.max_r in H1 by lia. by apply filled_all.
Qed.

Lemma eval_hidden_wp w b images off h :
  zlen w = HIDDEN_SIZE * INPUT_SIZE → zlen b = HIDDEN_SIZE →
  0 ≤ off → off + INPUT_SIZE ≤ zlen images → zlen h = HIDDEN_SIZE →
  wp (eval_hidden w b images off h) (λ h',
    h' = relu <$> layer HIDDEN_SIZE INPUT_SIZE w b images off).
Proof. intros. apply layer_wp; dims; c_unfold; lia. Qed.

Lemma forward2_wp w b h o :
  zlen w = OUTPUT_SIZE * HIDDEN_SIZE → zlen b = OUTPUT_SIZE → zlen h = HIDDEN_SIZE →
  zlen o = OUTPUT_SIZE →
  wp (forward2 w b h o) (λ o', o' = layer OUTPUT_SIZE HIDDEN_SIZE w b h 0).
Proof.
  intros. eapply wp_mono; [apply (layer_wp (λ s, s)); dims; c_unfold; lia|].
  intros o' ->. apply list_fmap_id.
Qed.

Lemma classify_wp w b h o :
  zlen w = OUTPUT_SIZE * HIDDEN_SIZE → zlen b = OUTPUT_SIZE → zlen h = HIDDEN_SIZE →
  zlen o = OUTPUT_SIZE →
  wp (classify w b h o) (λ '(o', pred, _), zlen o' = OUTPUT_SIZE ∧
    pred = (best (layer OUTPUT_SIZE HIDDEN_SIZE w b h 0) (Z.to_nat OUTPUT_SIZE)).1).
Proof.
  intros Hw Hb Hh Ho. unfold classify. remember (layer _ _ w b h 0) as l eqn:El.
  apply (for_range_wp (λ j '(o, pred, m), zlen o = 10 ∧ (pred, m) = best l (Z.to_nat j)));
    [done| |].
  - intros j [[o1 pred] m] Hj [Ho1 Hb1]. assert (0 ≤ j < 10) by (dims; lia).
    rewrite rd_ok by (dims; lia). cbn [mbind Res_bind]. wp_step.
    eapply wp_mono; [apply row_dot_wp; dims; c_unfold; lia|]. intros sum Hs.
    rewrite wr_ok by lia. cbn [mbind Res_bind wp].
    assert (sum = l.[j]) as ->.
    { rewrite El. unfold layer. by rewrite znth_fmap_seqZ by lia. }
    replace (Z.to_nat (j + 1)) with (S (Z.to_nat j)) by lia. cbn [best].
    rewrite <- Hb1, Z2Nat.id by lia. cbn [snd].
    destruct (flt m _); by rewrite length_zset.
  - intros [[o1 pred] m] [Ho1 Hb1]. split; [done|].
    change (Z.max 0 OUTPUT_SIZE) with OUTPUT_SIZE in Hb1. by rewrite <- Hb1.
Qed.

(** ** Evaluation *)
Definition wf_net (net : Net) : Prop :=
  zlen (w1 net) = HIDDEN_SIZE * INPUT_SIZE ∧ zlen (b1 net) = HIDDEN_SIZE ∧
  zlen (w2 net) = OUTPUT_SIZE * HIDDEN_SIZE ∧ zlen (b2 net) = OUTPUT_SIZE ∧
  zlen (pre_relu net) = HIDDEN_SIZE ∧ zlen (hidden net) = HIDDEN_SIZE ∧
  zlen (output net) = OUTPUT_SIZE ∧ zlen (delta_out net) = OUTPUT_SIZE ∧
  zlen (delta_hidden net) = HIDDEN_SIZE.

Lemma countb_seqZ_S (f : Z → bool) i : 0 ≤ i →
  countb f (seqZ 0 (i + 1)) = countb f (seqZ 0 i) + Z.b2z (f i).
Proof.
  intros Hi. rewrite seqZ_app by lia. rewrite countb_app.
  assert (seqZ (0 + i) 1 = [i]) as ->; [|cbn; lia].
  unfold seqZ. cbn. by f_equal.
Qed.

Lemma countb_seqZ_range (f : Z → bool) i : 0 ≤ i → 0 ≤ countb f (seqZ 0 i) ≤ i.
Proof. intros. pose proof (countb_range f (seqZ 0 i)) as H1. rewrite length_seqZ in H1. lia. Qed.

(** The counters after the first [n] samples with predictions [pr]. *)
Definition counted (labels : list Z) (pr : Z → Z) (n : Z) (k : Counts) : Prop :=
  (zlen (tp k) = 10 ∧ zlen (fp k) = 10 ∧ zlen (fn k) = 10) ∧
  test_correct k = countb (λ i, pr i =? labels.[i]) (seqZ 0 n) ∧
  ∀ c, 0 ≤ c < 10 →
    (tp k).[c] = countb (λ i, (labels.[i] =? c) && (pr i =? c)) (seqZ 0 n) ∧
    (fp k).[c] = countb (λ i, negb (labels.[i] =? c) && (pr i =? c)) (seqZ 0 n) ∧
    (fn k).[c] = countb (λ i, (labels.[i] =? c) && negb (pr i =? c)) (seqZ 0 n).

Lemma bump_wp l c : 0 ≤ c < zlen l → INT_MIN ≤ l.[c] + 1 ≤ INT_MAX →
  wp (bump l c) (λ l', zlen l' = zlen l ∧
    ∀ i, 0 ≤ i → l'.[i] = l.[i] + Z.b2z (c =? i)).
Proof.
  intros Hc Hb. unfold bump. rewrite rd_ok by lia. cbn [mbind Res_bind].
  rewrite i32_ok by done. cbn [mbind Res_bind]. rewrite wr_ok by lia. cbn [wp].
  split; [by rewrite length_zset|]. intros i Hi. rewrite znth_zset by lia.
  case_decide; destruct (Z.eqb_spec c i); subst; cbn [Z.b2z]; lia || done.
Qed.

(** [lia] after every comparison of the two classes has been decided. *)
Ltac class_cases :=
  repeat match goal with
  | |- context [?a =? ?b] => destruct (Z.eqb_spec a b)
  end; repeat case_decide; cbn [andb negb Z.b2z] in *; lia.

Lemma count_result_wp labels pr n k : 0 ≤ n < INT_MAX → 0 ≤ labels.[n] < 10 → 0 ≤ pr n < 10 →
  counted labels pr n k →
  wp (count_result (labels.[n]) (pr n) k) (counted labels pr (n + 1)).
Proof.
  intros Hn Hlab Hpr ((Ht & Hf & Hm) & Hc & Hk). unfold count_result.
  assert (∀ f, 0 ≤ countb f (seqZ 0 n) < INT_MAX) as Hcb.
  { intros f. pose proof (countb_seqZ_range f n). lia. }
  destruct (Z.eqb_spec (pr n) (labels.[n])) as [E|E].
  - pose proof (Hcb (λ i, pr i =? labels.[i])). rewrite i32_ok by (c_unfold; lia).
    cbn [mbind Res_bind]. destruct (Hk (labels.[n])) as (E1 & _ & _); [done|].
    pose proof (Hcb (λ i, (labels.[i] =? labels.[n]) && (pr i =? labels.[n]))).
    wp_step. eapply wp_mono; [apply bump_wp; c_unfold; lia|]. intros t [Lt Vt]. cbn [wp].
    split; [cbn; lia|]. cbn [test_correct tp fp fn]. rewrite countb_seqZ_S by lia.
    rewrite Hc. split; [class_cases|]. intros c Hcc. rewrite !countb_seqZ_S by lia.
    destruct (Hk c Hcc) as (F1 & F2 & F3). rewrite Vt, F1, F2, F3 by lia.
    split_and!; class_cases.
  - destruct (Hk (labels.[n])) as (_ & _ & E3); [done|].
    destruct (Hk (pr n)) as (_ & E2 & _); [done|].
    pose proof (Hcb (λ i, (labels.[i] =? labels.[n]) && negb (pr i =? labels.[n]))).
    pose proof (Hcb (λ i, negb (labels.[i] =? pr n) && (pr i =? pr n))).
    wp_step. eapply wp_mono; [apply bump_wp; c_unfold; lia|]. intros f [Lf Vf].
    wp_step. eapply wp_mono; [apply bump_wp; c_unfold; lia|]. intros m [Lm Vm]. cbn [wp].
    split; [cbn; lia|]. cbn [test_correct tp fp fn]. rewrite countb_seqZ_S by lia.
    rewrite Hc. split; [class_cases|]. intros c Hcc. rewrite !countb_seqZ_S by lia.
    destruct (Hk c Hcc) as (F1 & F2 & F3). rewrite Vf, Vm, F1, F2, F3 by lia.
    split_and!; class_cases.
Qed.

Lemma evaluate_wp net images labels : wf_net net →
  TEST_COUNT * INPUT_SIZE ≤ zlen images → TEST_COUNT ≤ zlen labels →
  (∀ i, 0 ≤ i < TEST_COUNT → 0 ≤ labels.[i] < 10) →
  wp (evaluate net images labels)
     (counted labels (λ i, prediction net images (i * INPUT_SIZE)) TEST_COUNT).
Proof.
  intros (Hw1 & Hb1 & Hw2 & Hb2 & _ & Hh & Ho & _) Hx Hl Hlab. unfold evaluate. wp_step.
  apply (for_range_wp (λ n '(h, o, k), zlen h = HIDDEN_SIZE ∧ zlen o = OUTPUT_SIZE ∧
    counted labels (λ i, prediction net images (i * INPUT_SIZE)) n k)).
  - split_and!; [done|done|]. split; [done|]. split; [done|]. intros c Hc.
    cbn [tp fp fn]. rewrite znth_replicate by lia. done.
  - intros i [[h o] k] Hi (Hh1 & Ho1 & Hk). unfold eval_sample.
    rewrite i32_ok by (dims; c_unfold; lia). cbn [mbind Res_bind].
    rewrite rd_ok by lia. cbn [mbind Res_bind]. wp_step.
    eapply wp_mono; [apply eval_hidden_wp; dims; lia|]. intros h' Eh.
    assert (zlen h' = HIDDEN_SIZE) as Hh'
      by (rewrite Eh, length_fmap; by apply length_layer).
    wp_step. eapply wp_mono; [apply classify_wp; assumption|]. intros [[o' pred] m] [Ho' Ep].
    assert (pred = prediction net images (i * INPUT_SIZE)) as -> by (unfold prediction; cbn zeta; cbn beta in Eh; rewrite <- Eh; exact Ep).
    wp_step. eapply wp_mono.
    { apply (count_result_wp labels (λ i, prediction net images (i * INPUT_SIZE)) i);
        [dims; c_unfold; lia|by apply Hlab|apply prediction_range|exact Hk]. }
    intros k' Hk'. by cbn [wp].
  - intros [[h o] k] (_ & _ & Hk). exact Hk.
Qed.

(** A label of 10 or more is outside the counters; unlike the training loop
    the evaluation does not test for it. *)
Lemma count_bad_label label pred k : zlen (fn k) = 10 → 10 ≤ label → 0 ≤ pred < 10 →
  ∀ k', count_result label pred k ≠ Ok k'.
Proof.
  intros Hf Hl Hp k' E. unfold count_result in E.
  destruct (Z.eqb_spec pred label); [lia|]. inv_ok. unfold bump in E1. inv_ok.
  apply wr_Ok_inv in E1. lia.
Qed.

(** ** Training *)
Lemma sgd_update_wp rows cols lr delta x off w b :
  0 ≤ rows → 0 ≤ cols → zlen w = rows * cols → zlen w ≤ INT_MAX → zlen b = rows →
  zlen delta = rows → 0 ≤ off → off + cols ≤ zlen x →
  wp (sgd_update rows cols lr delta x off (w, b))
     (λ '(w', b'), zlen w' = rows * cols ∧ zlen b' = rows).
Proof.
  intros Hr Hc Hw Hm Hb Hd Ho Hx. unfold sgd_update.
  apply (for_range_wp (λ i '(w, b), zlen w = rows * cols ∧ zlen b = rows)); [done| |by intros [] []].
  intros i [w' b'] Hi [Hw' Hb']. assert (0 ≤ i * cols ∧ i * cols + cols ≤ rows * cols) by nia.
  rewrite rd_ok by lia. cbn [mbind Res_bind].
  rewrite rd_ok by lia. cbn [mbind Res_bind]. rewrite wr_ok by lia. cbn [mbind Res_bind].
  wp_step. apply (for_range_wp (λ j w, zlen w = rows * cols)); [done| |].
  - intros j w2 Hj Hw2. rewrite at2_fits by lia. cbn [mbind Res_bind].
    rewrite !rd_ok by lia. cbn [mbind Res_bind].
    rewrite wr_ok by lia. cbn [wp]. by rewrite length_zset.
  - intros w2 Hw2. cbn [wp]. by rewrite length_zset.
Qed.

Lemma argmax_wp o : zlen o = OUTPUT_SIZE → wp (argmax o) (λ '(p, _), 0 ≤ p < 10).
Proof.
  intros Ho. unfold argmax. dims. rewrite rd_ok by lia. cbn [mbind Res_bind].
  apply (for_range_wp (λ _ '(p, _), 0 ≤ p < 10)); [lia| |by intros []].
  intros i [p m] Hi Hp. rewrite rd_ok by lia. cbn [mbind Res_bind wp].
  destruct (flt _ _); lia.
Qed.

Section train.
Context (expf : f32 → f32).

Lemma softmax_grad_wp o d label : zlen o = OUTPUT_SIZE → zlen d = OUTPUT_SIZE →
  wp (softmax_grad expf o d label) (λ d', zlen d' = OUTPUT_SIZE).
Proof.
  intros Ho Hd. unfold softmax_grad. dims. rewrite rd_ok by lia. cbn [mbind Res_bind].
  wp_step. apply (for_range_wp (λ _ _, True)); [done| |].
  { intros i m Hi _. rewrite rd_ok by lia. done. }
  intros m _. wp_step. apply (for_range_wp (λ _ '(d, _), zlen d = 10)); [done| |].
  { intros i [d1 s] Hi Hd1. rewrite rd_ok by lia. cbn [mbind Res_bind].
    rewrite wr_ok by lia. cbn [mbind Res_bind wp]. by rewrite length_zset. }
  intros [d1 s] Hd1. apply (for_range_wp (λ _ d, zlen d = 10)); [done| |done].
  intros i d2 Hi Hd2. rewrite rd_ok by lia. cbn [mbind Res_bind].
  rewrite wr_ok by lia. cbn [wp]. by rewrite length_zset.
Qed.

Lemma hidden_grad_wp w d p dh : zlen w = OUTPUT_SIZE * HIDDEN_SIZE → zlen d = OUTPUT_SIZE →
  zlen p = HIDDEN_SIZE → zlen dh = HIDDEN_SIZE →
  wp (hidden_grad w d p dh) (λ dh', zlen dh' = HIDDEN_SIZE).
Proof.
  intros Hw Hd Hp Hdh. unfold hidden_grad. dims.
  apply (for_range_wp (λ _ l, zlen l = 128)); [done| |done]. intros j l Hj Hl.
  wp_step. apply (for_range_wp (λ _ _, True)); [done| |].
  { intros i s Hi _. rewrite at2_fits by (c_unfold; lia). cbn [mbind Res_bind].
    rewrite rd_ok by lia. cbn [mbind Res_bind]. by rewrite rd_ok by lia. }
  intros s _. rewrite rd_ok by lia. cbn [mbind Res_bind]. rewrite wr_ok by lia. cbn [wp].
  by rewrite length_zset.
Qed.

Definition sample_inv (n : Z) (s : Net * list f32 * Z) : Prop :=
  wf_net s.1.1 ∧ zlen s.1.2 = 100 ∧ 0 ≤ s.2 ≤ n.

Lemma train_sample_wp images labels n s : 0 ≤ n < TRAIN_COUNT →
  TRAIN_COUNT * INPUT_SIZE ≤ zlen images → TRAIN_COUNT ≤ zlen labels → sample_inv n s →
  wp (train_sample expf images labels n s) (sample_inv (n + 1)).
Proof.
  intros Hn Hx Hl. destruct s as [[net conf] correct].
  intros ((Hw1 & Hb1 & Hw2 & Hb2 & Hp & Hh & Ho & Hd & Hdh) & Hconf & Hcor).
  cbn [fst snd] in *. unfold train_sample.
  rewrite (i32_ok (n * INPUT_SIZE)) by (dims; c_unfold; lia). cbn [mbind Res_bind].
  rewrite (rd_ok labels) by lia. cbn [mbind Res_bind]. generalize (labels.[n]). intros label.
  wp_step. eapply wp_mono; [apply forward1_wp; dims; lia|]. intros [p h] [Hp' Hh'].
  wp_step. eapply wp_mono; [apply forward2_wp; assumption|]. intros o Eo.
  assert (zlen o = OUTPUT_SIZE) as Ho' by (rewrite Eo; by apply length_layer). clear Eo.
  wp_step. eapply wp_mono; [apply argmax_wp; assumption|]. intros [pred m] Hpred.
  wp_step. apply (wp_mono _ (λ c, 0 ≤ c ≤ n + 1)).
  { destruct (pred =? label); [|cbn; lia]. rewrite i32_ok by (dims; c_unfold; lia). cbn; lia. }
  intros correct' Hcor'. wp_step. apply (wp_mono _ (λ c, zlen c = 100)).
  { destruct (Z.leb_spec 0 label), (Z.ltb_spec label 10); cbn [andb]; try done.
    destruct (Z.leb_spec 0 pred), (Z.ltb_spec pred 10); cbn [andb]; try done.
    rewrite rd_ok by lia. cbn [mbind Res_bind]. rewrite wr_ok by lia. cbn [wp].
    by rewrite length_zset. }
  intros conf' Hconf'. wp_step. eapply wp_mono; [apply softmax_grad_wp; assumption|]. intros d Hd'.
  wp_step. eapply wp_mono; [apply hidden_grad_wp; assumption|]. intros dh Hdh'.
  wp_step. eapply wp_mono; [apply sgd_update_wp; dims; c_unfold; lia|]. intros [w2' b2'] [Hw2' Hb2'].
  wp_step. eapply wp_mono; [apply sgd_update_wp; dims; c_unfold; lia|]. intros [w1' b1'] [Hw1' Hb1'].
  cbn [wp]. unfold sample_inv, wf_net. cbn. done.
Qed.

Definition progress_inv (n : Z) (p : Progress) : Prop :=
  wf_net (net p) ∧ 0 ≤ prev_accuracy p ≤ 100 ∧ 0 ≤ plateau_count p ≤ n ∧
  zlen (accuracies p) ≤ n ∧ Forall (λ a, 0 ≤ a ≤ 100) (accuracies p) ∧
  (0 < n → accuracies p ≠ []).

Lemma train_epoch_wp images labels n p : 0 ≤ n < EPOCHS →
  TRAIN_COUNT * INPUT_SIZE ≤ zlen images → TRAIN_COUNT ≤ zlen labels → progress_inv n p →
  wp (train_epoch expf images labels p) (progress_inv (n + 1)).
Proof.
  intros Hn Hx Hl (Hnet & Hprev & Hpl & Hacc & Hall & _). unfold train_epoch, EPOCHS in *. wp_step.
  apply (for_range_wp sample_inv).
  { split; [done|]. cbn. split; [done|lia]. }
  { intros i s Hi Hs. by apply train_sample_wp. }
  intros [[net' conf] correct] (Hnet' & _ & Hc). cbn [fst snd] in *.
  rewrite (i32_ok (correct * 100)) by (dims; c_unfold; lia). cbn [mbind Res_bind].
  assert (0 ≤ correct * 100 ÷ TRAIN_COUNT ≤ 100) as Ha.
  { dims. rewrite Z.quot_div_nonneg by lia. split; [apply Z.div_pos; lia|].
    apply Z.div_le_upper_bound; lia. }
  rewrite (i32_ok (_ - _)) by (c_unfold; lia). cbn [mbind Res_bind].
  wp_step. apply (wp_mono _ (λ '(pl, _), 0 ≤ pl ≤ n + 1)).
  { destruct (_ <? 1); [|cbn; lia]. rewrite i32_ok by (c_unfold; lia). cbn; lia. }
  intros [pl conv] Hpl'. cbn [wp]. unfold progress_inv. cbn.
  split_and!; try done; try lia.
  - rewrite length_app. cbn. lia.
  - apply Forall_app. split; [done|]. by constructor.
  - intros _ E. by apply app_nil in E as [_ ?].
Qed.

Lemma train_loop_wp images labels net0 : wf_net net0 →
  TRAIN_COUNT * INPUT_SIZE ≤ zlen images → TRAIN_COUNT ≤ zlen labels →
  wp (train_loop expf images labels net0)
     (λ p, wf_net (net p) ∧ 1 ≤ zlen (accuracies p) ≤ 8 ∧
           Forall (λ a, 0 ≤ a ≤ 100) (accuracies p)).
Proof.
  intros Hnet Hx Hl. unfold train_loop.
  match goal with |- wp (fmap fell ?m) _ => enough (wp m (λ x, ∃ n, 0 < n ≤ 8 ∧ progress_inv n (fell x))) as HE end.
  { destruct (for_ctl _ _ _ _) as [x| |]; try done. cbn in *.
    destruct HE as (n & Hn & Hi & _ & _ & Ha & Hall & Hne). split_and!; try done; [|lia].
    specialize (Hne ltac:(lia)). destruct (accuracies (fell x)); [done|]. cbn. lia. }
  apply (for_ctl_wp (λ n p, progress_inv n p ∧ (n = 0 → converged p = false))).
  - split; [|done]. unfold progress_inv. cbn. split_and!; try done; lia.
  - intros n p Hn [Hp Hc]. destruct (converged p) eqn:E.
    { cbn. exists n. split; [|done]. unfold EPOCHS in *. destruct (decide (n = 0)); [naive_solver|lia]. }
    wp_step. eapply wp_mono; [by apply (train_epoch_wp images labels n)|].
    intros p' Hp'. cbn. split; [done|lia].
  - intros p [Hp _]. exists 8. by split.
Qed.
End train.

Lemma init_weights_wp w count scale seed : 0 ≤ count → zlen w = count →
  wp (init_weights w count scale seed) (λ '(w', _), zlen w' = count).
Proof.
  intros Hc Hw. unfold init_weights.
  apply (for_range_wp (λ _ '(w, _), zlen w = count)); [done| |by intros []].
  intros i [w1 s] Hi Hw1. cbn zeta. rewrite wr_ok by lia. cbn [mbind Res_bind wp].
  by rewrite length_zset.
Qed.

Lemma zlen_malloc (junk : nat → f32) n : 0 ≤ n → zlen (malloc_arr junk n) = n.
Proof. intros. rewrite length_malloc. lia. Qed.

Lemma zlen_replicate (x : f32) n : 0 ≤ n → zlen (replicate (Z.to_nat n) x) = n.
Proof. intros. rewrite length_replicate. lia. Qed.

Lemma init_net_wp junk : wp (init_net junk) wf_net.
Proof.
  assert (0 ≤ HIDDEN_SIZE * INPUT_SIZE) by (dims; lia).
  assert (0 ≤ OUTPUT_SIZE * HIDDEN_SIZE) by (dims; lia).
  assert (0 ≤ HIDDEN_SIZE ∧ 0 ≤ OUTPUT_SIZE) as [? ?] by (dims; lia).
  unfold init_net. wp_step.
  eapply wp_mono; [apply init_weights_wp; [assumption|by apply zlen_malloc]|]. intros [w1 s1] Hw1.
  wp_step.
  eapply wp_mono; [apply init_weights_wp; [assumption|by apply zlen_malloc]|]. intros [w2 s2] Hw2.
  cbn [wp]. unfold wf_net. cbn [Training.w1 b1 Training.w2 b2 pre_relu hidden output delta_out delta_hidden].
  rewrite !zlen_malloc, !zlen_replicate by assumption. auto 10.
Qed.

Lemma ratio_wp a b : 0 ≤ a → 0 ≤ b → a + b ≤ INT_MAX → wp (ratio a b) (λ _, True).
Proof. intros. unfold ratio. by rewrite i32_ok by (c_unfold; lia). Qed.

Lemma class_metrics_wp classes (t p n : list Z) : 0 ≤ classes < INT_MAX →
  classes ≤ zlen t → classes ≤ zlen p → classes ≤ zlen n →
  (∀ c, 0 ≤ c < classes → 0 ≤ t.[c] ∧ 0 ≤ p.[c] ∧ 0 ≤ n.[c] ∧ t.[c] + p.[c] + n.[c] ≤ INT_MAX) →
  wp (class_metrics classes t p n)
     (λ r, zlen (per_class r) = classes ∧ 0 ≤ valid_classes r ≤ classes).
Proof.
  intros Hk Ht Hp Hn Hb. unfold class_metrics.
  apply (for_range_wp (λ c r, zlen (per_class r) = c ∧ 0 ≤ valid_classes r ≤ c)); [done| |].
  - intros c r Hc [Hr Hv]. specialize (Hb c Hc) as (B1 & B2 & B3 & B4).
    rewrite !rd_ok by lia. cbn [mbind Res_bind].
    wp_step. eapply wp_mono; [apply ratio_wp; lia|]. intros prec _.
    wp_step. eapply wp_mono; [apply ratio_wp; lia|]. intros rec _.
    rewrite (i32_ok (t.[c] + p.[c])) by (c_unfold; lia). cbn [mbind Res_bind].
    rewrite (i32_ok (_ + n.[c])) by (c_unfold; lia). cbn [mbind Res_bind].
    case_match.
    + rewrite i32_ok by (c_unfold; lia). cbn [mbind Res_bind wp per_class valid_classes].
      rewrite length_app. cbn. lia.
    + cbn [wp per_class valid_classes]. rewrite length_app. cbn. lia.
  - intros r Hr. by rewrite Z.max_r in Hr by lia.
Qed.

(** ** The properties *)

(** For every network of the program's dimensions, every test set of 10000
    images and every 10000 labels below 10, the evaluation finishes inside its
    buffers, and its counters are exact: the number of samples the network
    classifies as their label, and for each class the true positives, false
    positives and false negatives, where the class assigned to an image is the
    one of the two-layer forward pass. *)
Theorem evaluation_counts net images labels :
  wf_net net → zlen images = TEST_COUNT * INPUT_SIZE → zlen labels = TEST_COUNT →
  (∀ i, 0 ≤ i < TEST_COUNT → 0 ≤ labels.[i] < 10) →
  let predicted i := prediction net images (i * INPUT_SIZE) in
  let samples := seqZ 0 TEST_COUNT in
  ∃ k, evaluate net images labels = Ok k ∧
    test_correct k = countb (λ i, predicted i =? labels.[i]) samples ∧
    ∀ c, 0 ≤ c < 10 →
      (tp k).[c] = countb (λ i, (labels.[i] =? c) && (predicted i =? c)) samples ∧
      (fp k).[c] = countb (λ i, negb (labels.[i] =? c) && (predicted i =? c)) samples ∧
      (fn k).[c] = countb (λ i, (labels.[i] =? c) && negb (predicted i =? c)) samples.
Proof.
  intros Hnet Hx Hl Hlab predicted samples.
  destruct (wp_elim _ _ (evaluate_wp net images labels Hnet ltac:(lia) ltac:(lia) Hlab))
    as (k & E & (_ & Hc & Hk)).
  by exists k.
Qed.

(** C37. With 60000 training images and labels of any value, and a test set that
    is absent or has 10000 images and labels below 10, the program runs to its
    end without leaving a buffer or overflowing a counter, whatever [expf]
    computes: it returns 0 after between one and eight epochs, having printed
    accuracies between 0 and 100 percent. *)
Theorem train_main_safe expf junk images labels test_images test_labels :
  zlen images = TRAIN_COUNT * INPUT_SIZE → zlen labels = TRAIN_COUNT →
  (∀ t, test_images = Some t → zlen t = TEST_COUNT * INPUT_SIZE) →
  (∀ t, test_labels = Some t → zlen t = TEST_COUNT ∧ ∀ i, 0 ≤ i < TEST_COUNT → 0 ≤ t.[i] < 10) →
  ∃ accs r, train_main expf junk (Some images) (Some labels) test_images test_labels
              = Ok (0, accs, r) ∧
    1 ≤ zlen accs ≤ 8 ∧ Forall (λ a, 0 ≤ a ≤ 100) accs ∧
    (is_Some r ↔ is_Some test_images ∧ is_Some test_labels).
Proof.
  intros Hx Hl Hti Htl.
  enough (wp (train_main expf junk (Some images) (Some labels) test_images test_labels)
    (λ '(st, accs, r), st = 0 ∧ 1 ≤ zlen accs ≤ 8 ∧ Forall (λ a, 0 ≤ a ≤ 100) accs ∧
       (is_Some r ↔ is_Some test_images ∧ is_Some test_labels))) as H.
  { destruct (wp_elim _ _ H) as ([[st accs] r] & -> & -> & H1). exists accs, r. split; [reflexivity|exact H1]. }
  unfold train_main. wp_step. eapply wp_mono; [apply init_net_wp|]. intros net0 Hnet0.
  wp_step. eapply wp_mono; [apply train_loop_wp; [exact Hnet0|rewrite Hx; reflexivity|by rewrite Hl]|].
  intros p (Hp & Hn & Hall).
  destruct test_images as [ti|]; [|cbn; unfold is_Some; naive_solver].
  destruct test_labels as [tl|]; [|cbn; unfold is_Some; naive_solver].
  destruct (Htl tl eq_refl) as [Htl1 Htl2]. specialize (Hti ti eq_refl).
  wp_step. eapply wp_mono; [apply evaluate_wp; [exact Hp|by rewrite Hti|by rewrite Htl1|exact Htl2]|].
  intros k ((L1 & L2 & L3) & _ & Hk). wp_step. eapply wp_mono.
  { apply class_metrics_wp; [done|dims; lia..|]. intros c Hc. dims.
    destruct (Hk c Hc) as (-> & -> & ->).
    repeat match goal with |- context [countb ?f (seqZ 0 10000)] =>
      let H := fresh in pose proof (countb_seqZ_range f 10000 ltac:(lia)) as H;
      generalize dependent (countb f (seqZ 0 10000)); intros end. c_unfold. lia. }
  intros r _. cbn. split_and!; try done; try lia.
Qed.

(** A network with every parameter zero, and blank test images. *)
Definition zero_net : Net :=
  {| w1 := replicate (Z.to_nat (HIDDEN_SIZE * INPUT_SIZE)) (fz 0);
     b1 := replicate (Z.to_nat HIDDEN_SIZE) (fz 0);
     w2 := replicate (Z.to_nat (OUTPUT_SIZE * HIDDEN_SIZE)) (fz 0);
     b2 := replicate (Z.to_nat OUTPUT_SIZE) (fz 0);
     pre_relu := replicate (Z.to_nat HIDDEN_SIZE) (fz 0);
     hidden := replicate (Z.to_nat HIDDEN_SIZE) (fz 0);
     output := replicate (Z.to_nat OUTPUT_SIZE) (fz 0);
     delta_out := replicate (Z.to_nat OUTPUT_SIZE) (fz 0);
     delta_hidden := replicate (Z.to_nat HIDDEN_SIZE) (fz 0) |}.

Lemma zlen_replicate_Z {A} (x : A) n : 0 ≤ n → zlen (replicate (Z.to_nat n) x) = n.
Proof. intros. rewrite length_replicate. lia. Qed.

Lemma zero_net_wf : wf_net zero_net.
Proof.
  unfold wf_net, zero_net. cbn [w1 b1 w2 b2 pre_relu hidden output delta_out delta_hidden].
  rewrite !zlen_replicate_Z by (dims; lia). auto 10.
Qed.

Lemma znth_replicate_Z {A} `{!Inhabited A} (x : A) n i : 0 ≤ i < n →
  (replicate (Z.to_nat n) x).[i] = x.
Proof. intros. apply znth_replicate. lia. Qed.

Lemma evaluation_counts_witness :
  ∃ k, evaluate zero_net (replicate (Z.to_nat (TEST_COUNT * INPUT_SIZE)) (fz 0))
                (replicate (Z.to_nat TEST_COUNT) 3) = Ok k.
Proof.
  destruct (evaluation_counts zero_net (replicate (Z.to_nat (TEST_COUNT * INPUT_SIZE)) (fz 0))
              (replicate (Z.to_nat TEST_COUNT) 3)) as (k & E & _).
  - exact zero_net_wf.
  - apply zlen_replicate_Z. dims; lia.
  - apply zlen_replicate_Z. dims; lia.
  - intros i Hi. rewrite znth_replicate_Z by exact Hi. lia.
  - exists k. exact E.
Defined.

Lemma train_main_safe_witness :
  ∃ accs r, train_main (λ x, x) (λ _, fz 0)
    (Some (replicate (Z.to_nat (TRAIN_COUNT * INPUT_SIZE)) (fz 0)))
    (Some (replicate (Z.to_nat TRAIN_COUNT) 200)) None None = Ok (0, accs, r).
Proof.
  destruct (train_main_safe (λ x, x) (λ _, fz 0)
              (replicate (Z.to_nat (TRAIN_COUNT * INPUT_SIZE)) (fz 0))
              (replicate (Z.to_nat TRAIN_COUNT) 200) None None) as (accs & r & E & _).
  - apply zlen_replicate_Z. dims; lia.
  - apply zlen_replicate_Z. dims; lia.
  - intros t [=].
  - intros t [=].
  - exists accs, r. exact E.
Defined.
