(* ===== verification/StbMonad.v ===== *)
(** * Actions of the image decoders

    The decoders thread a context through calls that either succeed or fail
    with a reason ([return stbi__err(...)]); a failure keeps the state it
    reached, because callers such as the format tests rewind and go on.  [Act
    S A] is a computation over the state [S]: undefined behaviour and exhausted
    bounds are those of [Res], a failure is [Fail reason].  Loops come in the
    two forms the code uses, a counted [for] and a loop with exits. *)
From S2P Require Import Prelude.

Inductive outcome (A : Type) : Type :=
| Val (a : A)
| Fail (reason : string).
Arguments Val {A} a.
Arguments Fail {A} reason.

Definition Act (S A : Type) : Type := S → Res (outcome A * S).

#[export] Instance Act_ret {S} : MRet (Act S) := λ A a s, Ok (Val a, s).
#[export] Instance Act_bind {S} : MBind (Act S) := λ A B k m s,
  match m s with
  | Ok (Val a, s') => k a s'
  | Ok (Fail e, s') => Ok (Fail e, s')
  | Undef => Undef
  | NoFuel => NoFuel
  end.

Section actions.
Context {S : Type}.

(** [return stbi__err(reason)] *)
Definition fail {A} (reason : string) : Act S A := λ s, Ok (Fail reason, s).
Definition get : Act S S := λ s, Ok (Val s, s).
Definition put (s : S) : Act S unit := λ _, Ok (Val (), s).
Definition modify (f : S → S) : Act S unit := λ s, Ok (Val (), f s).
Definition gets {A} (f : S → A) : Act S A := λ s, Ok (Val (f s), s).

(** A pure computation that may be undefined. *)
Definition lift {A} (m : Res A) : Act S A := λ s,
  match m with Ok a => Ok (Val a, s) | Undef => Undef | NoFuel => NoFuel end.

(** [if (c) return stbi__err(reason);] *)
Definition fail_if (c : bool) (reason : string) : Act S unit :=
  if c then fail reason else mret ().

(** A call whose failure the caller tests instead of propagating. *)
Definition attempt {A} (m : Act S A) : Act S (outcome A) := λ s,
  match m s with
  | Ok (o, s') => Ok (Val o, s')
  | Undef => Undef
  | NoFuel => NoFuel
  end.

Fixpoint a_up {A} (n : nat) (i : Z) (body : Z → A → Act S A) (a : A) : Act S A :=
  match n with
  | O => mret a
  | Datatypes.S n => a' ← body i a; a_up n (i + 1) body a'
  end.

(** [for (i = lo; i < hi; ++i)] *)
Definition a_for {A} (lo hi : Z) (body : Z → A → Act S A) (a : A) : Act S A :=
  a_up (Z.to_nat (hi - lo)) lo body a.

(** [for (;;)] with [Next], [Break] and [Return], bounded by [fuel]. *)
Fixpoint a_loop {A R} (fuel : nat) (body : A → Act S (ctl A R)) (a : A)
  : Act S (loop_exit A R) :=
  match fuel with
  | O => λ _, NoFuel
  | Datatypes.S fuel =>
      c ← body a;
      match c with
      | Next a' => a_loop fuel body a'
      | Break a' => mret (Fell a')
      | Return r => mret (Gave r)
      end
  end.

(** A [for] loop with the same exits. *)
Fixpoint a_up_ctl {A R} (n : nat) (i : Z) (body : Z → A → Act S (ctl A R)) (a : A)
  : Act S (loop_exit A R) :=
  match n with
  | O => mret (Fell a)
  | Datatypes.S n =>
      c ← body i a;
      match c with
      | Next a' => a_up_ctl n (i + 1) body a'
      | Break a' => mret (Fell a')
      | Return r => mret (Gave r)
      end
  end.

Definition a_for_ctl {A R} (lo hi : Z) (body : Z → A → Act S (ctl A R)) (a : A)
  : Act S (loop_exit A R) :=
  a_up_ctl (Z.to_nat (hi - lo)) lo body a.
End actions.

(** An action on a component of the state. *)
Definition zoom {S T A} (proj : S → T) (set : T → S → S) (m : Act T A) : Act S A := λ s,
  match m (proj s) with
  | Ok (o, t) => Ok (o, set t s)
  | Undef => Undef
  | NoFuel => NoFuel
  end.

(** ** Weakest preconditions

    [awp m s Q]: from [s] the action [m] ends without undefined behaviour, with
    an outcome and a state related by [Q]. *)
Definition awp {S A} (m : Act S A) (s : S) (Q : outcome A → S → Prop) : Prop :=
  wp (m s) (λ p, Q p.1 p.2).

(** The action succeeds. *)
Definition awp_ok {S A} (m : Act S A) (s : S) (Q : A → S → Prop) : Prop :=
  awp m s (λ o s', match o with Val a => Q a s' | Fail _ => False end).

(** A failure is allowed, and carries no promise but [E] of the state. *)
Definition allow {S A} (E : S → Prop) (Q : A → S → Prop) (o : outcome A) (s : S) : Prop :=
  match o with Val a => Q a s | Fail _ => E s end.

Section awp.
Context {S : Type}.

Lemma awp_mono {A} (m : Act S A) s (P Q : outcome A → S → Prop) :
  awp m s P → (∀ o s', P o s' → Q o s') → awp m s Q.
Proof. intros H HPQ. eapply wp_mono; [exact H|]. intros [o s'] Ho. by apply HPQ. Qed.

Lemma awp_bind {A B} (m : Act S A) (k : A → Act S B) s (Q : outcome B → S → Prop) :
  awp m s (λ o s', match o with Val a => awp (k a) s' Q | Fail e => Q (Fail e) s' end) →
  awp (m ≫= k) s Q.
Proof.
  unfold awp. unfold mbind, Act_bind. destruct (m s) as [[[a|e] s']| |]; cbn; done.
Qed.

Lemma awp_ret {A} (a : A) s (Q : outcome A → S → Prop) : Q (Val a) s → awp (mret a) s Q.
Proof. done. Qed.

Lemma awp_lift {A} (m : Res A) s (Q : outcome A → S → Prop) :
  wp m (λ a, Q (Val a) s) → awp (lift m) s Q.
Proof. unfold awp, lift. by destruct m. Qed.

Lemma awp_attempt {A} (m : Act S A) s (Q : outcome (outcome A) → S → Prop) :
  awp m s (λ o s', Q (Val o) s') → awp (attempt m) s Q.
Proof. unfold awp, attempt. destruct (m s) as [[o s']| |]; cbn; done. Qed.

Lemma awp_elim {A} (m : Act S A) s (Q : outcome A → S → Prop) :
  awp m s Q → ∃ o s', m s = Ok (o, s') ∧ Q o s'.
Proof. intros H. apply wp_elim in H as ([o s'] & E & HQ). by exists o, s'. Qed.

Lemma awp_ok_elim {A} (m : Act S A) s (Q : A → S → Prop) :
  awp_ok m s Q → ∃ a s', m s = Ok (Val a, s') ∧ Q a s'.
Proof. intros H. apply awp_elim in H as ([a|e] & s' & E & HQ); [by exists a, s'|done]. Qed.

Lemma awp_ok_bind {A B} (m : Act S A) (k : A → Act S B) s (Q : B → S → Prop) :
  awp_ok m s (λ a s', awp_ok (k a) s' Q) → awp_ok (m ≫= k) s Q.
Proof.
  intros H. apply awp_bind. eapply awp_mono; [exact H|]. by intros [a|e] s'.
Qed.

Lemma awp_ok_mono {A} (m : Act S A) s (P Q : A → S → Prop) :
  awp_ok m s P → (∀ a s', P a s' → Q a s') → awp_ok m s Q.
Proof. intros H HPQ. eapply awp_mono; [exact H|]. intros [a|e] s'; [apply HPQ|done]. Qed.

Lemma awp_ok_lift {A} (m : Res A) s (Q : A → S → Prop) :
  wp m (λ a, Q a s) → awp_ok (lift m) s Q.
Proof. intros H. by apply awp_lift. Qed.

Lemma awp_up {A} (I : Z → A → S → Prop) (E : S → Prop) n lo (body : Z → A → Act S A) a s :
  I lo a s →
  (∀ i a s, lo ≤ i < lo + Z.of_nat n → I i a s → awp (body i a) s (allow E (I (i + 1)))) →
  awp (a_up n lo body a) s (allow E (I (lo + Z.of_nat n))).
Proof.
  revert lo a s. induction n as [|n IH]; intros lo a s H0 Hstep; cbn [a_up].
  - apply awp_ret. cbn. by rewrite Z.add_0_r.
  - apply awp_bind. eapply awp_mono; [apply Hstep; [lia|done]|].
    intros [a'|e] s' Hs'; [|exact Hs'].
    replace (lo + Z.of_nat (Datatypes.S n)) with (lo + 1 + Z.of_nat n) by lia.
    apply IH; [done|]. intros. apply Hstep; [lia|done].
Qed.

Lemma awp_for {A} (I : Z → A → S → Prop) (E : S → Prop) lo hi (body : Z → A → Act S A) a s
    (Q : outcome A → S → Prop) :
  I lo a s →
  (∀ i a s, lo ≤ i < hi → I i a s → awp (body i a) s (allow E (I (i + 1)))) →
  (∀ o s, allow E (I (Z.max lo hi)) o s → Q o s) →
  awp (a_for lo hi body a) s Q.
Proof.
  intros H0 Hstep HQ. eapply awp_mono; [|exact HQ]. unfold a_for.
  replace (Z.max lo hi) with (lo + Z.of_nat (Z.to_nat (hi - lo))) by lia.
  apply awp_up; [done|]. intros. apply Hstep; [lia|done].
Qed.

Lemma awp_ok_for {A} (I : Z → A → S → Prop) lo hi (body : Z → A → Act S A) a s
    (Q : A → S → Prop) :
  I lo a s →
  (∀ i a s, lo ≤ i < hi → I i a s → awp_ok (body i a) s (I (i + 1))) →
  (∀ a s, I (Z.max lo hi) a s → Q a s) →
  awp_ok (a_for lo hi body a) s Q.
Proof.
  intros H0 Hstep HQ. apply (awp_for I (λ _, False)); [done| |].
  - intros i a' s' Hi H'. eapply awp_mono; [by apply Hstep|]. by intros [].
  - intros [a'|e] s'; [apply HQ|done].
Qed.

Lemma awp_loop {A R} (I : A → S → Prop) (μ : A → S → nat)
    (body : A → Act S (ctl A R)) (Q : outcome (loop_exit A R) → S → Prop) fuel a s :
  I a s → (μ a s < fuel)%nat →
  (∀ a s, I a s → awp (body a) s (λ o s',
     match o with
     | Val (Next a') => I a' s' ∧ (μ a' s' < μ a s)%nat
     | Val (Break a') => Q (Val (Fell a')) s'
     | Val (Return r) => Q (Val (Gave r)) s'
     | Fail e => Q (Fail e) s'
     end)) →
  awp (a_loop fuel body a) s Q.
Proof.
  intros Hs Hf Hstep. revert a s Hs Hf.
  induction fuel as [|fuel IH]; intros a s Hs Hf; [lia|]. cbn [a_loop].
  apply awp_bind. eapply awp_mono; [by apply Hstep|].
  intros [[a'|a'|r]|e] s' Hc; [|exact Hc..]. destruct Hc. apply IH; [done|lia].
Qed.

Lemma awp_zoom {T A} (proj : S → T) (set : T → S → S) (m : Act T A) s
    (Q : outcome A → S → Prop) :
  awp m (proj s) (λ o t, Q o (set t s)) → awp (zoom proj set m) s Q.
Proof. unfold awp, zoom. destruct (m (proj s)) as [[o t]| |]; cbn; done. Qed.
End awp.

(** ** Actions that do not fail

    An action that is known to be defined succeeds when no failure is among its
    outcomes. *)
Definition no_fail {S A} (m : Act S A) (s : S) : Prop := ∀ e s', m s ≠ Ok (Fail e, s').

Lemma awp_no_fail {S A} (m : Act S A) s (E : S → Prop) (Q : A → S → Prop) :
  awp m s (allow E Q) → no_fail m s → awp_ok m s Q.
Proof.
  unfold awp_ok, awp. intros H Hn. destruct (m s) as [[[a|e] s']| |] eqn:Em; cbn in *; try done.
  by destruct (Hn e s').
Qed.

Lemma no_fail_bind {S A B} (m : Act S A) (k : A → Act S B) s (P : A → S → Prop) :
  awp_ok m s P → (∀ a s', P a s' → no_fail (k a) s') → no_fail (m ≫= k) s.
Proof.
  unfold awp_ok, awp, no_fail. intros H Hk e s'. unfold mbind, Act_bind.
  destruct (m s) as [[[a|e0] s1]| |] eqn:Em; cbn in *; try done. by apply Hk.
Qed.

Lemma no_fail_pure {S A B} (m : Act S A) (k : A → Act S B) s :
  no_fail m s → (∀ a s', no_fail (k a) s') → no_fail (m ≫= k) s.
Proof.
  unfold no_fail. intros Hm Hk e s'. unfold mbind, Act_bind.
  destruct (m s) as [[[a|e0] s1]| |] eqn:Em; [by apply Hk|by destruct (Hm e0 s1)|done..].
Qed.

Lemma no_fail_lift {S A} (m : Res A) (s : S) : no_fail (lift m) s.
Proof. intros e s'. unfold lift. by destruct m. Qed.
Lemma no_fail_get {S} (s : S) : no_fail get s.
Proof. done. Qed.
Lemma no_fail_put {S} (t s : S) : no_fail (put t) s.
Proof. done. Qed.

(** Rules for the primitive actions. *)
Lemma awp_gets {S A} (f : S → A) s (Q : outcome A → S → Prop) : Q (Val (f s)) s → awp (gets f) s Q.
Proof. done. Qed.
Lemma awp_modify {S} (f : S → S) s (Q : outcome unit → S → Prop) :
  Q (Val ()) (f s) → awp (modify f) s Q.
Proof. done. Qed.
Lemma awp_fail {S A} e s (Q : outcome A → S → Prop) : Q (Fail e) s → awp (fail e) s Q.
Proof. done. Qed.

Lemma awp_ok_get {S} (s : S) (Q : S → S → Prop) : Q s s → awp_ok get s Q.
Proof. done. Qed.
Lemma awp_ok_put {S} (s t : S) (Q : unit → S → Prop) : Q () t → awp_ok (put t) s Q.
Proof. done. Qed.
Lemma awp_get {S} (s : S) (Q : outcome S → S → Prop) : Q (Val s) s → awp get s Q.
Proof. done. Qed.
Lemma awp_put {S} (s t : S) (Q : outcome unit → S → Prop) : Q (Val ()) t → awp (put t) s Q.
Proof. done. Qed.
Lemma awp_fail_if {S} (c : bool) e (s : S) (Q : outcome unit → S → Prop) :
  (c = true → Q (Fail e) s) → (c = false → Q (Val ()) s) → awp (fail_if c e) s Q.
Proof. unfold fail_if. destruct c; cbn; auto. Qed.

Lemma awp_ok_pass {S} (c : bool) e (s : S) (Q : unit → S → Prop) :
  c = false → Q () s → awp_ok (fail_if c e) s Q.
Proof. by intros ->. Qed.

(** One step of a goal [awp m s Q] or [awp_ok m s Q]. *)
Ltac awp_step :=
  match goal with
  | |- awp (mbind _ _) _ _ => apply awp_bind
  | |- awp_ok (mbind _ _) _ _ => apply awp_ok_bind
  | |- awp (mret _) _ _ => apply awp_ret
  | |- awp_ok (mret _) _ _ => cbv beta delta [awp_ok]; apply awp_ret
  | |- awp (gets _) _ _ => apply awp_gets
  | |- awp_ok (gets _) _ _ => cbv beta delta [awp_ok]; apply awp_gets
  | |- awp get _ _ => apply awp_get
  | |- awp_ok get _ _ => apply awp_ok_get
  | |- awp (put _) _ _ => apply awp_put
  | |- awp_ok (put _) _ _ => apply awp_ok_put
  | |- awp (fail_if _ _) _ _ => apply awp_fail_if
  | |- awp (modify _) _ _ => apply awp_modify
  | |- awp_ok (modify _) _ _ => cbv beta delta [awp_ok]; apply awp_modify
  | |- awp (fail _) _ _ => apply awp_fail
  | |- awp (lift _) _ _ => apply awp_lift
  | |- awp_ok (lift _) _ _ => apply awp_ok_lift
  end.
