(* ===== verification/StbBase.v ===== *)
(** * stb_image: context, input, sizes and pixel conversion (facet/gpu/stb_image.h)

    The part of the image library that every decoder shares, in the
    configuration facet_image.c compiles: PNG, JPEG and BMP, no stdio, no SIMD.
    Buffers are lists of bytes; 16-bit samples are two bytes, low byte first,
    as on the targets.  What the library takes from outside is the class
    [StbiEnv]: whether an allocation succeeds, what fresh memory holds, the
    client's read callbacks, and [pow]. *)
From S2P Require Import Prelude F32 F64 StbMonad.

Class StbiEnv := {
  malloc_ok : Z → bool;
  uninit : nat → Z;
  user : Type;
  no_user : user;
  io_read : user → Z → list Z * user;
  io_skip : user → Z → user;
  io_eof : user → bool;
  pow : f64 → f64 → f64
}.

(** ** The switches of the library

    Each is a global and, once [..._thread] has been called, a thread's own. *)
Record switch := { global : Z; local : Z; local_set : bool }.

Definition is_on (f : switch) : bool := negb ((if local_set f then local f else global f) =? 0).
Definition set_global (v : Z) (f : switch) : switch :=
  {| global := v; local := local f; local_set := local_set f |}.
Definition set_thread (v : Z) (f : switch) : switch :=
  {| global := global f; local := v; local_set := true |}.

Class Switches := {
  stbi__vertically_flip_on_load : switch;
  stbi__unpremultiply_on_load : switch;
  stbi__de_iphone_flag : switch
}.

Definition switches_default : Switches :=
  let off := {| global := 0; local := 0; local_set := false |} in
  {| stbi__vertically_flip_on_load := off; stbi__unpremultiply_on_load := off;
     stbi__de_iphone_flag := off |}.

Definition stbi_set_flip_vertically_on_load (v : Z) (w : Switches) : Switches :=
  {| stbi__vertically_flip_on_load := set_global v (@stbi__vertically_flip_on_load w);
     stbi__unpremultiply_on_load := @stbi__unpremultiply_on_load w;
     stbi__de_iphone_flag := @stbi__de_iphone_flag w |}.
Definition stbi_set_flip_vertically_on_load_thread (v : Z) (w : Switches) : Switches :=
  {| stbi__vertically_flip_on_load := set_thread v (@stbi__vertically_flip_on_load w);
     stbi__unpremultiply_on_load := @stbi__unpremultiply_on_load w;
     stbi__de_iphone_flag := @stbi__de_iphone_flag w |}.
Definition stbi_set_unpremultiply_on_load (v : Z) (w : Switches) : Switches :=
  {| stbi__vertically_flip_on_load := @stbi__vertically_flip_on_load w;
     stbi__unpremultiply_on_load := set_global v (@stbi__unpremultiply_on_load w);
     stbi__de_iphone_flag := @stbi__de_iphone_flag w |}.
Definition stbi_set_unpremultiply_on_load_thread (v : Z) (w : Switches) : Switches :=
  {| stbi__vertically_flip_on_load := @stbi__vertically_flip_on_load w;
     stbi__unpremultiply_on_load := set_thread v (@stbi__unpremultiply_on_load w);
     stbi__de_iphone_flag := @stbi__de_iphone_flag w |}.
Definition stbi_convert_iphone_png_to_rgb (v : Z) (w : Switches) : Switches :=
  {| stbi__vertically_flip_on_load := @stbi__vertically_flip_on_load w;
     stbi__unpremultiply_on_load := @stbi__unpremultiply_on_load w;
     stbi__de_iphone_flag := set_global v (@stbi__de_iphone_flag w) |}.
Definition stbi_convert_iphone_png_to_rgb_thread (v : Z) (w : Switches) : Switches :=
  {| stbi__vertically_flip_on_load := @stbi__vertically_flip_on_load w;
     stbi__unpremultiply_on_load := @stbi__unpremultiply_on_load w;
     stbi__de_iphone_flag := set_thread v (@stbi__de_iphone_flag w) |}.

(** A loaded image: the pixels, what the loader stores through [x], [y] and
    [comp], and [ri->bits_per_channel]. *)
Record Image := { pixels : list Z; img_w : Z; img_h : Z; img_comp : Z; img_bits : Z }.

(** [STBI__SCAN_*] *)
Inductive scan_mode := SCAN_load | SCAN_type | SCAN_header.

Definition UINT_MAX : Z := 2 ^ 32 - 1.
Definition SHRT_MIN : Z := - 2 ^ 15.
Definition SHRT_MAX : Z := 2 ^ 15 - 1.
Definition STBI_MAX_DIMENSIONS : Z := 2 ^ 24.

(** [STBI__BYTECAST] *)
Definition bytecast (x : Z) : Z := Z.land x 255.

(** [memcpy(dst + doff, src + soff, n)]. *)
Definition memcpy (dst : list Z) (doff : Z) (src : list Z) (soff n : Z) : Res (list Z) :=
  if (0 <=? n) && (0 <=? doff) && (doff + n <=? zlen dst) && (0 <=? soff) && (soff + n <=? zlen src)
  then Ok (take (Z.to_nat doff) dst ++ take (Z.to_nat n) (drop (Z.to_nat soff) src)
             ++ drop (Z.to_nat (doff + n)) dst)
  else Undef.

(** [memset(dst + doff, v, n)]. *)
Definition memset (dst : list Z) (doff v n : Z) : Res (list Z) :=
  memcpy dst doff (replicate (Z.to_nat n) v) 0 n.

(** 16-bit samples in memory: sample [i] of the buffer. *)
Definition rd16 (l : list Z) (i : Z) : Res Z :=
  lo ← rd l (2 * i); hi ← rd l (2 * i + 1); Ok (lo + 256 * hi).
Definition wr16 (l : list Z) (i v : Z) : Res (list Z) :=
  l ← wr l (2 * i) (v mod 256); wr l (2 * i + 1) (v / 256).

(** ** Size computations *)
Definition stbi__addsizes_valid (a b : Z) : Res bool :=
  if b <? 0 then Ok false else m ← i32 (INT_MAX - b); Ok (a <=? m).

Definition stbi__mul2sizes_valid (a b : Z) : bool :=
  if (a <? 0) || (b <? 0) then false
  else if b =? 0 then true
  else a <=? INT_MAX ÷ b.

(** [c1 && e] with a right operand that may be undefined. *)
Definition and_then (c : bool) (e : Res bool) : Res bool := if c then e else Ok false.

Definition stbi__mad2sizes_valid (a b add : Z) : Res bool :=
  and_then (stbi__mul2sizes_valid a b) (ab ← i32 (a * b); stbi__addsizes_valid ab add).

Definition stbi__mad3sizes_valid (a b c add : Z) : Res bool :=
  and_then (stbi__mul2sizes_valid a b)
    (ab ← i32 (a * b);
     and_then (stbi__mul2sizes_valid ab c)
       (abc ← i32 (ab * c); stbi__addsizes_valid abc add)).

Definition stbi__mad4sizes_valid (a b c d add : Z) : Res bool :=
  and_then (stbi__mul2sizes_valid a b)
    (ab ← i32 (a * b);
     and_then (stbi__mul2sizes_valid ab c)
       (abc ← i32 (ab * c);
        and_then (stbi__mul2sizes_valid abc d)
          (abcd ← i32 (abc * d); stbi__addsizes_valid abcd add))).

(** [(a >= 0) != (b >= 0)] and the rest, on [int]s. *)
Definition stbi__addints_valid (a b : Z) : Res bool :=
  if negb (Bool.eqb (0 <=? a) (0 <=? b)) then Ok true
  else if (a <? 0) && (b <? 0) then m ← i32 (INT_MIN - b); Ok (m <=? a)
  else m ← i32 (INT_MAX - b); Ok (a <=? m).

Definition stbi__mul2shorts_valid (a b : Z) : bool :=
  if (b =? 0) || (b =? -1) then true
  else if Bool.eqb (0 <=? a) (0 <=? b) then a <=? SHRT_MAX ÷ b
  else if b <? 0 then a <=? SHRT_MIN ÷ b
  else SHRT_MIN ÷ b <=? a.

Section base.
Context `{Env : StbiEnv}.

(** ** Allocation *)
Definition stbi__malloc (size : Z) : option (list Z) :=
  if malloc_ok size then Some (malloc_arr uninit size) else None.

Definition stbi__malloc_mad2 (a b add : Z) : Res (option (list Z)) :=
  ok ← stbi__mad2sizes_valid a b add;
  if negb ok then Ok None else
  ab ← i32 (a * b); size ← i32 (ab + add); Ok (stbi__malloc size).

Definition stbi__malloc_mad3 (a b c add : Z) : Res (option (list Z)) :=
  ok ← stbi__mad3sizes_valid a b c add;
  if negb ok then Ok None else
  ab ← i32 (a * b); abc ← i32 (ab * c); size ← i32 (abc + add); Ok (stbi__malloc size).

Definition stbi__malloc_mad4 (a b c d add : Z) : Res (option (list Z)) :=
  ok ← stbi__mad4sizes_valid a b c d add;
  if negb ok then Ok None else
  ab ← i32 (a * b); abc ← i32 (ab * c); abcd ← i32 (abc * d); size ← i32 (abcd + add);
  Ok (stbi__malloc size).

(** [if (p == NULL) return stbi__err("outofmem", ...)] *)
Definition or_outofmem {S} (m : Res (option (list Z))) : Act S (list Z) :=
  p ← lift m;
  match p with Some p => mret p | None => fail "outofmem" end.

(** ** The context

    [io] tells whether [s->io.read] is set.  The buffer pointers are positions
    in [buffer_start] when it is and in [memory], the client's buffer, when it
    is not: they never point anywhere else. *)
Record stbi__context := {
  img_x : Z; img_y : Z; img_n : Z; img_out_n : Z;
  io : bool; io_user_data : user;
  read_from_callbacks : bool; buflen : Z; buffer_start : list Z; callback_already_read : Z;
  memory : list Z;
  img_buffer : Z; img_buffer_end : Z; img_buffer_original : Z; img_buffer_original_end : Z
}.

Definition set_img_buffer (p : Z) (s : stbi__context) : stbi__context :=
  {| img_x := img_x s; img_y := img_y s; img_n := img_n s; img_out_n := img_out_n s;
     io := io s; io_user_data := io_user_data s; read_from_callbacks := read_from_callbacks s;
     buflen := buflen s; buffer_start := buffer_start s;
     callback_already_read := callback_already_read s; memory := memory s;
     img_buffer := p; img_buffer_end := img_buffer_end s;
     img_buffer_original := img_buffer_original s;
     img_buffer_original_end := img_buffer_original_end s |}.

(** The image dimensions and channel counts. *)
Definition set_img (x y n out_n : Z) (s : stbi__context) : stbi__context :=
  {| img_x := x; img_y := y; img_n := n; img_out_n := out_n;
     io := io s; io_user_data := io_user_data s; read_from_callbacks := read_from_callbacks s;
     buflen := buflen s; buffer_start := buffer_start s;
     callback_already_read := callback_already_read s; memory := memory s;
     img_buffer := img_buffer s; img_buffer_end := img_buffer_end s;
     img_buffer_original := img_buffer_original s;
     img_buffer_original_end := img_buffer_original_end s |}.

(** The user's state after a callback, and the window of the buffer. *)
Definition set_io (u : user) (cb : bool) (buf : list Z) (already pos pend : Z) (s : stbi__context)
  : stbi__context :=
  {| img_x := img_x s; img_y := img_y s; img_n := img_n s; img_out_n := img_out_n s;
     io := io s; io_user_data := u; read_from_callbacks := cb; buflen := buflen s;
     buffer_start := buf; callback_already_read := already; memory := memory s;
     img_buffer := pos; img_buffer_end := pend; img_buffer_original := img_buffer_original s;
     img_buffer_original_end := img_buffer_original_end s |}.

(** The object the buffer pointers point into. *)
Definition pointed (s : stbi__context) : list Z := if io s then buffer_start s else memory s.

Definition stbi__start_mem (buffer : list Z) (len : Z) : stbi__context :=
  {| img_x := 0; img_y := 0; img_n := 0; img_out_n := 0; io := false; io_user_data := no_user;
     read_from_callbacks := false; buflen := 0; buffer_start := malloc_arr uninit 128;
     callback_already_read := 0; memory := buffer;
     img_buffer := 0; img_buffer_end := len; img_buffer_original := 0;
     img_buffer_original_end := len |}.

Definition stbi__refill_buffer (s : stbi__context) : Res stbi__context :=
  let '(data, u) := io_read (io_user_data s) (buflen s) in
  let n := zlen data in
  already ← i32 (callback_already_read s + (img_buffer s - img_buffer_original s));
  buf ← memcpy (buffer_start s) 0 data 0 n;
  if n =? 0 then
    buf ← wr buf 0 0;
    Ok (set_io u false buf already 0 1 s)
  else Ok (set_io u (read_from_callbacks s) buf already 0 n s).

Definition stbi__start_callbacks (u : user) : Res stbi__context :=
  s ← stbi__refill_buffer
        {| img_x := 0; img_y := 0; img_n := 0; img_out_n := 0; io := true; io_user_data := u;
           read_from_callbacks := true; buflen := 128; buffer_start := malloc_arr uninit 128;
           callback_already_read := 0; memory := [];
           img_buffer := 0; img_buffer_end := 0; img_buffer_original := 0;
           img_buffer_original_end := 0 |};
  Ok {| img_x := img_x s; img_y := img_y s; img_n := img_n s; img_out_n := img_out_n s;
        io := io s; io_user_data := io_user_data s; read_from_callbacks := read_from_callbacks s;
        buflen := buflen s; buffer_start := buffer_start s;
        callback_already_read := callback_already_read s; memory := memory s;
        img_buffer := img_buffer s; img_buffer_end := img_buffer_end s;
        img_buffer_original := img_buffer_original s;
        img_buffer_original_end := img_buffer_end s |}.

Definition stbi__rewind : Act stbi__context unit := modify (λ s,
  set_io (io_user_data s) (read_from_callbacks s) (buffer_start s) (callback_already_read s)
         (img_buffer_original s) (img_buffer_original_end s) s).

(** [stbi__rewind(s); return 0;] *)
Definition refuse {A} : Act stbi__context A := stbi__rewind;; fail "".
Definition refuse_if (c : bool) : Act stbi__context unit := if c then refuse else mret ().

(** ** Reading *)

(** [*s->img_buffer++] *)
Definition next_byte : Act stbi__context Z :=
  s ← get;
  b ← lift (rd (pointed s) (img_buffer s));
  put (set_img_buffer (img_buffer s + 1) s);; mret b.

Definition stbi__get8 : Act stbi__context Z :=
  s ← get;
  if img_buffer s <? img_buffer_end s then next_byte
  else if read_from_callbacks s then
    s' ← lift (stbi__refill_buffer s);
    put s';; next_byte
  else mret 0.

Definition stbi__at_eof : Act stbi__context bool :=
  s ← get;
  let at_end := img_buffer_end s <=? img_buffer s in
  if io s then
    if negb (io_eof (io_user_data s)) then mret false
    else if negb (read_from_callbacks s) then mret true
    else mret at_end
  else mret at_end.

Definition stbi__skip (n : Z) : Act stbi__context unit :=
  s ← get;
  if n =? 0 then mret ()
  else if n <? 0 then put (set_img_buffer (img_buffer_end s) s)
  else
    let blen := img_buffer_end s - img_buffer s in
    if io s && (blen <? n) then
      put (set_io (io_skip (io_user_data s) (n - blen)) (read_from_callbacks s) (buffer_start s)
             (callback_already_read s) (img_buffer_end s) (img_buffer_end s) s)
    else put (set_img_buffer (img_buffer s + n) s).

(** [n] bytes into [buffer] at [off]; the result tells whether they were there. *)
Definition stbi__getn (buffer : list Z) (off n : Z) : Act stbi__context (list Z * bool) :=
  s ← get;
  let blen := img_buffer_end s - img_buffer s in
  if io s && (blen <? n) then
    buffer ← lift (memcpy buffer off (pointed s) (img_buffer s) blen);
    let '(data, u) := io_read (io_user_data s) (n - blen) in
    buffer ← lift (memcpy buffer (off + blen) data 0 (zlen data));
    put (set_io u (read_from_callbacks s) (buffer_start s) (callback_already_read s)
           (img_buffer_end s) (img_buffer_end s) s);;
    mret (buffer, zlen data =? n - blen)
  else if img_buffer s + n <=? img_buffer_end s then
    buffer ← lift (memcpy buffer off (pointed s) (img_buffer s) n);
    put (set_img_buffer (img_buffer s + n) s);;
    mret (buffer, true)
  else mret (buffer, false).

Definition stbi__get16be : Act stbi__context Z :=
  z ← stbi__get8; b ← stbi__get8; mret (Z.shiftl z 8 + b).

Definition stbi__get32be : Act stbi__context Z :=
  z ← stbi__get16be; b ← stbi__get16be; mret (u32 (u32 (Z.shiftl z 16) + b)).

Definition stbi__get16le : Act stbi__context Z :=
  z ← stbi__get8; b ← stbi__get8; mret (z + Z.shiftl b 8).

Definition stbi__get32le : Act stbi__context Z :=
  z ← stbi__get16le; b ← stbi__get16le; mret (u32 (z + u32 (Z.shiftl b 16))).

(** ** Pixel formats *)
Definition stbi__compute_y (r g b : Z) : Z := u8 (Z.shiftr (r * 77 + g * 150 + 29 * b) 8).

Definition stbi__compute_y_16 (r g b : Z) : Z :=
  Z.shiftr (r * 77 + g * 150 + 29 * b) 8 mod 2 ^ 16.

(** One arm of the conversion switch: the destination samples of a source
    pixel, [None] for a pair that has no arm.  [full] is the opaque alpha
    (255 or 0xffff) and [luma] the matching [stbi__compute_y]. *)
Definition convert_pixel (full : Z) (luma : Z → Z → Z → Z) (img_n req_comp : Z) (src : list Z)
  : option (list Z) :=
  match img_n, req_comp, src with
  | 1, 2, [g] => Some [g; full]
  | 1, 3, [g] => Some [g; g; g]
  | 1, 4, [g] => Some [g; g; g; full]
  | 2, 1, [g; _] => Some [g]
  | 2, 3, [g; _] => Some [g; g; g]
  | 2, 4, [g; a] => Some [g; g; g; a]
  | 3, 4, [r; g; b] => Some [r; g; b; full]
  | 3, 1, [r; g; b] => Some [luma r g b]
  | 3, 2, [r; g; b] => Some [luma r g b; full]
  | 4, 1, [r; g; b; _] => Some [luma r g b]
  | 4, 2, [r; g; b; a] => Some [luma r g b; a]
  | 4, 3, [r; g; b; _] => Some [r; g; b]
  | _, _, _ => None
  end.

(** [STBI__COMBO(img_n, req_comp)] is one of the cases. *)
Definition has_arm (img_n req_comp : Z) : bool :=
  match convert_pixel 0 (λ _ _ _, 0) img_n req_comp (replicate (Z.to_nat img_n) 0) with
  | Some _ => true
  | None => false
  end.

(** The [n] samples from [off] on, and their writing. *)
Definition rd_samples (read : list Z → Z → Res Z) (l : list Z) (off n : Z) : Res (list Z) :=
  for_range 0 n (λ k acc, v ← read l (off + k); Ok (acc ++ [v])) [].

Definition wr_samples {A} (write : list A → Z → A → Res (list A)) (l : list A) (off : Z)
    (vs : list A) : Res (list A) :=
  fst <$> foldl (λ m v, '(l, i) ← m; l ← write l i v; Ok (l, i + 1)) (Ok (l, off)) vs.

(** The scanline loops of both conversions.  [x] and [y] are [unsigned int]:
    the offsets of a row are computed modulo [2^32], the rows are counted up to
    [(int) y], and the pixels of a row with [int i = x-1] down to 0.  Within a
    row the pointers advance, so [i] here is the number of pixels before. *)
Definition convert_rows (read : list Z → Z → Res Z) (write : list Z → Z → Z → Res (list Z))
    (full : Z) (luma : Z → Z → Z → Z)
    (data : list Z) (img_n req_comp x y : Z) (good : list Z) : Res (option (list Z)) :=
  r ← for_ctl 0 (sx 32 y) (λ j good,
    let src := u32 (u32 (j * x) * img_n) in
    let dest := u32 (u32 (j * x) * req_comp) in
    if negb (has_arm img_n req_comp) then Ok (Return ()) else
    good ← for_range 0 (sx 32 (u32 (x - 1)) + 1) (λ i good,
      px ← rd_samples read data (src + i * img_n) img_n;
      match convert_pixel full luma img_n req_comp px with
      | Some out => wr_samples write good (dest + i * req_comp) out
      | None => Undef
      end) good;
    Ok (Next good)) good;
  match r with Fell good => Ok (Some good) | Gave _ => Ok None end.

Definition stbi__convert_format {S} (data : list Z) (img_n req_comp x y : Z) : Act S (list Z) :=
  if req_comp =? img_n then mret data else
  if negb ((1 <=? req_comp) && (req_comp <=? 4)) then lift Undef else
  good ← or_outofmem (stbi__malloc_mad3 req_comp (sx 32 x) (sx 32 y) 0);
  r ← lift (convert_rows rd wr 255 stbi__compute_y data img_n req_comp x y good);
  match r with Some good => mret good | None => fail "unsupported" end.

(** The size of the 16-bit allocation is computed in [unsigned int]. *)
Definition stbi__convert_format16 {S} (data : list Z) (img_n req_comp x y : Z)
  : Act S (list Z) :=
  if req_comp =? img_n then mret data else
  if negb ((1 <=? req_comp) && (req_comp <=? 4)) then lift Undef else
  good ← or_outofmem (Ok (stbi__malloc (u32 (req_comp * x * y * 2))));
  r ← lift (convert_rows rd16 wr16 65535 stbi__compute_y_16 data img_n req_comp x y good);
  match r with Some good => mret good | None => fail "unsupported" end.

Definition stbi__convert_16_to_8 {S} (orig : list Z) (w h channels : Z) : Act S (list Z) :=
  wh ← lift (i32 (w * h));
  img_len ← lift (i32 (wh * channels));
  reduced ← or_outofmem (Ok (stbi__malloc img_len));
  lift (for_range 0 img_len (λ i reduced,
    v ← rd16 orig i; wr reduced i (u8 (Z.land (Z.shiftr v 8) 255))) reduced).

Definition stbi__convert_8_to_16 {S} (orig : list Z) (w h channels : Z) : Act S (list Z) :=
  wh ← lift (i32 (w * h));
  img_len ← lift (i32 (wh * channels));
  size ← lift (i32 (img_len * 2));
  enlarged ← or_outofmem (Ok (stbi__malloc size));
  lift (for_range 0 img_len (λ i enlarged,
    v ← rd orig i; wr16 enlarged i ((Z.shiftl v 8 + v) mod 2 ^ 16)) enlarged).

(** One pass of the inner [while]: a chunk of both rows is exchanged through
    [temp]. *)
Definition swap_chunk (s : list Z * list Z * Z * Z * Z)
  : Res (ctl (list Z * list Z * Z * Z * Z) Empty_set) :=
  let '(bytes, temp, row0, row1, bytes_left) := s in
  if bytes_left =? 0 then Ok (Break s) else
  let bytes_copy := if bytes_left <? 2048 then bytes_left else 2048 in
  temp ← memcpy temp 0 bytes row0 bytes_copy;
  bytes ← memcpy bytes row0 bytes row1 bytes_copy;
  bytes ← memcpy bytes row1 temp 0 bytes_copy;
  Ok (Next (bytes, temp, row0 + bytes_copy, row1 + bytes_copy, bytes_left - bytes_copy)).

Definition stbi__vertical_flip (bytes : list Z) (w h bytes_per_pixel : Z) : Res (list Z) :=
  let bytes_per_row := u64 (u64 w * u64 bytes_per_pixel) in
  fst <$> for_range 0 (Z.shiftr h 1) (λ row '(bytes, temp),
    '(bytes, temp, _, _, _) ← fell <$> loop (S (Z.to_nat bytes_per_row)) swap_chunk
        (bytes, temp, row * bytes_per_row, (h - row - 1) * bytes_per_row, bytes_per_row);
    Ok (bytes, temp)) (bytes, malloc_arr uninit 2048).

(** ** Linear floats

    [stbi__l2h_gamma] and [stbi__l2h_scale] are arguments. *)
Definition stbi__ldr_to_hdr {S} (l2h_gamma l2h_scale : f32) (data : list Z) (x y comp : Z)
  : Act S (list f32) :=
  _ ← or_outofmem (stbi__malloc_mad4 x y comp 4 0);
  xy ← lift (i32 (x * y));
  let n := if Z.testbit comp 0 then comp else comp - 1 in
  let output := replicate (Z.to_nat (xy * comp)) (fz 0) in
  output ← lift (for_range 0 xy (λ i output,
    for_range 0 n (λ k output,
      v ← rd data (i * comp + k);
      wr output (i * comp + k)
         (d2f (dmul (pow (f2d (fdiv (fz v) (fz 255))) (f2d l2h_gamma)) (f2d l2h_scale)))) output)
    output);
  if n <? comp then
    lift (for_range 0 xy (λ i output,
      v ← rd data (i * comp + n);
      wr output (i * comp + n) (fdiv (fz v) (fz 255))) output)
  else mret output.
End base.
