(* ===== verification/StbBaseSpec.v ===== *)
(** * stb_image: what the shared core promises

    The size checks decide exactly whether a product fits an [int], the
    vertical flip reverses the order of the rows, the channel conversion is the
    one through RGBA, and the 16-bit conversion writes outside its block when
    the size of the block wraps around. *)
From S2P Require Import Prelude F64 StbMonad StbBase.

(** ** Blocks of bytes *)
Section memcpy.
Implicit Types (dst src : list Z).

(** What [memcpy] leaves in every cell. *)
Lemma memcpy_wp dst doff src soff n (Q : list Z → Prop) :
  0 ≤ n → 0 ≤ doff → doff + n ≤ zlen dst → 0 ≤ soff → soff + n ≤ zlen src →
  (∀ l, length l = length dst →
     (∀ i, 0 ≤ i → l.[i] = if decide (doff ≤ i < doff + n) then src.[soff + (i - doff)]
                           else dst.[i]) → Q l) →
  wp (memcpy dst doff src soff n) Q.
Proof.
  intros Hn Hd Hdn Hs Hsn HQ. unfold memcpy.
  rewrite (proj2 (Z.leb_le 0 n)), (proj2 (Z.leb_le 0 doff)), (proj2 (Z.leb_le (doff + n) _)),
    (proj2 (Z.leb_le 0 soff)), (proj2 (Z.leb_le (soff + n) _)) by lia.
  cbn [andb wp]. apply HQ.
  - rewrite !length_app, !length_take, !length_drop. lia.
  - intros i Hi. case_decide as Hr.
    + rewrite lookup_total_app_r by (rewrite length_take; lia).
      rewrite length_take, lookup_total_app_l by (rewrite length_take, length_drop; lia).
      rewrite list_lookup_total_alt, lookup_take_lt, lookup_drop by lia.
      rewrite <- list_lookup_total_alt. f_equal. lia.
    + destruct (decide (i < doff)).
      * rewrite lookup_total_app_l by (rewrite length_take; lia).
        rewrite !list_lookup_total_alt, lookup_take_lt by lia. done.
      * rewrite lookup_total_app_r by (rewrite length_take; lia).
        rewrite lookup_total_app_r by (rewrite !length_take, length_drop; lia).
        rewrite !length_take, length_drop, !list_lookup_total_alt, lookup_drop. do 2 f_equal. lia.
Qed.

Lemma memcpy_ok dst doff src soff n :
  0 ≤ n → 0 ≤ doff → doff + n ≤ zlen dst → 0 ≤ soff → soff + n ≤ zlen src →
  ∃ l, memcpy dst doff src soff n = Ok l ∧ length l = length dst ∧
    ∀ i, 0 ≤ i → l.[i] = if decide (doff ≤ i < doff + n) then src.[soff + (i - doff)] else dst.[i].
Proof.
  intros. apply (wp_elim _ (λ l, _ ∧ ∀ i, _)). by apply memcpy_wp.
Qed.

(** A copy over the whole of the tail. *)
Lemma memset_wp dst doff v n (Q : list Z → Prop) :
  0 ≤ n → 0 ≤ doff → doff + n ≤ zlen dst →
  (∀ l, length l = length dst →
     (∀ i, 0 ≤ i → l.[i] = if decide (doff ≤ i < doff + n) then v else dst.[i]) → Q l) →
  wp (memset dst doff v n) Q.
Proof.
  intros. unfold memset. apply memcpy_wp; try (rewrite ?length_replicate; lia).
  intros l Hl Hg. apply H2; [done|]. intros i Hi. rewrite Hg by done.
  case_decide; [|done]. rewrite lookup_total_replicate_2; [done|lia].
Qed.
End memcpy.

(** ** Sizes *)
Lemma quot_le a b : 0 ≤ a → 0 < b → a ≤ INT_MAX ÷ b ↔ a * b ≤ INT_MAX.
Proof.
  intros Ha Hb. rewrite Z.quot_div_nonneg by (c_unfold; lia).
  rewrite (Z.mul_comm a). split; intros.
  - pose proof (Z.mul_div_le INT_MAX b Hb). nia.
  - by apply Z.div_le_lower_bound.
Qed.

Lemma mul2sizes_valid_spec a b :
  stbi__mul2sizes_valid a b = bool_decide (0 ≤ a ∧ 0 ≤ b ∧ a * b ≤ INT_MAX).
Proof.
  unfold stbi__mul2sizes_valid.
  destruct (Z.ltb_spec a 0), (Z.ltb_spec b 0); cbn [orb];
    [rewrite bool_decide_eq_false_2 by lia; done..|].
  destruct (Z.eqb_spec b 0) as [->|]; [rewrite bool_decide_eq_true_2; [done|c_unfold; lia]|].
  pose proof (quot_le a b ltac:(lia) ltac:(lia)).
  destruct (Z.leb_spec a (INT_MAX ÷ b)); case_bool_decide; lia || done.
Qed.

Lemma addsizes_valid_spec a b : a ≤ INT_MAX → b ≤ INT_MAX →
  stbi__addsizes_valid a b = Ok (bool_decide (0 ≤ b ∧ a + b ≤ INT_MAX)).
Proof.
  intros Ha Hb. unfold stbi__addsizes_valid. destruct (Z.ltb_spec b 0).
  { rewrite bool_decide_eq_false_2 by lia. done. }
  rewrite i32_ok by (c_unfold; lia). cbn. f_equal.
  destruct (Z.leb_spec a (INT_MAX - b)); case_bool_decide; lia || done.
Qed.

(** [mad_fits fs add]: every partial product of the factors and the sum fit. *)
Fixpoint mad_fits (acc : Z) (fs : list Z) (add : Z) : Prop :=
  match fs with
  | [] => 0 ≤ add ∧ acc + add ≤ INT_MAX
  | f :: fs => 0 ≤ f ∧ acc * f ≤ INT_MAX ∧ mad_fits (acc * f) fs add
  end.

#[export] Instance mad_fits_dec acc fs add : Decision (mad_fits acc fs add).
Proof. revert acc. induction fs as [|f fs IH]; intros acc; cbn; apply _. Defined.

(** One factor of the chain of checks. *)
Lemma and_then_mul a b (e : Z → Res bool) (P : Prop) `{Hdec : Decision P} :
  0 ≤ a ≤ INT_MAX → b ≤ INT_MAX →
  (0 ≤ b → a * b ≤ INT_MAX → e (a * b) = Ok (bool_decide P)) →
  and_then (stbi__mul2sizes_valid a b) (ab ← i32 (a * b); e ab) =
    Ok (bool_decide (0 ≤ b ∧ a * b ≤ INT_MAX ∧ P)).
Proof.
  intros Ha Hb He. rewrite mul2sizes_valid_spec. unfold and_then.
  destruct (decide (0 ≤ b ∧ a * b ≤ INT_MAX)) as [[Hb0 Hab]|Hno].
  - rewrite bool_decide_eq_true_2 by lia. rewrite i32_ok by (c_unfold; nia). cbn.
    rewrite He by done. f_equal. apply bool_decide_ext. tauto.
  - rewrite (bool_decide_eq_false_2 (0 ≤ a ∧ _)) by lia.
    rewrite bool_decide_eq_false_2 by tauto. done.
Qed.

Section sizes.
Variables a b c d add : Z.
Hypotheses (Ha : INT_MIN ≤ a ≤ INT_MAX) (Hb : b ≤ INT_MAX) (Hc : c ≤ INT_MAX) (Hd : d ≤ INT_MAX)
  (Hadd : add ≤ INT_MAX).

Lemma mul2_negative x e : a < 0 → and_then (stbi__mul2sizes_valid a x) e = Ok false.
Proof using Type.
  intros Hn. rewrite mul2sizes_valid_spec, bool_decide_eq_false_2 by lia. done.
Qed.

Lemma mad2sizes_valid_spec :
  stbi__mad2sizes_valid a b add = Ok (bool_decide (mad_fits 1 [a; b] add)).
Proof using Ha Hb Hadd.
  unfold stbi__mad2sizes_valid. destruct (decide (0 ≤ a)) as [Hp|Hn].
  - rewrite (and_then_mul a b (λ ab, stbi__addsizes_valid ab add) (0 ≤ add ∧ a * b + add ≤ INT_MAX)).
    + f_equal. apply bool_decide_ext. cbn. rewrite !Z.mul_1_l. lia.
    + lia.
    + lia.
    + intros. apply addsizes_valid_spec; done.
  - rewrite mul2_negative by lia. rewrite bool_decide_eq_false_2; [done|cbn; lia].
Qed.

Lemma mad3sizes_valid_spec :
  stbi__mad3sizes_valid a b c add = Ok (bool_decide (mad_fits 1 [a; b; c] add)).
Proof using Ha Hb Hc Hadd.
  unfold stbi__mad3sizes_valid. destruct (decide (0 ≤ a)) as [Hp|Hn].
  - rewrite (and_then_mul a b
      (λ ab, and_then (stbi__mul2sizes_valid ab c) (abc ← i32 (ab * c); stbi__addsizes_valid abc add))
      (mad_fits (a * b) [c] add)).
    + f_equal. apply bool_decide_ext. cbn. rewrite !Z.mul_1_l. lia.
    + lia.
    + lia.
    + intros. rewrite (and_then_mul (a * b) c (λ abc, stbi__addsizes_valid abc add)
        (0 ≤ add ∧ a * b * c + add ≤ INT_MAX)); [done|nia|lia|].
      intros. apply addsizes_valid_spec; done.
  - rewrite mul2_negative by lia. rewrite bool_decide_eq_false_2; [done|cbn; lia].
Qed.

Lemma mad4sizes_valid_spec :
  stbi__mad4sizes_valid a b c d add = Ok (bool_decide (mad_fits 1 [a; b; c; d] add)).
Proof using Ha Hb Hc Hd Hadd.
  unfold stbi__mad4sizes_valid. destruct (decide (0 ≤ a)) as [Hp|Hn].
  - rewrite (and_then_mul a b
      (λ ab, and_then (stbi__mul2sizes_valid ab c) (abc ← i32 (ab * c);
         and_then (stbi__mul2sizes_valid abc d)
           (abcd ← i32 (abc * d); stbi__addsizes_valid abcd add)))
      (mad_fits (a * b) [c; d] add)).
    + f_equal. apply bool_decide_ext. cbn. rewrite !Z.mul_1_l. lia.
    + lia.
    + lia.
    + intros. rewrite (and_then_mul (a * b) c
        (λ abc, and_then (stbi__mul2sizes_valid abc d)
           (abcd ← i32 (abc * d); stbi__addsizes_valid abcd add))
        (mad_fits (a * b * c) [d] add)); [done|nia|lia|].
      intros. rewrite (and_then_mul (a * b * c) d (λ abcd, stbi__addsizes_valid abcd add)
        (0 ≤ add ∧ a * b * c * d + add ≤ INT_MAX)); [done|nia|lia|].
      intros. apply addsizes_valid_spec; done.
  - rewrite mul2_negative by lia. rewrite bool_decide_eq_false_2; [done|cbn; lia].
Qed.
End sizes.

(** [stbi__addints_valid] and [stbi__mul2shorts_valid] *)
Lemma addints_valid_spec a b : INT_MIN ≤ a ≤ INT_MAX → INT_MIN ≤ b ≤ INT_MAX →
  stbi__addints_valid a b = Ok (is_i32 (a + b)).
Proof.
  intros Ha Hb. unfold stbi__addints_valid, is_i32.
  destruct (Z.leb_spec 0 a), (Z.leb_spec 0 b); cbn [Bool.eqb negb].
  2,3: by rewrite (proj2 (Z.leb_le _ _)), (proj2 (Z.leb_le _ _)) by lia.
  - rewrite (proj2 (Z.ltb_ge a 0)) by lia. cbn [andb]. rewrite i32_ok by (c_unfold; lia). cbn.
    f_equal. destruct (Z.leb_spec a (INT_MAX - b)), (Z.leb_spec INT_MIN (a + b)),
      (Z.leb_spec (a + b) INT_MAX); c_unfold; done || lia.
  - rewrite (proj2 (Z.ltb_lt a 0)), (proj2 (Z.ltb_lt b 0)) by lia. cbn [andb].
    rewrite i32_ok by (c_unfold; lia). cbn.
    f_equal. destruct (Z.leb_spec (INT_MIN - b) a), (Z.leb_spec INT_MIN (a + b)),
      (Z.leb_spec (a + b) INT_MAX); c_unfold; done || lia.
Qed.

Definition fits_short (z : Z) : bool := (SHRT_MIN <=? z) && (z <=? SHRT_MAX).

(** The multipliers of the JPEG decoder are not negative; there the test is
    exact. *)
Lemma mul2shorts_valid_spec a b : 0 ≤ b → stbi__mul2shorts_valid a b = fits_short (a * b).
Proof.
  intros Hb. unfold stbi__mul2shorts_valid, fits_short.
  destruct (Z.eqb_spec b 0) as [->|Hb0]; [by rewrite Z.mul_0_r|].
  rewrite (proj2 (Z.eqb_neq b (-1))) by lia. cbn [orb].
  rewrite (proj2 (Z.leb_le 0 b)), (proj2 (Z.ltb_ge b 0)) by lia.
  destruct (Z.leb_spec 0 a) as [Ha|Ha]; cbn [Bool.eqb].
  - rewrite (proj2 (Z.leb_le SHRT_MIN _)) by (unfold SHRT_MIN; nia). cbn [andb].
    assert (a ≤ SHRT_MAX ÷ b ↔ a * b ≤ SHRT_MAX).
    { rewrite Z.quot_div_nonneg by (unfold SHRT_MAX; lia). split; intros.
      - pose proof (Z.mul_div_le SHRT_MAX b ltac:(lia)). nia.
      - apply Z.div_le_lower_bound; lia. }
    destruct (Z.leb_spec a (SHRT_MAX ÷ b)), (Z.leb_spec (a * b) SHRT_MAX); lia || done.
  - rewrite (proj2 (Z.leb_le (a * b) _)), andb_true_r by (unfold SHRT_MAX; nia).
    assert (SHRT_MIN ÷ b ≤ a ↔ SHRT_MIN ≤ a * b).
    { unfold SHRT_MIN. rewrite Z.quot_opp_l, Z.quot_div_nonneg by lia. split; intros.
      - pose proof (Z.mul_div_le (2 ^ 15) b ltac:(lia)). nia.
      - enough (- a ≤ 2 ^ 15 / b) by lia. apply Z.div_le_lower_bound; lia. }
    destruct (Z.leb_spec (SHRT_MIN ÷ b) a), (Z.leb_spec SHRT_MIN (a * b)); lia || done.
Qed.

(** Of two negative factors it rejects products that fit and accepts products
    that do not. *)
Lemma mul2shorts_valid_negative :
  stbi__mul2shorts_valid (-1) (-2) = false ∧ fits_short ((-1) * (-2)) = true ∧
  stbi__mul2shorts_valid (-20000) (-2) = true ∧ fits_short ((-20000) * (-2)) = false.
Proof. done. Qed.

(** ** Allocation *)
Section malloc.
Context `{Env : StbiEnv}.

(** What an allocation of [size] bytes gives when the size test says [ok]. *)
Definition block (ok : bool) (size : Z) : option (list Z) :=
  if ok then stbi__malloc size else None.

Lemma malloc_mad_eq a b c d add :
  INT_MIN ≤ a ≤ INT_MAX → INT_MIN ≤ b ≤ INT_MAX → INT_MIN ≤ c ≤ INT_MAX →
  INT_MIN ≤ d ≤ INT_MAX → INT_MIN ≤ add ≤ INT_MAX →
  stbi__malloc_mad2 a b add = Ok (block (bool_decide (mad_fits 1 [a; b] add)) (a * b + add)) ∧
  stbi__malloc_mad3 a b c add =
    Ok (block (bool_decide (mad_fits 1 [a; b; c] add)) (a * b * c + add)) ∧
  stbi__malloc_mad4 a b c d add =
    Ok (block (bool_decide (mad_fits 1 [a; b; c; d] add)) (a * b * c * d + add)).
Proof.
  intros Ha Hb Hc Hd Hadd.
  unfold stbi__malloc_mad2, stbi__malloc_mad3, stbi__malloc_mad4.
  rewrite mad2sizes_valid_spec, mad3sizes_valid_spec, mad4sizes_valid_spec by lia. cbn [mbind Res_bind].
  repeat split; case_bool_decide as Hf; cbn [negb]; try done;
    cbn [mad_fits] in Hf; rewrite !Z.mul_1_l in Hf;
    destruct Hf as (? & ? & Hf); repeat (rewrite i32_ok by (c_unfold; nia); cbn [mbind Res_bind]); done.
Qed.

(** C22. The size checks [stbi__mad2sizes_valid], [stbi__mad3sizes_valid] and
    [stbi__mad4sizes_valid] are exact: for any [int] arguments they are true
    precisely when no factor is negative and every partial product and the
    total fit an [int]; no intermediate computation overflows, and the
    allocators built on them ask for exactly the product plus the addend, or
    fail. *)
Theorem malloc_mad_exact a b c d add :
  INT_MIN ≤ a ≤ INT_MAX → INT_MIN ≤ b ≤ INT_MAX → INT_MIN ≤ c ≤ INT_MAX →
  INT_MIN ≤ d ≤ INT_MAX → INT_MIN ≤ add ≤ INT_MAX →
  stbi__malloc_mad2 a b add = Ok (block (bool_decide (mad_fits 1 [a; b] add)) (a * b + add)) ∧
  stbi__malloc_mad3 a b c add =
    Ok (block (bool_decide (mad_fits 1 [a; b; c] add)) (a * b * c + add)) ∧
  stbi__malloc_mad4 a b c d add =
    Ok (block (bool_decide (mad_fits 1 [a; b; c; d] add)) (a * b * c * d + add)).
Proof. apply malloc_mad_eq. Qed.
End malloc.

(** ** The vertical flip *)
Section flip.
Context `{Env : StbiEnv}.

(** [b] is [b0] with the first [d] cells from [r0] and from [r1] exchanged. *)
Definition swapped (b0 : list Z) (r0 r1 d : Z) (b : list Z) : Prop :=
  length b = length b0 ∧ ∀ i, 0 ≤ i →
    b.[i] = if decide (r0 ≤ i < r0 + d) then b0.[r1 + (i - r0)]
            else if decide (r1 ≤ i < r1 + d) then b0.[r0 + (i - r1)] else b0.[i].

Lemma swap_chunk_step b0 r0 r1 n b temp d :
  0 ≤ r0 → r0 + n ≤ r1 → r1 + n ≤ zlen b0 → length temp = 2048%nat → 0 ≤ d < n →
  swapped b0 r0 r1 d b →
  wp (swap_chunk (b, temp, r0 + d, r1 + d, n - d)) (λ c, ∃ b' temp' d', d < d' ≤ n ∧
    c = Next (b', temp', r0 + d', r1 + d', n - d') ∧ length temp' = 2048%nat ∧
    swapped b0 r0 r1 d' b').
Proof.
  intros Hr0 Hr1 Hr2 Ht Hd [Hl Hs]. unfold swap_chunk.
  rewrite (proj2 (Z.eqb_neq _ _)) by lia.
  set (k := if n - d <? 2048 then n - d else 2048).
  assert (0 < k ≤ n - d ∧ k ≤ 2048) as Hk
    by (unfold k; destruct (Z.ltb_spec (n - d) 2048); lia). clearbody k.
  apply wp_bind, memcpy_wp; [lia..|]. intros t1 Ht1 Hg1.
  apply wp_bind, memcpy_wp; [lia..|]. intros b1 Hb1 Hg2.
  apply wp_bind, memcpy_wp; [lia..|]. intros b2 Hb2 Hg3.
  cbn [wp]. exists b2, t1, (d + k).
  replace (r0 + d + k) with (r0 + (d + k)) by lia.
  replace (r1 + d + k) with (r1 + (d + k)) by lia.
  replace (n - d - k) with (n - (d + k)) by lia.
  split; [lia|]. split; [done|]. split; [lia|]. split; [lia|].
  intros i Hi. rewrite Hg3 by done. case_decide.
  - rewrite Hg1 by lia. rewrite decide_True by lia. rewrite Hs by lia.
    rewrite !decide_False by lia. rewrite decide_True by lia. f_equal. lia.
  - rewrite Hg2 by done. case_decide.
    + rewrite Hs by lia. rewrite !decide_False by lia. rewrite decide_True by lia. f_equal. lia.
    + rewrite Hs by lia. repeat case_decide; done || lia.
Qed.

Lemma swap_rows_wp b0 r0 r1 n temp (Q : loop_exit _ Empty_set → Prop) :
  0 ≤ n → 0 ≤ r0 → r0 + n ≤ r1 → r1 + n ≤ zlen b0 → length temp = 2048%nat →
  (∀ b temp', length temp' = 2048%nat → swapped b0 r0 r1 n b →
     Q (Fell (b, temp', r0 + n, r1 + n, 0))) →
  wp (loop (S (Z.to_nat n)) swap_chunk (b0, temp, r0, r1, n)) Q.
Proof.
  intros Hn Hr0 Hr1 Hr2 Ht HQ.
  apply (loop_wp (λ '(b, temp, p0, p1, rest), ∃ d, 0 ≤ d ≤ n ∧ p0 = r0 + d ∧ p1 = r1 + d ∧
      rest = n - d ∧ length temp = 2048%nat ∧ swapped b0 r0 r1 d b)
    (λ '(_, _, _, _, rest), Z.to_nat rest)).
  - exists 0. do 3 (split; [lia|]). split; [lia|]. split; [done|]. split; [done|].
    intros i Hi. rewrite !decide_False by lia. done.
  - lia.
  - intros [[[[b t] p0] p1] rest] (d & Hd & -> & -> & -> & Ht' & Hs).
    destruct (decide (d = n)) as [->|].
    + unfold swap_chunk. rewrite Z.sub_diag. cbn [Z.eqb wp]. by apply HQ.
    + eapply wp_mono; [by apply (swap_chunk_step b0 r0 r1 n b t d); try done; lia|].
      intros c (b' & t' & d' & Hd' & -> & Ht'' & Hs'). cbn. split; [|lia].
      exists d'. repeat (split; [done || lia|]). done.
Qed.

(** Rows above [row] and their mirror images are exchanged. *)
Definition flipped (b0 : list Z) (h n row : Z) (b : list Z) : Prop :=
  length b = length b0 ∧ ∀ j k, 0 ≤ j < h → 0 ≤ k < n →
    b.[j * n + k] = b0.[(if decide (row ≤ j < h - row) then j else h - 1 - j) * n + k].

Lemma flipped_step b0 h n row b b' : 0 ≤ row < h / 2 → 0 ≤ n →
  flipped b0 h n row b → swapped b (row * n) ((h - row - 1) * n) n b' →
  flipped b0 h n (row + 1) b'.
Proof.
  intros Hrow Hn [Hl Hf] [Hl' Hs]. split; [lia|]. intros j k Hj Hk.
  pose proof (Z.mul_div_le h 2 ltac:(lia)).
  rewrite Hs by nia.
  assert (∀ a, 0 ≤ a < h → a * n ≤ j * n + k < a * n + n ↔ j = a) as Hrow' by (intros; nia).
  destruct (decide (j = row)) as [->|Hne].
  - rewrite decide_True by nia. rewrite decide_False by lia.
    replace ((h - row - 1) * n + (row * n + k - row * n)) with ((h - row - 1) * n + k) by lia.
    rewrite Hf by lia. rewrite decide_True by lia. do 3 f_equal. lia.
  - rewrite (decide_False (P := _ ≤ _ < row * n + n)) by (rewrite Hrow'; lia).
    destruct (decide (j = h - row - 1)) as [->|Hne'].
    + rewrite decide_True by nia. rewrite decide_False by lia.
      replace (row * n + ((h - row - 1) * n + k - (h - row - 1) * n)) with (row * n + k) by lia.
      rewrite Hf by lia. rewrite decide_True by lia. do 3 f_equal. lia.
    + rewrite decide_False by (rewrite Hrow'; lia). rewrite Hf by lia.
      do 2 case_decide; done || lia.
Qed.

(** C21. [stbi__vertical_flip] turns an image of [h] rows of [w * bytes_per_pixel]
    bytes upside down: without leaving the image it ends with byte [k] of row
    [j] equal to what byte [k] of row [h - 1 - j] was, whatever the chunk size
    of its temporary buffer leaves over. *)
Theorem vertical_flip_reverses_rows bytes w h bpp :
  0 ≤ w < 2 ^ 32 → 0 ≤ bpp < 2 ^ 32 → 0 ≤ h → zlen bytes = h * (w * bpp) →
  wp (stbi__vertical_flip bytes w h bpp) (λ out, length out = length bytes ∧
    ∀ j k, 0 ≤ j < h → 0 ≤ k < w * bpp →
      out.[j * (w * bpp) + k] = bytes.[(h - 1 - j) * (w * bpp) + k]).
Proof.
  intros Hw Hbpp Hh Hlen. unfold stbi__vertical_flip.
  rewrite (u64_small w), (u64_small bpp), u64_small by nia. set (n := w * bpp) in *.
  assert (0 ≤ n) as Hn by nia. clearbody n.
  rewrite Z.shiftr_div_pow2 by lia. change (2 ^ 1) with 2.
  enough (wp (for_range 0 (h / 2) (λ row '(bytes, temp),
      '(bytes, temp, _, _, _) ← fell <$> loop (S (Z.to_nat n)) swap_chunk
        (bytes, temp, row * n, (h - row - 1) * n, n);
      Ok (bytes, temp)) (bytes, malloc_arr uninit 2048))
    (λ '(b, _), flipped bytes h n (h / 2) b)) as H.
  { destruct (for_range 0 (h / 2) _ _) as [[b t]| |]; cbn in *; try done.
    destruct H as [Hl Hf]. split; [done|]. intros j k Hj Hk. rewrite Hf by done.
    case_decide; [|done]. replace (h - 1 - j) with j; [done|].
    pose proof (Z.div_mod h 2 ltac:(lia)). pose proof (Z.mod_pos_bound h 2 ltac:(lia)). lia. }
  pose proof (Z.mul_div_le h 2 ltac:(lia)).
  apply (for_range_wp (λ row '(b, t), flipped bytes h n row b ∧ length t = 2048%nat)).
  - split; [|by rewrite length_malloc]. split; [done|]. intros j k Hj Hk.
    rewrite decide_True by lia. done.
  - intros row [b t] Hrow [Hf Ht]. pose proof (proj1 Hf) as Hl. apply wp_bind.
    enough (wp (loop (S (Z.to_nat n)) swap_chunk (b, t, row * n, (h - row - 1) * n, n))
      (λ x, match x with Fell (b', t', _, _, _) =>
               length t' = 2048%nat ∧ swapped b (row * n) ((h - row - 1) * n) n b'
            | Gave r => False end)) as H'.
    { destruct (loop _ _ _) as [[[[[[b' t'] ?] ?] ?]|[]]| |]; cbn in *; try done.
      destruct H' as [Ht' Hs]. split; [|done]. by eapply flipped_step. }
    assert (2 * row + 2 ≤ h) by lia.
    apply swap_rows_wp; [done|nia|nia|rewrite Hl; nia|done|]. done.
  - intros [b t]. rewrite Z.max_r by (apply Z.div_pos; lia). by intros [? _].
Qed.
End flip.

(** ** Channel conversion

    The conversion is the same code for bytes and for 16-bit samples; what it
    needs of the two is how samples are read and written. *)
Class Samples (read : list Z → Z → Res Z) (write : list Z → Z → Z → Res (list Z)) (full : Z)
    (luma : Z → Z → Z → Z) := {
  sample : list Z → Z → Z;
  cells : list Z → Z;
  read_sample l i : 0 ≤ i < cells l → read l i = Ok (sample l i);
  write_sample l i v : 0 ≤ i < cells l → 0 ≤ v ≤ full →
    wp (write l i v) (λ l', length l' = length l ∧ cells l' = cells l ∧
      ∀ j, 0 ≤ j → sample l' j = if decide (i = j) then v else sample l j);
  full_positive : 0 ≤ full;
  luma_range r g b : 0 ≤ r ≤ full → 0 ≤ g ≤ full → 0 ≤ b ≤ full → 0 ≤ luma r g b ≤ full;
  luma_grey g : 0 ≤ g ≤ full → luma g g g = g
}.

Lemma luma_shift r g b : Z.shiftr (r * 77 + g * 150 + 29 * b) 8 = (r * 77 + g * 150 + 29 * b) / 256.
Proof. by rewrite Z.shiftr_div_pow2. Qed.

#[export] Program Instance samples8 : Samples rd wr 255 stbi__compute_y := {|
  sample := λ l i, l.[i];
  cells := λ l, zlen l
|}.
Next Obligation. intros. by apply rd_ok. Qed.
Next Obligation.
  intros. cbn beta. rewrite wr_ok by done. cbn [wp]. rewrite length_zset. do 2 (split; [done|]).
  intros. by apply znth_zset.
Qed.
Next Obligation. lia. Qed.
Next Obligation.
  intros r g b. unfold stbi__compute_y. rewrite luma_shift. intros.
  pose proof (u8_range ((r * 77 + g * 150 + 29 * b) / 256)). lia.
Qed.
Next Obligation.
  intros g Hg. unfold stbi__compute_y. rewrite luma_shift.
  replace (g * 77 + g * 150 + 29 * g) with (g * 256) by lia. rewrite Z.div_mul by lia.
  apply u8_small. lia.
Qed.

#[export] Program Instance samples16 : Samples rd16 wr16 65535 stbi__compute_y_16 := {|
  sample := λ l i, l.[2 * i] + 256 * l.[2 * i + 1];
  cells := λ l, zlen l / 2
|}.
Next Obligation.
  intros l i Hi. cbn beta in *. unfold rd16.
  pose proof (Z.mul_div_le (zlen l) 2 ltac:(lia)).
  rewrite (rd_ok l (2 * i)) by lia. cbn [mbind Res_bind].
  by rewrite (rd_ok l (2 * i + 1)) by lia.
Qed.
Next Obligation.
  intros l i v Hi Hv. cbn beta in *. unfold wr16.
  pose proof (Z.mul_div_le (zlen l) 2 ltac:(lia)).
  rewrite (wr_ok l (2 * i)) by lia. cbn [mbind Res_bind].
  rewrite wr_ok by (rewrite length_zset; lia). cbn [wp]. rewrite !length_zset.
  do 2 (split; [done|]). intros j Hj. case_decide as E.
  - subst j. rewrite znth_zset_ne by lia. rewrite znth_zset_eq by lia.
    rewrite znth_zset_eq by (rewrite length_zset; lia).
    pose proof (Z.div_mod v 256 ltac:(lia)). lia.
  - by rewrite !znth_zset_ne by lia.
Qed.
Next Obligation. lia. Qed.
Next Obligation.
  intros r g b. unfold stbi__compute_y_16. rewrite luma_shift. intros.
  pose proof (Z.mod_pos_bound ((r * 77 + g * 150 + 29 * b) / 256) (2 ^ 16) ltac:(lia)). lia.
Qed.
Next Obligation.
  intros g Hg. unfold stbi__compute_y_16. rewrite luma_shift.
  replace (g * 77 + g * 150 + 29 * g) with (g * 256) by lia. rewrite Z.div_mul by lia.
  apply Z.mod_small. lia.
Qed.

Section convert.
Context `{HS : Samples read write full luma}.

(** A pixel as red, green, blue and alpha, and back. *)
Definition to_rgba (src : list Z) : Z * Z * Z * Z :=
  match src with
  | [g] => (g, g, g, full)
  | [g; a] => (g, g, g, a)
  | [r; g; b] => (r, g, b, full)
  | r :: g :: b :: a :: _ => (r, g, b, a)
  | [] => (0, 0, 0, 0)
  end.

Definition of_rgba (req_comp : Z) (p : Z * Z * Z * Z) : list Z :=
  let '(r, g, b, a) := p in
  match req_comp with
  | 1 => [luma r g b]
  | 2 => [luma r g b; a]
  | 3 => [r; g; b]
  | _ => [r; g; b; a]
  end.

Definition in_range (v : Z) : Prop := 0 ≤ v ≤ full.

Lemma convert_pixel_rgba img_n req_comp src :
  1 ≤ img_n ≤ 4 → 1 ≤ req_comp ≤ 4 → req_comp ≠ img_n → zlen src = img_n → Forall in_range src →
  convert_pixel full luma img_n req_comp src = Some (of_rgba req_comp (to_rgba src)).
Proof using HS.
  intros Hi Hr Hne Hl Hs.
  assert (img_n = 1 ∨ img_n = 2 ∨ img_n = 3 ∨ img_n = 4) as Hi' by lia.
  assert (req_comp = 1 ∨ req_comp = 2 ∨ req_comp = 3 ∨ req_comp = 4) as Hr' by lia.
  destruct src as [|v0 [|v1 [|v2 [|v3 [|]]]]]; cbn in Hl; try lia;
    destruct Hi' as [ -> |[ -> |[ -> | -> ]]]; try lia;
    destruct Hr' as [ -> |[ -> |[ -> | -> ]]]; try lia; cbn; try done;
    rewrite luma_grey; try done; by inversion Hs.
Qed.

Lemma has_arm_true img_n req_comp :
  1 ≤ img_n ≤ 4 → 1 ≤ req_comp ≤ 4 → req_comp ≠ img_n → has_arm img_n req_comp = true.
Proof.
  intros Hi Hr Hne.
  assert (img_n = 1 ∨ img_n = 2 ∨ img_n = 3 ∨ img_n = 4) as Hi' by lia.
  assert (req_comp = 1 ∨ req_comp = 2 ∨ req_comp = 3 ∨ req_comp = 4) as Hr' by lia.
  destruct Hi' as [ -> |[ -> |[ -> | -> ]]]; destruct Hr' as [ -> |[ -> |[ -> | -> ]]]; done || lia.
Qed.

(** The [n] samples from [off] on, and those of pixel [p]. *)
Definition samples_at (l : list Z) (n off : Z) : list Z := (λ k, sample l (off + k)) <$> seqZ 0 n.

Definition pix (l : list Z) (n p : Z) : list Z := samples_at l n (p * n).

Lemma length_samples_at l n off : 0 ≤ n → zlen (samples_at l n off) = n.
Proof. intros. unfold samples_at. rewrite length_fmap, length_seqZ. lia. Qed.

Lemma length_pix l n p : 0 ≤ n → zlen (pix l n p) = n.
Proof. apply length_samples_at. Qed.

Lemma rd_samples_ok l n off : 0 ≤ n → 0 ≤ off → off + n ≤ cells l →
  rd_samples read l off n = Ok (samples_at l n off).
Proof.
  intros Hn Hp Hc. unfold rd_samples.
  enough (wp (for_range 0 n (λ k acc, v ← read l (off + k); Ok (acc ++ [v])) [])
    (λ acc, acc = samples_at l n off)) as H.
  { apply wp_elim in H as (? & -> & ->). done. }
  apply (for_range_wp (λ k acc, acc = (λ k, sample l (off + k)) <$> seqZ 0 k)).
  - done.
  - intros k acc Hk ->. rewrite read_sample by lia. cbn [mbind Res_bind wp].
    replace (seqZ 0 (k + 1)) with (seqZ 0 k ++ [k]).
    + by rewrite fmap_app.
    + rewrite seqZ_app by lia. done.
  - intros acc ->. by rewrite Z.max_r.
Qed.

Lemma of_rgba_range req_comp src : Forall in_range src →
  Forall in_range (of_rgba req_comp (to_rgba src)).
Proof using HS.
  intros H. pose proof full_positive. unfold in_range in *.
  repeat match goal with H : Forall _ (_ :: _) |- _ => apply Forall_cons in H as [??] end.
  destruct src as [|v0 [|v1 [|v2 [|v3 ?]]]];
    repeat match goal with H : Forall _ (_ :: _) |- _ => apply Forall_cons in H as [??] end;
    cbn; repeat case_match; repeat (apply Forall_cons; split);
    try apply Forall_nil; try done; try (apply luma_range; lia); lia.
Qed.

Lemma length_of_rgba req_comp p : 1 ≤ req_comp ≤ 4 → zlen (of_rgba req_comp p) = req_comp.
Proof.
  intros Hr. destruct p as [[[r g] b] a].
  assert (req_comp = 1 ∨ req_comp = 2 ∨ req_comp = 3 ∨ req_comp = 4) as Hr' by lia.
  by destruct Hr' as [ -> |[ -> |[ -> | -> ]]].
Qed.

Lemma wr_samples_wp vs l off (Q : list Z → Prop) :
  0 ≤ off → off + zlen vs ≤ cells l → Forall in_range vs →
  (∀ l', length l' = length l → cells l' = cells l →
    (∀ j, 0 ≤ j → sample l' j =
       if decide (off ≤ j < off + zlen vs) then vs.[j - off] else sample l j) → Q l') →
  wp (wr_samples write l off vs) Q.
Proof.
  intros Hoff Hc Hvs HQ. unfold wr_samples.
  enough (∀ vs l off, 0 ≤ off → off + zlen vs ≤ cells l → Forall in_range vs →
    wp (foldl (λ m v, '(l, i) ← m; l ← write l i v; Ok (l, i + 1)) (Ok (l, off)) vs)
      (λ '(l', _), length l' = length l ∧ cells l' = cells l ∧
        ∀ j, 0 ≤ j → sample l' j =
          if decide (off ≤ j < off + zlen vs) then vs.[j - off] else sample l j)) as H.
  { specialize (H vs l off Hoff Hc Hvs). destruct (foldl _ _ _) as [[l' o]| |]; cbn in *; try done.
    destruct H as (?&?&?). by apply HQ. }
  clear. induction vs as [|v vs IH]; intros l off Hoff Hc Hvs.
  { cbn. do 2 (split; [done|]). intros. by rewrite decide_False by lia. }
  apply Forall_cons in Hvs as [Hv Hvs]. cbn [foldl length] in *.
  assert (0 ≤ off < cells l) as Hin by lia. pose proof (write_sample l off v Hin Hv) as Hw. cbn [mbind Res_bind].
  destruct (write l off v) as [l1| |]; cbn [wp] in Hw; try done.
  destruct Hw as (Hl1 & Hc1 & Hs1). specialize (IH l1 (off + 1) ltac:(lia) ltac:(lia) Hvs).
  eapply wp_mono; [exact IH|]. intros [l' o] (Hl' & Hc' & Hs').
  split; [lia|]. split; [lia|]. intros j Hj. rewrite Hs', Hs1 by done.
  destruct (decide (off = j)) as [<-|].
  - rewrite decide_False by lia. rewrite decide_True by lia. by rewrite Z.sub_diag.
  - case_decide as Ed.
    + rewrite decide_True by lia. replace (Z.to_nat (j - off)) with (S (Z.to_nat (j - (off + 1)))) by lia.
      done.
    + by rewrite decide_False by lia.
Qed.

(** The first [done] pixels of [good] are converted from the samples [src] gives. *)
Definition converted_from (src : Z → list Z) (good : list Z) (req_comp done : Z) : Prop :=
  ∀ p, 0 ≤ p < done → pix good req_comp p = of_rgba req_comp (to_rgba (src p)).

(** They are converted from the same pixels of [data]. *)
Definition converted (data good : list Z) (img_n req_comp done : Z) : Prop :=
  converted_from (pix data img_n) good req_comp done.

(** The samples the scanline loops read for pixel [p] of an image [x] wide: row
    [p / x] starts at an offset computed in [unsigned int]. *)
Definition src_pixel (data : list Z) (img_n x p : Z) : list Z :=
  samples_at data img_n (u32 (u32 (p `div` x * x) * img_n) + p `mod` x * img_n).

(** Below [2^32] samples nothing wraps. *)
Lemma src_pixel_pix data img_n x y p :
  1 ≤ img_n → 0 ≤ y → x * y * img_n < 2 ^ 32 → 0 ≤ p < x * y → src_pixel data img_n x p = pix data img_n p.
Proof.
  intros Hi Hy Hxy Hp. assert (0 < x) as Hx by nia. unfold src_pixel, pix. f_equal.
  pose proof (Z.div_mod p x ltac:(lia)) as E. pose proof (Z.mod_pos_bound p x Hx).
  pose proof (Z.div_pos p x ltac:(lia) Hx). assert (p * img_n < 2 ^ 32) by nia.
  assert (p `div` x * x = p - p `mod` x) as -> by lia.
  assert ((p - p `mod` x) * img_n ≤ p * img_n) by nia.
  rewrite (u32_small (p - _)), u32_small by nia. lia.
Qed.

Lemma converted_from_pix data good img_n req_comp x y :
  1 ≤ img_n → 0 ≤ y → x * y * img_n < 2 ^ 32 →
  converted_from (src_pixel data img_n x) good req_comp (x * y) →
  converted data good img_n req_comp (x * y).
Proof. intros Hi Hy Hxy Hc p Hp. rewrite Hc by done. by rewrite (src_pixel_pix _ _ x y). Qed.

Lemma lookup_pix l n p k : 0 ≤ k < n → (pix l n p).[k] = sample l (p * n + k).
Proof.
  intros Hk. apply list_lookup_total_correct. unfold pix, samples_at. rewrite list_lookup_fmap.
  by replace (seqZ 0 n !! Z.to_nat k) with (Some k) by (symmetry; apply lookup_seqZ; lia).
Qed.

Lemma pix_ext l vs n p : 0 ≤ n → zlen vs = n →
  (∀ k, 0 ≤ k < n → sample l (p * n + k) = vs.[k]) → pix l n p = vs.
Proof.
  intros Hn Hl Hs. apply znth_ext; [pose proof (length_pix l n p Hn); lia|].
  intros k Hk. rewrite length_pix in Hk by done. rewrite <- Hs by done. by apply lookup_pix.
Qed.

Lemma converted_step src good good' req_comp p :
  1 ≤ req_comp ≤ 4 → 0 ≤ p → converted_from src good req_comp p →
  let vs := of_rgba req_comp (to_rgba (src p)) in
  (∀ j, 0 ≤ j → sample good' j =
     if decide (p * req_comp ≤ j < p * req_comp + zlen vs) then vs.[j - p * req_comp]
     else sample good j) →
  converted_from src good' req_comp (p + 1).
Proof.
  intros Hr Hp Hc vs Hs q Hq. pose proof (length_of_rgba req_comp (to_rgba (src p)) Hr) as Hl.
  fold vs in Hl. apply pix_ext; [lia|by apply length_of_rgba|]. intros k Hk.
  rewrite Hs by nia. destruct (decide (q = p)) as [->|].
  - rewrite decide_True by lia. fold vs. do 2 f_equal. lia.
  - rewrite decide_False by nia. rewrite <- (Hc q) by lia. by rewrite lookup_pix.
Qed.

(** The loop bounds are [x] and [y] for values of [int]. *)
Lemma row_bound x : 0 ≤ x ≤ INT_MAX → sx 32 (u32 (x - 1)) + 1 = x.
Proof.
  intros Hx. destruct (decide (x = 0)) as [->|]; [done|].
  rewrite u32_small, sx_32_small; c_unfold; lia.
Qed.

Section rows.
Variables (data : list Z) (img_n req_comp x y : Z).
Hypotheses (Hi : 1 ≤ img_n ≤ 4) (Hr : 1 ≤ req_comp ≤ 4) (Hne : req_comp ≠ img_n)
  (Hx : 0 ≤ x ≤ INT_MAX) (Hy : 0 ≤ y ≤ INT_MAX) (Hd : x * y * img_n ≤ cells data)
  (Hv : ∀ j, 0 ≤ j < cells data → in_range (sample data j)).

(** Wherever a row starts after the wrap-around, its pixels are inside [data]. *)
Lemma src_inside j i : 0 ≤ j < y → 0 ≤ i < x →
  0 ≤ u32 (u32 (j * x) * img_n) + i * img_n ∧
  u32 (u32 (j * x) * img_n) + i * img_n + img_n ≤ cells data.
Proof using Hi Hd.
  clear Hr Hne Hx Hy Hv. intros Hj Hi'. unfold u32.
  pose proof (Z.mod_pos_bound (j * x) (2 ^ 32) ltac:(lia)).
  pose proof (Z.mod_le (j * x) (2 ^ 32) ltac:(nia) ltac:(lia)).
  pose proof (Z.mod_pos_bound ((j * x) mod 2 ^ 32 * img_n) (2 ^ 32) ltac:(lia)).
  pose proof (Z.mod_le ((j * x) mod 2 ^ 32 * img_n) (2 ^ 32) ltac:(nia) ltac:(lia)).
  assert ((j * x) mod 2 ^ 32 * img_n ≤ j * x * img_n) by nia.
  assert (j * x + i + 1 ≤ x * y) by nia.
  assert ((j * x + i + 1) * img_n ≤ x * y * img_n) by (apply Z.mul_le_mono_nonneg_r; lia). split; lia.
Qed.

Lemma src_range j i : 0 ≤ j < y → 0 ≤ i < x →
  Forall in_range (samples_at data img_n (u32 (u32 (j * x) * img_n) + i * img_n)).
Proof using Hi Hd Hv.
  clear Hr Hne. intros Hj Hi'. apply Forall_fmap, Forall_seqZ. intros k Hk. apply Hv.
  pose proof (src_inside j i Hj Hi'). lia.
Qed.

Lemma src_pixel_row j i : 0 ≤ i < x →
  samples_at data img_n (u32 (u32 (j * x) * img_n) + i * img_n) = src_pixel data img_n x (j * x + i).
Proof.
  clear. intros Hi'. unfold src_pixel. rewrite (Z.add_comm (j * x)).
  rewrite Z.div_add, Z.mod_add, Z.div_small, Z.mod_small by lia. done.
Qed.

(** One pixel of a row. *)
Lemma convert_one_wp good j i (Q : list Z → Prop) :
  0 ≤ j < y → 0 ≤ i < x → x * y * req_comp ≤ cells good → x * y * req_comp < 2 ^ 32 →
  converted_from (src_pixel data img_n x) good req_comp (j * x + i) →
  (∀ good', length good' = length good → cells good' = cells good →
     converted_from (src_pixel data img_n x) good' req_comp (j * x + i + 1) → Q good') →
  wp (px ← rd_samples read data (u32 (u32 (j * x) * img_n) + i * img_n) img_n;
      match convert_pixel full luma img_n req_comp px with
      | Some out => wr_samples write good (u32 (u32 (j * x) * req_comp) + i * req_comp) out
      | None => Undef
      end) Q.
Proof using HS Hi Hr Hne Hd Hv.
  clear Hx Hy. intros Hj Hi' Hg Hw Hc HQ. pose proof (src_inside j i Hj Hi').
  rewrite rd_samples_ok by lia. cbn [mbind Res_bind].
  rewrite convert_pixel_rgba; [|done..|by apply length_samples_at; lia|by apply src_range].
  pose proof (src_range j i Hj Hi') as Hsr. rewrite src_pixel_row in * by done.
  pose proof (length_of_rgba req_comp (to_rgba (src_pixel data img_n x (j * x + i))) Hr) as Hl.
  assert (j * x + i + 1 ≤ x * y) by nia.
  assert ((j * x + i + 1) * req_comp ≤ x * y * req_comp) by (apply Z.mul_le_mono_nonneg_r; lia).
  rewrite (u32_small (j * x)), u32_small by nia.
  replace (j * x * req_comp + i * req_comp) with ((j * x + i) * req_comp) by lia.
  apply wr_samples_wp; [nia|nia|by apply of_rgba_range|].
  intros g' Hl' Hc' Hs. apply HQ; [done..|]. apply (converted_step _ good); done || nia.
Qed.

Lemma convert_rows_wp good (Q : option (list Z) → Prop) :
  x * y * req_comp ≤ cells good → x * y * req_comp < 2 ^ 32 →
  (∀ out, length out = length good →
     converted_from (src_pixel data img_n x) out req_comp (x * y) → Q (Some out)) →
  wp (convert_rows read write full luma data img_n req_comp x y good) Q.
Proof using HS Hi Hr Hne Hx Hy Hd Hv.
  intros Hg Hw HQ. unfold convert_rows. apply wp_bind.
  set (I p (g : list Z) := length g = length good ∧ cells g = cells good ∧
                           converted_from (src_pixel data img_n x) g req_comp p).
  rewrite sx_32_small by (c_unfold; lia). rewrite row_bound by done. apply (for_ctl_wp (λ j g, I (j * x) g)).
  - do 2 (split; [done|]). intros p Hp. lia.
  - intros j g Hj Hg0. rewrite has_arm_true by done. cbn [negb].
    apply wp_bind, (for_range_wp (λ i g, I (j * x + i) g)).
    + by rewrite Z.add_0_r.
    + intros i g' Hi' (Hl' & Hc' & Hconv).
      apply convert_one_wp; [done|done|lia|done|done|]. intros g'' ? ? ?.
      unfold I. rewrite Z.add_assoc. intuition congruence.
    + intros g' Hg'. rewrite Z.max_r in Hg' by lia. cbn [wp].
      by replace ((j + 1) * x) with (j * x + x) by lia.
  - intros g (Hl & Hc & Hconv). cbn [wp]. rewrite Z.max_r in Hconv by lia.
    apply HQ; [done|]. by rewrite Z.mul_comm.
Qed.
End rows.
End convert.

Section formats.
Context `{Env : StbiEnv}.

(** The image in [data] has [x * y] pixels of [n] samples, all in range. *)
Definition image_of `{Samples read write full luma} (data : list Z) (n x y : Z) : Prop :=
  x * y * n ≤ cells data ∧ ∀ j, 0 ≤ j < cells data → in_range (full := full) (sample data j).

(** C20. [stbi__convert_format] converts every pixel as the passage through RGBA
    does (grey spreads to the three colours, a missing alpha is opaque, colour
    becomes grey by the weighted sum): for any two different channel counts and
    sides that fit an [int] the call never leaves its buffers nor reports an
    unsupported pair, and fails only when the destination does not fit an [int]
    or cannot be allocated.  The pixel that is converted is the one at the same
    place while the source has fewer than [2^32] samples; beyond that the offset
    of its row wraps around, and the pixel is the one [src_pixel] finds there. *)
Theorem convert_format_through_rgba {S} data img_n req_comp x y (s : S) :
  1 ≤ img_n ≤ 4 → 1 ≤ req_comp ≤ 4 → req_comp ≠ img_n →
  0 ≤ x ≤ INT_MAX → 0 ≤ y ≤ INT_MAX → image_of (luma := stbi__compute_y) data img_n x y →
  awp (stbi__convert_format data img_n req_comp x y) s (λ o s', s' = s ∧
    match o with
    | Val out => zlen out = req_comp * x * y ∧
        converted_from (luma := stbi__compute_y) (src_pixel (luma := stbi__compute_y) data img_n x) out req_comp (x * y) ∧
        (x * y * img_n < 2 ^ 32 →
           converted (luma := stbi__compute_y) data out img_n req_comp (x * y))
    | Fail e => e = "outofmem"%string ∧
        (¬ (req_comp * x ≤ INT_MAX ∧ req_comp * x * y ≤ INT_MAX) ∨
         malloc_ok (req_comp * x * y) = false)
    end).
Proof.
  intros Hi Hr Hne Hx Hy [Hd Hv]. unfold stbi__convert_format.
  rewrite (proj2 (Z.eqb_neq req_comp img_n)) by done.
  rewrite (proj2 (Z.leb_le 1 req_comp)), (proj2 (Z.leb_le req_comp 4)) by lia. cbn [andb negb].
  unfold or_outofmem. rewrite !sx_32_small by (c_unfold; lia).
  destruct (malloc_mad_eq req_comp x y 0 0) as (_ & -> & _); [c_unfold; lia..|].
  rewrite Z.add_0_r. unfold block, stbi__malloc. awp_step. awp_step. awp_step. cbn [wp].
  case_bool_decide as Hf; cbn [mad_fits] in Hf.
  2: { apply awp_fail. split; [done|]. split; [done|]. left. rewrite !Z.mul_1_l in Hf. c_unfold; lia. }
  destruct (malloc_ok (req_comp * x * y)) eqn:Em.
  2: { apply awp_fail. auto. }
  awp_step. awp_step. awp_step.
  apply convert_rows_wp; [lia..|done|done| | |].
  - cbn. rewrite length_malloc. nia.
  - c_unfold. lia.
  - intros out Hl Hc. cbn. rewrite Hl, length_malloc.
    split; [done|]. split; [nia|]. split; [exact Hc|]. intros Hs. by apply converted_from_pix; try lia.
Qed.

(** What a write of samples that succeeds tells about the block. *)
Lemma wr16_wpu l i v : wpu (wr16 l i v) (λ l', length l' = length l ∧ 2 * i + 2 ≤ zlen l).
Proof.
  unfold wr16. destruct (wr l (2 * i) (v mod 256)) as [l1| |] eqn:E1; [|done|].
  2: { unfold wr in E1. by destruct (_ && _). }
  apply wr_Ok_inv in E1 as [Hi ->]. cbn [mbind Res_bind].
  destruct (wr _ (2 * i + 1) _) as [l2| |] eqn:E2; [|done|].
  2: { unfold wr in E2. by destruct (_ && _). }
  apply wr_Ok_inv in E2 as [Hi' ->]. cbn [wpu]. rewrite !length_zset in *. split; [done|lia].
Qed.

Lemma wr_samples16_wpu vs l off :
  wpu (wr_samples wr16 l off vs)
    (λ l', length l' = length l ∧ (vs = [] ∨ 2 * (off + zlen vs) ≤ zlen l)).
Proof.
  set (step := λ (m : Res (list Z * Z)) v, '(l, i) ← m; l ← wr16 l i v; Ok (l, i + 1)).
  assert (∀ vs, foldl step Undef vs = Undef) as Hu by (intros us; by induction us).
  enough (∀ vs l off, wpu (foldl step (Ok (l, off)) vs)
    (λ '(l', _), length l' = length l ∧ (vs = [] ∨ 2 * (off + zlen vs) ≤ zlen l))) as H.
  { unfold wr_samples. fold step. specialize (H vs l off).
    by destruct (foldl step (Ok (l, off)) vs) as [[]| |]. }
  clear vs l off. induction vs as [|v vs IH]; intros l off; [by cbn; auto|].
  cbn [foldl]. unfold step at 2. cbn [mbind Res_bind].
  pose proof (wr16_wpu l off v) as Hw.
  destruct (wr16 l off v) as [l1| |]; cbn [wpu mbind Res_bind] in *; [|by rewrite Hu|done].
  destruct Hw as [Hl Hin]. eapply wpu_mono; [apply IH|]. intros [l' o] [Hl' Hvs].
  split; [lia|]. right. cbn [length]. rewrite Hl in Hvs.
  destruct Hvs as [->|Hvs]; cbn [length]; lia.
Qed.

(** The 16-bit scanline loops, on any block: they finish, or leave the block.
    A row whose offset does not wrap around must lie in it. *)
Lemma convert_rows16_wpu data img_n req_comp x y good :
  1 ≤ img_n ≤ 4 → 1 ≤ req_comp ≤ 4 → req_comp ≠ img_n → 0 < x ≤ INT_MAX → 0 ≤ y ≤ INT_MAX →
  image_of (luma := stbi__compute_y_16) data img_n x y →
  wpu (convert_rows rd16 wr16 65535 stbi__compute_y_16 data img_n req_comp x y good)
    (λ _, ∀ j, 0 ≤ j < y → j * x * req_comp < 2 ^ 32 → 2 * ((j + 1) * x * req_comp) ≤ zlen good).
Proof.
  intros Hi Hr Hne Hx Hy [Hd Hv]. unfold convert_rows. apply wpu_bind.
  rewrite sx_32_small by (c_unfold; lia). rewrite row_bound by lia.
  set (I j (g : list Z) := length g = length good ∧
    ∀ j', 0 ≤ j' < j → j' * x * req_comp < 2 ^ 32 → 2 * ((j' + 1) * x * req_comp) ≤ zlen good).
  apply (for_ctl_wpu I).
  - split; [done|]. lia.
  - intros j g Hj [Hl Hg]. rewrite has_arm_true by done. cbn [negb].
    set (dest := u32 (u32 (j * x) * req_comp)). apply wpu_bind.
    apply (for_range_wpu (λ i (g : list Z), length g = length good ∧
             (i = 0 ∨ 2 * (dest + i * req_comp) ≤ zlen good))); [by auto| |].
    + intros i g' Hi' [Hl' _].
      destruct (src_inside (luma := stbi__compute_y_16) data img_n x y Hi Hd j i Hj Hi').
      rewrite (rd_samples_ok (luma := stbi__compute_y_16)) by lia. cbn [mbind Res_bind].
      rewrite convert_pixel_rgba; [|done..|by apply length_samples_at; lia|by apply (src_range data img_n x y)].
      set (px := to_rgba _). pose proof (length_of_rgba (luma := stbi__compute_y_16) req_comp px Hr) as Ho.
      eapply wpu_mono; [apply wr_samples16_wpu|]. intros g'' [Hl'' [Hw|Hw]].
      { rewrite Hw in Ho. cbn in Ho. lia. }
      split; [lia|]. right. lia.
    + intros g'. rewrite Z.max_r by lia. intros [Hl' Hw]. cbn [wpu]. split; [done|].
      intros j' Hj' Hs. destruct (decide (j' = j)) as [->|]; [|apply Hg; lia].
      unfold dest in Hw. rewrite (u32_small (j * x)), u32_small in Hw by nia. nia.
  - intros g [_ Hg]. rewrite Z.max_r in Hg by lia. exact Hg.
Qed.

(** Past [2^32] bytes some row whose offset does not wrap ends behind any block
    of fewer bytes. *)
Lemma row_beyond req_comp x y n :
  1 ≤ req_comp → 0 < x → 0 ≤ y → 2 ^ 32 ≤ req_comp * x * y * 2 → n < 2 ^ 32 →
  ¬ ∀ j, 0 ≤ j < y → j * x * req_comp < 2 ^ 32 → 2 * ((j + 1) * x * req_comp) ≤ n.
Proof.
  intros Hr Hx Hy Hm Hn H. assert (0 < y) as Hy0 by nia.
  destruct (decide ((y - 1) * x * req_comp < 2 ^ 32)) as [Hs|Hs].
  { specialize (H (y - 1) ltac:(lia) Hs). lia. }
  set (m := x * req_comp) in *. assert (0 < m) as Hm0 by (unfold m; nia).
  pose proof (Z.div_mod (2 ^ 32 - 1) m ltac:(lia)). pose proof (Z.mod_pos_bound (2 ^ 32 - 1) m Hm0).
  pose proof (Z.div_pos (2 ^ 32 - 1) m ltac:(lia) Hm0).
  set (j := (2 ^ 32 - 1) `div` m) in *. rewrite <- Z.mul_assoc in Hs. fold m in Hs.
  specialize (H j). rewrite <- !Z.mul_assoc in H. fold m in H. nia.
Qed.

(** C39. [stbi__convert_format16] computes the size of its block in [unsigned
    int].  For sides that fit an [int]: while [2 * req_comp * x * y] is below
    [2^32] it converts every pixel through RGBA, as the 8-bit version does (the
    pixel at the same place, if the source has fewer than [2^32] samples).
    Beyond that the size wraps around, and when the allocator grants the wrapped
    size the conversion of a whole image of two different channel counts writes
    outside the block. *)
Theorem convert_format16_overflow {S} data img_n req_comp x y (s : S) :
  1 ≤ img_n ≤ 4 → 1 ≤ req_comp ≤ 4 → req_comp ≠ img_n → 0 ≤ x ≤ INT_MAX → 0 ≤ y ≤ INT_MAX →
  image_of (luma := stbi__compute_y_16) data img_n x y →
  malloc_ok (u32 (req_comp * x * y * 2)) = true →
  (req_comp * x * y * 2 < 2 ^ 32 →
     awp_ok (stbi__convert_format16 data img_n req_comp x y) s (λ out s', s' = s ∧
       zlen out = req_comp * x * y * 2 ∧
       converted_from (luma := stbi__compute_y_16) (src_pixel (luma := stbi__compute_y_16) data img_n x) out req_comp (x * y) ∧
       (x * y * img_n < 2 ^ 32 →
          converted (luma := stbi__compute_y_16) data out img_n req_comp (x * y)))) ∧
  (2 ^ 32 ≤ req_comp * x * y * 2 → stbi__convert_format16 data img_n req_comp x y s = Undef).
Proof.
  intros Hi Hr Hne Hx Hy [Hd Hv] Hm. unfold stbi__convert_format16.
  rewrite (proj2 (Z.eqb_neq req_comp img_n)) by done.
  rewrite (proj2 (Z.leb_le 1 req_comp)), (proj2 (Z.leb_le req_comp 4)) by lia. cbn [andb negb].
  unfold or_outofmem, stbi__malloc. rewrite Hm. split; intros Hf.
  - awp_step. awp_step. awp_step. cbn [wp]. cbv beta iota. awp_step. awp_step. awp_step.
    rewrite u32_small by nia.
    apply convert_rows_wp; [lia..|done|done| | |].
    + cbn. rewrite length_malloc. rewrite Z2Nat.id by nia.
      replace (req_comp * x * y * 2) with (x * y * req_comp * 2) by lia. by rewrite Z.div_mul.
    + lia.
    + intros out Hl Hc. cbn. rewrite Hl, length_malloc. split; [done|]. split; [nia|].
      split; [exact Hc|]. intros Hs. by apply converted_from_pix; try lia.
  - unfold mbind, Act_bind, lift, mret, Act_ret. cbv iota beta. assert (0 < x) by nia.
    set (good := malloc_arr uninit (u32 (req_comp * x * y * 2))).
    rewrite (wpu_undef (convert_rows rd16 wr16 65535 stbi__compute_y_16 data img_n req_comp x y good));
      [done|].
    eapply wpu_mono; [by apply convert_rows16_wpu; try lia|]. intros r.
    pose proof (u32_range (req_comp * x * y * 2)).
    apply row_beyond; [lia..|]. unfold good. rewrite length_malloc. lia.
Qed.
End formats.

(** ** Concrete inputs

    An environment whose callbacks read a list, with four gigabytes to
    allocate. *)
Definition toy_env : StbiEnv := {|
  malloc_ok := λ n, n <? 2 ^ 32;
  uninit := λ _, 0;
  user := list Z;
  no_user := [];
  io_read := λ u n, (take (Z.to_nat n) u, drop (Z.to_nat n) u);
  io_skip := λ u n, drop (Z.to_nat n) u;
  io_eof := λ u, bool_decide (u = []);
  pow := λ x _, x
|}.

Lemma malloc_mad_exact_witness :
  @stbi__malloc_mad3 toy_env 46341 46341 1 0 = Ok None ∧
  INT_MIN ≤ 46341 ≤ INT_MAX.
Proof.
  split; [|done].
  destruct (@malloc_mad_exact toy_env 46341 46341 1 1 0 ltac:(done) ltac:(done) ltac:(done)
    ltac:(done) ltac:(done)) as (_ & E & _).
  rewrite E. reflexivity.
Defined.

Lemma vertical_flip_reverses_rows_witness :
  ∃ out, @stbi__vertical_flip toy_env [1; 2; 3; 4; 5; 6; 7; 8; 9] 3 3 1 = Ok out ∧
    out.[2 * (3 * 1) + 1] = 2.
Proof.
  destruct (wp_elim _ _ (@vertical_flip_reverses_rows toy_env [1; 2; 3; 4; 5; 6; 7; 8; 9] 3 3 1
    ltac:(done) ltac:(done) ltac:(done) ltac:(done))) as (out & E & _ & H).
  exists out. split; [exact E|]. exact (H 2 1 ltac:(done) ltac:(done)).
Defined.

Lemma image_of_bytes data n x y : x * y * n ≤ zlen data → Forall (λ b, 0 ≤ b ≤ 255) data →
  image_of (luma := stbi__compute_y) data n x y.
Proof.
  intros Hl Hf. split; [done|]. intros j Hj. cbn in *. unfold in_range.
  eapply (Forall_lookup_1 _ _ _ _ Hf). by apply znth_lookup.
Qed.

(** Two grey pixels to colour with alpha. *)
Lemma convert_format_through_rgba_witness :
  ∃ out, @stbi__convert_format toy_env unit [10; 200] 1 4 2 1 () = Ok (Val out, ()) ∧ zlen out = 8.
Proof.
  destruct (awp_elim _ _ _ (@convert_format_through_rgba toy_env unit [10; 200] 1 4 2 1 ()
    ltac:(done) ltac:(done) ltac:(done) ltac:(done) ltac:(done)
    (image_of_bytes [10; 200] 1 2 1 ltac:(done) ltac:(repeat constructor; done))))
    as (o & s' & E & -> & H).
  destruct o as [out|e].
  - exists out. split; [exact E|]. exact (proj1 H).
  - exfalso. destruct H as [_ [H|H]]; [apply H; done|discriminate].
Defined.

Lemma zeros_exist n : 0 ≤ n → ∃ l : list Z, zlen l = n ∧ ∀ j, 0 ≤ j < n → l.[j] = 0.
Proof.
  intros Hn. exists (replicate (Z.to_nat n) 0). rewrite length_replicate. split; [lia|].
  intros. apply znth_replicate. lia.
Qed.

Lemma image_of_zeros l n x y : 0 ≤ x * y * n → zlen l = 2 * (x * y * n) →
  (∀ j, 0 ≤ j < zlen l → l.[j] = 0) → image_of (luma := stbi__compute_y_16) l n x y.
Proof.
  intros Hn Hl Hz. pose proof (Z.mul_div_le (zlen l) 2 ltac:(lia)) as Hd. split.
  - cbn. rewrite Hl. replace (2 * (x * y * n)) with (x * y * n * 2) by lia. by rewrite Z.div_mul by lia.
  - intros j Hj. cbn in *. unfold in_range. rewrite !Hz by lia. lia.
Qed.

(** A grey 16-bit image of 32768 x 16384 pixels, to colour with alpha. *)
Lemma convert_format16_overflow_witness :
  ∃ data, zlen data = 2 * (32768 * 16384 * 1) ∧
    @stbi__convert_format16 toy_env unit data 1 4 32768 16384 () = Undef.
Proof.
  destruct (zeros_exist (2 * (32768 * 16384 * 1)) ltac:(lia)) as (data & Hl & Hz).
  exists data. split; [exact Hl|]. rewrite <- Hl in Hz.
  pose proof (image_of_zeros data 1 32768 16384 ltac:(lia) Hl Hz) as Himg.
  destruct (@convert_format16_overflow toy_env unit data 1 4 32768 16384 ()
    ltac:(lia) ltac:(lia) ltac:(lia) ltac:(c_unfold; lia) ltac:(c_unfold; lia) Himg
    ltac:(reflexivity)) as [_ H].
  apply H. lia.
Defined.
