(* ===== verification/StbStream.v ===== *)
(** * stb_image: the reading context as a stream of bytes

    [stbi__context] reads either from the client's memory or, through a buffer
    of 128 bytes, from callbacks.  Either way it refines one abstract object,
    the list of the bytes still to come: [ByteStream] states what the decoders
    rely on, and the context of [StbBase] is an instance. *)
From S2P Require Import Prelude StbMonad StbBase StbBaseSpec.

(** ** Reading positions *)
Definition window (l : list Z) (lo hi : Z) : list Z :=
  take (Z.to_nat (hi - lo)) (drop (Z.to_nat lo) l).

Section window.
Implicit Types l : list Z.

Lemma length_window l lo hi : 0 ≤ lo → hi ≤ zlen l → zlen (window l lo hi) = Z.max 0 (hi - lo).
Proof. intros. unfold window. rewrite length_take, length_drop. lia. Qed.

Lemma window_nil l lo hi : hi ≤ lo → window l lo hi = [].
Proof. intros. unfold window. by replace (Z.to_nat (hi - lo)) with 0%nat by lia. Qed.

Lemma window_cons l lo hi : 0 ≤ lo < hi → hi ≤ zlen l →
  window l lo hi = l.[lo] :: window l (lo + 1) hi.
Proof.
  intros Hlo Hhi. unfold window.
  replace (Z.to_nat (hi - lo)) with (S (Z.to_nat (hi - (lo + 1)))) by lia.
  replace (Z.to_nat (lo + 1)) with (S (Z.to_nat lo)) by lia.
  rewrite (drop_S l (l.[lo]) (Z.to_nat lo)); [done|]. apply znth_lookup. lia.
Qed.

Lemma window_drop l lo hi n : 0 ≤ lo → 0 ≤ n →
  window l (lo + n) hi = drop (Z.to_nat n) (window l lo hi).
Proof.
  intros. unfold window. rewrite skipn_firstn_comm, drop_drop. f_equal; [lia|]. f_equal. lia.
Qed.

Lemma window_take l lo hi n : 0 ≤ n → lo + n ≤ hi →
  window l lo (lo + n) = take (Z.to_nat n) (window l lo hi).
Proof. intros. unfold window. rewrite take_take. f_equal. lia. Qed.

Lemma znth_window l lo hi k : 0 ≤ lo → hi ≤ zlen l → 0 ≤ k < hi - lo → (window l lo hi).[k] = l.[lo + k].
Proof.
  intros Hlo Hhi Hk. unfold window. rewrite lookup_total_take, decide_True by lia.
  rewrite lookup_total_drop. f_equal. lia.
Qed.

(** A copy out of the window. *)
Lemma memcpy_window dst doff src soff n : 0 ≤ n → 0 ≤ doff → doff + n ≤ zlen dst → 0 ≤ soff →
  soff + n ≤ zlen src →
  memcpy dst doff src soff n =
    Ok (take (Z.to_nat doff) dst ++ window src soff (soff + n) ++ drop (Z.to_nat (doff + n)) dst).
Proof.
  intros Hn Hd Hdn Hs Hsn. unfold memcpy, window.
  rewrite (proj2 (Z.leb_le 0 n)), (proj2 (Z.leb_le 0 doff)), (proj2 (Z.leb_le (doff + n) _)),
    (proj2 (Z.leb_le 0 soff)), (proj2 (Z.leb_le (soff + n) _)) by lia. cbn [andb].
  do 3 f_equal. f_equal. lia.
Qed.
End window.

(** ** The abstract stream

    The bytes still to come are [rest s]; reading past them gives zeros. *)
Definition bytes_at (l : list Z) (i : nat) : Z := default 0 (l !! i).

(** What the decoders rely on: [Inv] is the representation invariant and
    [rest] the abstraction. *)
Class ByteStream {S : Type} (get8 : Act S Z) (skip : Z → Act S unit)
    (getn : list Z → Z → Z → Act S (list Z * bool)) (at_eof : Act S bool) := {
  Inv : S → Prop;
  rest : S → list Z;
  get8_spec s : Inv s →
    awp_ok get8 s (λ b s', Inv s' ∧ b = bytes_at (rest s) 0 ∧ rest s' = tail (rest s));
  skip_spec s n : Inv s → 0 ≤ n →
    awp_ok (skip n) s (λ _ s', Inv s' ∧ rest s' = drop (Z.to_nat n) (rest s));
  getn_spec s buf off n : Inv s → 0 ≤ n → 0 ≤ off → off + n ≤ zlen buf →
    awp_ok (getn buf off n) s (λ r s', Inv s' ∧ length r.1 = length buf ∧
      (0 < n ≤ zlen (rest s) → r.2 = true ∧ rest s' = drop (Z.to_nat n) (rest s) ∧
         r.1 = take (Z.to_nat off) buf ++ take (Z.to_nat n) (rest s)
               ++ drop (Z.to_nat (off + n)) buf));
  at_eof_spec s : Inv s →
    awp_ok at_eof s (λ b s', s' = s ∧ (b = true ↔ rest s = []))
}.

(** The client's callbacks, as the interface documents them: [pending u] is
    what the client has left; [read] fills as much of the buffer as it can. *)
Class Callbacks `{Env : StbiEnv} := {
  pending : user → list Z;
  io_read_spec u n : 0 ≤ n → ∃ u', io_read u n = (take (Z.to_nat n) (pending u), u') ∧
    pending u' = drop (Z.to_nat n) (pending u);
  io_skip_spec u n : 0 ≤ n → pending (io_skip u n) = drop (Z.to_nat n) (pending u);
  io_eof_spec u : io_eof u = true ↔ pending u = []
}.

Section context.
Context `{Env : StbiEnv} {Cb : Callbacks}.
Implicit Types s : stbi__context.

(** The bytes still to come.  After the end of the callbacks' data the buffer
    holds at most the zero byte the context makes up. *)
Definition remaining s : list Z :=
  if io s then
    if read_from_callbacks s
    then window (buffer_start s) (img_buffer s) (img_buffer_end s) ++ pending (io_user_data s)
    else []
  else window (memory s) (img_buffer s) (img_buffer_end s).

(** The representation invariant.  The count of the bytes that have gone
    through the buffer must not overflow. *)
Definition ctx_ok s : Prop :=
  if io s then
    buflen s = 128 ∧ length (buffer_start s) = 128%nat ∧ img_buffer_original s = 0 ∧
    0 ≤ img_buffer s ≤ img_buffer_end s ∧ img_buffer_end s ≤ 128 ∧
    0 ≤ callback_already_read s ∧
    (if read_from_callbacks s
     then callback_already_read s + img_buffer s + zlen (remaining s) ≤ INT_MAX
     else pending (io_user_data s) = [] ∧ (∀ i, img_buffer s ≤ i < img_buffer_end s →
            (buffer_start s).[i] = 0))
  else read_from_callbacks s = false ∧ 0 ≤ img_buffer s ∧ img_buffer_end s ≤ zlen (memory s).

(** Inside the buffer. *)
Lemma next_byte_spec s : 0 ≤ img_buffer s < img_buffer_end s → img_buffer_end s ≤ zlen (pointed s) →
  awp_ok next_byte s (λ b s', b = (pointed s).[img_buffer s] ∧
    s' = set_img_buffer (img_buffer s + 1) s).
Proof.
  intros Hp He. unfold next_byte. awp_step. awp_step. awp_step. rewrite rd_ok by lia. cbn. done.
Qed.

Lemma window_bytes l lo hi : 0 ≤ lo < hi → hi ≤ zlen l →
  bytes_at (window l lo hi) 0 = l.[lo] ∧ tail (window l lo hi) = window l (lo + 1) hi.
Proof. intros. by rewrite window_cons. Qed.

Lemma get8_buffered s : ctx_ok s → img_buffer s < img_buffer_end s →
  awp_ok next_byte s (λ b s', ctx_ok s' ∧ b = bytes_at (remaining s) 0 ∧
    remaining s' = tail (remaining s)).
Proof.
  intros Hok Hlt. unfold ctx_ok, remaining in *.
  destruct (io s) eqn:Eio.
  - destruct Hok as (Hbl & Hlen & Horig & Hp & He & Ha & Hrd).
    eapply awp_ok_mono; [apply next_byte_spec; unfold pointed; rewrite ?Eio; lia|].
    intros b s' [-> ->]. unfold pointed. cbn. rewrite Eio.
    destruct (read_from_callbacks s) eqn:Er.
    + rewrite (window_cons _ (img_buffer s)) in Hrd |- * by lia. cbn [app length tail] in *.
      repeat split; try lia; done.
    + destruct Hrd as [Hu Hz]. repeat split; try lia; try done.
      * intros i Hi. apply Hz. lia.
      * apply Hz. lia.
  - destruct Hok as (Hr & Hp & He).
    eapply awp_ok_mono; [apply next_byte_spec; unfold pointed; rewrite ?Eio; lia|].
    intros b s' [-> ->]. unfold pointed. cbn. rewrite Eio.
    rewrite (window_cons _ (img_buffer s)) by lia. repeat split; try lia; done.
Qed.

(** At the end of the buffer, with callbacks: the next chunk is read; it is
    empty only at the end of the data. *)
Lemma refill_spec s : ctx_ok s → io s = true → read_from_callbacks s = true →
  img_buffer_end s ≤ img_buffer s →
  wp (stbi__refill_buffer s) (λ s', ctx_ok s' ∧ img_buffer s' < img_buffer_end s' ∧
    io s' = true ∧
    if read_from_callbacks s' then remaining s' = remaining s
    else remaining s = [] ∧ remaining s' = [] ∧ (buffer_start s').[img_buffer s'] = 0).
Proof.
  intros Hok Eio Er Hge. unfold ctx_ok, remaining in Hok. rewrite Eio, Er in Hok.
  destruct Hok as (Hbl & Hlen & Horig & Hp & He & Ha & Hrd).
  rewrite window_nil in Hrd by lia. cbn [app] in Hrd.
  assert (remaining s = pending (io_user_data s)) as Hrem.
  { unfold remaining. rewrite Eio, Er, window_nil by lia. done. }
  unfold stbi__refill_buffer. rewrite Hbl.
  destruct (io_read_spec (io_user_data s) 128 ltac:(lia)) as (u' & -> & Hu').
  set (l := pending (io_user_data s)) in *. set (data := take (Z.to_nat 128) l) in *.
  assert (zlen data = Z.min 128 (zlen l)) as Hdl by (unfold data; rewrite length_take; lia).
  rewrite i32_ok by (c_unfold; lia). cbn [mbind Res_bind].
  rewrite memcpy_window by lia. cbn [mbind Res_bind].
  set (buf := take (Z.to_nat 0) (buffer_start s) ++ _).
  assert (buf = data ++ drop (length data) (buffer_start s)) as Hbuf.
  { unfold buf, window. rewrite !Z.add_0_l, Z.sub_0_r, !Nat2Z.id. cbn [Z.to_nat take drop app].
    by rewrite firstn_all. }
  clearbody buf. assert (zlen buf = 128) as Hbufl
    by (rewrite Hbuf, length_app, length_drop; lia).
  destruct (Z.eqb_spec (zlen data) 0) as [E0|E0].
  - assert (l = []) as El by (apply length_zero_iff_nil; lia).
    rewrite wr_ok by lia. cbn [mbind Res_bind wp]. unfold ctx_ok, remaining. cbn.
    rewrite Eio, length_zset, Hu', Horig, Er. fold l. rewrite El in *. cbn.
    repeat split; try lia; try done.
    + intros i Hi. replace i with 0 by lia. rewrite znth_zset_eq; [done|lia].
    + by rewrite window_nil by lia.
    + rewrite znth_zset_eq; [done|lia].
  - cbn [wp]. unfold ctx_ok, remaining. cbn. rewrite Eio, Er, Hu', Horig. fold l.
    assert (window buf 0 (zlen data) ++ drop (Z.to_nat 128) l = l) as Hw.
    { unfold window. rewrite Z.sub_0_r, Nat2Z.id, Hbuf. change (Z.to_nat 0) with 0%nat. rewrite drop_0.
      rewrite take_app_length. unfold data. apply take_drop. }
    rewrite Hw, window_nil by lia.
    repeat split; try lia; done.
Qed.

Lemma stbi__get8_spec s : ctx_ok s →
  awp_ok stbi__get8 s (λ b s', ctx_ok s' ∧ b = bytes_at (remaining s) 0 ∧
    remaining s' = tail (remaining s)).
Proof.
  intros Hok. unfold stbi__get8. awp_step. awp_step.
  destruct (Z.ltb_spec (img_buffer s) (img_buffer_end s)) as [Hlt|Hge]; [by apply get8_buffered|].
  destruct (read_from_callbacks s) eqn:Er.
  - assert (io s = true) as Eio by (destruct (io s) eqn:E; [done|]; unfold ctx_ok in Hok;
      rewrite E in Hok; destruct Hok; congruence).
    awp_step. awp_step. eapply wp_mono; [by apply refill_spec|].
    intros s' (Hok' & Hlt & Eio' & Hrem). awp_step. awp_step.
    destruct (read_from_callbacks s') eqn:Er'.
    + rewrite <- Hrem. by apply get8_buffered.
    + destruct Hrem as (H1 & H2 & H3).
      eapply awp_ok_mono; [by apply get8_buffered|]. intros b s'' (Hok'' & Hb & Ht).
      rewrite H1, H2 in *. done.
  - assert (remaining s = []) as E.
    { unfold remaining. rewrite Er. destruct (io s); [done|]. by apply window_nil. }
    awp_step. by rewrite E.
Qed.

(** Dropping within the buffer, and past it. *)
Lemma drop_window l r lo hi n : 0 ≤ lo ≤ hi → hi ≤ zlen l → 0 ≤ n →
  drop (Z.to_nat n) (window l lo hi ++ r) =
    if decide (n ≤ hi - lo) then window l (lo + n) hi ++ r
    else drop (Z.to_nat (n - (hi - lo))) r.
Proof.
  intros. pose proof (length_window l lo hi ltac:(lia) ltac:(lia)). case_decide.
  - rewrite window_drop by lia. rewrite drop_app. f_equal.
    replace (Z.to_nat n - length (window l lo hi))%nat with 0%nat by lia. done.
  - rewrite drop_app, drop_ge by lia. cbn [app]. f_equal. lia.
Qed.

Lemma stbi__skip_spec s n : ctx_ok s → 0 ≤ n →
  awp_ok (stbi__skip n) s (λ _ s', ctx_ok s' ∧ remaining s' = drop (Z.to_nat n) (remaining s)).
Proof.
  intros Hok Hn. unfold stbi__skip. awp_step. awp_step.
  destruct (Z.eqb_spec n 0) as [->|]; [by awp_step|].
  rewrite (proj2 (Z.ltb_ge n 0)) by lia.
  unfold ctx_ok, remaining in *. destruct (io s) eqn:Eio; cbn [andb].
  - destruct Hok as (Hbl & Hlen & Horig & Hp & He & Ha & Hrd).
    pose proof (length_window (buffer_start s) (img_buffer s) (img_buffer_end s)
      ltac:(lia) ltac:(lia)) as Hw.
    destruct (Z.ltb_spec (img_buffer_end s - img_buffer s) n); awp_step; cbn; rewrite Eio.
    + destruct (read_from_callbacks s).
      * rewrite length_app in Hrd.
        rewrite (window_nil _ (img_buffer_end s)), io_skip_spec, drop_window by lia.
        rewrite decide_False by lia. cbn [app]. rewrite length_drop.
        repeat split; try lia; done.
      * destruct Hrd as [Hu Hz]. rewrite io_skip_spec, Hu, !drop_nil by lia.
        repeat split; try lia; done || (intros; lia).
    + destruct (read_from_callbacks s).
      * rewrite drop_window by lia. rewrite decide_True by lia.
        pose proof (length_window (buffer_start s) (img_buffer s + n) (img_buffer_end s)
          ltac:(lia) ltac:(lia)) as Hw'.
        rewrite length_app in *. repeat split; try lia; done.
      * destruct Hrd as [Hu Hz]. rewrite drop_nil. repeat split; try lia; [done|].
        intros. apply Hz. lia.
  - destruct Hok as (Hr & Hp & He). awp_step. cbn. rewrite Eio.
    rewrite window_drop by lia. repeat split; try lia; done.
Qed.

Lemma window_all l : window l 0 (0 + zlen l) = l.
Proof.
  unfold window. rewrite Z.add_0_l, Z.sub_0_r, Nat2Z.id. change (Z.to_nat 0) with 0%nat.
  by rewrite drop_0, firstn_all.
Qed.

(** Two adjacent copies make one. *)
Lemma splice_twice (buf w1 w2 : list Z) off n1 n2 :
  0 ≤ off → n1 = zlen w1 → n2 = zlen w2 → off + n1 + n2 ≤ zlen buf →
  let b1 := take (Z.to_nat off) buf ++ w1 ++ drop (Z.to_nat (off + n1)) buf in
  zlen b1 = zlen buf ∧
  take (Z.to_nat (off + n1)) b1 ++ w2 ++ drop (Z.to_nat (off + n1 + n2)) b1 =
    take (Z.to_nat off) buf ++ (w1 ++ w2) ++ drop (Z.to_nat (off + n1 + n2)) buf.
Proof.
  intros Ho -> -> Hb b1.
  assert (length (take (Z.to_nat off) buf) = Z.to_nat off) as Hl by (rewrite length_take; lia).
  assert (b1 = (take (Z.to_nat off) buf ++ w1) ++ drop (Z.to_nat (off + zlen w1)) buf) as E
    by (unfold b1; by rewrite app_assoc).
  clearbody b1. subst b1. split; [rewrite !length_app, length_drop; lia|].
  rewrite take_app_length' by (rewrite length_app; lia).
  rewrite drop_app, drop_drop, (drop_ge (take _ _ ++ _)) by (rewrite length_app; lia).
  rewrite length_app, Hl. cbn [app]. rewrite <- !app_assoc. do 4 f_equal. lia.
Qed.

Lemma stbi__getn_spec s buf off n : ctx_ok s → 0 ≤ n → 0 ≤ off → off + n ≤ zlen buf →
  awp_ok (stbi__getn buf off n) s (λ r s', ctx_ok s' ∧ length r.1 = length buf ∧
    (0 < n ≤ zlen (remaining s) → r.2 = true ∧ remaining s' = drop (Z.to_nat n) (remaining s) ∧
       r.1 = take (Z.to_nat off) buf ++ take (Z.to_nat n) (remaining s)
             ++ drop (Z.to_nat (off + n)) buf)).
Proof.
  intros Hok Hn Ho Hb. unfold stbi__getn. awp_step. awp_step.
  unfold ctx_ok, remaining, pointed in *. destruct (io s) eqn:Eio; cbn [andb].
  - destruct Hok as (Hbl & Hlen & Horig & Hp & He & Ha & Hrd).
    pose proof (length_window (buffer_start s) (img_buffer s) (img_buffer_end s)
      ltac:(lia) ltac:(lia)) as Hw.
    set (w := window (buffer_start s) (img_buffer s) (img_buffer_end s)) in *.
    destruct (Z.ltb_spec (img_buffer_end s - img_buffer s) n) as [Hs|Hs].
    + set (blen := img_buffer_end s - img_buffer s) in *.
      awp_step. awp_step. rewrite memcpy_window by lia. cbn [wp].
      replace (img_buffer s + blen) with (img_buffer_end s) by lia. fold w.
      destruct (io_read_spec (io_user_data s) (n - blen) ltac:(lia)) as (u' & -> & Hu').
      set (data := take (Z.to_nat (n - blen)) (pending (io_user_data s))).
      assert (zlen data = Z.min (n - blen) (zlen (pending (io_user_data s)))) as Hd
        by (unfold data; rewrite length_take; lia).
      destruct (splice_twice buf w data off blen (zlen data)) as [Hl1 Hsp]; [lia..|].
      awp_step. awp_step. rewrite memcpy_window by lia. cbn [wp]. awp_step. awp_step. awp_step.
      rewrite window_all. rewrite Hsp. cbn. rewrite Eio.
      rewrite (window_nil _ (img_buffer_end s)) by lia. cbn [app].
      rewrite !length_app, length_take, length_drop, Hu'.
      destruct (read_from_callbacks s).
      * rewrite length_app in *. rewrite length_drop. split; [repeat split; lia || done|].
        split; [lia|]. intros Hn'.
        split; [by apply Z.eqb_eq; lia|]. split.
        { unfold w. rewrite drop_window by lia. by rewrite decide_False by lia. }
        f_equal. f_equal; [|f_equal; lia].
        rewrite take_app, (take_ge w) by lia. unfold data. do 2 f_equal. lia.
      * destruct Hrd as [Hu Hz]. rewrite Hu, drop_nil in *.
        split; [repeat split; try lia; done || (intros; lia)|]. split; [lia|]. cbn. lia.
    + rewrite (proj2 (Z.leb_le _ _)) by lia. awp_step. awp_step. rewrite memcpy_window by lia.
      cbn [wp]. awp_step. awp_step. awp_step. cbn. rewrite Eio.
      pose proof (length_window (buffer_start s) (img_buffer s + n) (img_buffer_end s)
        ltac:(lia) ltac:(lia)) as Hw1.
      pose proof (length_window (buffer_start s) (img_buffer s) (img_buffer s + n)
        ltac:(lia) ltac:(lia)) as Hw2.
      rewrite !length_app, length_take, length_drop.
      destruct (read_from_callbacks s).
      * rewrite length_app in *. split; [repeat split; lia || done|]. split; [lia|]. intros _.
        split; [done|]. unfold w. rewrite drop_window by lia. rewrite decide_True by lia.
        split; [done|]. rewrite take_app_le by (fold w; lia). fold w. unfold w.
        by rewrite <- window_take by lia.
      * destruct Hrd as [Hu Hz]. split; [repeat split; try lia; [done|]|].
        { intros. apply Hz. lia. }
        split; [lia|]. cbn. intros. assert (n = 0) as -> by lia. rewrite window_nil by lia. done.
  - destruct Hok as (Hr & Hp & He).
    destruct (Z.leb_spec (img_buffer s + n) (img_buffer_end s)).
    + awp_step. awp_step. rewrite memcpy_window by lia. cbn [wp]. awp_step. awp_step. awp_step.
      cbn. rewrite Eio.
      pose proof (length_window (memory s) (img_buffer s) (img_buffer s + n)
        ltac:(lia) ltac:(lia)) as Hw.
      rewrite !length_app, length_take, length_drop.
      split; [repeat split; lia || done|]. split; [lia|]. intros _. split; [done|].
      split; [by rewrite window_drop by lia|]. by rewrite <- window_take by lia.
    + awp_step. cbn. rewrite Eio. split; [done|]. split; [done|].
      rewrite length_window by lia. lia.
Qed.

Lemma stbi__at_eof_spec s : ctx_ok s →
  awp_ok stbi__at_eof s (λ b s', s' = s ∧ (b = true ↔ remaining s = [])).
Proof.
  intros Hok. unfold stbi__at_eof. awp_step. awp_step.
  unfold ctx_ok, remaining in *. destruct (io s) eqn:Eio.
  - destruct Hok as (Hbl & Hlen & Horig & Hp & He & Ha & Hrd).
    pose proof (length_window (buffer_start s) (img_buffer s) (img_buffer_end s)
      ltac:(lia) ltac:(lia)) as Hw.
    pose proof (io_eof_spec (io_user_data s)) as Hf.
    destruct (read_from_callbacks s), (io_eof (io_user_data s)) eqn:Ef; cbn [negb]; awp_step;
      (split; [done|]).
    + rewrite (proj1 Hf eq_refl), app_nil_r. rewrite Z.leb_le, <- length_zero_iff_nil. lia.
    + split; [done|]. intros [_ E]%app_nil. by apply Hf in E.
    + done.
    + destruct Hrd as [Hu _]. by apply Hf in Hu.
  - destruct Hok as (Hr & Hp & He). awp_step. split; [done|].
    rewrite Z.leb_le, <- length_zero_iff_nil.
    pose proof (length_window (memory s) (img_buffer s) (img_buffer_end s) ltac:(lia) ltac:(lia)).
    lia.
Qed.

#[export] Instance context_stream : ByteStream stbi__get8 stbi__skip stbi__getn stbi__at_eof := {|
  Inv := ctx_ok;
  rest := remaining;
  get8_spec := stbi__get8_spec;
  skip_spec := stbi__skip_spec;
  getn_spec := stbi__getn_spec;
  at_eof_spec := stbi__at_eof_spec
|}.

(** The two ways to open a context. *)
Lemma start_mem_ok buffer len : len ≤ zlen buffer →
  ctx_ok (stbi__start_mem buffer len) ∧
  remaining (stbi__start_mem buffer len) = take (Z.to_nat len) buffer.
Proof.
  intros Hl. unfold ctx_ok, remaining, stbi__start_mem, window. cbn.
  rewrite Z.sub_0_r. auto with lia.
Qed.

Lemma start_callbacks_ok u : zlen (pending u) ≤ INT_MAX →
  wp (stbi__start_callbacks u) (λ s, ctx_ok s ∧ remaining s = pending u).
Proof.
  intros Hu. unfold stbi__start_callbacks. apply wp_bind.
  match goal with |- wp (stbi__refill_buffer ?s0) _ =>
    assert (ctx_ok s0) as Hok0; [|assert (remaining s0 = pending u) as Hrem0 by done] end.
  { unfold ctx_ok, remaining. cbn. repeat split; lia || done. }
  eapply wp_mono; [by apply refill_spec|].
  intros s (Hok & Hlt & Eio & Hrem). cbn [wp]. rewrite <- Hrem0. split; [exact Hok|].
  match goal with |- _ = ?r => change (remaining s = r) end.
  destruct (read_from_callbacks s); [exact Hrem|]. destruct Hrem as (H1 & H2 & _). by rewrite H1.
Qed.
End context.

(** ** Reading leaves the dimensions alone *)
Section dims.
Context `{Env : StbiEnv}.

Definition dims (s : stbi__context) : Z * Z * Z * Z := (img_x s, img_y s, img_n s, img_out_n s).

(** What a successful or failed run keeps. *)
Definition keeps_dims {A} (m : Act stbi__context A) : Prop :=
  ∀ s o s', m s = Ok (o, s') → dims s' = dims s.

Lemma keeps_bind {A B} (m : Act stbi__context A) (k : A → Act stbi__context B) :
  keeps_dims m → (∀ a, keeps_dims (k a)) → keeps_dims (m ≫= k).
Proof.
  intros Hm Hk s o s'. unfold mbind, Act_bind. destruct (m s) as [[[a|e] s1]| |] eqn:E; try done.
  - intros H. rewrite (Hk _ _ _ _ H). by eapply Hm.
  - intros [= <- <-]. by eapply Hm.
Qed.

Lemma keeps_ret {A} (a : A) : keeps_dims (mret a).
Proof. by intros s o s' [= <- <-]. Qed.

Lemma refill_dims s s' : stbi__refill_buffer s = Ok s' → dims s' = dims s.
Proof.
  unfold stbi__refill_buffer. destruct (io_read _ _) as [data u]. intros H. inv_ok.
  destruct (_ =? 0); inv_ok; by subst.
Qed.

Lemma next_byte_dims : keeps_dims next_byte.
Proof.
  intros s o s'. unfold next_byte, mbind, Act_bind, get, lift, put. destruct (rd _ _); try done.
  by intros [= <- <-].
Qed.

Lemma get8_dims : keeps_dims stbi__get8.
Proof.
  intros s o s'. unfold stbi__get8. unfold mbind at 1, Act_bind at 1, get.
  destruct (_ <? _); [apply next_byte_dims|]. destruct (read_from_callbacks s); [|by intros [= <- <-]].
  unfold mbind, Act_bind, lift, put. destruct (stbi__refill_buffer s) as [s1| |] eqn:E; try done.
  intros H. apply next_byte_dims in H. rewrite H. by apply refill_dims.
Qed.

Lemma get32be_dims : keeps_dims stbi__get32be.
Proof.
  unfold stbi__get32be, stbi__get16be. repeat first [apply get8_dims|apply keeps_ret|apply keeps_bind; [|intros ?]].
Qed.

Lemma getn_dims buf off n : keeps_dims (stbi__getn buf off n).
Proof.
  intros s o s'. unfold stbi__getn. unfold mbind at 1, Act_bind at 1, get. destruct (io s && _).
  - unfold mbind, Act_bind, lift, put. destruct (memcpy _ _ _ _ _); try done.
    destruct (io_read _ _) as [data u]. cbn. destruct (memcpy _ _ _ _ _); try done. by intros [= <- <-].
  - destruct (_ <=? _); [|by intros [= <- <-]].
    unfold mbind, Act_bind, lift, put. destruct (memcpy _ _ _ _ _); try done. by intros [= <- <-].
Qed.

Lemma awp_ok_dims {A} (m : Act stbi__context A) s (Q : A → stbi__context → Prop) : keeps_dims m →
  awp_ok m s Q → awp_ok m s (λ a s', Q a s' ∧ dims s' = dims s).
Proof.
  intros Hk H. unfold awp_ok, awp in *. destruct (m s) as [[[a|e] s']| |] eqn:E; cbn in *; try done.
  split; [done|]. by eapply Hk.
Qed.
End dims.

(** ** The position in the stream *)
Section position.
Context `{Env : StbiEnv} {Cb : Callbacks}.

(** The context is good and has [l] to come. *)
Definition has (l : list Z) (s : stbi__context) : Prop := ctx_ok s ∧ remaining s = l.

Lemma get8_has b l s : has (b :: l) s → awp_ok stbi__get8 s (λ r s', r = b ∧ has l s').
Proof.
  intros [Hok Hr]. eapply awp_ok_mono; [by apply stbi__get8_spec|]. cbn beta.
  intros r s' (Hok' & -> & Hr'). rewrite Hr in *. done.
Qed.

Definition position (s : stbi__context) : Z :=
  callback_already_read s + (img_buffer s - img_buffer_original s).

Lemma get8_position s o s' : ctx_ok s → remaining s ≠ [] → stbi__get8 s = Ok (o, s') → position s' = position s + 1.
Proof.
  intros Hok Hne. unfold stbi__get8, mbind, Act_bind, get. unfold ctx_ok, remaining in *.
  destruct (Z.ltb_spec (img_buffer s) (img_buffer_end s)).
  { unfold next_byte, mbind, Act_bind, get, lift, put. destruct (rd _ _); try done. intros [= _ <-]. unfold position. cbn. lia. }
  destruct (read_from_callbacks s) eqn:Er.
  - destruct (io s); [|destruct Hok as [? _]; congruence]. destruct Hok as (_ & _ & Horig & _). unfold lift, put.
    destruct (stbi__refill_buffer s) as [s1| |] eqn:E; try done.
    assert (position s1 = position s) as <-.
    { unfold stbi__refill_buffer in E. destruct (io_read _ _) as [data u]. inv_ok.
      match goal with H : i32 _ = Ok _ |- _ => apply i32_Ok_inv in H as [-> _] end.
      unfold position. destruct (_ =? 0); inv_ok; subst; cbn; lia. }
    unfold next_byte, mbind, Act_bind, get, lift, put. destruct (rd _ _); try done. intros [= _ <-]. unfold position. cbn. lia.
  - destruct (io s); [done|]. by rewrite window_nil in Hne by lia.
Qed.
End position.

(** ** Clients of the stream

    Numbers of several bytes are their positional values. *)
Section clients.
Context {Cx : StbiEnv} {Cb : Callbacks}.

(** The value of [n] bytes, the first the least (or most) significant. *)
Definition le_value (n : nat) (l : list Z) : Z :=
  foldr (λ i acc, bytes_at l i + 256 * acc) 0 (seq 0 n).
Definition be_value (n : nat) (l : list Z) : Z :=
  foldl (λ acc i, 256 * acc + bytes_at l i) 0 (seq 0 n).

Definition is_byte (b : Z) : Prop := 0 ≤ b < 256.

Lemma bytes_at_byte l i : Forall is_byte l → is_byte (bytes_at l i).
Proof.
  intros H. unfold bytes_at. destruct (l !! i) eqn:E; cbn; [|by split].
  by eapply Forall_lookup_1.
Qed.

Lemma bytes_at_tail l i : bytes_at (tail l) i = bytes_at l (S i).
Proof. by destruct l. Qed.

Lemma get16_spec s : ctx_ok s →
  awp_ok stbi__get16be s (λ v s', ctx_ok s' ∧ v = be_value 2 (remaining s) ∧
    remaining s' = drop 2 (remaining s)) ∧
  awp_ok stbi__get16le s (λ v s', ctx_ok s' ∧ v = le_value 2 (remaining s) ∧
    remaining s' = drop 2 (remaining s)).
Proof.
  intros Hok. unfold stbi__get16be, stbi__get16le.
  split; awp_step; (eapply awp_ok_mono; [by apply get8_spec|]); intros b s1 (Hok1 & -> & Hr1);
    awp_step; (eapply awp_ok_mono; [by apply get8_spec|]); intros b' s2 (Hok2 & -> & Hr2);
    awp_step; (split; [done|]); cbn [rest context_stream] in *; rewrite Hr2, Hr1, bytes_at_tail;
    (split; [|by destruct (remaining s) as [|? []]]);
    cbn; rewrite Z.shiftl_mul_pow2 by lia; lia.
Qed.

Lemma drop_tail_2 (l : list Z) : tail (tail l) = drop 2 l.
Proof. by destruct l as [|? []]. Qed.

Lemma get32_spec s : ctx_ok s →
  awp_ok stbi__get32be s (λ v s', ctx_ok s' ∧ v = u32 (be_value 4 (remaining s)) ∧
    remaining s' = drop 4 (remaining s)) ∧
  awp_ok stbi__get32le s (λ v s', ctx_ok s' ∧ v = u32 (le_value 4 (remaining s)) ∧
    remaining s' = drop 4 (remaining s)).
Proof.
  intros Hok. unfold stbi__get32be, stbi__get32le.
  assert (∀ l i, bytes_at (drop 2 l) i = bytes_at l (2 + i)) as Hb
    by (intros; unfold bytes_at; by rewrite lookup_drop).
  split; awp_step; (eapply awp_ok_mono; [by apply get16_spec|]); intros v s1 (Hok1 & -> & Hr1);
    awp_step; (eapply awp_ok_mono; [by apply get16_spec|]); intros v' s2 (Hok2 & -> & Hr2);
    awp_step; (split; [done|]); rewrite Hr2, Hr1; (split; [|by rewrite drop_drop]);
    unfold u32, le_value, be_value; cbn [foldl foldr seq]; rewrite !Hb, Z.shiftl_mul_pow2 by lia;
    cbn [Nat.add].
  - rewrite Zplus_mod_idemp_l. f_equal. lia.
  - rewrite Zplus_mod_idemp_r. f_equal. lia.
Qed.

(** A client's requests, what it observes of the context, and what it should
    observe of the stream [l]. *)
Inductive request :=
| Get8 | Get16be | Get16le | Get32be | Get32le | Skip (n : Z) | Getn (n : Z) | AtEof.

Definition perform (r : request) : Act stbi__context (list Z) :=
  match r with
  | Get8 => v ← stbi__get8; mret [v]
  | Get16be => v ← stbi__get16be; mret [v]
  | Get16le => v ← stbi__get16le; mret [v]
  | Get32be => v ← stbi__get32be; mret [v]
  | Get32le => v ← stbi__get32le; mret [v]
  | Skip n => stbi__skip n;; mret []
  | Getn n => '(buf, there) ← stbi__getn (replicate (Z.to_nat n) 0) 0 n; mret (Z.b2z there :: buf)
  | AtEof => b ← stbi__at_eof; mret [Z.b2z b]
  end.

Definition expected (r : request) (l : list Z) : list Z * list Z :=
  match r with
  | Get8 => ([bytes_at l 0], tail l)
  | Get16be => ([be_value 2 l], drop 2 l)
  | Get16le => ([le_value 2 l], drop 2 l)
  | Get32be => ([u32 (be_value 4 l)], drop 4 l)
  | Get32le => ([u32 (le_value 4 l)], drop 4 l)
  | Skip n => ([], drop (Z.to_nat n) l)
  | Getn n => (1 :: take (Z.to_nat n) l, drop (Z.to_nat n) l)
  | AtEof => ([Z.b2z (bool_decide (l = []))], l)
  end.

(** [skip] with a negative count and [getn] beyond the end have no promise. *)
Definition permitted (r : request) (l : list Z) : Prop :=
  match r with
  | Skip n => 0 ≤ n
  | Getn n => 0 < n ≤ zlen l
  | _ => True
  end.

Fixpoint perform_all (rs : list request) : Act stbi__context (list (list Z)) :=
  match rs with
  | [] => mret []
  | r :: rs => v ← perform r; vs ← perform_all rs; mret (v :: vs)
  end.

Fixpoint expected_all (rs : list request) (l : list Z) : list (list Z) :=
  match rs with
  | [] => []
  | r :: rs => let '(v, l) := expected r l in v :: expected_all rs l
  end.

Fixpoint permitted_all (rs : list request) (l : list Z) : Prop :=
  match rs with
  | [] => True
  | r :: rs => permitted r l ∧ permitted_all rs (expected r l).2
  end.

Lemma perform_spec r s : ctx_ok s → permitted r (remaining s) →
  awp_ok (perform r) s (λ v s', ctx_ok s' ∧ (v, remaining s') = expected r (remaining s)).
Proof.
  intros Hok Hp. destruct r; cbn [perform expected permitted] in *; awp_step.
  - eapply awp_ok_mono; [by apply get8_spec|]. intros v s' (? & -> & Hr). awp_step.
    cbn in Hr. by rewrite Hr.
  - eapply awp_ok_mono; [by apply get16_spec|]. intros v s' (? & -> & Hr). awp_step. by rewrite Hr.
  - eapply awp_ok_mono; [by apply get16_spec|]. intros v s' (? & -> & Hr). awp_step. by rewrite Hr.
  - eapply awp_ok_mono; [by apply get32_spec|]. intros v s' (? & -> & Hr). awp_step. by rewrite Hr.
  - eapply awp_ok_mono; [by apply get32_spec|]. intros v s' (? & -> & Hr). awp_step. by rewrite Hr.
  - eapply awp_ok_mono; [by apply skip_spec|]. intros v s' (? & Hr). awp_step. cbn in Hr. by rewrite Hr.
  - eapply awp_ok_mono; [apply getn_spec; [done|lia|lia|rewrite length_replicate; lia]|].
    intros [buf there] s' (? & Hl & Hg). destruct (Hg Hp) as (Ht & Hr & Hb). cbn in Hr, Ht, Hb, Hl.
    awp_step. rewrite Hr, Ht, Hb. split; [done|]. cbn [Z.b2z]. do 2 f_equal.
    rewrite drop_ge by (rewrite length_replicate; lia). by rewrite app_nil_r.
  - eapply awp_ok_mono; [by apply at_eof_spec|]. intros b s' [-> Hb]. awp_step. split; [done|].
    do 3 f_equal. cbn in Hb. destruct b; symmetry; [apply bool_decide_eq_true|apply bool_decide_eq_false];
      naive_solver.
Qed.

(** C11. The reading context refines a list of bytes: whether it reads from
    memory or, in chunks, through the client's callbacks, any sequence of reads
    (of one byte, of 16- and 32-bit numbers of either byte order, of blocks),
    skips and end tests gives exactly what the same sequence gives on the list
    of the bytes to come, with zeros past its end. *)
Theorem context_refines_stream rs s : ctx_ok s → permitted_all rs (remaining s) →
  awp_ok (perform_all rs) s (λ vs s', ctx_ok s' ∧ vs = expected_all rs (remaining s)).
Proof.
  revert s. induction rs as [|r rs IH]; intros s Hok Hp; cbn [perform_all expected_all] in *.
  - by awp_step.
  - destruct Hp as [Hp Hps]. awp_step. eapply awp_ok_mono; [by apply perform_spec|].
    intros v s1 [Hok1 He]. rewrite <- He in Hps |- *. cbn [snd] in Hps.
    awp_step. eapply awp_ok_mono; [by apply IH|]. intros vs s2 [Hok2 ->]. by awp_step.
Qed.
End clients.

(** A memory context and a callback context over the same bytes. *)
Section example.
Definition toy_callbacks : @Callbacks toy_env.
Proof.
  refine (@Build_Callbacks toy_env (λ u, u) _ _ _).
  - intros u n Hn. by exists (drop (Z.to_nat n) u).
  - done.
  - intros u. cbn. by rewrite bool_decide_eq_true.
Defined.

Definition toy_requests : list request :=
  [Get8; Get16be; Getn 3; Skip 1; AtEof; Get32le; AtEof; Get8].

Lemma context_refines_stream_witness :
  let data := [1; 2; 3; 4; 5; 6; 7; 8] in
  ∃ vs s', perform_all (Cx := toy_env) toy_requests (@stbi__start_mem toy_env data 8) = Ok (Val vs, s') ∧
    vs = [[1]; [515]; [1; 4; 5; 6]; []; [0]; [8]; [1]; [0]].
Proof.
  intros data. destruct (@start_mem_ok toy_env toy_callbacks data 8 ltac:(done)) as [Hok Hr].
  pose proof (@context_refines_stream toy_env toy_callbacks toy_requests
    (@stbi__start_mem toy_env data 8) Hok) as H.
  rewrite Hr in H. destruct (awp_ok_elim _ _ _ (H ltac:(vm_compute; repeat split; done))) as (vs & s' & E & _ & ->).
  eexists _, s'. split; [exact E|]. reflexivity.
Defined.
End example.
