(* ===== verification/StbZlib.v ===== *)
(** * stb_image: the zlib decoder (facet/gpu/stb_image.h, lines 4081-4594)

    The state of a decoder is [stbi__zbuf]: the input is the list [zin] with
    the positions [zbuffer] and [zbuffer_end] in it, the output object is
    [zout_start] (whose length is [zout_end - zout_start]) with the write
    position [zout].  The loops over blocks and over the symbols of a block
    take the number of iterations as [fuel]; the inner loops have constant
    bounds. *)
From S2P Require Import Prelude StbMonad StbBase.

Definition STBI__ZFAST_BITS : Z := 9.
Definition STBI__ZFAST_MASK : Z := Z.shiftl 1 STBI__ZFAST_BITS - 1.
Definition STBI__ZNSYMS : Z := 288.

Record stbi__zhuffman := {
  fast : list Z; firstcode : list Z; maxcode : list Z; firstsymbol : list Z;
  size : list Z; value : list Z
}.


(** Shifts of an [unsigned int]: the count must be below 32. *)
Definition shl32 (x n : Z) : Res Z :=
  if (0 <=? n) && (n <? 32) then Ok (u32 (Z.shiftl x n)) else Undef.
Definition shr32 (x n : Z) : Res Z :=
  if (0 <=? n) && (n <? 32) then Ok (Z.shiftr x n) else Undef.

Definition stbi__bitreverse16 (n : Z) : Z :=
  let n := Z.lor (Z.shiftr (Z.land n 0xAAAA) 1) (Z.shiftl (Z.land n 0x5555) 1) in
  let n := Z.lor (Z.shiftr (Z.land n 0xCCCC) 2) (Z.shiftl (Z.land n 0x3333) 2) in
  let n := Z.lor (Z.shiftr (Z.land n 0xF0F0) 4) (Z.shiftl (Z.land n 0x0F0F) 4) in
  Z.lor (Z.shiftr (Z.land n 0xFF00) 8) (Z.shiftl (Z.land n 0x00FF) 8).

(** The assertion is enabled. *)
Definition stbi__bit_reverse (v bits : Z) : Res Z :=
  if bits <=? 16 then Ok (Z.shiftr (stbi__bitreverse16 v) (16 - bits)) else Undef.

(** ** Building the decoding tables *)

(** [++sizes[sizelist[i]]] over the list that starts at [off]. *)
Definition count_sizes (sizelist : list Z) (off num : Z) : Res (list Z) :=
  for_range 0 num (λ i sizes,
    s ← rd sizelist (off + i);
    c ← rd sizes s;
    c ← i32 (c + 1);
    wr sizes s c) (replicate 17 0).

(** One code length [i]: the first code and symbol of that length, and where
    the codes of the next length begin. *)
Definition assign_length (sizes : list Z) (i : Z) (s : Z * Z * list Z)
  : Act stbi__zhuffman (Z * Z * list Z) :=
  let '(code, k, next_code) := s in
  next_code ← lift (wr next_code i code);
  z ← get;
  fc ← lift (wr (firstcode z) i (u16 code));
  fs ← lift (wr (firstsymbol z) i (u16 k));
  n ← lift (rd sizes i);
  code ← lift (i32 (code + n));
  fail_if (negb (n =? 0) && (Z.shiftl 1 i <=? code - 1)) "bad codelengths";;
  m ← lift (i32 (Z.shiftl code (16 - i)));
  mc ← lift (wr (maxcode z) i m);
  put {| fast := fast z; firstcode := fc; maxcode := mc; firstsymbol := fs;
         size := size z; value := value z |};;
  code ← lift (i32 (Z.shiftl code 1));
  mret (code, k + n, next_code).

(** [while (j < 512) { fast[j] = fastv; j += 1 << s; }] *)
Definition fill_fast (s fastv j : Z) (fast : list Z) : Res (list Z) :=
  fst <$> (fell <$> loop (R := Empty_set) 513 (λ '(fast, j),
    if j <? Z.shiftl 1 STBI__ZFAST_BITS then
      fast ← wr fast j fastv; Ok (Next (fast, j + Z.shiftl 1 s))
    else Ok (Break (fast, j))) (fast, j)).

(** One symbol [i]: its place in the sorted tables and, for a short code, in
    every slot of the fast table it is a prefix of. *)
Definition assign_symbol (sizelist : list Z) (off i : Z) (next_code : list Z)
  : Act stbi__zhuffman (list Z) :=
  s ← lift (rd sizelist (off + i));
  if s =? 0 then mret next_code else
  z ← get;
  nc ← lift (rd next_code s);
  fc ← lift (rd (firstcode z) s);
  fs ← lift (rd (firstsymbol z) s);
  let c := nc - fc + fs in
  let fastv := u16 (Z.lor (Z.shiftl s 9) i) in
  sz ← lift (wr (size z) c (u8 s));
  vl ← lift (wr (value z) c (u16 i));
  ft ← (if s <=? STBI__ZFAST_BITS then
          j ← lift (stbi__bit_reverse nc s);
          lift (fill_fast s fastv j (fast z))
        else mret (fast z));
  put {| fast := ft; firstcode := firstcode z; maxcode := maxcode z;
         firstsymbol := firstsymbol z; size := sz; value := vl |};;
  lift (wr next_code s (nc + 1)).

Section zlib.
Context `{Env : StbiEnv}.

Definition stbi__zbuild_huffman (sizelist : list Z) (off num : Z) : Act stbi__zhuffman unit :=
  modify (λ z, {| fast := replicate 512 0; firstcode := firstcode z; maxcode := maxcode z;
                  firstsymbol := firstsymbol z; size := size z; value := value z |});;
  sizes ← lift (count_sizes sizelist off num);
  sizes ← lift (wr sizes 0 0);
  a_for 1 16 (λ i _, n ← lift (rd sizes i); fail_if (Z.shiftl 1 i <? n) "bad sizes") ();;
  '(_, _, next_code) ← a_for 1 16 (assign_length sizes) (0, 0, malloc_arr uninit 16);
  z ← get;
  mc ← lift (wr (maxcode z) 16 0x10000);
  put {| fast := fast z; firstcode := firstcode z; maxcode := mc;
         firstsymbol := firstsymbol z; size := size z; value := value z |};;
  a_for 0 num (assign_symbol sizelist off) next_code;;
  mret ().

(** ** Bits *)
Record stbi__zbuf := {
  zin : list Z; zbuffer : Z; zbuffer_end : Z;
  num_bits : Z; hit_zeof_once : bool; code_buffer : Z;
  zout_start : list Z; zout : Z; z_expandable : bool;
  z_length : stbi__zhuffman; z_distance : stbi__zhuffman
}.

Definition set_zbuffer (p : Z) (a : stbi__zbuf) : stbi__zbuf :=
  {| zin := zin a; zbuffer := p; zbuffer_end := zbuffer_end a; num_bits := num_bits a;
     hit_zeof_once := hit_zeof_once a; code_buffer := code_buffer a; zout_start := zout_start a;
     zout := zout a; z_expandable := z_expandable a; z_length := z_length a;
     z_distance := z_distance a |}.

Definition set_bits (code n : Z) (hit : bool) (a : stbi__zbuf) : stbi__zbuf :=
  {| zin := zin a; zbuffer := zbuffer a; zbuffer_end := zbuffer_end a; num_bits := n;
     hit_zeof_once := hit; code_buffer := code; zout_start := zout_start a;
     zout := zout a; z_expandable := z_expandable a; z_length := z_length a;
     z_distance := z_distance a |}.

Definition set_zout (start : list Z) (pos : Z) (a : stbi__zbuf) : stbi__zbuf :=
  {| zin := zin a; zbuffer := zbuffer a; zbuffer_end := zbuffer_end a; num_bits := num_bits a;
     hit_zeof_once := hit_zeof_once a; code_buffer := code_buffer a; zout_start := start;
     zout := pos; z_expandable := z_expandable a; z_length := z_length a;
     z_distance := z_distance a |}.

Definition set_tables (zl zd : stbi__zhuffman) (a : stbi__zbuf) : stbi__zbuf :=
  {| zin := zin a; zbuffer := zbuffer a; zbuffer_end := zbuffer_end a; num_bits := num_bits a;
     hit_zeof_once := hit_zeof_once a; code_buffer := code_buffer a; zout_start := zout_start a;
     zout := zout a; z_expandable := z_expandable a; z_length := zl; z_distance := zd |}.

Definition stbi__zeof (a : stbi__zbuf) : bool := zbuffer_end a <=? zbuffer a.

Definition stbi__zget8 : Act stbi__zbuf Z :=
  a ← get;
  if stbi__zeof a then mret 0 else
  b ← lift (rd (zin a) (zbuffer a));
  put (set_zbuffer (zbuffer a + 1) a);; mret b.

(** At most five passes: [num_bits] grows by eight in each. *)
Definition stbi__fill_bits : Act stbi__zbuf unit :=
  a_loop 5 (λ _,
    a ← get;
    limit ← lift (shl32 1 (num_bits a));
    if limit <=? code_buffer a then
      put (set_zbuffer (zbuffer_end a) a);; mret (Return ())
    else
      b ← stbi__zget8;
      sb ← lift (shl32 b (num_bits a));
      modify (λ a, set_bits (Z.lor (code_buffer a) sb) (num_bits a + 8) (hit_zeof_once a) a);;
      mret (if num_bits a + 8 <=? 24 then Next () else Break ())) ();;
  mret ().

Definition stbi__zreceive (n : Z) : Act stbi__zbuf Z :=
  a ← get;
  (if num_bits a <? n then stbi__fill_bits else mret ());;
  a ← get;
  let k := Z.land (code_buffer a) (Z.shiftl 1 n - 1) in
  c ← lift (shr32 (code_buffer a) n);
  put (set_bits c (num_bits a - n) (hit_zeof_once a) a);;
  mret k.

(** ** Decoding a symbol; -1 is an invalid code. *)
Definition stbi__zhuffman_decode_slowpath (z : stbi__zhuffman) : Act stbi__zbuf Z :=
  a ← get;
  k ← lift (stbi__bit_reverse (sx 32 (code_buffer a)) 16);
  s ← lift (fell <$> loop (R := Empty_set) 8 (λ s,
    m ← rd (maxcode z) s; Ok (if k <? m then Break s else Next (s + 1)))
    (STBI__ZFAST_BITS + 1));
  if 16 <=? s then mret (-1) else
  fc ← lift (rd (firstcode z) s);
  fs ← lift (rd (firstsymbol z) s);
  let b := Z.shiftr k (16 - s) - fc + fs in
  if STBI__ZNSYMS <=? b then mret (-1) else
  sb ← lift (rd (size z) b);
  if negb (sb =? s) then mret (-1) else
  c ← lift (shr32 (code_buffer a) s);
  put (set_bits c (num_bits a - s) (hit_zeof_once a) a);;
  lift (rd (value z) b).

Definition stbi__zhuffman_decode (z : stbi__zhuffman) : Act stbi__zbuf Z :=
  a ← get;
  ok ← (if num_bits a <? 16 then
          if stbi__zeof a then
            if negb (hit_zeof_once a) then
              put (set_bits (code_buffer a) (num_bits a + 16) true a);; mret true
            else mret false
          else stbi__fill_bits;; mret true
        else mret true);
  if negb ok then mret (-1) else
  a ← get;
  b ← lift (rd (fast z) (Z.land (code_buffer a) STBI__ZFAST_MASK));
  if negb (b =? 0) then
    let s := Z.shiftr b 9 in
    c ← lift (shr32 (code_buffer a) s);
    put (set_bits c (num_bits a - s) (hit_zeof_once a) a);;
    mret (Z.land b 511)
  else stbi__zhuffman_decode_slowpath z.

(** ** Output *)

(** The doubling takes at most 32 passes from a non-empty buffer; from an empty
    one it would not end. *)
Definition stbi__zexpand (pos n : Z) : Act stbi__zbuf unit :=
  modify (λ a, set_zout (zout_start a) pos a);;
  a ← get;
  fail_if (negb (z_expandable a)) "output buffer limit";;
  let cur := u32 (zout a) in
  let old_limit := u32 (zlen (zout_start a)) in
  fail_if (UINT_MAX - cur <? u32 n) "outofmem";;
  limit ← a_loop (R := Z) 33 (λ limit,
    if u32 (cur + n) <=? limit then mret (Return limit)
    else fail_if (UINT_MAX / 2 <? limit) "outofmem";; mret (Next (u32 (limit * 2)))) old_limit;
  match limit with
  | Gave limit =>
      if malloc_ok limit then
        put (set_zout (zout_start a ++ malloc_arr uninit (limit - old_limit)) cur a)
      else fail "outofmem"
  | Fell _ => mret ()
  end.

Definition stbi__zlength_base : list Z :=
  [3;4;5;6;7;8;9;10;11;13; 15;17;19;23;27;31;35;43;51;59; 67;83;99;115;131;163;195;227;258;0;0].
Definition stbi__zlength_extra : list Z :=
  [0;0;0;0;0;0;0;0;1;1;1;1;2;2;2;2;3;3;3;3;4;4;4;4;5;5;5;5;0;0;0].
Definition stbi__zdist_base : list Z :=
  [1;2;3;4;5;7;9;13;17;25;33;49;65;97;129;193;257;385;513;769;1025;1537;2049;3073;4097;6145;
   8193;12289;16385;24577;0;0].
Definition stbi__zdist_extra : list Z :=
  [0;0;0;0;1;1;2;2;3;3;4;4;5;5;6;6;7;7;8;8;9;9;10;10;11;11;12;12;13;13;0;0].

(** [do *zout++ = *p++; while (--len);], byte by byte; the run of one byte is
    the same loop with the byte read once. *)
Definition copy_match (out : list Z) (pos dist len : Z) : Res (list Z) :=
  if dist =? 1 then
    v ← rd out (pos - dist);
    for_range 0 len (λ i out, wr out (pos + i) v) out
  else
    for_range 0 len (λ i out, v ← rd out (pos - dist + i); wr out (pos + i) v) out.

(** Makes room for [n] bytes at [pos] when the test [full] says so, and tells
    where writing goes on. *)
Definition room (full : bool) (pos n : Z) : Act stbi__zbuf Z :=
  if full then stbi__zexpand pos n;; gets zout else mret pos.

(** The part of the block loop for a length symbol [z]: length, distance, copy.
    The result is the new write position. *)
Definition match_symbol (z pos : Z) : Act stbi__zbuf Z :=
  fail_if (286 <=? z) "bad huffman code";;
  let z := z - 257 in
  len ← lift (rd stbi__zlength_base z);
  e ← lift (rd stbi__zlength_extra z);
  len ← (if negb (e =? 0) then x ← stbi__zreceive e; mret (len + x) else mret len);
  a ← get;
  z ← stbi__zhuffman_decode (z_distance a);
  fail_if ((z <? 0) || (30 <=? z)) "bad huffman code";;
  dist ← lift (rd stbi__zdist_base z);
  e ← lift (rd stbi__zdist_extra z);
  dist ← (if negb (e =? 0) then x ← stbi__zreceive e; mret (dist + x) else mret dist);
  fail_if (pos <? dist) "bad dist";;
  a ← get;
  pos ← room (zlen (zout_start a) - pos <? len) pos len;
  a ← get;
  out ← lift (copy_match (zout_start a) pos dist len);
  put (set_zout out (zout a) a);;
  mret (pos + len).

(** One iteration; the local [zout] is the loop's value. *)
Definition huffman_step (pos : Z) : Act stbi__zbuf (ctl Z unit) :=
  a ← get;
  z ← stbi__zhuffman_decode (z_length a);
  if z <? 256 then
    fail_if (z <? 0) "bad huffman code";;
    a ← get;
    pos ← room (zlen (zout_start a) <=? pos) pos 1;
    a ← get;
    out ← lift (wr (zout_start a) pos z);
    put (set_zout out (zout a) a);;
    mret (Next (pos + 1))
  else if z =? 256 then
    modify (λ a, set_zout (zout_start a) pos a);;
    a ← get;
    fail_if (hit_zeof_once a && (num_bits a <? 16)) "unexpected end";;
    mret (Return ())
  else
    pos ← match_symbol z pos; mret (Next pos).

Definition stbi__parse_huffman_block (fuel : nat) : Act stbi__zbuf unit :=
  pos ← gets zout; a_loop fuel huffman_step pos;; mret ().

(** ** Blocks *)
Definition length_dezigzag : list Z := [16;17;18;0;8;7;9;6;10;5;11;4;12;3;13;2;14;1;15].

Definition junk_zhuffman : stbi__zhuffman :=
  {| fast := malloc_arr uninit 512; firstcode := malloc_arr uninit 16;
     maxcode := malloc_arr uninit 17; firstsymbol := malloc_arr uninit 16;
     size := malloc_arr uninit 288; value := malloc_arr uninit 288 |}.

(** [stbi__zbuild_huffman] on a table of its own. *)
Definition build_table (z : stbi__zhuffman) (sizelist : list Z) (off num : Z)
  : Act stbi__zbuf stbi__zhuffman := λ a,
  match stbi__zbuild_huffman sizelist off num z with
  | Ok (Val _, z') => Ok (Val z', a)
  | Ok (Fail e, _) => Ok (Fail e, a)
  | Undef => Undef
  | NoFuel => NoFuel
  end.

(** One code-length symbol; the loop's value is [(lencodes, n)]. *)
Definition codelength_step (zc : stbi__zhuffman) (ntot : Z) (s : list Z * Z)
  : Act stbi__zbuf (ctl (list Z * Z) Empty_set) :=
  let '(lencodes, n) := s in
  if negb (n <? ntot) then mret (Break s) else
  c ← stbi__zhuffman_decode zc;
  fail_if ((c <? 0) || (19 <=? c)) "bad codelengths";;
  if c <? 16 then
    lencodes ← lift (wr lencodes n (u8 c)); mret (Next (lencodes, n + 1))
  else
    '(c, fill) ←
      (if c =? 16 then
         x ← stbi__zreceive 2;
         fail_if (n =? 0) "bad codelengths";;
         f ← lift (rd lencodes (n - 1)); mret (x + 3, f)
       else if c =? 17 then x ← stbi__zreceive 3; mret (x + 3, 0)
       else if c =? 18 then x ← stbi__zreceive 7; mret (x + 11, 0)
       else fail "bad codelengths");
    fail_if (ntot - n <? c) "bad codelengths";;
    lencodes ← lift (memset lencodes n fill c);
    mret (Next (lencodes, n + c)).

Definition stbi__compute_huffman_codes : Act stbi__zbuf unit :=
  x ← stbi__zreceive 5; let hlit := x + 257 in
  x ← stbi__zreceive 5; let hdist := x + 1 in
  x ← stbi__zreceive 4; let hclen := x + 4 in
  let ntot := hlit + hdist in
  codelength_sizes ← a_for 0 hclen (λ i sizes,
    s ← stbi__zreceive 3;
    d ← lift (rd length_dezigzag i);
    lift (wr sizes d (u8 s))) (replicate 19 0);
  zc ← build_table junk_zhuffman codelength_sizes 0 19;
  r ← a_loop (S (Z.to_nat ntot)) (codelength_step zc ntot) (malloc_arr uninit (286 + 32 + 137), 0);
  let '(lencodes, n) := fell r in
  fail_if (negb (n =? ntot)) "bad codelengths";;
  a ← get;
  zl ← build_table (z_length a) lencodes 0 hlit;
  modify (λ a, set_tables zl (z_distance a) a);;
  zd ← build_table (z_distance a) lencodes hlit hdist;
  modify (λ a, set_tables (z_length a) zd a).

(** The header bytes still in the bit buffer: at most four. *)
Definition drain_bits (header : list Z) : Act stbi__zbuf (list Z * Z) :=
  r ← a_loop (R := Empty_set) 5 (λ '(header, k),
    a ← get;
    if 0 <? num_bits a then
      header ← lift (wr header k (u8 (Z.land (code_buffer a) 255)));
      c ← lift (shr32 (code_buffer a) 8);
      put (set_bits c (num_bits a - 8) (hit_zeof_once a) a);;
      mret (Next (header, k + 1))
    else mret (Break (header, k))) (header, 0);
  mret (fell r).

Definition stbi__parse_uncompressed_block : Act stbi__zbuf unit :=
  a ← get;
  (if negb (Z.land (num_bits a) 7 =? 0)
   then stbi__zreceive (Z.land (num_bits a) 7);; mret () else mret ());;
  '(header, k) ← drain_bits (malloc_arr uninit 4);
  a ← get;
  fail_if (num_bits a <? 0) "zlib corrupt";;
  header ← a_for k 4 (λ k header, b ← stbi__zget8; lift (wr header k b)) header;
  h0 ← lift (rd header 0); h1 ← lift (rd header 1);
  h2 ← lift (rd header 2); h3 ← lift (rd header 3);
  let len := h1 * 256 + h0 in
  let nlen := h3 * 256 + h2 in
  fail_if (negb (nlen =? Z.lxor len 0xffff)) "zlib corrupt";;
  a ← get;
  fail_if (zbuffer_end a <? zbuffer a + len) "read past buffer";;
  (if zlen (zout_start a) <? zout a + len then stbi__zexpand (zout a) len else mret ());;
  a ← get;
  out ← lift (memcpy (zout_start a) (zout a) (zin a) (zbuffer a) len);
  put (set_zout out (zout a + len) (set_zbuffer (zbuffer a + len) a)).

Definition stbi__parse_zlib_header : Act stbi__zbuf unit :=
  cmf ← stbi__zget8;
  let cm := Z.land cmf 15 in
  flg ← stbi__zget8;
  a ← get;
  fail_if (stbi__zeof a) "bad zlib header";;
  fail_if (negb ((cmf * 256 + flg) mod 31 =? 0)) "bad zlib header";;
  fail_if (negb (Z.land flg 32 =? 0)) "no preset dict";;
  fail_if (negb (cm =? 8)) "bad compression".

Definition stbi__zdefault_length : list Z :=
  replicate 144 8 ++ replicate 112 9 ++ replicate 24 7 ++ replicate 8 8.
Definition stbi__zdefault_distance : list Z := replicate 32 5.

(** One block; a block of type 3 fails without a reason. *)
Definition zlib_block (fuel : nat) : Act stbi__zbuf (ctl unit unit) :=
  final ← stbi__zreceive 1;
  type ← stbi__zreceive 2;
  (if type =? 0 then stbi__parse_uncompressed_block
   else if type =? 3 then fail ""
   else
     (if type =? 1 then
        a ← get;
        zl ← build_table (z_length a) stbi__zdefault_length 0 STBI__ZNSYMS;
        modify (λ a, set_tables zl (z_distance a) a);;
        zd ← build_table (z_distance a) stbi__zdefault_distance 0 32;
        modify (λ a, set_tables (z_length a) zd a)
      else stbi__compute_huffman_codes);;
     stbi__parse_huffman_block fuel);;
  mret (if final =? 0 then Next () else Return ()).

Definition stbi__parse_zlib (fuel : nat) (parse_header : bool) : Act stbi__zbuf unit :=
  (if parse_header then stbi__parse_zlib_header else mret ());;
  modify (λ a, set_bits 0 0 false a);;
  a_loop fuel (λ _, zlib_block fuel) ();;
  mret ().

Definition stbi__do_zlib (fuel : nat) (obuf : list Z) (exp parse_header : bool)
  : Act stbi__zbuf unit :=
  modify (λ a, {| zin := zin a; zbuffer := zbuffer a; zbuffer_end := zbuffer_end a;
                  num_bits := num_bits a; hit_zeof_once := hit_zeof_once a;
                  code_buffer := code_buffer a; zout_start := obuf; zout := 0;
                  z_expandable := exp; z_length := z_length a; z_distance := z_distance a |});;
  stbi__parse_zlib fuel parse_header.

(** ** Entry points

    The decoder on the stack starts out uninitialised. *)
Definition new_zbuf (buffer : list Z) (len : Z) : stbi__zbuf :=
  {| zin := buffer; zbuffer := 0; zbuffer_end := len; num_bits := uninit 0;
     hit_zeof_once := false; code_buffer := u32 (uninit 1); zout_start := []; zout := 0;
     z_expandable := false; z_length := junk_zhuffman; z_distance := junk_zhuffman |}.

(** The output object and the number of bytes in it. *)
Definition stbi_zlib_decode_malloc_guesssize_headerflag (fuel : nat) (buffer : list Z)
    (len initial_size : Z) (parse_header : bool) : Res (outcome (list Z * Z)) :=
  match stbi__malloc (u64 initial_size) with
  | None => Ok (Fail "")
  | Some p =>
      '(r, a) ← stbi__do_zlib fuel p true parse_header (new_zbuf buffer len);
      match r with
      | Val _ => Ok (Val (zout_start a, zout a))
      | Fail e => Ok (Fail e)
      end
  end.

Definition stbi_zlib_decode_malloc_guesssize (fuel : nat) (buffer : list Z) (len initial_size : Z) :=
  stbi_zlib_decode_malloc_guesssize_headerflag fuel buffer len initial_size true.

Definition stbi_zlib_decode_malloc (fuel : nat) (buffer : list Z) (len : Z) :=
  stbi_zlib_decode_malloc_guesssize fuel buffer len 16384.

Definition stbi_zlib_decode_noheader_malloc (fuel : nat) (buffer : list Z) (len : Z) :=
  stbi_zlib_decode_malloc_guesssize_headerflag fuel buffer len 16384 false.

(** Into a buffer of the client's: the number of bytes, -1 for a failure. *)
Definition decode_buffer (fuel : nat) (obuffer ibuffer : list Z) (ilen : Z) (parse_header : bool)
  : Res (Z * list Z) :=
  '(r, a) ← stbi__do_zlib fuel obuffer false parse_header (new_zbuf ibuffer ilen);
  match r with
  | Val _ => Ok (zout a, zout_start a)
  | Fail _ => Ok (-1, zout_start a)
  end.

Definition stbi_zlib_decode_buffer (fuel : nat) (obuffer ibuffer : list Z) (ilen : Z) :=
  decode_buffer fuel obuffer ibuffer ilen true.
Definition stbi_zlib_decode_noheader_buffer (fuel : nat) (obuffer ibuffer : list Z) (ilen : Z) :=
  decode_buffer fuel obuffer ibuffer ilen false.
End zlib.
