(* ===== verification/StbHuffman.v ===== *)
(** * stb_image: canonical Huffman codes and the zlib decoding tables

    The reference is the canonical code of RFC 1951 (section 3.2.2): code
    lengths determine the codes.  [stbi__zbuild_huffman] is shown to build
    tables that represent it ([table_ok]), and a lookup in them to recognise
    exactly the codes. *)
From S2P Require Import Prelude StbMonad StbBase StbBaseSpec StbZlib.

(** ** Bit reversal

    [rev n c]: the low [n] bits of [c] in the opposite order. *)
Definition rev_bits (n c : Z) : Z :=
  foldr (λ i acc, Z.b2z (Z.testbit c (n - 1 - i)) + 2 * acc) 0 (seqZ 0 n).

Lemma b2z_testbit_0 b a i : 0 ≤ i →
  Z.testbit (Z.b2z b + 2 * a) i = if decide (i = 0) then b else Z.testbit a (i - 1).
Proof.
  intros Hi. rewrite Z.add_comm. case_decide as E.
  - subst. by rewrite Z.testbit_0_r.
  - replace i with (Z.succ (i - 1)) at 1 by lia. rewrite Z.testbit_succ_r by lia. done.
Qed.

Lemma rev_bits_spec n c i : 0 ≤ i → 0 ≤ n →
  Z.testbit (rev_bits n c) i = (i <? n) && Z.testbit c (n - 1 - i).
Proof.
  intros Hi Hn. unfold rev_bits.
  enough (∀ m k i, 0 ≤ i → Z.testbit (foldr (λ i acc, Z.b2z (Z.testbit c (n - 1 - i)) + 2 * acc) 0
            (seqZ k (Z.of_nat m))) i = (i <? Z.of_nat m) && Z.testbit c (n - 1 - (k + i))) as H.
  { specialize (H (Z.to_nat n) 0 i Hi). rewrite Z2Nat.id, Z.add_0_l in H by lia. exact H. }
  clear i Hi. induction m as [|m IH]; intros k i Hi.
  - rewrite (proj2 (Z.ltb_ge i _)) by lia. apply Z.testbit_0_l.
  - rewrite seqZ_cons by lia. cbn [foldr]. rewrite b2z_testbit_0 by done.
    case_decide as E.
    + subst i. rewrite Z.add_0_r. destruct (Z.ltb_spec 0 (Z.of_nat (S m))); [done|lia].
    + replace (Z.pred (Z.of_nat (S m))) with (Z.of_nat m) by lia. rewrite IH by lia.
      replace (Z.succ k + (i - 1)) with (k + i) by lia.
      destruct (Z.ltb_spec (i - 1) (Z.of_nat m)), (Z.ltb_spec i (Z.of_nat (S m))); done || lia.
Qed.

Lemma rev_bits_range n c : 0 ≤ n → 0 ≤ rev_bits n c < 2 ^ n.
Proof.
  intros Hn. unfold rev_bits.
  enough (∀ m k, 0 ≤ foldr (λ i acc, Z.b2z (Z.testbit c (n - 1 - i)) + 2 * acc) 0
            (seqZ k (Z.of_nat m)) < 2 ^ Z.of_nat m) as H.
  { specialize (H (Z.to_nat n) 0). by rewrite Z2Nat.id in H by lia. }
  induction m as [|m IH]; intros k; [change (0 ≤ 0 < 1); lia|].
  rewrite seqZ_cons by lia. replace (Z.pred (Z.of_nat (S m))) with (Z.of_nat m) by lia.
  cbn [foldr]. specialize (IH (Z.succ k)).
  replace (2 ^ Z.of_nat (S m)) with (2 * 2 ^ Z.of_nat m)
    by (rewrite <- Z.pow_succ_r by lia; f_equal; lia).
  destruct (Z.testbit c (n - 1 - k)); cbn [Z.b2z]; lia.
Qed.

(** The sixteen-bit reversal, by the four exchanges. *)
Lemma bitreverse16_spec v : stbi__bitreverse16 v = rev_bits 16 v.
Proof.
  apply Z.bits_inj'. intros i Hi. rewrite rev_bits_spec by lia. unfold stbi__bitreverse16.
  destruct (Z.ltb_spec i 16) as [Hlt|Hge]; cbn [andb].
  - assert (i = 0 ∨ i = 1 ∨ i = 2 ∨ i = 3 ∨ i = 4 ∨ i = 5 ∨ i = 6 ∨ i = 7 ∨ i = 8 ∨ i = 9 ∨ i = 10 ∨
      i = 11 ∨ i = 12 ∨ i = 13 ∨ i = 14 ∨ i = 15) as Hc by lia.
    repeat (destruct Hc as [ -> | Hc]; [|]); [..|subst i];
      repeat rewrite ?Z.lor_spec, ?Z.land_spec, ?Z.shiftr_spec, ?Z.shiftl_spec by lia;
      cbn -[Z.testbit]; cbn [Z.testbit Pos.testbit Z.opp Pos.pred_double N.pred Pos.pred_N];
      rewrite ?andb_true_r, ?andb_false_r, ?orb_false_r, ?orb_false_l; done.
  - rewrite Z.lor_spec, Z.shiftr_spec, Z.shiftl_spec, !Z.land_spec by lia.
    rewrite (Z.bits_above_log2 0xFF00), (Z.bits_above_log2 0xFF); [by rewrite !andb_false_r|..];
      try done; change (Z.log2 0xFF00) with 15; change (Z.log2 0xFF) with 7; lia.
Qed.

Lemma bit_reverse_spec v bits : 0 ≤ bits ≤ 16 → 0 ≤ v < 2 ^ bits →
  stbi__bit_reverse v bits = Ok (rev_bits bits v).
Proof.
  intros Hb Hv. unfold stbi__bit_reverse. rewrite (proj2 (Z.leb_le _ _)) by lia. f_equal.
  rewrite bitreverse16_spec. apply Z.bits_inj'. intros i Hi.
  rewrite Z.shiftr_spec, !rev_bits_spec by lia.
  replace (16 - 1 - (i + (16 - bits))) with (bits - 1 - i) by lia.
  destruct (Z.ltb_spec (i + (16 - bits)) 16), (Z.ltb_spec i bits); done || lia.
Qed.

Lemma bit_reverse16_any v : stbi__bit_reverse v 16 = Ok (rev_bits 16 v).
Proof. unfold stbi__bit_reverse. cbn [Z.leb Z.compare Pos.compare Pos.compare_cont]. by rewrite bitreverse16_spec, Z.shiftr_0_r. Qed.

(** The reversal of 16 bits depends on those only. *)
Lemma rev_bits_mod n v m : 0 ≤ n ≤ m → rev_bits n (v mod 2 ^ m) = rev_bits n v.
Proof.
  intros Hn. apply Z.bits_inj'. intros i Hi. rewrite !rev_bits_spec by lia.
  destruct (Z.ltb_spec i n); [|done]. cbn [andb]. destruct (decide (n - 1 - i < 0)).
  - by rewrite !Z.testbit_neg_r by lia.
  - rewrite Z.mod_pow2_bits_low by lia. done.
Qed.

Lemma rev_bits_involutive n v : 0 ≤ n → rev_bits n (rev_bits n v) = v mod 2 ^ n.
Proof.
  intros Hn. apply Z.bits_inj'. intros i Hi. rewrite rev_bits_spec by lia.
  destruct (Z.ltb_spec i n); cbn [andb].
  - rewrite rev_bits_spec, Z.mod_pow2_bits_low by lia.
    rewrite (proj2 (Z.ltb_lt _ _)) by lia. cbn [andb]. f_equal. lia.
  - rewrite Z.mod_pow2_bits_high by lia. done.
Qed.

(** The first [n] bits of a stream, read as a code: the top of the reversal. *)
Lemma rev_bits_prefix n m v : 0 ≤ n ≤ m →
  Z.shiftr (rev_bits m v) (m - n) = rev_bits n v.
Proof.
  intros Hn. apply Z.bits_inj'. intros i Hi. rewrite Z.shiftr_spec, !rev_bits_spec by lia.
  replace (m - 1 - (i + (m - n))) with (n - 1 - i) by lia.
  destruct (Z.ltb_spec (i + (m - n)) m), (Z.ltb_spec i n); done || lia.
Qed.

(** ** Counting positions *)
Section positions.
Context {A : Type} `{!Inhabited A} (f : A → bool).

(** The [r]-th element that satisfies [f]. *)
Lemma countb_nth (l : list A) r : 0 ≤ r < countb f l →
  ∃ i, 0 ≤ i < zlen l ∧ f (l.[i]) = true ∧ countb f (take (Z.to_nat i) l) = r.
Proof.
  revert r. induction l as [|x l IH]; intros r Hr; cbn [countb length] in *; [lia|].
  destruct (f x) eqn:E; cbn [Z.b2z] in Hr.
  - destruct (decide (r = 0)) as [->|]; [exists 0; repeat split; [lia..|done]|].
    destruct (IH (r - 1)) as (i & Hi & Hf & Hc); [lia|]. exists (i + 1).
    replace (Z.to_nat (i + 1)) with (S (Z.to_nat i)) by lia. cbn [take countb]. rewrite E.
    cbn [Z.b2z]. split; [lia|]. split; [done|lia].
  - destruct (IH r) as (i & Hi & Hf & Hc); [lia|]. exists (i + 1).
    replace (Z.to_nat (i + 1)) with (S (Z.to_nat i)) by lia. cbn [take countb]. rewrite E.
    cbn [Z.b2z]. split; [lia|]. split; [done|lia].
Qed.

Lemma countb_take_mono (l : list A) i j : 0 ≤ i ≤ j →
  countb f (take (Z.to_nat i) l) ≤ countb f (take (Z.to_nat j) l).
Proof.
  intros. replace (take (Z.to_nat i) l) with (take (Z.to_nat i) (take (Z.to_nat j) l)).
  - apply countb_take_le.
  - rewrite take_take. f_equal. lia.
Qed.

Lemma countb_take_lt (l : list A) i j : 0 ≤ i < j → i < zlen l → f (l.[i]) = true →
  countb f (take (Z.to_nat i) l) < countb f (take (Z.to_nat j) l).
Proof.
  intros Hij Hl Hf. pose proof (countb_take f l i ltac:(lia)) as E. rewrite Hf in E.
  pose proof (countb_take_mono l (i + 1) j ltac:(lia)). cbn [Z.b2z] in E. lia.
Qed.
End positions.

(** ** The canonical code of a list of lengths *)
Section canonical.
Variable lens : list Z.

(** How many symbols have codes of [l] bits; a length of zero is no code. *)
Definition cnt (l : Z) : Z := if l =? 0 then 0 else countb (λ s, s =? l) lens.

(** The first code of [l] bits and the number of symbols with shorter codes. *)
Fixpoint first_code (l : nat) : Z :=
  match l with O => 0 | S l => 2 * (first_code l + cnt (Z.of_nat l)) end.
Fixpoint first_sym (l : nat) : Z :=
  match l with O => 0 | S l => first_sym l + cnt (Z.of_nat l) end.

Definition fc (l : Z) : Z := first_code (Z.to_nat l).
Definition fs (l : Z) : Z := first_sym (Z.to_nat l).

(** Symbol [i] among those of its length, its code and its place in the order
    by length and symbol. *)
Definition rank (i : Z) : Z := countb (λ s, s =? lens.[i]) (take (Z.to_nat i) lens).
Definition code (i : Z) : Z := fc (lens.[i]) + rank i.
Definition place (i : Z) : Z := fs (lens.[i]) + rank i.

(** Symbol [i] has a code. *)
Definition coded (i : Z) : Prop := 0 ≤ i < zlen lens ∧ lens.[i] ≠ 0.

(** The lengths describe a prefix code. *)
Definition lengths_ok : Prop :=
  Forall (λ s, 0 ≤ s ≤ 15) lens ∧ ∀ l, 1 ≤ l ≤ 15 → cnt l = 0 ∨ fc l + cnt l ≤ 2 ^ l.

Lemma cnt_nonneg l : 0 ≤ cnt l.
Proof. unfold cnt. case_match; [lia|]. apply countb_range. Qed.

Lemma fc_succ l : 0 ≤ l → fc (l + 1) = 2 * (fc l + cnt l).
Proof.
  intros. unfold fc. replace (Z.to_nat (l + 1)) with (S (Z.to_nat l)) by lia.
  cbn [first_code]. rewrite Z2Nat.id by lia. done.
Qed.

Lemma fs_succ l : 0 ≤ l → fs (l + 1) = fs l + cnt l.
Proof.
  intros. unfold fs. replace (Z.to_nat (l + 1)) with (S (Z.to_nat l)) by lia.
  cbn [first_sym]. rewrite Z2Nat.id by lia. done.
Qed.

Lemma fc_nonneg l : 0 ≤ l → 0 ≤ fc l.
Proof.
  apply (natlike_ind (λ l, 0 ≤ fc l)); [done|].
  intros x Hx IH. unfold Z.succ. rewrite fc_succ by done. pose proof (cnt_nonneg x). lia.
Qed.

Lemma fs_mono l m : 0 ≤ l ≤ m → fs l ≤ fs m.
Proof.
  intros [Hl Hm]. replace m with (l + (m - l)) by lia.
  apply (natlike_ind (λ d, fs l ≤ fs (l + d))); [by rewrite Z.add_0_r| |lia].
  - intros x Hx IH. unfold Z.succ. rewrite Z.add_assoc, fs_succ by lia.
    pose proof (cnt_nonneg (l + x)). lia.
Qed.

(** The codes of [l] bits end at or before [2 ^ l]. *)
Lemma code_space_upto m l : (∀ l, 1 ≤ l < m → cnt l = 0 ∨ fc l + cnt l ≤ 2 ^ l) →
  0 ≤ l → l < m → fc l + cnt l ≤ 2 ^ l.
Proof.
  intros Hok Hl0.
  apply (natlike_ind (λ l, l < m → fc l + cnt l ≤ 2 ^ l)); [|clear l Hl0|done].
  - intros _. change (0 + 0 ≤ 1). lia.
  - intros x Hx IH Hle. unfold Z.succ in *. specialize (IH ltac:(lia)).
    destruct (Hok (x + 1)) as [E|]; [lia| |done]. rewrite E, fc_succ by lia.
    rewrite Z.pow_add_r by lia. lia.
Qed.

Lemma code_space l : lengths_ok → 0 ≤ l ≤ 15 → fc l + cnt l ≤ 2 ^ l.
Proof.
  intros [_ Hok] Hl. apply (code_space_upto 16); [|lia..]. intros. apply Hok. lia.
Qed.

Lemma fc_bound_upto m l : (∀ l, 1 ≤ l < m → cnt l = 0 ∨ fc l + cnt l ≤ 2 ^ l) →
  1 ≤ l ≤ m → fc l ≤ 2 ^ l.
Proof.
  intros Hok Hl. pose proof (code_space_upto m (l - 1) Hok ltac:(lia) ltac:(lia)).
  replace l with (l - 1 + 1) by lia. rewrite fc_succ, Z.pow_add_r by lia. lia.
Qed.

Lemma coded_len i : lengths_ok → coded i → 1 ≤ lens.[i] ≤ 15.
Proof.
  intros [Hf _] [Hi Hne]. apply znth_lookup in Hi.
  pose proof (Forall_lookup_1 _ _ _ _ Hf Hi). cbn in *. lia.
Qed.

Lemma rank_range i : coded i → 0 ≤ rank i < cnt (lens.[i]).
Proof.
  intros [Hi Hne]. unfold rank, cnt. rewrite (proj2 (Z.eqb_neq _ _)) by done.
  split; [apply countb_range|].
  pose proof (countb_take (λ s, s =? lens.[i]) lens i Hi) as E.
  cbn beta in E. rewrite Z.eqb_refl in E. cbn in E.
  pose proof (countb_take_le (λ s, s =? lens.[i]) lens (Z.to_nat (i + 1))). lia.
Qed.

Lemma code_range i : lengths_ok → coded i → 0 ≤ code i < 2 ^ (lens.[i]).
Proof.
  intros Hok Hc. pose proof (coded_len i Hok Hc) as Hl. pose proof (rank_range i Hc) as Hr.
  unfold code. generalize dependent (lens.[i]). intros l Hl Hr.
  pose proof (code_space l Hok ltac:(lia)). pose proof (fc_nonneg l ltac:(lia)). lia.
Qed.

(** The total number of codes. *)
Lemma fs_total m : 0 ≤ m → fs m ≤ zlen lens.
Proof.
  intros Hm.
  enough (∀ n : nat, first_sym n ≤ countb (λ s, (0 <? s) && (s <? Z.of_nat n)) lens) as H.
  { etrans; [apply H|]. apply countb_range. }
  induction n as [|n IH]; cbn [first_sym].
  - apply countb_range.
  - unfold cnt. destruct (Z.eqb_spec (Z.of_nat n) 0) as [E|E].
    + rewrite Z.add_0_r. etrans; [exact IH|]. apply countb_le. intros s.
      rewrite !andb_true_iff, !Z.ltb_lt. lia.
    + etrans; [apply Z.add_le_mono_r, IH|]. clear IH. induction lens as [|x xs IHx]; [done|].
      cbn [countb]. destruct (Z.ltb_spec 0 x), (Z.ltb_spec x (Z.of_nat n)),
        (Z.eqb_spec x (Z.of_nat n)), (Z.ltb_spec x (Z.of_nat (S n))); cbn; lia.
Qed.

Lemma place_range i : lengths_ok → coded i → 0 ≤ place i < zlen lens.
Proof.
  intros Hok Hc. pose proof (coded_len i Hok Hc) as Hl. pose proof (rank_range i Hc) as Hr.
  unfold place. generalize dependent (lens.[i]). intros l Hl Hr.
  pose proof (fs_total (l + 1) ltac:(lia)) as Ht. rewrite fs_succ in Ht by lia.
  pose proof (fs_mono 0 l ltac:(lia)) as H0. change (fs 0) with 0 in H0. lia.
Qed.

(** ** Recognising a code

    The stream [v] (first bit least significant) begins with the code of [i]. *)
Definition matches (v i : Z) : Prop := coded i ∧ rev_bits (lens.[i]) v = code i.

#[export] Instance matches_dec v i : Decision (matches v i).
Proof. unfold matches, coded. apply _. Defined.

Lemma fc_scale l m : 0 ≤ l < m → (fc l + cnt l) * 2 ^ (m - l) ≤ fc m.
Proof.
  intros [Hl Hm]. replace m with (l + 1 + (m - l - 1)) by lia.
  apply (natlike_ind (λ d, (fc l + cnt l) * 2 ^ (l + 1 + d - l) ≤ fc (l + 1 + d))); [| |lia].
  - rewrite Z.add_0_r, fc_succ by lia. replace (l + 1 - l) with 1 by lia. lia.
  - intros d Hd IH. unfold Z.succ. rewrite Z.add_assoc, fc_succ by lia.
    pose proof (cnt_nonneg (l + 1 + d)).
    replace (l + 1 + d + 1 - l) with (l + 1 + d - l + 1) by lia. rewrite Z.pow_add_r by lia. lia.
Qed.

Lemma rev_bits_div n m v : 0 ≤ n ≤ m → rev_bits m v / 2 ^ (m - n) = rev_bits n v.
Proof. intros. by rewrite <- Z.shiftr_div_pow2, rev_bits_prefix by lia. Qed.

(** No code is a prefix of another. *)
Lemma matches_le v i j : lengths_ok → matches v i → matches v j → lens.[i] ≤ lens.[j] → i = j.
Proof.
  intros Hok [Hi Ei] [Hj Ej] Hle.
  pose proof (coded_len i Hok Hi). pose proof (coded_len j Hok Hj).
  pose proof (rank_range i Hi). pose proof (rank_range j Hj).
  destruct (decide (lens.[i] = lens.[j])) as [E|Hne].
  - unfold code in *. rewrite E in *. assert (rank i = rank j) as Hr by lia.
    unfold rank in Hr. rewrite E in Hr. destruct Hi as [Hi _], Hj as [Hj _].
    destruct (decide (i = j)) as [|Hij]; [done|]. exfalso.
    destruct (decide (i < j)).
    + pose proof (countb_take_lt (λ s, s =? lens.[j]) lens i j ltac:(lia) ltac:(lia)) as Hlt.
      cbn beta in Hlt. rewrite E in Hlt. specialize (Hlt (Z.eqb_refl _)). lia.
    + pose proof (countb_take_lt (λ s, s =? lens.[j]) lens j i ltac:(lia) ltac:(lia)) as Hlt.
      cbn beta in Hlt. specialize (Hlt (Z.eqb_refl _)). lia.
  - exfalso. unfold code in *. generalize dependent (lens.[i]). intros l E ? ? ? ?.
    generalize dependent (lens.[j]). intros m ? ? ? ? ?.
    pose proof (fc_scale l m ltac:(lia)) as Hs.
    pose proof (rev_bits_div l m v ltac:(lia)) as Hd.
    assert (fc l + cnt l ≤ (fc m + rank j) / 2 ^ (m - l)).
    { apply Z.div_le_lower_bound; [|lia]. apply Z.pow_pos_nonneg; lia. }
    congruence || (replace (rev_bits m v) with (fc m + rank j) in Hd by done; lia).
Qed.

Lemma matches_unique v i j : lengths_ok → matches v i → matches v j → i = j.
Proof.
  intros Hok Hi Hj. destruct (Z.le_ge_cases (lens.[i]) (lens.[j])).
  - by eapply matches_le.
  - symmetry. by eapply matches_le.
Qed.

(** A code of [l] bits at place [r]. *)
Lemma coded_at l r : 1 ≤ l → 0 ≤ r < cnt l → ∃ i, coded i ∧ lens.[i] = l ∧ rank i = r.
Proof.
  intros Hl. unfold cnt. rewrite (proj2 (Z.eqb_neq l 0)) by lia. intros Hr.
  destruct (countb_nth _ _ _ Hr) as (i & Hi & Hf & Hc). apply Z.eqb_eq in Hf.
  exists i. unfold coded, rank. rewrite Hf. repeat split; [lia..|done].
Qed.

(** Below the end of the codes of [m] bits some code matches. *)
Lemma matches_cover v m : lengths_ok → 0 ≤ m ≤ 15 → rev_bits m v < fc m + cnt m →
  ∃ i, matches v i ∧ lens.[i] ≤ m.
Proof.
  intros Hok [Hm0 Hm]. revert Hm.
  apply (natlike_ind (λ m, m ≤ 15 → rev_bits m v < fc m + cnt m → ∃ i, matches v i ∧ lens.[i] ≤ m));
    [| |done].
  - intros _ H. change (0 < 0 + 0) in H. lia.
  - clear m Hm0. intros m Hm IH Hle Hlt. unfold Z.succ in *.
    destruct (decide (rev_bits (m + 1) v < fc (m + 1))) as [Hl|Hl].
    + destruct IH as (i & Hi & Hi'); [lia| |exists i; split; [done|lia]].
      rewrite fc_succ in Hl by lia. rewrite <- (rev_bits_div m (m + 1)) by lia.
      replace (m + 1 - m) with 1 by lia. apply Z.div_lt_upper_bound; lia.
    + destruct (coded_at (m + 1) (rev_bits (m + 1) v - fc (m + 1))) as (i & Hi & El & Er); [lia..|].
      exists i. split; [|lia]. split; [done|]. unfold code. rewrite El, Er. lia.
Qed.
End canonical.

Lemma matches_mod lens v i : lengths_ok lens → coded lens i →
  matches lens v i ↔ v mod 2 ^ (lens.[i]) = rev_bits (lens.[i]) (code lens i).
Proof.
  intros Hok Hc. pose proof (code_range lens i Hok Hc) as Hr.
  pose proof (coded_len lens i Hok Hc) as Hl. unfold matches. generalize dependent (lens.[i]).
  intros l Hr Hl. split.
  - intros [_ <-]. rewrite rev_bits_involutive by lia. done.
  - intros E. split; [done|]. rewrite <- (rev_bits_mod l v l), E by lia.
    rewrite rev_bits_involutive by lia. apply Z.mod_small. lia.
Qed.

Lemma matches_low lens v i m : lengths_ok lens → lens.[i] ≤ m →
  matches lens (v mod 2 ^ m) i ↔ matches lens v i.
Proof.
  intros Hok Hm. split; intros [Hc E]; (split; [done|]); pose proof (coded_len lens i Hok Hc);
    rewrite rev_bits_mod in * by lia; done.
Qed.

(** ** The tables *)
Record zshape (z : stbi__zhuffman) : Prop := {
  len_fast : length (fast z) = 512%nat;
  len_firstcode : length (firstcode z) = 16%nat;
  len_maxcode : length (maxcode z) = 17%nat;
  len_firstsymbol : length (firstsymbol z) = 16%nat;
  len_size : length (size z) = 288%nat;
  len_value : length (value z) = 288%nat
}.

Section tables.
Variable lens : list Z.

(** The tables by length, up to length [m]. *)
Definition heads (m : Z) (z : stbi__zhuffman) : Prop :=
  ∀ l, 1 ≤ l < m → (firstcode z).[l] = fc lens l ∧ (firstsymbol z).[l] = fs lens l ∧
    (maxcode z).[l] = (fc lens l + cnt lens l) * 2 ^ (16 - l).

(** The tables by symbol, for the symbols below [n]. *)
Definition sorted_upto (n : Z) (z : stbi__zhuffman) : Prop :=
  ∀ i, coded lens i → i < n →
    (size z).[place lens i] = lens.[i] ∧ (value z).[place lens i] = i.

Definition fast_entry (i : Z) : Z := lens.[i] * 512 + i.

Definition fast_upto (n : Z) (z : stbi__zhuffman) : Prop :=
  ∀ e, 0 ≤ e < 512 →
    (∀ i, i < n → lens.[i] ≤ 9 → matches lens e i → (fast z).[e] = fast_entry i) ∧
    ((fast z).[e] = 0 ∨ ∃ i, i < n ∧ lens.[i] ≤ 9 ∧ matches lens e i ∧ (fast z).[e] = fast_entry i).

(** The tables represent the code. *)
Record table_ok (z : stbi__zhuffman) : Prop := {
  table_shape : zshape z;
  table_lens : lengths_ok lens;
  table_count : zlen lens ≤ 288;
  table_heads : heads 16 z;
  table_max : (maxcode z).[16] = 65536;
  table_sorted : sorted_upto (zlen lens) z;
  table_fast : fast_upto (zlen lens) z
}.

(** *** Filling the fast table *)
Lemma fill_fast_wp s fastv j f (Q : list Z → Prop) :
  0 ≤ s → 0 ≤ j < 2 ^ s → length f = 512%nat →
  (∀ f', length f' = 512%nat →
    (∀ e, 0 ≤ e < 512 → f'.[e] = if decide (e mod 2 ^ s = j) then fastv else f.[e]) → Q f') →
  wp (fill_fast s fastv j f) Q.
Proof.
  intros Hs Hj Hl HQ. unfold fill_fast. change (Z.shiftl 1 STBI__ZFAST_BITS) with 512.
  rewrite Z.shiftl_mul_pow2, Z.mul_1_l by lia.
  enough (wp (loop (R := Empty_set) 513 (λ '(f, j), if j <? 512 then
      f ← wr f j fastv; Ok (Next (f, j + 2 ^ s)) else Ok (Break (f, j))) (f, j))
    (λ x, match x with
          | Fell (f', _) => length f' = 512%nat ∧ ∀ e, 0 ≤ e < 512 →
              f'.[e] = if decide (e mod 2 ^ s = j) then fastv else f.[e]
          | Gave _ => False
          end)) as H.
  { destruct (loop _ _ _) as [[[f' j']|[]]| |]; cbn in *; try done. destruct H. by apply HQ. }
  clear Q HQ.
  apply (loop_wp (λ '(f', j'), length f' = 512%nat ∧ (∃ t, 0 ≤ t ∧ j' = j + t * 2 ^ s) ∧
      ∀ e, 0 ≤ e < 512 → f'.[e] = if decide (e mod 2 ^ s = j ∧ e < j') then fastv else f.[e])
    (λ '(_, j'), Z.to_nat (512 - j'))).
  - split; [done|]. split; [exists 0; lia|]. intros e He. rewrite decide_False; [done|].
    intros [E Hlt]. rewrite Z.mod_small in E by lia. lia.
  - lia.
  - intros [f' j'] (Hl' & (t & Ht & ->) & Hf). destruct (Z.ltb_spec (j + t * 2 ^ s) 512) as [Hlt|Hge].
    + wp_run. split; [|lia]. rewrite length_zset. split; [done|]. split; [exists (t + 1); lia|].
      intros e He. rewrite znth_zset by lia. case_decide as E.
      * subst e. rewrite decide_True; [done|]. split; [|lia].
        rewrite Z.mod_add by lia. apply Z.mod_small. lia.
      * rewrite Hf by done. apply decide_ext. split; [intuition lia|]. intros [Em Hlt'].
        split; [done|]. pose proof (Z.div_mod e (2 ^ s) ltac:(lia)) as Hd. rewrite Em in Hd.
        generalize dependent (e / 2 ^ s). intros q Hd.
        destruct (Z.lt_trichotomy q t) as [?|[->|?]]; [nia|lia|nia].
    + cbn. split; [done|]. intros e He. rewrite Hf by done. apply decide_ext.
      split; [tauto|]. intros; split; [done|lia].
Qed.

(** *** The tables by length *)
Definition hist (sizes : list Z) : Prop :=
  length sizes = 17%nat ∧ ∀ l, 0 ≤ l < 17 → sizes.[l] = cnt lens l.

(** Before length [i]. *)
Definition lengths_inv (i : Z) (s : Z * Z * list Z) (z : stbi__zhuffman) : Prop :=
  let '(code, k, next_code) := s in
  zshape z ∧ fast z = replicate 512 0 ∧ heads i z ∧
  (∀ l, 1 ≤ l < i → cnt lens l = 0 ∨ fc lens l + cnt lens l ≤ 2 ^ l) ∧
  code = fc lens i ∧ k = fs lens i ∧ length next_code = 16%nat ∧
  ∀ l, 1 ≤ l < i → next_code.[l] = fc lens l.

Lemma heads_step i z z' : 1 ≤ i < 16 → heads i z → zshape z →
  firstcode z' = zset (firstcode z) i (fc lens i) →
  firstsymbol z' = zset (firstsymbol z) i (fs lens i) →
  maxcode z' = zset (maxcode z) i ((fc lens i + cnt lens i) * 2 ^ (16 - i)) →
  heads (i + 1) z'.
Proof.
  intros Hi Hh [] E1 E2 E3 l Hl. rewrite E1, E2, E3.
  destruct (decide (l = i)) as [->|].
  - rewrite !znth_zset_eq by lia. done.
  - rewrite !znth_zset_ne by lia. apply Hh. lia.
Qed.

(** The lengths are refused. *)
Definition refused (z : stbi__zhuffman) : Prop := zshape z ∧ ¬ lengths_ok lens.

Lemma assign_length_wp sizes i s z : zlen lens ≤ 288 → hist sizes → 1 ≤ i < 16 →
  lengths_inv i s z →
  awp (assign_length sizes i s) z (allow refused (lengths_inv (i + 1))).
Proof.
  intros Hn [Hsl Hs] Hi. destruct s as [[code k] next_code].
  intros (Hz & Hf & Hh & Hok & -> & -> & Hnl & Hnc).
  pose proof (fc_bound_upto lens i i Hok ltac:(lia)) as Hfc.
  pose proof (fc_nonneg lens i ltac:(lia)) as Hfc0.
  pose proof (fs_total lens i ltac:(lia)) as Hfs.
  pose proof (fs_mono lens 0 i ltac:(lia)) as Hfs0. change (fs lens 0) with 0 in Hfs0.
  pose proof (cnt_nonneg lens i) as Hcn.
  assert (cnt lens i ≤ zlen lens) as Hcm
    by (pose proof (fs_total lens (i + 1) ltac:(lia)) as H; rewrite fs_succ in H by lia; lia).
  assert (2 ^ i ≤ 2 ^ 15) as Hp by (apply Z.pow_le_mono_r; lia).
  assert (2 ^ i * 2 ^ (16 - i) = 65536) as Hpp
    by (rewrite <- Z.pow_add_r by lia; by replace (i + (16 - i)) with 16 by lia).
  assert (0 < 2 ^ (16 - i)) as Hp2 by (apply Z.pow_pos_nonneg; lia).
  pose proof Hz as [].
  unfold assign_length. awp_step. awp_step. rewrite wr_ok by lia. cbn [wp].
  awp_step. awp_step. awp_step. awp_step. rewrite wr_ok by lia. cbn [wp].
  awp_step. awp_step. rewrite wr_ok by lia. cbn [wp].
  awp_step. awp_step. rewrite rd_ok, Hs by lia. cbn [wp].
  awp_step. awp_step. rewrite i32_ok by (c_unfold; lia). cbn [wp].
  awp_step. awp_step; intros Hc.
  { split; [exact Hz|]. intros [_ Hcode]. apply andb_true_iff in Hc as [Hc1 Hc2].
    apply negb_true_iff, Z.eqb_neq in Hc1. apply Z.leb_le in Hc2. rewrite Z.shiftl_mul_pow2 in Hc2 by lia.
    specialize (Hcode i ltac:(lia)). lia. }
  assert (cnt lens i = 0 ∨ fc lens i + cnt lens i ≤ 2 ^ i) as Hci.
  { apply andb_false_iff in Hc as [Hc|Hc].
    - left. destruct (Z.eqb_spec (cnt lens i) 0); [done|discriminate].
    - right. apply Z.leb_gt in Hc. rewrite Z.shiftl_mul_pow2 in Hc by lia. lia. }
  assert (fc lens i + cnt lens i ≤ 2 ^ i) as Hend by lia.
  rewrite !Z.shiftl_mul_pow2 by lia.
  awp_step. awp_step. rewrite i32_ok by (c_unfold; nia). cbn [wp].
  awp_step. awp_step. rewrite wr_ok by lia. cbn [wp].
  awp_step. awp_step. awp_step. awp_step. rewrite i32_ok by (c_unfold; lia). cbn [wp].
  awp_step. unfold allow, lengths_inv, u16. rewrite (Z.mod_small (fc lens i)), (Z.mod_small (fs lens i)) by lia.
  split; [split; cbn; rewrite ?length_zset; done|]. split; [done|].
  split; [by apply (heads_step i z)|]. split.
  { intros l Hl. destruct (decide (l = i)) as [->|]; [done|]. apply Hok. lia. }
  split; [rewrite fc_succ by lia; lia|]. split; [by rewrite fs_succ by lia|].
  split; [by rewrite length_zset|]. intros l Hl. destruct (decide (l = i)) as [->|].
  - by rewrite znth_zset_eq by lia.
  - rewrite znth_zset_ne by lia. apply Hnc. lia.
Qed.

(** *** The tables by symbol *)
Hypothesis (Hok : lengths_ok lens) (Hcount : zlen lens ≤ 288).

(** Before symbol [i]. *)
Definition symbols_inv (i : Z) (next_code : list Z) (z : stbi__zhuffman) : Prop :=
  zshape z ∧ heads 16 z ∧ (maxcode z).[16] = 65536 ∧ sorted_upto i z ∧ fast_upto i z ∧
  length next_code = 16%nat ∧
  ∀ l, 1 ≤ l < 16 → next_code.[l] = fc lens l + countb (λ s, s =? l) (take (Z.to_nat i) lens).

Lemma place_inj i j : coded lens i → coded lens j → place lens i = place lens j → i = j.
Proof using Hok.
  intros Hi Hj E. pose proof (coded_len lens i Hok Hi) as Hli. pose proof (coded_len lens j Hok Hj) as Hlj.
  pose proof (rank_range lens i Hi) as Hri. pose proof (rank_range lens j Hj) as Hrj.
  unfold place in E. destruct Hi as [Hi _], Hj as [Hj _].
  assert (lens.[i] = lens.[j]) as El.
  { clear Hi Hj. revert E Hli Hlj Hri Hrj. generalize (lens.[i]) (lens.[j]). intros a b E ? ? ? ?.
    destruct (Z.lt_trichotomy a b) as [?|[?|?]]; [|done|].
    - pose proof (fs_mono lens (a + 1) b ltac:(lia)) as Hm. rewrite fs_succ in Hm by lia. lia.
    - pose proof (fs_mono lens (b + 1) a ltac:(lia)) as Hm. rewrite fs_succ in Hm by lia. lia. }
  assert (rank lens i = rank lens j) as Er by (rewrite El in E; lia).
  unfold rank in Er. rewrite El in Er.
  destruct (Z.lt_trichotomy i j) as [Hlt|[?|Hlt]]; [|done|]; exfalso.
  - pose proof (countb_take_lt (λ s, s =? lens.[j]) lens i j ltac:(lia) ltac:(lia)) as H.
    cbn beta in H. rewrite El in H. specialize (H (Z.eqb_refl _)). lia.
  - pose proof (countb_take_lt (λ s, s =? lens.[j]) lens j i ltac:(lia) ltac:(lia)) as H.
    cbn beta in H. specialize (H (Z.eqb_refl _)). lia.
Qed.

Lemma sorted_step i z z' : zshape z → coded lens i → sorted_upto i z →
  size z' = zset (size z) (place lens i) (lens.[i]) →
  value z' = zset (value z) (place lens i) i → sorted_upto (i + 1) z'.
Proof using Hok Hcount.
  intros [] Hc Hs E1 E2 j Hj Hlt. rewrite E1, E2.
  pose proof (place_range lens i Hok Hc). pose proof (place_range lens j Hok Hj).
  destruct (decide (j = i)) as [->|Hne].
  - rewrite !znth_zset_eq by lia. done.
  - assert (place lens i ≠ place lens j) by (intros E; apply Hne; symmetry; by apply place_inj).
    rewrite !znth_zset_ne by lia. apply Hs; [done|lia].
Qed.

(** A new symbol with a short code. *)
Lemma fast_step i z z' : coded lens i → fast_upto i z →
  (∀ e, 0 ≤ e < 512 → (fast z').[e] =
     if decide (lens.[i] ≤ 9 ∧ matches lens e i) then fast_entry i else (fast z).[e]) →
  fast_upto (i + 1) z'.
Proof using Hok.
  intros Hc Hf E e He. rewrite E by done. clear E. destruct (Hf e He) as [H1 H2].
  destruct (decide (lens.[i] ≤ 9 ∧ matches lens e i)) as [[Hs Hmi]|Hd]; split.
  - intros j Hj Hl Hm. by rewrite (matches_unique lens e j i Hok Hm Hmi).
  - right. exists i. auto with lia.
  - intros j Hj Hl Hm. apply H1; [|done..]. destruct (decide (j = i)) as [->|]; [tauto|lia].
  - destruct H2 as [|(j & Hj & Hl & Hm & Ej)]; [by left|]. right. exists j.
    auto with lia.
Qed.

Lemma fast_skip i z : ¬ coded lens i → fast_upto i z → fast_upto (i + 1) z.
Proof using Type.
  intros Hc Hf e He. destruct (Hf e He) as [H1 H2]. split.
  - intros j Hj Hl Hm. apply H1; [|done..]. destruct (decide (j = i)) as [->|]; [|lia].
    by destruct Hm.
  - destruct H2 as [|(j & Hj & Hl & Hm & Ej)]; [by left|]. right. exists j.
    auto with lia.
Qed.

Lemma assign_symbol_wp sizelist off i next_code z :
  (∀ i, 0 ≤ i < zlen lens → rd sizelist (off + i) = Ok (lens.[i])) →
  0 ≤ i < zlen lens → symbols_inv i next_code z →
  awp_ok (assign_symbol sizelist off i next_code) z (λ next_code z', symbols_inv (i + 1) next_code z').
Proof using Hok Hcount.
  intros Hrd Hi (Hz & Hh & Hm & Hs & Hf & Hnl & Hnc). unfold assign_symbol.
  assert (∀ l, countb (λ s, s =? l) (take (Z.to_nat (i + 1)) lens) =
    countb (λ s, s =? l) (take (Z.to_nat i) lens) + Z.b2z (lens.[i] =? l)) as Hstep
    by (intros l; by apply (countb_take (λ s, s =? l))).
  awp_step. awp_step. rewrite Hrd by done. cbn [wp].
  destruct (Z.eqb_spec (lens.[i]) 0) as [E0|E0].
  { awp_step. split; [done|]. split; [done|]. split; [done|].
    split; [|split; [|split; [done|]]].
    - intros j Hj Hlt. apply Hs; [done|]. destruct (decide (j = i)) as [->|]; [by destruct Hj|lia].
    - apply fast_skip; [|done]. by intros [_ ?].
    - intros l Hl. rewrite Hnc, Hstep, E0 by done. rewrite (proj2 (Z.eqb_neq 0 l)) by lia. cbn. lia. }
  assert (coded lens i) as Hc by done.
  pose proof (coded_len lens i Hok Hc) as Hl. pose proof (code_range lens i Hok Hc) as Hcr.
  pose proof (place_range lens i Hok Hc) as Hp. pose proof Hz as [].
  assert (next_code.[lens.[i]] = code lens i) as Enc by (rewrite Hnc by lia; done).
  destruct (Hh (lens.[i])) as (Efc & Efs & _); [lia|].
  awp_step. awp_step. awp_step. awp_step. rewrite rd_ok, Enc by lia. cbn [wp].
  awp_step. awp_step. rewrite rd_ok, Efc by lia. cbn [wp].
  awp_step. awp_step. rewrite rd_ok, Efs by lia. cbn [wp].
  replace (code lens i - fc lens (lens.[i]) + fs lens (lens.[i])) with (place lens i)
    by (unfold code, place; lia).
  awp_step. awp_step. rewrite wr_ok by lia. cbn [wp].
  awp_step. awp_step. rewrite wr_ok by lia. cbn [wp].
  apply awp_ok_bind. apply (awp_ok_mono _ _ (λ ft z', z' = z ∧ length ft = 512%nat ∧
    ∀ e, 0 ≤ e < 512 → ft.[e] =
      if decide (lens.[i] ≤ 9 ∧ matches lens e i) then fast_entry i else (fast z).[e])).
  { unfold STBI__ZFAST_BITS. destruct (Z.leb_spec (lens.[i]) 9) as [Hs9|Hs9].
    - awp_step. awp_step. rewrite bit_reverse_spec by lia. cbn [wp]. awp_step.
      apply fill_fast_wp; [lia|apply rev_bits_range; lia|done|]. intros ft Hft He.
      split; [done|]. split; [done|]. intros e Hee. rewrite He by done.
      pose proof (matches_mod lens e i Hok Hc) as Hmm. unfold fast_entry, u16.
      rewrite lor_shiftl, (Z.mod_small (_ * 2 ^ 9 + _)) by lia. apply decide_ext. tauto.
    - awp_step. split; [done|]. split; [done|]. intros e He. rewrite decide_False; [done|lia]. }
  intros ft z' (-> & Hft & He). awp_step. awp_step. awp_step. rewrite wr_ok by lia. cbn [wp].
  unfold u8, u16. rewrite !Z.mod_small by lia.
  split; [split; cbn; rewrite ?length_zset; done|]. split; [done|]. split; [done|].
  split; [by apply (sorted_step i z)|]. split; [by apply (fast_step i z)|].
  split; [by rewrite length_zset|]. intros l Hl'. rewrite Hstep.
  destruct (Z.eqb_spec (lens.[i]) l) as [E|E]; cbn [Z.b2z].
  - subst l. rewrite znth_zset_eq by lia. unfold code, rank. lia.
  - rewrite znth_zset_ne, Hnc by lia. lia.
Qed.
End tables.

(** *** The whole construction *)
Section build.
Context `{Env : StbiEnv}.
Variables (sizelist : list Z) (off num : Z).

(** The code lengths in the array. *)
Definition lens_of : list Z := take (Z.to_nat num) (drop (Z.to_nat off) sizelist).

Hypotheses (Hoff : 0 ≤ off) (Hnum : 0 ≤ num ≤ 288) (Hin : off + num ≤ zlen sizelist)
  (Hlens : Forall (λ s, 0 ≤ s ≤ 15) lens_of).

Lemma length_lens_of : zlen lens_of = num.
Proof using Hoff Hnum Hin. unfold lens_of. rewrite length_take, length_drop. lia. Qed.

Lemma rd_lens_of i : 0 ≤ i < zlen lens_of → rd sizelist (off + i) = Ok (lens_of.[i]).
Proof using Hoff Hnum Hin.
  rewrite length_lens_of. intros Hi. rewrite rd_ok by lia. f_equal. unfold lens_of.
  rewrite !list_lookup_total_alt, lookup_take_lt, lookup_drop by lia. do 2 f_equal. lia.
Qed.

Lemma lens_range i : 0 ≤ i < zlen lens_of → 0 ≤ lens_of.[i] ≤ 15.
Proof using Hlens. intros Hi. apply znth_lookup in Hi. exact (Forall_lookup_1 _ _ _ _ Hlens Hi). Qed.

Lemma count_sizes_wp (Q : list Z → Prop) :
  (∀ sizes, length sizes = 17%nat →
     (∀ l, 0 ≤ l < 17 → sizes.[l] = countb (λ s, s =? l) lens_of) → Q sizes) →
  wp (count_sizes sizelist off num) Q.
Proof using Hoff Hnum Hin Hlens.
  intros HQ. unfold count_sizes.
  apply (for_range_wp (λ i sizes, length sizes = 17%nat ∧ ∀ l, 0 ≤ l < 17 →
    sizes.[l] = countb (λ s, s =? l) (take (Z.to_nat i) lens_of))).
  - split; [done|]. intros l Hl. by rewrite znth_replicate by lia.
  - intros i sizes Hi [Hl Hs]. pose proof length_lens_of as Hn.
    pose proof (lens_range i ltac:(lia)) as Hr.
    apply wp_bind. rewrite rd_lens_of by lia. cbn [wp].
    apply wp_bind. rewrite rd_ok by lia. cbn [wp].
    pose proof (countb_range (λ s, s =? lens_of.[i]) (take (Z.to_nat i) lens_of)) as Hc.
    rewrite length_take in Hc. rewrite Hs by lia.
    apply wp_bind. rewrite i32_ok by (c_unfold; lia). cbn [wp].
    rewrite wr_ok by lia. cbn [wp]. split; [by rewrite length_zset|]. intros l Hl'.
    rewrite (countb_take (λ s, s =? l)) by lia. rewrite znth_zset by lia.
    case_decide as E; [subst l; rewrite Z.eqb_refl; cbn; lia|].
    rewrite (proj2 (Z.eqb_neq _ l)), Hs by lia. cbn. lia.
  - intros sizes. rewrite Z.max_r by lia. intros [Hl Hs]. apply HQ; [done|].
    intros l Hl'. rewrite Hs by done. rewrite take_ge; [done|]. pose proof length_lens_of. lia.
Qed.

(** [stbi__zbuild_huffman] builds, from any list of code lengths up to 15,
    tables that represent the canonical code of RFC 1951, or fails; lengths that
    do not describe a prefix code always fail.  Every array access is in
    bounds. *)
Lemma zbuild_huffman_wp z : zshape z →
  awp (stbi__zbuild_huffman sizelist off num) z (allow (refused lens_of) (λ _ z', table_ok lens_of z')).
Proof using Hoff Hnum Hin Hlens.
  intros Hz. pose proof length_lens_of as Hn. unfold stbi__zbuild_huffman.
  awp_step. awp_step. set (z1 := {| fast := replicate 512 0 |}).
  assert (zshape z1) as Hz1 by (destruct Hz; split; done).
  assert (fast z1 = replicate 512 0) as Hf1 by done. clearbody z1.
  awp_step. awp_step. apply count_sizes_wp. intros sizes0 Hl0 Hs0.
  awp_step. awp_step. rewrite wr_ok by lia. cbn [wp].
  set (sizes := zset sizes0 0 0).
  assert (hist lens_of sizes) as Hh.
  { split; [by unfold sizes; rewrite length_zset|]. intros l Hl. unfold sizes, cnt.
    rewrite znth_zset by lia. destruct (Z.eqb_spec l 0) as [->|]; [done|].
    rewrite decide_False by lia. by apply Hs0. }
  awp_step. apply (awp_for (λ _ _ s, s = z1) (refused lens_of)); [done| |].
  { intros i u s Hi ->. awp_step. awp_step. rewrite rd_ok by (unfold sizes; rewrite length_zset; lia).
    cbn [wp]. awp_step; [|done]. intros Hc. split; [done|]. intros [_ Hcode]. specialize (Hcode i ltac:(lia)).
    rewrite (proj2 Hh) in Hc by lia. apply Z.ltb_lt in Hc. rewrite Z.shiftl_mul_pow2 in Hc by lia.
    pose proof (fc_nonneg lens_of i ltac:(lia)). pose proof (Z.pow_pos_nonneg 2 i ltac:(lia) ltac:(lia)). lia. }
  intros [u|e] s Hs; [|exact Hs]. cbn in Hs. subst s.
  awp_step. apply (awp_for (λ i s z, lengths_inv lens_of i s z) (refused lens_of)).
  { split; [done|]. split; [done|]. split; [intros l Hl; lia|]. split; [intros l Hl; lia|].
    split; [done|]. split; [done|]. split; [by rewrite length_malloc|]. intros l Hl; lia. }
  { intros i s z2 Hi Hinv. apply assign_length_wp; done || lia. }
  intros [[[code k] next_code]|e] z2; [|done]. rewrite Z.max_r by lia.
  intros (Hz2 & Hf & Hhd & Hok & _ & _ & Hnl & Hnc).
  awp_step. awp_step. awp_step. awp_step. rewrite wr_ok by (destruct Hz2; lia). cbn [wp].
  awp_step. awp_step. set (z3 := {| fast := fast z2 |}).
  assert (lengths_ok lens_of) as Hlok.
  { split; [exact Hlens|]. intros l Hl. apply Hok. lia. }
  awp_step. apply (awp_for (λ i next_code z, symbols_inv lens_of i next_code z) (refused lens_of)).
  { pose proof Hz2 as []. split; [by split; cbn; rewrite ?length_zset|].
    split; [intros l Hl; cbn; rewrite znth_zset_ne by lia; by apply Hhd|].
    split; [cbn; by rewrite znth_zset_eq by lia|].
    split; [intros j [Hj _] Hlt; lia|].
    split; [|split; [done|intros l Hl; rewrite Hnc by lia; symmetry; apply Z.add_0_r]].
    intros e He. split; [intros j Hj _ [[Hj' _] _]; lia|]. left. cbn. rewrite Hf.
    apply znth_replicate. lia. }
  { intros i nc z4 Hi Hinv. eapply awp_mono; [apply (assign_symbol_wp lens_of)|].
    - done.
    - lia.
    - apply rd_lens_of.
    - lia.
    - exact Hinv.
    - by intros [a|e] z5. }
  intros [nc|e] z4; [|done]. intros (Hz4 & H1 & H2 & H3 & H4 & _). awp_step.
  rewrite Z.max_r in H3, H4 by lia. rewrite <- Hn in H3, H4. split; done || lia.
Qed.
End build.

Lemma junk_shape `{Env : StbiEnv} : zshape junk_zhuffman.
Proof. split; cbn; by rewrite length_malloc. Qed.
