(* ===== verification/StbBits.v ===== *)
(** * stb_image: the zlib bit reader

    The bits still to come are one number, [bits_value]: the low [num_bits] bits
    are those of the bit buffer, the bytes of the input follow, and zeros without
    end after them.  Refilling keeps the number, receiving [n] bits takes it
    modulo [2 ^ n], and decoding a symbol removes its code. *)
From S2P Require Import Prelude StbMonad StbBase StbBaseSpec StbStream StbZlib StbHuffman.

(** The number whose bytes, least significant first, are [l]. *)
Definition value_le (l : list Z) : Z := foldr (λ b acc, b + 256 * acc) 0 l.

Lemma value_le_nonneg l : Forall is_byte l → 0 ≤ value_le l.
Proof. induction 1 as [|b l Hb Hl IH]; cbn; [lia|]. fold (value_le l). destruct Hb. lia. Qed.

Lemma value_le_bound l : Forall is_byte l → value_le l < 2 ^ (8 * zlen l).
Proof.
  induction 1 as [|b l Hb Hl IH]; cbn [value_le foldr length]; [done|].
  replace (8 * Z.of_nat (S (length l))) with (8 + 8 * zlen l) by lia.
  rewrite Z.pow_add_r by lia. change (2 ^ 8) with 256. destruct Hb. fold (value_le l). lia.
Qed.

Lemma window_bytes_ok l lo hi : Forall is_byte l → Forall is_byte (window l lo hi).
Proof. intros. unfold window. by apply Forall_take, Forall_drop. Qed.

(** The bits still to come. *)
Definition input_left (a : stbi__zbuf) : list Z := window (zin a) (zbuffer a) (zbuffer_end a).
Definition bits_value (a : stbi__zbuf) : Z :=
  code_buffer a + 2 ^ num_bits a * value_le (input_left a).

(** The stream: those bits, and how many of them come before the next byte
    boundary, modulo 8. *)
Definition stream (a : stbi__zbuf) : Z * Z := (bits_value a, num_bits a mod 8).
Definition advance (n : Z) (s : Z * Z) : Z * Z := (s.1 / 2 ^ n, (s.2 - n) mod 8).

(** The invariant of the reader. *)
Record bits_ok (a : stbi__zbuf) : Prop := {
  bits_count : 0 ≤ num_bits a ≤ 32;
  bits_buffer : 0 ≤ code_buffer a < 2 ^ num_bits a;
  bits_pos : 0 ≤ zbuffer a ≤ zbuffer_end a;
  bits_end : zbuffer_end a ≤ zlen (zin a);
  bits_bytes : Forall is_byte (zin a)
}.

(** What reading leaves alone. *)
Definition frame (a a' : stbi__zbuf) : Prop :=
  zin a' = zin a ∧ zbuffer_end a' = zbuffer_end a ∧ zout_start a' = zout_start a ∧
  zout a' = zout a ∧ z_expandable a' = z_expandable a ∧ z_length a' = z_length a ∧
  z_distance a' = z_distance a.

#[export] Instance frame_preorder : PreOrder frame.
Proof.
  split; [by repeat split|]. intros a b c (?&?&?&?&?&?&?) (?&?&?&?&?&?&?).
  repeat split; congruence.
Qed.

(** The input still holds [k] bits, and no zeros have been supplied yet. *)
Definition bits_left (a : stbi__zbuf) : Z := num_bits a + 8 * (zbuffer_end a - zbuffer a).
Definition live (k : Z) (a : stbi__zbuf) : Prop := hit_zeof_once a = false ∧ k ≤ bits_left a.

Lemma bits_value_nonneg a : bits_ok a → 0 ≤ bits_value a.
Proof.
  intros []. unfold bits_value, input_left.
  pose proof (value_le_nonneg _ (window_bytes_ok (zin a) (zbuffer a) (zbuffer_end a) bits_bytes0)).
  pose proof (Z.pow_nonneg 2 (num_bits a) ltac:(lia)). nia.
Qed.

(** The low bits are those of the buffer. *)
Lemma bits_value_low a n : 0 ≤ n ≤ num_bits a →
  bits_value a mod 2 ^ n = code_buffer a mod 2 ^ n.
Proof.
  intros Hn. unfold bits_value. replace (num_bits a) with (n + (num_bits a - n)) by lia.
  rewrite Z.pow_add_r, <- Z.mul_assoc, (Z.mul_comm (2 ^ n)), Z.mod_add by (try apply Z.pow_nonzero; lia).
  done.
Qed.

(** Taking [n] bits off the buffer. *)
Definition dropped (n : Z) (a : stbi__zbuf) : stbi__zbuf :=
  set_bits (Z.shiftr (code_buffer a) n) (num_bits a - n) (hit_zeof_once a) a.

Lemma dropped_ok a n : bits_ok a → 0 ≤ n ≤ num_bits a →
  bits_ok (dropped n a) ∧ frame a (dropped n a) ∧ stream (dropped n a) = advance n (stream a).
Proof.
  intros [] Hn. unfold dropped. rewrite Z.shiftr_div_pow2 by lia.
  assert (0 < 2 ^ n) as Hp by (apply Z.pow_pos_nonneg; lia).
  assert (2 ^ num_bits a = 2 ^ n * 2 ^ (num_bits a - n)) as E
    by (rewrite <- Z.pow_add_r by lia; f_equal; lia).
  split; [|split; [by repeat split|]].
  - split; cbn; try done; [lia|]. split; [apply Z.div_pos; lia|].
    apply Z.div_lt_upper_bound; lia.
  - unfold stream, advance. cbn [fst snd]. rewrite Zminus_mod_idemp_l. f_equal.
    unfold bits_value, input_left. cbn. rewrite E.
    rewrite <- Z.mul_assoc, (Z.mul_comm (2 ^ n)), Z.div_add by lia. done.
Qed.

Lemma live_dropped k n a : live k a → live (k - n) (dropped n a).
Proof. intros [? ?]. split; [done|]. unfold bits_left, dropped in *. cbn. lia. Qed.

Lemma shr32_ok c n : 0 ≤ n < 32 → shr32 c n = Ok (Z.shiftr c n).
Proof. intros. unfold shr32. by rewrite (proj2 (Z.leb_le 0 n)), (proj2 (Z.ltb_lt n 32)) by lia. Qed.

Lemma shl32_ok c n : 0 ≤ n < 32 → 0 ≤ c → c * 2 ^ n < 2 ^ 32 → shl32 c n = Ok (c * 2 ^ n).
Proof.
  intros. unfold shl32. rewrite (proj2 (Z.leb_le 0 n)), (proj2 (Z.ltb_lt n 32)) by lia. cbn [andb].
  rewrite Z.shiftl_mul_pow2, u32_small by nia. done.
Qed.

(** ** Refilling *)
Lemma zget8_spec a : bits_ok a →
  awp_ok stbi__zget8 a (λ b a', is_byte b ∧ bits_ok a' ∧ frame a a' ∧
    hit_zeof_once a' = hit_zeof_once a ∧ num_bits a' = num_bits a ∧ code_buffer a' = code_buffer a ∧
    zbuffer a' = Z.min (zbuffer a + 1) (zbuffer_end a) ∧
    value_le (input_left a) = b + 256 * value_le (input_left a')).
Proof.
  intros []. unfold stbi__zget8, stbi__zeof. awp_step. awp_step.
  destruct (Z.leb_spec (zbuffer_end a) (zbuffer a)).
  - awp_step. unfold input_left. rewrite window_nil by lia.
    split; [by split|]. split; [done|]. split; [done|]. repeat split. lia.
  - awp_step. awp_step. rewrite rd_ok by lia. cbn [wp]. awp_step. awp_step. awp_step.
    unfold input_left. rewrite (window_cons (zin a)) by lia. cbn.
    split; [|split; [split; cbn; done || lia|split; [by repeat split|repeat split; lia]]].
    eapply (Forall_lookup_1 _ _ _ _ bits_bytes0). apply znth_lookup. lia.
Qed.

Lemma fill_bits_spec a : bits_ok a → num_bits a ≤ 24 →
  awp_ok stbi__fill_bits a (λ _ a', bits_ok a' ∧ frame a a' ∧
    hit_zeof_once a' = hit_zeof_once a ∧ 25 ≤ num_bits a' ∧ stream a' = stream a ∧
    bits_left a ≤ bits_left a').
Proof.
  intros Hok Hn. unfold stbi__fill_bits. awp_step. unfold awp_ok.
  apply (awp_loop (λ _ a', bits_ok a' ∧ frame a a' ∧ hit_zeof_once a' = hit_zeof_once a ∧
      num_bits a' ≤ 24 ∧ stream a' = stream a ∧ bits_left a ≤ bits_left a')
    (λ _ a', Z.to_nat ((31 - num_bits a') / 8))).
  - split; [done|]. split; [done|]. do 3 (split; [done|]). lia.
  - destruct Hok. assert ((31 - num_bits a) / 8 < 4) by (apply Z.div_lt_upper_bound; lia).
    pose proof (Z.div_pos (31 - num_bits a) 8). lia.
  - clear Hok Hn. intros _ a1 (Hok & Hfr & Hhit & Hn & Hv & Hleft). pose proof Hok as [].
    awp_step. awp_step. awp_step. awp_step. rewrite shl32_ok, Z.mul_1_l.
    2: lia. 2: lia.
    2: { assert (2 ^ num_bits a1 ≤ 2 ^ 24) by (apply Z.pow_le_mono_r; lia). lia. }
    cbn [wp]. rewrite (proj2 (Z.leb_gt _ _)) by lia.
    awp_step. eapply awp_mono; [exact (zget8_spec a1 Hok)|]. intros [b|e] a2; [|done].
    intros (Hb & Hok2 & Hfr2 & Hhit2 & Hn2 & Hc2 & Hz2 & Hval).
    assert (2 ^ num_bits a1 ≤ 2 ^ 24) as Hp by (apply Z.pow_le_mono_r; lia).
    assert (0 < 2 ^ num_bits a1) as Hp0 by (apply Z.pow_pos_nonneg; lia).
    awp_step. awp_step. destruct Hb as [Hb0 Hb1].
    rewrite shl32_ok; [|lia|lia|nia]. cbn [wp].
    awp_step. awp_step. awp_step.
    assert (Z.lor (code_buffer a2) (b * 2 ^ num_bits a1) = b * 2 ^ num_bits a1 + code_buffer a2) as Hl.
    { rewrite <- (Z.shiftl_mul_pow2 b (num_bits a1)) at 1 by lia. apply lor_shiftl_r; lia. }
    rewrite Hl, Hn2.
    match goal with |- context[set_bits ?c ?n ?h a2] =>
      assert (bits_ok (set_bits c n h a2) ∧ frame a (set_bits c n h a2) ∧ h = hit_zeof_once a ∧
              stream (set_bits c n h a2) = stream a ∧ bits_left a ≤ bits_left (set_bits c n h a2))
        as (H1 & H2 & H3 & H4 & H5) end.
    { destruct Hok2. split; [|split; [|split; [congruence|split]]].
      - split; cbn; try done; [lia|]. rewrite Z.pow_add_r by lia. change (2 ^ 8) with 256. nia.
      - etrans; [exact Hfr|]. etrans; [exact Hfr2|]. by repeat split.
      - rewrite <- Hv. unfold stream. f_equal; [|cbn; rewrite <- (Z.mod_add (num_bits a1) 1 8) by lia; f_equal; lia].
        unfold bits_value. rewrite Hval. cbn.
        change (input_left (set_bits _ _ _ a2)) with (input_left a2).
        rewrite Z.pow_add_r by lia. change (2 ^ 8) with 256. lia.
      - unfold bits_left in *. cbn. destruct Hfr2 as (_ & -> & _). lia. }
    destruct (Z.leb_spec (num_bits a1 + 8) 24).
    + split; [do 2 (split; [done|]); do 2 (split; [done || lia|]); split; done|]. cbn.
      assert ((31 - num_bits a1) / 8 = (31 - (num_bits a1 + 8)) / 8 + 1) as ->
        by (rewrite <- Z.div_add by lia; f_equal; lia).
      pose proof (Z.div_pos (31 - (num_bits a1 + 8)) 8 ltac:(lia) ltac:(lia)). lia.
    + apply awp_ret. do 3 (split; [done|]). split; [cbn; lia|]. split; [done|]. exact H5.
Qed.

(** ** Receiving bits *)
Lemma zreceive_spec a n : bits_ok a → 0 ≤ n ≤ 24 →
  awp_ok (stbi__zreceive n) a (λ k a', bits_ok a' ∧ frame a a' ∧
    hit_zeof_once a' = hit_zeof_once a ∧
    k = bits_value a mod 2 ^ n ∧ stream a' = advance n (stream a)).
Proof.
  intros Hok Hn. unfold stbi__zreceive. awp_step. awp_step. apply awp_ok_bind.
  apply (awp_ok_mono _ _ (λ _ a', bits_ok a' ∧ frame a a' ∧ hit_zeof_once a' = hit_zeof_once a ∧
    n ≤ num_bits a' ∧ stream a' = stream a)).
  { destruct (Z.ltb_spec (num_bits a) n).
    - eapply awp_ok_mono; [apply fill_bits_spec; [done|lia]|].
      intros _ a' (?&?&?&?&?&?). do 3 (split; [done|]). split; [lia|done].
    - awp_step. done. }
  intros _ a1 (Hok1 & Hfr & Hhit & Hle & Hv). awp_step. awp_step.
  awp_step. awp_step. rewrite shr32_ok by lia. cbn [wp]. awp_step. awp_step. awp_step.
  destruct (dropped_ok a1 n Hok1 ltac:(lia)) as (H1 & H2 & H3). fold (dropped n a1).
  pose proof (f_equal fst Hv) as Hv1. cbn in Hv1.
  rewrite land_mask_shiftl, <- bits_value_low, Hv1 by lia. rewrite H3, Hv.
  split; [done|]. split; [by etrans|]. done.
Qed.

Lemma zreceive_moves a n : bits_ok a → 0 ≤ n ≤ 24 →
  awp_ok (stbi__zreceive n) a (λ r a', bits_ok a' ∧ frame a a' ∧
    r = bits_value a mod 2 ^ n ∧ stream a' = advance n (stream a) ∧ ∀ k, live k a → live (k - n) a').
Proof.
  intros Hok Hn.
  enough (awp_ok (stbi__zreceive n) a (λ _ a', ∀ k, live k a → live (k - n) a')) as H.
  { pose proof (wp_and _ _ _ H (zreceive_spec a n Hok Hn)) as H'. eapply wp_mono; [exact H'|].
    intros [[r|] a']; cbn; [|tauto]. tauto. }
  unfold stbi__zreceive. awp_step. awp_step. apply awp_ok_bind.
  apply (awp_ok_mono _ _ (λ _ a', ∀ k, live k a → live k a')).
  { destruct (Z.ltb_spec (num_bits a) n).
    - eapply awp_ok_mono; [apply fill_bits_spec; [done|lia]|].
      intros u a' (?&?&Hh&?&?&?) k []. split; [congruence|lia].
    - by awp_step. }
  intros u a1 Hl1. awp_step. awp_step. awp_step. awp_step. rewrite shr32_ok by lia. cbn [wp].
  awp_step. awp_step. awp_step. intros k Hk. by apply live_dropped, Hl1.
Qed.

(** ** Decoding a symbol *)
Section decode.
Variables (lens : list Z) (z : stbi__zhuffman).
Hypothesis Ht : table_ok lens z.

(** A decoded symbol [r] begins the stream [s], and [s'] is what is left. *)
Definition decoded (s : Z * Z) (r : Z) (s' : Z * Z) : Prop :=
  matches lens s.1 r ∧ s' = advance (lens.[r]) s.

(** A stream read at a fixed width. *)
Lemma matches_value a n i : lens.[i] ≤ n → 0 ≤ n ≤ num_bits a →
  matches lens (code_buffer a mod 2 ^ n) i ↔ matches lens (bits_value a) i.
Proof using Ht.
  intros Hl Hn. rewrite <- bits_value_low by done. apply matches_low; [apply Ht|done].
Qed.

Lemma coded_count i : coded lens i → 0 ≤ i < 288 ∧ 1 ≤ lens.[i] ≤ 15.
Proof using Ht.
  intros Hc. pose proof (coded_len lens i (table_lens _ _ Ht) Hc). destruct Hc as [Hi _].
  pose proof (table_count _ _ Ht). lia.
Qed.

(** The search for the length, from 10 on. *)
Lemma slow_length k (Q : Z → Prop) : 0 ≤ k < 65536 →
  (∀ s, 10 ≤ s ≤ 16 → k < (maxcode z).[s] → (∀ t, 10 ≤ t < s → (maxcode z).[t] ≤ k) → Q s) →
  wp (fell <$> loop (R := Empty_set) 8 (λ s,
    m ← rd (maxcode z) s; Ok (if k <? m then Break s else Next (s + 1))) 10) Q.
Proof using Ht.
  intros Hk HQ. pose proof (len_maxcode _ (table_shape _ _ Ht)) as Hl.
  enough (wp (loop (R := Empty_set) 8 (λ s,
    m ← rd (maxcode z) s; Ok (if k <? m then Break s else Next (s + 1))) 10)
    (λ x, Q (fell x))) as H by (by destruct (loop _ _ _)).
  apply (loop_wp (λ s, 10 ≤ s ≤ 16 ∧ ∀ t, 10 ≤ t < s → (maxcode z).[t] ≤ k)
    (λ s, Z.to_nat (17 - s))).
  - split; [lia|]. intros; lia.
  - lia.
  - intros s [Hs Hle]. wp_run. destruct (Z.ltb_spec k ((maxcode z).[s])) as [Hlt|Hge].
    + cbn. apply HQ; [lia|done..].
    + assert (s ≠ 16) by (intros ->; rewrite (table_max _ _ Ht) in Hge; lia).
      split; [|lia]. split; [lia|]. intros t Htt. destruct (decide (t = s)) as [->|]; [done|].
      apply Hle. lia.
Qed.

(** The place of the code of length [s] found by the search. *)
Lemma slow_place v s : 10 ≤ s ≤ 15 → (∀ i, lens.[i] ≤ 9 → ¬ matches lens v i) →
  rev_bits 16 v < (maxcode z).[s] → (∀ t, 10 ≤ t < s → (maxcode z).[t] ≤ rev_bits 16 v) →
  ∃ i, matches lens v i ∧ lens.[i] = s ∧ rev_bits s v - fc lens s + fs lens s = place lens i.
Proof using Ht.
  intros Hs Hno Hlt Hge. pose proof (table_lens _ _ Ht) as Hok.
  pose proof (rev_bits_div s 16 v ltac:(lia)) as Hd.
  assert (0 < 2 ^ (16 - s)) as Hp by (apply Z.pow_pos_nonneg; lia).
  destruct (table_heads _ _ Ht s ltac:(lia)) as (_ & _ & Hm). rewrite Hm in Hlt.
  assert (rev_bits s v < fc lens s + cnt lens s) as Hlt'
    by (rewrite <- Hd; apply Z.div_lt_upper_bound; lia).
  assert (fc lens s ≤ rev_bits s v) as Hge'.
  { destruct (decide (s = 10)) as [->|].
    - apply Z.nlt_ge. intros H. destruct (matches_cover lens v 9 Hok) as (i & Hi & Hl); [lia| |].
      + change 10 with (9 + 1) in H. rewrite fc_succ in H by lia.
        rewrite <- (rev_bits_div 9 (9 + 1)) by lia. apply Z.div_lt_upper_bound; lia.
      + by apply (Hno i).
    - specialize (Hge (s - 1) ltac:(lia)).
      destruct (table_heads _ _ Ht (s - 1) ltac:(lia)) as (_ & _ & Hm'). rewrite Hm' in Hge.
      replace (16 - (s - 1)) with (1 + (16 - s)) in Hge by lia. rewrite Z.pow_add_r in Hge by lia.
      replace s with (s - 1 + 1) at 1 by lia. rewrite fc_succ by lia.
      rewrite <- Hd. apply Z.div_le_lower_bound; lia. }
  destruct (coded_at lens s (rev_bits s v - fc lens s)) as (i & Hc & Hl & Hr); [lia..|].
  exists i. unfold matches, code, place. rewrite Hl, Hr. split; [|split; [done|lia]].
  split; [done|lia].
Qed.

(** The reader has gone once past the end already. *)
Definition exhausted (a : stbi__zbuf) : Prop :=
  num_bits a < 16 ∧ stbi__zeof a = true ∧ hit_zeof_once a = true.

(** What a call of the decoder promises. *)
Definition decode_post (a : stbi__zbuf) (r : Z) (a' : stbi__zbuf) : Prop :=
  bits_ok a' ∧ frame a a' ∧
  ((r = -1 ∧ stream a' = stream a ∧
      (exhausted a ∨ ∀ i, ¬ matches lens (bits_value a) i)) ∨
   ((0 ≤ r < 288 ∧ ∀ k, 16 ≤ k → live k a → live (k - lens.[r]) a') ∧
      decoded (stream a) r (stream a'))).

Lemma slowpath_spec a : bits_ok a → 16 ≤ num_bits a →
  (∀ i, lens.[i] ≤ 9 → ¬ matches lens (bits_value a) i) →
  awp_ok (stbi__zhuffman_decode_slowpath z) a (decode_post a).
Proof using Ht.
  intros Hok Hn Hno. pose proof (table_shape _ _ Ht) as []. set (v := bits_value a) in *.
  assert (rev_bits 16 (sx 32 (code_buffer a)) = rev_bits 16 v) as Ek.
  { pose proof Hok as []. unfold v. rewrite <- (rev_bits_mod 16 (bits_value a) 16), bits_value_low by lia.
    rewrite <- (rev_bits_mod 16 (sx 32 _) 16) by lia. f_equal. unfold sx.
    assert (2 ^ num_bits a ≤ 2 ^ 32) by (apply Z.pow_le_mono_r; lia).
    change (32 - 1) with 31. set (c := code_buffer a) in *.
    pose proof (Z.div_mod (c + 2 ^ 31) (2 ^ 32) ltac:(lia)) as Hd.
    replace ((c + 2 ^ 31) mod 2 ^ 32 - 2 ^ 31) with (c + (- ((c + 2 ^ 31) / 2 ^ 32) * 2 ^ 16) * 2 ^ 16) by lia.
    apply Z.mod_add. lia. }
  unfold stbi__zhuffman_decode_slowpath. awp_step. awp_step.
  awp_step. awp_step. rewrite bit_reverse16_any, Ek. cbn [wp].
  pose proof (rev_bits_range 16 v ltac:(lia)) as Hrng.
  awp_step. awp_step. apply slow_length; [lia|]. intros s Hs Hlt Hge.
  destruct (Z.leb_spec 16 s) as [H16|H16].
  { awp_step. split; [done|]. split; [done|]. left. split; [done|]. split; [done|]. right.
    assert (s = 16) as -> by lia. intros i Hm. destruct (coded_count i (proj1 Hm)) as [_ Hl].
    destruct (decide (lens.[i] ≤ 9)) as [|Hl9]; [by apply (Hno i)|].
    pose proof (rank_range lens i (proj1 Hm)) as Hr. destruct Hm as [_ Em]. unfold code in Em. fold v in Em.
    generalize dependent (lens.[i]). intros l Em Hl Hl9 Hr.
    specialize (Hge l ltac:(lia)).
    destruct (table_heads _ _ Ht l ltac:(lia)) as (_ & _ & Hh). rewrite Hh in Hge.
    pose proof (rev_bits_div l 16 v ltac:(lia)) as Hd.
    assert (fc lens l + cnt lens l ≤ rev_bits 16 v / 2 ^ (16 - l)) as Hx
      by (apply Z.div_le_lower_bound; [apply Z.pow_pos_nonneg; lia|lia]).
    lia. }
  destruct (slow_place v s ltac:(lia) Hno Hlt Hge) as (i & Hm & Hl & Hp).
  destruct (coded_count i (proj1 Hm)) as [Hi Hli].
  destruct (table_heads _ _ Ht s ltac:(lia)) as (Hfc & Hfs & _).
  destruct (table_sorted _ _ Ht i (proj1 Hm) ltac:(destruct Hm as [[]]; lia)) as [Hsz Hvl].
  pose proof (place_range lens i (table_lens _ _ Ht) (proj1 Hm)) as Hpr.
  pose proof (table_count _ _ Ht).
  awp_step. awp_step. rewrite rd_ok, Hfc by lia. cbn [wp].
  awp_step. awp_step. rewrite rd_ok, Hfs by lia. cbn [wp].
  rewrite rev_bits_prefix, Hp by lia. unfold STBI__ZNSYMS. rewrite (proj2 (Z.leb_gt _ _)) by lia.
  awp_step. awp_step. rewrite rd_ok, Hsz, Hl by lia. cbn [wp]. rewrite Z.eqb_refl. cbn [negb].
  awp_step. awp_step. rewrite shr32_ok by lia. cbn [wp]. awp_step. awp_step. fold (dropped s a).
  awp_step. rewrite rd_ok, Hvl by lia. cbn [wp].
  destruct (dropped_ok a s Hok ltac:(lia)) as (H1 & H2 & H3).
  split; [done|]. split; [done|]. right. split; [split; [lia|]|split; [done|by rewrite Hl]].
  intros k _ Hk. rewrite Hl. by apply live_dropped.
Qed.

Lemma zhuffman_decode_spec a : bits_ok a →
  awp_ok (stbi__zhuffman_decode z) a (decode_post a).
Proof using Ht.
  intros Hok. pose proof (table_shape _ _ Ht) as []. unfold stbi__zhuffman_decode.
  awp_step. awp_step. apply awp_ok_bind.
  apply (awp_ok_mono _ _ (λ b a', bits_ok a' ∧ frame a a' ∧ stream a' = stream a ∧
    if b : bool then 16 ≤ num_bits a' ∧ (∀ k, 16 ≤ k → live k a → live k a')
    else exhausted a ∧ a' = a)).
  { destruct (Z.ltb_spec (num_bits a) 16) as [Hn|Hn].
    - destruct (stbi__zeof a) eqn:Ee; [destruct (hit_zeof_once a) eqn:Eh; cbn [negb]|].
      + awp_step. by repeat split; try apply Hok.
      + pose proof Hok as []. awp_step. awp_step. awp_step.
        unfold stbi__zeof in Ee. apply Z.leb_le in Ee.
        assert (2 ^ num_bits a ≤ 2 ^ (num_bits a + 16)) by (apply Z.pow_le_mono_r; lia).
        split; [split; cbn; done || lia|]. split; [by repeat split|]. split.
        2: { split; [cbn; lia|]. intros k Hk [_ Hl]. unfold bits_left in Hl. lia. }
        unfold stream. f_equal.
        * unfold bits_value, input_left. cbn. rewrite window_nil by lia. cbn. lia.
        * cbn. rewrite <- (Z.mod_add (num_bits a) 2 8) by lia. f_equal.
      + awp_step. eapply awp_ok_mono; [apply fill_bits_spec; [done|lia]|].
        intros _ a' (H1 & H2 & H5 & H3 & H4 & H6). awp_step.
        split; [done|]. split; [done|]. split; [done|]. split; [lia|].
        intros k _ [? ?]. split; [congruence|lia].
    - awp_step. split; [done|]. split; [done|]. split; [done|]. split; [lia|done]. }
  intros b a1 (Hok1 & Hfr & Hv & Hb). pose proof (f_equal fst Hv) as Hv1. cbn in Hv1. destruct b; cbn [negb].
  2: { destruct Hb as [Hex ->]. awp_step. split; [done|]. split; [done|]. left. auto. }
  destruct Hb as [Hb Hlive]. awp_step. awp_step. awp_step. awp_step.
  unfold STBI__ZFAST_MASK, STBI__ZFAST_BITS. rewrite land_mask_shiftl by lia.
  set (e := code_buffer a1 mod 2 ^ 9).
  assert (0 ≤ e < 512) as He by (apply (Z.mod_pos_bound (code_buffer a1) 512); lia).
  rewrite rd_ok by lia. cbn [wp].
  destruct (table_fast _ _ Ht e He) as [Hall Hone].
  assert (∀ i, lens.[i] ≤ 9 → matches lens e i ↔ matches lens (bits_value a1) i) as Hme
    by (intros i Hi; unfold e; apply matches_value; lia).
  destruct (Z.eqb_spec ((fast z).[e]) 0) as [E0|E0]; cbn [negb].
  - assert (∀ i, lens.[i] ≤ 9 → ¬ matches lens (bits_value a1) i) as Hno.
    { intros i Hi Hm. destruct (coded_count i (proj1 Hm)) as [Hi2 Hl2].
      rewrite (Hall i) in E0; [unfold fast_entry in E0; lia| |done|by apply Hme].
      destruct Hm as [[]]; lia. }
    eapply awp_ok_mono; [by apply slowpath_spec|]. intros r a2 (H1 & H2 & H3).
    split; [done|]. split; [by etrans|]. rewrite Hv, Hv1 in H3.
    destruct H3 as [(Hr & Hv' & Hx)|((Hr & Hl) & H3)]; [left|right].
    + split; [done|]. split; [done|]. destruct Hx as [(Hx & _)|]; [lia|by right].
    + split; [|done]. split; [done|]. intros k Hk Ha. by apply Hl, Hlive.
  - destruct Hone as [?|(i & Hi & Hl & Hm & Ei)]; [done|]. rewrite Ei. unfold fast_entry.
    destruct (coded_count i (proj1 Hm)) as [Hi2 Hl2].
    rewrite Z.shiftr_div_pow2 by lia. change (2 ^ 9) with 512.
    rewrite Z.div_add_l, (Z.div_small i), Z.add_0_r by lia.
    awp_step. awp_step. rewrite shr32_ok by lia. cbn [wp]. awp_step. awp_step. awp_step.
    fold (dropped (lens.[i]) a1).
    change 511 with (2 ^ 9 - 1). rewrite land_mask by lia. change (2 ^ 9) with 512.
    replace ((lens.[i] * 512 + i) mod 512) with i
      by (rewrite Z.add_comm, Z.mod_add, (Z.mod_small i) by lia; done).
    destruct (dropped_ok a1 (lens.[i]) Hok1) as (H1 & H2 & H3); [lia|].
    split; [done|]. split; [by etrans|]. right. rewrite <- Hv.
    split; [split; [lia|]; intros k Hk Ha; by apply live_dropped, Hlive|].
    split; [by apply Hme|done].
Qed.
End decode.

(** C8. The tables that [stbi__zbuild_huffman] builds decode the canonical
    Huffman code.  For every list of up to 288 code lengths of at most 15 the
    construction stays in its arrays and fails exactly when the lengths describe
    no prefix code; otherwise it leaves tables with which, in every state of the
    bit reader, [stbi__zhuffman_decode] returns the one symbol whose RFC 1951
    code begins the stream and removes that code, or returns -1 when there is
    none (or the end of the input was met twice). *)
Theorem huffman_tables_decode `{Env : StbiEnv} sizelist off num z0 :
  0 ≤ off → 0 ≤ num ≤ 288 → off + num ≤ zlen sizelist →
  Forall (λ s, 0 ≤ s ≤ 15) (lens_of sizelist off num) → zshape z0 →
  awp (stbi__zbuild_huffman sizelist off num) z0
    (allow (λ _, ¬ lengths_ok (lens_of sizelist off num)) (λ _ z,
    lengths_ok (lens_of sizelist off num) ∧
    ∀ a, bits_ok a → awp_ok (stbi__zhuffman_decode z) a (λ r a', bits_ok a' ∧ frame a a' ∧
      if decide (r = -1)
      then stream a' = stream a ∧
        (exhausted a ∨ ∀ i, ¬ matches (lens_of sizelist off num) (stream a).1 i)
      else matches (lens_of sizelist off num) (stream a).1 r ∧
        (∀ i, matches (lens_of sizelist off num) (stream a).1 i → i = r) ∧
        stream a' = advance ((lens_of sizelist off num).[r]) (stream a)))).
Proof.
  intros Ho Hn Hin Hl Hz. eapply awp_mono; [by apply zbuild_huffman_wp|].
  intros [u|] z; [|by intros []]. intros Ht. cbn [allow]. pose proof (table_lens _ _ Ht) as Hok.
  split; [done|]. intros a Hb. eapply awp_ok_mono; [by apply (zhuffman_decode_spec _ _ Ht)|].
  intros r a' (Hb' & Hf & H). split; [done|]. split; [done|].
  destruct H as [(-> & Hs & Hx)|([Hr _] & Hm & Hs)]; [done|]. rewrite decide_False by lia.
  split; [done|]. split; [|done]. intros i Hi. by apply (matches_unique _ _ _ _ Hok Hi).
Qed.

(** Four symbols with codes of 2, 1, 3 and 3 bits. *)
Lemma huffman_tables_decode_witness :
  ∃ z, @stbi__zbuild_huffman toy_env [7; 2; 1; 3; 3; 7] 1 4 (@junk_zhuffman toy_env) = Ok (Val (), z) ∧
    lengths_ok (lens_of [7; 2; 1; 3; 3; 7] 1 4).
Proof.
  destruct (awp_elim _ _ _ (@huffman_tables_decode toy_env [7; 2; 1; 3; 3; 7] 1 4
    (@junk_zhuffman toy_env) ltac:(lia) ltac:(lia) ltac:(cbn; lia)
    ltac:(cbn; repeat constructor; lia) (@junk_shape toy_env))) as (o & z & E & H).
  destruct o as [[]|e].
  - exists z. split; [exact E|exact (proj1 H)].
  - exfalso. revert E. vm_compute. discriminate.
Defined.
