(* ===== verification/Rfc1951.v ===== *)
(** * The reference inflater: RFC 1950 and RFC 1951 as relations

    A state is the stream of bits with the output written so far.  One literal
    or one match of a block is a [symbol_step], one code length of a dynamic
    header a [length_step], one block a [block_step]; [inflates] runs blocks up
    to a final one, and [decodes] adds the optional zlib header.  The stream only
    gets shorter along the steps, which bounds the number of blocks. *)
From S2P Require Import Prelude StbMonad StbBase StbBaseSpec StbStream StbZlib StbHuffman StbBits.

(** ** The reference *)

(** [n] bytes copied from [dist] back, one by one. *)
Fixpoint lz_copy (n : nat) (dist : Z) (out : list Z) : list Z :=
  match n with
  | O => out
  | S n => let out := lz_copy n dist out in out ++ [out.[zlen out - dist]]
  end.

(** A state of the reference: the stream and the output. *)
Abbreviation ref_state := (Z * Z * list Z)%type.

(** One literal, or one length and distance, of a block with the code lengths
    [ll] and [ld]. *)
Inductive symbol_step (ll ld : list Z) : ref_state → ref_state → Prop :=
| step_literal s out i :
    matches ll s.1 i → i < 256 →
    symbol_step ll ld (s, out) (advance (ll.[i]) s, out ++ [i])
| step_match s out z d s1 s2 len dist :
    matches ll s.1 z → 257 ≤ z < 286 →
    s1 = advance (ll.[z]) s →
    len = stbi__zlength_base.[z - 257] + s1.1 mod 2 ^ (stbi__zlength_extra.[z - 257]) →
    matches ld (advance (stbi__zlength_extra.[z - 257]) s1).1 d → 0 ≤ d < 30 →
    s2 = advance (ld.[d]) (advance (stbi__zlength_extra.[z - 257]) s1) →
    dist = stbi__zdist_base.[d] + s2.1 mod 2 ^ (stbi__zdist_extra.[d]) →
    dist ≤ zlen out →
    symbol_step ll ld (s, out) (advance (stbi__zdist_extra.[d]) s2, lz_copy (Z.to_nat len) dist out).

(** A block of symbols, up to the end symbol. *)
Definition symbols (ll ld : list Z) (st st' : ref_state) : Prop :=
  ∃ s out, rtc (symbol_step ll ld) st (s, out) ∧ matches ll s.1 256 ∧
    st' = (advance (ll.[256]) s, out).

(** ** Dynamic codes

    The code lengths of both alphabets, themselves coded with the lengths
    [lc]. *)
Inductive length_step (lc : list Z) (ntot : Z) : ref_state → ref_state → Prop :=
| length_one s ls c :
    matches lc s.1 c → c < 16 → zlen ls < ntot →
    length_step lc ntot (s, ls) (advance (lc.[c]) s, ls ++ [c])
| length_repeat s ls s1 n :
    matches lc s.1 16 → s1 = advance (lc.[16]) s → n = 3 + s1.1 mod 2 ^ 2 →
    0 < zlen ls → zlen ls + n ≤ ntot →
    length_step lc ntot (s, ls) (advance 2 s1, ls ++ replicate (Z.to_nat n) (ls.[zlen ls - 1]))
| length_zeros s ls s1 n c k base :
    (c = 17 ∧ k = 3 ∧ base = 3 ∨ c = 18 ∧ k = 7 ∧ base = 11) →
    matches lc s.1 c → s1 = advance (lc.[c]) s → n = base + s1.1 mod 2 ^ k →
    zlen ls + n ≤ ntot →
    length_step lc ntot (s, ls) (advance k s1, ls ++ replicate (Z.to_nat n) 0).

(** The lengths of the code-length code, three bits each in their own order. *)
Fixpoint read_cl (n : nat) (s : Z * Z) : Z * Z * list Z :=
  match n with
  | O => (s, replicate 19 0)
  | S n => let '(s, l) := read_cl n s in
           (advance 3 s, zset l (length_dezigzag.[Z.of_nat n]) (s.1 mod 2 ^ 3))
  end.

Definition dynamic_codes (s : Z * Z) (ll ld : list Z) (s' : Z * Z) : Prop :=
  let hlit := s.1 mod 2 ^ 5 + 257 in
  let s1 := advance 5 s in
  let hdist := s1.1 mod 2 ^ 5 + 1 in
  let s2 := advance 5 s1 in
  let hclen := s2.1 mod 2 ^ 4 + 4 in
  let '(s3, lc) := read_cl (Z.to_nat hclen) (advance 4 s2) in
  ∃ ls, rtc (length_step lc (hlit + hdist)) (s3, []) (s', ls) ∧ zlen ls = hlit + hdist ∧
    ll = take (Z.to_nat hlit) ls ∧ ld = drop (Z.to_nat hlit) ls.

(** ** Stored blocks *)

(** The next [n] bytes of a number. *)
Fixpoint bytes_of (n : nat) (v : Z) : list Z :=
  match n with O => [] | S n => v mod 256 :: bytes_of n (v / 256) end.

(** From the byte boundary: the length and its complement, then the bytes. *)
Inductive stored_block : ref_state → ref_state → Prop :=
| stored s out s0 len :
    s0 = advance s.2 s →
    len = s0.1 mod 2 ^ 16 →
    (s0.1 / 2 ^ 16) mod 2 ^ 16 = Z.lxor len 0xffff →
    stored_block (s, out)
      (advance (8 * len) (advance 32 s0), out ++ bytes_of (Z.to_nat len) (advance 32 s0).1).

Lemma advance_add n m s : 0 ≤ n → 0 ≤ m → advance m (advance n s) = advance (n + m) s.
Proof.
  intros. unfold advance. cbn [fst snd]. rewrite Z.div_div, <- Z.pow_add_r by
    (try apply Z.pow_nonzero; try apply Z.pow_pos_nonneg; lia).
  rewrite Zminus_mod_idemp_l. do 2 f_equal. lia.
Qed.

(** ** Blocks *)
Inductive block_step : bool → ref_state → ref_state → Prop :=
| block_stored s out final st' :
    final = bool_decide (s.1 mod 2 ^ 1 ≠ 0) → (advance 1 s).1 mod 2 ^ 2 = 0 →
    stored_block (advance 2 (advance 1 s), out) st' →
    block_step final (s, out) st'
| block_fixed s out final st' :
    final = bool_decide (s.1 mod 2 ^ 1 ≠ 0) → (advance 1 s).1 mod 2 ^ 2 = 1 →
    symbols stbi__zdefault_length stbi__zdefault_distance (advance 2 (advance 1 s), out) st' →
    block_step final (s, out) st'
| block_dynamic s out final ll ld s1 st' :
    final = bool_decide (s.1 mod 2 ^ 1 ≠ 0) → (advance 1 s).1 mod 2 ^ 2 = 2 →
    dynamic_codes (advance 2 (advance 1 s)) ll ld s1 → symbols ll ld (s1, out) st' →
    block_step final (s, out) st'.

(** Blocks up to a final one. *)
Inductive inflates : ref_state → ref_state → Prop :=
| inflates_last st st' : block_step true st st' → inflates st st'
| inflates_more st st1 st' : block_step false st st1 → inflates st1 st' → inflates st st'.

(** *** The header *)

(** The two bytes of the zlib header (RFC 1950), as the decoder checks them;
    something must follow. *)
Definition zlib_header (l rest : list Z) : Prop :=
  ∃ cmf flg, l = cmf :: flg :: rest ∧ rest ≠ [] ∧ (cmf * 256 + flg) mod 31 = 0 ∧
    Z.land flg 32 = 0 ∧ Z.land cmf 15 = 8.

(** What the decoder is given and what it promises of the output. *)
Definition decodes (parse_header : bool) (input out : list Z) : Prop :=
  ∃ rest s', (if parse_header then zlib_header input rest else rest = input) ∧
    inflates (value_le rest, 0, []) (s', out).

(** The length and distance tables. *)
Lemma extra_small z : 0 ≤ z < 31 → 0 ≤ stbi__zlength_extra.[z] ≤ 5 ∧ 0 ≤ stbi__zlength_base.[z] ≤ 258.
Proof.
  intros Hz. assert (Forall (λ x, 0 ≤ x ≤ 5) stbi__zlength_extra) as H1
    by (repeat (constructor; [lia|]); constructor).
  assert (Forall (λ x, 0 ≤ x ≤ 258) stbi__zlength_base) as H2
    by (repeat (constructor; [lia|]); constructor).
  split.
  - eapply (Forall_lookup_1 _ _ _ _ H1). apply znth_lookup. cbn. lia.
  - eapply (Forall_lookup_1 _ _ _ _ H2). apply znth_lookup. cbn. lia.
Qed.

Lemma length_base_pos z : 0 ≤ z < 29 → 3 ≤ stbi__zlength_base.[z].
Proof.
  intros Hz. assert (Forall (λ x, 3 ≤ x) (take 29 stbi__zlength_base)) as H
    by (repeat (constructor; [lia|]); constructor).
  eapply (Forall_lookup_1 _ _ (Z.to_nat z) _ H). rewrite lookup_take_lt by lia.
  apply znth_lookup. cbn. lia.
Qed.

Lemma dist_small d : 0 ≤ d < 30 → 0 ≤ stbi__zdist_extra.[d] ≤ 13 ∧ 1 ≤ stbi__zdist_base.[d].
Proof.
  intros Hd. assert (Forall (λ x, 0 ≤ x ≤ 13) stbi__zdist_extra) as H1
    by (repeat (constructor; [lia|]); constructor).
  assert (Forall (λ x, 1 ≤ x) (take 30 stbi__zdist_base)) as H2
    by (repeat (constructor; [lia|]); constructor).
  split.
  - eapply (Forall_lookup_1 _ _ _ _ H1). apply znth_lookup. cbn. lia.
  - eapply (Forall_lookup_1 _ _ (Z.to_nat d) _ H2). rewrite lookup_take_lt by lia.
    apply znth_lookup. cbn. lia.
Qed.

(** *** The stream only gets shorter *)
Definition shrinks (st st' : ref_state) : Prop := 0 ≤ st.1.1 → 0 ≤ st'.1.1 ≤ st.1.1.

#[local] Instance shrinks_preorder : PreOrder shrinks.
Proof. split; [intros ? ?; lia|]. intros a b c H1 H2 H. specialize (H1 H). specialize (H2 ltac:(lia)). lia. Qed.

Lemma shrinks_advance n s out out' : 0 ≤ n → shrinks (s, out) (advance n s, out').
Proof.
  intros Hn Hs. cbn in *. pose proof (Z.pow_pos_nonneg 2 n ltac:(lia) Hn).
  split; [by apply Z.div_pos|]. apply Z.div_le_upper_bound; nia.
Qed.

Lemma shrinks_rtc (R : ref_state → ref_state → Prop) st st' :
  (∀ st st', R st st' → shrinks st st') → rtc R st st' → shrinks st st'.
Proof. intros HR. induction 1; [done|]. etrans; [by apply HR|done]. Qed.

Lemma matches_len lens v i : Forall (λ s, 0 ≤ s ≤ 15) lens → matches lens v i → 0 ≤ lens.[i].
Proof.
  intros Hf [[Hi _] _]. apply znth_lookup in Hi. pose proof (Forall_lookup_1 _ _ _ _ Hf Hi) as H.
  cbn in H. lia.
Qed.

Lemma symbol_step_shrinks ll ld st st' : lengths_ok ll → lengths_ok ld →
  symbol_step ll ld st st' → shrinks st st'.
Proof.
  intros [Hl _] [Hd _]. destruct 1 as [s out i Hm|s out z d s1 s2 len dist Hm Hz -> -> Hmd Hd30 -> -> Hle].
  - apply shrinks_advance. by eapply matches_len.
  - destruct (extra_small (z - 257) ltac:(lia)) as [He _]. destruct (dist_small d Hd30) as [He' _].
    etrans; [apply (shrinks_advance (ll.[z]) s out out); by eapply matches_len|].
    etrans; [apply (shrinks_advance (stbi__zlength_extra.[z - 257]) _ out out); apply He|].
    etrans; [apply (shrinks_advance (ld.[d]) _ out out); by eapply matches_len|].
    apply shrinks_advance. lia.
Qed.

Lemma symbols_shrinks ll ld st st' : lengths_ok ll → lengths_ok ld → symbols ll ld st st' →
  shrinks st st'.
Proof.
  intros Hl Hd (s & out & Hr & Hm & ->). etrans.
  - eapply shrinks_rtc; [|exact Hr]. intros. by apply (symbol_step_shrinks ll ld).
  - apply shrinks_advance. by eapply matches_len, Hm; destruct Hl.
Qed.

Lemma stored_shrinks st st' : stored_block st st' → 0 ≤ st.1.2 → shrinks st st' ∧ (0 ≤ st.1.1 → 0 < st.1.1).
Proof.
  destruct 1 as [s out s0 len -> -> Hx]. cbn [fst snd]. intros Hs.
  pose proof (Z.mod_pos_bound (advance s.2 s).1 (2 ^ 16) ltac:(lia)).
  split.
  - etrans; [apply (shrinks_advance s.2 s out out Hs)|].
    etrans; [apply (shrinks_advance 32 (advance s.2 s) out out); lia|]. apply shrinks_advance. lia.
  - intros H0. destruct (decide (s.1 = 0)) as [E|]; [|lia]. exfalso.
    unfold advance in Hx. cbn [fst] in Hx. rewrite E, Z.div_0_l in Hx by (apply Z.pow_nonzero; lia).
    discriminate.
Qed.

Lemma length_step_shrinks lc ntot st st' : Forall (λ s, 0 ≤ s ≤ 15) lc → length_step lc ntot st st' → shrinks st st'.
Proof.
  intros Hl. destruct 1 as [s ls c Hm|s ls s1 n Hm -> -> _ _|s ls s1 n c k b Hk Hm -> -> _].
  - apply shrinks_advance. by eapply matches_len.
  - etrans; [apply (shrinks_advance (lc.[16]) s ls ls); by eapply matches_len|].
    apply shrinks_advance. lia.
  - etrans; [apply (shrinks_advance (lc.[c]) s ls ls); by eapply matches_len|].
    apply shrinks_advance. lia.
Qed.

Lemma read_cl_shrinks n s : 0 ≤ s.1 →
  0 ≤ (read_cl n s).1.1 ≤ s.1 ∧ Forall (λ s, 0 ≤ s ≤ 15) (read_cl n s).2.
Proof.
  intros Hs. induction n as [|n IH]; cbn [read_cl].
  - split; [cbn; lia|]. by apply Forall_replicate.
  - destruct (read_cl n s) as [s1 l]. cbn [fst snd] in *. destruct IH as [H1 H2].
    pose proof (shrinks_advance 3 s1 l l ltac:(lia)) as H. unfold shrinks in H. cbn in H.
    split; [cbn; lia|]. apply Forall_zset; [done|].
    pose proof (Z.mod_pos_bound s1.1 (2 ^ 3) ltac:(lia)). lia.
Qed.

Lemma dynamic_shrinks s ll ld s' : dynamic_codes s ll ld s' → 0 ≤ s.1 → 0 ≤ s'.1 ≤ s.1.
Proof.
  unfold dynamic_codes. intros Hd Hs.
  pose proof (shrinks_advance 5 s [] [] ltac:(lia) Hs) as H1.
  pose proof (shrinks_advance 5 (advance 5 s) [] [] ltac:(lia) (proj1 H1)) as H2.
  pose proof (shrinks_advance 4 (advance 5 (advance 5 s)) [] [] ltac:(lia) (proj1 H2)) as H3.
  cbn [fst] in H1, H2, H3.
  match type of Hd with let '(_, _) := read_cl ?n ?t in _ =>
    pose proof (read_cl_shrinks n t (proj1 H3)) as [H4 H5]; destruct (read_cl n t) as [s3 lc] end.
  cbn [fst snd] in *. destruct Hd as (ls & Hr & _).
  pose proof (shrinks_rtc _ _ _ (λ _ _, length_step_shrinks lc _ _ _ H5) Hr) as H6.
  unfold shrinks in H6. cbn [fst] in H6. lia.
Qed.

(** *** The length of the stream as a measure *)
Definition bitlen (v : Z) : Z := if v <=? 0 then 0 else Z.log2 v + 1.

Lemma bitlen_nonneg v : 0 ≤ bitlen v.
Proof. unfold bitlen. destruct (Z.leb_spec v 0); [lia|]. pose proof (Z.log2_nonneg v). lia. Qed.

Lemma bitlen_half v w : 0 < v → 0 ≤ w ≤ v / 2 → bitlen w < bitlen v.
Proof.
  intros Hv Hw. unfold bitlen. destruct (Z.leb_spec v 0); [lia|].
  destruct (Z.leb_spec w 0); [pose proof (Z.log2_nonneg v); lia|].
  assert (Z.log2 w < Z.log2 v); [|lia].
  apply Z.lt_le_trans with (Z.log2 (2 * w)); [rewrite Z.log2_double by lia; lia|].
  apply Z.log2_le_mono. pose proof (Z.mul_div_le v 2 ltac:(lia)). lia.
Qed.

Lemma bitlen_bound v n : 0 ≤ n → v < 2 ^ n → bitlen v ≤ n.
Proof.
  intros Hn Hv. unfold bitlen. destruct (Z.leb_spec v 0); [lia|].
  assert (Z.log2 v < n) by (apply Z.log2_lt_pow2; lia). lia.
Qed.

(** A block takes three bits at least, and cannot begin an empty stream. *)
Lemma advance_halves (s s' : Z * Z) n : 1 ≤ n → 0 ≤ s.1 → 0 ≤ s'.1 ≤ (advance n s).1 → 0 ≤ s'.1 ≤ s.1 / 2.
Proof.
  intros Hn Hs Hs'. split; [lia|]. etrans; [apply Hs'|]. unfold advance. cbn [fst].
  replace n with (1 + (n - 1)) by lia. rewrite Z.pow_add_r, <- Z.div_div by
    (try apply Z.pow_nonzero; try apply Z.pow_pos_nonneg; lia).
  change (2 ^ 1) with 2. pose proof (Z.div_pos s.1 2 Hs ltac:(lia)).
  apply Z.div_le_upper_bound; [apply Z.pow_pos_nonneg; lia|].
  pose proof (Z.pow_pos_nonneg 2 (n - 1) ltac:(lia) ltac:(lia)). nia.
Qed.

