(* ===== verification/StbInflate.v ===== *)
(** * stb_image: the symbols and the dynamic codes of a zlib block

    The output buffer and its growth, the invariants of the decoder, the loop
    over the symbols of a block and the reading of a dynamic block's codes,
    against the relations of [Rfc1951]. *)
From S2P Require Import Prelude StbMonad StbBase StbBaseSpec StbStream StbZlib StbHuffman StbBits.
From S2P Require Import Rfc1951.

(** ** Copying *)
Lemma lookup_take_total (l : list Z) n i : 0 ≤ i < n → (take (Z.to_nat n) l).[i] = l.[i].
Proof. intros. rewrite !list_lookup_total_alt, lookup_take_lt by lia. done. Qed.

Lemma length_take_out (out : list Z) pos : 0 ≤ pos ≤ zlen out → zlen (take (Z.to_nat pos) out) = pos.
Proof. intros. rewrite length_take. lia. Qed.

(** One byte of the copy. *)
Lemma lz_copy_step out0 out pos dist i v : 0 ≤ i → 1 ≤ dist ≤ pos → pos + i < zlen out →
  take (Z.to_nat (pos + i)) out = lz_copy (Z.to_nat i) dist out0 → v = out.[pos + i - dist] →
  take (Z.to_nat (pos + (i + 1))) (zset out (pos + i) v) = lz_copy (Z.to_nat (i + 1)) dist out0.
Proof.
  intros Hi Hd Hl Hinv ->. rewrite Z.add_assoc, take_zset by lia.
  replace (Z.to_nat (i + 1)) with (S (Z.to_nat i)) by lia. cbn [lz_copy].
  rewrite <- Hinv, length_take_out, lookup_take_total by lia. done.
Qed.

Lemma copy_match_wp out pos dist len (Q : list Z → Prop) :
  1 ≤ dist ≤ pos → 0 ≤ len → pos + len ≤ zlen out →
  (∀ out', length out' = length out →
     take (Z.to_nat (pos + len)) out' = lz_copy (Z.to_nat len) dist (take (Z.to_nat pos) out) → Q out') →
  wp (copy_match out pos dist len) Q.
Proof.
  intros Hd Hl Hin HQ. unfold copy_match.
  set (I i o := length o = length out ∧
    take (Z.to_nat (pos + i)) o = lz_copy (Z.to_nat i) dist (take (Z.to_nat pos) out)).
  assert (I 0 out) as H0 by (split; [done|by rewrite Z.add_0_r]).
  assert (∀ o, I (Z.max 0 len) o → Q o) as HQ'
    by (intros o; rewrite Z.max_r by lia; intros []; by apply HQ).
  destruct (Z.eqb_spec dist 1) as [->|].
  - apply wp_bind. rewrite rd_ok by lia. cbn [wp].
    apply (for_range_wp (λ i o, I i o ∧ o.[pos + i - 1] = out.[pos - 1])).
    + split; [done|]. by rewrite Z.add_0_r.
    + intros i o Hi [[Hlo Ho] Hv]. rewrite wr_ok by lia. cbn [wp]. split; [split|].
      * by rewrite length_zset.
      * apply lz_copy_step; done || lia.
      * replace (pos + (i + 1) - 1) with (pos + i) by lia. apply znth_zset_eq. lia.
    + intros o [Ho _]. by apply HQ'.
  - apply (for_range_wp I); [done| |done].
    intros i o Hi [Hlo Ho]. wp_run. split.
    + by rewrite length_zset.
    + apply lz_copy_step; [lia..|done|]. do 2 f_equal. lia.
Qed.

(** ** Output *)
Section inflate.
Context `{Env : StbiEnv}.

(** The output object can still grow. *)
Definition out_ok (a : stbi__zbuf) : Prop :=
  z_expandable a = true → 0 < zlen (zout_start a) < 2 ^ 32.

(** Growing keeps what is written. *)
Definition grown (a a' : stbi__zbuf) (pos n : Z) : Prop :=
  ∃ junk, a' = set_zout (zout_start a ++ junk) pos a ∧ pos + n ≤ zlen (zout_start a ++ junk) ∧
    zlen (zout_start a ++ junk) < 2 ^ 32.

Lemma double_limit need limit (s : stbi__zbuf) (Q : outcome (loop_exit Z Z) → stbi__zbuf → Prop) :
  0 < limit < 2 ^ 32 → need < 2 ^ 32 →
  (2 ^ 31 < need → Q (Fail "outofmem") s) →
  (∀ l, limit ≤ l < 2 ^ 32 → need ≤ l → Q (Val (Gave l)) s) →
  awp (a_loop (R := Z) 33 (λ limit,
    if need <=? limit then mret (Return limit)
    else fail_if (UINT_MAX / 2 <? limit) "outofmem";; mret (Next (u32 (limit * 2)))) limit) s Q.
Proof.
  intros Hl Hn HF HQ.
  apply (awp_loop (λ l s', s' = s ∧ limit ≤ l < 2 ^ 32) (λ l _, Z.to_nat (32 - Z.log2 l))).
  - split; [done|lia].
  - pose proof (Z.log2_nonneg limit). lia.
  - intros l s' [-> Hll]. destruct (Z.leb_spec need l).
    + awp_step. apply HQ; done.
    + awp_step. awp_step; intros Hc.
      { apply HF. apply Z.ltb_lt in Hc. change (UINT_MAX / 2) with (2 ^ 31 - 1) in Hc. lia. }
      awp_step.
      apply Z.ltb_ge in Hc. change (UINT_MAX / 2) with (2 ^ 31 - 1) in Hc.
      rewrite u32_small by lia. split; [split; [done|lia]|].
      rewrite Z.mul_comm, Z.log2_double by lia.
      assert (Z.log2 l < 32) by (apply Z.log2_lt_pow2; lia). lia.
Qed.

Lemma zexpand_spec a pos n : out_ok a → 0 ≤ pos < 2 ^ 32 → 0 ≤ n < 2 ^ 32 →
  awp (stbi__zexpand pos n) a (allow (λ _, True) (λ _ a', z_expandable a = true ∧ grown a a' pos n)).
Proof.
  intros Hok Hp Hn. unfold stbi__zexpand. awp_step. awp_step. awp_step. awp_step.
  awp_step. awp_step; [done|]. intros Hex. apply negb_false_iff in Hex. cbn in Hex.
  specialize (Hok Hex). cbn [zout zout_start set_zout].
  rewrite (u32_small pos), (u32_small n), (u32_small (zlen _)) by lia.
  awp_step. awp_step; [done|]. intros Hc. apply Z.ltb_ge in Hc. unfold UINT_MAX in Hc.
  rewrite (u32_small (pos + n)) by lia.
  awp_step. apply double_limit; [lia|lia|done|]. intros l Hl Hle. cbn beta iota.
  destruct (malloc_ok l); [|by awp_step]. awp_step. cbn [allow]. split; [done|].
  eexists. split; [reflexivity|]. rewrite length_app, length_malloc. lia.
Qed.

(** Room for [n] bytes at the position, when the test is the right one. *)
Definition has_room (a a' : stbi__zbuf) (pos n : Z) : Prop :=
  a' = a ∧ pos + n ≤ zlen (zout_start a) ∨ z_expandable a = true ∧ grown a a' pos n.

Lemma expand_spec a (full : bool) pos n : out_ok a → 0 ≤ pos ≤ zlen (zout_start a) → 0 ≤ n < 2 ^ 32 →
  (full = false → pos + n ≤ zlen (zout_start a)) →
  awp (if full then stbi__zexpand pos n else mret ()) a
    (allow (λ _, True) (λ _ a', has_room a a' pos n ∧ (full = true → zout a' = pos))).
Proof.
  intros Hok Hp Hn Hf. destruct full.
  - destruct (z_expandable a) eqn:Ex.
    + pose proof (Hok Ex). eapply awp_mono; [apply zexpand_spec; [done|lia..]|].
      intros [u|e] a'; [|done]. intros H'. split; [by right|]. by destruct H' as [_ (junk & -> & _)].
    + unfold stbi__zexpand. do 5 awp_step. awp_step; [done|]. intros Hc.
      cbn in Hc. by rewrite Ex in Hc.
  - awp_step. cbn. split; [|done]. left. auto.
Qed.

Lemma room_spec a full pos n : out_ok a → 0 ≤ pos ≤ zlen (zout_start a) → 0 ≤ n < 2 ^ 32 →
  (full = false → pos + n ≤ zlen (zout_start a)) →
  awp (room full pos n) a (allow (λ _, True) (λ pos' a', pos' = pos ∧ has_room a a' pos n)).
Proof.
  intros Hok Hp Hn Hf. pose proof (expand_spec a full pos n Hok Hp Hn Hf) as H. unfold room.
  destruct full.
  - awp_step. eapply awp_mono; [exact H|]. intros [u|] a'; [|done]. intros [Hr Hz]. awp_step.
    split; [by apply Hz|exact Hr].
  - awp_step. split; [done|]. exact (proj1 H).
Qed.

(** ** Invariants

    [zlib_ok] holds between blocks; [M] bounds the size of the output object.
    Inside a block with the code lengths [ll] and [ld] there are tables too. *)
Record zlib_ok (M : Z) (a : stbi__zbuf) : Prop := {
  zlib_bits : bits_ok a;
  zlib_length : zshape (z_length a);
  zlib_distance : zshape (z_distance a);
  zlib_out : out_ok a;
  zlib_size : zlen (zout_start a) ≤ M
}.

Record block_ok (ll ld : list Z) (M : Z) (a : stbi__zbuf) : Prop := {
  block_zlib : zlib_ok M a;
  block_length : table_ok ll (z_length a);
  block_distance : table_ok ld (z_distance a)
}.

Lemma block_bits ll ld M a : block_ok ll ld M a → bits_ok a.
Proof. intros []. by eapply zlib_bits. Qed.
Lemma block_out ll ld M a : block_ok ll ld M a → out_ok a.
Proof. intros []. by eapply zlib_out. Qed.
Lemma block_size ll ld M a : block_ok ll ld M a → zlen (zout_start a) ≤ M.
Proof. intros []. by eapply zlib_size. Qed.

Lemma zlib_frame M a a' : zlib_ok M a → bits_ok a' → frame a a' → zlib_ok M a'.
Proof.
  intros [] Hb (?&?&E1&?&E2&E3&E4). split; rewrite ?E1, ?E3, ?E4; try done.
  unfold out_ok in *. by rewrite E1, E2.
Qed.

Lemma zlib_write M a out' p : zlib_ok M a → length out' = length (zout_start a) →
  zlib_ok M (set_zout out' p a).
Proof.
  intros [[]] Hl. split; cbn; rewrite ?Hl; try done. unfold out_ok in *. cbn. by rewrite Hl.
Qed.

Lemma zlib_room M a a' pos n : 2 ^ 32 ≤ M → zlib_ok M a → 0 ≤ pos ≤ zlen (zout_start a) →
  has_room a a' pos n →
  zlib_ok M a' ∧ stream a' = stream a ∧ pos + n ≤ zlen (zout_start a') ∧
  take (Z.to_nat pos) (zout_start a') = take (Z.to_nat pos) (zout_start a) ∧
  zin a' = zin a ∧ zbuffer a' = zbuffer a ∧ z_length a' = z_length a ∧ z_distance a' = z_distance a.
Proof.
  intros HM Hok Hp [[-> H]|[Hex (junk & -> & H1 & H2)]]; [done|]. destruct Hok as [[]].
  specialize (zlib_out0 Hex). rewrite length_app in *.
  split; [|split; [done|split; [cbn; rewrite length_app; lia|split; [|done]]]].
  - split; cbn; try done; [|rewrite length_app; lia]. intros _. cbn. rewrite length_app. lia.
  - cbn. apply take_app_le. lia.
Qed.

(** ** Blocks of symbols *)
Section block.
Variables (ll ld : list Z) (M : Z).
Hypothesis HM : 2 ^ 32 ≤ M.
Abbreviation ok := (block_ok ll ld M).

Lemma block_frame a a' : ok a → bits_ok a' → frame a a' → ok a'.
Proof using Type.
  intros [] Hb Hf. split; [by eapply zlib_frame|..]; destruct Hf as (?&?&?&?&?&E3&E4);
    by rewrite ?E3, ?E4.
Qed.

Lemma block_write a out' p : ok a → length out' = length (zout_start a) → ok (set_zout out' p a).
Proof using Type. intros [] Hl. split; [by apply zlib_write|done..]. Qed.

Lemma block_room a a' pos n : ok a → 0 ≤ pos ≤ zlen (zout_start a) → has_room a a' pos n →
  ok a' ∧ stream a' = stream a ∧ pos + n ≤ zlen (zout_start a') ∧
  take (Z.to_nat pos) (zout_start a') = take (Z.to_nat pos) (zout_start a).
Proof using HM.
  intros [] Hp Hr. destruct (zlib_room M a a' pos n HM block_zlib0 Hp Hr) as (H1&H2&H3&H4&_&_&E1&E2).
  split; [|done]. split; [done|by rewrite E1|by rewrite E2].
Qed.

Lemma advance_0 a : advance 0 (stream a) = stream a.
Proof using Type.
  unfold advance, stream. cbn [fst snd]. rewrite Z.div_1_r, Z.sub_0_r, Z.mod_mod by lia. done.
Qed.

(** A base value and its extra bits. *)
Lemma extra_bits_spec a e b : bits_ok a → 0 ≤ e ≤ 13 →
  awp_ok (if negb (e =? 0) then x ← stbi__zreceive e; mret (b + x) else mret b) a
    (λ r a', bits_ok a' ∧ frame a a' ∧ r = b + (stream a).1 mod 2 ^ e ∧
       stream a' = advance e (stream a)).
Proof using Type.
  intros Hok He. destruct (Z.eqb_spec e 0) as [->|]; cbn [negb].
  - awp_step. split; [done|]. split; [done|]. rewrite advance_0, Z.mod_1_r. split; [lia|done].
  - awp_step. eapply awp_ok_mono; [apply zreceive_spec; [done|lia]|].
    intros x a' (H1 & H2 & _ & -> & H4). by awp_step.
Qed.

(** One length and distance, after the length symbol [z]. *)
Lemma match_symbol_spec z pos a : ok a → 257 ≤ z → 0 ≤ pos ≤ zlen (zout_start a) →
  awp (match_symbol z pos) a (allow (λ _, True) (λ pos' a', ok a' ∧
    pos < pos' ≤ zlen (zout_start a') ∧
    ∀ s0, matches ll s0.1 z → stream a = advance (ll.[z]) s0 →
      symbol_step ll ld (s0, take (Z.to_nat pos) (zout_start a))
        (stream a', take (Z.to_nat pos') (zout_start a')))).
Proof using HM.
  intros Hok Hz Hp. unfold match_symbol. awp_step. awp_step; [done|]. intros H286.
  apply Z.leb_gt in H286. assert (0 ≤ z - 257 < 29) as Hz' by lia.
  destruct (extra_small (z - 257) ltac:(lia)) as [He Hb].
  pose proof (length_base_pos (z - 257) Hz') as Hb3.
  awp_step. awp_step. rewrite rd_ok by (cbn; lia). cbn [wp].
  awp_step. awp_step. rewrite rd_ok by (cbn; lia). cbn [wp].
  set (e := stbi__zlength_extra.[z - 257]) in *. set (b := stbi__zlength_base.[z - 257]) in *.
  awp_step. eapply awp_mono; [apply (extra_bits_spec a e b (block_bits _ _ _ _ Hok)); lia|].
  intros [len|] a1; [|done]. intros (Hb1 & Hf1 & -> & Hs1).
  pose proof (block_frame _ _ Hok Hb1 Hf1) as Hok1.
  assert (0 ≤ (stream a).1 mod 2 ^ e < 2 ^ 5) as Hx.
  { pose proof (Z.mod_pos_bound (stream a).1 (2 ^ e) ltac:(apply Z.pow_pos_nonneg; lia)).
    pose proof (Z.pow_le_mono_r 2 e 5 ltac:(lia) ltac:(lia)). lia. }
  set (len := b + (stream a).1 mod 2 ^ e) in *.
  awp_step. awp_step. awp_step. eapply awp_mono; [exact (zhuffman_decode_spec _ _ (block_distance _ _ _ _ Hok1) _ Hb1)|].
  intros [d|] a2; [|done]. intros (Hb2 & Hf2 & Hd).
  pose proof (block_frame _ _ Hok1 Hb2 Hf2) as Hok2.
  awp_step. awp_step; [done|]. intros Hdc. apply orb_false_iff in Hdc as [Hd0 Hd30].
  apply Z.ltb_ge in Hd0. apply Z.leb_gt in Hd30.
  destruct Hd as [(-> & _)|(_ & Hm & Hs2)]; [lia|].
  destruct (dist_small d ltac:(lia)) as [He' Hb'].
  awp_step. awp_step. rewrite rd_ok by (cbn; lia). cbn [wp].
  awp_step. awp_step. rewrite rd_ok by (cbn; lia). cbn [wp].
  awp_step. eapply awp_mono; [apply (extra_bits_spec a2 _ (stbi__zdist_base.[d]) Hb2 He')|].
  intros [dist|] a3; [|done]. intros (Hb3' & Hf3 & -> & Hs3).
  pose proof (block_frame _ _ Hok2 Hb3' Hf3) as Hok3.
  set (e' := stbi__zdist_extra.[d]) in *. set (dist := stbi__zdist_base.[d] + _).
  assert (1 ≤ dist) as Hdist.
  { pose proof (Z.mod_pos_bound (stream a2).1 (2 ^ e') ltac:(apply Z.pow_pos_nonneg; lia)).
    unfold dist. lia. }
  assert (zout_start a3 = zout_start a) as Hout.
  { destruct Hf1 as (_&_&E1&_), Hf2 as (_&_&E2&_), Hf3 as (_&_&E3&_). congruence. }
  awp_step. awp_step; [done|]. intros Hdp. apply Z.ltb_ge in Hdp.
  awp_step. awp_step. awp_step. rewrite Hout.
  eapply awp_mono; [apply (room_spec a3); [by eapply block_out|by rewrite Hout|lia|]|].
  { rewrite Hout. intros Hc. apply Z.ltb_ge in Hc. lia. }
  intros [pos'|] a4; [|done]. intros [-> Hroom].
  destruct (block_room a3 a4 pos len Hok3 ltac:(by rewrite Hout) Hroom) as (Hok4 & Hs4 & Hl4 & Ht4).
  awp_step. awp_step. awp_step. awp_step. apply copy_match_wp; [lia|lia|done|].
  intros out' Hlo Hcopy. awp_step. awp_step. awp_step. cbn [allow].
  split; [by apply block_write|]. cbn [zout_start set_zout]. split; [lia|].
  intros s0 Hm0 Hs0. rewrite Hcopy, Ht4, Hout.
  change (stream (set_zout out' (zout a4) a4)) with (stream a4). rewrite Hs4, Hs3.
  eapply step_match; [exact Hm0|lia|exact Hs0|reflexivity|..].
  - rewrite Hs1 in Hm. exact Hm.
  - lia.
  - rewrite Hs1 in Hs2. exact Hs2.
  - reflexivity.
  - rewrite length_take_out; lia.
Qed.

(** One symbol. *)
Lemma huffman_step_spec pos a : ok a → 0 ≤ pos ≤ zlen (zout_start a) →
  awp (huffman_step pos) a (allow (λ _, True) (λ c a', ok a' ∧
    match c with
    | Next pos' => pos < pos' ≤ zlen (zout_start a') ∧
        symbol_step ll ld (stream a, take (Z.to_nat pos) (zout_start a))
          (stream a', take (Z.to_nat pos') (zout_start a'))
    | Break _ => False
    | Return _ => zout a' = pos ∧ zout_start a' = zout_start a ∧ matches ll (stream a).1 256 ∧
        stream a' = advance (ll.[256]) (stream a)
    end)).
Proof using HM.
  intros Hok Hp. unfold huffman_step. awp_step. awp_step. awp_step.
  eapply awp_mono; [exact (zhuffman_decode_spec _ _ (block_length _ _ _ _ Hok) _ (block_bits _ _ _ _ Hok))|].
  intros [z|] a1; [|done]. intros (Hb1 & Hf1 & Hz).
  pose proof (block_frame _ _ Hok Hb1 Hf1) as Hok1.
  assert (zout_start a1 = zout_start a) as Hout by (destruct Hf1 as (_&_&E1&_); done).
  destruct (Z.ltb_spec z 256) as [Hz1|Hz1]; [|destruct (Z.eqb_spec z 256) as [->|Hz2]].
  - awp_step. awp_step; [done|]. intros Hz0. apply Z.ltb_ge in Hz0.
    destruct Hz as [(-> & _)|(_ & Hm & Hs1)]; [lia|].
    awp_step. awp_step. awp_step. rewrite Hout.
    eapply awp_mono; [apply (room_spec a1); [by eapply block_out|by rewrite Hout|lia|]|].
    { rewrite Hout. intros Hc. apply Z.leb_gt in Hc. lia. }
    intros [pos'|] a2; [|done]. intros [-> Hroom].
    destruct (block_room a1 a2 pos 1 Hok1 ltac:(by rewrite Hout) Hroom) as (Hok2 & Hs2 & Hl2 & Ht2).
    awp_step. awp_step. awp_step. awp_step. rewrite wr_ok by lia. cbn [wp].
    awp_step. awp_step. awp_step. cbn [allow].
    split; [apply block_write; [done|apply length_zset]|].
    cbn [zout_start set_zout]. rewrite length_zset. split; [lia|].
    rewrite take_zset, Ht2, Hout by lia.
    change (stream (set_zout _ (zout a2) a2)) with (stream a2). rewrite Hs2, Hs1.
    by apply step_literal.
  - destruct Hz as [(? & _)|(_ & Hm & Hs1)]; [lia|].
    awp_step. awp_step. awp_step. awp_step. awp_step. awp_step; [done|]. intros _. awp_step.
    cbn [allow]. split; [by apply block_write|]. done.
  - destruct Hz as [(-> & _)|(_ & Hm & Hs1)]; [lia|].
    awp_step. eapply awp_mono; [apply match_symbol_spec; [done|lia|by rewrite Hout]|].
    intros [pos'|] a2; [|done]. intros (Hok2 & Hp2 & Hstep). awp_step. cbn [allow].
    split; [done|]. split; [done|]. rewrite <- Hout. by apply Hstep.
Qed.

(** The symbols of a block: [M + 1] iterations are enough, because each writes
    a byte. *)
Lemma parse_huffman_block_spec fuel a : ok a → 0 ≤ zout a ≤ zlen (zout_start a) →
  (Z.to_nat M < fuel)%nat →
  awp (stbi__parse_huffman_block fuel) a (allow (λ _, True) (λ _ a', ok a' ∧
    0 ≤ zout a' ≤ zlen (zout_start a') ∧
    symbols ll ld (stream a, take (Z.to_nat (zout a)) (zout_start a))
      (stream a', take (Z.to_nat (zout a')) (zout_start a')))).
Proof using HM.
  intros Hok Hp Hfuel. unfold stbi__parse_huffman_block. awp_step. awp_step. awp_step.
  apply (awp_loop (λ pos a', ok a' ∧ 0 ≤ pos ≤ zlen (zout_start a') ∧
      rtc (symbol_step ll ld) (stream a, take (Z.to_nat (zout a)) (zout_start a))
        (stream a', take (Z.to_nat pos) (zout_start a')))
    (λ pos _, Z.to_nat (M - pos))).
  - split; [done|]. split; [done|]. apply rtc_refl.
  - lia.
  - intros pos a1 (Hok1 & Hp1 & Hr1).
    eapply awp_mono; [apply huffman_step_spec; done|].
    intros [[pos'|?|[]]|e] a2; cbn [allow]; [| |..|done].
    + intros (Hok2 & Hp2 & Hs2). pose proof (block_size _ _ _ _ Hok2).
      split; [|lia]. split; [done|]. split; [lia|]. eapply rtc_r; done.
    + tauto.
    + intros (Hok2 & Hz & Hout & Hm & Hs). awp_step. cbn [allow]. rewrite Hz, Hout.
      split; [done|]. split; [done|]. rewrite Hs. eexists _, _. split; [exact Hr1|]. done.
Qed.
End block.

(** ** Dynamic codes *)
Lemma build_table_spec z sizelist off num a : zshape z → 0 ≤ off → 0 ≤ num ≤ 288 →
  off + num ≤ zlen sizelist → Forall (λ s, 0 ≤ s ≤ 15) (lens_of sizelist off num) →
  awp (build_table z sizelist off num) a (allow (λ _, True)
    (λ z' a', a' = a ∧ table_ok (lens_of sizelist off num) z')).
Proof.
  intros Hz Ho Hn Hin Hl. unfold awp, build_table.
  pose proof (zbuild_huffman_wp sizelist off num Ho Hn Hin Hl z Hz) as H. unfold awp in H.
  destruct (stbi__zbuild_huffman sizelist off num z) as [[[[]|e] z']| |]; cbn in *; done.
Qed.

(** *** The code-length code *)
Lemma dezigzag_range i : 0 ≤ i < 19 → 0 ≤ length_dezigzag.[i] < 19.
Proof.
  intros Hi. assert (Forall (λ x, 0 ≤ x < 19) length_dezigzag) as H
    by (repeat (constructor; [lia|]); constructor).
  eapply (Forall_lookup_1 _ _ _ _ H). apply znth_lookup. cbn. lia.
Qed.

Lemma read_cl_spec a hclen : bits_ok a → 4 ≤ hclen ≤ 19 →
  awp_ok (a_for 0 hclen (λ i sizes,
    s ← stbi__zreceive 3;
    d ← lift (rd length_dezigzag i);
    lift (wr sizes d (u8 s))) (replicate 19 0)) a
    (λ lc a', bits_ok a' ∧ frame a a' ∧ length lc = 19%nat ∧ Forall (λ s, 0 ≤ s ≤ 15) lc ∧
       read_cl (Z.to_nat hclen) (stream a) = (stream a', lc)).
Proof.
  intros Hok Hh.
  apply (awp_ok_for (λ i lc a', bits_ok a' ∧ frame a a' ∧ length lc = 19%nat ∧
    Forall (λ s, 0 ≤ s ≤ 15) lc ∧ read_cl (Z.to_nat i) (stream a) = (stream a', lc))).
  - do 3 (split; [done|]). split; [by apply Forall_replicate|]. done.
  - intros i lc a1 Hi (Hb1 & Hf1 & Hl & Hr & Hcl).
    awp_step. eapply awp_ok_mono; [apply zreceive_spec; [done|lia]|].
    intros x a2 (Hb2 & Hf2 & _ & -> & Hs2).
    pose proof (Z.mod_pos_bound (bits_value a1) (2 ^ 3) ltac:(lia)) as Hx.
    pose proof (dezigzag_range i ltac:(lia)) as Hd.
    awp_step. awp_step. rewrite rd_ok by (cbn; lia). cbn [wp].
    awp_step. rewrite wr_ok by lia. cbn [wp]. rewrite u8_small by lia.
    split; [done|]. split; [by etrans|]. split; [by rewrite length_zset|].
    split; [apply Forall_zset; [done|lia]|].
    replace (Z.to_nat (i + 1)) with (S (Z.to_nat i)) by lia. cbn [read_cl]. rewrite Hcl, Hs2.
    rewrite Z2Nat.id by lia. done.
  - intros lc a1. rewrite Z.max_r by lia. done.
Qed.

(** *** The lengths themselves *)
Lemma memset_take dst off v n (Q : list Z → Prop) : 0 ≤ n → 0 ≤ off → off + n ≤ zlen dst →
  (∀ l, length l = length dst →
     take (Z.to_nat (off + n)) l = take (Z.to_nat off) dst ++ replicate (Z.to_nat n) v → Q l) →
  wp (memset dst off v n) Q.
Proof.
  intros Hn Ho Hl HQ. unfold memset.
  assert (zlen (replicate (Z.to_nat n) v) = n) as Hr by (rewrite length_replicate; lia).
  rewrite memcpy_window by lia. cbn [wp].
  rewrite Z.add_0_l. replace (window _ 0 n) with (replicate (Z.to_nat n) v)
    by (rewrite <- Hr at 3; symmetry; apply window_all).
  apply HQ.
  - rewrite !length_app, length_take, length_replicate, length_drop. lia.
  - rewrite app_assoc, take_app_length'; [done|].
    rewrite length_app, length_take, length_replicate. lia.
Qed.

Section lengths.
Variables (lc : list Z) (zc : stbi__zhuffman) (ntot : Z).
Hypotheses (Ht : table_ok lc zc) (Hlc : length lc = 19%nat) (Hntot : 0 ≤ ntot ≤ 320).

(** The array holds the [n] lengths found so far. *)
Definition lens_array (l : list Z) (n : Z) : Prop :=
  length l = 455%nat ∧ 0 ≤ n ≤ ntot ∧ Forall (λ s, 0 ≤ s ≤ 15) (take (Z.to_nat n) l).

(** A run of [c] lengths [fill]. *)
Lemma fill_lengths l n fill c (a : stbi__zbuf) (Q : outcome (ctl (list Z * Z) Empty_set) → stbi__zbuf → Prop) :
  lens_array l n → 1 ≤ c → 0 ≤ fill ≤ 15 →
  Q (Fail "bad codelengths") a →
  (∀ l', lens_array l' (n + c) → n + c ≤ ntot →
     take (Z.to_nat (n + c)) l' = take (Z.to_nat n) l ++ replicate (Z.to_nat c) fill →
     Q (Val (Next (l', n + c))) a) →
  awp (fail_if (ntot - n <? c) "bad codelengths";;
       lencodes ← lift (memset l n fill c); mret (Next (lencodes, n + c))) a Q.
Proof using Hntot.
  clear Hlc. intros (Hl & Hn & Hf) Hc Hfill HF HQ. awp_step. awp_step; [done|]. intros Hle.
  apply Z.ltb_ge in Hle. awp_step. awp_step. apply memset_take; [lia..|].
  intros l' Hl' Ht'. awp_step. apply HQ; [|lia|done].
  split; [lia|]. split; [lia|]. rewrite Ht'. apply Forall_app. split; [done|].
  by apply Forall_replicate.
Qed.

Lemma codelength_step_spec l n a : bits_ok a → lens_array l n →
  awp (codelength_step zc ntot (l, n)) a (allow (λ _, True) (λ c a', bits_ok a' ∧ frame a a' ∧
    match c with
    | Next (l', n') => lens_array l' n' ∧ n < n' ∧
        length_step lc ntot (stream a, take (Z.to_nat n) l) (stream a', take (Z.to_nat n') l')
    | Break (l', n') => l' = l ∧ n' = n ∧ n = ntot ∧ a' = a
    | Return _ => False
    end)).
Proof using Ht Hlc Hntot.
  intros Hb Hinv. pose proof Hinv as (Hl & Hn & Hf). unfold codelength_step.
  destruct (Z.ltb_spec n ntot) as [Hlt|Hge]; cbn [negb].
  2: { awp_step. cbn. repeat split; try apply Hb. lia. }
  awp_step. eapply awp_mono; [exact (zhuffman_decode_spec _ _ Ht _ Hb)|].
  intros [c|] a1; [|done]. intros (Hb1 & Hf1 & Hc).
  awp_step. awp_step; [done|]. intros Hcc. apply orb_false_iff in Hcc as [Hc0 Hc19].
  apply Z.ltb_ge in Hc0. apply Z.leb_gt in Hc19.
  destruct Hc as [(-> & _)|(_ & Hm & Hs1)]; [lia|].
  assert (zlen (take (Z.to_nat n) l) = n) as Hln by (apply length_take_out; lia).
  destruct (Z.ltb_spec c 16) as [H16|H16].
  - awp_step. awp_step. rewrite wr_ok by lia. cbn [wp]. awp_step. cbn [allow].
    split; [done|]. split; [done|]. rewrite u8_small, take_zset by lia.
    split; [split; [by rewrite length_zset|]; split; [lia|]|split; [lia|]].
    + rewrite take_zset by lia. apply Forall_app. split; [done|]. repeat constructor; lia.
    + rewrite Hs1. apply length_one; [done|done|lia].
  - apply awp_bind.
    apply (awp_mono _ _ (allow (λ _, True) (λ '(k, fill) a', bits_ok a' ∧ frame a a' ∧ 1 ≤ k ∧
      0 ≤ fill ≤ 15 ∧ (n + k ≤ ntot → length_step lc ntot (stream a, take (Z.to_nat n) l)
        (stream a', take (Z.to_nat n) l ++ replicate (Z.to_nat k) fill))))).
    + destruct (Z.eqb_spec c 16) as [->|H17]; [|destruct (Z.eqb_spec c 17) as [->|H18];
        [|destruct (Z.eqb_spec c 18) as [->|]; [|lia]]].
      * awp_step. eapply awp_mono; [apply zreceive_spec; [done|lia]|].
        intros [x|] a2; [|done]. intros (Hb2 & Hf2 & _ & -> & Hs2).
        pose proof (Z.mod_pos_bound (bits_value a1) (2 ^ 2) ltac:(lia)) as Hx.
        awp_step. awp_step; [done|]. intros Hn0. apply Z.eqb_neq in Hn0.
        awp_step. awp_step. rewrite rd_ok by lia. cbn [wp]. awp_step. cbn [allow].
        split; [done|]. split; [by etrans|]. split; [lia|].
        assert (l.[n - 1] = (take (Z.to_nat n) l).[zlen (take (Z.to_nat n) l) - 1]) as El
          by (rewrite Hln, lookup_take_total by lia; done).
        split.
        { rewrite El. eapply (Forall_lookup_1 _ _ _ _ Hf). apply znth_lookup. lia. }
        intros Hle. rewrite Hs2, El.
        eapply length_repeat; [exact Hm|exact Hs1| |lia|lia]. apply Z.add_comm.
      * awp_step. eapply awp_mono; [apply zreceive_spec; [done|lia]|].
        intros [x|] a2; [|done]. intros (Hb2 & Hf2 & _ & -> & Hs2).
        pose proof (Z.mod_pos_bound (bits_value a1) (2 ^ 3) ltac:(lia)) as Hx.
        awp_step. cbn [allow]. split; [done|]. split; [by etrans|]. split; [lia|]. split; [lia|].
        intros Hle. rewrite Hs2. eapply (length_zeros lc ntot _ _ _ _ 17 3 3); [by left|done| | |lia].
        { exact Hs1. }
        apply Z.add_comm.
      * awp_step. eapply awp_mono; [apply zreceive_spec; [done|lia]|].
        intros [x|] a2; [|done]. intros (Hb2 & Hf2 & _ & -> & Hs2).
        pose proof (Z.mod_pos_bound (bits_value a1) (2 ^ 7) ltac:(lia)) as Hx.
        awp_step. cbn [allow]. split; [done|]. split; [by etrans|]. split; [lia|]. split; [lia|].
        intros Hle. rewrite Hs2. eapply (length_zeros lc ntot _ _ _ _ 18 7 11); [by right|done| | |lia].
        { exact Hs1. }
        apply Z.add_comm.
    + intros [[k fill]|] a2; [|done]. intros (Hb2 & Hf2 & Hk & Hfl & Hstep).
      apply fill_lengths; [done|done|done|done|]. intros l' Hinv' Hle Ht'. cbn [allow].
      split; [done|]. split; [done|]. split; [done|]. split; [lia|]. rewrite Ht'. by apply Hstep.
Qed.
End lengths.

(** *** The header of a dynamic block *)
Lemma lens_of_take l off n m : 0 ≤ off → 0 ≤ n → off + n = m →
  lens_of l off n = drop (Z.to_nat off) (take (Z.to_nat m) l).
Proof. intros. unfold lens_of. rewrite skipn_firstn_comm. f_equal. lia. Qed.

Lemma lens_of_prefix l n m : 0 ≤ n ≤ m →
  lens_of l 0 n = take (Z.to_nat n) (take (Z.to_nat m) l).
Proof. intros. unfold lens_of. rewrite take_take. f_equal. lia. Qed.

Lemma lengths_loop_spec lc zc ntot a : table_ok lc zc → length lc = 19%nat → 0 ≤ ntot ≤ 320 →
  bits_ok a →
  awp (a_loop (S (Z.to_nat ntot)) (codelength_step zc ntot) (malloc_arr uninit (286 + 32 + 137), 0)) a
    (allow (λ _, True) (λ r a', bits_ok a' ∧ frame a a' ∧ ∃ l, r = Fell (l, ntot) ∧
      lens_array ntot l ntot ∧
      rtc (length_step lc ntot) (stream a, []) (stream a', take (Z.to_nat ntot) l))).
Proof.
  intros Ht Hlc Hn Hb.
  apply (awp_loop (λ '(l, n) a', bits_ok a' ∧ frame a a' ∧ lens_array ntot l n ∧
      rtc (length_step lc ntot) (stream a, []) (stream a', take (Z.to_nat n) l))
    (λ '(l, n) _, Z.to_nat (ntot - n))).
  - split; [done|]. split; [done|]. split; [|done].
    split; [by rewrite length_malloc|]. split; [lia|]. constructor.
  - lia.
  - intros [l n] a1 (Hb1 & Hf1 & Hi & Hr).
    eapply awp_mono; [by apply (codelength_step_spec lc)|].
    intros [[[l' n']|[l' n']|[]]|e] a2; cbn [allow]; [..|done].
    + intros (Hb2 & Hf2 & Hi2 & Hlt & Hs). split; [|destruct Hi2 as (_&?&_); lia].
      split; [done|]. split; [by etrans|]. split; [done|]. by eapply rtc_r.
    + intros (Hb2 & Hf2 & -> & -> & -> & ->). split; [done|]. split; [done|]. by exists l.
Qed.

Lemma compute_huffman_codes_spec M a : zlib_ok M a →
  awp stbi__compute_huffman_codes a (allow (λ _, True) (λ _ a', ∃ ll ld,
    block_ok ll ld M a' ∧ zout_start a' = zout_start a ∧ zout a' = zout a ∧
    dynamic_codes (stream a) ll ld (stream a'))).
Proof.
  intros Hok. unfold stbi__compute_huffman_codes, dynamic_codes.
  awp_step. eapply awp_mono; [apply zreceive_spec; [apply Hok|lia]|].
  intros [x|] a1; [|done]. intros (Hb1 & Hf1 & _ & -> & Hs1).
  awp_step. eapply awp_mono; [apply zreceive_spec; [done|lia]|].
  intros [x|] a2; [|done]. intros (Hb2 & Hf2 & _ & -> & Hs2).
  awp_step. eapply awp_mono; [apply zreceive_spec; [done|lia]|].
  intros [x|] a3; [|done]. intros (Hb3 & Hf3 & _ & -> & Hs3).
  rewrite <- Hs1, <- Hs2, <- Hs3. cbn [fst stream].
  pose proof (Z.mod_pos_bound (bits_value a) (2 ^ 5) ltac:(lia)) as Hx1.
  pose proof (Z.mod_pos_bound (bits_value a1) (2 ^ 5) ltac:(lia)) as Hx2.
  pose proof (Z.mod_pos_bound (bits_value a2) (2 ^ 4) ltac:(lia)) as Hx3.
  set (hlit := bits_value a mod 2 ^ 5 + 257) in *.
  set (hdist := bits_value a1 mod 2 ^ 5 + 1) in *.
  set (hclen := bits_value a2 mod 2 ^ 4 + 4) in *.
  awp_step. eapply awp_mono; [apply read_cl_spec; [done|lia]|].
  intros [lc|] a4; [|done]. intros (Hb4 & Hf4 & Hl4 & Hr4 & Hcl). rewrite Hcl.
  assert (lens_of lc 0 19 = lc) as Elc
    by (unfold lens_of; change (Z.to_nat 0) with 0%nat; rewrite drop_0, take_ge by lia; done).
  awp_step. eapply awp_mono; [apply build_table_spec; [apply junk_shape|lia|lia|lia|by rewrite Elc]|].
  intros [zc|] a5; [|done]. intros [-> Hzc]. rewrite Elc in Hzc.
  awp_step. eapply awp_mono; [apply (lengths_loop_spec lc); [done|done|lia|done]|].
  intros [r|] a5; [|done]. intros (Hb5 & Hf5 & l & -> & (Hll & _ & Hlr) & Hrtc).
  cbn [fell]. rewrite Z.eqb_refl. cbn [negb]. awp_step. awp_step; [done|]. intros _.
  assert (frame a a5) as Hf by (do 4 (etrans; [eassumption|]); done).
  pose proof (zlib_frame M a a5 Hok Hb5 Hf) as Hok5.
  pose proof (lens_of_prefix l hlit (hlit + hdist) ltac:(lia)) as E1.
  pose proof (lens_of_take l hlit hdist (hlit + hdist) ltac:(lia) ltac:(lia) eq_refl) as E2.
  awp_step. awp_step. awp_step. eapply awp_mono; [apply build_table_spec;
    [apply Hok5|lia|lia|lia|rewrite E1; by apply Forall_take]|].
  intros [zl|] a6; [|done]. intros [-> Hzl]. rewrite E1 in Hzl.
  awp_step. awp_step. awp_step. eapply awp_mono; [apply build_table_spec;
    [cbn; apply Hok5|lia|lia|lia|rewrite E2; by apply Forall_drop]|].
  intros [zd|] a6; [|done]. intros [-> Hzd]. rewrite E2 in Hzd.
  awp_step. cbn [allow]. eexists _, _. split; [split; [|exact Hzl|exact Hzd]|].
  - destruct Hok5 as [[]]. split; cbn; try done; by eapply table_shape.
  - destruct Hf as (_&_&E3&E4&_). split; [exact E3|]. split; [exact E4|].
    exists (take (Z.to_nat (hlit + hdist)) l). split; [exact Hrtc|].
    split; [apply length_take_out; lia|]. done.
Qed.

End inflate.
