(* ===== verification/StbZlibSpec.v ===== *)
(** * stb_image: the zlib decoder against RFC 1951, from blocks to entry points

    Stored blocks, the sequence of blocks and the zlib header; the decoder ends
    on every input, stays in its buffers, and what it writes is what the
    reference relation assigns to its input. *)
From S2P Require Import Prelude StbMonad StbBase StbBaseSpec StbStream StbZlib StbHuffman StbBits.
From S2P Require Import Rfc1951 StbInflate.

Section decoder.
Context `{Env : StbiEnv}.

(** ** Stored blocks *)
(** Bytes of the input and bytes of its number. *)
Lemma value_le_take l n : Forall is_byte l → (n ≤ length l)%nat →
  bytes_of n (value_le l) = take n l ∧ value_le (drop n l) = value_le l / 2 ^ (8 * Z.of_nat n).
Proof.
  intros Hl. revert n. induction Hl as [|b l Hb Hl IH]; intros n Hn; destruct n as [|n];
    cbn [length] in Hn; try lia; try (split; [done|]; cbn [drop]; by rewrite Z.div_1_r).
  destruct (IH n ltac:(lia)) as [E1 E2]. cbn [bytes_of take drop].
  change (value_le (b :: l)) with (b + 256 * value_le l). destruct Hb.
  replace ((b + 256 * value_le l) mod 256) with b
    by (rewrite (Z.mul_comm 256), Z.mod_add, Z.mod_small; lia).
  replace ((b + 256 * value_le l) / 256) with (value_le l)
    by (rewrite (Z.mul_comm 256), Z.div_add, (Z.div_small b); lia).
  split; [by f_equal|]. rewrite E2. replace (8 * Z.of_nat (S n)) with (8 + 8 * Z.of_nat n) by lia.
  rewrite Z.pow_add_r, <- Z.div_div by (try apply Z.pow_nonzero; try apply Z.pow_pos_nonneg; lia).
  change (2 ^ 8) with 256. f_equal.
  rewrite (Z.mul_comm 256), Z.div_add, (Z.div_small b); lia.
Qed.

(** The header bytes below [k] are in place. *)
Definition header_inv (s0 : Z * Z) (k : Z) (header : list Z) : Prop :=
  length header = 4%nat ∧ ∀ j, 0 ≤ j < k → header.[j] = (s0.1 / 2 ^ (8 * j)) mod 256.

Lemma header_step s0 k header : 0 ≤ k < 4 → header_inv s0 k header →
  header_inv s0 (k + 1) (zset header k ((advance (8 * k) s0).1 mod 256)).
Proof.
  intros Hk [Hl Hh]. split; [by rewrite length_zset|]. intros j Hj.
  rewrite znth_zset by lia. case_decide; [by subst|]. apply Hh. lia.
Qed.

Lemma drain_bits_spec a s0 header : bits_ok a → num_bits a mod 8 = 0 → stream a = s0 →
  length header = 4%nat →
  awp_ok (drain_bits header) a (λ '(header, k) a', bits_ok a' ∧ frame a a' ∧ num_bits a' = 0 ∧
    0 ≤ k ≤ 4 ∧ header_inv s0 k header ∧ stream a' = advance (8 * k) s0 ∧
    ∀ K, live K a → live (K - 8 * k) a').
Proof.
  intros Hb Hn <- Hl. unfold drain_bits. awp_step. unfold awp_ok.
  apply (awp_loop (λ '(header, k) a', bits_ok a' ∧ frame a a' ∧ num_bits a' mod 8 = 0 ∧
      0 ≤ k ∧ 8 * k + num_bits a' = num_bits a ∧ header_inv (stream a) k header ∧
      stream a' = advance (8 * k) (stream a) ∧ ∀ K, live K a → live (K - 8 * k) a')
    (λ _ a', Z.to_nat (num_bits a' / 8))).
  - split; [done|]. split; [done|]. split; [done|]. split; [lia|]. split; [lia|].
    split; [split; [done|]; intros; lia|]. split; [by rewrite advance_0|].
    intros K. by rewrite Z.mul_0_r, Z.sub_0_r.
  - destruct Hb. assert (num_bits a / 8 ≤ 4) by (apply Z.div_le_upper_bound; lia). lia.
  - intros [h k] a1 (Hb1 & Hf1 & Hm & Hk & Hnn & Hh & Hs & Hlv). pose proof Hb as [[] _ _ _ _].
    pose proof Hb1 as []. pose proof (Z.div_mod (num_bits a1) 8 ltac:(lia)) as Hd.
    awp_step. awp_step. destruct (Z.ltb_spec 0 (num_bits a1)) as [Hp|Hp].
    + pose proof (proj1 Hh). awp_step. awp_step. rewrite wr_ok by lia. cbn [wp].
      awp_step. awp_step. rewrite shr32_ok by lia. cbn [wp]. awp_step. awp_step. awp_step.
      fold (dropped 8 a1). destruct (dropped_ok a1 8 Hb1 ltac:(lia)) as (Hd1 & Hd2 & Hd3).
      change 255 with (2 ^ 8 - 1). rewrite land_mask, <- bits_value_low by lia.
      change (bits_value a1) with (stream a1).1. change (2 ^ 8) with 256.
      rewrite u8_small by (apply Z.mod_pos_bound; lia). split.
      * split; [done|]. split; [by etrans|].
        split; [cbn; rewrite Zminus_mod, Hm by lia; done|]. split; [lia|].
        split; [cbn; lia|]. split; [rewrite Hs; apply header_step; [lia|done]|].
        split; [rewrite Hd3, Hs, advance_add by lia; f_equal; lia|].
        intros K HK. replace (K - 8 * (k + 1)) with (K - 8 * k - 8) by lia. by apply live_dropped, Hlv.
      * cbn. replace (num_bits a1 / 8) with ((num_bits a1 - 8) / 8 + 1)
          by (rewrite <- Z.div_add by lia; f_equal; lia).
        pose proof (Z.div_pos (num_bits a1 - 8) 8 ltac:(lia) ltac:(lia)). lia.
    + awp_step. cbn [fell]. awp_step. split; [done|]. split; [done|]. split; [lia|].
      split; [lia|]. done.
Qed.

Lemma mod_16_bytes v : v mod 2 ^ 16 = (v / 2 ^ 8) mod 256 * 256 + v mod 256.
Proof.
  change (2 ^ 16) with (256 * 256). rewrite Z.rem_mul_r by lia. change (2 ^ 8) with 256. lia.
Qed.

(** Between bytes: an empty bit buffer. *)
Lemma aligned_value a : bits_ok a → num_bits a = 0 →
  code_buffer a = 0 ∧ bits_value a = value_le (input_left a).
Proof.
  intros [] E. rewrite E in *. change (2 ^ 0) with 1 in *.
  assert (code_buffer a = 0) as Ec by lia. split; [done|].
  unfold bits_value. rewrite E, Ec. change (2 ^ 0) with 1. lia.
Qed.

Lemma aligned_zget8 a : bits_ok a → num_bits a = 0 →
  awp_ok stbi__zget8 a (λ b a', bits_ok a' ∧ frame a a' ∧ num_bits a' = 0 ∧
    b = (stream a).1 mod 256 ∧ stream a' = advance 8 (stream a) ∧
    ∀ k, 8 ≤ k → live k a → live (k - 8) a').
Proof.
  intros Hb Hn. eapply awp_ok_mono; [by apply zget8_spec|].
  intros b a' (Hbb & Hb' & Hf & Hhit & Hn' & _ & Hz & Hv).
  assert (∀ k, 8 ≤ k → live k a → live (k - 8) a') as Hlv.
  { intros k Hk [Hh Hl]. split; [congruence|]. unfold bits_left in *. destruct Hf as (_ & -> & _). lia. }
  rewrite Hn in Hn'.
  destruct (aligned_value a Hb Hn) as [_ E], (aligned_value a' Hb' Hn') as [_ E'].
  destruct Hbb. do 3 (split; [done|]). unfold stream, advance. cbn [fst snd].
  rewrite E, E', Hv, Hn, Hn', (Z.mul_comm 256). change (2 ^ 8) with 256.
  rewrite Z.mod_add, Z.div_add, Z.mod_small, (Z.div_small b) by lia. done.
Qed.

Lemma land_7 n : Z.land n 7 = n mod 8.
Proof. change 7 with (2 ^ 3 - 1). by rewrite land_mask. Qed.

Lemma align_spec a : bits_ok a →
  awp_ok (if negb (Z.land (num_bits a) 7 =? 0)
          then stbi__zreceive (Z.land (num_bits a) 7);; mret () else mret ()) a
    (λ _ a', bits_ok a' ∧ frame a a' ∧ num_bits a' mod 8 = 0 ∧
       stream a' = advance (stream a).2 (stream a) ∧ ∀ k, live k a → live (k - (stream a).2) a').
Proof.
  intros Hb. rewrite land_7. pose proof (Z.mod_pos_bound (num_bits a) 8 ltac:(lia)) as Hm.
  destruct (Z.eqb_spec (num_bits a mod 8) 0) as [E|E]; cbn [negb].
  - awp_step. split; [done|]. split; [done|]. split; [done|]. cbn [stream snd]. rewrite E.
    split; [by rewrite advance_0|]. intros k. by rewrite Z.sub_0_r.
  - awp_step. eapply awp_ok_mono; [apply zreceive_moves; [done|lia]|].
    intros x a' (H1 & H2 & _ & H4 & H5). awp_step. split; [done|]. split; [done|]. split; [|done].
    apply (f_equal snd) in H4. cbn in H4. by rewrite Z.sub_diag in H4.
Qed.

Lemma header_bytes_spec a k header s0 : bits_ok a → num_bits a = 0 → 0 ≤ k ≤ 4 →
  header_inv s0 k header → stream a = advance (8 * k) s0 →
  awp_ok (a_for k 4 (λ k header, b ← stbi__zget8; lift (wr header k b)) header) a
    (λ header a', bits_ok a' ∧ frame a a' ∧ num_bits a' = 0 ∧ header_inv s0 4 header ∧
       stream a' = advance 32 s0 ∧ ∀ K, 0 ≤ K → live (K + 8 * (4 - k)) a → live K a').
Proof.
  intros Hb Hn Hk Hh Hs.
  apply (awp_ok_for (λ i header a', bits_ok a' ∧ frame a a' ∧ num_bits a' = 0 ∧
    header_inv s0 i header ∧ stream a' = advance (8 * i) s0 ∧
    ∀ K, 0 ≤ K → live (K + 8 * (4 - k)) a → live (K + 8 * (4 - i)) a')).
  - done.
  - intros i h a1 Hi (Hb1 & Hf1 & Hn1 & Hh1 & Hs1 & Hlv1). awp_step.
    eapply awp_ok_mono; [by apply aligned_zget8|]. intros b a2 (Hb2 & Hf2 & Hn2 & -> & Hs2 & Hlv2).
    pose proof (proj1 Hh1). awp_step. rewrite wr_ok by lia. cbn [wp].
    split; [done|]. split; [by etrans|]. split; [done|].
    split; [rewrite Hs1; apply header_step; [lia|done]|].
    split; [rewrite Hs2, Hs1, advance_add by lia; f_equal; lia|].
    intros K HK HlK. replace (K + 8 * (4 - (i + 1))) with (K + 8 * (4 - i) - 8) by lia.
    apply Hlv2; [lia|by apply Hlv1].
  - intros h a1. rewrite Z.max_r by lia. intros (H1 & H2 & H3 & H4 & H5 & H6).
    do 5 (split; [done|]). intros K HK HlK. specialize (H6 K HK HlK). by rewrite Z.sub_diag, Z.add_0_r in H6.
Qed.

(** The lengths in the header. *)
Lemma header_values s0 header : header_inv s0 4 header →
  header.[1] * 256 + header.[0] = s0.1 mod 2 ^ 16 ∧
  header.[3] * 256 + header.[2] = (s0.1 / 2 ^ 16) mod 2 ^ 16.
Proof.
  intros [_ Hh]. rewrite !Hh by lia. rewrite !mod_16_bytes, Z.div_div by lia.
  rewrite Z.div_1_r. done.
Qed.

(** The bytes of a stored block, from an aligned stream. *)
Lemma stored_copy_spec M len a : 2 ^ 32 ≤ M → zlib_ok M a → num_bits a = 0 → 0 ≤ len < 2 ^ 16 →
  0 ≤ zout a ≤ zlen (zout_start a) → zbuffer a + len ≤ zbuffer_end a →
  awp ((if zlen (zout_start a) <? zout a + len then stbi__zexpand (zout a) len else mret ());;
       a ← get;
       out ← lift (memcpy (zout_start a) (zout a) (zin a) (zbuffer a) len);
       put (set_zout out (zout a + len) (set_zbuffer (zbuffer a + len) a))) a
    (allow (λ _, True) (λ _ a', zlib_ok M a' ∧ 0 ≤ zout a' ≤ zlen (zout_start a') ∧
      stream a' = advance (8 * len) (stream a) ∧
      take (Z.to_nat (zout a')) (zout_start a') =
        take (Z.to_nat (zout a)) (zout_start a) ++ bytes_of (Z.to_nat len) (stream a).1 ∧
      zout a' = zout a + len ∧ num_bits a' = 0 ∧ z_expandable a' = z_expandable a ∧
      ∀ k, live k a → live (k - 8 * len) a')).
Proof.
  intros HM Hok Hn Hlen Hp Hin.
  awp_step. eapply awp_mono; [apply expand_spec; [apply Hok|lia|lia|]|].
  { intros Hr. apply Z.ltb_ge in Hr. lia. }
  intros [u'|] a4; [|done]. intros [Hroom _].
  destruct (zlib_room M a a4 (zout a) len HM Hok Hp Hroom) as (Hok4 & Hs4 & Hl4 & Ht4 & Ei4 & Eb4 & _ & _).
  assert (num_bits a4 = 0 ∧ zbuffer_end a4 = zbuffer_end a ∧ zout a4 = zout a ∧
      z_expandable a4 = z_expandable a ∧ hit_zeof_once a4 = hit_zeof_once a) as (Hn4 & Ee4 & Ez4 & Ex4 & Eh4)
    by (destruct Hroom as [[-> _]|[_ (?&->&_)]]; done).
  pose proof (zlib_bits _ _ Hok4) as Hb4. pose proof Hb4 as [].
  destruct (aligned_value a4 Hb4 Hn4) as [Ec4 Ev4].
  awp_step. awp_step. awp_step. awp_step. rewrite Ez4 in *. rewrite memcpy_window by lia. cbn [wp].
  set (o := zout a) in *. set (out' := take (Z.to_nat o) (zout_start a4) ++ _).
  pose proof (length_window (zin a4) (zbuffer a4) (zbuffer a4 + len) ltac:(lia) ltac:(lia)) as Hwl.
  assert (length out' = length (zout_start a4)) as Hlo
    by (unfold out'; rewrite !length_app, length_take, length_drop; lia).
  set (a5 := set_zbuffer (zbuffer a4 + len) a4).
  destruct (aligned_value a5 ltac:(split; cbn; done || lia) Hn4) as [_ Ev5].
  assert (input_left a5 = drop (Z.to_nat len) (input_left a4)) as Ei5
    by (unfold input_left, a5; cbn; apply window_drop; lia).
  assert (zlen (input_left a4) = zbuffer_end a4 - zbuffer a4) as Hil
    by (unfold input_left; rewrite length_window by lia; lia).
  destruct (value_le_take (input_left a4) (Z.to_nat len)) as [Eb Ed];
    [by apply window_bytes_ok|lia|].
  awp_step. cbn [allow]. split.
  { apply (zlib_write M a5 out'); [|done]. destruct Hok4. split; try done. split; cbn; done || lia. }
  cbn [zout zout_start set_zout]. split; [lia|]. rewrite <- Hs4. split.
  - change (stream (set_zout out' (o + len) a5)) with (stream a5).
    unfold stream, advance. cbn [fst snd]. rewrite Ev5, Ev4, Ei5, Ed, Z2Nat.id by lia. f_equal.
    change (num_bits a5) with (num_bits a4). rewrite Hn4. change (0 mod 8) with 0.
    rewrite Z.sub_0_l, Z.mul_comm, <- Z.mul_opp_l. by rewrite Z.mod_mul.
  - split.
    { cbn [fst stream]. rewrite Ev4, Eb. unfold out'. rewrite Ht4, app_assoc, take_app_length'.
      + unfold input_left. rewrite <- window_take by lia. done.
      + rewrite length_app, length_take. lia. }
    split; [done|]. split; [done|]. split; [done|]. intros k [Hh Hlk]. unfold live, bits_left in *.
    cbn. rewrite Eh4, Ee4, Eb4, Hn4. split; [done|lia].
Qed.

Lemma parse_uncompressed_block_spec M a : 2 ^ 32 ≤ M → zlib_ok M a → 0 ≤ zout a ≤ zlen (zout_start a) →
  awp stbi__parse_uncompressed_block a (allow (λ _, True) (λ _ a', zlib_ok M a' ∧
    0 ≤ zout a' ≤ zlen (zout_start a') ∧
    stored_block (stream a, take (Z.to_nat (zout a)) (zout_start a))
      (stream a', take (Z.to_nat (zout a')) (zout_start a')))).
Proof.
  intros HM Hok Hp. unfold stbi__parse_uncompressed_block.
  awp_step. awp_step. awp_step. eapply awp_mono; [exact (align_spec a (zlib_bits _ _ Hok))|].
  intros [u|] a1; [|done]. intros (Hb1 & Hf1 & Hm1 & Hs1 & _). set (s0 := advance (stream a).2 (stream a)) in *.
  awp_step. eapply awp_mono; [exact (drain_bits_spec a1 s0 (malloc_arr uninit 4) Hb1 Hm1 Hs1 (length_malloc uninit 4))|].
  intros [[h k]|] a2; [|done]. intros (Hb2 & Hf2 & Hn2 & Hk & Hh & Hs2 & _).
  awp_step. awp_step. awp_step. awp_step; [done|]. intros _.
  awp_step. eapply awp_mono; [exact (header_bytes_spec a2 k h s0 Hb2 Hn2 Hk Hh Hs2)|].
  intros [header|] a3; [|done]. intros (Hb3 & Hf3 & Hn3 & Hh3 & Hs3 & _).
  assert (frame a a3) as Hf by (do 2 (etrans; [eassumption|]); done).
  pose proof (zlib_frame M a a3 Hok Hb3 Hf) as Hok3.
  destruct (header_values s0 header Hh3) as [El En]. pose proof (proj1 Hh3).
  awp_step. awp_step. rewrite rd_ok by lia. cbn [wp]. awp_step. awp_step. rewrite rd_ok by lia. cbn [wp].
  awp_step. awp_step. rewrite rd_ok by lia. cbn [wp]. awp_step. awp_step. rewrite rd_ok by lia. cbn [wp].
  rewrite El, En. pose proof (Z.mod_pos_bound s0.1 (2 ^ 16) ltac:(lia)) as Hlen.
  set (len := s0.1 mod 2 ^ 16) in *.
  awp_step. awp_step; [done|]. intros Hc. apply negb_false_iff, Z.eqb_eq in Hc.
  awp_step. awp_step. awp_step. awp_step; [done|]. intros Hin. apply Z.ltb_ge in Hin.
  assert (zout_start a3 = zout_start a ∧ zout a3 = zout a) as [Eout Ezo]
    by (destruct Hf as (_&_&?&?&_); done).
  eapply awp_mono; [apply (stored_copy_spec M len a3); [done|done|done|lia|by rewrite Eout, Ezo|lia]|].
  intros [u'|] a4; [|done]. intros (Hok4 & Hp4 & Hs4 & Ho4 & _). cbn [allow].
  split; [done|]. split; [done|]. rewrite Hs4, Ho4, Hs3, Eout, Ezo. by apply stored.
Qed.

(** *** One block *)
Lemma take_default_length : lens_of stbi__zdefault_length 0 STBI__ZNSYMS = stbi__zdefault_length.
Proof. reflexivity. Qed.
Lemma take_default_distance : lens_of stbi__zdefault_distance 0 32 = stbi__zdefault_distance.
Proof. reflexivity. Qed.

Lemma fixed_tables_spec M a : zlib_ok M a →
  awp (a ← get;
       zl ← build_table (z_length a) stbi__zdefault_length 0 STBI__ZNSYMS;
       modify (λ a, set_tables zl (z_distance a) a);;
       zd ← build_table (z_distance a) stbi__zdefault_distance 0 32;
       modify (λ a, set_tables (z_length a) zd a)) a
    (allow (λ _, True) (λ _ a',
       block_ok stbi__zdefault_length stbi__zdefault_distance M a' ∧
       zout_start a' = zout_start a ∧ zout a' = zout a ∧ stream a' = stream a)).
Proof.
  intros Hok. pose proof Hok as [zlib_bits0 ????].
  awp_step. awp_step. awp_step. eapply awp_mono; [apply build_table_spec|].
  { done. } { lia. } { by unfold STBI__ZNSYMS. } { by vm_compute. }
  { rewrite take_default_length. unfold stbi__zdefault_length.
    rewrite !Forall_app. repeat split; apply Forall_replicate; lia. }
  intros [zl|] a1; [|done]. intros [-> Hzl]. rewrite take_default_length in Hzl.
  awp_step. awp_step. awp_step. eapply awp_mono; [apply build_table_spec|].
  { done. } { lia. } { lia. } { by vm_compute. }
  { rewrite take_default_distance. apply Forall_replicate. lia. }
  intros [zd|] a1; [|done]. intros [-> Hzd]. rewrite take_default_distance in Hzd.
  awp_step. cbn [allow]. split; [|done]. split; [|exact Hzl|exact Hzd].
  split; [by destruct zlib_bits0; split|by eapply table_shape|by eapply table_shape|done|done].
Qed.

Lemma block_lengths ll ld M a : block_ok ll ld M a → lengths_ok ll ∧ lengths_ok ld.
Proof. intros [_ H1 H2]. split; by eapply table_lens. Qed.

(** The body of a block after its three-bit header. *)
Lemma block_body_spec M fuel type a : 2 ^ 32 ≤ M → (Z.to_nat M < fuel)%nat → zlib_ok M a →
  0 ≤ zout a ≤ zlen (zout_start a) → 0 ≤ type < 4 →
  awp (if type =? 0 then stbi__parse_uncompressed_block
       else if type =? 3 then fail ""
       else
         (if type =? 1 then
            a ← get;
            zl ← build_table (z_length a) stbi__zdefault_length 0 STBI__ZNSYMS;
            modify (λ a, set_tables zl (z_distance a) a);;
            zd ← build_table (z_distance a) stbi__zdefault_distance 0 32;
            modify (λ a, set_tables (z_length a) zd a)
          else stbi__compute_huffman_codes);;
         stbi__parse_huffman_block fuel) a
    (allow (λ _, True) (λ _ a', zlib_ok M a' ∧ 0 ≤ zout a' ≤ zlen (zout_start a') ∧
      let st := (stream a, take (Z.to_nat (zout a)) (zout_start a)) in
      let st' := (stream a', take (Z.to_nat (zout a')) (zout_start a')) in
      (type = 0 ∧ stored_block st st' ∨
       type = 1 ∧ symbols stbi__zdefault_length stbi__zdefault_distance st st' ∨
       type = 2 ∧ ∃ ll ld s1, dynamic_codes st.1 ll ld s1 ∧ symbols ll ld (s1, st.2) st') ∧
      0 ≤ st'.1.1 ≤ st.1.1 ∧ (type = 0 → 0 < st.1.1))).
Proof.
  intros HM Hfuel Hok Hp Ht.
  pose proof (bits_value_nonneg a (zlib_bits _ _ Hok)) as Hv.
  destruct (Z.eqb_spec type 0) as [->|H0]; [|destruct (Z.eqb_spec type 3) as [->|H3];
    [|destruct (Z.eqb_spec type 1) as [->|H1]]].
  - eapply awp_mono; [by apply (parse_uncompressed_block_spec M)|].
    intros [u|] a'; [|done]. intros (H1 & H2 & H3). split; [done|]. split; [done|].
    split; [by left|].
    destruct (stored_shrinks _ _ H3) as [Hs Hz]; [apply Z.mod_pos_bound; lia|].
    split; [by apply Hs|]. intros _. by apply Hz.
  - by apply awp_fail.
  - awp_step. eapply awp_mono; [by apply fixed_tables_spec|].
    intros [u|] a1; [|done]. intros (Hok1 & E1 & E2 & E3).
    destruct (block_lengths _ _ _ _ Hok1) as [Hll Hld].
    eapply awp_mono; [apply parse_huffman_block_spec; [exact HM|exact Hok1|by rewrite E1, E2|done]|].
    intros [u'|] a2; [|done]. rewrite E1, E2, E3. intros (Hok2 & Hp2 & Hs).
    split; [by apply (block_zlib _ _ _ _ Hok2)|]. split; [done|]. split; [by right; left|].
    split; [|done]. by apply (symbols_shrinks _ _ _ _ Hll Hld Hs).
  - awp_step. eapply awp_mono; [by apply compute_huffman_codes_spec|].
    intros [u|] a1; [|done]. intros (ll & ld & Hok1 & E1 & E2 & Hdyn).
    destruct (block_lengths _ _ _ _ Hok1) as [Hll Hld].
    eapply awp_mono; [apply parse_huffman_block_spec; [exact HM|exact Hok1|by rewrite E1, E2|done]|].
    intros [u'|] a2; [|done]. rewrite E1, E2. intros (Hok2 & Hp2 & Hs).
    split; [by apply (block_zlib _ _ _ _ Hok2)|]. split; [done|].
    split; [right; right; split; [lia|]; by exists ll, ld, (stream a1)|].
    split; [|done].
    pose proof (dynamic_shrinks _ _ _ _ Hdyn Hv) as Hd.
    pose proof (symbols_shrinks _ _ _ _ Hll Hld Hs) as Hs'. unfold shrinks in Hs'. cbn [fst] in *. lia.
Qed.

Lemma zlib_block_spec M fuel a : 2 ^ 32 ≤ M → (Z.to_nat M < fuel)%nat → zlib_ok M a →
  0 ≤ zout a ≤ zlen (zout_start a) →
  awp (zlib_block fuel) a (allow (λ _, True) (λ c a', zlib_ok M a' ∧ 0 ≤ zout a' ≤ zlen (zout_start a') ∧
    bitlen (stream a').1 < bitlen (stream a).1 ∧
    let st := (stream a, take (Z.to_nat (zout a)) (zout_start a)) in
    let st' := (stream a', take (Z.to_nat (zout a')) (zout_start a')) in
    match c with
    | Next _ => block_step false st st'
    | Return _ => block_step true st st'
    | Break _ => False
    end)).
Proof.
  intros HM Hfuel Hok Hp. unfold zlib_block.
  pose proof (bits_value_nonneg a (zlib_bits _ _ Hok)) as Hv.
  awp_step. eapply awp_mono; [apply zreceive_spec; [apply Hok|lia]|].
  intros [final|] a1; [|done]. intros (Hb1 & Hf1 & _ & Efin & Hs1).
  awp_step. eapply awp_mono; [apply zreceive_spec; [done|lia]|].
  intros [type|] a2; [|done]. intros (Hb2 & Hf2 & _ & Ety & Hs2).
  pose proof (Z.mod_pos_bound (bits_value a1) (2 ^ 2) ltac:(lia)) as Hty.
  assert (frame a a2) as Hf by (etrans; eassumption).
  pose proof (zlib_frame M a a2 Hok Hb2 Hf) as Hok2.
  assert (zout_start a2 = zout_start a ∧ zout a2 = zout a) as [Eo Ez] by (destruct Hf as (_&_&?&?&_); done).
  rewrite Hs1 in Hs2. change (bits_value a1) with (stream a1).1 in Ety, Hty. rewrite Hs1 in Ety, Hty.
  change (bits_value a) with (stream a).1 in Efin, Hv.
  awp_step. eapply awp_mono; [apply (block_body_spec M); [done|done|done|by rewrite Eo, Ez|lia]|].
  rewrite Eo, Ez, Hs2. intros [u|] a3; [|done]. intros (Hok3 & Hp3 & Hrel & Hsh & Hz).
  awp_step. cbn [allow]. cbn zeta in *. cbn [fst snd] in *.
  split; [done|]. split; [done|]. split.
  - apply bitlen_half.
    + destruct (decide ((stream a).1 = 0)) as [E|]; [|lia]. exfalso.
      unfold advance in Ety, Hz. cbn [fst] in Ety, Hz. rewrite E in Ety, Hz.
      change (0 / 2 ^ 1) with 0 in Ety, Hz. change (0 / 2 ^ 2) with 0 in Hz.
      specialize (Hz Ety). lia.
    + apply (advance_halves (stream a) (stream a3) 3); [lia|done|].
      rewrite advance_add in Hsh by lia. exact Hsh.
  - assert (∀ b, b = bool_decide ((stream a).1 mod 2 ^ 1 ≠ 0) → block_step b
      (stream a, take (Z.to_nat (zout a)) (zout_start a))
      (stream a3, take (Z.to_nat (zout a3)) (zout_start a3))) as Hb.
    { intros b Eb. destruct Hrel as [(E & H)|[(E & H)|(E & ll & ld & s1 & H1 & H2)]];
        rewrite Ety in E.
      - by apply block_stored.
      - by apply block_fixed.
      - by apply (block_dynamic _ _ _ ll ld s1). }
    destruct (Z.eqb_spec final 0) as [E|E]; rewrite Efin in E; apply Hb; symmetry.
    + apply bool_decide_eq_false. tauto.
    + by apply bool_decide_eq_true.
Qed.

(** ** The whole decoder *)
Definition out_state (a : stbi__zbuf) : ref_state := (stream a, take (Z.to_nat (zout a)) (zout_start a)).

Lemma blocks_spec M fuel a : 2 ^ 32 ≤ M → (Z.to_nat M < fuel)%nat → zlib_ok M a →
  0 ≤ zout a ≤ zlen (zout_start a) → bitlen (stream a).1 < Z.of_nat fuel →
  awp (a_loop fuel (λ _ : unit, zlib_block fuel) ()) a (allow (λ _, True) (λ _ a',
    zlib_ok M a' ∧ 0 ≤ zout a' ≤ zlen (zout_start a') ∧ inflates (out_state a) (out_state a'))).
Proof.
  intros HM Hfuel Hok Hp Hlen.
  apply (awp_loop (λ _ a1, zlib_ok M a1 ∧ 0 ≤ zout a1 ≤ zlen (zout_start a1) ∧
      ∀ st', inflates (out_state a1) st' → inflates (out_state a) st')
    (λ _ a1, Z.to_nat (bitlen (stream a1).1))).
  - done.
  - pose proof (bitlen_nonneg (stream a).1). lia.
  - intros _ a1 (Hok1 & Hp1 & Hinf). eapply awp_mono; [by apply (zlib_block_spec M)|].
    intros [[[]|?|[]]|e] a2; cbn [allow]; [..|done].
    + intros (Hok2 & Hp2 & Hlt & Hs). pose proof (bitlen_nonneg (stream a2).1). split; [|lia].
      split; [done|]. split; [done|]. intros st' Hst. apply Hinf. by eapply inflates_more.
    + tauto.
    + intros (Hok2 & Hp2 & _ & Hs). split; [done|]. split; [done|]. apply Hinf. by apply inflates_last.
Qed.

Lemma zget8_input a : 0 ≤ zbuffer a ≤ zbuffer_end a → zbuffer_end a ≤ zlen (zin a) →
  awp_ok stbi__zget8 a (λ b a', a' = set_zbuffer (Z.min (zbuffer a + 1) (zbuffer_end a)) a ∧
    (input_left a ≠ [] → input_left a = b :: input_left a')).
Proof.
  intros Hp He. unfold stbi__zget8, stbi__zeof, input_left. awp_step. awp_step.
  destruct (Z.leb_spec (zbuffer_end a) (zbuffer a)).
  - awp_step. rewrite Z.min_r by lia. replace (zbuffer_end a) with (zbuffer a) at 1 by lia.
    split; [by destruct a|]. rewrite window_nil by lia. done.
  - awp_step. awp_step. rewrite rd_ok by lia. cbn [wp]. awp_step. awp_step. awp_step.
    rewrite Z.min_l by lia. split; [done|]. intros _. cbn. apply window_cons; lia.
Qed.

Lemma header_spec a : 0 ≤ zbuffer a ≤ zbuffer_end a → zbuffer_end a ≤ zlen (zin a) →
  awp stbi__parse_zlib_header a (allow (λ _, True) (λ _ a',
    ∃ p, 0 ≤ p ≤ zbuffer_end a ∧ a' = set_zbuffer p a ∧ zlib_header (input_left a) (input_left a'))).
Proof.
  intros Hp He. unfold stbi__parse_zlib_header.
  awp_step. eapply awp_mono; [by apply zget8_input|]. intros [cmf|] a1; [|done]. intros [E1 H1].
  awp_step. eapply awp_mono; [apply zget8_input; subst a1; cbn; lia|].
  intros [flg|] a2; [|done]. intros [E2 H2].
  awp_step. awp_step. awp_step. awp_step; [done|]. intros Heof.
  awp_step. awp_step; [done|]. intros Hc1. awp_step. awp_step; [done|]. intros Hc2.
  awp_step; [done|]. intros Hc3. cbn [allow].
  apply negb_false_iff, Z.eqb_eq in Hc1, Hc2, Hc3. unfold stbi__zeof in Heof. apply Z.leb_gt in Heof.
  subst a1 a2. cbn [zbuffer zbuffer_end set_zbuffer] in *.
  eexists. split; [|split; [reflexivity|]]; [lia|].
  assert (∀ p, p < zbuffer_end a → 0 ≤ p → window (zin a) p (zbuffer_end a) ≠ []) as Hne.
  { intros p Hlt Hp0 E. pose proof (length_window (zin a) p (zbuffer_end a) Hp0 He) as Hw.
    rewrite E in Hw. cbn in Hw. lia. }
  exists cmf, flg. unfold input_left in *. cbn [zin zbuffer zbuffer_end set_zbuffer] in *.
  rewrite H1, H2 by (apply Hne; lia). split; [done|]. split; [apply Hne; lia|]. done.
Qed.

Lemma fresh_ok a : 0 ≤ zbuffer a ≤ zbuffer_end a → zbuffer_end a ≤ zlen (zin a) →
  Forall is_byte (zin a) → zshape (z_length a) → zshape (z_distance a) → out_ok a →
  zlib_ok (Z.max (2 ^ 32) (zlen (zout_start a))) (set_bits 0 0 false a) ∧
  stream (set_bits 0 0 false a) = (value_le (input_left a), 0).
Proof.
  intros. split.
  - split; [split; cbn; done || lia|done..|cbn; lia].
  - unfold stream, bits_value. cbn [code_buffer num_bits set_bits]. f_equal. change (2 ^ 0) with 1.
    change (input_left (set_bits 0 0 false a)) with (input_left a). lia.
Qed.

Lemma do_zlib_spec fuel obuf exp ph buffer len :
  Forall is_byte buffer → 0 ≤ len ≤ zlen buffer → (exp = true → 0 < zlen obuf < 2 ^ 32) →
  Z.max (Z.max (2 ^ 32) (zlen obuf)) (8 * len) < Z.of_nat fuel →
  awp (stbi__do_zlib fuel obuf exp ph) (new_zbuf buffer len) (allow (λ _, True) (λ _ a,
    0 ≤ zout a ≤ zlen (zout_start a) ∧
    decodes ph (take (Z.to_nat len) buffer) (take (Z.to_nat (zout a)) (zout_start a)))).
Proof.
  intros Hb Hl Hexp Hfuel. unfold stbi__do_zlib, stbi__parse_zlib.
  awp_step. awp_step. match goal with |- awp _ ?x _ => set (a0 := x) end.
  assert (input_left a0 = take (Z.to_nat len) buffer) as Hin.
  { unfold input_left, window, a0. cbn [zin zbuffer zbuffer_end new_zbuf]. rewrite Z.sub_0_r.
    change (Z.to_nat 0) with 0%nat. by rewrite drop_0. }
  awp_step. apply (awp_mono _ _ (allow (λ _, True) (λ _ a1, ∃ p, 0 ≤ p ≤ len ∧ a1 = set_zbuffer p a0 ∧
    if ph then zlib_header (input_left a0) (input_left a1) else input_left a1 = input_left a0))).
  { destruct ph; [apply header_spec; cbn; lia|]. awp_step. exists 0. split; [lia|]. done. }
  intros [u|] a1; [|done]. intros (p & Hp & -> & Hhead). rewrite Hin in Hhead.
  awp_step. awp_step. set (a1 := set_zbuffer p a0) in *.
  destruct (fresh_ok a1) as [Hok Hst]; cbn; try done || lia; try apply junk_shape.
  awp_step. eapply awp_mono; [apply (blocks_spec (Z.max (2 ^ 32) (zlen obuf)))|].
  { lia. } { lia. } { exact Hok. } { cbn. lia. }
  { rewrite Hst. cbn [fst].
    pose proof (bitlen_bound (value_le (input_left a1)) (8 * len) ltac:(lia)) as H.
    enough (bitlen (value_le (input_left a1)) ≤ 8 * len) by lia. apply H.
    assert (zlen (input_left a1) ≤ len) as Hll.
    { unfold input_left. rewrite length_window; cbn; lia. }
    eapply Z.lt_le_trans; [apply value_le_bound, window_bytes_ok, Hb|].
    apply Z.pow_le_mono_r; lia. }
  intros [u'|] a2; [|done]. intros (_ & Hp2 & Hinf). awp_step. cbn [allow]. split; [done|].
  eexists _, _. unfold out_state in Hinf. rewrite Hst in Hinf. split; [|exact Hinf].
  destruct ph; [done|]. done.
Qed.

(** C7. The zlib decoder is total, memory safe and sound: on every input it
    ends, within as many iterations of each loop as the larger of the output
    limit of four gigabytes and the bits of the input, without an access outside
    its buffers, an overflow or an invalid shift; and when it succeeds, after a
    valid zlib header if one is asked for, the bytes it has written are those
    RFC 1951 assigns to the stream (stored, fixed and dynamic blocks up to the
    final one).  Behind its end the input reads as zeros, for the decoder and for
    the reference [decodes]: a stream that is cut short and accepted is one that
    zero bits complete. *)
Theorem zlib_decode_total_sound fuel buffer len ph :
  Forall is_byte buffer → 0 ≤ len ≤ zlen buffer →
  (∀ initial_size, 0 < initial_size ≤ INT_MAX →
     Z.max (2 ^ 32) (8 * len) < Z.of_nat fuel →
     wp (stbi_zlib_decode_malloc_guesssize_headerflag fuel buffer len initial_size ph) (λ o,
       match o with
       | Val (out, n) => 0 ≤ n ≤ zlen out ∧
           decodes ph (take (Z.to_nat len) buffer) (take (Z.to_nat n) out)
       | Fail _ => True
       end)) ∧
  (∀ obuffer, Z.max (Z.max (2 ^ 32) (zlen obuffer)) (8 * len) < Z.of_nat fuel →
     wp (decode_buffer fuel obuffer buffer len ph) (λ '(n, out),
       n = -1 ∨ 0 ≤ n ≤ zlen out ∧
         decodes ph (take (Z.to_nat len) buffer) (take (Z.to_nat n) out))).
Proof.
  intros Hb Hl. split.
  - intros n Hn Hfuel. unfold stbi_zlib_decode_malloc_guesssize_headerflag, stbi__malloc.
    rewrite u64_small by (c_unfold; lia). destruct (malloc_ok n); [|done].
    apply wp_bind. assert (zlen (malloc_arr uninit n) = n) as Ho by (rewrite length_malloc; lia).
    pose proof (do_zlib_spec fuel (malloc_arr uninit n) true ph buffer len Hb Hl) as H.
    rewrite Ho in H. specialize (H ltac:(c_unfold; lia) ltac:(c_unfold; lia)).
    eapply wp_mono; [exact H|]. by intros [[u|e] a].
  - intros obuf Hfuel. unfold decode_buffer. apply wp_bind.
    eapply wp_mono; [apply (do_zlib_spec fuel obuf false ph buffer len Hb Hl); done|].
    intros [[u|e] a] H; cbn [wp]; [by right|by left].
Qed.
End decoder.

(** A stream of one stored block of two bytes. *)
Lemma zlib_decode_total_sound_witness :
  ∃ fuel r, @stbi_zlib_decode_malloc_guesssize_headerflag toy_env fuel
    [0x78; 0x01; 1; 2; 0; 0xfd; 0xff; 104; 105] 9 16384 true = Ok r.
Proof.
  exists (Z.to_nat (2 ^ 32 + 1)).
  destruct (@zlib_decode_total_sound toy_env (Z.to_nat (2 ^ 32 + 1))
    [0x78; 0x01; 1; 2; 0; 0xfd; 0xff; 104; 105] 9 true
    ltac:(repeat constructor; lia) ltac:(cbn; lia)) as [H _].
  specialize (H 16384 ltac:(c_unfold; lia) ltac:(rewrite Z2Nat.id; lia)).
  destruct (wp_elim _ _ H) as (r & E & _). exists r. exact E.
Defined.

