(* ===== verification/StbZlibRun.v ===== *)
(** * stb_image: the zlib decoder on well-formed streams

    The converse of [StbZlibSpec]: on a stream that was put together from
    fields (a value and its width) as an encoder does, with memory to spare and
    two bytes left behind the data, the decoder does not fail, and it writes
    what the fields describe.  [StbZlibSpec] needs no assumption on the input;
    here the input is the one an encoder promises. *)
From S2P Require Import Prelude StbMonad StbBase StbBaseSpec StbStream StbZlib StbHuffman StbBits.
From S2P Require Import Rfc1951 StbInflate StbZlibSpec.

(** ** Bit strings as fields *)
Abbreviation field := (Z * Z)%type.

Definition bits_val (fs : list field) : Z := foldr (λ f acc, f.1 + 2 ^ f.2 * acc) 0 fs.
Definition bits_len (fs : list field) : Z := foldr (λ f acc, f.2 + acc) 0 fs.
Definition field_ok (f : field) : Prop := 0 ≤ f.2 ∧ 0 ≤ f.1 < 2 ^ f.2.

Lemma bits_len_nonneg fs : Forall field_ok fs → 0 ≤ bits_len fs.
Proof. induction 1 as [|f fs [Hf _] _ IH]; cbn; [lia|]. fold (bits_len fs). lia. Qed.

Lemma bits_len_app fs gs : bits_len (fs ++ gs) = bits_len fs + bits_len gs.
Proof. induction fs as [|f fs IH]; cbn; [done|]. fold (bits_len (fs ++ gs)) (bits_len fs). lia. Qed.

Lemma bits_val_app fs gs : Forall field_ok fs →
  bits_val (fs ++ gs) = bits_val fs + 2 ^ bits_len fs * bits_val gs.
Proof.
  induction 1 as [|f fs [Hf _] Hfs IH]; cbn [app bits_val bits_len foldr].
  - change (2 ^ 0) with 1. unfold bits_val. lia.
  - fold (bits_val (fs ++ gs)) (bits_val fs) (bits_len fs). rewrite IH.
    pose proof (bits_len_nonneg fs Hfs). rewrite Z.pow_add_r by lia. lia.
Qed.

Lemma bits_val_range fs : Forall field_ok fs → 0 ≤ bits_val fs < 2 ^ bits_len fs.
Proof.
  induction 1 as [|f fs [Hf Hv] Hfs IH]; cbn; [lia|].
  fold (bits_val fs) (bits_len fs). pose proof (bits_len_nonneg fs Hfs).
  rewrite Z.pow_add_r by lia. nia.
Qed.

(** The code of symbol [i]. *)
Definition symbol_field (lens : list Z) (i : Z) : field :=
  (rev_bits (lens.[i]) (code lens i), lens.[i]).

(** What the stream begins with, and what comes after. *)
Definition begins (a : stbi__zbuf) (fs : list field) (rest : Z) : Prop :=
  bits_value a = bits_val fs + 2 ^ bits_len fs * rest.

Lemma begins_cons a f fs rest : field_ok f → Forall field_ok fs →
  begins a (f :: fs) rest ↔ begins a [f] (bits_val fs + 2 ^ bits_len fs * rest).
Proof.
  intros [Hf _] Hfs. unfold begins. cbn [bits_val bits_len foldr].
  fold (bits_val fs) (bits_len fs). pose proof (bits_len_nonneg fs Hfs).
  rewrite Z.add_0_r, Z.pow_add_r by lia. split; intros ->; lia.
Qed.

Lemma begins_app a fs gs rest : Forall field_ok fs → Forall field_ok gs →
  begins a (fs ++ gs) rest ↔ begins a fs (bits_val gs + 2 ^ bits_len gs * rest).
Proof.
  intros Hf Hg. unfold begins. rewrite bits_val_app, bits_len_app by done.
  pose proof (bits_len_nonneg fs Hf). pose proof (bits_len_nonneg gs Hg).
  rewrite Z.pow_add_r by lia. split; intros ->; lia.
Qed.

(** ** Reading a field *)
Section read.
Variables (a : stbi__zbuf) (k rest : Z).
Hypotheses (Hok : bits_ok a).

Lemma receive_run n x : 0 ≤ n ≤ 24 → field_ok (x, n) → begins a [(x, n)] rest → live (n + k) a →
  awp_ok (stbi__zreceive n) a (λ r a', r = x ∧ bits_ok a' ∧ frame a a' ∧ live k a' ∧
    bits_value a' = rest ∧ num_bits a' mod 8 = (num_bits a - n) mod 8).
Proof using Hok.
  intros Hn [_ Hx] Hb Hl. cbn in Hx. unfold begins in Hb. cbn in Hb. rewrite Z.add_0_r in Hb.
  eapply awp_ok_mono; [exact (zreceive_moves a n Hok Hn)|].
  intros r a' (Hok' & Hf & -> & Hs & Hl'). specialize (Hl' _ Hl).
  pose proof (f_equal snd Hs) as Hs2. cbn in Hs2. rewrite Zminus_mod_idemp_l in Hs2.
  apply (f_equal fst) in Hs. cbn in Hs.
  replace (n + k - n) with k in Hl' by lia. rewrite Z.mul_0_r, Z.add_0_r in Hb.
  rewrite Hs, Hb, (Z.mul_comm (2 ^ n)).
  assert (2 ^ n ≠ 0) by (apply Z.pow_nonzero; lia).
  rewrite Z.mod_add, Z.mod_small, Z.div_add, Z.div_small by lia.
  do 4 (split; [done|]). split; [lia|done].
Qed.

(** A field that is left out when its width is zero. *)
Lemma extra_run e b x : 0 ≤ e ≤ 13 → field_ok (x, e) → begins a [(x, e)] rest → live (e + k) a →
  awp_ok (if negb (e =? 0) then x ← stbi__zreceive e; mret (b + x) else mret b) a
    (λ r a', r = b + x ∧ bits_ok a' ∧ frame a a' ∧ live k a' ∧ bits_value a' = rest).
Proof using Hok.
  intros He Hx Hb Hl. destruct (Z.eqb_spec e 0) as [->|]; cbn [negb].
  - awp_step. destruct Hx as [_ Hx]. cbn in Hx. unfold begins in Hb. cbn in Hb.
    split; [lia|]. split; [done|]. split; [done|]. split; [done|]. lia.
  - awp_step. eapply awp_ok_mono; [apply (receive_run e x); [lia|done..]|].
    intros r a' (-> & H1 & H2 & H3 & H4 & _). by awp_step.
Qed.

Lemma decode_run lens z i : table_ok lens z → coded lens i → 16 ≤ k →
  begins a [symbol_field lens i] rest → live (lens.[i] + k) a →
  awp_ok (stbi__zhuffman_decode z) a (λ r a', r = i ∧ bits_ok a' ∧ frame a a' ∧ live k a' ∧
    bits_value a' = rest).
Proof using Hok.
  intros Ht Hc Hk Hb Hl. pose proof (table_lens _ _ Ht) as Hlens.
  pose proof (coded_len lens i Hlens Hc) as Hi.
  assert (0 ≤ lens.[i]) as Hi0 by lia. pose proof (rev_bits_range (lens.[i]) (code lens i) Hi0).
  unfold begins, symbol_field in Hb. cbn [bits_val bits_len foldr fst snd] in Hb.
  rewrite Z.add_0_r, Z.mul_0_r, Z.add_0_r in Hb.
  assert (0 < 2 ^ lens.[i]) by (apply Z.pow_pos_nonneg; lia).
  assert (matches lens (bits_value a) i) as Hm.
  { apply matches_mod; [done..|]. rewrite Hb, (Z.mul_comm (2 ^ _)), Z.mod_add, Z.mod_small by lia. done. }
  eapply awp_ok_mono; [exact (zhuffman_decode_spec lens z Ht a Hok)|].
  intros r a' (Hok' & Hf & [(-> & _ & Hx)|((Hr & Hlive) & Hm' & Hs)]).
  { exfalso. destruct Hx as [(Hn & Hz & _)|Hx]; [|by apply (Hx i)].
    unfold stbi__zeof in Hz. apply Z.leb_le in Hz. destruct Hok, Hl as [_ Hl].
    unfold bits_left in Hl. lia. }
  cbn [fst stream] in Hm'. assert (r = i) as -> by (by apply (matches_unique lens (bits_value a))).
  assert (16 ≤ lens.[i] + k) as Hk' by lia. specialize (Hlive _ Hk' Hl). replace (lens.[i] + k - lens.[i]) with k in Hlive by lia.
  apply (f_equal fst) in Hs. cbn in Hs.
  rewrite Hs, Hb, (Z.mul_comm (2 ^ _)), Z.div_add, Z.div_small by lia.
  do 4 (split; [done|]). lia.
Qed.
End read.

(** ** Tokens

    What a block of symbols is made of: a literal, or a length symbol [z] and a
    distance symbol [d] with their extra bits. *)
Inductive token : Type :=
| Literal (b : Z)
| Match (z x d y : Z).

Section tokens.
Variables ll ld : list Z.

Definition token_fields (t : token) : list field :=
  match t with
  | Literal b => [symbol_field ll b]
  | Match z x d y => [symbol_field ll z; (x, stbi__zlength_extra.[z - 257]);
                      symbol_field ld d; (y, stbi__zdist_extra.[d])]
  end.

Definition token_out (t : token) (out : list Z) : list Z :=
  match t with
  | Literal b => out ++ [b]
  | Match z x d y => lz_copy (Z.to_nat (stbi__zlength_base.[z - 257] + x)) (stbi__zdist_base.[d] + y) out
  end.

Definition token_ok (t : token) (n : Z) : Prop :=
  match t with
  | Literal b => 0 ≤ b < 256 ∧ coded ll b
  | Match z x d y => 257 ≤ z < 286 ∧ coded ll z ∧ 0 ≤ x < 2 ^ (stbi__zlength_extra.[z - 257]) ∧
      0 ≤ d < 30 ∧ coded ld d ∧ 0 ≤ y < 2 ^ (stbi__zdist_extra.[d]) ∧ stbi__zdist_base.[d] + y ≤ n
  end.

(** The tokens after [out], each allowed where it stands. *)
Fixpoint tokens_ok (ts : list token) (out : list Z) : Prop :=
  match ts with
  | [] => True
  | t :: ts => token_ok t (zlen out) ∧ tokens_ok ts (token_out t out)
  end.

Definition tokens_out (ts : list token) (out : list Z) : list Z := foldl (λ out t, token_out t out) out ts.
Definition tokens_fields (ts : list token) : list field := flat_map token_fields ts.

Hypotheses (Hll : lengths_ok ll) (Hld : lengths_ok ld).

Lemma symbol_field_ok lens i : lengths_ok lens → coded lens i → field_ok (symbol_field lens i).
Proof using Type.
  intros Hl Hc. pose proof (coded_len lens i Hl Hc) as Hi. assert (0 ≤ lens.[i]) as Hi0 by lia.
  split; [exact Hi0|]. apply (rev_bits_range (lens.[i]) (code lens i) Hi0).
Qed.

Lemma token_fields_ok t n : token_ok t n → Forall field_ok (token_fields t).
Proof using Hll Hld.
  destruct t as [b|z x d y]; cbn [token_ok token_fields].
  - intros [_ Hc]. repeat constructor; by apply symbol_field_ok.
  - intros (Hz & Hcz & Hx & Hd & Hcd & Hy & _).
    destruct (extra_small (z - 257) ltac:(lia)) as [He _]. destruct (dist_small d Hd) as [He' _].
    assert (field_ok (x, stbi__zlength_extra.[z - 257])) by (split; cbn [fst snd]; lia).
    assert (field_ok (y, stbi__zdist_extra.[d])) by (split; cbn [fst snd]; lia).
    repeat (apply Forall_cons_2; [assumption || (apply symbol_field_ok; assumption)|]).
    apply Forall_nil_2.
Qed.

Lemma length_lz_copy n dist out : zlen (lz_copy n dist out) = zlen out + Z.of_nat n.
Proof using Type. induction n as [|n IH]; cbn [lz_copy]; [lia|]. rewrite length_app. cbn [length]. lia. Qed.

Lemma token_out_grows t n out : token_ok t n → zlen out < zlen (token_out t out) ≤ zlen out + 289.
Proof using Type.
  destruct t as [b|z x d y]; cbn [token_ok token_out].
  - intros _. rewrite length_app. cbn [length]. lia.
  - intros (Hz & _ & Hx & _). rewrite length_lz_copy.
    destruct (extra_small (z - 257) ltac:(lia)) as [He Hb]. pose proof (length_base_pos (z - 257) ltac:(lia)) as Hb3.
    generalize dependent (stbi__zlength_extra.[z - 257]).
    generalize dependent (stbi__zlength_base.[z - 257]). intros b Hb Hb3 e Hx He.
    assert (2 ^ e ≤ 2 ^ 5) by (apply Z.pow_le_mono_r; lia). lia.
Qed.

Lemma tokens_fields_ok ts out : tokens_ok ts out → Forall field_ok (tokens_fields ts).
Proof using Hll Hld.
  revert out. induction ts as [|t ts IH]; intros out; cbn; [constructor|]. intros [Ht Hts].
  apply Forall_app. split; [by eapply token_fields_ok|by eapply IH].
Qed.

Lemma tokens_out_grows ts out : tokens_ok ts out → zlen out + zlen ts ≤ zlen (tokens_out ts out).
Proof using Type.
  revert out. induction ts as [|t ts IH]; intros out; cbn [tokens_ok tokens_out foldl length]; [lia|].
  intros [Ht Hts]. specialize (IH _ Hts). unfold tokens_out in IH.
  pose proof (token_out_grows t _ out Ht). lia.
Qed.
End tokens.

Lemma match_small z d : 257 ≤ z < 286 → 0 ≤ d < 30 →
  0 ≤ stbi__zlength_extra.[z - 257] ≤ 13 ∧ 3 ≤ stbi__zlength_base.[z - 257] ∧
  0 ≤ stbi__zdist_extra.[d] ≤ 13 ∧ 1 ≤ stbi__zdist_base.[d].
Proof using Type.
  intros Hz Hd. destruct (extra_small (z - 257) ltac:(lia)) as [He _].
  pose proof (length_base_pos (z - 257) ltac:(lia)) as Hb. destruct (dist_small d Hd) as [He' Hb'].
  generalize dependent (stbi__zlength_extra.[z - 257]). intros. split; [lia|]. done.
Qed.

(** ** Room *)
Section run.
Context `{Env : StbiEnv}.
Hypothesis Hrich : ∀ n, 0 ≤ n < 2 ^ 32 → malloc_ok n = true.

Lemma zexpand_rich a pos n : out_ok a → z_expandable a = true → 0 ≤ pos → 0 ≤ n → pos + n ≤ 2 ^ 31 →
  awp_ok (stbi__zexpand pos n) a (λ _ a', grown a a' pos n).
Proof using Hrich.
  intros Hok Hex Hp Hn Hle. unfold stbi__zexpand. specialize (Hok Hex).
  awp_step. awp_step. awp_step. awp_step. awp_step. apply awp_ok_pass; [cbn; by rewrite Hex|].
  cbn [zout zout_start set_zout]. rewrite (u32_small pos), (u32_small n), (u32_small (zlen _)) by lia.
  awp_step. apply awp_ok_pass; [apply Z.ltb_ge; unfold UINT_MAX; lia|].
  rewrite (u32_small (pos + n)) by lia. awp_step. unfold awp_ok.
  apply double_limit; [lia|lia|lia|]. intros l Hl Hle'. cbn beta iota. rewrite Hrich by lia.
  awp_step. eexists. split; [reflexivity|]. rewrite length_app, length_malloc. lia.
Qed.

Lemma room_rich a full pos n : out_ok a → z_expandable a = true → 0 ≤ pos → 0 ≤ n → pos + n ≤ 2 ^ 31 →
  (full = false → pos + n ≤ zlen (zout_start a)) →
  awp_ok (room full pos n) a (λ pos' a', pos' = pos ∧ has_room a a' pos n).
Proof using Hrich.
  intros Hok Hex Hp Hn Hle Hf. unfold room. destruct full.
  - awp_step. eapply awp_ok_mono; [by apply zexpand_rich|]. intros u a' Hg. awp_step.
    split; [by destruct Hg as (? & -> & _)|by right].
  - awp_step. split; [done|]. left. auto.
Qed.

Lemma room_keeps a a' pos n : has_room a a' pos n →
  z_expandable a' = z_expandable a ∧ bits_left a' = bits_left a ∧ hit_zeof_once a' = hit_zeof_once a ∧
  bits_value a' = bits_value a.
Proof using Type. by intros [[-> _]|[_ (? & -> & _)]]. Qed.

(** ** One token *)
Section block.
Variables (ll ld : list Z) (M : Z).
Hypotheses (HM : 2 ^ 32 ≤ M).

(** The decoder stands in a block at [pos], with [rest] to come. *)
Record run_state (k pos rest : Z) (out : list Z) (a : stbi__zbuf) : Prop := {
  run_block : block_ok ll ld M a;
  run_expand : z_expandable a = true;
  run_pos : 0 ≤ pos ≤ zlen (zout_start a);
  run_live : live k a;
  run_rest : bits_value a = rest;
  run_out : take (Z.to_nat pos) (zout_start a) = out
}.

Lemma run_frame k k' pos rest rest' out a a' : run_state k pos rest out a →
  bits_ok a' → frame a a' → live k' a' → bits_value a' = rest' → run_state k' pos rest' out a'.
Proof using Type.
  intros [] Hb Hf Hl Hr. pose proof Hf as (?&?&E1&?&E2&?&?).
  split; rewrite ?E1, ?E2; try done. by eapply block_frame.
Qed.

Lemma run_out_len k pos rest out a : run_state k pos rest out a → zlen out = pos.
Proof using Type. intros []. subst out. by apply length_take_out. Qed.

Lemma run_write k pos pos' rest out out' a o : run_state k pos rest out a →
  length o = length (zout_start a) → 0 ≤ pos' ≤ zlen o → take (Z.to_nat pos') o = out' →
  run_state k pos' rest out' (set_zout o (zout a) a).
Proof using Type.
  intros [] Hl Hp Ho. split; try done. by apply block_write.
Qed.

Lemma run_room k pos rest out a a' n : run_state k pos rest out a → has_room a a' pos n →
  run_state k pos rest out a' ∧ pos + n ≤ zlen (zout_start a').
Proof using HM.
  intros [] Hr. destruct (room_keeps _ _ _ _ Hr) as (E1 & E2 & E3 & E4).
  destruct (block_room ll ld M HM a a' pos n run_block0 run_pos0 Hr) as (Hok & Hs & Hl & Ht).
  split; [|lia]. split; [done|by rewrite E1| |..].
  - destruct Hr as [[-> _]|[_ (junk & -> & _)]]; [done|]. cbn. rewrite length_app. lia.
  - unfold live. by rewrite E2, E3.
  - by rewrite E4.
  - by rewrite Ht.
Qed.

Lemma huffman_literal k pos rest out a b : coded ll b → 0 ≤ b < 256 → 16 ≤ k → pos < 2 ^ 31 →
  run_state (ll.[b] + k) pos (bits_val [symbol_field ll b] + 2 ^ bits_len [symbol_field ll b] * rest) out a →
  awp_ok (huffman_step pos) a (λ c a', c = Next (pos + 1) ∧ run_state k (pos + 1) rest (out ++ [b]) a').
Proof using HM Hrich.
  intros Hc Hb Hk Hpos Hrun. pose proof Hrun as [Hok Hex Hp Hl Hr Ho].
  unfold huffman_step. awp_step. awp_step. awp_step.
  eapply awp_ok_mono; [exact (decode_run a k rest (block_bits _ _ _ _ Hok) _ _ b (block_length _ _ _ _ Hok) Hc Hk Hr Hl)|].
  intros r a1 (-> & Hb1 & Hf1 & Hl1 & Hr1).
  pose proof (run_frame _ _ _ _ _ _ _ _ Hrun Hb1 Hf1 Hl1 Hr1) as Hrun1.
  rewrite (proj2 (Z.ltb_lt b 256)) by lia.
  awp_step. apply awp_ok_pass; [apply Z.ltb_ge; lia|]. awp_step. awp_step. awp_step.
  pose proof Hrun1 as [Hok1 Hex1 Hp1 _ _ _].
  eapply awp_ok_mono; [apply (room_rich a1 _ pos 1); [by eapply block_out|done|lia|lia|lia|]|].
  { intros Hc1. apply Z.leb_gt in Hc1. lia. }
  intros pos' a2 [-> Hroom]. destruct (run_room _ _ _ _ _ _ _ Hrun1 Hroom) as [Hrun2 Hin].
  awp_step. awp_step. awp_step. awp_step. rewrite wr_ok by lia. cbn [wp].
  awp_step. awp_step. awp_step. split; [done|].
  eapply run_write; [exact Hrun2|apply length_zset|rewrite length_zset; lia|].
  rewrite take_zset by lia. by rewrite (run_out _ _ _ _ _ Hrun2).
Qed.

Lemma huffman_end k pos rest out a : coded ll 256 → 16 ≤ k →
  run_state (ll.[256] + k) pos (bits_val [symbol_field ll 256] + 2 ^ bits_len [symbol_field ll 256] * rest) out a →
  awp_ok (huffman_step pos) a (λ c a', c = Return () ∧ zout a' = pos ∧ run_state k pos rest out a').
Proof using Type.
  intros Hc Hk Hrun. pose proof Hrun as [Hok Hex Hp Hl Hr Ho].
  unfold huffman_step. awp_step. awp_step. awp_step.
  eapply awp_ok_mono; [exact (decode_run a k rest (block_bits _ _ _ _ Hok) _ _ 256 (block_length _ _ _ _ Hok) Hc Hk Hr Hl)|].
  intros r a1 (-> & Hb1 & Hf1 & Hl1 & Hr1).
  pose proof (run_frame _ _ _ _ _ _ _ _ Hrun Hb1 Hf1 Hl1 Hr1) as [Hok1 Hex1 Hp1 _ _ Ho1].
  change (256 <? 256) with false. change (256 =? 256) with true. cbv iota.
  awp_step. awp_step. awp_step. awp_step. awp_step. apply awp_ok_pass.
  { destruct Hl1 as [Hh _]. cbn. by rewrite Hh. }
  awp_step. split; [done|]. split; [done|]. split; try done. by apply block_write.
Qed.

(** The fields of a match, one after the other. *)
Lemma begins_two a f g fs rest : Forall field_ok (f :: g :: fs) → begins a (f :: g :: fs) rest →
  begins a [f] (bits_val (g :: fs) + 2 ^ bits_len (g :: fs) * rest).
Proof using Type. intros Hf. apply begins_cons; by apply Forall_cons in Hf as []. Qed.

Lemma match_run z x d y k pos rest out a : token_ok ll ld (Match z x d y) pos → 16 ≤ k →
  pos + 289 < 2 ^ 31 →
  run_state (stbi__zlength_extra.[z - 257] + (ld.[d] + (stbi__zdist_extra.[d] + k))) pos
    (bits_val (tail (token_fields ll ld (Match z x d y))) +
     2 ^ bits_len (tail (token_fields ll ld (Match z x d y))) * rest) out a →
  awp_ok (match_symbol z pos) a (λ pos' a', pos < pos' ≤ pos + 289 ∧
    run_state k pos' rest (token_out (Match z x d y) out) a').
Proof using HM Hrich.
  intros Htok Hk Hpos Hrun. cbn [token_fields tail] in Hrun.
  pose proof Htok as (Hz & _ & Hx & Hd & Hcd & Hy & Hdist).
  pose proof Hrun as [Hok Hex Hp Hl Hr Ho].
  destruct (block_lengths _ _ _ _ Hok) as [Hll Hld].
  pose proof (token_out_grows ll ld _ _ out (eq_ind_r (token_ok ll ld _) Htok (run_out_len _ _ _ _ _ Hrun))) as Hgrow.
  pose proof (token_fields_ok ll ld Hll Hld _ _ Htok) as Hfs. cbn [token_fields] in Hfs.
  apply Forall_cons in Hfs as [_ Hfs]. pose proof Hfs as Hfs1. apply Forall_cons in Hfs1 as [_ Hfs1].
  cbn [token_out] in *. rewrite length_lz_copy in Hgrow.
  unfold match_symbol. awp_step. apply awp_ok_pass; [apply Z.leb_gt; lia|].
  awp_step. awp_step. rewrite rd_ok by (cbn; lia). cbn [wp].
  awp_step. awp_step. rewrite rd_ok by (cbn; lia). cbn [wp].
  set (e := stbi__zlength_extra.[z - 257]) in *. set (b := stbi__zlength_base.[z - 257]) in *.
  set (e' := stbi__zdist_extra.[d]) in *. set (b' := stbi__zdist_base.[d]) in *.
  assert (0 ≤ e ≤ 13 ∧ 3 ≤ b ∧ 0 ≤ e' ≤ 13 ∧ 1 ≤ b') as (He & Hb3 & He' & Hb').
  { by apply match_small. }
  awp_step. eapply awp_ok_mono; [apply (extra_run a (ld.[d] + (e' + k))
    (bits_val [symbol_field ld d; (y, e')] + 2 ^ bits_len [symbol_field ld d; (y, e')] * rest)
    (block_bits _ _ _ _ Hok) e b x);
    [exact He|split; [exact (proj1 He)|exact Hx]|by apply begins_two|exact Hl]|].
  intros len a1 (-> & Hb1 & Hf1 & Hl1 & Hr1).
  pose proof (run_frame _ _ _ _ _ _ _ _ Hrun Hb1 Hf1 Hl1 Hr1) as Hrun1. clear Hr Hl Ho Hok.
  pose proof Hrun1 as [Hok1 _ _ _ _ _].
  awp_step. awp_step. awp_step.
  eapply awp_ok_mono; [apply (decode_run a1 (e' + k) (bits_val [(y, e')] + 2 ^ bits_len [(y, e')] * rest)
    Hb1 ld (z_distance a1) d (block_distance _ _ _ _ Hok1) Hcd); [lia|by apply begins_two|exact Hl1]|].
  intros r a2 (-> & Hb2 & Hf2 & Hl2 & Hr2).
  pose proof (run_frame _ _ _ _ _ _ _ _ Hrun1 Hb2 Hf2 Hl2 Hr2) as Hrun2.
  awp_step. apply awp_ok_pass.
  { apply orb_false_iff. split; [apply Z.ltb_ge|apply Z.leb_gt]; lia. }
  awp_step. awp_step. rewrite rd_ok by (cbn; lia). cbn [wp].
  awp_step. awp_step. rewrite rd_ok by (cbn; lia). cbn [wp].
  fold e' b'.
  awp_step. eapply awp_ok_mono; [apply (extra_run a2 k rest Hb2 e' b' y); [exact He'|split; [exact (proj1 He')|exact Hy]| |exact Hl2]|].
  { unfold begins. exact Hr2. }
  intros dist a3 (-> & Hb3' & Hf3 & Hl3 & Hr3).
  pose proof (run_frame _ _ _ _ _ _ _ _ Hrun2 Hb3' Hf3 Hl3 Hr3) as Hrun3.
  pose proof Hrun3 as [Hok3 Hex3 Hp3 _ _ _].
  pose proof (run_out_len _ _ _ _ _ Hrun3) as Hlen.
  awp_step. apply awp_ok_pass; [apply Z.ltb_ge; lia|]. awp_step. awp_step. awp_step.
  eapply awp_ok_mono; [apply (room_rich a3 _ pos (b + x)); [by eapply block_out|done|lia|lia|lia|]|].
  { intros Hc1. apply Z.ltb_ge in Hc1. lia. }
  intros pos' a4 [-> Hroom]. destruct (run_room _ _ _ _ _ _ _ Hrun3 Hroom) as [Hrun4 Hin].
  awp_step. awp_step. awp_step. awp_step. apply copy_match_wp; [lia|lia|lia|].
  intros o Hlo Hcopy. awp_step. awp_step. awp_step. split; [lia|].
  eapply run_write; [exact Hrun4|exact Hlo|rewrite Hlo; lia|].
  by rewrite Hcopy, (run_out _ _ _ _ _ Hrun4).
Qed.

Lemma huffman_match z x d y k pos rest out a : token_ok ll ld (Match z x d y) pos → 16 ≤ k →
  pos + 289 < 2 ^ 31 →
  run_state (bits_len (token_fields ll ld (Match z x d y)) + k) pos
    (bits_val (token_fields ll ld (Match z x d y)) +
     2 ^ bits_len (token_fields ll ld (Match z x d y)) * rest) out a →
  awp_ok (huffman_step pos) a (λ c a', ∃ pos', c = Next pos' ∧
    run_state k pos' rest (token_out (Match z x d y) out) a').
Proof using HM Hrich.
  intros Htok Hk Hpos Hrun. pose proof Hrun as [Hok Hex Hp Hl Hr Ho].
  destruct (block_lengths _ _ _ _ Hok) as [Hll Hld].
  pose proof (token_fields_ok ll ld Hll Hld _ _ Htok) as Hfs.
  pose proof Htok as (Hz & Hcz & _).
  set (tl := tail (token_fields ll ld (Match z x d y))) in *.
  assert (token_fields ll ld (Match z x d y) = symbol_field ll z :: tl) as E by done.
  assert (bits_len tl = stbi__zlength_extra.[z - 257] + (ld.[d] + (stbi__zdist_extra.[d] + 0))) as El by done.
  rewrite E in Hr, Hl, Hfs. pose proof Hfs as Hft. apply Forall_cons in Hft as [Hf0 Hft].
  pose proof (bits_len_nonneg _ Hft) as Hn.
  unfold huffman_step. awp_step. awp_step. awp_step.
  assert (live (ll.[z] + (bits_len tl + k)) a) as Hl'.
  { cbn in Hl. fold (bits_len tl) in Hl. by rewrite Z.add_assoc. }
  eapply awp_ok_mono; [apply (decode_run a (bits_len tl + k) (bits_val tl + 2 ^ bits_len tl * rest)
    (block_bits _ _ _ _ Hok) ll _ z (block_length _ _ _ _ Hok) Hcz); [lia|exact (proj1 (begins_cons a _ tl rest Hf0 Hft) Hr)|exact Hl']|].
  intros r a1 (-> & Hb1 & Hf1 & Hl1 & Hr1).
  pose proof (run_frame _ _ _ _ _ _ _ _ Hrun Hb1 Hf1 Hl1 Hr1) as Hrun1.
  rewrite (proj2 (Z.ltb_ge z 256)), (proj2 (Z.eqb_neq z 256)) by lia.
  awp_step. eapply awp_ok_mono; [apply (match_run z x d y k pos rest out); [done|done|done|]|].
  { fold tl. rewrite El, Z.add_0_r, <- !Z.add_assoc in Hrun1. rewrite El, Z.add_0_r. exact Hrun1. }
  intros pos' a2 [_ Hrun2]. awp_step. by exists pos'.
Qed.

Lemma begins_front f fs rest : Forall field_ok f → Forall field_ok fs →
  bits_val (f ++ fs) + 2 ^ bits_len (f ++ fs) * rest =
  bits_val f + 2 ^ bits_len f * (bits_val fs + 2 ^ bits_len fs * rest).
Proof using Type.
  intros Hf Hfs. rewrite bits_val_app, bits_len_app by done.
  pose proof (bits_len_nonneg f Hf). pose proof (bits_len_nonneg fs Hfs).
  rewrite Z.pow_add_r by lia. lia.
Qed.

Lemma tokens_run ts k pos rest out a fuel : tokens_ok ll ld ts out → coded ll 256 → 16 ≤ k →
  zlen (tokens_out ts out) + 289 < 2 ^ 31 → (length ts < fuel)%nat →
  run_state (bits_len (tokens_fields ll ld ts ++ [symbol_field ll 256]) + k) pos
    (bits_val (tokens_fields ll ld ts ++ [symbol_field ll 256]) +
     2 ^ bits_len (tokens_fields ll ld ts ++ [symbol_field ll 256]) * rest) out a →
  awp_ok (a_loop fuel huffman_step pos) a (λ r a', r = Gave () ∧
    zout a' = zlen (tokens_out ts out) ∧ run_state k (zlen (tokens_out ts out)) rest (tokens_out ts out) a').
Proof using HM Hrich.
  intros Hts Hend Hk Hsize. revert pos out a fuel Hts Hsize.
  induction ts as [|t ts IH]; intros pos out a fuel Hts Hsize Hfuel Hrun;
    (destruct fuel as [|fuel]; [cbn in Hfuel; lia|]); cbn [a_loop].
  - cbn [tokens_out foldl]. rewrite (run_out_len _ _ _ _ _ Hrun). awp_step.
    eapply awp_ok_mono; [apply (huffman_end k pos rest out); [done|done|]|].
    { cbn in Hrun. cbn. rewrite Z.add_0_r in *. exact Hrun. }
    intros c a' (-> & Hz & Hrun'). by awp_step.
  - cbn [tokens_ok] in Hts. destruct Hts as [Ht Hts]. cbn [length] in Hfuel.
    destruct (block_lengths _ _ _ _ (run_block _ _ _ _ _ Hrun)) as [Hll Hld].
    pose proof (token_fields_ok ll ld Hll Hld _ _ Ht) as Hft.
    pose proof (tokens_fields_ok ll ld Hll Hld _ _ Hts) as Hfts.
    assert (Forall field_ok (tokens_fields ll ld ts ++ [symbol_field ll 256])) as Hfs
      by (apply Forall_app; split; [done|repeat constructor; by apply symbol_field_ok]).
    pose proof (bits_len_nonneg _ Hfs) as Hn.
    set (tail := tokens_fields ll ld ts ++ [symbol_field ll 256]) in *.
    assert (tokens_fields ll ld (t :: ts) ++ [symbol_field ll 256] = token_fields ll ld t ++ tail) as E
      by (unfold tail; cbn [tokens_fields flat_map]; by rewrite app_assoc).
    rewrite E, begins_front, bits_len_app, <- Z.add_assoc in Hrun by done. clear E.
    change (tokens_out (t :: ts) out) with (tokens_out ts (token_out t out)) in *.
    pose proof (tokens_out_grows ll ld _ _ Hts) as Hg. pose proof (token_out_grows ll ld _ _ out Ht) as Hg1.
    pose proof (run_out_len _ _ _ _ _ Hrun) as Hlen.
    awp_step. apply (awp_ok_mono _ _ (λ c a', ∃ pos', c = Next pos' ∧
      run_state (bits_len tail + k) pos' (bits_val tail + 2 ^ bits_len tail * rest) (token_out t out) a')).
    + destruct t as [b|z x d y].
      * destruct Ht as [Hb Hc]. eapply awp_ok_mono; [apply (huffman_literal (bits_len tail + k) pos (bits_val tail + 2 ^ bits_len tail * rest) out a b);
          [done|done|lia|lia|]|].
        { cbn [token_fields] in Hrun. cbn in Hrun |- *. rewrite Z.add_0_r in *. exact Hrun. }
        intros c a' [-> H]. by exists (pos + 1).
      * eapply awp_ok_mono; [apply (huffman_match z x d y (bits_len tail + k) pos (bits_val tail + 2 ^ bits_len tail * rest) out a);
          [by rewrite <- Hlen|lia|lia|exact Hrun]|]. done.
    + intros c a' (pos' & -> & Hrun'). apply (IH pos'); [done|done|lia|done].
Qed.
End block.
End run.

(** ** Blocks *)
Lemma fixed_lengths_ok : lengths_ok stbi__zdefault_length ∧ lengths_ok stbi__zdefault_distance.
Proof.
  assert (∀ lens, Forall (λ s, 0 ≤ s ≤ 15) lens →
    forallb (λ l, (cnt lens l =? 0) || (fc lens l + cnt lens l <=? 2 ^ l)) (seqZ 1 15) = true →
    lengths_ok lens) as H.
  { intros lens Hf Hb. split; [done|]. intros l Hl. rewrite forallb_forall in Hb.
    specialize (Hb l). rewrite orb_true_iff, Z.eqb_eq, Z.leb_le in Hb. apply Hb.
    apply list_elem_of_In, elem_of_seqZ. lia. }
  split; apply H; try (by vm_compute).
  - unfold stbi__zdefault_length. rewrite !Forall_app. repeat split; apply Forall_replicate; lia.
  - apply Forall_replicate. lia.
Qed.

(** A block as an encoder sees it. *)
Inductive zblock : Type :=
| Fixed (ts : list token)
| Stored (bytes : list Z).

Abbreviation fll := stbi__zdefault_length.
Abbreviation fld := stbi__zdefault_distance.

(** A stored block begins at a byte boundary here, and is padded with zeros. *)
Definition block_fields (final : bool) (b : zblock) : list field :=
  (Z.b2z final, 1) ::
  match b with
  | Fixed ts => (1, 2) :: tokens_fields fll fld ts ++ [symbol_field fll 256]
  | Stored l => (0, 2) :: (0, 5) :: (zlen l, 16) :: (65535 - zlen l, 16) :: ((λ x, (x, 8)) <$> l)
  end.

Definition block_out (b : zblock) (out : list Z) : list Z :=
  match b with Fixed ts => tokens_out ts out | Stored l => out ++ l end.

Section blocks.
Context `{Env : StbiEnv}.
Hypothesis Hrich : ∀ n, 0 ≤ n < 2 ^ 32 → malloc_ok n = true.
Variable M : Z.
Hypothesis HM : 2 ^ 32 ≤ M.

(** Between blocks. *)
Record between (k rest : Z) (out : list Z) (a : stbi__zbuf) : Prop := {
  btw_ok : zlib_ok M a;
  btw_expand : z_expandable a = true;
  btw_pos : 0 ≤ zout a ≤ zlen (zout_start a);
  btw_live : live k a;
  btw_rest : bits_value a = rest;
  btw_out : take (Z.to_nat (zout a)) (zout_start a) = out
}.

Lemma between_frame k k' rest rest' out a a' : between k rest out a →
  bits_ok a' → frame a a' → live k' a' → bits_value a' = rest' → between k' rest' out a'.
Proof using Type.
  intros [] Hb Hf Hl Hr. pose proof Hf as (?&?&E1&E0&E2&?&?).
  split; rewrite ?E1, ?E2, ?E0; try done. by eapply zlib_frame.
Qed.

Lemma between_receive k n x rest out a : 0 ≤ n ≤ 24 → field_ok (x, n) →
  between (n + k) (bits_val [(x, n)] + 2 ^ bits_len [(x, n)] * rest) out a →
  awp_ok (stbi__zreceive n) a (λ r a', r = x ∧ between k rest out a' ∧
    num_bits a' mod 8 = (num_bits a - n) mod 8).
Proof using Type.
  intros Hn Hx Hb. pose proof Hb as [Hok _ _ Hl Hr _].
  eapply awp_ok_mono; [exact (receive_run a k rest (zlib_bits _ _ Hok) n x Hn Hx Hr Hl)|].
  intros r a' (-> & Hb' & Hf & Hl' & Hr' & Hn'). split; [done|]. split; [by eapply between_frame|done].
Qed.

(** *** A block of symbols with the fixed codes *)
Lemma build_table_run z sizelist off num a : zshape z → 0 ≤ off → 0 ≤ num ≤ 288 →
  off + num ≤ zlen sizelist → lengths_ok (lens_of sizelist off num) →
  awp_ok (build_table z sizelist off num) a (λ z' a', a' = a ∧ table_ok (lens_of sizelist off num) z').
Proof using Type.
  intros Hz Ho Hn Hin Hl. unfold awp_ok, awp, build_table.
  pose proof (zbuild_huffman_wp sizelist off num Ho Hn Hin (proj1 Hl) z Hz) as H. unfold awp in H.
  destruct (stbi__zbuild_huffman sizelist off num z) as [[[[]|e] z']| |]; cbn in *; try done.
  by destruct H.
Qed.

Lemma fixed_tables_run k rest out a : between k rest out a →
  awp_ok (a ← get;
       zl ← build_table (z_length a) stbi__zdefault_length 0 STBI__ZNSYMS;
       modify (λ a, set_tables zl (z_distance a) a);;
       zd ← build_table (z_distance a) stbi__zdefault_distance 0 32;
       modify (λ a, set_tables (z_length a) zd a)) a
    (λ _ a', run_state fll fld M k (zout a) rest out a' ∧ zout a' = zout a).
Proof using Type.
  intros [Hok Hex Hp Hl Hr Ho]. pose proof Hok as [zlib_bits0 ????].
  destruct fixed_lengths_ok as [Hll Hld].
  awp_step. awp_step. awp_step. eapply awp_ok_mono; [apply build_table_run|].
  { done. } { lia. } { by unfold STBI__ZNSYMS. } { by vm_compute. }
  { by rewrite take_default_length. }
  intros zl a1 [-> Hzl]. rewrite take_default_length in Hzl.
  awp_step. awp_step. awp_step. eapply awp_ok_mono; [apply build_table_run|].
  { done. } { lia. } { lia. } { by vm_compute. } { by rewrite take_default_distance. }
  intros zd a1 [-> Hzd]. rewrite take_default_distance in Hzd.
  awp_step. split; [|done]. split; try done.
  split; [|exact Hzl|exact Hzd].
  split; [by destruct zlib_bits0; split|by eapply table_shape|by eapply table_shape|done|done].
Qed.

(** *** The bytes of a stored block *)
Abbreviation byte_fields l := ((λ x : Z, (x, 8)) <$> l).

Lemma byte_fields_val l : bits_val (byte_fields l) = value_le l ∧ bits_len (byte_fields l) = 8 * zlen l.
Proof using Type.
  induction l as [|b l [IH1 IH2]]; [done|]. cbn [fmap list_fmap bits_val bits_len value_le foldr length fst snd].
  fold (bits_val (byte_fields l)) (bits_len (byte_fields l)) (value_le l). rewrite IH1, IH2.
  change (2 ^ 8) with 256. split; lia.
Qed.

Lemma bytes_of_value l r : Forall is_byte l →
  bytes_of (length l) (value_le l + 2 ^ (8 * zlen l) * r) = l ∧
  (value_le l + 2 ^ (8 * zlen l) * r) / 2 ^ (8 * zlen l) = r.
Proof using Type.
  intros Hl. split.
  - induction Hl as [|b l [Hb0 Hb1] Hl IH]; [done|]. cbn [length bytes_of value_le foldr].
    fold (value_le l). replace (8 * Z.of_nat (S (length l))) with (8 + 8 * zlen l) by lia.
    rewrite Z.pow_add_r by lia. change (2 ^ 8) with 256.
    replace (b + 256 * value_le l + 256 * 2 ^ (8 * zlen l) * r)
      with (b + (value_le l + 2 ^ (8 * zlen l) * r) * 256) by lia.
    rewrite Z.mod_add, Z.div_add, Z.mod_small, (Z.div_small b) by lia. by rewrite Z.add_0_l, IH.
  - pose proof (value_le_nonneg l Hl). pose proof (value_le_bound l Hl).
    rewrite (Z.mul_comm (2 ^ _)), Z.div_add, Z.div_small by lia. lia.
Qed.

Lemma lxor_16 len : 0 ≤ len < 65536 → Z.lxor len 0xffff = 65535 - len.
Proof using Type.
  intros Hl. change 65535 with (Z.ones 16).
  assert (∀ n, 16 ≤ n → Z.testbit len n = false) as Hhigh.
  { intros n Hn. destruct (decide (len = 0)) as [->|]; [apply Z.bits_0|]. apply Z.bits_above_log2; [lia|].
    apply Z.log2_lt_pow2; [lia|]. pose proof (Z.pow_le_mono_r 2 16 n). lia. }
  rewrite Z.sub_nocarry_ldiff.
  - apply Z.bits_inj'. intros n Hn. rewrite Z.lxor_spec, Z.ldiff_spec, Z.testbit_ones_nonneg by lia.
    destruct (Z.ltb_spec n 16); [by destruct (Z.testbit len n)|]. by rewrite Hhigh by lia.
  - apply Z.bits_inj'. intros n Hn. rewrite Z.ldiff_spec, Z.testbit_ones_nonneg, Z.bits_0 by lia.
    destruct (Z.ltb_spec n 16); [apply andb_false_r|]. by rewrite Hhigh by lia.
Qed.

Lemma stored_copy_run len k rest l a : zlen l = len → Forall is_byte l → len < 2 ^ 16 →
  ∀ out, between (8 * len + k) (value_le l + 2 ^ (8 * len) * rest) out a → num_bits a = 0 → 0 ≤ k →
  zlen (out ++ l) < 2 ^ 31 →
  awp_ok ((if zlen (zout_start a) <? zout a + len then stbi__zexpand (zout a) len else mret ());;
       a ← get;
       out ← lift (memcpy (zout_start a) (zout a) (zin a) (zbuffer a) len);
       put (set_zout out (zout a + len) (set_zbuffer (zbuffer a + len) a))) a
    (λ _ a', between k rest (out ++ l) a' ∧ num_bits a' = 0).
Proof using Hrich HM.
  intros Hlen Hb H16 out Hbt Hn Hk Hsize. pose proof Hbt as [Hok Hex Hp Hl Hr Ho].
  assert (zlen out = zout a) as Hol by (subst out; by apply length_take_out).
  rewrite length_app in Hsize.
  assert (zbuffer a + len ≤ zbuffer_end a) as Hin.
  { destruct Hl as [_ Hl]. unfold bits_left in Hl. lia. }
  eapply awp_ok_mono; [eapply awp_no_fail; [apply (stored_copy_spec M len a); done || lia|]|].
  - apply (no_fail_bind _ _ _ (λ _ _, True)).
    + destruct (Z.ltb_spec (zlen (zout_start a)) (zout a + len)); [|by awp_step].
      eapply awp_ok_mono; [apply (zexpand_rich Hrich a (zout a) len); [by destruct Hok|done|lia..]|]. done.
    + intros u s _. apply no_fail_pure; [apply no_fail_get|]. intros a1 s1.
      apply no_fail_pure; [apply no_fail_lift|]. intros. apply no_fail_put.
  - cbn beta. intros u a' (Hok' & Hp' & Hs' & Ho' & Hz' & Hn' & Hx' & Hl').
    apply (f_equal fst) in Hs'. cbn [stream fst advance] in Hs', Ho'. rewrite Hr in Hs', Ho'. subst len.
    destruct (bytes_of_value l rest Hb) as [E1 E2].
    rewrite E2 in Hs'. rewrite Nat2Z.id, E1, Ho in Ho'.
    split; [|done]. split; [done|congruence|done| |done|done].
    specialize (Hl' _ Hl). by replace (8 * zlen l + k - 8 * zlen l) with k in Hl' by lia.
Qed.

Lemma byte_fields_ok l : Forall is_byte l → Forall field_ok (byte_fields l).
Proof using Type. intros H. apply Forall_fmap. eapply Forall_impl; [exact H|]. intros x Hx. split; cbn; [lia|exact Hx]. Qed.

(** From the padding on. *)
Abbreviation stored_tail l := ((0, 5) :: (zlen l, 16) :: (65535 - zlen l, 16) :: byte_fields l).

Lemma stored_tail_value l rest : bits_val (stored_tail l) + 2 ^ bits_len (stored_tail l) * rest =
  2 ^ 5 * (zlen l + 2 ^ 16 * ((65535 - zlen l) + 2 ^ 16 * (value_le l + 2 ^ (8 * zlen l) * rest))) ∧
  bits_len (stored_tail l) = 37 + 8 * zlen l.
Proof using Type.
  destruct (byte_fields_val l) as [E1 E2]. cbn [bits_val bits_len foldr fst snd].
  fold (bits_val (byte_fields l)) (bits_len (byte_fields l)). rewrite E1, E2.
  replace (5 + (16 + (16 + 8 * zlen l))) with (37 + 8 * zlen l) by lia.
  rewrite Z.pow_add_r by lia. split; lia.
Qed.

Lemma stored_run k rest l out a : Forall is_byte l → zlen l < 2 ^ 16 → num_bits a mod 8 = 5 → 0 ≤ k →
  zlen (out ++ l) < 2 ^ 31 →
  between (bits_len (stored_tail l) + k)
    (bits_val (stored_tail l) + 2 ^ bits_len (stored_tail l) * rest) out a →
  awp_ok stbi__parse_uncompressed_block a (λ _ a', between k rest (out ++ l) a' ∧ num_bits a' = 0).
Proof using Hrich HM.
  intros Hl H16 H5 Hk Hsize Hbt. destruct (stored_tail_value l rest) as [Ev El]. rewrite Ev, El in Hbt.
  set (W := value_le l + 2 ^ (8 * zlen l) * rest) in *. clear Ev El.
  pose proof Hbt as [Hok Hex Hp Hlv Hr Ho].
  unfold stbi__parse_uncompressed_block. awp_step. awp_step. awp_step.
  eapply awp_ok_mono; [exact (align_spec a (zlib_bits _ _ Hok))|].
  intros u a1 (Hb1 & Hf1 & Hm1 & Hs1 & Hl1). specialize (Hl1 _ Hlv).
  assert ((stream a).2 = 5) as E5 by exact H5. rewrite E5 in Hs1, Hl1.
  set (s0 := advance 5 (stream a)) in *.
  assert (s0.1 = zlen l + 2 ^ 16 * ((65535 - zlen l) + 2 ^ 16 * W)) as Es0.
  { unfold s0, advance. cbn [fst stream]. rewrite Hr, Z.mul_comm, Z.div_mul by lia. done. }
  awp_step. eapply awp_ok_mono; [exact (drain_bits_spec a1 s0 (malloc_arr uninit 4) Hb1 Hm1 Hs1 (length_malloc uninit 4))|].
  intros [h j] a2 (Hb2 & Hf2 & Hn2 & Hj & Hh & Hs2 & Hl2). specialize (Hl2 _ Hl1).
  awp_step. awp_step. awp_step. apply awp_ok_pass; [by rewrite Hn2|].
  awp_step. eapply awp_ok_mono; [exact (header_bytes_spec a2 j h s0 Hb2 Hn2 Hj Hh Hs2)|].
  intros header a3 (Hb3 & Hf3 & Hn3 & Hh3 & Hs3 & Hl3).
  specialize (Hl3 (8 * zlen l + k) ltac:(lia)).
  replace (37 + 8 * zlen l + k - 5 - 8 * j) with (8 * zlen l + k + 8 * (4 - j)) in Hl2 by lia.
  specialize (Hl3 Hl2).
  assert (frame a a3) as Hf by (do 2 (etrans; [eassumption|]); done).
  destruct (header_values s0 header Hh3) as [Elen Enl]. pose proof (proj1 Hh3).
  rewrite Es0 in Elen, Enl.
  rewrite (Z.mul_comm (2 ^ 16)), Z.mod_add, Z.mod_small in Elen by lia.
  rewrite (Z.mul_comm (2 ^ 16)), Z.div_add, (Z.div_small (zlen l)), Z.add_0_l,
    (Z.mul_comm (2 ^ 16)), Z.mod_add, Z.mod_small in Enl by lia.
  awp_step. awp_step. rewrite rd_ok by lia. cbn [wp]. awp_step. awp_step. rewrite rd_ok by lia. cbn [wp].
  awp_step. awp_step. rewrite rd_ok by lia. cbn [wp]. awp_step. awp_step. rewrite rd_ok by lia. cbn [wp].
  rewrite Elen, Enl. awp_step. apply awp_ok_pass.
  { apply negb_false_iff, Z.eqb_eq. by rewrite lxor_16 by lia. }
  awp_step. awp_step. awp_step. apply awp_ok_pass.
  { apply Z.ltb_ge. destruct Hl3 as [_ Hl3]. unfold bits_left in Hl3. lia. }
  apply (stored_copy_run (zlen l) k rest l a3); [done|done|done| |done|done|done].
  eapply between_frame; [exact Hbt|done|done|done|].
  apply (f_equal fst) in Hs3. cbn [stream fst] in Hs3. rewrite Hs3. unfold advance. cbn [fst].
  rewrite Es0. replace (zlen l + 2 ^ 16 * (65535 - zlen l + 2 ^ 16 * W))
    with ((zlen l + 2 ^ 16 * (65535 - zlen l)) + W * 2 ^ 32) by lia.
  rewrite Z.div_add, Z.div_small by lia. lia.
Qed.

(** *** Any block *)
Definition block_fits (b : zblock) (out : list Z) (a : stbi__zbuf) : Prop :=
  match b with
  | Fixed ts => tokens_ok fll fld ts out
  | Stored l => Forall is_byte l ∧ zlen l < 2 ^ 16 ∧ num_bits a mod 8 = 0
  end.

Lemma zlib_block_run final b k rest out a fuel : 16 ≤ k → block_fits b out a →
  zlen (block_out b out) + 289 < 2 ^ 31 → zlen (block_out b out) < Z.of_nat fuel →
  between (bits_len (block_fields final b) + k)
    (bits_val (block_fields final b) + 2 ^ bits_len (block_fields final b) * rest) out a →
  awp_ok (zlib_block fuel) a (λ c a', c = (if final then Return () else Next ()) ∧
    between k rest (block_out b out) a' ∧ (if b is Stored _ then num_bits a' = 0 else True)).
Proof using Hrich HM.
  intros Hk Hfit Hsize Hfuel Hbt. destruct fixed_lengths_ok as [Hll Hld].
  assert (coded fll 256) as Hc256 by (split; [by vm_compute|by vm_compute]).
  set (tl := match b with
    | Fixed ts => tokens_fields fll fld ts ++ [symbol_field fll 256]
    | Stored l => stored_tail l end).
  set (ty := if b is Stored _ then 0 else 1 : Z).
  assert (block_fields final b = [(Z.b2z final, 1)] ++ [(ty, 2)] ++ tl) as E by (by destruct b).
  assert (Forall field_ok tl) as Htl.
  { unfold tl. destruct b as [ts|l]; cbn in Hfit.
    - apply Forall_app. split; [by eapply tokens_fields_ok|].
      apply Forall_cons_2; [apply (symbol_field_ok fll); assumption|apply Forall_nil_2].
    - destruct Hfit as (Hb & H16 & _). repeat (apply Forall_cons_2; [split; cbn; lia|]).
      by apply byte_fields_ok. }
  assert (field_ok (Z.b2z final, 1)) as Hf1 by (split; cbn; [lia|destruct final; cbn; lia]).
  assert (field_ok (ty, 2)) as Hf2 by (split; cbn; [lia|destruct b; cbn; lia]).
  pose proof (bits_len_nonneg _ Htl) as Hn.
  rewrite E, !begins_front, !bits_len_app, <- !Z.add_assoc in Hbt; [|repeat apply Forall_cons_2; done..].
  unfold zlib_block. awp_step. eapply awp_ok_mono; [apply between_receive; [lia|exact Hf1|exact Hbt]|].
  intros r a1 (-> & Hbt1 & Hn1).
  awp_step. eapply awp_ok_mono; [apply between_receive; [lia|exact Hf2|exact Hbt1]|].
  intros r a2 (-> & Hbt2 & Hn2).
  assert (∀ u : ctl unit unit, u = (if Z.b2z final =? 0 then Next () else Return ()) →
    u = if final then Return () else Next ()) as Hfin by (by destruct final).
  awp_step. destruct b as [ts|l]; cbn in ty, tl, Hfit.
  - change (ty =? 0) with false. change (ty =? 3) with false. change (ty =? 1) with true. cbv iota.
    awp_step. eapply awp_ok_mono; [exact (fixed_tables_run _ _ _ _ Hbt2)|].
    intros u a3 [Hrun Hz]. unfold stbi__parse_huffman_block. awp_step. awp_step. rewrite Hz.
    awp_step. eapply awp_ok_mono; [apply (tokens_run Hrich fll fld M HM ts k (zout a2) rest out);
      [done|done|done|done| |exact Hrun]|].
    { pose proof (tokens_out_grows fll fld _ _ Hfit). cbn [block_out] in Hfuel. lia. }
    intros r a4 (-> & Hz4 & Hrun4). awp_step. awp_step. split; [by apply Hfin|]. split; [|done].
    destruct Hrun4 as [[Hok4 _ _] ? ? ? ? ?]. split; rewrite ?Hz4; done.
  - change (ty =? 0) with true. cbv iota. destruct Hfit as (Hb & H16 & Ha).
    eapply awp_ok_mono; [apply (stored_run k rest l out a2); [done|done| |lia|cbn in Hsize; lia|exact Hbt2]|].
    { rewrite Hn2. clear - Hn1 Ha. Z.div_mod_to_equations. lia. }
    intros u a3 [Hbt3 Hn3]. awp_step. split; [by apply Hfin|done].
Qed.

(** ** A whole stream *)
Fixpoint blocks_fields (bs : list zblock) : list field :=
  match bs with
  | [] => []
  | [b] => block_fields true b
  | b :: bs => block_fields false b ++ blocks_fields bs
  end.

Definition blocks_out (bs : list zblock) (out : list Z) : list Z := foldl (λ out b, block_out b out) out bs.

(** Stored blocks come first or after each other, where the bytes begin. *)
Fixpoint blocks_ok (aligned : bool) (bs : list zblock) (out : list Z) : Prop :=
  match bs with
  | [] => True
  | b :: bs =>
      match b with
      | Fixed ts => tokens_ok fll fld ts out
      | Stored l => Forall is_byte l ∧ zlen l < 2 ^ 16 ∧ aligned = true
      end ∧ blocks_ok (if b is Stored _ then true else false) bs (block_out b out)
  end.

Lemma block_fields_ok final b out aligned : blocks_ok aligned [b] out → Forall field_ok (block_fields final b).
Proof using Type.
  destruct fixed_lengths_ok as [Hll Hld]. intros [Hb _].
  assert (field_ok (Z.b2z final, 1)) as Hf1 by (split; cbn; [lia|destruct final; cbn; lia]).
  destruct b as [ts|l]; apply Forall_cons_2; try exact Hf1.
  - apply Forall_cons_2; [split; cbn; lia|]. apply Forall_app. split; [by eapply tokens_fields_ok|].
    assert (coded fll 256) by (split; [by vm_compute|by vm_compute]).
    apply Forall_cons_2; [apply (symbol_field_ok fll); assumption|apply Forall_nil_2].
  - destruct Hb as (Hb & H16 & _). repeat (apply Forall_cons_2; [split; cbn; lia|]). by apply byte_fields_ok.
Qed.

Lemma blocks_fields_ok bs out aligned : blocks_ok aligned bs out → Forall field_ok (blocks_fields bs).
Proof using Type.
  revert out aligned. induction bs as [|b bs IH]; intros out aligned; [by constructor|].
  intros [Hb Hbs]. destruct bs as [|b' bs]; [by eapply (block_fields_ok true b out aligned)|].
  change (blocks_fields (b :: b' :: bs)) with (block_fields false b ++ blocks_fields (b' :: bs)).
  apply Forall_app. split; [by eapply (block_fields_ok false b out aligned)|by eapply IH].
Qed.

Lemma block_out_grows b out aligned : blocks_ok aligned [b] out → zlen out ≤ zlen (block_out b out).
Proof using Type.
  destruct b as [ts|l]; intros [Hb _]; cbn [block_out].
  - pose proof (tokens_out_grows fll fld _ _ Hb). lia.
  - rewrite length_app. lia.
Qed.

Lemma blocks_out_grows bs out aligned : blocks_ok aligned bs out → zlen out ≤ zlen (blocks_out bs out).
Proof using Type.
  revert out aligned. induction bs as [|b bs IH]; intros out aligned; [done|].
  intros [Hb Hbs]. specialize (IH _ _ Hbs). pose proof (block_out_grows b out aligned (conj Hb I)).
  change (blocks_out (b :: bs) out) with (blocks_out bs (block_out b out)). lia.
Qed.

Lemma blocks_run bs k rest out a fuel loops aligned : 16 ≤ k → bs ≠ [] → blocks_ok aligned bs out →
  (aligned = true → num_bits a mod 8 = 0) → (length bs ≤ loops)%nat →
  zlen (blocks_out bs out) + 289 < 2 ^ 31 → zlen (blocks_out bs out) < Z.of_nat fuel →
  between (bits_len (blocks_fields bs) + k)
    (bits_val (blocks_fields bs) + 2 ^ bits_len (blocks_fields bs) * rest) out a →
  awp_ok (a_loop loops (λ _ : unit, zlib_block fuel) ()) a (λ r a', r = Gave () ∧
    between k rest (blocks_out bs out) a').
Proof using Hrich HM.
  intros Hk Hne. revert out a loops aligned. induction bs as [|b bs IH]; intros out a loops aligned; [done|].
  intros Hok Hal Hloops Hsize Hfuel Hbt. destruct loops as [|loops]; [cbn in Hloops; lia|]. cbn [a_loop].
  pose proof Hok as [Hb Hbs]. pose proof (blocks_out_grows bs _ _ Hbs) as Hg.
  change (blocks_out (b :: bs) out) with (blocks_out bs (block_out b out)) in *.
  assert (block_fits b out a) as Hfit.
  { destruct b as [ts|l]; [exact Hb|]. destruct Hb as (H1 & H2 & H3). split; [done|]. split; [done|]. by apply Hal. }
  destruct bs as [|b' bs].
  - awp_step. eapply awp_ok_mono; [apply (zlib_block_run true b k rest out a fuel); done || lia|].
    intros c a' (-> & Hbt' & _). by awp_step.
  - pose proof (block_fields_ok false b out aligned (conj Hb I)) as Hf1.
    pose proof (blocks_fields_ok _ _ _ Hbs) as Hf2.
    pose proof (bits_len_nonneg _ Hf2).
    change (blocks_fields (b :: b' :: bs)) with (block_fields false b ++ blocks_fields (b' :: bs)) in Hbt.
    rewrite begins_front, bits_len_app, <- Z.add_assoc in Hbt by done.
    awp_step. eapply awp_ok_mono; [apply (zlib_block_run false b (bits_len (blocks_fields (b' :: bs)) + k)
      (bits_val (blocks_fields (b' :: bs)) + 2 ^ bits_len (blocks_fields (b' :: bs)) * rest) out a fuel);
      [|done| | |exact Hbt]; lia|].
    intros c a' (-> & Hbt' & Hn'). cbn in Hloops. eapply IH; [done|exact Hbs| |cbn; lia|done|done|exact Hbt'].
    destruct b; [done|]. intros _. by rewrite Hn'.
Qed.

Lemma header_run a rest : 0 ≤ zbuffer a ≤ zbuffer_end a → zbuffer_end a ≤ zlen (zin a) →
  zlib_header (input_left a) rest →
  awp_ok stbi__parse_zlib_header a (λ _ a', ∃ p, 0 ≤ p ≤ zbuffer_end a ∧ a' = set_zbuffer p a ∧
    input_left a' = rest).
Proof using Type.
  intros Hp He (cmf & flg & E & Hne & H1 & H2 & H3). unfold stbi__parse_zlib_header.
  awp_step. eapply awp_ok_mono; [by apply zget8_input|]. intros c1 a1 [E1 Ha1].
  rewrite E in Ha1. specialize (Ha1 ltac:(done)). injection Ha1 as <- Er1.
  awp_step. eapply awp_ok_mono; [apply zget8_input; subst a1; cbn; lia|]. intros c2 a2 [E2 Ha2].
  rewrite <- Er1 in Ha2. specialize (Ha2 ltac:(done)). injection Ha2 as <- Er2.
  assert (zbuffer a2 < zbuffer_end a2) as Hlt.
  { apply Z.nle_gt. intros Hc. apply Hne. rewrite Er2. unfold input_left. apply window_nil. done. }
  awp_step. awp_step. awp_step. apply awp_ok_pass; [by apply Z.leb_gt|].
  awp_step. apply awp_ok_pass; [by apply negb_false_iff, Z.eqb_eq|].
  awp_step. apply awp_ok_pass; [by apply negb_false_iff, Z.eqb_eq|].
  apply awp_ok_pass; [by apply negb_false_iff, Z.eqb_eq|].
  subst a1 a2. cbn [zbuffer zbuffer_end set_zbuffer] in *.
  eexists. split; [|split; [reflexivity|by rewrite Er2]]. lia.
Qed.

(** The decoder on a whole stream: [data] are the fields of the blocks and two
    bytes at least, after a header if there is one. *)
Lemma decode_stream_run bs data rest input len ph fuel initial_size : blocks_ok true bs [] → bs ≠ [] →
  Forall is_byte input → 0 ≤ len ≤ zlen input →
  (if ph : bool then zlib_header (take (Z.to_nat len) input) data else data = take (Z.to_nat len) input) →
  value_le data = bits_val (blocks_fields bs) + 2 ^ bits_len (blocks_fields bs) * rest →
  bits_len (blocks_fields bs) + 16 ≤ 8 * zlen data →
  zlen (blocks_out bs []) + 289 < 2 ^ 31 → zlen (blocks_out bs []) < Z.of_nat fuel →
  (length bs ≤ fuel)%nat → 0 < initial_size ≤ INT_MAX → initial_size ≤ M →
  ∃ out, stbi_zlib_decode_malloc_guesssize_headerflag fuel input len initial_size ph =
    Ok (Val (out, zlen (blocks_out bs []))) ∧ take (length (blocks_out bs [])) out = blocks_out bs [].
Proof using Hrich HM.
  intros Hok Hne Hb Hlen Hhead Hval Hbits Hsize Hfuel Hloops Hinit HiM.
  unfold stbi_zlib_decode_malloc_guesssize_headerflag, stbi__malloc.
  rewrite u64_small by (c_unfold; lia). rewrite Hrich by (c_unfold; lia).
  set (obuf := malloc_arr uninit initial_size).
  assert (zlen obuf = initial_size) as Hob by (unfold obuf; rewrite length_malloc; lia).
  assert (awp_ok (stbi__do_zlib fuel obuf true ph) (new_zbuf input len)
    (λ _ a, between 16 rest (blocks_out bs []) a)) as H.
  { unfold stbi__do_zlib, stbi__parse_zlib. awp_step. awp_step.
    match goal with |- awp _ ?x _ => set (a0 := x) end.
    assert (input_left a0 = take (Z.to_nat len) input) as Hin.
    { unfold input_left, window, a0. cbn [zin zbuffer zbuffer_end new_zbuf]. rewrite Z.sub_0_r.
      change (Z.to_nat 0) with 0%nat. by rewrite drop_0. }
    awp_step. apply (awp_ok_mono _ _ (λ _ a1, ∃ p, 0 ≤ p ≤ len ∧ a1 = set_zbuffer p a0 ∧ input_left a1 = data)).
    { destruct ph; [apply header_run; cbn; try lia; by rewrite Hin|].
      awp_step. exists 0. split; [lia|]. split; [done|]. by rewrite Hhead, <- Hin. }
    intros u a1 (p & Hp & -> & Hdata). set (a1 := set_zbuffer p a0) in *.
    awp_step. awp_step.
    destruct (fresh_ok a1) as [Hz Hst]; cbn; try done || lia; try apply junk_shape.
    { intros _. cbn. rewrite Hob. c_unfold; lia. }
    rewrite Hdata in Hst.
    awp_step. eapply awp_ok_mono; [apply (blocks_run bs 16 rest [] _ fuel fuel true); try done|].
    2: { intros r a2 [_ H]. by awp_step. }
    split; [| |cbn; lia| |apply (f_equal fst) in Hst; cbn [fst stream] in Hst; by rewrite Hst|done].
    - destruct Hz as [H1 H2 H3 H4 H5]. split; try done. cbn in H5 |- *. lia.
    - done.
    - split; [done|]. unfold bits_left. cbn.
      assert (zlen data ≤ len - p) as Hdl; [|lia].
      rewrite <- Hdata. unfold input_left. rewrite length_window; cbn; lia. }
  apply awp_ok_elim in H as (u & a & E & Hbt). unfold stbi__do_zlib in E |- *. rewrite E.
  pose proof Hbt as [_ _ Hp _ _ Ho]. cbn [mbind Res_bind].
  assert (zlen (blocks_out bs []) = zout a) as Hl by (rewrite <- Ho; by apply length_take_out).
  eexists. split; [by rewrite Hl|]. rewrite <- Ho at 2. f_equal. lia.
Qed.
End blocks.
