(* ===== verification/StbWriteZlib.v ===== *)
(** * stb_image_write: the zlib compressor (facet/gpu/stb_image_write.h, lines 827-1042)

    Growing arrays, the bit writer, the hash chains of the match finder, the
    compressor and its stored fallback, and the Adler checksum.  Pointers into
    the data are positions.  [stbiw__sb] is a stretchy buffer: its capacity and
    the items it holds; a null pointer is [None].  [STBIW_ASSERT] is enabled: a
    failed assertion ends the program, which is [fail "assert"]; a null result
    is [fail "outofmem"]. *)
From S2P Require Import Prelude StbMonad StbBase.

Record stbiw__sb := { stbiw__sbm : Z; sb_items : list Z }.
Definition stbiw__sbn (a : stbiw__sb) : Z := zlen (sb_items a).
Definition stbiw__sbcount (a : option stbiw__sb) : Z := from_option stbiw__sbn 0 a.

Definition stbiw__ZHASH : Z := 16384.

Definition lengthc : list Z :=
  [3;4;5;6;7;8;9;10;11;13;15;17;19;23;27;31;35;43;51;59;67;83;99;115;131;163;195;227;258;259].
Definition lengtheb : list Z :=
  [0;0;0;0;0;0;0;0;1;1;1;1;2;2;2;2;3;3;3;3;4;4;4;4;5;5;5;5;0].
Definition distc : list Z :=
  [1;2;3;4;5;7;9;13;17;25;33;49;65;97;129;193;257;385;513;769;1025;1537;2049;3073;4097;6145;8193;
   12289;16385;24577;32768].
Definition disteb : list Z :=
  [0;0;0;0;1;1;2;2;3;3;4;4;5;5;6;6;7;7;8;8;9;9;10;10;11;11;12;12;13;13].

(** [while (codebits--) { res = (res << 1) | (code & 1); code >>= 1; }] *)
Definition stbiw__zlib_bitrev (code codebits : Z) : Res Z :=
  fst <$> for_range 0 codebits (λ _ '(res, code),
    res ← i32 (Z.shiftl res 1);
    Ok (Z.lor res (Z.land code 1), Z.shiftr code 1)) (0, code).

(** How far the data at [a] and at [b] agree, up to [limit] and 258. *)
Definition stbiw__zlib_countm (data : list Z) (a b limit : Z) : Res Z :=
  r ← for_ctl (R := Empty_set) 0 (Z.min limit 258) (λ i _,
    x ← rd data (a + i); y ← rd data (b + i);
    Ok (if negb (x =? y) then Break i else Next (i + 1))) 0;
  Ok (fell r).

Definition stbiw__zhash (data : list Z) (p : Z) : Res Z :=
  d0 ← rd data p; d1 ← rd data (p + 1); d2 ← rd data (p + 2);
  let hash := u32 (d0 + Z.shiftl d1 8 + Z.shiftl d2 16) in
  let hash := Z.lxor hash (u32 (Z.shiftl hash 3)) in
  let hash := u32 (hash + Z.shiftr hash 5) in
  let hash := Z.lxor hash (u32 (Z.shiftl hash 4)) in
  let hash := u32 (hash + Z.shiftr hash 17) in
  let hash := Z.lxor hash (u32 (Z.shiftl hash 25)) in
  Ok (u32 (hash + Z.shiftr hash 6)).

(** [for (j = 0; v > table[j+1]-1; ++j);] *)
Definition code_index (table : list Z) (v : Z) : Res Z :=
  fell <$> loop (R := Empty_set) (S (length table)) (λ j,
    t ← rd table (j + 1); Ok (if t - 1 <? v then Next (j + 1) else Break j)) 0.

(** *** The Adler checksum *)

(** [for (i = 0; i < blocklen; ++i) { s1 += data[j+i]; s2 += s1; }] *)
Definition adler_block (data : list Z) (j blocklen : Z) (s : Z * Z) : Res (Z * Z) :=
  for_range 0 blocklen (λ i '(s1, s2),
    d ← rd data (j + i);
    let s1 := u32 (s1 + d) in Ok (s1, u32 (s2 + s1))) s.

Definition adler_sums (data : list Z) (data_len : Z) : Res (Z * Z) :=
  r ← loop (R := Empty_set) (S (S (Z.to_nat (data_len / 5552)))) (λ '(s1, s2, j, blocklen),
    if negb (j <? data_len) then Ok (Break (s1, s2, j, blocklen)) else
    '(s1, s2) ← adler_block data j blocklen (s1, s2);
    Ok (Next (s1 mod 65521, s2 mod 65521, j + blocklen, 5552)))
    (1, 0, 0, Z.rem data_len 5552);
  let '(s1, s2, _, _) := fell r in Ok (s1, s2).

Section compress.
Context `{Env : StbiEnv} {S : Type}.

(** [stbiw__sbgrowf]: a reallocation to twice the capacity. *)
Definition stbiw__sbgrowf (a : option stbiw__sb) (increment itemsize : Z) : Act S stbiw__sb :=
  m ← lift (match a with
            | Some a => d ← i32 (2 * stbiw__sbm a); i32 (d + increment)
            | None => i32 (increment + 1)
            end);
  bytes ← lift (i32 (itemsize * m));
  if malloc_ok (u64 (bytes + 8)) then
    mret {| stbiw__sbm := m; sb_items := from_option sb_items [] a |}
  else fail "assert".

Definition stbiw__sbpush (itemsize : Z) (a : option stbiw__sb) (v : Z) : Act S stbiw__sb :=
  a ← (match a with
       | Some b => if stbiw__sbm b <=? stbiw__sbn b + 1 then stbiw__sbgrowf a 1 itemsize else mret b
       | None => stbiw__sbgrowf a 1 itemsize
       end);
  if stbiw__sbn a <? stbiw__sbm a then
    mret {| stbiw__sbm := stbiw__sbm a; sb_items := sb_items a ++ [v] |}
  else lift Undef.

(** *** The bit writer *)
Record zlib_writer := { zw_out : option stbiw__sb; bitbuf : Z; bitcount : Z }.

Definition zw_push (w : zlib_writer) (v : Z) : Act S zlib_writer :=
  o ← stbiw__sbpush 1 (zw_out w) v;
  mret {| zw_out := Some o; bitbuf := bitbuf w; bitcount := bitcount w |}.

(** At most four bytes are complete. *)
Definition stbiw__zlib_flushf (w : zlib_writer) : Act S zlib_writer :=
  r ← a_loop (R := Empty_set) 5 (λ w,
    if 8 <=? bitcount w then
      w ← zw_push w (u8 (bitbuf w));
      mret (Next {| zw_out := zw_out w; bitbuf := Z.shiftr (bitbuf w) 8;
                    bitcount := bitcount w - 8 |})
    else mret (Break w)) w;
  mret (fell r).

Definition stbiw__zlib_add (w : zlib_writer) (code codebits : Z) : Act S zlib_writer :=
  c ← lift (i32 (Z.shiftl code (bitcount w)));
  stbiw__zlib_flushf {| zw_out := zw_out w; bitbuf := Z.lor (bitbuf w) c;
                        bitcount := bitcount w + codebits |}.

Definition stbiw__zlib_huffa (w : zlib_writer) (b c : Z) : Act S zlib_writer :=
  r ← lift (stbiw__zlib_bitrev b c); stbiw__zlib_add w r c.

Definition stbiw__zlib_huff1 w (n : Z) := stbiw__zlib_huffa w (0x30 + n) 8.
Definition stbiw__zlib_huff2 w (n : Z) := stbiw__zlib_huffa w (0x190 + n - 144) 9.
Definition stbiw__zlib_huff3 w (n : Z) := stbiw__zlib_huffa w (0 + n - 256) 7.
Definition stbiw__zlib_huff4 w (n : Z) := stbiw__zlib_huffa w (0xc0 + n - 280) 8.
Definition stbiw__zlib_huff w (n : Z) : Act S zlib_writer :=
  if n <=? 143 then stbiw__zlib_huff1 w n
  else if n <=? 255 then stbiw__zlib_huff2 w n
  else if n <=? 279 then stbiw__zlib_huff3 w n
  else stbiw__zlib_huff4 w n.
Definition stbiw__zlib_huffb w (n : Z) : Act S zlib_writer :=
  if n <=? 143 then stbiw__zlib_huff1 w n else stbiw__zlib_huff2 w n.

(** *** Finding matches

    The table of chains; a chain that is still null is absent. *)
Abbreviation chains := (gmap Z stbiw__sb).

Definition chain_items (hl : option stbiw__sb) : list Z := from_option sb_items [] hl.

(** The last of the longest matches of at least three bytes. *)
Definition find_match (data : list Z) (data_len i : Z) (hlist : list Z) : Res (Z * option Z) :=
  for_range 0 (zlen hlist) (λ j '(best, bestloc),
    p ← rd hlist j;
    if i - 32768 <? p then
      d ← stbiw__zlib_countm data p i (data_len - i);
      Ok (if best <=? d then (d, Some p) else (best, bestloc))
    else Ok (best, bestloc)) (3, None).

(** Is there a longer match one byte later? *)
Definition better_next (data : list Z) (data_len i best : Z) (hlist : list Z) : Res bool :=
  r ← for_ctl 0 (zlen hlist) (λ j _,
    p ← rd hlist j;
    if i - 32767 <? p then
      e ← stbiw__zlib_countm data p (i + 1) (data_len - i - 1);
      Ok (if best <? e then Return true else Next ())
    else Ok (Next ())) ();
  Ok (match r with Gave b => b | Fell _ => false end).

(** A full chain loses its older half. *)
Definition prune (quality : Z) (hl : option stbiw__sb) : Res (option stbiw__sb) :=
  match hl with
  | Some a =>
      q2 ← i32 (2 * quality);
      if stbiw__sbn a =? q2 then
        Ok (Some {| stbiw__sbm := stbiw__sbm a; sb_items := drop (Z.to_nat quality) (sb_items a) |})
      else Ok hl
  | None => Ok None
  end.

(** A length and a distance. *)
Definition emit_match (w : zlib_writer) (best d : Z) : Act S zlib_writer :=
  if negb ((d <=? 32767) && (best <=? 258)) then fail "assert" else
  j ← lift (code_index lengthc best);
  w ← stbiw__zlib_huff w (j + 257);
  eb ← lift (rd lengtheb j);
  lc ← lift (rd lengthc j);
  w ← (if negb (eb =? 0) then stbiw__zlib_add w (best - lc) eb else mret w);
  j ← lift (code_index distc d);
  r ← lift (stbiw__zlib_bitrev j 5);
  w ← stbiw__zlib_add w r 5;
  eb ← lift (rd disteb j);
  dc ← lift (rd distc j);
  if negb (eb =? 0) then stbiw__zlib_add w (d - dc) eb else mret w.

(** One iteration of [while (i < data_len-3)]. *)
Definition compress_step (data : list Z) (data_len quality : Z) (s : Z * chains * zlib_writer)
  : Act S (ctl (Z * chains * zlib_writer) Empty_set) :=
  let '(i, hash_table, w) := s in
  if negb (i <? data_len - 3) then mret (Break s) else
  h ← lift (stbiw__zhash data i);
  let h := Z.land h (stbiw__ZHASH - 1) in
  '(best, bestloc) ← lift (find_match data data_len i (chain_items (hash_table !! h)));
  hl ← lift (prune quality (hash_table !! h));
  hl ← stbiw__sbpush 8 hl i;
  let hash_table := <[h := hl]> hash_table in
  bestloc ← (match bestloc with
    | Some p =>
        h ← lift (stbiw__zhash data (i + 1));
        let h := Z.land h (stbiw__ZHASH - 1) in
        b ← lift (better_next data data_len i best (chain_items (hash_table !! h)));
        mret (if b : bool then None else Some p)
    | None => mret None
    end);
  match bestloc with
  | Some p =>
      w ← emit_match w best (i - p);
      mret (Next (i + best, hash_table, w))
  | None =>
      d ← lift (rd data i);
      w ← stbiw__zlib_huffb w d;
      mret (Next (i + 1, hash_table, w))
  end.

(** *** Stored blocks *)
Definition store_block (data : list Z) (data_len : Z) (s : stbiw__sb * Z)
  : Act S (ctl (stbiw__sb * Z) Empty_set) :=
  let '(o, j) := s in
  if negb (j <? data_len) then mret (Break s) else
  let blocklen := if 32767 <? data_len - j then 32767 else data_len - j in
  o ← stbiw__sbpush 1 (Some o) (if data_len - j =? blocklen then 1 else 0);
  o ← stbiw__sbpush 1 (Some o) (u8 blocklen);
  o ← stbiw__sbpush 1 (Some o) (u8 (Z.shiftr blocklen 8));
  o ← stbiw__sbpush 1 (Some o) (u8 (Z.lnot blocklen));
  o ← stbiw__sbpush 1 (Some o) (u8 (Z.shiftr (Z.lnot blocklen) 8));
  if (stbiw__sbn o + blocklen <=? stbiw__sbm o) && (j + blocklen <=? zlen data) then
    mret (Next ({| stbiw__sbm := stbiw__sbm o;
                   sb_items := sb_items o ++ take (Z.to_nat blocklen) (drop (Z.to_nat j) data) |},
                j + blocklen))
  else lift Undef.

(** The sums, big-endian. *)
Definition push_adler (o : stbiw__sb) (s1 s2 : Z) : Act S stbiw__sb :=
  o ← stbiw__sbpush 1 (Some o) (u8 (Z.shiftr s2 8));
  o ← stbiw__sbpush 1 (Some o) (u8 s2);
  o ← stbiw__sbpush 1 (Some o) (u8 (Z.shiftr s1 8));
  stbiw__sbpush 1 (Some o) (u8 s1).

(** Header, data and end of block; the bits are padded to a byte. *)
Definition compress_fixed (data : list Z) (data_len quality : Z) : Act S zlib_writer :=
  w ← zw_push {| zw_out := None; bitbuf := 0; bitcount := 0 |} 0x78;
  w ← zw_push w 0x5e;
  w ← stbiw__zlib_add w 1 1;
  w ← stbiw__zlib_add w 1 2;
  r ← a_loop (Datatypes.S (Z.to_nat data_len)) (compress_step data data_len quality) (0, ∅, w);
  let '(i, _, w) := fell r in
  w ← a_for i data_len (λ i w, d ← lift (rd data i); stbiw__zlib_huffb w d) w;
  w ← stbiw__zlib_huff w 256;
  r ← a_loop (R := Empty_set) 9 (λ w,
    if negb (bitcount w =? 0) then w ← stbiw__zlib_add w 0 1; mret (Next w)
    else mret (Break w)) w;
  mret (fell r).

(** The compressed bytes; [*out_len] is their number. *)
Definition stbi_zlib_compress (data : list Z) (data_len quality : Z) : Act S (list Z) :=
  if negb (malloc_ok (stbiw__ZHASH * 8)) then fail "outofmem" else
  let quality := if quality <? 5 then 5 else quality in
  w ← compress_fixed data data_len quality;
  o ← lift (match zw_out w with Some o => Ok o | None => Undef end);
  n ← lift (i32 (data_len + 32766));
  blocks ← lift (i32 (n ÷ 32767 * 5));
  limit ← lift (d ← i32 (data_len + 2); i32 (d + blocks));
  o ← (if limit <? stbiw__sbn o then
         let o := {| stbiw__sbm := stbiw__sbm o; sb_items := take 2 (sb_items o) |} in
         r ← a_loop (Datatypes.S (Z.to_nat data_len)) (store_block data data_len) (o, 0);
         mret (fell r).1
       else mret o);
  '(s1, s2) ← lift (adler_sums data data_len);
  o ← push_adler o s1 s2;
  mret (sb_items o).
End compress.
