(* ===== verification/StbWriteZlibSpec.v ===== *)
(** * stb_image_write: what the zlib compressor writes

    The compressor writes a stream the reference inflater assigns to its input:
    its bytes are the fields of one block of symbols with the fixed codes, or of
    stored blocks, with the Adler checksum behind them.  Together with
    [StbZlibRun], decompressing gives the data back. *)
From S2P Require Import Prelude StbMonad StbBase StbBaseSpec StbStream StbZlib StbHuffman StbBits.
From S2P Require Import Rfc1951 StbInflate StbZlibSpec StbZlibRun StbWriteZlib.

(** ** The checksum *)

(** RFC 1950: two sums modulo 65521. *)
Definition adler_step (s : Z * Z) (d : Z) : Z * Z :=
  let a := (s.1 + d) mod 65521 in (a, (s.2 + a) mod 65521).
Definition adler32 (data : list Z) : Z * Z := foldl adler_step (1, 0) data.

(** The sums of a block, reduced only at its end. *)
Lemma adler_mod data s t : s.1 mod 65521 = t.1 mod 65521 → s.2 mod 65521 = t.2 mod 65521 →
  let r := foldl (λ s d, let a := s.1 + d in (a, s.2 + a)) s data in
  let r' := foldl adler_step t data in
  r.1 mod 65521 = r'.1 mod 65521 ∧ r.2 mod 65521 = r'.2 mod 65521.
Proof.
  revert s t. induction data as [|d data IH]; intros s t H1 H2; [done|]. cbn [foldl].
  assert ((s.1 + d) mod 65521 = (t.1 + d) mod 65521) as E1
    by (rewrite (Z.add_mod s.1), (Z.add_mod t.1), H1 by lia; done).
  apply IH; unfold adler_step; cbn [fst snd].
  - by rewrite Z.mod_mod by lia.
  - rewrite Z.mod_mod, <- E1 by lia. rewrite (Z.add_mod s.2), H2, <- Z.add_mod by lia.
    rewrite Z.add_mod_idemp_r by lia. done.
Qed.

Lemma adler_range data t : 0 ≤ t.1 < 65521 → 0 ≤ t.2 < 65521 →
  0 ≤ (foldl adler_step t data).1 < 65521 ∧ 0 ≤ (foldl adler_step t data).2 < 65521.
Proof.
  revert t. induction data as [|d data IH]; intros t H1 H2; [done|]. cbn [foldl].
  apply IH; unfold adler_step; cbn [fst snd]; apply Z.mod_pos_bound; lia.
Qed.

(** The bytes from [j] on. *)
Definition slice (data : list Z) (j n : Z) : list Z := take (Z.to_nat n) (drop (Z.to_nat j) data).

Lemma slice_snoc data j n : 0 ≤ j → 0 ≤ n → j + n < zlen data →
  slice data j (n + 1) = slice data j n ++ [data.[j + n]].
Proof.
  intros Hj Hn Hl. unfold slice. replace (Z.to_nat (n + 1)) with (S (Z.to_nat n)) by lia.
  apply take_S_r. rewrite lookup_drop. replace (Z.to_nat j + Z.to_nat n)%nat with (Z.to_nat (j + n)) by lia.
  apply znth_lookup. lia.
Qed.

Lemma slice_take data j n : 0 ≤ j → 0 ≤ n → take (Z.to_nat j) data ++ slice data j n = take (Z.to_nat (j + n)) data.
Proof.
  intros Hj Hn. unfold slice. rewrite take_take_drop. f_equal. lia.
Qed.

Lemma adler_block_wp data j n s (Q : Z * Z → Prop) : Forall is_byte data → 0 ≤ j → 0 ≤ n ≤ 5552 →
  j + n ≤ zlen data → 0 ≤ s.1 < 65521 → 0 ≤ s.2 < 65521 →
  (∀ r, 0 ≤ r.1 → 0 ≤ r.2 →
     (r.1 mod 65521, r.2 mod 65521) = foldl adler_step s (slice data j n) → Q r) →
  wp (adler_block data j n s) Q.
Proof.
  intros Hb Hj Hn Hin H1 H2 HQ. unfold adler_block.
  apply (for_range_wp (λ i r, r = foldl (λ s d, let a := s.1 + d in (a, s.2 + a)) s (slice data j i) ∧
    0 ≤ r.1 ≤ 65520 + 255 * i ∧ 0 ≤ r.2 ∧ 2 * r.2 ≤ 131040 * (1 + i) + 255 * (i * (i + 1)))).
  - destruct s as [s1 s2]. cbn in *. split; [done|]. lia.
  - intros i [r1 r2] Hi (E & Hr1 & Hr2 & Hr3). cbn [fst snd] in *.
    assert (is_byte (data.[j + i])) as [Hd0 Hd1]
      by (eapply (Forall_lookup_1 _ _ _ _ Hb); apply znth_lookup; lia).
    rewrite rd_ok by lia. cbn [wp mbind Res_bind].
    assert (i * (i + 1) ≤ 5551 * 5552) by nia.
    rewrite (u32_small (r1 + _)), u32_small by lia. cbn [fst snd].
    rewrite slice_snoc, foldl_app, <- E by lia. cbn [foldl fst snd]. split; [done|]. lia.
  - intros r. rewrite Z.max_r by lia. intros (E & Hr1 & Hr2 & _). apply HQ; [lia|lia|].
    destruct (adler_mod (slice data j n) s s eq_refl eq_refl) as [E1 E2]. rewrite <- E in E1, E2.
    destruct (adler_range (slice data j n) s H1 H2) as [B1 B2].
    rewrite E1, E2, !Z.mod_small by done. by destruct (foldl adler_step s _).
Qed.

Lemma adler_sums_wp data (Q : Z * Z → Prop) : Forall is_byte data → zlen data ≤ INT_MAX →
  Q (adler32 data) → wp (adler_sums data (zlen data)) Q.
Proof.
  intros Hb Hl HQ. unfold adler_sums. set (n := zlen data) in *. apply wp_bind.
  assert (0 ≤ n) as Hn by lia. rewrite Z.rem_mod_nonneg by lia.
  pose proof (Z.mod_pos_bound n 5552 ltac:(lia)) as Hm. pose proof (Z.div_mod n 5552 ltac:(lia)) as Hd.
  apply (loop_wp (λ '(s1, s2, j, bl), 0 ≤ j ≤ n ∧ (s1, s2) = adler32 (take (Z.to_nat j) data) ∧
      (j = 0 ∧ bl = n mod 5552 ∨ bl = 5552 ∧ (n - j) mod 5552 = 0))
    (λ '(s1, s2, j, bl), Z.to_nat ((n - j) / 5552 + (if bl =? 5552 then 0 else 1)))).
  - split; [lia|]. split; [by rewrite take_0|]. by left.
  - rewrite Z.sub_0_r. destruct (_ =? _); pose proof (Z.div_pos n 5552 ltac:(lia) ltac:(lia)); lia.
  - intros [[[s1 s2] j] bl] (Hj & E & Hbl). destruct (Z.ltb_spec j n) as [Hlt|Hge]; cbn [negb].
    2: { cbn. assert (j = n) as -> by lia. rewrite take_ge in E by lia. by rewrite E. }
    assert (0 ≤ bl ≤ 5552 ∧ j + bl ≤ n ∧ (n - (j + bl)) mod 5552 = 0 ∧
      (n - (j + bl)) / 5552 + 0 < (n - j) / 5552 + (if bl =? 5552 then 0 else 1)) as (Hb1 & Hb2 & Hb3 & Hb4).
    { destruct (Z.eqb_spec bl 5552) as [->|]; destruct Hbl as [[-> Hbl]|[Hbl Hr]];
        Z.div_mod_to_equations; lia. }
    destruct (adler_range (take (Z.to_nat j) data) (1, 0)) as [R1 R2]; [cbn; lia..|].
    fold (adler32 (take (Z.to_nat j) data)) in R1, R2. rewrite <- E in R1, R2. cbn [fst snd] in R1, R2.
    apply wp_bind. apply adler_block_wp; [done|lia|lia|lia|done|done|].
    intros [r1 r2] Hr1 Hr2 Er. cbn [fst snd] in Er. cbn [wp]. split.
    + split; [lia|]. split; [|by right]. rewrite Er, E. unfold adler32. rewrite <- foldl_app.
      by rewrite slice_take by lia.
    + rewrite Z.eqb_refl. pose proof (Z.div_pos (n - (j + bl)) 5552 ltac:(lia) ltac:(lia)).
      apply Z2Nat.inj_lt; lia.
Qed.

(** ** Bit reversal, tables *)
Lemma rev_bits_succ k c : 0 ≤ k → rev_bits (k + 1) c = 2 * rev_bits k c + Z.b2z (Z.testbit c k).
Proof.
  intros Hk. pose proof (rev_bits_div k (k + 1) c ltac:(lia)) as Hd.
  replace (k + 1 - k) with 1 in Hd by lia. change (2 ^ 1) with 2 in Hd.
  assert (rev_bits (k + 1) c mod 2 = Z.b2z (Z.testbit c k)) as Hm.
  { rewrite <- Z.bit0_mod, rev_bits_spec by lia. replace (k + 1 - 1 - 0) with k by lia.
    by rewrite (proj2 (Z.ltb_lt 0 (k + 1))) by lia. }
  pose proof (Z.div_mod (rev_bits (k + 1) c) 2 ltac:(lia)). lia.
Qed.

Lemma zlib_bitrev_ok code n : 0 ≤ n ≤ 30 → 0 ≤ code →
  stbiw__zlib_bitrev code n = Ok (rev_bits n code).
Proof.
  intros Hn Hc. unfold stbiw__zlib_bitrev.
  enough (wp (for_range 0 n (λ _ '(res, code),
    res ← i32 (Z.shiftl res 1);
    Ok (Z.lor res (Z.land code 1), Z.shiftr code 1)) (0, code)) (λ s, s.1 = rev_bits n code)) as H.
  { apply wp_elim in H as ([r c] & -> & E). cbn in *. by subst. }
  apply (for_range_wp (λ k s, s.1 = rev_bits k code ∧ s.2 = Z.shiftr code k)).
  - split; [done|by rewrite Z.shiftr_0_r].
  - intros k [r c] Hk [E1 E2]. cbn [fst snd] in *. subst r c.
    pose proof (rev_bits_range k code ltac:(lia)) as Hr.
    assert (2 ^ k ≤ 2 ^ 29) by (apply Z.pow_le_mono_r; lia).
    rewrite i32_ok by (c_unfold; rewrite Z.shiftl_mul_pow2; lia). cbn [wp mbind Res_bind fst snd].
    rewrite Z.shiftr_shiftr by lia. split; [|done].
    assert (Z.land (Z.shiftr code k) 1 = Z.b2z (Z.testbit code k)) as El.
    { change 1 with (2 ^ 1 - 1). rewrite land_mask by lia. change (2 ^ 1) with 2.
      rewrite <- Z.bit0_mod, Z.shiftr_spec by lia. by rewrite Z.add_0_l. }
    rewrite El, lor_shiftl by (try destruct (Z.testbit code k); cbn; lia).
    rewrite rev_bits_succ by lia. change (2 ^ 1) with 2. lia.
  - intros [r c]. rewrite Z.max_r by lia. by intros [].
Qed.

(** The entries of an increasing table around a value. *)
Lemma code_index_wp table v n (Q : Z → Prop) : zlen table = n + 1 → 1 ≤ n → table.[0] ≤ v → v < table.[n] →
  (∀ j, 0 ≤ j < n → table.[j] ≤ v < table.[j + 1] → Q j) → wp (code_index table v) Q.
Proof.
  intros Hn H1 H0 Hv HQ. unfold code_index.
  enough (wp (loop (R := Empty_set) (S (length table)) (λ j,
    t ← rd table (j + 1); Ok (if t - 1 <? v then Next (j + 1) else Break j)) 0) (λ x, Q (fell x))) as H
    by (by destruct (loop _ _ _)).
  apply (loop_wp (λ j, 0 ≤ j < n ∧ table.[j] ≤ v) (λ j, Z.to_nat (n - j))).
  - split; [lia|done].
  - lia.
  - intros j [Hj Hle]. rewrite rd_ok by lia. cbn [wp mbind Res_bind].
    destruct (Z.ltb_spec (table.[j + 1] - 1) v) as [Hlt|Hge].
    + split; [|lia]. split; [|lia]. destruct (decide (j + 1 = n)) as [E|]; [rewrite E in Hlt; lia|lia].
    + cbn. apply HQ; [lia|]. lia.
Qed.

Lemma forallb_seqZ (P : Z → bool) lo n i : forallb P (seqZ lo n) = true → lo ≤ i < lo + n → P i = true.
Proof. intros H Hi. rewrite forallb_forall in H. apply H, list_elem_of_In, elem_of_seqZ. lia. Qed.

(** The encoder's tables are those of the decoder, and the extra bits reach
    from one entry to the next. *)
Lemma length_tables j : 0 ≤ j < 29 →
  lengthc.[j] = stbi__zlength_base.[j] ∧ lengtheb.[j] = stbi__zlength_extra.[j] ∧
  lengthc.[j + 1] - lengthc.[j] ≤ 2 ^ lengtheb.[j] ∧ 0 ≤ lengtheb.[j] ≤ 5.
Proof.
  intros Hj. pose proof (forallb_seqZ (λ j, (lengthc.[j] =? stbi__zlength_base.[j]) &&
    (lengtheb.[j] =? stbi__zlength_extra.[j]) && (lengthc.[j + 1] - lengthc.[j] <=? 2 ^ lengtheb.[j]) &&
    (0 <=? lengtheb.[j]) && (lengtheb.[j] <=? 5)) 0 29 j ltac:(by vm_compute) ltac:(lia)) as H.
  rewrite !andb_true_iff, !Z.eqb_eq, !Z.leb_le in H. tauto.
Qed.

Lemma dist_tables j : 0 ≤ j < 30 →
  distc.[j] = stbi__zdist_base.[j] ∧ disteb.[j] = stbi__zdist_extra.[j] ∧
  distc.[j + 1] - distc.[j] ≤ 2 ^ disteb.[j] ∧ 0 ≤ disteb.[j] ≤ 13 ∧ rev_bits 5 j = (symbol_field fld j).1 ∧
  (symbol_field fld j).2 = 5.
Proof.
  intros Hj. pose proof (forallb_seqZ (λ j, (distc.[j] =? stbi__zdist_base.[j]) &&
    (disteb.[j] =? stbi__zdist_extra.[j]) && (distc.[j + 1] - distc.[j] <=? 2 ^ disteb.[j]) &&
    (0 <=? disteb.[j]) && (disteb.[j] <=? 13) && (rev_bits 5 j =? (symbol_field fld j).1) &&
    ((symbol_field fld j).2 =? 5)) 0 30 j ltac:(by vm_compute) ltac:(lia)) as H.
  rewrite !andb_true_iff, !Z.eqb_eq, !Z.leb_le in H. tauto.
Qed.

(** The fixed code of the encoder's macros. *)
Definition huff_code (n : Z) : Z * Z :=
  if n <=? 143 then (0x30 + n, 8) else if n <=? 255 then (0x190 + n - 144, 9)
  else if n <=? 279 then (0 + n - 256, 7) else (0xc0 + n - 280, 8).

Lemma huff_code_fixed n : 0 ≤ n < 288 →
  symbol_field fll n = (rev_bits (huff_code n).2 (huff_code n).1, (huff_code n).2) ∧
  0 ≤ (huff_code n).1 < 512 ∧ 7 ≤ (huff_code n).2 ≤ 9 ∧ coded fll n.
Proof.
  intros Hn. pose proof (forallb_seqZ (λ n, ((symbol_field fll n).1 =? rev_bits (huff_code n).2 (huff_code n).1) &&
    ((symbol_field fll n).2 =? (huff_code n).2) && (0 <=? (huff_code n).1) && ((huff_code n).1 <? 512) &&
    (7 <=? (huff_code n).2) && ((huff_code n).2 <=? 9) && negb (fll.[n] =? 0)) 0 288 n
    ltac:(by vm_compute) ltac:(lia)) as H.
  rewrite !andb_true_iff, !Z.eqb_eq, !Z.leb_le, Z.ltb_lt, negb_true_iff, Z.eqb_neq in H.
  destruct H as ((((((H1 & H2) & H3) & H4) & H5) & H6) & H7).
  split; [|split; [done|split; [done|]]].
  - rewrite <- H1, <- H2. by destruct (symbol_field fll n).
  - split; [|done]. by change (zlen fll) with 288.
Qed.

Lemma fixed_dist_coded d : 0 ≤ d < 30 → coded fld d.
Proof.
  intros Hd. pose proof (forallb_seqZ (λ d, negb (fld.[d] =? 0)) 0 30 d ltac:(by vm_compute) ltac:(lia)) as H.
  cbn beta in H. rewrite negb_true_iff, Z.eqb_neq in H. split; [by change (zlen fld) with 32; lia|done].
Qed.

(** ** Finding matches *)

(** The data at [p] and at [i] agree for [n] bytes. *)
Definition agree (data : list Z) (p i n : Z) : Prop := ∀ k, 0 ≤ k < n → data.[p + k] = data.[i + k].

Lemma countm_spec data a b limit (Q : Z → Prop) : 0 ≤ a → 0 ≤ b → a + limit ≤ zlen data → b + limit ≤ zlen data →
  (∀ n, 0 ≤ n ≤ Z.max 0 (Z.min limit 258) → agree data a b n → Q n) →
  wp (stbiw__zlib_countm data a b limit) Q.
Proof.
  intros Ha Hb Hal Hbl HQ. unfold stbiw__zlib_countm. apply wp_bind.
  apply (for_ctl_wp (λ i r, r = i ∧ agree data a b i)).
  - split; [done|]. intros k Hk. lia.
  - intros i r Hi [-> Hag]. rewrite !rd_ok by lia. cbn [wp mbind Res_bind].
    destruct (Z.eqb_spec (data.[a + i]) (data.[b + i])) as [E|E]; cbn [negb].
    + split; [done|]. intros k Hk. destruct (decide (k = i)) as [->|]; [done|]. apply Hag. lia.
    + cbn. apply HQ; [lia|done].
  - intros r [-> Hag]. cbn. apply HQ; [lia|done].
Qed.

Lemma zhash_spec data p (Q : Z → Prop) : 0 ≤ p → p + 3 ≤ zlen data → (∀ h, Q h) → wp (stbiw__zhash data p) Q.
Proof.
  intros Hp Hl HQ. unfold stbiw__zhash. rewrite !rd_ok by lia. cbn [wp mbind Res_bind]. apply HQ.
Qed.

(** What the search returns is a match in the window. *)
Lemma find_match_spec data i hlist (Q : Z * option Z → Prop) : 0 ≤ i → i + 3 ≤ zlen data →
  Forall (λ p, 0 ≤ p < i) hlist →
  (∀ best loc, (∀ p, loc = Some p → 3 ≤ best ≤ 258 ∧ i + best ≤ zlen data ∧ 0 ≤ p < i ∧ i - p ≤ 32767 ∧
     agree data p i best) → Q (best, loc)) →
  wp (find_match data (zlen data) i hlist) Q.
Proof.
  intros Hi Hl Hh HQ. unfold find_match.
  apply (for_range_wp (λ _ '(best, loc), 3 ≤ best ∧ match loc with
    | None => True
    | Some p => best ≤ 258 ∧ i + best ≤ zlen data ∧ 0 ≤ p < i ∧ i - p ≤ 32767 ∧ agree data p i best
    end)).
  - split; [lia|done].
  - intros j [best loc] Hj [Hb Hloc]. rewrite rd_ok by lia. cbn [wp mbind Res_bind].
    assert (0 ≤ hlist.[j] < i) as Hp by (eapply (Forall_lookup_1 _ _ _ _ Hh); apply znth_lookup; lia).
    destruct (Z.ltb_spec (i - 32768) (hlist.[j])); [|done].
    apply wp_bind. apply countm_spec; [lia..|]. intros n Hn Hag. cbn [wp].
    destruct (Z.leb_spec best n); [|done]. split; [lia|]. split; [lia|]. split; [lia|]. split; [done|].
    split; [lia|done].
  - intros [best loc] [Hb Hloc]. apply HQ. intros p ->. destruct Hloc as (?&?&?&?&?). done.
Qed.

Lemma better_next_spec data i best hlist (Q : bool → Prop) : 0 ≤ i → i < zlen data →
  Forall (λ p, 0 ≤ p ≤ i) hlist → (∀ b, Q b) → wp (better_next data (zlen data) i best hlist) Q.
Proof.
  intros Hi Hl Hh HQ. unfold better_next. apply wp_bind.
  apply (for_ctl_wp (λ _ _, True)); [done| |].
  - intros j [] Hj _. rewrite rd_ok by lia. cbn [wp mbind Res_bind].
    assert (0 ≤ hlist.[j] ≤ i) as Hp by (eapply (Forall_lookup_1 _ _ _ _ Hh); apply znth_lookup; lia).
    destruct (_ <? _); [|done]. apply wp_bind. apply countm_spec; [lia..|]. intros n _ _. cbn [wp].
    destruct (_ <? _); [|done]. cbn. apply HQ.
  - intros. cbn. apply HQ.
Qed.

(** A match continues the data. *)
Lemma lz_copy_agree data p i n : 0 ≤ p < i → i + Z.of_nat n ≤ zlen data → agree data p i (Z.of_nat n) →
  lz_copy n (i - p) (take (Z.to_nat i) data) = take (Z.to_nat (i + Z.of_nat n)) data.
Proof.
  intros Hp Hl Hag. induction n as [|n IH]; [by rewrite Z.add_0_r|]. cbn [lz_copy].
  rewrite IH by (lia || (intros k Hk; apply Hag; lia)).
  replace (Z.to_nat (i + Z.of_nat (S n))) with (S (Z.to_nat (i + Z.of_nat n))) by lia.
  symmetry. apply take_S_r. rewrite length_take.
  replace (Z.of_nat (Nat.min _ _) - (i - p)) with (p + Z.of_nat n) by lia.
  rewrite znth_lookup by lia. f_equal. symmetry. rewrite list_lookup_total_alt, lookup_take_lt by lia.
  rewrite znth_lookup by lia. apply Hag. lia.
Qed.

(** ** Stretchy buffers *)
Lemma value_le_app l r : value_le (l ++ r) = value_le l + 2 ^ (8 * zlen l) * value_le r.
Proof.
  induction l as [|b l IH]; [change (2 ^ (8 * zlen [])) with 1; cbn [app]; unfold value_le; cbn; lia|].
  cbn [app length value_le foldr]. fold (value_le (l ++ r)) (value_le l). rewrite IH.
  replace (8 * Z.of_nat (S (length l))) with (8 + 8 * zlen l) by lia.
  rewrite Z.pow_add_r by lia. change (2 ^ 8) with 256. lia.
Qed.

Section writer.
Context `{Env : StbiEnv} {S : Type}.
Hypothesis Hrich : ∀ n, 0 ≤ n < 2 ^ 32 → malloc_ok n = true.

(** A buffer that has held at most [B] items. *)
Definition sb_ok (B : Z) (o : stbiw__sb) : Prop :=
  stbiw__sbn o ≤ B ∧ stbiw__sbn o ≤ stbiw__sbm o ≤ 2 * B + 1.
Definition sb_opt_ok (B : Z) (a : option stbiw__sb) : Prop := from_option (sb_ok B) True a.

(** An item is pushed, and the capacity does not shrink. *)
Lemma sbpush_spec itemsize B a v (s : S) : 1 ≤ itemsize → itemsize * (2 * B + 1) + 8 ≤ INT_MAX →
  sb_opt_ok B a → stbiw__sbcount a + 1 ≤ B →
  awp_ok (stbiw__sbpush itemsize a v) s (λ o _, sb_items o = from_option sb_items [] a ++ [v] ∧
    sb_ok B o ∧ from_option stbiw__sbm 0 a ≤ stbiw__sbm o).
Proof using Hrich.
  intros Hi HB Ha Hn. assert (2 * B + 1 ≤ INT_MAX) as HB' by (c_unfold; nia). c_unfold. unfold stbiw__sbpush.
  assert (∀ m, stbiw__sbcount a < m ≤ 2 * B + 1 →
    awp_ok (bytes ← lift (i32 (itemsize * m));
      if malloc_ok (u64 (bytes + 8)) then
        mret {| stbiw__sbm := m; sb_items := from_option sb_items [] a |}
      else fail "assert") s (λ o s', s' = s ∧ sb_items o = from_option sb_items [] a ∧ stbiw__sbm o = m)) as Hg.
  { intros m Hm. assert (0 ≤ itemsize * m ≤ itemsize * (2 * B + 1)).
    { destruct a; cbn in *; unfold stbiw__sbn in *; nia. }
    awp_step. awp_step. rewrite i32_ok by (c_unfold; lia). cbn [wp].
    rewrite u64_small, Hrich by lia. by awp_step. }
  assert (0 ≤ stbiw__sbcount a) as H0 by (destruct a; cbn; unfold stbiw__sbn; lia).
  assert (∀ o, sb_items o = from_option sb_items [] a → stbiw__sbcount a < stbiw__sbm o ≤ 2 * B + 1 →
    from_option stbiw__sbm 0 a ≤ stbiw__sbm o →
    awp_ok (if stbiw__sbn o <? stbiw__sbm o then
      mret {| stbiw__sbm := stbiw__sbm o; sb_items := sb_items o ++ [v] |}
      else lift Undef) s (λ o _, sb_items o = from_option sb_items [] a ++ [v] ∧
        sb_ok B o ∧ from_option stbiw__sbm 0 a ≤ stbiw__sbm o)) as Hp.
  { intros o Eo Hm Hg'. assert (stbiw__sbn o = stbiw__sbcount a) as En
      by (unfold stbiw__sbn; rewrite Eo; by destruct a).
    rewrite (proj2 (Z.ltb_lt _ _)) by lia. awp_step. cbn [sb_items stbiw__sbm].
    rewrite Eo. split; [done|]. split; [|done]. unfold sb_ok, stbiw__sbn. cbn [sb_items stbiw__sbm].
    rewrite length_app. unfold stbiw__sbn in En. rewrite Eo in En. cbn [length]. lia. }
  awp_step. destruct a as [b|]; cbn in Ha, Hn, H0.
  - destruct Ha as [Ha1 Ha2]. destruct (Z.leb_spec (stbiw__sbm b) (stbiw__sbn b + 1)).
    + unfold stbiw__sbgrowf. awp_step. awp_step. rewrite i32_ok by (c_unfold; lia). cbn [wp mbind Res_bind].
      rewrite i32_ok by (c_unfold; lia). cbn [wp].
      eapply awp_ok_mono; [apply (Hg (2 * stbiw__sbm b + 1)); cbn; lia|]. intros o s' (-> & E & Em).
      apply Hp; [done|cbn in *; lia|cbn; lia].
    + awp_step. apply Hp; [done|cbn; lia|cbn; lia].
  - unfold stbiw__sbgrowf. awp_step. awp_step. rewrite i32_ok by (c_unfold; lia). cbn [wp].
    eapply awp_ok_mono; [apply (Hg 2); cbn; lia|]. intros o s' (-> & E & Em).
    apply Hp; [done|cbn in *; lia|cbn; lia].
Qed.

(** *** The bit writer

    The [n] bits of [v] are written behind the header; up to [c] of them are
    still in [bitbuf]. *)
Definition zlib_head : list Z := [0x78; 0x5e].

Definition written (B c v n : Z) (w : zlib_writer) : Prop := ∃ o bs,
  zw_out w = Some o ∧ sb_items o = zlib_head ++ bs ∧ sb_ok B o ∧ Forall is_byte bs ∧
  v = value_le bs + 2 ^ (8 * zlen bs) * bitbuf w ∧ n = 8 * zlen bs + bitcount w ∧
  0 ≤ bitcount w < c ∧ 0 ≤ bitbuf w < 2 ^ bitcount w.

Variable B : Z.
Hypothesis HB : 8 ≤ B ≤ 2 ^ 29.

Lemma zw_push_spec w o v (s : S) : zw_out w = Some o → sb_ok B o → stbiw__sbn o + 1 ≤ B →
  awp_ok (zw_push w v) s (λ w' _, ∃ o', w' = {| zw_out := Some o'; bitbuf := bitbuf w; bitcount := bitcount w |} ∧
    sb_items o' = sb_items o ++ [v] ∧ sb_ok B o').
Proof using Hrich HB.
  intros E Ho Hn. unfold zw_push. awp_step. rewrite E.
  eapply awp_ok_mono; [apply (sbpush_spec 1 B (Some o) v s); [lia|c_unfold; lia|done|done]|].
  intros o' s' (E' & Ho' & _). awp_step. exists o'. done.
Qed.

Lemma flushf_spec v n w (s : S) : written B 32 v n w → n + 16 ≤ 8 * B →
  awp_ok (stbiw__zlib_flushf w) s (λ w' _, written B 8 v n w').
Proof using Hrich HB.
  intros Hw Hn. unfold stbiw__zlib_flushf. awp_step.
  apply (awp_loop (λ w _, written B 32 v n w) (λ w _, Z.to_nat (bitcount w / 8))); [done| |].
  { destruct Hw as (o & bs & _ & _ & _ & _ & _ & _ & Hc & _).
    pose proof (Z.div_lt_upper_bound (bitcount w) 8 4 ltac:(lia) ltac:(lia)). lia. }
  clear w Hw s. intros w s (o & bs & E & Ei & Ho & Hb & Hv & En & Hc & Hbb).
  destruct (Z.leb_spec 8 (bitcount w)) as [H8|H8].
  - assert (stbiw__sbn o = 2 + zlen bs) as Eo by (unfold stbiw__sbn; rewrite Ei, length_app; cbn; lia).
    apply awp_bind. eapply awp_mono; [apply (zw_push_spec w o (u8 (bitbuf w)) s E Ho); lia|].
    intros [w'|] s' Hw'; [|done]. destruct Hw' as (o' & -> & Ei' & Ho'). awp_step. cbn [zw_out bitbuf bitcount].
    split.
    + exists o', (bs ++ [u8 (bitbuf w)]). cbn [zw_out bitbuf bitcount]. split; [done|].
      split; [by rewrite Ei', Ei, <- app_assoc|]. split; [done|].
      split; [apply Forall_app; split; [done|]; apply Forall_singleton, u8_range|].
      rewrite value_le_app, length_app. cbn [length]. unfold value_le at 2. cbn [foldr].
      assert (bitbuf w = u8 (bitbuf w) + 2 ^ 8 * Z.shiftr (bitbuf w) 8) as Ebb.
      { rewrite Z.shiftr_div_pow2 by lia. pose proof (Z.div_mod (bitbuf w) (2 ^ 8) ltac:(lia)). unfold u8. lia. }
      replace (8 * Z.of_nat (length bs + 1)) with (8 * zlen bs + 8) by lia. rewrite Z.pow_add_r by lia.
      split; [rewrite Hv, Ebb at 1; lia|]. split; [lia|]. split; [lia|].
      rewrite Z.shiftr_div_pow2 by lia. split; [apply Z.div_pos; lia|].
      apply Z.div_lt_upper_bound; [lia|]. rewrite <- Z.pow_add_r by lia.
      replace (8 + (bitcount w - 8)) with (bitcount w) by lia. apply Hbb.
    + replace (bitcount w) with (bitcount w - 8 + 1 * 8) at 2 by lia. rewrite Z.div_add by lia.
      pose proof (Z.div_pos (bitcount w - 8) 8 ltac:(lia) ltac:(lia)). lia.
  - awp_step. cbn. exists o, bs.
    do 6 (split; [done|]). split; [lia|done].
Qed.

Lemma written_len c v n w : written B c v n w → 0 ≤ n.
Proof using Type. intros (o & bs & _ & _ & _ & _ & _ & -> & Hc & _). lia. Qed.

(** A code goes behind what is written. *)
Lemma zlib_add_spec v n w c bits (s : S) : written B 8 v n w → 0 ≤ bits ≤ 13 → 0 ≤ c < 2 ^ bits →
  n + bits + 16 ≤ 8 * B →
  awp_ok (stbiw__zlib_add w c bits) s (λ w' _, written B 8 (v + 2 ^ n * c) (n + bits) w').
Proof using Hrich HB.
  intros (o & bs & E & Ei & Ho & Hb & Hv & En & Hc & Hbb) Hbits Hcode Hn. unfold stbiw__zlib_add.
  assert (2 ^ bits ≤ 2 ^ 13) by (apply Z.pow_le_mono_r; lia).
  assert (2 ^ bitcount w ≤ 2 ^ 7) by (apply Z.pow_le_mono_r; lia).
  awp_step. awp_step. rewrite i32_ok.
  2: { c_unfold. rewrite Z.shiftl_mul_pow2 by lia. nia. }
  cbn [wp]. apply (flushf_spec _ _ _ s); [|done]. exists o, bs. cbn [zw_out bitbuf bitcount].
  do 4 (split; [done|]). rewrite lor_shiftl_r by lia.
  split; [|split; [lia|split; [lia|]]].
  - rewrite Hv, En, Z.pow_add_r by lia. lia.
  - rewrite Z.pow_add_r by lia. nia.
Qed.

(** The fields written so far. *)
Definition wrote (fs : list field) (w : zlib_writer) : Prop :=
  written B 8 (bits_val fs) (bits_len fs) w ∧ Forall field_ok fs.

Lemma wrote_add fs w c bits (s : S) : wrote fs w → 0 ≤ bits ≤ 13 → field_ok (c, bits) →
  bits_len fs + bits + 16 ≤ 8 * B →
  awp_ok (stbiw__zlib_add w c bits) s (λ w' _, wrote (fs ++ [(c, bits)]) w').
Proof using Hrich HB.
  intros [Hw Hfs] Hbits [H0 Hc] Hn. cbn [fst snd] in H0, Hc.
  eapply awp_ok_mono; [by apply (zlib_add_spec _ _ w c bits s Hw)|].
  intros w' s' Hw'. split; [|apply Forall_app; split; [done|by apply Forall_singleton]].
  rewrite bits_val_app, bits_len_app by done. cbn [bits_val bits_len foldr fst snd].
  by rewrite Z.mul_0_r, !Z.add_0_r.
Qed.

(** A field that is left out has no width. *)
Lemma wrote_extra fs w c bits (s : S) : wrote fs w → 0 ≤ bits ≤ 13 → field_ok (c, bits) →
  bits_len fs + bits + 16 ≤ 8 * B →
  awp_ok (if negb (bits =? 0) then stbiw__zlib_add w c bits else mret w) s
    (λ w' _, wrote (fs ++ [(c, bits)]) w').
Proof using Hrich HB.
  intros Hw Hbits Hc Hn. destruct (Z.eqb_spec bits 0) as [->|]; cbn [negb]; [|by apply wrote_add].
  awp_step. destruct Hw as [Hw Hfs]. pose proof Hc as [_ Hc']. cbn in Hc'.
  split; [|apply Forall_app; split; [done|by apply Forall_singleton]].
  rewrite bits_val_app, bits_len_app by done. cbn [bits_val bits_len foldr fst snd].
  replace c with 0 by lia. replace (bits_val fs + _) with (bits_val fs) by lia.
  by rewrite !Z.add_0_r.
Qed.

(** The macros write the fixed code of a symbol. *)
Lemma wrote_huff fs w n (s : S) : wrote fs w → 0 ≤ n < 288 → bits_len fs + 9 + 16 ≤ 8 * B →
  awp_ok (stbiw__zlib_huff w n) s (λ w' _, wrote (fs ++ [symbol_field fll n]) w').
Proof using Hrich HB.
  intros Hw Hn Hl. destruct (huff_code_fixed n Hn) as (E & Hc & Hb & Hcoded).
  assert (stbiw__zlib_huff (S := S) w n = stbiw__zlib_huffa w (huff_code n).1 (huff_code n).2) as ->.
  { unfold stbiw__zlib_huff, huff_code. by repeat case_match. }
  rewrite E. unfold stbiw__zlib_huffa. awp_step. awp_step. rewrite zlib_bitrev_ok by lia. cbn [wp].
  apply wrote_add; [done|lia| |lia]. split; cbn [fst snd]; [lia|]. apply rev_bits_range. lia.
Qed.

Lemma wrote_huffb fs w n (s : S) : wrote fs w → 0 ≤ n < 256 → bits_len fs + 9 + 16 ≤ 8 * B →
  awp_ok (stbiw__zlib_huffb w n) s (λ w' _, wrote (fs ++ [symbol_field fll n]) w').
Proof using Hrich HB.
  intros Hw Hn Hl. pose proof (wrote_huff fs w n s Hw ltac:(lia) Hl) as H.
  unfold stbiw__zlib_huff in H. unfold stbiw__zlib_huffb. destruct (n <=? 143); [done|].
  by rewrite (proj2 (Z.leb_le n 255)) in H by lia.
Qed.

(** *** A match *)

(** A length from 3 to 258 and a distance up to 32767 are written as the token
    the decoder reads. *)
Lemma emit_match_spec fs w best d (s : S) : wrote fs w → 3 ≤ best ≤ 258 → 1 ≤ d ≤ 32767 →
  bits_len fs + 32 + 16 ≤ 8 * B →
  awp_ok (emit_match w best d) s (λ w' _, ∃ t, wrote (fs ++ token_fields fll fld t) w' ∧
    (∀ n, d ≤ n → token_ok fll fld t n) ∧ (∀ out, token_out t out = lz_copy (Z.to_nat best) d out) ∧
    bits_len (token_fields fll fld t) ≤ 32).
Proof using Hrich HB.
  intros Hw Hb Hd Hl. unfold emit_match.
  rewrite (proj2 (Z.leb_le d 32767)), (proj2 (Z.leb_le best 258)) by lia. cbn [negb andb].
  awp_step. awp_step. apply (code_index_wp _ _ 29);
    [done|lia|by change (lengthc.[0]) with 3; lia|by change (lengthc.[29]) with 259; lia|].
  intros j Hj Hjb. destruct (length_tables j Hj) as (El & Ee & Hgap & He).
  destruct (huff_code_fixed (j + 257) ltac:(lia)) as (Ez & _ & Hz9 & Hz).
  assert ((symbol_field fll (j + 257)).2 ≤ 9) as Hz' by (rewrite Ez; cbn; lia). clear Ez Hz9.
  awp_step. eapply awp_ok_mono; [apply (wrote_huff fs w (j + 257) s Hw); lia|]. clear Hw. intros w1 s1 Hw.
  awp_step. awp_step. rewrite rd_ok by (change (zlen lengtheb) with 29; lia). cbn [wp].
  awp_step. awp_step. rewrite rd_ok by (change (zlen lengthc) with 30; lia). cbn [wp].
  assert (∀ fs f, bits_len (fs ++ [f]) = bits_len fs + f.2) as Hsnoc
    by (intros; rewrite bits_len_app; cbn; lia).
  pose proof (Hsnoc fs (symbol_field fll (j + 257))) as Hs1.
  awp_step. eapply awp_ok_mono; [apply (wrote_extra _ w1 (best - lengthc.[j]) (lengtheb.[j]) s1 Hw)|].
  { clear - He. lia. } { split; cbn [fst snd]; [clear - He; lia|]. clear - Hjb Hgap. lia. } { rewrite Hs1. clear - Hl Hz' He. lia. }
  clear Hw. intros w2 s2 Hw.
  pose proof (Hsnoc (fs ++ [symbol_field fll (j + 257)]) (best - lengthc.[j], lengtheb.[j])) as Hs2. cbn [snd] in Hs2.
  awp_step. awp_step. apply (code_index_wp _ _ 30);
    [done|lia|by change (distc.[0]) with 1; lia|by change (distc.[30]) with 32768; lia|].
  intros k Hk Hkd. destruct (dist_tables k Hk) as (Dl & De & Dgap & Dr & Erev & D5).
  assert (symbol_field fld k = (rev_bits 5 k, 5)) as Ed by (rewrite Erev, <- D5; by destruct (symbol_field fld k)).
  awp_step. awp_step. rewrite zlib_bitrev_ok by (clear - Hk; lia). cbn [wp].
  awp_step. eapply awp_ok_mono; [apply (wrote_add _ w2 (rev_bits 5 k) 5 s2 Hw)|].
  { lia. } { split; cbn [fst snd]; [lia|]. apply rev_bits_range. lia. } { rewrite Hs2, Hs1. clear - Hl Hz' He. lia. }
  clear Hw. intros w3 s3 Hw. rewrite <- Ed in Hw.
  awp_step. awp_step. rewrite rd_ok by (change (zlen disteb) with 30; lia). cbn [wp].
  awp_step. awp_step. rewrite rd_ok by (change (zlen distc) with 31; lia). cbn [wp].
  eapply awp_ok_mono; [apply (wrote_extra _ w3 (d - distc.[k]) (disteb.[k]) s3 Hw)|].
  { clear - Dr. lia. } { split; cbn [fst snd]; [clear - Dr; lia|]. clear - Hkd Dgap. lia. }
  { rewrite Hsnoc, Ed, Hs2, Hs1. cbn [snd]. clear - Hl Hz' He Dr. lia. }
  clear Hw. intros w4 s4 Hw.
  exists (Match (j + 257) (best - lengthc.[j]) k (d - distc.[k])). cbn [token_fields token_ok token_out].
  replace (j + 257 - 257) with j by (clear; lia). rewrite <- El, <- Ee, <- Dl, <- De.
  rewrite <- !app_assoc in Hw. split; [exact Hw|]. split; [|split].
  - intros n Hn. split; [lia|]. split; [exact Hz|]. split; [clear - Hjb Hgap; lia|]. split; [exact Hk|].
    split; [by apply fixed_dist_coded|]. split; [clear - Hkd Dgap; lia|]. clear - Hn. lia.
  - intros out. do 2 f_equal; clear; lia.
  - cbn [bits_len foldr snd]. rewrite Ed. cbn [snd]. clear - Hz' He Dr. lia.
Qed.

(** The bits are padded with zeros to a byte. *)
Lemma pad_spec fs w (s : S) : wrote fs w → bits_len fs + 24 ≤ 8 * B →
  awp_ok (r ← a_loop (R := Empty_set) 9 (λ w,
      if negb (bitcount w =? 0) then w ← stbiw__zlib_add w 0 1; mret (Next w)
      else mret (Break w)) w;
    mret (fell r)) s
    (λ w' _, ∃ n, written B 8 (bits_val fs) n w' ∧ bits_len fs ≤ n ∧ bitcount w' = 0).
Proof using Hrich HB.
  intros [Hw _] Hl. set (n0 := bits_len fs) in *. awp_step.
  apply (awp_loop (λ w _, ∃ n, written B 8 (bits_val fs) n w ∧ n0 ≤ n ≤ n0 + (- n0) mod 8)
    (λ w _, Z.to_nat ((- bitcount w) mod 8))).
  - exists n0. split; [done|]. pose proof (Z.mod_pos_bound (- n0) 8 ltac:(lia)). lia.
  - pose proof (Z.mod_pos_bound (- bitcount w) 8 ltac:(lia)). lia.
  - clear Hw w s. intros w s (n & Hw & Hn).
    pose proof Hw as (o & bs & _ & _ & _ & _ & _ & En & Hc & _).
    destruct (Z.eqb_spec (bitcount w) 0) as [E|E]; cbn [negb].
    + awp_step. exists n. split; [done|]. split; [lia|done].
    + assert (n < n0 + (- n0) mod 8) as Hlt.
      { destruct (decide (n = n0 + (- n0) mod 8)) as [E'|]; [|lia]. clear - E' E En Hc.
        Z.div_mod_to_equations. lia. }
      pose proof (Z.mod_pos_bound (- n0) 8 ltac:(lia)).
      apply awp_bind. eapply awp_mono; [apply (zlib_add_spec _ _ w 0 1 s Hw); lia|].
      intros [w'|] s' Hw'; [|done]. awp_step. rewrite Z.mul_0_r, Z.add_0_r in Hw'. split.
      * exists (n + 1). split; [done|lia].
      * destruct Hw' as (o' & bs' & _ & _ & _ & _ & _ & En' & Hc' & _).
        clear - En En' Hc Hc' E. apply Z2Nat.inj_lt; Z.div_mod_to_equations; lia.
Qed.

(** ** The compressor *)
Variable quality : Z.
Hypothesis Hq : 5 ≤ quality ≤ 2 ^ 20.

(** A chain holds positions before [i], at most twice [quality] of them. *)
Definition chain_ok (i : Z) (hl : stbiw__sb) : Prop :=
  sb_ok (2 * quality) hl ∧ Forall (λ p, 0 ≤ p < i) (sb_items hl).
Definition chains_ok (i : Z) (ht : gmap Z stbiw__sb) : Prop := ∀ h hl, ht !! h = Some hl → chain_ok i hl.

Lemma chains_before i ht h : chains_ok i ht → Forall (λ p, 0 ≤ p < i) (chain_items (ht !! h)).
Proof using HB Hq. intros H. destruct (ht !! h) as [hl|] eqn:E; [by apply (H h)|by constructor]. Qed.

Lemma chains_mono i j ht : chains_ok i ht → i ≤ j → chains_ok j ht.
Proof using HB Hq.
  intros H Hij h hl E. destruct (H h hl E) as [H1 H2]. split; [done|]. eapply Forall_impl; [exact H2|]. cbn; lia.
Qed.

Lemma prune_spec i ht h (Q : option stbiw__sb → Prop) : chains_ok i ht →
  (∀ hl, from_option (chain_ok i) True hl → stbiw__sbcount hl + 1 ≤ 2 * quality → Q hl) →
  wp (prune quality (ht !! h)) Q.
Proof using HB Hq.
  intros H HQ. unfold prune. destruct (ht !! h) as [hl|] eqn:E; [|apply HQ; cbn; [done|lia]].
  destruct (H h hl E) as [[H1 H2] H3]. rewrite i32_ok by (c_unfold; lia). cbn [wp mbind Res_bind].
  unfold stbiw__sbn in *. destruct (Z.eqb_spec (zlen (sb_items hl)) (2 * quality)); [|apply HQ; cbn; [done|unfold stbiw__sbn; lia]].
  apply HQ; cbn; [|unfold stbiw__sbn; cbn; rewrite length_drop; lia].
  split; [|cbn; by apply Forall_drop]. unfold sb_ok, stbiw__sbn. cbn. rewrite length_drop. lia.
Qed.

Lemma tokens_ok_snoc ll ld ts t out : tokens_ok ll ld ts out → token_ok ll ld t (zlen (tokens_out ts out)) →
  tokens_ok ll ld (ts ++ [t]) out.
Proof using Type.
  revert out. induction ts as [|t' ts IH]; intros out; cbn; [done|]. intros [H1 H2] H3. split; [done|by apply IH].
Qed.

Lemma tokens_snoc ll ld ts t out : tokens_fields ll ld (ts ++ [t]) = tokens_fields ll ld ts ++ token_fields ll ld t ∧
  tokens_out (ts ++ [t]) out = token_out t (tokens_out ts out).
Proof using Type.
  split; [unfold tokens_fields; rewrite flat_map_app; cbn; by rewrite app_nil_r|].
  unfold tokens_out. by rewrite foldl_app.
Qed.

Variable data : list Z.
Hypotheses (Hdata : Forall is_byte data) (HBn : 11 * zlen data + 64 ≤ 8 * B).

(** Tokens for the first [i] bytes are written. *)
Definition comp_state (i : Z) (w : zlib_writer) : Prop := ∃ ts,
  wrote ([(1, 1); (1, 2)] ++ tokens_fields fll fld ts) w ∧ tokens_ok fll fld ts [] ∧
  tokens_out ts [] = take (Z.to_nat i) data ∧ bits_len (tokens_fields fll fld ts) ≤ 11 * i.

Lemma comp_state_snoc i n w' ts t : tokens_ok fll fld ts [] → tokens_out ts [] = take (Z.to_nat i) data →
  0 ≤ i ≤ zlen data → bits_len (tokens_fields fll fld ts) ≤ 11 * i →
  wrote ([(1, 1); (1, 2)] ++ tokens_fields fll fld ts ++ token_fields fll fld t) w' →
  token_ok fll fld t i → token_out t (take (Z.to_nat i) data) = take (Z.to_nat (i + n)) data →
  bits_len (token_fields fll fld t) ≤ 11 * n → comp_state (i + n) w'.
Proof using HBn HB Hq.
  intros H1 H2 Hi H3 Hw Ht Ho Hb. destruct (tokens_snoc fll fld ts t []) as [E1 E2].
  exists (ts ++ [t]). rewrite E1, E2, H2. split; [done|]. split; [|split; [done|rewrite bits_len_app; lia]].
  apply tokens_ok_snoc; [done|]. rewrite H2, length_take. by replace (Z.of_nat _) with i by lia.
Qed.

Lemma comp_len i w ts : wrote ([(1, 1); (1, 2)] ++ tokens_fields fll fld ts) w →
  bits_len (tokens_fields fll fld ts) ≤ 11 * i →
  bits_len ([(1, 1); (1, 2)] ++ tokens_fields fll fld ts) ≤ 3 + 11 * i.
Proof using HBn HB Hq. intros _ H. rewrite bits_len_app. change (bits_len [(1, 1); (1, 2)]) with 3. lia. Qed.

(** A literal. *)
Lemma literal_step i w (s : S) : comp_state i w → 0 ≤ i < zlen data →
  awp_ok (stbiw__zlib_huffb w (data.[i])) s (λ w' _, comp_state (i + 1) w').
Proof using Hrich HB Hdata HBn Hq.
  intros (ts & Hw & Hts & Ho & Hb) Hi.
  assert (is_byte (data.[i])) as [Hd0 Hd1] by (eapply (Forall_lookup_1 _ _ _ _ Hdata); apply znth_lookup; lia).
  pose proof (comp_len i w ts Hw Hb). assert (0 ≤ data.[i] < 288) as Hd by lia.
  destruct (huff_code_fixed (data.[i]) Hd) as (E & _ & Hl & Hc).
  eapply awp_ok_mono; [apply (wrote_huffb _ w (data.[i]) s Hw); lia|].
  intros w' s' Hw'. rewrite <- app_assoc in Hw'.
  eapply (comp_state_snoc i 1 w' ts (Literal (data.[i]))); [done|done|lia|done|exact Hw'|done| |].
  - cbn [token_out]. replace (Z.to_nat (i + 1)) with (Datatypes.S (Z.to_nat i)) by lia.
    symmetry. apply take_S_r. apply znth_lookup. lia.
  - cbn [token_fields bits_len foldr]. rewrite E. cbn [snd]. lia.
Qed.

(** A match. *)
Lemma match_step i w best p (s : S) : comp_state i w → 0 ≤ i → 3 ≤ best ≤ 258 → i + best ≤ zlen data →
  0 ≤ p < i → i - p ≤ 32767 → agree data p i best →
  awp_ok (emit_match w best (i - p)) s (λ w' _, comp_state (i + best) w').
Proof using Hrich HB HBn Hq.
  intros (ts & Hw & Hts & Ho & Hb) Hi Hbest Hl Hp Hd Hag. pose proof (comp_len i w ts Hw Hb).
  eapply awp_ok_mono; [apply (emit_match_spec _ w best (i - p) s Hw); lia|].
  intros w' s' (t & Hw' & Hok & Hout & Hlen). rewrite <- app_assoc in Hw'.
  eapply (comp_state_snoc i best w' ts t); [done|done|lia|done|exact Hw'|apply Hok; lia| |lia].
  rewrite Hout, lz_copy_agree by (rewrite ?Z2Nat.id; done || lia). by rewrite Z2Nat.id by lia.
Qed.

(** An iteration of the main loop moves ahead. *)
Lemma compress_step_spec i ht w (s : S) : 0 ≤ i ≤ zlen data → chains_ok i ht → comp_state i w →
  awp (compress_step data (zlen data) quality (i, ht, w)) s (λ o _, match o with
    | Val (Next (i', ht', w')) => i < i' ≤ zlen data ∧ chains_ok i' ht' ∧ comp_state i' w'
    | Val (Break (i', ht', w')) => i' = i ∧ ht' = ht ∧ w' = w
    | _ => False
    end).
Proof using Hrich HB Hdata HBn Hq.
  intros Hi Hch Hst. unfold compress_step. destruct (Z.ltb_spec i (zlen data - 3)) as [Hlt|]; cbn [negb]; [|by awp_step].
  awp_step. awp_step. apply zhash_spec; [lia..|]. intros h0. cbn [wp]. set (h := Z.land h0 (stbiw__ZHASH - 1)).
  pose proof (chains_before i ht h Hch) as Hh.
  awp_step. awp_step.
  apply find_match_spec; [lia|lia|done|]. intros best loc Hloc. cbn [wp].
  awp_step. awp_step. apply (prune_spec i ht h _ Hch). intros hl Hhl Hn.
  apply awp_bind. eapply awp_mono; [apply (sbpush_spec 8 (2 * quality) hl i s);
    [lia|c_unfold; lia|destruct hl; [apply Hhl|done]|done]|].
  intros [hl'|] s' Hp; [|done]. destruct Hp as (Ei & Hok & _). cbv zeta.
  assert (chains_ok (i + 1) (<[h := hl']> ht)) as Hch'.
  { intros g l. destruct (decide (g = h)) as [->|Hg].
    - rewrite lookup_insert_eq. intros [= <-]. split; [done|]. rewrite Ei. apply Forall_app. split.
      + destruct hl as [a|]; cbn; [|constructor]. eapply Forall_impl; [apply Hhl|]. cbn; lia.
      + apply Forall_singleton. lia.
    - rewrite lookup_insert_ne by done. apply (chains_mono i (i + 1) ht Hch). lia. }
  apply awp_bind. eapply (awp_mono _ _ (λ o _, match o with
    | Val l => l = None ∨ l = loc | Fail _ => False end)).
  { destruct loc as [p|]; [|awp_step; by left].
    awp_step. awp_step. apply zhash_spec; [lia..|]. intros h1. cbn [wp].
    awp_step. awp_step. apply better_next_spec; [lia|lia| |].
    - eapply Forall_impl; [apply (chains_before (i + 1) _ _ Hch')|]. cbn; lia.
    - intros b. awp_step. destruct b; [by left|by right]. }
  intros [l|] s1 Hl; [|done]. destruct l as [p|].
  - destruct Hl as [?|<-]; [done|]. destruct (Hloc p eq_refl) as (H1 & H2 & H3 & H4 & H5).
    apply awp_bind. eapply awp_mono; [apply (match_step i w best p s1 Hst); lia || done|].
    intros [w'|] s2 Hw'; [|done]. awp_step. split; [lia|]. split; [|done].
    apply (chains_mono (i + 1)); [done|lia].
  - awp_step. awp_step. rewrite rd_ok by lia. cbn [wp].
    apply awp_bind. eapply awp_mono; [apply (literal_step i w s1 Hst); lia|].
    intros [w'|] s2 Hw'; [|done]. awp_step. split; [lia|]. split; done.
Qed.

Lemma compress_loop_spec w (s : S) : comp_state 0 w →
  awp_ok (a_loop (Datatypes.S (Z.to_nat (zlen data))) (compress_step data (zlen data) quality) (0, ∅, w)) s
    (λ r _, ∃ i ht w', r = Fell (i, ht, w') ∧ 0 ≤ i ≤ zlen data ∧ comp_state i w').
Proof using Hrich HB Hdata HBn Hq.
  intros Hw. apply (awp_loop (λ '(i, ht, w) _, 0 ≤ i ≤ zlen data ∧ chains_ok i ht ∧ comp_state i w)
    (λ '(i, _, _) _, Z.to_nat (zlen data - i))).
  - split; [lia|]. split; [|done]. intros h hl. by rewrite lookup_empty.
  - lia.
  - intros [[i ht] w1] s1 (Hi & Hch & Hst). eapply awp_mono; [by apply compress_step_spec|].
    intros [[[[i' ht'] w']|[[i' ht'] w']|[]]|] s2 H; [| |done].
    + destruct H as (H1 & H2 & H3). split; [|lia]. split; [lia|done].
    + destruct H as (-> & -> & ->). exists i, ht, w1. done.
Qed.

Definition is_compressed (bs : list Z) (blocks : list zblock) : Prop :=
  Forall is_byte bs ∧ value_le bs = bits_val (blocks_fields blocks) ∧
  bits_len (blocks_fields blocks) ≤ 8 * zlen bs ∧ blocks_ok true blocks [] ∧ blocks_out blocks [] = data.

(** One block with the fixed codes. *)
Lemma compress_fixed_spec (s : S) :
  awp_ok (compress_fixed data (zlen data) quality) s (λ w _, ∃ o bs ts, zw_out w = Some o ∧
    sb_items o = zlib_head ++ bs ∧ sb_ok B o ∧ is_compressed bs [Fixed ts]).
Proof using Hrich HB Hdata HBn Hq.
  unfold compress_fixed. awp_step.
  eapply (awp_ok_mono _ _ (λ w _, ∃ o, w = {| zw_out := Some o; bitbuf := 0; bitcount := 0 |} ∧
    sb_items o = [0x78] ∧ sb_ok B o)).
  { unfold zw_push. awp_step. eapply awp_ok_mono; [apply (sbpush_spec 1 B None 0x78 s); cbn; c_unfold; lia || done|].
    intros o s' (E & Ho & _). awp_step. exists o. done. }
  intros w s1 (o & -> & Eo & Ho).
  awp_step. eapply awp_ok_mono; [apply (zw_push_spec _ o 0x5e s1); [done|exact Ho|]; unfold stbiw__sbn; rewrite Eo; cbn; lia|].
  intros w s2 (o' & -> & Eo' & Ho'). rewrite Eo in Eo'. cbn [bitbuf bitcount].
  assert (wrote [] {| zw_out := Some o'; bitbuf := 0; bitcount := 0 |}) as Hw.
  { split; [|done]. exists o', []. cbn [zw_out bitbuf bitcount bits_val bits_len foldr]. split; [done|]. split; [done|].
    split; [done|]. split; [done|]. cbn. lia. }
  awp_step. eapply awp_ok_mono; [apply (wrote_add [] _ 1 1 s2 Hw); [lia|split; cbn; lia|cbn; lia]|]. clear Hw.
  intros w1 s3 Hw. awp_step. eapply awp_ok_mono; [apply (wrote_add _ _ 1 2 s3 Hw); [lia|split; cbn; lia|cbn; lia]|]. clear Hw.
  intros w2 s4 Hw. assert (comp_state 0 w2) as Hst by (exists []; done).
  awp_step. eapply awp_ok_mono; [by apply compress_loop_spec|]. clear Hst Hw.
  intros r s5 (i & ht & w3 & -> & Hi & Hst). cbn [fell].
  awp_step. apply (awp_ok_for (λ i w _, comp_state i w)); [done| |].
  { intros j w s6 Hj Hs. awp_step. awp_step. rewrite rd_ok by lia. cbn [wp]. apply literal_step; [done|lia]. }
  clear Hst. rewrite Z.max_r by lia. intros w4 s6 (ts & Hw & Hts & Hout & Hlen).
  rewrite take_ge in Hout by lia. pose proof (comp_len _ _ _ Hw Hlen) as Hl.
  awp_step. eapply awp_ok_mono; [apply (wrote_huff _ w4 256 s6 Hw); lia|]. clear Hw. intros w5 s7 Hw.
  assert ((symbol_field fll 256).2 = 7) as E256 by (by vm_compute).
  eapply awp_ok_mono; [apply (pad_spec _ w5 s7 Hw)|].
  { rewrite bits_len_app. cbn [bits_len foldr]. rewrite E256. lia. }
  intros w6 s8 (n & (o6 & bs & E6 & Ei & Ho6 & Hb & Hv & En & Hc & Hbb) & Hn & E0).
  exists o6, bs, ts. split; [done|]. split; [done|]. split; [done|].
  rewrite <- app_assoc in Hv, Hn. rewrite E0 in *. change (2 ^ 0) with 1 in Hbb.
  replace (bitbuf w6) with 0 in Hv by lia.
  split; [done|]. split; [|split; [|split; [by split|done]]].
  - cbn [blocks_fields]. unfold block_fields. change (Z.b2z true) with 1. cbn [app] in Hv. lia.
  - cbn [blocks_fields]. unfold block_fields. change (Z.b2z true) with 1. cbn [app] in Hn. lia.
Qed.

(** *** Stored blocks *)
Abbreviation byte_fields l := ((λ x : Z, (x, 8)) <$> l).

Lemma bytes_16 len : 0 ≤ len < 65536 →
  u8 len + 256 * u8 (Z.shiftr len 8) = len ∧
  u8 (Z.lnot len) + 256 * u8 (Z.shiftr (Z.lnot len) 8) = 65535 - len.
Proof using Type.
  clear. intros Hl. unfold u8, Z.lnot, Z.pred. rewrite !Z.shiftr_div_pow2 by lia.
  change (2 ^ 8) with 256. split; Z.div_mod_to_equations; lia.
Qed.

(** A block is its five bytes and its data. *)
Definition stored_header (final : bool) (len : Z) : list Z :=
  [Z.b2z final; u8 len; u8 (Z.shiftr len 8); u8 (Z.lnot len); u8 (Z.shiftr (Z.lnot len) 8)].

Lemma stored_bytes final l : Forall is_byte l → zlen l < 65536 →
  value_le (stored_header final (zlen l) ++ l) = bits_val (block_fields final (Stored l)) ∧
  bits_len (block_fields final (Stored l)) = 8 * zlen (stored_header final (zlen l) ++ l).
Proof using Type.
  clear. intros Hl Hn. destruct (byte_fields_val l) as [E1 E2]. destruct (bytes_16 (zlen l) ltac:(lia)) as [L1 L2].
  unfold block_fields, stored_header. cbn [app bits_val bits_len value_le foldr fst snd length].
  fold (bits_val (byte_fields l)) (bits_len (byte_fields l)) (value_le l). rewrite E1, E2.
  change (2 ^ 1) with 2. change (2 ^ 2) with 4. change (2 ^ 5) with 32. change (2 ^ 16) with 65536. lia.
Qed.

(** The room the blocks from [j] on take. *)
Definition stored_room (j : Z) : Z := zlen data - j + 5 * ((zlen data - j + 32766) / 32767).

Lemma store_block_spec o j (s : S) : sb_ok B o → 0 ≤ j < zlen data → stbiw__sbn o + stored_room j ≤ stbiw__sbm o →
  stbiw__sbn o + stored_room j ≤ B →
  let len := Z.min 32767 (zlen data - j) in
  awp_ok (store_block data (zlen data) (o, j)) s (λ c _, ∃ o', c = Next (o', j + len) ∧
    sb_items o' = sb_items o ++ stored_header (j + len =? zlen data) len ++ slice data j len ∧ sb_ok B o' ∧
    stbiw__sbn o' + stored_room (j + len) ≤ stbiw__sbm o' ∧ stbiw__sbn o' + stored_room (j + len) ≤ B).
Proof using Hrich HB.
  intros Ho Hj Hm HB' len. unfold store_block. rewrite (proj2 (Z.ltb_lt j _)) by lia. cbn [negb].
  assert ((if 32767 <? zlen data - j then 32767 else zlen data - j) = len) as -> by (unfold len; case_match; lia).
  assert (stored_room j = 5 + len + stored_room (j + len)) as Er.
  { unfold stored_room, len. destruct (Z.min_spec 32767 (zlen data - j)) as [[H ->]|[H ->]];
      Z.div_mod_to_equations; lia. }
  assert (0 ≤ stored_room (j + len)) as Hr0.
  { unfold stored_room. pose proof (Z.div_pos (zlen data - (j + len) + 32766) 32767 ltac:(lia) ltac:(lia)). lia. }
  assert (0 < len ≤ 32767 ∧ j + len ≤ zlen data) as [Hlen Hin] by lia.
  set (k := stored_room (j + len)) in *. rewrite Er in HB', Hm. clearbody len k. clear Er.
  assert (∀ o1 v (s : S) n, sb_ok B o1 → stbiw__sbn o1 + 1 + n ≤ B → 0 ≤ n → stbiw__sbn o1 + 1 + n ≤ stbiw__sbm o1 →
    awp_ok (stbiw__sbpush 1 (Some o1) v) s (λ o2 _, sb_items o2 = sb_items o1 ++ [v] ∧ sb_ok B o2 ∧
      stbiw__sbn o2 + n ≤ B ∧ stbiw__sbn o2 + n ≤ stbiw__sbm o2)) as Hpush.
  { intros o1 v s1 n H1 H2 H3 H4. eapply awp_ok_mono;
      [apply (sbpush_spec 1 B (Some o1) v s1); [lia|c_unfold; lia|exact H1|cbn; lia]|].
    intros o2 s2 (E & Ho2 & Hm2). cbn in Hm2, E. split; [done|]. split; [done|].
    unfold stbiw__sbn in *. rewrite E, length_app. cbn [length]. lia. }
  awp_step. eapply awp_ok_mono; [apply (Hpush o _ s (4 + len + k)); lia || done|]. intros o1 s1 (E1 & H1 & B1 & M1).
  awp_step. eapply awp_ok_mono; [apply (Hpush o1 _ s1 (3 + len + k)); lia || done|]. intros o2 s2 (E2 & H2 & B2 & M2).
  awp_step. eapply awp_ok_mono; [apply (Hpush o2 _ s2 (2 + len + k)); lia || done|]. intros o3 s3 (E3 & H3 & B3 & M3).
  awp_step. eapply awp_ok_mono; [apply (Hpush o3 _ s3 (1 + len + k)); lia || done|]. intros o4 s4 (E4 & H4 & B4 & M4).
  awp_step. eapply awp_ok_mono; [apply (Hpush o4 _ s4 (len + k)); lia || done|]. intros o5 s5 (E5 & H5 & B5 & M5).
  rewrite (proj2 (Z.leb_le _ _)), (proj2 (Z.leb_le _ _)) by lia. cbn [andb]. awp_step. eexists. split; [reflexivity|].
  assert (zlen (slice data j len) = len) as El by (unfold slice; rewrite length_take, length_drop; lia).
  cbn [sb_items stbiw__sbm]. unfold sb_ok, stbiw__sbn in *. cbn [sb_items stbiw__sbm].
  fold (slice data j len). rewrite length_app.
  split; [|lia].
  rewrite E5, E4, E3, E2, E1, <- !app_assoc. unfold stored_header. cbn [app].
  do 3 f_equal. destruct (Z.eqb_spec (zlen data - j) len), (Z.eqb_spec (j + len) (zlen data)); cbn; lia.
Qed.

(** The stored blocks from [j] on. *)
Lemma store_blocks_spec fuel : ∀ o j (s : S), sb_ok B o → 0 ≤ j ≤ zlen data →
  stbiw__sbn o + stored_room j ≤ stbiw__sbm o → stbiw__sbn o + stored_room j ≤ B →
  zlen data - j < Z.of_nat fuel →
  awp_ok (a_loop fuel (store_block data (zlen data)) (o, j)) s (λ r _, ∃ o' bs blocks, r = Fell (o', zlen data) ∧
    sb_items o' = sb_items o ++ bs ∧ sb_ok B o' ∧ zlen bs = stored_room j ∧ Forall is_byte bs ∧
    value_le bs = bits_val (blocks_fields blocks) ∧ bits_len (blocks_fields blocks) = 8 * zlen bs ∧
    blocks_ok true blocks (take (Z.to_nat j) data) ∧ blocks_out blocks (take (Z.to_nat j) data) = data ∧
    (blocks = [] ↔ j = zlen data)).
Proof using Hrich HB Hdata.
  induction fuel as [|fuel IH]; intros o j s Ho Hj Hm HB' Hfuel; [lia|]. cbn [a_loop].
  destruct (decide (j = zlen data)) as [->|Hne].
  { awp_step. unfold store_block at 1. rewrite (proj2 (Z.ltb_ge _ _)) by lia. cbn [negb]. awp_step. awp_step.
    exists o, [], []. cbn [app blocks_fields blocks_ok blocks_out foldl]. rewrite app_nil_r.
    split; [done|]. split; [done|]. split; [done|]. split; [|split; [done|]].
    - unfold stored_room. rewrite Z.sub_diag. done.
    - split; [done|]. split; [done|]. split; [done|]. split; [|done]. by rewrite take_ge by lia. }
  set (len := Z.min 32767 (zlen data - j)).
  awp_step. eapply awp_ok_mono; [apply store_block_spec; [done|lia|done|done]|].
  intros c s1 (o1 & -> & E1 & Ho1 & Hm1 & HB1).
  eapply awp_ok_mono; [apply (IH o1 (j + len) s1 Ho1); lia || done|].
  intros r s2 (o2 & bs & blocks & -> & E2 & Ho2 & Hl2 & Hb2 & Hv2 & Hbl2 & Hok2 & Hout2 & Hnil).
  set (final := j + len =? zlen data) in *. set (l := slice data j len) in *.
  assert (zlen l = len) as El by (unfold l, slice; rewrite length_take, length_drop; lia).
  assert (Forall is_byte l) as Hl by (by apply Forall_take, Forall_drop).
  destruct (stored_bytes final l Hl ltac:(lia)) as [Ev Ebl]. rewrite El in Ev, Ebl.
  assert (blocks_fields (Stored l :: blocks) = block_fields final (Stored l) ++ blocks_fields blocks) as Ef.
  { destruct blocks as [|b blocks].
    - assert (final = true) as -> by (apply Z.eqb_eq; by apply Hnil). cbn [blocks_fields]. by rewrite app_nil_r.
    - destruct (Z.eqb_spec (j + len) (zlen data)) as [E|]; [by apply Hnil in E|done]. }
  assert (take (Z.to_nat (j + len)) data = take (Z.to_nat j) data ++ l) as Etk
    by (unfold l; by rewrite slice_take by lia).
  assert (Forall is_byte (stored_header final len)) as Hhd.
  { unfold stored_header. apply Forall_cons_2; [by destruct final|].
    do 4 (apply Forall_cons_2; [apply u8_range|]). apply Forall_nil_2. }
  exists o2, (stored_header final len ++ l ++ bs), (Stored l :: blocks).
  split; [done|]. split; [by rewrite E2, E1, <- !app_assoc|]. split; [done|]. split; [|split].
  - assert (zlen (stored_header final len) = 5) as H5 by done.
    rewrite !length_app, !Nat2Z.inj_add, H5, El, Hl2. unfold stored_room, len.
    destruct (Z.min_spec 32767 (zlen data - j)) as [[H ->]|[H ->]]; Z.div_mod_to_equations; lia.
  - apply Forall_app; split; [done|]. by apply Forall_app.
  - rewrite app_assoc. rewrite Ef, value_le_app, bits_val_app, bits_len_app, Ev, Hv2, Ebl, Hbl2
      by (apply (block_fields_ok final (Stored l) [] true); split; [split; [done|split; [lia|done]]|done]).
    rewrite (length_app (_ ++ _) bs), Nat2Z.inj_add. split; [done|]. split; [lia|].
    rewrite Etk in Hok2, Hout2. split; [|split; [done|]].
    + split; [split; [done|split; [lia|done]]|]. done.
    + split; [done|]. intros ->. lia.
Qed.
End writer.

(** ** The whole compressor *)
Section compress.
Context `{Env : StbiEnv} {S : Type}.
Hypothesis Hrich : ∀ n, 0 ≤ n < 2 ^ 32 → malloc_ok n = true.

Lemma push_adler_spec B o s1 s2 (s : S) : 8 ≤ B ≤ 2 ^ 29 → sb_ok B o → stbiw__sbn o + 4 ≤ B →
  awp_ok (push_adler o s1 s2) s (λ o' _, sb_items o' = sb_items o ++
    [u8 (Z.shiftr s2 8); u8 s2; u8 (Z.shiftr s1 8); u8 s1]).
Proof using Hrich.
  intros HB Ho Hn. unfold push_adler.
  assert (∀ o1 v (s : S) n, 0 ≤ n → sb_ok B o1 → stbiw__sbn o1 + 1 + n ≤ B →
    awp_ok (stbiw__sbpush 1 (Some o1) v) s (λ o2 _, sb_items o2 = sb_items o1 ++ [v] ∧ sb_ok B o2 ∧
      stbiw__sbn o2 + n ≤ B)) as Hpush.
  { intros o1 v s0 n H0 H1 H2. eapply awp_ok_mono;
      [apply (sbpush_spec Hrich 1 B (Some o1) v s0); [lia|c_unfold; lia|exact H1|cbn; lia]|].
    intros o2 s3 (E & Ho2 & _). cbn in E. split; [done|]. split; [done|].
    unfold stbiw__sbn in *. rewrite E, length_app. cbn [length]. lia. }
  awp_step. eapply awp_ok_mono; [apply (Hpush o _ s 3); lia || done|]. intros o1 t1 (E1 & H1 & B1).
  awp_step. eapply awp_ok_mono; [apply (Hpush o1 _ t1 2); lia || done|]. intros o2 t2 (E2 & H2 & B2).
  awp_step. eapply awp_ok_mono; [apply (Hpush o2 _ t2 1); lia || done|]. intros o3 t3 (E3 & H3 & B3).
  eapply awp_ok_mono; [apply (Hpush o3 _ t3 0); lia || done|]. intros o4 t4 (E4 & _).
  by rewrite E4, E3, E2, E1, <- !app_assoc.
Qed.

(** The checksum, as it ends the stream. *)
Definition adler_bytes (data : list Z) : list Z :=
  let s := adler32 data in [u8 (Z.shiftr s.2 8); u8 s.2; u8 (Z.shiftr s.1 8); u8 s.1].

(** No more than the data, and five bytes for each 32767 of it. *)
Definition stored_size (n : Z) : Z := n + 5 * ((n + 32766) / 32767).

Lemma zlib_compress_spec data quality (s : S) : Forall is_byte data → 0 ≤ zlen data ≤ 2 ^ 28 - 8 →
  quality ≤ 2 ^ 20 →
  awp_ok (stbi_zlib_compress data (zlen data) quality) s (λ out _, ∃ bs blocks,
    out = zlib_head ++ bs ++ adler_bytes data ∧ is_compressed data bs blocks ∧
    (data ≠ [] → blocks ≠ []) ∧ zlen bs ≤ stored_size (zlen data)).
Proof using Hrich.
  intros Hd Hn Hq. unfold stbi_zlib_compress. unfold stbiw__ZHASH at 1. rewrite Hrich by lia. cbn [negb].
  set (q := if quality <? 5 then 5 else quality).
  assert (5 ≤ q ≤ 2 ^ 20) as Hq' by (unfold q; destruct (Z.ltb_spec quality 5); lia). clearbody q.
  set (B := 2 * zlen data + 16). assert (8 ≤ B ≤ 2 ^ 29) as HB by lia.
  assert (0 ≤ (zlen data + 32766) / 32767 ∧ 5 * ((zlen data + 32766) / 32767) ≤ zlen data + 10) as Hblk
    by (Z.div_mod_to_equations; lia).
  awp_step. eapply awp_ok_mono; [apply (compress_fixed_spec Hrich B HB q Hq' data Hd ltac:(lia) s)|].
  intros w s1 (o & bs & ts & Ew & Ei & Ho & Hbs). rewrite Ew. awp_step. awp_step. cbn [wp].
  awp_step. awp_step. rewrite i32_ok by (c_unfold; lia). cbn [wp].
  awp_step. awp_step. rewrite Z.quot_div_nonneg by lia. rewrite i32_ok by (c_unfold; lia). cbn [wp].
  awp_step. awp_step. rewrite i32_ok by (c_unfold; lia). cbn [wp mbind Res_bind].
  rewrite i32_ok by (c_unfold; lia). cbn [wp].
  awp_step. eapply (awp_ok_mono _ _ (λ o _, ∃ bs blocks, sb_items o = zlib_head ++ bs ∧ sb_ok B o ∧
    is_compressed data bs blocks ∧ (data ≠ [] → blocks ≠ []) ∧ zlen bs ≤ stored_size (zlen data))).
  - assert (stbiw__sbn o = 2 + zlen bs) as En by (unfold stbiw__sbn; rewrite Ei, length_app; cbn; lia).
    destruct (Z.ltb_spec (zlen data + 2 + (zlen data + 32766) / 32767 * 5) (stbiw__sbn o)) as [Hlt|Hge].
    2: { awp_step. exists bs, [Fixed ts]. unfold stored_size. split; [done|]. split; [done|]. split; [done|].
         split; [done|]. lia. }
    rewrite Ei. change (take 2 (zlib_head ++ bs)) with zlib_head.
    set (o0 := {| stbiw__sbm := stbiw__sbm o; sb_items := zlib_head |}).
    assert (stored_room data 0 = stored_size (zlen data)) as Er by (unfold stored_room, stored_size; by rewrite Z.sub_0_r).
    assert (sb_ok B o0) as Ho0 by (destruct Ho; unfold sb_ok, o0, stbiw__sbn in *; cbn [sb_items stbiw__sbm length zlib_head]; lia).
    assert (stbiw__sbn o0 = 2) as E0 by done.
    awp_step. eapply awp_ok_mono; [apply (store_blocks_spec Hrich B HB data Hd _ o0 0 s1 Ho0)|].
    { lia. } { rewrite E0, Er. destruct Ho as [_ Hm]. unfold o0. cbn [stbiw__sbm]. unfold stored_size. lia. }
    { rewrite E0, Er. unfold stored_size, B. lia. } { lia. }
    intros r s2 (o' & bs' & blocks & -> & Ei' & Ho' & Hl & Hb & Hv & Hbl & Hok & Hout & Hnil). awp_step. cbn [fell fst].
    exists bs', blocks. split; [done|]. split; [done|]. split; [|split].
    + split; [done|]. split; [done|]. split; [lia|]. done.
    + intros Hne Hb0. apply Hne. apply Hnil in Hb0. by apply nil_length_inv; lia.
    + rewrite Hl, Er. lia.
  - intros o' s2 (bs' & blocks & Ei' & Ho' & Hc & Hne & Hl). awp_step. awp_step.
    apply adler_sums_wp; [done|c_unfold; lia|].
    destruct (adler32 data) as [a1 a2] eqn:Ea.
    awp_step. eapply awp_ok_mono; [apply (push_adler_spec B o' a1 a2 s2 HB Ho')|].
    { unfold stbiw__sbn. rewrite Ei', length_app. unfold stored_size in Hl. cbn [length zlib_head]. lia. }
    intros o2 s3 E2. awp_step. exists bs', blocks. rewrite E2, Ei', <- app_assoc. unfold adler_bytes. by rewrite Ea.
Qed.
End compress.

Lemma adler_bytes_ok data : Forall is_byte (adler_bytes data).
Proof.
  unfold adler_bytes. cbv zeta. do 4 (apply Forall_cons_2; [apply u8_range|]). apply Forall_nil_2.
Qed.

(** Every block has its three bits. *)
Lemma blocks_bits blocks aligned out : blocks_ok aligned blocks out →
  3 * zlen blocks ≤ bits_len (blocks_fields blocks).
Proof.
  revert aligned out. induction blocks as [|b blocks IH]; intros aligned out Hok; [done|].
  assert (∀ final, 3 ≤ bits_len (block_fields final b)) as Hb.
  { intros final. pose proof (block_fields_ok final b out aligned (conj (proj1 Hok) I)) as Hf.
    destruct b as [ts|l]; unfold block_fields in *; inversion_clear Hf as [|?? _ Hf'];
      inversion_clear Hf' as [|?? _ Hf]; pose proof (bits_len_nonneg _ Hf) as H;
      match goal with |- _ ≤ bits_len (_ :: _ :: ?l) => change (3 ≤ 1 + (2 + bits_len l)) end; lia. }
  destruct Hok as [_ Hok]. specialize (IH _ _ Hok). destruct blocks as [|b' blocks].
  { specialize (Hb true). cbn [blocks_fields length]. lia. }
  change (blocks_fields (b :: b' :: blocks)) with (block_fields false b ++ blocks_fields (b' :: blocks)).
  rewrite bits_len_app. specialize (Hb false). cbn [length] in *. lia.
Qed.

Section properties.
Context `{Env : StbiEnv} {S : Type}.
Hypothesis Hrich : ∀ n, 0 ≤ n < 2 ^ 32 → malloc_ok n = true.

(** The decoder reads what the compressor writes. *)
Lemma compressed_decodes data bs blocks init fuel junk : is_compressed data bs blocks → blocks ≠ [] → Forall is_byte junk →
  zlen data ≤ 2 ^ 28 → zlen bs ≤ 2 ^ 30 → 0 < init ≤ INT_MAX → zlen data < Z.of_nat fuel →
  3 * zlen bs ≤ Z.of_nat fuel →
  let out := zlib_head ++ bs ++ adler_bytes data in
  ∃ buf, stbi_zlib_decode_malloc_guesssize_headerflag fuel (out ++ junk) (zlen out) init true =
      Ok (Val (buf, zlen data)) ∧ take (length data) buf = data.
Proof using Hrich.
  intros (Hb & Hv & Hl & Hok & Hout) Hne Hj Hn Hbs Hinit Hfuel Hloops out.
  assert (zlen (bs ++ adler_bytes data) = zlen bs + 4) as El by (rewrite length_app; cbn [length adler_bytes]; lia).
  c_unfold. enough (∃ buf, stbi_zlib_decode_malloc_guesssize_headerflag fuel (out ++ junk) (zlen out) init true =
    Ok (Val (buf, zlen (blocks_out blocks []))) ∧
    take (length (blocks_out blocks [])) buf = blocks_out blocks []) as H by (by rewrite Hout in H).
  apply (decode_stream_run Hrich (2 ^ 32) ltac:(lia) blocks (bs ++ adler_bytes data)
    (2 ^ (8 * zlen bs - bits_len (blocks_fields blocks)) * value_le (adler_bytes data))).
  - done.
  - done.
  - unfold out. rewrite !Forall_app. split; [|done]. split; [repeat constructor; lia|]. split; [done|apply adler_bytes_ok].
  - rewrite length_app. lia.
  - rewrite Nat2Z.id, take_app_length. exists 0x78, 0x5e. split; [done|]. split; [by destruct bs|]. done.
  - pose proof (bits_len_nonneg _ (blocks_fields_ok blocks [] true Hok)).
    rewrite value_le_app, Hv, Z.mul_assoc, <- Z.pow_add_r by lia. do 3 f_equal. lia.
  - lia.
  - rewrite Hout. lia.
  - rewrite Hout. lia.
  - pose proof (blocks_bits _ _ _ Hok). lia.
  - c_unfold. lia.
  - lia.
Qed.

(** C2. Compressing and decompressing: with memory to spare, [stbi_zlib_compress]
    succeeds on every nonempty byte string up to 2^28 - 8 bytes, at any quality
    up to 2^20, and [stbi_zlib_decode_malloc_guesssize_headerflag] succeeds on
    the bytes it wrote, whatever size it first allocates, and gives the string
    back. *)
Theorem zlib_roundtrip data quality (s : S) : Forall is_byte data → 0 < zlen data ≤ 2 ^ 28 - 8 → quality ≤ 2 ^ 20 →
  ∃ out s', stbi_zlib_compress data (zlen data) quality s = Ok (Val out, s') ∧
  ∀ init fuel, 0 < init ≤ INT_MAX → 8 * zlen data + 64 ≤ Z.of_nat fuel →
  ∃ buf, stbi_zlib_decode_malloc_guesssize_headerflag fuel out (zlen out) init true = Ok (Val (buf, zlen data)) ∧
    take (length data) buf = data.
Proof using Hrich.
  intros Hd Hn Hq. destruct (awp_ok_elim _ _ _ (zlib_compress_spec Hrich data quality s Hd ltac:(lia) Hq))
    as (out & s' & E & bs & blocks & -> & Hc & Hne & Hl).
  assert (stored_size (zlen data) ≤ 2 * zlen data + 10) as Hs
    by (unfold stored_size; Z.div_mod_to_equations; lia).
  eexists _, s'. split; [exact E|]. intros init fuel Hinit Hfuel.
  pose proof (compressed_decodes data bs blocks init fuel [] Hc) as H. cbv zeta in H. rewrite app_nil_r in H.
  apply H; [|done|lia..]. apply Hne. intros ->. cbn in Hn. lia.
Qed.

(** The compressed bytes begin with the zlib header, end with the Adler-32
    checksum of RFC 1950 and, by the stored fallback, are never longer than the
    data by more than six bytes and five for each started 32767. *)
Theorem zlib_compress_bounded data quality (s : S) : Forall is_byte data → 0 ≤ zlen data ≤ 2 ^ 28 - 8 →
  quality ≤ 2 ^ 20 →
  ∃ bs s', stbi_zlib_compress data (zlen data) quality s = Ok (Val (zlib_head ++ bs ++ adler_bytes data), s') ∧
    Forall is_byte bs ∧ zlen (zlib_head ++ bs ++ adler_bytes data) ≤ zlen data + 6 + 5 * ((zlen data + 32766) / 32767).
Proof using Hrich.
  intros Hd Hn Hq. destruct (awp_ok_elim _ _ _ (zlib_compress_spec Hrich data quality s Hd Hn Hq))
    as (out & s' & E & bs & blocks & -> & [Hb _] & _ & Hl).
  exists bs, s'. split; [exact E|]. split; [done|]. rewrite !length_app. unfold stored_size in Hl.
  cbn [length zlib_head adler_bytes]. lia.
Qed.
End properties.

(** A string with a match in it. *)
Definition toy_string : list Z := [97; 98; 99; 97; 98; 99; 97; 98; 99; 97; 98; 99; 100].

Lemma toy_rich n : 0 ≤ n < 2 ^ 32 → @malloc_ok toy_env n = true.
Proof. intros Hn. apply Z.ltb_lt. lia. Qed.

Lemma zlib_roundtrip_witness : ∃ out, @stbi_zlib_compress toy_env unit toy_string 13 8 () = Ok (Val out, ()) ∧
  ∃ buf, @stbi_zlib_decode_malloc_guesssize_headerflag toy_env 200 out (zlen out) 16384 true = Ok (Val (buf, 13)) ∧
    take 13 buf = toy_string.
Proof.
  destruct (@zlib_roundtrip toy_env unit toy_rich toy_string 8 () ltac:(repeat constructor; lia) ltac:(cbn; lia)
    ltac:(lia)) as (out & [] & E & H).
  exists out. split; [exact E|]. destruct (H 16384 200%nat ltac:(c_unfold; lia) ltac:(cbn; lia)) as (buf & E' & Eb).
  exists buf. split; [exact E'|exact Eb].
Defined.

Lemma zlib_compress_bounded_witness : ∃ bs,
  @stbi_zlib_compress toy_env unit toy_string 13 8 () = Ok (Val (zlib_head ++ bs ++ adler_bytes toy_string), ()).
Proof.
  destruct (@zlib_compress_bounded toy_env unit toy_rich toy_string 8 () ltac:(repeat constructor; lia) ltac:(cbn; lia)
    ltac:(lia)) as (bs & [] & E & _).
  exists bs. exact E.
Defined.

(** No bytes at all are compressed to a stream without a block, which the
    decoder refuses. *)
Theorem zlib_empty_lost : @stbi_zlib_compress toy_env unit [] 0 8 () = Ok (Val [0x78; 0x5e; 0; 0; 0; 1], ()) ∧
  ∃ reason, @stbi_zlib_decode_malloc_guesssize_headerflag toy_env 100 [0x78; 0x5e; 0; 0; 0; 1] 6 16384 true =
    Ok (Fail reason).
Proof. split; [by vm_compute|]. eexists. by vm_compute. Qed.
