(* ===== verification/StbWrite.v ===== *)
(** * stb_image_write: the write context, BMP and TGA (facet/gpu/stb_image_write.h, lines 240-660)

    A write context passes everything on to the client's callback; the state
    holds the blocks the callback has been given, in order, and the 64 bytes the
    context collects before it calls.  The image data is a list, a pointer into
    it a position.  The [stbi_write_..._to_func] variants and the ones that
    write to a file differ in the callback alone.  [STBIW_ASSERT] is enabled. *)
From Stdlib Require Import Ascii.
From S2P Require Import Prelude StbMonad StbBase.

(** ** Global switches *)
Class WriteSwitches := {
  stbi__flip_vertically_on_write : bool;
  stbi_write_png_compression_level : Z;
  stbi_write_tga_with_rle : bool;
  stbi_write_force_png_filter : Z
}.

Definition stbi_flip_vertically_on_write (flag : bool) (w : WriteSwitches) : WriteSwitches :=
  {| stbi__flip_vertically_on_write := flag;
     stbi_write_png_compression_level := @stbi_write_png_compression_level w;
     stbi_write_tga_with_rle := @stbi_write_tga_with_rle w;
     stbi_write_force_png_filter := @stbi_write_force_png_filter w |}.

(** Their initial values. *)
Definition default_write_switches : WriteSwitches :=
  {| stbi__flip_vertically_on_write := false; stbi_write_png_compression_level := 8;
     stbi_write_tga_with_rle := true; stbi_write_force_png_filter := -1 |}.

(** What opening a file for writing answers. *)
Class Files := { fopen_ok : string → bool }.

(** ** The context *)
Record stbi__write_context := { sent : list (list Z); buffer : list Z; buf_used : Z }.

(** [stbi__write_context s = { 0 }; stbi__start_write_callbacks(&s, func, context);] *)
Definition stbi__start_write_callbacks : stbi__write_context :=
  {| sent := []; buffer := replicate 64 0; buf_used := 0 |}.

Abbreviation Wr := (Act stbi__write_context).

(** [s->func(s->context, data, size)] *)
Definition func (data : list Z) : Wr unit :=
  modify (λ s, {| sent := sent s ++ [data]; buffer := buffer s; buf_used := buf_used s |}).

(** The format's digits say how many bytes of the next argument are written. *)
Fixpoint stbiw__writefv (fmt : string) (v : list Z) : Wr unit :=
  match fmt with
  | EmptyString => mret ()
  | String c fmt =>
      if Ascii.eqb c " "%char then stbiw__writefv fmt v
      else if Ascii.eqb c "1"%char then
        match v with
        | x :: v => func [u8 x];; stbiw__writefv fmt v
        | [] => lift Undef
        end
      else if Ascii.eqb c "2"%char then
        match v with
        | x :: v => func [u8 x; u8 (Z.shiftr x 8)];; stbiw__writefv fmt v
        | [] => lift Undef
        end
      else if Ascii.eqb c "4"%char then
        match v with
        | x :: v =>
            let x := u32 x in
            func [u8 x; u8 (Z.shiftr x 8); u8 (Z.shiftr x 16); u8 (Z.shiftr x 24)];;
            stbiw__writefv fmt v
        | [] => lift Undef
        end
      else fail "assert"
  end.

Definition stbiw__write_flush : Wr unit :=
  s ← get;
  if negb (buf_used s =? 0) then
    (if buf_used s <=? zlen (buffer s) then func (take (Z.to_nat (buf_used s)) (buffer s))
     else lift Undef);;
    modify (λ s, {| sent := sent s; buffer := buffer s; buf_used := 0 |})
  else mret ().

Definition stbiw__putc (c : Z) : Wr unit := func [c].

Definition set_buffer (b : list Z) (n : Z) : Wr unit :=
  modify (λ s, {| sent := sent s; buffer := b; buf_used := n |}).

Definition stbiw__write1 (a : Z) : Wr unit :=
  s ← get;
  (if 64 <? buf_used s + 1 then stbiw__write_flush else mret ());;
  s ← get;
  b ← lift (wr (buffer s) (buf_used s) a);
  set_buffer b (buf_used s + 1).

Definition stbiw__write3 (a b c : Z) : Wr unit :=
  s ← get;
  (if 64 <? buf_used s + 3 then stbiw__write_flush else mret ());;
  s ← get;
  let n := buf_used s in
  l ← lift (wr (buffer s) n a);
  l ← lift (wr l (n + 1) b);
  l ← lift (wr l (n + 2) c);
  set_buffer l (n + 3).

(** ** Pixels *)
Definition bg : list Z := [255; 0; 255].

(** A channel composited against the background. *)
Definition over_bg (data : list Z) (d k : Z) : Res Z :=
  b ← rd bg k; c ← rd data (d + k); a ← rd data (d + 3); Ok (u8 (b + ((c - b) * a) ÷ 255)).

(** Three channels in the order [rgb_dir] asks for. *)
Definition write_rgb (rgb_dir : Z) (ch : Z → Res Z) : Wr unit :=
  a ← lift (ch (1 - rgb_dir)); b ← lift (ch 1); c ← lift (ch (1 + rgb_dir));
  stbiw__write3 a b c.

(** The pixel at [d]. *)
Definition stbiw__write_pixel (data : list Z) (rgb_dir comp write_alpha : Z) (expand_mono : bool) (d : Z)
  : Wr unit :=
  (if write_alpha <? 0 then a ← lift (rd data (d + (comp - 1))); stbiw__write1 a else mret ());;
  (if (comp =? 2) || (comp =? 1) then
     v ← lift (rd data d);
     if expand_mono then stbiw__write3 v v v else stbiw__write1 v
   else if (comp =? 4) && (write_alpha =? 0) then
     write_rgb rgb_dir (over_bg data d)
   else if (comp =? 4) || (comp =? 3) then
     write_rgb rgb_dir (λ k, rd data (d + k))
   else mret ());;
  if 0 <? write_alpha then a ← lift (rd data (d + (comp - 1))); stbiw__write1 a else mret ().

(** A row, the pixels from [i] on. *)
Definition write_row (data : list Z) (rgb_dir x comp write_alpha : Z) (expand_mono : bool) (j : Z) : Wr unit :=
  a_for 0 x (λ i _,
    jx ← lift (i32 (j * x)); p ← lift (i32 (jx + i)); d ← lift (i32 (p * comp));
    stbiw__write_pixel data rgb_dir comp write_alpha expand_mono d) ().

Section write.
Context {Sw : WriteSwitches}.

Definition stbiw__write_pixels (rgb_dir vdir x y comp : Z) (data : list Z)
    (write_alpha scanline_pad : Z) (expand_mono : bool) : Wr unit :=
  if y <=? 0 then mret () else
  let vdir := if stbi__flip_vertically_on_write then - vdir else vdir in
  let '(j_end, j) := if vdir <? 0 then (-1, y - 1) else (y, 0) in
  a_loop (R := Empty_set) (S (Z.to_nat y)) (λ j,
    if j =? j_end then mret (Break j) else
    write_row data rgb_dir x comp write_alpha expand_mono j;;
    stbiw__write_flush;;
    (if (0 <=? scanline_pad) && (scanline_pad <=? 4)
     then func (replicate (Z.to_nat scanline_pad) 0) else lift Undef);;
    mret (Next (j + vdir))) j;;
  mret ().

Definition stbiw__outfile (rgb_dir vdir x y comp : Z) (expand_mono : bool) (data : list Z)
    (alpha pad : Z) (fmt : string) (v : list Z) : Wr bool :=
  if (y <? 0) || (x <? 0) then mret false else
  stbiw__writefv fmt v;;
  stbiw__write_pixels rgb_dir vdir x y comp data alpha pad expand_mono;;
  mret true.

(** ** BMP *)
Definition stbi_write_bmp_core (x y comp : Z) (data : list Z) : Wr bool :=
  if negb (comp =? 4) then
    nx ← lift (i32 (- x)); nx3 ← lift (i32 (nx * 3));
    let pad := Z.land nx3 3 in
    x3 ← lift (i32 (x * 3)); row ← lift (i32 (x3 + pad)); img ← lift (i32 (row * y));
    size ← lift (i32 (14 + 40 + img));
    stbiw__outfile (-1) (-1) x y comp true data 0 pad "11 4 22 44 44 22 444444"
      [66; 77; size; 0; 0; 14 + 40; 40; x; y; 1; 24; 0; 0; 0; 0; 0; 0]
  else
    xy ← lift (i32 (x * y)); img ← lift (i32 (xy * 4)); size ← lift (i32 (14 + 108 + img));
    stbiw__outfile (-1) (-1) x y comp true data 1 0
      "11 4 22 44 44 22 444444 4444 4 444 444 444 444"
      [66; 77; size; 0; 0; 14 + 108; 108; x; y; 1; 32; 3; 0; 0; 0; 0; 0;
       0xff0000; 0xff00; 0xff; 0xff000000; 0; 0; 0; 0; 0; 0; 0; 0; 0; 0; 0; 0; 0].

(** ** TGA *)

(** [memcmp(data + a, data + b, n) == 0] *)
Definition same_pixel (data : list Z) (a b n : Z) : Res bool :=
  if (0 <=? a) && (0 <=? b) && (a + n <=? zlen data) && (b + n <=? zlen data) then
    Ok (bool_decide (take (Z.to_nat n) (drop (Z.to_nat a) data) = take (Z.to_nat n) (drop (Z.to_nat b) data)))
  else Undef.

(** The length of the packet at pixel [i] of the row at [row], and whether it
    is one of different pixels. *)
Definition tga_packet (data : list Z) (row x comp i : Z) : Res (Z * bool) :=
  o ← i32 (i * comp);
  let begin := row + o in
  if negb (i <? x - 1) then Ok (1, true) else
  o ← i32 ((i + 1) * comp);
  eq ← same_pixel data begin (row + o) comp;
  if eq : bool then
    r ← for_ctl (R := Empty_set) (i + 2) x (λ k len,
      if negb (len <? 128) then Ok (Break len) else
      o ← i32 (k * comp);
      e ← same_pixel data begin (row + o) comp;
      Ok (if e : bool then Next (len + 1) else Break len)) 2;
    Ok (fell r, false)
  else
    r ← for_ctl (R := Empty_set) (i + 2) x (λ k '(len, prev),
      if negb (len <? 128) then Ok (Break (len, prev)) else
      o ← i32 (k * comp);
      e ← same_pixel data prev (row + o) comp;
      Ok (if e : bool then Break (len - 1, prev) else Next (len + 1, prev + comp))) (2, begin);
    Ok ((fell r).1, true).

Definition tga_row (data : list Z) (x comp has_alpha row : Z) : Wr unit :=
  a_loop (R := Empty_set) (S (Z.to_nat x)) (λ i,
    if negb (i <? x) then mret (Break i) else
    '(len, diff) ← lift (tga_packet data row x comp i);
    let begin := row + i * comp in
    (if diff : bool then
       stbiw__write1 (u8 (len - 1));;
       a_for 0 len (λ k _, stbiw__write_pixel data (-1) comp has_alpha false (begin + k * comp)) ()
     else
       stbiw__write1 (u8 (len - 129));;
       stbiw__write_pixel data (-1) comp has_alpha false begin);;
    mret (Next (i + len))) 0;;
  mret ().

Definition stbi_write_tga_core (x y comp : Z) (data : list Z) : Wr bool :=
  let has_alpha := if (comp =? 2) || (comp =? 4) then 1 else 0 in
  let colorbytes := if has_alpha =? 1 then comp - 1 else comp in
  let format := if colorbytes <? 2 then 3 else 2 in
  if (y <? 0) || (x <? 0) then mret false else
  let bits := (colorbytes + has_alpha) * 8 in
  if negb stbi_write_tga_with_rle then
    stbiw__outfile (-1) (-1) x y comp false data has_alpha 0 "111 221 2222 11"
      [0; 0; format; 0; 0; 0; 0; 0; x; y; bits; has_alpha * 8]
  else
    stbiw__writefv "111 221 2222 11" [0; 0; format + 8; 0; 0; 0; 0; 0; x; y; bits; has_alpha * 8];;
    let '(j, jend, jdir) := if stbi__flip_vertically_on_write then (0, y, 1) else (y - 1, -1, -1) in
    a_loop (R := Empty_set) (S (Z.to_nat y)) (λ j,
      if j =? jend then mret (Break j) else
      jx ← lift (i32 (j * x)); row ← lift (i32 (jx * comp));
      tga_row data x comp has_alpha row;;
      mret (Next (j + jdir))) j;;
    stbiw__write_flush;;
    mret true.

(** ** Entry points

    The blocks the callback received, and the result. *)
Definition to_func (m : Wr bool) : Res (outcome bool * list (list Z)) :=
  match m stbi__start_write_callbacks with
  | Ok (r, s) => Ok (r, sent s)
  | Undef => Undef
  | NoFuel => NoFuel
  end.

Definition stbi_write_bmp_to_func (x y comp : Z) (data : list Z) := to_func (stbi_write_bmp_core x y comp data).
Definition stbi_write_tga_to_func (x y comp : Z) (data : list Z) := to_func (stbi_write_tga_core x y comp data).

(** With a file: nothing is written when it cannot be opened. *)
Definition to_file `{Files} (filename : string) (m : Wr bool) : Res (outcome bool * list (list Z)) :=
  if fopen_ok filename then to_func m else Ok (Val false, []).

Definition stbi_write_bmp `{Files} (filename : string) (x y comp : Z) (data : list Z) :=
  to_file filename (stbi_write_bmp_core x y comp data).
Definition stbi_write_tga `{Files} (filename : string) (x y comp : Z) (data : list Z) :=
  to_file filename (stbi_write_tga_core x y comp data).
End write.
