(* ===== verification/StbWriteSpec.v ===== *)
(** * stb_image_write: the write context and rows of pixels

    What a call adds to the output: the blocks the client has received and, for
    the calls that collect, the bytes that wait in the context. *)
From S2P Require Import Prelude StbMonad StbBase StbBaseSpec StbWrite.

(** ** Calls that go through to the client *)
Definition wrote (bs : list Z) (s s' : stbi__write_context) : Prop :=
  mjoin (sent s') = mjoin (sent s) ++ bs.

Lemma wrote_trans a b s s1 s2 : wrote a s s1 → wrote b s1 s2 → wrote (a ++ b) s s2.
Proof. unfold wrote. intros H1 H2. by rewrite H2, H1, app_assoc. Qed.

Lemma wrote_nil s : wrote [] s s.
Proof. unfold wrote. by rewrite app_nil_r. Qed.

Lemma func_spec l s : awp_ok (func l) s (λ _ s', wrote l s s').
Proof. unfold awp_ok, awp, func, wrote. cbn. rewrite join_app. cbn. by rewrite app_nil_r. Qed.

(** A call that writes [a] before one that writes [b]. *)
Lemma then_writes {A} (m : Wr unit) (k : Wr A) a s (P : A → list Z → Prop) :
  awp_ok m s (λ _ s', wrote a s s') →
  (∀ s', awp_ok k s' (λ r s'', ∃ b, wrote b s' s'' ∧ P r (a ++ b))) →
  awp_ok (m;; k) s (λ r s'', ∃ b, wrote b s s'' ∧ P r b).
Proof.
  intros Hm Hk. apply awp_ok_bind. eapply awp_ok_mono; [exact Hm|]. cbn beta. intros _ s' Hs.
  eapply awp_ok_mono; [apply Hk|]. cbn beta. intros r s'' (b & Hb & HP). exists (a ++ b).
  split; [by eapply wrote_trans|done].
Qed.

(** ** Calls that collect

    The 64 bytes of the context wait behind what the client has received. *)
Record wctx_ok (s : stbi__write_context) : Prop := {
  wc_length : zlen (buffer s) = 64;
  wc_used : 0 ≤ buf_used s ≤ 64;
  wc_blocks : Forall (λ b, zlen b ≤ 64) (sent s)
}.

Definition stream (s : stbi__write_context) : list Z :=
  mjoin (sent s) ++ take (Z.to_nat (buf_used s)) (buffer s).

Definition puts (bs : list Z) (s s' : stbi__write_context) : Prop := wctx_ok s' ∧ stream s' = stream s ++ bs.

Lemma puts_trans a b s s1 s2 : puts a s s1 → puts b s1 s2 → puts (a ++ b) s s2.
Proof. intros [_ H1] [H2 H3]. split; [done|]. by rewrite H3, H1, app_assoc. Qed.

Lemma puts_nil s : wctx_ok s → puts [] s s.
Proof. intros H. split; [done|]. by rewrite app_nil_r. Qed.

Lemma flush_puts s : wctx_ok s → awp_ok stbiw__write_flush s (λ _ s', puts [] s s' ∧ buf_used s' = 0).
Proof.
  intros [Hl Hu Hb]. unfold stbiw__write_flush. awp_step. awp_step.
  destruct (Z.eqb_spec (buf_used s) 0) as [E|E]; cbn [negb].
  - awp_step. split; [by apply puts_nil|done].
  - rewrite (proj2 (Z.leb_le _ _)) by lia. unfold func. awp_step. awp_step. awp_step. cbn [buf_used]. split; [|done].
    split.
    + split; cbn [buffer buf_used sent]; [done|lia|]. apply Forall_app. split; [done|]. apply Forall_singleton.
      rewrite length_take. lia.
    + unfold stream. cbn [buffer buf_used sent]. change (Z.to_nat 0) with 0%nat. by rewrite mjoin_snoc, take_0, !app_nil_r.
Qed.

(** A store into the buffer when there is room. *)
Lemma store_puts b n s : wctx_ok s → zlen b = 64 → 0 ≤ n ≤ 64 → ∀ bs,
  take (Z.to_nat n) b = take (Z.to_nat (buf_used s)) (buffer s) ++ bs →
  awp_ok (set_buffer b n) s (λ _ s', puts bs s s').
Proof.
  intros [Hl Hu Hb] Hlb Hn bs E. unfold set_buffer. awp_step. split; [by split|].
  unfold stream. cbn [sent buf_used buffer]. by rewrite E, app_assoc.
Qed.

(** Room for [k] bytes. *)
Lemma room_puts k s : wctx_ok s → 0 ≤ k ≤ 64 →
  awp_ok (if 64 <? buf_used s + k then stbiw__write_flush else mret ()) s (λ _ s', puts [] s s' ∧ buf_used s' + k ≤ 64).
Proof.
  intros Hs Hk. destruct (Z.ltb_spec 64 (buf_used s + k)).
  - eapply awp_ok_mono; [by apply flush_puts|]. cbn beta. intros _ s' [H1 E]. split; [done|lia].
  - awp_step. split; [by apply puts_nil|done].
Qed.

Lemma write1_puts a s : wctx_ok s → awp_ok (stbiw__write1 a) s (λ _ s', puts [a] s s').
Proof.
  intros Hs. unfold stbiw__write1. awp_step. awp_step. awp_step.
  eapply awp_ok_mono; [by apply room_puts|]. cbn beta. intros _ s1 [H1 Hroom]. pose proof (proj1 H1) as Hs1.
  destruct Hs1 as [Hl Hu Hb]. awp_step. awp_step. awp_step. awp_step. rewrite wr_ok by lia. cbn [wp].
  eapply awp_ok_mono; [apply (store_puts _ _ s1 (proj1 H1)); [by rewrite length_zset|lia|]|].
  - by apply take_zset; lia.
  - cbn beta. intros _ s2 H2. change [a] with ([] ++ [a]). by eapply puts_trans.
Qed.

Lemma write3_puts a b c s : wctx_ok s → awp_ok (stbiw__write3 a b c) s (λ _ s', puts [a; b; c] s s').
Proof.
  intros Hs. unfold stbiw__write3. awp_step. awp_step. awp_step.
  eapply awp_ok_mono; [by apply room_puts|]. cbn beta. intros _ s1 [H1 Hroom]. pose proof (proj1 H1) as Hs1.
  destruct Hs1 as [Hl Hu Hb]. awp_step. awp_step.
  do 3 (awp_step; awp_step; rewrite wr_ok by (rewrite ?length_zset; lia); cbn [wp]).
  eapply awp_ok_mono; [apply (store_puts _ _ s1 (proj1 H1)); [by rewrite !length_zset|lia|]|].
  - instantiate (1 := [a; b; c]). replace (buf_used s1 + 3) with (buf_used s1 + 2 + 1) by lia. rewrite take_zset by (rewrite !length_zset; lia).
    replace (buf_used s1 + 2) with (buf_used s1 + 1 + 1) by lia. rewrite take_zset by (rewrite !length_zset; lia).
    rewrite take_zset by lia. by rewrite <- !app_assoc.
  - cbn beta. intros _ s2 H2. change [a; b; c] with ([] ++ [a; b; c]). by eapply puts_trans.
Qed.

(** ** Any sequence of the calls that collect *)
Inductive output := OByte (a : Z) | OTriple (a b c : Z) | OFlush.

Definition put_out (o : output) : Wr unit :=
  match o with
  | OByte a => stbiw__write1 a
  | OTriple a b c => stbiw__write3 a b c
  | OFlush => stbiw__write_flush
  end.

Definition out_bytes (o : output) : list Z :=
  match o with OByte a => [a] | OTriple a b c => [a; b; c] | OFlush => [] end.

Fixpoint put_all (os : list output) : Wr unit :=
  match os with [] => mret () | o :: os => put_out o;; put_all os end.

Lemma put_out_puts o s : wctx_ok s → awp_ok (put_out o) s (λ _ s', puts (out_bytes o) s s').
Proof.
  intros Hs. destruct o; [by apply write1_puts|by apply write3_puts|].
  eapply awp_ok_mono; [by apply flush_puts|]. by intros _ s' [? _].
Qed.

Lemma put_all_puts os s : wctx_ok s → awp_ok (put_all os) s (λ _ s', puts (mjoin (out_bytes <$> os)) s s').
Proof.
  revert s. induction os as [|o os IH]; intros s Hs; cbn [put_all].
  - awp_step. by apply puts_nil.
  - awp_step. eapply awp_ok_mono; [by apply put_out_puts|]. cbn beta. intros _ s1 H1.
    eapply awp_ok_mono; [apply IH; apply H1|]. cbn beta. intros _ s2 H2. cbn. by eapply puts_trans.
Qed.

Lemma start_wctx_ok : wctx_ok stbi__start_write_callbacks.
Proof. split; cbn; [done|lia|done]. Qed.

(** C14. The write context keeps its type: however the calls that write one byte,
    write three bytes and flush follow each other, none stores outside the 64
    byte buffer or fails, the count stays between 0 and 64, the client is called
    with at most 64 bytes at a time, and after a last flush it has received the
    bytes of all the calls, in order. *)
Theorem write_context_typed os :
  awp_ok (put_all os;; stbiw__write_flush) stbi__start_write_callbacks (λ _ s',
    wctx_ok s' ∧ buf_used s' = 0 ∧ mjoin (sent s') = mjoin (out_bytes <$> os)).
Proof.
  awp_step. eapply awp_ok_mono; [apply put_all_puts, start_wctx_ok|]. cbn beta. intros _ s1 [H1 E1].
  eapply awp_ok_mono; [by apply flush_puts|]. cbn beta. intros _ s2 [[H2 E2] E0]. split; [done|]. split; [done|].
  rewrite E1, app_nil_r in E2. unfold stream in E2. rewrite E0 in E2. cbn in E2. by rewrite app_nil_r in E2.
Qed.

Lemma seqZ_snoc n : 0 ≤ n → seqZ 0 (n + 1) = seqZ 0 n ++ [n].
Proof. intros. rewrite seqZ_app by lia. by rewrite Z.add_0_l. Qed.

(** ** Pixels

    What [stbiw__write_pixel] writes for a BMP: blue first; grey three times;
    alpha when there are four channels. *)
Definition bmp_pixel (data : list Z) (comp d : Z) : list Z :=
  if comp <=? 2 then [data.[d]; data.[d]; data.[d]]
  else [data.[d + 2]; data.[d + 1]; data.[d]] ++ (if comp =? 4 then [data.[d + 3]] else []).

Lemma write_rgb_puts data d s : wctx_ok s → 0 ≤ d → d + 3 ≤ zlen data →
  awp_ok (write_rgb (-1) (λ k, rd data (d + k))) s (λ _ s', puts [data.[d + 2]; data.[d + 1]; data.[d]] s s').
Proof.
  intros Hs Hd Hl. unfold write_rgb. do 3 (awp_step; awp_step; rewrite rd_ok by lia; cbn [wp]).
  change (1 - -1) with 2. change (1 + -1) with 0. rewrite Z.add_0_r. by apply write3_puts.
Qed.

Section pixels.
Context (data : list Z) (comp : Z) (Hcomp : 1 ≤ comp ≤ 4).
Let alpha : Z := if comp =? 4 then 1 else 0.

Lemma write_pixel_puts d s : wctx_ok s → 0 ≤ d → d + comp ≤ zlen data →
  awp_ok (stbiw__write_pixel data (-1) comp alpha true d) s (λ _ s', puts (bmp_pixel data comp d) s s').
Proof using Hcomp.
  intros Hs Hd Hl. unfold stbiw__write_pixel, bmp_pixel. rewrite (proj2 (Z.ltb_ge alpha 0)) by (unfold alpha; by destruct (comp =? 4)).
  awp_step. awp_step.
  assert (comp = 1 ∨ comp = 2 ∨ comp = 3 ∨ comp = 4) as Hcases by lia. unfold alpha.
  destruct Hcases as [->|[->|[->| ->]]]; cbn -[stbiw__write3 stbiw__write1 write_rgb rd].
  1, 2: awp_step; awp_step; awp_step; rewrite rd_ok by lia; cbn [wp]; (eapply awp_ok_mono; [by apply write3_puts|]);
    cbn beta; intros _ s1 H1; by awp_step.
  - awp_step. eapply awp_ok_mono; [apply write_rgb_puts; done|]. cbn beta. intros _ s1 H1. by awp_step.
  - awp_step. eapply awp_ok_mono; [apply write_rgb_puts; done || lia|]. cbn beta. intros _ s1 H1.
    awp_step. awp_step. rewrite rd_ok by lia. cbn [wp]. eapply awp_ok_mono; [apply write1_puts, H1|]. cbn beta.
    intros _ s2 H2. by eapply (puts_trans [_; _; _]).
Qed.

Definition bmp_row (x j : Z) : list Z := mjoin ((λ i, bmp_pixel data comp ((j * x + i) * comp)) <$> seqZ 0 x).

Lemma write_row_puts x y j s : wctx_ok s → 0 ≤ x → 0 ≤ j < y → x * y * comp ≤ zlen data → x * y * comp ≤ INT_MAX →
  awp_ok (write_row data (-1) x comp alpha true j) s (λ _ s', puts (bmp_row x j) s s').
Proof using Hcomp.
  intros Hs Hx Hj Hl Hmax. unfold write_row, bmp_row.
  apply (awp_ok_for (λ i _ s', 0 ≤ i ∧ puts (mjoin ((λ i, bmp_pixel data comp ((j * x + i) * comp)) <$> seqZ 0 i)) s s')).
  - split; [lia|]. by apply puts_nil.
  - intros i [] s1 Hi [_ H1].
    assert (0 ≤ j * x) as B0 by (apply Z.mul_nonneg_nonneg; lia).
    assert (j * x + i + 1 ≤ x * y) as B1 by (clear - Hj Hx Hi; nia).
    assert ((j * x + i) * comp + comp ≤ x * y * comp) as B2 by (clear - B1 Hcomp; nia).
    assert (j * x + i ≤ (j * x + i) * comp) as B3 by (clear - B0 Hi Hcomp; nia).
    do 3 (awp_step; awp_step; rewrite i32_ok by (c_unfold; lia); cbn [wp]).
    eapply awp_ok_mono; [apply write_pixel_puts; [apply H1|lia|lia]|]. cbn beta. intros _ s2 H2. split; [lia|].
    rewrite seqZ_snoc by lia. rewrite fmap_app, join_app. cbn. rewrite app_nil_r. by eapply puts_trans.
  - intros [] s1 [_ H1]. by replace (Z.max 0 x) with x in H1 by lia.
Qed.
End pixels.
