(* ===== verification/StbWritePng.v ===== *)
(** * stb_image_write: PNG (facet/gpu/stb_image_write.h, lines 1044-1236)

    The checksum, the row filters, the choice of a filter and the file.  A
    [signed char] is a number from -128 to 127; the block [out] of the file is
    the list of the bytes written so far, with its size. *)
From S2P Require Import Prelude StbMonad StbBase StbWrite StbWriteZlib.

Definition crc_table : list Z :=
  [0x00000000; 0x77073096; 0xee0e612c; 0x990951ba; 0x076dc419; 0x706af48f; 0xe963a535;
   0x9e6495a3; 0x0edb8832; 0x79dcb8a4; 0xe0d5e91e; 0x97d2d988; 0x09b64c2b; 0x7eb17cbd;
   0xe7b82d07; 0x90bf1d91; 0x1db71064; 0x6ab020f2; 0xf3b97148; 0x84be41de; 0x1adad47d;
   0x6ddde4eb; 0xf4d4b551; 0x83d385c7; 0x136c9856; 0x646ba8c0; 0xfd62f97a; 0x8a65c9ec;
   0x14015c4f; 0x63066cd9; 0xfa0f3d63; 0x8d080df5; 0x3b6e20c8; 0x4c69105e; 0xd56041e4;
   0xa2677172; 0x3c03e4d1; 0x4b04d447; 0xd20d85fd; 0xa50ab56b; 0x35b5a8fa; 0x42b2986c;
   0xdbbbc9d6; 0xacbcf940; 0x32d86ce3; 0x45df5c75; 0xdcd60dcf; 0xabd13d59; 0x26d930ac;
   0x51de003a; 0xc8d75180; 0xbfd06116; 0x21b4f4b5; 0x56b3c423; 0xcfba9599; 0xb8bda50f;
   0x2802b89e; 0x5f058808; 0xc60cd9b2; 0xb10be924; 0x2f6f7c87; 0x58684c11; 0xc1611dab;
   0xb6662d3d; 0x76dc4190; 0x01db7106; 0x98d220bc; 0xefd5102a; 0x71b18589; 0x06b6b51f;
   0x9fbfe4a5; 0xe8b8d433; 0x7807c9a2; 0x0f00f934; 0x9609a88e; 0xe10e9818; 0x7f6a0dbb;
   0x086d3d2d; 0x91646c97; 0xe6635c01; 0x6b6b51f4; 0x1c6c6162; 0x856530d8; 0xf262004e;
   0x6c0695ed; 0x1b01a57b; 0x8208f4c1; 0xf50fc457; 0x65b0d9c6; 0x12b7e950; 0x8bbeb8ea;
   0xfcb9887c; 0x62dd1ddf; 0x15da2d49; 0x8cd37cf3; 0xfbd44c65; 0x4db26158; 0x3ab551ce;
   0xa3bc0074; 0xd4bb30e2; 0x4adfa541; 0x3dd895d7; 0xa4d1c46d; 0xd3d6f4fb; 0x4369e96a;
   0x346ed9fc; 0xad678846; 0xda60b8d0; 0x44042d73; 0x33031de5; 0xaa0a4c5f; 0xdd0d7cc9;
   0x5005713c; 0x270241aa; 0xbe0b1010; 0xc90c2086; 0x5768b525; 0x206f85b3; 0xb966d409;
   0xce61e49f; 0x5edef90e; 0x29d9c998; 0xb0d09822; 0xc7d7a8b4; 0x59b33d17; 0x2eb40d81;
   0xb7bd5c3b; 0xc0ba6cad; 0xedb88320; 0x9abfb3b6; 0x03b6e20c; 0x74b1d29a; 0xead54739;
   0x9dd277af; 0x04db2615; 0x73dc1683; 0xe3630b12; 0x94643b84; 0x0d6d6a3e; 0x7a6a5aa8;
   0xe40ecf0b; 0x9309ff9d; 0x0a00ae27; 0x7d079eb1; 0xf00f9344; 0x8708a3d2; 0x1e01f268;
   0x6906c2fe; 0xf762575d; 0x806567cb; 0x196c3671; 0x6e6b06e7; 0xfed41b76; 0x89d32be0;
   0x10da7a5a; 0x67dd4acc; 0xf9b9df6f; 0x8ebeeff9; 0x17b7be43; 0x60b08ed5; 0xd6d6a3e8;
   0xa1d1937e; 0x38d8c2c4; 0x4fdff252; 0xd1bb67f1; 0xa6bc5767; 0x3fb506dd; 0x48b2364b;
   0xd80d2bda; 0xaf0a1b4c; 0x36034af6; 0x41047a60; 0xdf60efc3; 0xa867df55; 0x316e8eef;
   0x4669be79; 0xcb61b38c; 0xbc66831a; 0x256fd2a0; 0x5268e236; 0xcc0c7795; 0xbb0b4703;
   0x220216b9; 0x5505262f; 0xc5ba3bbe; 0xb2bd0b28; 0x2bb45a92; 0x5cb36a04; 0xc2d7ffa7;
   0xb5d0cf31; 0x2cd99e8b; 0x5bdeae1d; 0x9b64c2b0; 0xec63f226; 0x756aa39c; 0x026d930a;
   0x9c0906a9; 0xeb0e363f; 0x72076785; 0x05005713; 0x95bf4a82; 0xe2b87a14; 0x7bb12bae;
   0x0cb61b38; 0x92d28e9b; 0xe5d5be0d; 0x7cdcefb7; 0x0bdbdf21; 0x86d3d2d4; 0xf1d4e242;
   0x68ddb3f8; 0x1fda836e; 0x81be16cd; 0xf6b9265b; 0x6fb077e1; 0x18b74777; 0x88085ae6;
   0xff0f6a70; 0x66063bca; 0x11010b5c; 0x8f659eff; 0xf862ae69; 0x616bffd3; 0x166ccf45;
   0xa00ae278; 0xd70dd2ee; 0x4e048354; 0x3903b3c2; 0xa7672661; 0xd06016f7; 0x4969474d;
   0x3e6e77db; 0xaed16a4a; 0xd9d65adc; 0x40df0b66; 0x37d83bf0; 0xa9bcae53; 0xdebb9ec5;
   0x47b2cf7f; 0x30b5ffe9; 0xbdbdf21c; 0xcabac28a; 0x53b39330; 0x24b4a3a6; 0xbad03605;
   0xcdd70693; 0x54de5729; 0x23d967bf; 0xb3667a2e; 0xc4614ab8; 0x5d681b02; 0x2a6f2b94;
   0xb40bbe37; 0xc30c8ea1; 0x5a05df1b; 0x2d02ef8d].

Definition stbiw__crc32 (buffer : list Z) (pos len : Z) : Res Z :=
  crc ← for_range 0 len (λ i crc,
    b ← rd buffer (pos + i);
    t ← rd crc_table (Z.lxor b (Z.land crc 0xff));
    Ok (Z.lxor (Z.shiftr crc 8) t)) 0xffffffff;
  Ok (u32 (Z.lnot crc)).

(** ** Writing into the file's block of [size] bytes *)
Definition png_put (size : Z) (o : list Z) (l : list Z) : Res (list Z) :=
  if zlen o + zlen l <=? size then Ok (o ++ l) else Undef.

Definition stbiw__wpng4 (size : Z) (o : list Z) (a b c d : Z) : Res (list Z) :=
  png_put size o [u8 a; u8 b; u8 c; u8 d].
Definition stbiw__wp32 (size : Z) (o : list Z) (v : Z) : Res (list Z) :=
  stbiw__wpng4 size o (Z.shiftr v 24) (Z.shiftr v 16) (Z.shiftr v 8) v.
Definition stbiw__wptag (size : Z) (o : list Z) (s : list Z) : Res (list Z) :=
  a ← rd s 0; b ← rd s 1; c ← rd s 2; d ← rd s 3; stbiw__wpng4 size o a b c d.

(** The checksum of a chunk's tag and its [len] bytes. *)
Definition stbiw__wpcrc (size : Z) (o : list Z) (len : Z) : Res (list Z) :=
  crc ← stbiw__crc32 o (zlen o - len - 4) (len + 4);
  stbiw__wp32 size o crc.

(** ** Filters *)
Definition stbiw__paeth (a b c : Z) : Z :=
  let p := a + b - c in
  let pa := Z.abs (p - a) in
  let pb := Z.abs (p - b) in
  let pc := Z.abs (p - c) in
  if (pa <=? pb) && (pa <=? pc) then u8 a
  else if pb <=? pc then u8 b
  else u8 c.

Definition mapping : list Z := [0; 1; 2; 3; 4].
Definition firstmap : list Z := [0; 1; 0; 5; 6].

(** [for (i = lo; i < hi; ++i) line_buffer[i] = f i] *)
Definition line_loop (lo hi : Z) (f : Z → Res Z) (line : list Z) : Res (list Z) :=
  for_range lo hi (λ i line, v ← f i; wr line i (sx 8 v)) line.

(** The first pixel of a row at [z]; [above] is [signed_stride]. *)
Definition first_pixel (pixels : list Z) (z above type i : Z) : Res Z :=
  p ← rd pixels (z + i);
  if type =? 2 then u ← rd pixels (z + i - above); Ok (p - u)
  else if type =? 3 then u ← rd pixels (z + i - above); Ok (p - Z.shiftr u 1)
  else if type =? 4 then u ← rd pixels (z + i - above); Ok (p - stbiw__paeth 0 u 0)
  else Ok p.

(** The others; [n] is the distance to the left. *)
Definition other_pixel (pixels : list Z) (z above n type i : Z) : Res Z :=
  p ← rd pixels (z + i);
  if type =? 1 then l ← rd pixels (z + i - n); Ok (p - l)
  else if type =? 2 then u ← rd pixels (z + i - above); Ok (p - u)
  else if type =? 3 then
    l ← rd pixels (z + i - n); u ← rd pixels (z + i - above); Ok (p - Z.shiftr (l + u) 1)
  else if type =? 4 then
    l ← rd pixels (z + i - n); u ← rd pixels (z + i - above); c ← rd pixels (z + i - above - n);
    Ok (p - stbiw__paeth l u c)
  else if type =? 5 then l ← rd pixels (z + i - n); Ok (p - Z.shiftr l 1)
  else l ← rd pixels (z + i - n); Ok (p - stbiw__paeth l 0 0).

Section png.
Context `{Env : StbiEnv} {Sw : WriteSwitches}.

(** Row [y] of the image at [base], filtered into [line]. *)
Definition stbiw__encode_png_line (pixels : list Z) (base stride_bytes width height y n filter_type : Z)
    (line : list Z) : Res (list Z) :=
  type ← rd (if negb (y =? 0) then mapping else firstmap) filter_type;
  row ← (if stbi__flip_vertically_on_write then h ← i32 (height - 1 - y); Ok h else Ok y);
  off ← i32 (stride_bytes * row);
  let z := base + off in
  above ← (if stbi__flip_vertically_on_write then i32 (- stride_bytes) else Ok stride_bytes);
  wn ← i32 (width * n);
  if type =? 0 then
    memcpy line 0 (sx 8 <$> pixels) z wn
  else
    line ← line_loop 0 n (first_pixel pixels z above type) line;
    line_loop n wn (other_pixel pixels z above n type) line.

(** The sum of the magnitudes of a line. *)
Definition line_estimate (line : list Z) (xn : Z) : Res Z :=
  for_range 0 xn (λ i est, v ← rd line i; i32 (est + Z.abs v)) 0.

(** The filter whose line has the least sum, and that line. *)
Definition best_line (pixels : list Z) (base stride_bytes x y n j : Z) (line : list Z)
  : Res (Z * list Z) :=
  xn ← i32 (x * n);
  '(best, _, line) ← for_range 0 5 (λ filter_type '(best, best_val, line),
    line ← stbiw__encode_png_line pixels base stride_bytes x y j n filter_type line;
    est ← line_estimate line xn;
    Ok (if est <? best_val then (filter_type, est, line) else (best, best_val, line)))
    (0, 0x7fffffff, line);
  line ← stbiw__encode_png_line pixels base stride_bytes x y j n best line;
  Ok (best, line).

(** Row [j] with its filter, into [filt]. *)
Definition filter_line (pixels : list Z) (base stride_bytes x y n force_filter j : Z)
    (s : list Z * list Z) : Res (list Z * list Z) :=
  let '(filt, line) := s in
  '(filter_type, line) ←
    (if -1 <? force_filter then
       line ← stbiw__encode_png_line pixels base stride_bytes x y j n force_filter line;
       Ok (force_filter, line)
     else best_line pixels base stride_bytes x y n j line);
  xn ← i32 (x * n); pitch ← i32 (xn + 1); at_ ← i32 (j * pitch);
  filt ← wr filt at_ (u8 filter_type);
  filt ← memcpy filt (at_ + 1) (u8 <$> line) 0 xn;
  Ok (filt, line).

Definition ctype : list Z := [-1; 0; 4; 2; 6].
Definition sig : list Z := [137; 80; 78; 71; 13; 10; 26; 10].
Definition tag_IHDR : list Z := [73; 72; 68; 82].
Definition tag_IDAT : list Z := [73; 68; 65; 84].
Definition tag_IEND : list Z := [73; 69; 78; 68].

(** The file around the compressed data. *)
Definition png_file (x y n : Z) (zlib : list Z) (size : Z) : Res (list Z) :=
  o ← png_put size [] sig;
  o ← stbiw__wp32 size o 13;
  o ← stbiw__wptag size o tag_IHDR;
  o ← stbiw__wp32 size o x;
  o ← stbiw__wp32 size o y;
  c ← rd ctype n;
  o ← png_put size o [8; u8 c; 0; 0; 0];
  o ← stbiw__wpcrc size o 13;
  o ← stbiw__wp32 size o (zlen zlib);
  o ← stbiw__wptag size o tag_IDAT;
  o ← png_put size o zlib;
  o ← stbiw__wpcrc size o (zlen zlib);
  o ← stbiw__wp32 size o 0;
  o ← stbiw__wptag size o tag_IEND;
  stbiw__wpcrc size o 0.

(** The bytes of the file; a null result is [fail "outofmem"]. *)
Definition stbi_write_png_to_mem {S} (pixels : list Z) (base stride_bytes x y n : Z) : Act S (list Z) :=
  let force_filter := stbi_write_force_png_filter in
  xn ← lift (i32 (x * n));
  let stride_bytes := if stride_bytes =? 0 then xn else stride_bytes in
  let force_filter := if 5 <=? force_filter then -1 else force_filter in
  pitch ← lift (i32 (xn + 1)); size ← lift (i32 (pitch * y));
  if negb (malloc_ok (u64 size)) then fail "outofmem" else
  if negb (malloc_ok (u64 xn)) then fail "outofmem" else
  '(filt, _) ← lift (for_range 0 y (filter_line pixels base stride_bytes x y n force_filter)
                      (malloc_arr uninit size, sx 8 <$> malloc_arr uninit xn));
  len ← lift (i32 (y * pitch));
  zlib ← stbi_zlib_compress filt len stbi_write_png_compression_level;
  size ← lift (i32 (8 + 12 + 13 + 12 + zlen zlib + 12));
  if negb (malloc_ok (u64 size)) then fail "outofmem" else
  o ← lift (png_file x y n zlib size);
  if zlen o =? size then mret o else fail "assert".

(** The callback is given the whole file at once. *)
Definition stbi_write_png_to_func (x y comp : Z) (data : list Z) (base stride_bytes : Z) : Wr bool :=
  r ← attempt (stbi_write_png_to_mem data base stride_bytes x y comp);
  match r with
  | Val png => func png;; mret true
  | Fail "assert" => fail "assert"
  | Fail _ => mret false
  end.

(** A file that cannot be opened gets nothing. *)
Definition stbi_write_png `{Files} (filename : string) (x y comp : Z) (data : list Z) (base stride_bytes : Z)
  : Wr bool :=
  r ← attempt (stbi_write_png_to_mem data base stride_bytes x y comp);
  match r with
  | Val png => if fopen_ok filename then func png;; mret true else mret false
  | Fail "assert" => fail "assert"
  | Fail _ => mret false
  end.
End png.
