(* ===== verification/StbWriteHdr.v ===== *)
(** * stb_image_write: HDR (facet/gpu/stb_image_write.h, lines 627-799)

    Four bytes a pixel, a mantissa for each colour and a common exponent; a
    scanline of 8 to 32767 pixels is run-length coded, one channel after the
    other.  The image data are floats.  [char] buffers and headers are bytes. *)
From Stdlib Require Import Ascii String.
From stdpp Require Import pretty.
From S2P Require Import Prelude F32 F64 StbMonad StbBase StbWrite.

Definition stbiw__max (a b : f32) : f32 := if flt b a then a else b.

(** [frexp] is that of doubles; the exponent byte is an [int] cut to eight bits. *)
Definition stbiw__linear_to_rgbe (l0 l1 l2 : f32) : Res (list Z) :=
  let maxcomp := stbiw__max l0 (stbiw__max l1 l2) in
  if flt maxcomp (fdec 1 (10 ^ 32)) then Ok [0; 0; 0; 0] else
  let '(m, exponent) := SFfrexp prec64 emax64 (f2d maxcomp) in
  let normalize := fdiv (fmul (d2f m) (fz 256)) maxcomp in
  r ← f2u8 (fmul l0 normalize);
  g ← f2u8 (fmul l1 normalize);
  b ← f2u8 (fmul l2 normalize);
  Ok [r; g; b; u8 (exponent + 128)].

Definition stbiw__write_run_data (length databyte : Z) : Wr unit :=
  fail_if (negb (length + 128 <=? 255)) "assert";;
  func [u8 (length + 128)];; func [databyte].

(** [data] is at [off] of the scratch buffer. *)
Definition stbiw__write_dump_data (length : Z) (scratch : list Z) (off : Z) : Wr unit :=
  fail_if (negb (length <=? 128)) "assert";;
  func [u8 length];;
  data ← lift (rd_samples rd scratch off length);
  func data.

(** The pixel [x] of the scanline at [row] of the image. *)
Definition hdr_pixel (data : list f32) (row ncomp x : Z) : Res (list Z) :=
  p ← i32 (x * ncomp);
  l0 ← rd data (row + p);
  if (ncomp =? 4) || (ncomp =? 3) then
    l1 ← rd data (row + (p + 1)); l2 ← rd data (row + (p + 2));
    stbiw__linear_to_rgbe l0 l1 l2
  else stbiw__linear_to_rgbe l0 l0 l0.

Section channel.
Context (scratch : list Z) (off width : Z).

(** The first place at or after [x] where three bytes are the same, [width]
    when there is none. *)
Definition find_run (x : Z) : Res Z :=
  r ← fell <$> loop (S (Z.to_nat width)) (λ r,
    if negb (r + 2 <? width) then Ok (Break r) else
    a ← rd scratch (off + r); b ← rd scratch (off + (r + 1));
    if negb (a =? b) then Ok (Next (r + 1)) else
    c ← rd scratch (off + (r + 2));
    Ok (if a =? c then Break r else Next (r + 1))) x;
  Ok (if width <=? r + 2 then width else r).

(** The end of the run of the byte at [x]. *)
Definition run_end (x r : Z) : Res Z :=
  fell <$> loop (S (Z.to_nat width)) (λ r,
    if negb (r <? width) then Ok (Break r) else
    a ← rd scratch (off + r); b ← rd scratch (off + x);
    Ok (if a =? b then Next (r + 1) else Break r)) r.

Definition dump_up_to (r x : Z) : Wr Z :=
  e ← a_loop (S (Z.to_nat width)) (λ x,
    if negb (x <? r) then mret (Break x) else
    let len := if 128 <? r - x then 128 else r - x in
    stbiw__write_dump_data len scratch (off + x);;
    mret (Next (x + len))) x;
  mret (fell e).

Definition run_up_to (r x : Z) : Wr Z :=
  e ← a_loop (S (Z.to_nat width)) (λ x,
    if negb (x <? r) then mret (Break x) else
    let len := if 127 <? r - x then 127 else r - x in
    b ← lift (rd scratch (off + x));
    stbiw__write_run_data len b;;
    mret (Next (x + len))) x;
  mret (fell e).

(** One pass of [while (x < width)]. *)
Definition rle_step (x : Z) : Wr (ctl Z Empty_set) :=
  if negb (x <? width) then mret (Break x) else
  r ← lift (find_run x);
  x ← dump_up_to r x;
  if r + 2 <? width then
    r ← lift (run_end x r);
    x ← run_up_to r x;
    mret (Next x)
  else mret (Next x).

Definition rle_channel : Wr unit :=
  a_loop (S (Z.to_nat width)) rle_step 0;; mret ().
End channel.

(** [scratch[x + width * k] = rgbe[k]], the address computed in [int]. *)
Definition hdr_scratch (width ncomp : Z) (data : list f32) (row : Z) (scratch : list Z)
  : Res (list Z) :=
  for_range 0 width (λ x scratch,
    rgbe ← hdr_pixel data row ncomp x;
    for_range 0 4 (λ k scratch, v ← rd rgbe k; wr scratch (x + width * k) v) scratch) scratch.

Definition stbiw__write_hdr_scanline (width ncomp : Z) (scratch : list Z) (data : list f32) (row : Z)
  : Wr (list Z) :=
  let scanlineheader :=
    [2; 2; u8 (Z.shiftr (Z.land width 0xff00) 8); u8 (Z.land width 0x00ff)] in
  if (width <? 8) || (32768 <=? width) then
    a_for 0 width (λ x _, rgbe ← lift (hdr_pixel data row ncomp x); func rgbe) ();;
    mret scratch
  else
    scratch ← lift (hdr_scratch width ncomp data row scratch);
    func scanlineheader;;
    a_for 0 4 (λ c _, rle_channel scratch (width * c) width) ();;
    mret scratch.

(** The bytes of a string; the newline is not written in literals. *)
Definition bytes_of (s : string) : list Z := (λ c, Z.of_N (N_of_ascii c)) <$> list_ascii_of_string s.

Definition hdr_header : list Z :=
  bytes_of "#?RADIANCE" ++ [10] ++ bytes_of "# Written by stb_image_write.h" ++ [10]
  ++ bytes_of "FORMAT=32-bit_rle_rgbe" ++ [10].

(** The line of the exposure, the empty line, and the size ([sprintf]). *)
Definition hdr_dimensions (x y : Z) : list Z :=
  bytes_of "EXPOSURE=          1.0000000000000" ++ [10; 10]
  ++ bytes_of "-Y " ++ bytes_of (pretty y) ++ bytes_of " +X " ++ bytes_of (pretty x) ++ [10].

Section hdr.
Context `{Env : StbiEnv} {Sw : WriteSwitches}.

(** The allocation is not checked: an empty scratch buffer stands for [NULL].
    It is used for the rows that are run-length coded only. *)
Definition stbi_write_hdr_core (x y comp : Z) (data : list f32) : Wr bool :=
  if (y <=? 0) || (x <=? 0) then mret false else
  size ← lift (i32 (x * 4));
  let scratch := default [] (stbi__malloc size) in
  func hdr_header;;
  func (hdr_dimensions x y);;
  a_for 0 y (λ i scratch,
    cx ← lift (i32 (comp * x));
    row ← lift (i32 (cx * (if stbi__flip_vertically_on_write then y - 1 - i else i)));
    stbiw__write_hdr_scanline x comp scratch data row) scratch;;
  mret true.

Definition stbi_write_hdr_to_func (x y comp : Z) (data : list f32) :=
  to_func (stbi_write_hdr_core x y comp data).
Definition stbi_write_hdr `{Files} (filename : string) (x y comp : Z) (data : list f32) :=
  to_file filename (stbi_write_hdr_core x y comp data).
End hdr.
