(* ===== verification/StbWriteJpeg.v ===== *)
(** * stb_image_write: the JPEG writer (facet/gpu/stb_image_write.h, lines 1240-1630)

    The write context, the bit buffer and its count form the state.  [float]
    expressions are those of [F32].  [bitBuf <<= 8] drops the bytes that were
    already written out of the top of a signed [int]; the standard leaves that
    undefined, the model shifts in two's complement, as gcc and clang document
    it.  The arrays on the stack start as zeros: every entry of [DU], the
    tables and the macroblocks is written before it is read. *)
From S2P Require Import Prelude F32 StbMonad StbBase StbWrite.

Definition e9 (n : positive) : f32 := fdec n 1000000000.
Definition e5 (n : positive) : f32 := fdec n 100000.

(** ** The bit writer *)
Record jpg_writer := { ctx : stbi__write_context; bitBuf : Z; bitCnt : Z }.

Abbreviation Jw := (Act jpg_writer).

(** An action on the write context. *)
Definition to_ctx {A} (m : Wr A) : Jw A :=
  zoom ctx (λ c j, {| ctx := c; bitBuf := bitBuf j; bitCnt := bitCnt j |}) m.

Definition set_bits (buf cnt : Z) : Jw unit :=
  modify (λ j, {| ctx := ctx j; bitBuf := buf; bitCnt := cnt |}).

(** [while(bitCnt >= 8)] *)
Definition flush_bytes : Jw unit :=
  j ← get;
  a_loop (R := Empty_set) (S (Z.to_nat (bitCnt j))) (λ _,
    j ← get;
    if negb (8 <=? bitCnt j) then mret (Break ()) else
    let c := Z.land (Z.shiftr (bitBuf j) 16) 255 in
    to_ctx (stbiw__putc c);;
    (if c =? 255 then to_ctx (stbiw__putc 0) else mret ());;
    set_bits (sx 32 (Z.shiftl (bitBuf j) 8)) (bitCnt j - 8);;
    mret (Next ())) ();;
  mret ().

(** [bs]: a code and its length. *)
Definition stbiw__jpg_writeBits (bs : Z * Z) : Jw unit :=
  j ← get;
  let bitCnt := bitCnt j + bs.2 in
  v ← lift (if (0 <=? 24 - bitCnt) && (24 - bitCnt <? 32) then i32 (Z.shiftl bs.1 (24 - bitCnt)) else Undef);
  set_bits (Z.lor (bitBuf j) v) bitCnt;;
  flush_bytes.

(** ** The transform *)
Definition stbiw__jpg_DCT (d0 d1 d2 d3 d4 d5 d6 d7 : f32) : list f32 :=
  let tmp0 := fadd d0 d7 in let tmp7 := fsub d0 d7 in
  let tmp1 := fadd d1 d6 in let tmp6 := fsub d1 d6 in
  let tmp2 := fadd d2 d5 in let tmp5 := fsub d2 d5 in
  let tmp3 := fadd d3 d4 in let tmp4 := fsub d3 d4 in
  (* even part *)
  let tmp10 := fadd tmp0 tmp3 in let tmp13 := fsub tmp0 tmp3 in
  let tmp11 := fadd tmp1 tmp2 in let tmp12 := fsub tmp1 tmp2 in
  let d0 := fadd tmp10 tmp11 in let d4 := fsub tmp10 tmp11 in
  let z1 := fmul (fadd tmp12 tmp13) (e9 707106781) in
  let d2 := fadd tmp13 z1 in let d6 := fsub tmp13 z1 in
  (* odd part *)
  let tmp10 := fadd tmp4 tmp5 in let tmp11 := fadd tmp5 tmp6 in let tmp12 := fadd tmp6 tmp7 in
  let z5 := fmul (fsub tmp10 tmp12) (e9 382683433) in
  let z2 := fadd (fmul tmp10 (e9 541196100)) z5 in
  let z4 := fadd (fmul tmp12 (e9 1306562965)) z5 in
  let z3 := fmul tmp11 (e9 707106781) in
  let z11 := fadd tmp7 z3 in let z13 := fsub tmp7 z3 in
  [d0; fadd z11 z4; d2; fsub z13 z2; d4; fadd z13 z2; d6; fsub z11 z4].

(** The transform of the eight values at [off], [off + step], ... in place. *)
Definition dct_at (CDU : list f32) (off step : Z) : Res (list f32) :=
  d0 ← rd CDU off; d1 ← rd CDU (off + step); d2 ← rd CDU (off + step * 2);
  d3 ← rd CDU (off + step * 3); d4 ← rd CDU (off + step * 4); d5 ← rd CDU (off + step * 5);
  d6 ← rd CDU (off + step * 6); d7 ← rd CDU (off + step * 7);
  let d := stbiw__jpg_DCT d0 d1 d2 d3 d4 d5 d6 d7 in
  for_range 0 8 (λ k CDU, v ← rd d k; wr CDU (off + step * k) v) CDU.

Definition stbiw__jpg_ZigZag : list Z :=
  [0; 1; 5; 6; 14; 15; 27; 28; 2; 4; 7; 13; 16; 26; 29; 42; 3; 8; 12; 17; 25; 30; 41; 43; 9; 11;
   18; 24; 31; 40; 44; 53; 10; 19; 23; 32; 39; 45; 52; 54; 20; 22; 33; 38; 46; 51; 55; 60; 21; 34;
   37; 47; 50; 56; 59; 61; 35; 36; 48; 49; 57; 58; 62; 63].

(** [v] rounded to the nearest integer, halves away from zero. *)
Definition descale (v : f32) : Res Z :=
  f2i (if flt v (fz 0) then fsub v (flit 1 2) else fadd v (flit 1 2)).

(** The coefficients, quantised and in zigzag order. *)
Definition quantize (CDU : list f32) (base du_stride : Z) (fdtbl : list f32) : Res (list Z) :=
  for_range 0 8 (λ y DU, for_range 0 8 (λ x DU,
    let j := y * 8 + x in
    c ← rd CDU (base + (y * du_stride + x)); f ← rd fdtbl j; q ← descale (fmul c f);
    z ← rd stbiw__jpg_ZigZag j; wr DU z q) DU) (replicate 64 0).

(** ** Entropy coding *)

(** [while(tmp1 >>= 1) ++bits[1];] from [n]: the length of [tmp1] in bits. *)
Fixpoint count_bits (fuel : nat) (tmp1 n : Z) : Z :=
  match fuel with
  | O => n
  | S fuel => let t := Z.shiftr tmp1 1 in if t =? 0 then n else count_bits fuel t (n + 1)
  end.

(** The bits that tell [val] from the others of its length, and the length, both
    stored as [unsigned short]. *)
Definition stbiw__jpg_calcBits (val : Z) : Res (Z * Z) :=
  tmp1 ← (if val <? 0 then i32 (- val) else Ok val);
  val ← (if val <? 0 then i32 (val - 1) else Ok val);
  let n := count_bits 32 tmp1 1 in
  one ← (if n <? 31 then Ok (Z.shiftl 1 n) else Undef);
  Ok (u16 (Z.land val (one - 1)), u16 n).

(** The Huffman tables hold a code and its length per symbol. *)
Abbreviation HT := (list (Z * Z)).

Definition encode_dc (HTDC : HT) (diff : Z) : Jw unit :=
  if diff =? 0 then c ← lift (rd HTDC 0); stbiw__jpg_writeBits c else
  bits ← lift (stbiw__jpg_calcBits diff);
  c ← lift (rd HTDC bits.2); stbiw__jpg_writeBits c;;
  stbiw__jpg_writeBits bits.

(** [for(; (end0pos>0)&&(DU[end0pos]==0); --end0pos)] *)
Fixpoint last_nonzero (DU : list Z) (end0pos : nat) : Res Z :=
  match end0pos with
  | O => Ok 0
  | S n => v ← rd DU (Z.of_nat end0pos); if v =? 0 then last_nonzero DU n else Ok (Z.of_nat end0pos)
  end.

(** [for (; DU[i]==0 && i<=end0pos; ++i)] *)
Fixpoint skip_zeroes (fuel : nat) (DU : list Z) (end0pos i : Z) : Res Z :=
  match fuel with
  | O => NoFuel
  | S fuel =>
      v ← rd DU i;
      if (v =? 0) && (i <=? end0pos) then skip_zeroes fuel DU end0pos (i + 1) else Ok i
  end.

(** The coefficient at or after [i], after its run of zeros; the position behind it. *)
Definition encode_ac (HTAC : HT) (DU : list Z) (end0pos i : Z) : Jw Z :=
  let startpos := i in
  i ← lift (skip_zeroes 65 DU end0pos i);
  let nrzeroes := i - startpos in
  nrzeroes ← (if 16 <=? nrzeroes then
      M16zeroes ← lift (rd HTAC 0xF0);
      a_for 0 (Z.shiftr nrzeroes 4) (λ _ _, stbiw__jpg_writeBits M16zeroes) ();;
      mret (Z.land nrzeroes 15)
    else mret nrzeroes);
  v ← lift (rd DU i);
  bits ← lift (stbiw__jpg_calcBits v);
  c ← lift (rd HTAC (Z.shiftl nrzeroes 4 + bits.2)); stbiw__jpg_writeBits c;;
  stbiw__jpg_writeBits bits;;
  mret (i + 1).

Definition encode_acs (HTAC : HT) (DU : list Z) : Jw unit :=
  EOB ← lift (rd HTAC 0);
  end0pos ← lift (last_nonzero DU 63);
  if end0pos =? 0 then stbiw__jpg_writeBits EOB else
  a_loop (R := Empty_set) 65 (λ i,
    if negb (i <=? end0pos) then mret (Break i) else
    i ← encode_ac HTAC DU end0pos i; mret (Next i)) 1;;
  if negb (end0pos =? 63) then stbiw__jpg_writeBits EOB else mret ().

(** A block of quantised coefficients; the result is its DC coefficient. *)
Definition encode_block (DU : list Z) (DC : Z) (HTDC HTAC : HT) : Jw Z :=
  dc ← lift (rd DU 0); diff ← lift (i32 (dc - DC));
  encode_dc HTDC diff;;
  encode_acs HTAC DU;;
  mret dc.

(** The block at [base] of [CDU]; the transformed array and the DC coefficient. *)
Definition stbiw__jpg_processDU (CDU : list f32) (base du_stride : Z) (fdtbl : list f32) (DC : Z)
    (HTDC HTAC : HT) : Jw (list f32 * Z) :=
  CDU ← lift (for_range 0 8 (λ k CDU, dct_at CDU (base + k * du_stride) 1) CDU);
  CDU ← lift (for_range 0 8 (λ k CDU, dct_at CDU (base + k) du_stride) CDU);
  DU ← lift (quantize CDU base du_stride fdtbl);
  dc ← encode_block DU DC HTDC HTAC;
  mret (CDU, dc).

(** ** Tables *)
Definition pad256 (l : HT) : HT := l ++ replicate (256 - length l) (0, 0).

Definition std_dc_luminance_nrcodes : list Z :=
  [0; 0; 1; 5; 1; 1; 1; 1; 1; 1; 0; 0; 0; 0; 0; 0; 0].

Definition std_dc_luminance_values : list Z :=
  [0; 1; 2; 3; 4; 5; 6; 7; 8; 9; 10; 11].

Definition std_ac_luminance_nrcodes : list Z :=
  [0; 0; 2; 1; 3; 3; 2; 4; 3; 5; 5; 4; 4; 0; 0; 1; 125].

Definition std_ac_luminance_values : list Z :=
  [1; 2; 3; 0; 4; 17; 5; 18; 33; 49; 65; 6; 19; 81; 97; 7; 34; 113; 20; 50; 129; 145; 161; 8; 35;
   66; 177; 193; 21; 82; 209; 240; 36; 51; 98; 114; 130; 9; 10; 22; 23; 24; 25; 26; 37; 38; 39; 40;
   41; 42; 52; 53; 54; 55; 56; 57; 58; 67; 68; 69; 70; 71; 72; 73; 74; 83; 84; 85; 86; 87; 88; 89;
   90; 99; 100; 101; 102; 103; 104; 105; 106; 115; 116; 117; 118; 119; 120; 121; 122; 131; 132;
   133; 134; 135; 136; 137; 138; 146; 147; 148; 149; 150; 151; 152; 153; 154; 162; 163; 164; 165;
   166; 167; 168; 169; 170; 178; 179; 180; 181; 182; 183; 184; 185; 186; 194; 195; 196; 197; 198;
   199; 200; 201; 202; 210; 211; 212; 213; 214; 215; 216; 217; 218; 225; 226; 227; 228; 229; 230;
   231; 232; 233; 234; 241; 242; 243; 244; 245; 246; 247; 248; 249; 250].

Definition std_dc_chrominance_nrcodes : list Z :=
  [0; 0; 3; 1; 1; 1; 1; 1; 1; 1; 1; 1; 0; 0; 0; 0; 0].

Definition std_dc_chrominance_values : list Z :=
  [0; 1; 2; 3; 4; 5; 6; 7; 8; 9; 10; 11].

Definition std_ac_chrominance_nrcodes : list Z :=
  [0; 0; 2; 1; 2; 4; 4; 3; 4; 7; 5; 4; 4; 0; 1; 2; 119].

Definition std_ac_chrominance_values : list Z :=
  [0; 1; 2; 3; 17; 4; 5; 33; 49; 6; 18; 65; 81; 7; 97; 113; 19; 34; 50; 129; 8; 20; 66; 145; 161;
   177; 193; 9; 35; 51; 82; 240; 21; 98; 114; 209; 10; 22; 36; 52; 225; 37; 241; 23; 24; 25; 26;
   38; 39; 40; 41; 42; 53; 54; 55; 56; 57; 58; 67; 68; 69; 70; 71; 72; 73; 74; 83; 84; 85; 86; 87;
   88; 89; 90; 99; 100; 101; 102; 103; 104; 105; 106; 115; 116; 117; 118; 119; 120; 121; 122; 130;
   131; 132; 133; 134; 135; 136; 137; 138; 146; 147; 148; 149; 150; 151; 152; 153; 154; 162; 163;
   164; 165; 166; 167; 168; 169; 170; 178; 179; 180; 181; 182; 183; 184; 185; 186; 194; 195; 196;
   197; 198; 199; 200; 201; 202; 210; 211; 212; 213; 214; 215; 216; 217; 218; 226; 227; 228; 229;
   230; 231; 232; 233; 234; 242; 243; 244; 245; 246; 247; 248; 249; 250].

Definition YDC_HT : list (Z * Z) := pad256
  [(0, 2); (2, 3); (3, 3); (4, 3); (5, 3); (6, 3); (14, 4); (30, 5); (62, 6); (126, 7); (254, 8);
   (510, 9)].

Definition UVDC_HT : list (Z * Z) := pad256
  [(0, 2); (1, 2); (2, 2); (6, 3); (14, 4); (30, 5); (62, 6); (126, 7); (254, 8); (510, 9);
   (1022, 10); (2046, 11)].

Definition YAC_HT : list (Z * Z) := pad256
  [(10, 4); (0, 2); (1, 2); (4, 3); (11, 4); (26, 5); (120, 7); (248, 8); (1014, 10); (65410, 16);
   (65411, 16); (0, 0); (0, 0); (0, 0); (0, 0); (0, 0); (0, 0); (12, 4); (27, 5); (121, 7);
   (502, 9); (2038, 11); (65412, 16); (65413, 16); (65414, 16); (65415, 16); (65416, 16); (0, 0);
   (0, 0); (0, 0); (0, 0); (0, 0); (0, 0); (28, 5); (249, 8); (1015, 10); (4084, 12); (65417, 16);
   (65418, 16); (65419, 16); (65420, 16); (65421, 16); (65422, 16); (0, 0); (0, 0); (0, 0); (0, 0);
   (0, 0); (0, 0); (58, 6); (503, 9); (4085, 12); (65423, 16); (65424, 16); (65425, 16);
   (65426, 16); (65427, 16); (65428, 16); (65429, 16); (0, 0); (0, 0); (0, 0); (0, 0); (0, 0);
   (0, 0); (59, 6); (1016, 10); (65430, 16); (65431, 16); (65432, 16); (65433, 16); (65434, 16);
   (65435, 16); (65436, 16); (65437, 16); (0, 0); (0, 0); (0, 0); (0, 0); (0, 0); (0, 0); (122, 7);
   (2039, 11); (65438, 16); (65439, 16); (65440, 16); (65441, 16); (65442, 16); (65443, 16);
   (65444, 16); (65445, 16); (0, 0); (0, 0); (0, 0); (0, 0); (0, 0); (0, 0); (123, 7); (4086, 12);
   (65446, 16); (65447, 16); (65448, 16); (65449, 16); (65450, 16); (65451, 16); (65452, 16);
   (65453, 16); (0, 0); (0, 0); (0, 0); (0, 0); (0, 0); (0, 0); (250, 8); (4087, 12); (65454, 16);
   (65455, 16); (65456, 16); (65457, 16); (65458, 16); (65459, 16); (65460, 16); (65461, 16);
   (0, 0); (0, 0); (0, 0); (0, 0); (0, 0); (0, 0); (504, 9); (32704, 15); (65462, 16); (65463, 16);
   (65464, 16); (65465, 16); (65466, 16); (65467, 16); (65468, 16); (65469, 16); (0, 0); (0, 0);
   (0, 0); (0, 0); (0, 0); (0, 0); (505, 9); (65470, 16); (65471, 16); (65472, 16); (65473, 16);
   (65474, 16); (65475, 16); (65476, 16); (65477, 16); (65478, 16); (0, 0); (0, 0); (0, 0); (0, 0);
   (0, 0); (0, 0); (506, 9); (65479, 16); (65480, 16); (65481, 16); (65482, 16); (65483, 16);
   (65484, 16); (65485, 16); (65486, 16); (65487, 16); (0, 0); (0, 0); (0, 0); (0, 0); (0, 0);
   (0, 0); (1017, 10); (65488, 16); (65489, 16); (65490, 16); (65491, 16); (65492, 16);
   (65493, 16); (65494, 16); (65495, 16); (65496, 16); (0, 0); (0, 0); (0, 0); (0, 0); (0, 0);
   (0, 0); (1018, 10); (65497, 16); (65498, 16); (65499, 16); (65500, 16); (65501, 16);
   (65502, 16); (65503, 16); (65504, 16); (65505, 16); (0, 0); (0, 0); (0, 0); (0, 0); (0, 0);
   (0, 0); (2040, 11); (65506, 16); (65507, 16); (65508, 16); (65509, 16); (65510, 16);
   (65511, 16); (65512, 16); (65513, 16); (65514, 16); (0, 0); (0, 0); (0, 0); (0, 0); (0, 0);
   (0, 0); (65515, 16); (65516, 16); (65517, 16); (65518, 16); (65519, 16); (65520, 16);
   (65521, 16); (65522, 16); (65523, 16); (65524, 16); (0, 0); (0, 0); (0, 0); (0, 0); (0, 0);
   (2041, 11); (65525, 16); (65526, 16); (65527, 16); (65528, 16); (65529, 16); (65530, 16);
   (65531, 16); (65532, 16); (65533, 16); (65534, 16); (0, 0); (0, 0); (0, 0); (0, 0); (0, 0)].

Definition UVAC_HT : list (Z * Z) := pad256
  [(0, 2); (1, 2); (4, 3); (10, 4); (24, 5); (25, 5); (56, 6); (120, 7); (500, 9); (1014, 10);
   (4084, 12); (0, 0); (0, 0); (0, 0); (0, 0); (0, 0); (0, 0); (11, 4); (57, 6); (246, 8);
   (501, 9); (2038, 11); (4085, 12); (65416, 16); (65417, 16); (65418, 16); (65419, 16); (0, 0);
   (0, 0); (0, 0); (0, 0); (0, 0); (0, 0); (26, 5); (247, 8); (1015, 10); (4086, 12); (32706, 15);
   (65420, 16); (65421, 16); (65422, 16); (65423, 16); (65424, 16); (0, 0); (0, 0); (0, 0); (0, 0);
   (0, 0); (0, 0); (27, 5); (248, 8); (1016, 10); (4087, 12); (65425, 16); (65426, 16);
   (65427, 16); (65428, 16); (65429, 16); (65430, 16); (0, 0); (0, 0); (0, 0); (0, 0); (0, 0);
   (0, 0); (58, 6); (502, 9); (65431, 16); (65432, 16); (65433, 16); (65434, 16); (65435, 16);
   (65436, 16); (65437, 16); (65438, 16); (0, 0); (0, 0); (0, 0); (0, 0); (0, 0); (0, 0); (59, 6);
   (1017, 10); (65439, 16); (65440, 16); (65441, 16); (65442, 16); (65443, 16); (65444, 16);
   (65445, 16); (65446, 16); (0, 0); (0, 0); (0, 0); (0, 0); (0, 0); (0, 0); (121, 7); (2039, 11);
   (65447, 16); (65448, 16); (65449, 16); (65450, 16); (65451, 16); (65452, 16); (65453, 16);
   (65454, 16); (0, 0); (0, 0); (0, 0); (0, 0); (0, 0); (0, 0); (122, 7); (2040, 11); (65455, 16);
   (65456, 16); (65457, 16); (65458, 16); (65459, 16); (65460, 16); (65461, 16); (65462, 16);
   (0, 0); (0, 0); (0, 0); (0, 0); (0, 0); (0, 0); (249, 8); (65463, 16); (65464, 16); (65465, 16);
   (65466, 16); (65467, 16); (65468, 16); (65469, 16); (65470, 16); (65471, 16); (0, 0); (0, 0);
   (0, 0); (0, 0); (0, 0); (0, 0); (503, 9); (65472, 16); (65473, 16); (65474, 16); (65475, 16);
   (65476, 16); (65477, 16); (65478, 16); (65479, 16); (65480, 16); (0, 0); (0, 0); (0, 0); (0, 0);
   (0, 0); (0, 0); (504, 9); (65481, 16); (65482, 16); (65483, 16); (65484, 16); (65485, 16);
   (65486, 16); (65487, 16); (65488, 16); (65489, 16); (0, 0); (0, 0); (0, 0); (0, 0); (0, 0);
   (0, 0); (505, 9); (65490, 16); (65491, 16); (65492, 16); (65493, 16); (65494, 16); (65495, 16);
   (65496, 16); (65497, 16); (65498, 16); (0, 0); (0, 0); (0, 0); (0, 0); (0, 0); (0, 0); (506, 9);
   (65499, 16); (65500, 16); (65501, 16); (65502, 16); (65503, 16); (65504, 16); (65505, 16);
   (65506, 16); (65507, 16); (0, 0); (0, 0); (0, 0); (0, 0); (0, 0); (0, 0); (2041, 11);
   (65508, 16); (65509, 16); (65510, 16); (65511, 16); (65512, 16); (65513, 16); (65514, 16);
   (65515, 16); (65516, 16); (0, 0); (0, 0); (0, 0); (0, 0); (0, 0); (0, 0); (16352, 14);
   (65517, 16); (65518, 16); (65519, 16); (65520, 16); (65521, 16); (65522, 16); (65523, 16);
   (65524, 16); (65525, 16); (0, 0); (0, 0); (0, 0); (0, 0); (0, 0); (1018, 10); (32707, 15);
   (65526, 16); (65527, 16); (65528, 16); (65529, 16); (65530, 16); (65531, 16); (65532, 16);
   (65533, 16); (65534, 16); (0, 0); (0, 0); (0, 0); (0, 0); (0, 0)].

Definition YQT : list Z :=
  [16; 11; 10; 16; 24; 40; 51; 61; 12; 12; 14; 19; 26; 58; 60; 55; 14; 13; 16; 24; 40; 57; 69; 56;
   14; 17; 22; 29; 51; 87; 80; 62; 18; 22; 37; 56; 68; 109; 103; 77; 24; 35; 55; 64; 81; 104; 113;
   92; 49; 64; 78; 87; 103; 121; 120; 101; 72; 92; 95; 98; 112; 100; 103; 99].

Definition UVQT : list Z :=
  [17; 18; 24; 47; 99; 99; 99; 99; 18; 21; 26; 66; 99; 99; 99; 99; 24; 26; 56; 99; 99; 99; 99; 99;
   47; 66; 99; 99; 99; 99; 99; 99; 99; 99; 99; 99; 99; 99; 99; 99; 99; 99; 99; 99; 99; 99; 99; 99;
   99; 99; 99; 99; 99; 99; 99; 99; 99; 99; 99; 99; 99; 99; 99; 99].

Definition aasf : list f32 :=
  (λ n, fmul (e9 n) (e9 2828427125)) <$>
  [1000000000; 1387039845; 1306562965; 1175875602; 1000000000; 785694958; 541196100; 275899379]%positive.

(** [quality] as the code normalises it, and whether chroma is subsampled. *)
Definition norm_quality (quality : Z) : Z * bool :=
  let quality := if negb (quality =? 0) then quality else 90 in
  let subsample := quality <=? 90 in
  let quality := if quality <? 1 then 1 else if 100 <? quality then 100 else quality in
  (if quality <? 50 then 5000 ÷ quality else 200 - quality * 2, subsample).

Definition quant_table (QT : list Z) (quality : Z) : Res (list Z) :=
  for_range 0 64 (λ i T,
    q ← rd QT i; let ti := (q * quality + 50) ÷ 100 in
    z ← rd stbiw__jpg_ZigZag i;
    wr T z (u8 (if ti <? 1 then 1 else if 255 <? ti then 255 else ti))) (replicate 64 0).

Definition descale_table (T : list Z) : Res (list f32) :=
  for_range 0 8 (λ row fd, for_range 0 8 (λ col fd,
    let k := row * 8 + col in
    z ← rd stbiw__jpg_ZigZag k; t ← rd T z; ar ← rd aasf row; ac ← rd aasf col;
    wr fd k (fdiv (fz 1) (fmul (fmul (fz t) ar) ac))) fd) (replicate 64 (fz 0)).

(** ** Headers *)
Definition head0 : list Z :=
  [0xFF; 0xD8; 0xFF; 0xE0; 0; 0x10; 74; 70; 73; 70; 0; 1; 1; 0; 0; 1; 0; 1; 0; 0; 0xFF; 0xDB; 0; 0x84; 0].
Definition head1 (width height : Z) (subsample : bool) : list Z :=
  [0xFF; 0xC0; 0; 0x11; 8; u8 (Z.shiftr height 8); u8 height; u8 (Z.shiftr width 8); u8 width;
   3; 1; if subsample then 0x22 else 0x11; 0; 2; 0x11; 1; 3; 0x11; 1; 0xFF; 0xC4; 0x01; 0xA2; 0].
Definition head2 : list Z := [0xFF; 0xDA; 0; 0xC; 3; 1; 0; 2; 0x11; 3; 0x11; 0; 0x3F; 0].

Definition write_headers (width height : Z) (subsample : bool) (YTable UVTable : list Z) : Wr unit :=
  func head0;;
  func YTable;;
  stbiw__putc 1;;
  func UVTable;;
  func (head1 width height subsample);;
  func (drop 1 std_dc_luminance_nrcodes);;
  func std_dc_luminance_values;;
  stbiw__putc 0x10;;
  func (drop 1 std_ac_luminance_nrcodes);;
  func std_ac_luminance_values;;
  stbiw__putc 1;;
  func (drop 1 std_dc_chrominance_nrcodes);;
  func std_dc_chrominance_values;;
  stbiw__putc 0x11;;
  func (drop 1 std_ac_chrominance_nrcodes);;
  func std_ac_chrominance_values;;
  func head2.

(** ** Macroblocks *)

(** A pixel in the colour space of the file. *)
Definition ycc_of (r g b : f32) : f32 * f32 * f32 :=
  (fsub (fadd (fadd (fmul (e5 29900) r) (fmul (e5 58700) g)) (fmul (e5 11400) b)) (fz 128),
   fadd (fsub (fmul (SFopp (e5 16874)) r) (fmul (e5 33126) g)) (fmul (e5 50000) b),
   fsub (fsub (fmul (e5 50000) r) (fmul (e5 41869) g)) (fmul (e5 8131) b)).

(** [for (v = 0; v < hi; v += step)] *)
Definition a_blocks {S A} (hi step : Z) (body : Z → A → Act S A) (a : A) : Act S A :=
  r ← a_loop (R := Empty_set) (Datatypes.S (Datatypes.S (Z.to_nat (hi / step)))) (λ '(v, a),
    if negb (v <? hi) then mret (Break (v, a)) else
    a ← body v a; v ← lift (i32 (v + step)); mret (Next (v, a))) (0, a);
  mret (fell r).2.

Section write.
Context {Sw : WriteSwitches}.

(** The [n] by [n] pixels at [x], [y]; rows and columns past the image repeat
    its last ones. *)
Definition macroblock (data : list Z) (width height comp n y x : Z)
  : Res (list f32 * list f32 * list f32) :=
  let ofsG := if 2 <? comp then 1 else 0 in
  let ofsB := if 2 <? comp then 2 else 0 in
  yend ← i32 (y + n);
  for_range y yend (λ row blk,
    let clamped_row := if row <? height then row else height - 1 in
    b ← i32 ((if stbi__flip_vertically_on_write then height - 1 - clamped_row else clamped_row) * width);
    base_p ← i32 (b * comp);
    xend ← i32 (x + n);
    for_range x xend (λ col '(Y, U, V),
      c ← i32 ((if col <? width then col else width - 1) * comp);
      p ← i32 (base_p + c);
      r ← rd data p; g ← rd data (p + ofsG); b ← rd data (p + ofsB);
      let '(vy, vu, vv) := ycc_of (fz r) (fz g) (fz b) in
      let pos := (row - y) * n + (col - x) in
      Y ← wr Y pos vy; U ← wr U pos vu; V ← wr V pos vv;
      Ok (Y, U, V)) blk)
    (let z := replicate (Z.to_nat (n * n)) (fz 0) in (z, z, z)).

(** Two by two averages of a 16 by 16 block. *)
Definition subsample_block (U : list f32) : Res (list f32) :=
  for_range 0 8 (λ yy sub, for_range 0 8 (λ xx sub,
    let j := yy * 32 + xx * 2 in
    a ← rd U (j + 0); b ← rd U (j + 1); c ← rd U (j + 16); d ← rd U (j + 17);
    wr sub (yy * 8 + xx) (fmul (fadd (fadd (fadd a b) c) d) (flit 1 4))) sub) (replicate 64 (fz 0)).

(** The three predictors [DCY], [DCU], [DCV]. *)
Abbreviation preds := (Z * Z * Z)%type.

Definition block16 (data : list Z) (width height comp : Z) (fdtbl_Y fdtbl_UV : list f32) (y x : Z)
    (dc : preds) : Jw preds :=
  let '(DCY, DCU, DCV) := dc in
  '(Y, U, V) ← lift (macroblock data width height comp 16 y x);
  '(Y, DCY) ← stbiw__jpg_processDU Y 0 16 fdtbl_Y DCY YDC_HT YAC_HT;
  '(Y, DCY) ← stbiw__jpg_processDU Y 8 16 fdtbl_Y DCY YDC_HT YAC_HT;
  '(Y, DCY) ← stbiw__jpg_processDU Y 128 16 fdtbl_Y DCY YDC_HT YAC_HT;
  '(_, DCY) ← stbiw__jpg_processDU Y 136 16 fdtbl_Y DCY YDC_HT YAC_HT;
  subU ← lift (subsample_block U); subV ← lift (subsample_block V);
  '(_, DCU) ← stbiw__jpg_processDU subU 0 8 fdtbl_UV DCU UVDC_HT UVAC_HT;
  '(_, DCV) ← stbiw__jpg_processDU subV 0 8 fdtbl_UV DCV UVDC_HT UVAC_HT;
  mret (DCY, DCU, DCV).

Definition block8 (data : list Z) (width height comp : Z) (fdtbl_Y fdtbl_UV : list f32) (y x : Z)
    (dc : preds) : Jw preds :=
  let '(DCY, DCU, DCV) := dc in
  '(Y, U, V) ← lift (macroblock data width height comp 8 y x);
  '(_, DCY) ← stbiw__jpg_processDU Y 0 8 fdtbl_Y DCY YDC_HT YAC_HT;
  '(_, DCU) ← stbiw__jpg_processDU U 0 8 fdtbl_UV DCU UVDC_HT UVAC_HT;
  '(_, DCV) ← stbiw__jpg_processDU V 0 8 fdtbl_UV DCV UVDC_HT UVAC_HT;
  mret (DCY, DCU, DCV).

Definition fillBits : Z * Z := (0x7F, 7).

(** The blocks of the image, and the bits that align the end. *)
Definition encode_blocks (data : list Z) (width height comp : Z) (subsample : bool)
    (fdtbl_Y fdtbl_UV : list f32) : Jw unit :=
  (if subsample then
     a_blocks height 16 (λ y dc, a_blocks width 16 (λ x dc,
       block16 data width height comp fdtbl_Y fdtbl_UV y x dc) dc) (0, 0, 0)
   else
     a_blocks height 8 (λ y dc, a_blocks width 8 (λ x dc,
       block8 data width height comp fdtbl_Y fdtbl_UV y x dc) dc) (0, 0, 0));;
  stbiw__jpg_writeBits fillBits.

(** The bit buffer lives for the length of [m]. *)
Definition with_bits {A} (m : Jw A) : Wr A := λ c,
  match m {| ctx := c; bitBuf := 0; bitCnt := 0 |} with
  | Ok (o, j) => Ok (o, ctx j)
  | Undef => Undef
  | NoFuel => NoFuel
  end.

Definition stbi_write_jpg_core (width height comp : Z) (data : list Z) (quality : Z) : Wr bool :=
  if (width =? 0) || (height =? 0) || (4 <? comp) || (comp <? 1) then mret false else
  let '(quality, subsample) := norm_quality quality in
  YTable ← lift (quant_table YQT quality);
  UVTable ← lift (quant_table UVQT quality);
  fdtbl_Y ← lift (descale_table YTable);
  fdtbl_UV ← lift (descale_table UVTable);
  write_headers width height subsample YTable UVTable;;
  with_bits (encode_blocks data width height comp subsample fdtbl_Y fdtbl_UV);;
  stbiw__putc 0xFF;;
  stbiw__putc 0xD9;;
  mret true.

Definition stbi_write_jpg_to_func (x y comp : Z) (data : list Z) (quality : Z) :=
  to_func (stbi_write_jpg_core x y comp data quality).
Definition stbi_write_jpg `{Files} (filename : string) (x y comp : Z) (data : list Z) (quality : Z) :=
  to_file filename (stbi_write_jpg_core x y comp data quality).
End write.
