(* ===== verification/BitString.v ===== *)
(** * Bit strings, the first bit the most significant

    The entropy-coded data of a JPEG file is a string of bits.  [bval] is the
    number a string spells, [nbits n v] the low [n] bits of a number, [win k s]
    what a reader sees in a window of [k] bits at the head of [s], zeros past
    its end.  [stuff] puts the zero byte after every [0xff]. *)
From S2P Require Import Prelude.

Definition bval (s : list bool) : Z := foldl (λ v b, 2 * v + Z.b2z b) 0 s.

Fixpoint nbits (n : nat) (v : Z) : list bool :=
  match n with
  | O => []
  | S n => Z.testbit v (Z.of_nat n) :: nbits n v
  end.

Definition win (k : Z) (s : list bool) : Z := bval (take (Z.to_nat k) (s ++ replicate (Z.to_nat k) false)).

(** The bits of a string of bytes. *)
Definition byte_bits (l : list Z) : list bool := l ≫= nbits 8.

(** A zero byte behind every [0xff]. *)
Fixpoint stuff (l : list Z) : list Z :=
  match l with
  | [] => []
  | b :: l => if b =? 255 then b :: 0 :: stuff l else b :: stuff l
  end.

Section values.
Implicit Types s t : list bool.

Lemma b2z_range b : 0 ≤ Z.b2z b ≤ 1.
Proof. by destruct b. Qed.

Lemma bval_snoc s b : bval (s ++ [b]) = 2 * bval s + Z.b2z b.
Proof. unfold bval. by rewrite foldl_app. Qed.

Lemma bval_bound s : 0 ≤ bval s < 2 ^ zlen s.
Proof.
  induction s as [|b s IH] using rev_ind; [done|]. rewrite bval_snoc, length_app.
  rewrite Nat2Z.inj_add, Z.pow_add_r by lia. cbn [length]. pose proof (b2z_range b). lia.
Qed.

Lemma bval_app s t : bval (s ++ t) = bval s * 2 ^ zlen t + bval t.
Proof.
  induction t as [|b t IH] using rev_ind; [rewrite app_nil_r; cbn; lia|].
  rewrite app_assoc, !bval_snoc, IH, length_app, Nat2Z.inj_add, Z.pow_add_r by lia. cbn [length]. lia.
Qed.

Lemma bval_cons b s : bval (b :: s) = Z.b2z b * 2 ^ zlen s + bval s.
Proof. change (b :: s) with ([b] ++ s). rewrite bval_app. by destruct b. Qed.

Lemma bval_zeros n : bval (replicate n false) = 0.
Proof.
  induction n as [|n IH]; [done|]. cbn [replicate]. rewrite bval_cons, IH. cbn. lia.
Qed.

Lemma length_bits n v : length (nbits n v) = n.
Proof. induction n; cbn [nbits length]; congruence. Qed.

Lemma bval_bits n v : bval (nbits n v) = v mod 2 ^ Z.of_nat n.
Proof.
  induction n as [|n IH]; [by rewrite Z.mod_1_r|]. cbn [nbits].
  rewrite bval_cons, length_bits, IH, Z.testbit_spec' by lia.
  rewrite Nat2Z.inj_succ, Z.pow_succ_r by lia. set (p := 2 ^ Z.of_nat n).
  assert (0 < p) by (apply Z.pow_pos_nonneg; lia).
  rewrite (Z.mul_comm 2 p), Z.rem_mul_r by lia. lia.
Qed.

Lemma bval_bits_small n v : 0 ≤ v < 2 ^ Z.of_nat n → bval (nbits n v) = v.
Proof. intros. by rewrite bval_bits, Z.mod_small. Qed.

(** A string is determined by its length and its number. *)
Lemma bval_inj s t : length s = length t → bval s = bval t → s = t.
Proof.
  revert t. induction s as [|b s IH]; intros [|c t] Hl Hv; try done. cbn [length] in Hl.
  rewrite !bval_cons in Hv. assert (zlen s = zlen t) as El by lia. rewrite El in *.
  pose proof (bval_bound s). pose proof (bval_bound t). rewrite El in *.
  assert (b = c) as -> by (destruct b, c; cbn [Z.b2z] in *; lia || done). f_equal. apply IH; lia.
Qed.

Lemma bits_bval s : nbits (length s) (bval s) = s.
Proof.
  apply bval_inj; [apply length_bits|]. apply bval_bits_small. apply bval_bound.
Qed.

Lemma bval_take s n : bval (take n s) = bval s / 2 ^ (zlen s - zlen (take n s)).
Proof.
  rewrite <- (take_drop n s) at 2. rewrite bval_app. pose proof (bval_bound (drop n s)).
  assert (zlen s - zlen (take n s) = zlen (drop n s)) as ->.
  { rewrite length_take, length_drop. lia. }
  rewrite Z.div_add_l by lia. rewrite (Z.div_small (bval (drop n s))) by lia. lia.
Qed.
End values.

(** ** Windows *)
Section windows.
Implicit Types s t : list bool.

Lemma win_range k s : 0 ≤ k → 0 ≤ win k s < 2 ^ k.
Proof.
  intros. unfold win. pose proof (bval_bound (take (Z.to_nat k) (s ++ replicate (Z.to_nat k) false))) as H'.
  rewrite length_take, length_app, length_replicate in H'. by replace (Z.of_nat _) with k in H' by lia.
Qed.

Lemma win_long k s : 0 ≤ k ≤ zlen s → win k s = bval (take (Z.to_nat k) s).
Proof. intros. unfold win. by rewrite take_app_le by lia. Qed.

Lemma win_short k s : zlen s ≤ k → win k s = bval s * 2 ^ (k - zlen s).
Proof.
  intros. unfold win. rewrite take_app_ge by lia. rewrite take_replicate, bval_app, bval_zeros, length_replicate, Z.add_0_r.
  do 2 f_equal. lia.
Qed.

Lemma take_padded n m s : (n ≤ m)%nat →
  take n (s ++ replicate m false) = take n (s ++ replicate n false).
Proof. intros. rewrite !take_app, !take_replicate. f_equal. f_equal. lia. Qed.

Lemma win_padded k m s : 0 ≤ k → (Z.to_nat k ≤ m)%nat →
  win k s = bval (take (Z.to_nat k) (s ++ replicate m false)).
Proof. intros. unfold win. by rewrite (take_padded _ m) by done. Qed.

Lemma win_0 s : win 0 s = 0.
Proof. done. Qed.

(** The window over a string that starts with [s]. *)
Lemma win_app k s t : zlen s ≤ k → win k (s ++ t) = bval s * 2 ^ (k - zlen s) + win (k - zlen s) t.
Proof.
  intros. rewrite (win_padded (k - zlen s) (Z.to_nat k)) by lia. unfold win.
  rewrite <- app_assoc, take_app_ge by lia. rewrite bval_app. f_equal.
  - rewrite length_take, length_app, length_replicate. do 2 f_equal. lia.
  - do 2 f_equal. lia.
Qed.

(** A shorter window. *)
Lemma win_div j k s : 0 ≤ j ≤ k → win k s / 2 ^ (k - j) = win j s.
Proof.
  intros. rewrite (win_padded j (Z.to_nat k)) by lia. unfold win.
  set (l := s ++ replicate (Z.to_nat k) false).
  assert (k ≤ zlen l) by (unfold l; rewrite length_app, length_replicate; lia).
  replace (take (Z.to_nat j) l) with (take (Z.to_nat j) (take (Z.to_nat k) l)) by (rewrite take_take; f_equal; lia).
  rewrite (bval_take (take (Z.to_nat k) l)), !length_take. do 2 f_equal. lia.
Qed.

(** Past the end of the string a longer window sees zeros. *)
Lemma win_pad j k s : zlen s ≤ j ≤ k → win k s = win j s * 2 ^ (k - j).
Proof.
  intros. rewrite !win_short, <- Z.mul_assoc, <- Z.pow_add_r by lia. do 2 f_equal. lia.
Qed.

(** The window behind the first bits. *)
Lemma win_drop k s t : zlen s ≤ k → win k (s ++ t) mod 2 ^ (k - zlen s) = win (k - zlen s) t.
Proof.
  intros. rewrite win_app, Z.add_comm, Z.mod_add by (try apply Z.pow_nonzero; lia).
  apply Z.mod_small, win_range. lia.
Qed.

Lemma win_head k s t : zlen s ≤ k → win k (s ++ t) / 2 ^ (k - zlen s) = bval s.
Proof.
  intros. rewrite win_app, Z.div_add_l by (try apply Z.pow_nonzero; lia).
  rewrite Z.div_small by (apply win_range; lia). lia.
Qed.

(** One more byte comes into sight. *)
Lemma win_byte k s b t : zlen s = k → 0 ≤ b < 256 → win (k + 8) (s ++ nbits 8 b ++ t) = win k (s ++ nbits 8 b ++ t) * 256 + b.
Proof.
  intros <- Hb. rewrite win_app by lia. replace (zlen s + 8 - zlen s) with 8 by lia.
  rewrite (win_app (zlen s)), Z.sub_diag by lia.
  rewrite (win_app 8) by (rewrite length_bits; lia).
  rewrite length_bits, bval_bits_small by (change (2 ^ Z.of_nat 8) with 256; lia).
  change (8 - Z.of_nat 8) with 0. rewrite !win_0. lia.
Qed.

Lemma byte_bits_cons b l : byte_bits (b :: l) = nbits 8 b ++ byte_bits l.
Proof. done. Qed.
Lemma byte_bits_app l r : byte_bits (l ++ r) = byte_bits l ++ byte_bits r.
Proof. unfold byte_bits. apply bind_app. Qed.
Lemma stuff_app l r : stuff (l ++ r) = stuff l ++ stuff r.
Proof.
  induction l as [|b l IH]; [done|]. cbn [app stuff]. destruct (b =? 255); cbn [app]; by rewrite IH.
Qed.
End windows.
