(* ===== verification/StbWriteJpegSpec.v ===== *)
(** * stb_image_write: what the JPEG writer's entropy coder puts out

    The bit writer appends bits to a string whose whole bytes have been sent,
    stuffed.  The coefficients are coded as ITU-T T.81 describes it (F.1.2):
    [block_bits] is that code, and the writer's block routine puts out just it. *)
From S2P Require Import Prelude StbMonad StbBase StbBaseSpec StbStream StbWrite StbWriteJpeg BitString.

(** ** The bit writer *)

(** [base] and then [bs] have been written to [j]: whole bytes are stuffed and
    sent, fewer than eight bits are pending, left-aligned in the low 24 bits of
    the buffer. *)
Definition jpending (base : list Z) (bs : list bool) (j : jpg_writer) : Prop := ∃ bytes pend,
  mjoin (sent (ctx j)) = base ++ stuff bytes ∧ Forall is_byte bytes ∧ bs = byte_bits bytes ++ pend ∧
  bitCnt j = zlen pend ∧ zlen pend ≤ 24 ∧ bitBuf j mod 2 ^ 24 = bval pend * 2 ^ (24 - zlen pend).

Definition jwrote (base : list Z) (bs : list bool) (j : jpg_writer) : Prop :=
  jpending base bs j ∧ bitCnt j < 8.

Lemma sx_mod_low w n z : 0 ≤ n ≤ w → sx w z mod 2 ^ n = z mod 2 ^ n.
Proof.
  intros. unfold sx. assert (0 < 2 ^ n) by (apply Z.pow_pos_nonneg; lia).
  assert (0 < 2 ^ w) by (apply Z.pow_pos_nonneg; lia).
  rewrite (Z.mod_eq (z + 2 ^ (w - 1)) (2 ^ w)) by lia. set (q := (z + 2 ^ (w - 1)) / 2 ^ w).
  replace (z + 2 ^ (w - 1) - 2 ^ w * q - 2 ^ (w - 1)) with (z + (- q * 2 ^ (w - n)) * 2 ^ n).
  - by apply Z.mod_add; lia.
  - rewrite <- Z.mul_assoc, <- Z.pow_add_r by lia. replace (w - n + n) with w by lia. lia.
Qed.

Lemma lor_mod_pow2 a b n : 0 ≤ n → Z.lor a b mod 2 ^ n = Z.lor (a mod 2 ^ n) (b mod 2 ^ n).
Proof. intros. rewrite <- !Z.land_ones by done. apply Z.land_lor_distr_l. Qed.

(** The state after [l] has been put out. *)
Definition after_bytes (l : list Z) (j : jpg_writer) : jpg_writer :=
  {| ctx := {| sent := sent (ctx j) ++ [l]; buffer := buffer (ctx j); buf_used := buf_used (ctx j) |};
     bitBuf := bitBuf j; bitCnt := bitCnt j |}.

Lemma to_ctx_putc c j (Q : outcome unit → jpg_writer → Prop) :
  Q (Val ()) (after_bytes [c] j) → awp (to_ctx (stbiw__putc c)) j Q.
Proof. done. Qed.

(** One byte leaves the buffer. *)
Lemma top_byte buf a r : length a = 8%nat → zlen (a ++ r) ≤ 24 →
  buf mod 2 ^ 24 = bval (a ++ r) * 2 ^ (24 - zlen (a ++ r)) →
  Z.land (Z.shiftr buf 16) 255 = bval a ∧
  sx 32 (Z.shiftl buf 8) mod 2 ^ 24 = bval r * 2 ^ (24 - zlen r).
Proof.
  intros Ha Hl Hb. rewrite length_app, Nat2Z.inj_add, Ha in *. rewrite bval_app in Hb.
  pose proof (bval_bound r) as Hr. set (n := zlen r) in *. change (Z.of_nat 8) with 8 in *.
  assert (0 < 2 ^ (16 - n)) by (apply Z.pow_pos_nonneg; lia).
  assert (2 ^ 16 = 2 ^ n * 2 ^ (16 - n)) as E16 by (rewrite <- Z.pow_add_r by lia; f_equal; lia).
  replace (24 - (8 + n)) with (16 - n) in Hb by lia. split.
  - rewrite Z.shiftr_div_pow2 by lia. change 255 with (2 ^ 8 - 1). rewrite land_mask by lia.
    assert ((buf / 2 ^ 16) mod 2 ^ 8 = (buf mod 2 ^ 24) / 2 ^ 16) as ->.
    { change (2 ^ 24) with (2 ^ 16 * 2 ^ 8). rewrite Z.rem_mul_r by lia.
      rewrite (Z.mul_comm (2 ^ 16)), Z.div_add by lia. rewrite (Z.div_small (buf mod 2 ^ 16)); [lia|].
      by apply Z.mod_pos_bound. }
    rewrite Hb, E16. symmetry. apply (Z.div_unique_pos _ _ _ (bval r * 2 ^ (16 - n))); nia.
  - rewrite sx_mod_low by lia. rewrite Z.shiftl_mul_pow2 by lia.
    rewrite <- Z.mul_mod_idemp_l, Hb by lia.
    replace ((bval a * 2 ^ n + bval r) * 2 ^ (16 - n) * 2 ^ 8) with (bval r * 2 ^ (24 - n) + bval a * 2 ^ 24).
    2:{ change (2 ^ 24) with (2 ^ 16 * 2 ^ 8). rewrite E16.
        replace (2 ^ (24 - n)) with (2 ^ (16 - n) * 2 ^ 8) by (rewrite <- Z.pow_add_r by lia; f_equal; lia). lia. }
    rewrite Z.mod_add by lia. apply Z.mod_small.
    assert (2 ^ 24 = 2 ^ n * 2 ^ (24 - n)) as -> by (rewrite <- Z.pow_add_r by lia; f_equal; lia).
    assert (0 < 2 ^ (24 - n)) by (apply Z.pow_pos_nonneg; lia). nia.
Qed.

Lemma flush_bytes_spec base bs j : jpending base bs j → awp_ok flush_bytes j (λ _ j', jwrote base bs j').
Proof.
  intros H. unfold flush_bytes. awp_step. apply awp_ok_get. awp_step.
  apply (awp_loop (λ _ j', jpending base bs j') (λ _ j', Z.to_nat (bitCnt j'))); [done|lia|].
  clear j H. intros _ j (bytes & pend & Hs & Hby & Hbs & Hn & Hp & Hb).
  apply awp_bind, awp_get. destruct (Z.leb_spec 8 (bitCnt j)) as [Hge|Hlt]; cbn [negb].
  2:{ apply awp_ret. awp_step. split; [|lia]. exists bytes, pend. done. }
  pose proof (take_drop 8 pend) as Htd. set (a := take 8 pend) in *. set (r := drop 8 pend) in *.
  assert (length a = 8%nat) as Ha by (unfold a; rewrite length_take; lia).
  rewrite <- Htd in Hn, Hp, Hb, Hbs. destruct (top_byte (bitBuf j) a r Ha Hp Hb) as [Hc Hbuf].
  rewrite Hc. pose proof (bval_bound a) as Hbd. rewrite Ha in Hbd. change (2 ^ Z.of_nat 8) with 256 in Hbd.
  rewrite length_app, Nat2Z.inj_add, Ha in *. change (Z.of_nat 8) with 8 in *.
  assert (∀ l, mjoin (sent (ctx j)) ++ l = base ++ stuff (bytes ++ [bval a]) →
    ∀ c, mjoin (sent c) = mjoin (sent (ctx j)) ++ l →
    jpending base bs {| ctx := c; bitBuf := sx 32 (Z.shiftl (bitBuf j) 8); bitCnt := bitCnt j - 8 |}) as Hnew.
  { intros l El c Ec. exists (bytes ++ [bval a]), r. cbn. split; [by rewrite Ec|]. split; [apply Forall_app; split; [done|]|].
    - by apply Forall_singleton.
    - split; [|split; [lia|split; [lia|done]]]. rewrite Hbs, byte_bits_app, byte_bits_cons. cbn [byte_bits mbind list_bind].
      replace 8%nat with (length a). rewrite bits_bval, app_nil_r. by rewrite <- app_assoc. }
  assert (∀ l, stuff [bval a] = l → mjoin (sent (ctx j)) ++ l = base ++ stuff (bytes ++ [bval a])) as Hst.
  { intros l <-. by rewrite Hs, stuff_app, app_assoc. }
  apply awp_bind, to_ctx_putc, awp_bind. cbn [stuff] in Hst.
  destruct (Z.eqb_spec (bval a) 255) as [E|E].
  - apply to_ctx_putc. repeat first [apply awp_bind|apply awp_modify|apply awp_ret].
    split; [|cbn; lia]. apply (Hnew [bval a; 0]); [by apply Hst|]. cbn. by rewrite !mjoin_snoc, <- app_assoc.
  - repeat first [apply awp_bind|apply awp_modify|apply awp_ret].
    split; [|cbn; lia]. apply (Hnew [bval a]); [by apply Hst|]. cbn. by rewrite !mjoin_snoc.
Qed.

(** [n] bits more. *)
Lemma writeBits_spec base bs j c n : jwrote base bs j → 0 ≤ n ≤ 16 → 0 ≤ c < 2 ^ n →
  awp_ok (stbiw__jpg_writeBits (c, n)) j (λ _ j', jwrote base (bs ++ nbits (Z.to_nat n) c) j').
Proof.
  intros [(bytes & pend & Hs & Hby & Hbs & Hn & _ & Hb) Hlt] Hn16 Hc. unfold stbiw__jpg_writeBits.
  awp_step. apply awp_ok_get. cbn [snd fst]. set (p := zlen pend) in *.
  rewrite (proj2 (Z.leb_le 0 (24 - (bitCnt j + n)))), (proj2 (Z.ltb_lt _ 32)) by lia. cbn [andb].
  assert (0 < 2 ^ (24 - p - n)) by (apply Z.pow_pos_nonneg; lia).
  assert (2 ^ (24 - p) = 2 ^ n * 2 ^ (24 - p - n)) as Ep by (rewrite <- Z.pow_add_r by lia; f_equal; lia).
  assert (2 ^ (24 - p) ≤ 2 ^ 24) by (apply Z.pow_le_mono_r; lia).
  assert (Z.shiftl c (24 - (bitCnt j + n)) = c * 2 ^ (24 - p - n)) as Ev
    by (rewrite Z.shiftl_mul_pow2 by lia; do 2 f_equal; lia).
  rewrite Ev. assert (0 ≤ c * 2 ^ (24 - p - n) < 2 ^ (24 - p)) by nia.
  awp_step. awp_step. rewrite i32_ok by (c_unfold; lia). cbn [wp]. awp_step. apply awp_modify.
  apply flush_bytes_spec. exists bytes, (pend ++ nbits (Z.to_nat n) c). cbn [ctx bitBuf bitCnt].
  rewrite length_app, length_bits, Nat2Z.inj_add, Z2Nat.id by lia. fold p.
  split; [done|]. split; [done|]. split; [by rewrite Hbs, app_assoc|]. split; [lia|]. split; [lia|].
  rewrite lor_mod_pow2, Hb by lia. rewrite (Z.mod_small (c * _)) by lia.
  rewrite <- Z.shiftl_mul_pow2, lor_shiftl by lia.
  rewrite bval_app, length_bits, bval_bits_small, Z2Nat.id by (rewrite ?Z2Nat.id; lia).
  rewrite Ep. replace (24 - (p + n)) with (24 - p - n) by lia. lia.
Qed.

(** ** Magnitudes *)

(** The number of bits of the magnitude of [v] (T.81, F.1.2.1.1), and the bits
    that follow the code for it. *)
Definition category (v : Z) : Z := Z.log2 (Z.abs v) + 1.
Definition extra_value (v : Z) : Z := if v <? 0 then v - 1 + 2 ^ category v else v.
Definition extra_bits (v : Z) : list bool := nbits (Z.to_nat (category v)) (extra_value v).

Lemma category_spec v : v ≠ 0 → 2 ^ (category v - 1) ≤ Z.abs v < 2 ^ category v ∧ 1 ≤ category v.
Proof.
  intros. unfold category. pose proof (Z.log2_spec (Z.abs v)). pose proof (Z.log2_nonneg (Z.abs v)).
  replace (Z.log2 (Z.abs v) + 1 - 1) with (Z.log2 (Z.abs v)) by lia. rewrite Z.add_1_r. lia.
Qed.

Lemma category_le v n : v ≠ 0 → 0 ≤ n → Z.abs v < 2 ^ n → category v ≤ n.
Proof.
  intros Hv Hn H. pose proof (category_spec v Hv) as [Hc _]. destruct (Z.le_gt_cases (category v) n); [done|].
  pose proof (Z.pow_le_mono_r 2 n (category v - 1)). lia.
Qed.

Lemma extra_value_range v : v ≠ 0 → 0 ≤ extra_value v < 2 ^ category v.
Proof. intros Hv. pose proof (category_spec v Hv). unfold extra_value. destruct (Z.ltb_spec v 0); lia. Qed.

Lemma count_bits_spec fuel t n : 1 ≤ t < 2 ^ Z.of_nat fuel → count_bits fuel t n = n + Z.log2 t.
Proof.
  revert t n. induction fuel as [|fuel IH]; intros t n Ht; [cbn in Ht; lia|]. cbn [count_bits].
  rewrite Nat2Z.inj_succ, Z.pow_succ_r in Ht by lia. rewrite Z.shiftr_div_pow2 by lia. change (2 ^ 1) with 2.
  destruct (Z.eqb_spec (t / 2) 0) as [E|E].
  - assert (t = 1) as -> by (Z.div_mod_to_equations; lia). cbn. lia.
  - assert (2 ≤ t) by (Z.div_mod_to_equations; lia). rewrite IH by (Z.div_mod_to_equations; lia).
    change 2 with (2 ^ 1). rewrite <- Z.shiftr_div_pow2, Z.log2_shiftr by lia.
    pose proof (Z.log2_le_mono 2 t). change (Z.log2 2) with 1 in *. lia.
Qed.

Lemma calcBits_spec v (Q : Z * Z → Prop) : v ≠ 0 → Z.abs v < 2 ^ 16 → Q (extra_value v, category v) →
  wp (stbiw__jpg_calcBits v) Q.
Proof.
  intros Hv Hb HQ. pose proof (category_spec v Hv) as [Hc H1]. pose proof (category_le v 16 Hv ltac:(lia) Hb) as H16.
  unfold stbiw__jpg_calcBits. assert ((if v <? 0 then i32 (- v) else Ok v) = Ok (Z.abs v)) as ->.
  { destruct (Z.ltb_spec v 0); [rewrite i32_ok by (c_unfold; lia)|]; f_equal; lia. }
  cbn [mbind Res_bind].
  assert ((if v <? 0 then i32 (v - 1) else Ok v) = Ok (if v <? 0 then v - 1 else v)) as ->.
  { destruct (Z.ltb_spec v 0); [rewrite i32_ok by (c_unfold; lia)|]; done. }
  cbn [mbind Res_bind].
  assert (count_bits 32 (Z.abs v) 1 = category v) as ->.
  { rewrite count_bits_spec by (change (2 ^ Z.of_nat 32) with (2 ^ 32); lia). unfold category. lia. }
  rewrite (proj2 (Z.ltb_lt (category v) 31)) by lia. cbn [mbind Res_bind wp].
  rewrite land_mask_shiftl by lia.
  pose proof (extra_value_range v Hv). assert (2 ^ category v ≤ 2 ^ 16) by (apply Z.pow_le_mono_r; lia).
  assert ((if v <? 0 then v - 1 else v) mod 2 ^ category v = extra_value v) as ->; [|by rewrite !u16_small by lia].
  unfold extra_value. destruct (Z.ltb_spec v 0); [|apply Z.mod_small; lia].
  symmetry. apply (Z.mod_unique_pos _ _ (-1)); lia.
Qed.

(** ** The code of a block *)
Section coding.
Context (HTDC HTAC : HT).

Definition sym_bits (T : HT) (s : Z) : list bool := nbits (Z.to_nat (T.[s]).2) (T.[s]).1.

(** The difference to the last block's DC coefficient (T.81, F.1.2.1). *)
Definition dc_bits (diff : Z) : list bool :=
  if diff =? 0 then sym_bits HTDC 0 else sym_bits HTDC (category diff) ++ extra_bits diff.

(** The AC coefficients to come in zigzag order after [run] zeros (F.1.2.2): a
    symbol for a run of zeros and the next coefficient's category, [0xf0] for
    sixteen zeros, [0] for the end of the block. *)
Fixpoint ac_bits (run : Z) (zs : list Z) : list bool :=
  match zs with
  | [] => []
  | v :: zs =>
      if v =? 0 then
        if forallb (Z.eqb 0) zs then sym_bits HTAC 0
        else if run =? 15 then sym_bits HTAC 0xf0 ++ ac_bits 0 zs
        else ac_bits (run + 1) zs
      else sym_bits HTAC (run * 16 + category v) ++ extra_bits v ++ ac_bits 0 zs
  end.

Definition block_bits (DC : Z) (DU : list Z) : list bool := dc_bits (DU.[0] - DC) ++ ac_bits 0 (drop 1 DU).

Lemma forallb_zero zs : forallb (Z.eqb 0) zs = true ↔ Forall (λ v, v = 0) zs.
Proof.
  rewrite Forall_forall. split.
  - intros H v Hv. rewrite forallb_forall in H. specialize (H v (proj1 (list_elem_of_In _ _) Hv)). lia.
  - intros H. apply forallb_forall. intros v Hv%list_elem_of_In. rewrite (H v Hv). done.
Qed.

Lemma forallb_run m v t : v ≠ 0 → forallb (Z.eqb 0) (replicate m 0 ++ v :: t) = false.
Proof.
  intros Hv. destruct (forallb _ _) eqn:E; [|done]. apply forallb_zero, Forall_app in E as [_ E].
  by apply Forall_cons_1 in E as [E _].
Qed.

Lemma ac_bits_end run zs : zs ≠ [] → Forall (λ v, v = 0) zs → ac_bits run zs = sym_bits HTAC 0.
Proof.
  destruct zs as [|v zs]; [done|]. intros _ [-> H]%Forall_cons_1. cbn [ac_bits]. rewrite Z.eqb_refl.
  by rewrite (proj2 (forallb_zero zs) H).
Qed.

Lemma ac_bits_run m run v t : v ≠ 0 → 0 ≤ run ≤ 15 →
  ac_bits run (replicate m 0 ++ v :: t) =
    mjoin (replicate (Z.to_nat ((run + Z.of_nat m) / 16)) (sym_bits HTAC 0xf0)) ++
    sym_bits HTAC ((run + Z.of_nat m) mod 16 * 16 + category v) ++ extra_bits v ++ ac_bits 0 t.
Proof.
  intros Hv. revert run. induction m as [|m IH]; intros run Hr.
  - cbn [replicate app ac_bits]. rewrite (proj2 (Z.eqb_neq v 0)) by done. rewrite Z.add_0_r.
    rewrite Z.div_small, Z.mod_small by lia. done.
  - cbn [replicate app ac_bits]. rewrite Z.eqb_refl, forallb_run by done.
    destruct (Z.eqb_spec run 15) as [->|Hne].
    + rewrite IH by lia. replace (15 + Z.of_nat (S m)) with (Z.of_nat m + 1 * 16) by lia.
      rewrite Z.div_add, Z.mod_add by lia. rewrite Z.add_0_l.
      replace (Z.to_nat (Z.of_nat m / 16 + 1)) with (S (Z.to_nat (Z.of_nat m / 16)))
        by (pose proof (Z.div_pos (Z.of_nat m) 16); lia).
      cbn [replicate mjoin list_join]. by rewrite <- app_assoc.
    + rewrite IH by lia. by replace (run + 1 + Z.of_nat m) with (run + Z.of_nat (S m)) by lia.
Qed.
End coding.

(** ** The coder puts out the code *)
Definition entry_ok (e : Z * Z) : bool := (0 <=? e.2) && (e.2 <=? 16) && (0 <=? e.1) && (e.1 <? 2 ^ e.2).
Definition ht_ok (T : HT) : Prop := zlen T = 256 ∧ forallb entry_ok T = true.

Lemma YDC_ok : ht_ok YDC_HT. Proof. by vm_compute. Qed.
Lemma YAC_ok : ht_ok YAC_HT. Proof. by vm_compute. Qed.
Lemma UVDC_ok : ht_ok UVDC_HT. Proof. by vm_compute. Qed.
Lemma UVAC_ok : ht_ok UVAC_HT. Proof. by vm_compute. Qed.

Lemma ht_entry T s : ht_ok T → 0 ≤ s < 256 → 0 ≤ (T.[s]).2 ≤ 16 ∧ 0 ≤ (T.[s]).1 < 2 ^ (T.[s]).2.
Proof.
  intros [Hl Hf] Hs. rewrite forallb_forall in Hf.
  specialize (Hf (T.[s]) (proj1 (list_elem_of_In _ _) (list_elem_of_lookup_total_2 T (Z.to_nat s) ltac:(lia)))).
  unfold entry_ok in Hf. lia.
Qed.

Section coder.
Context (HTDC HTAC : HT) (Hdc : ht_ok HTDC) (Hac : ht_ok HTAC) (base : list Z).

(** Writing [e] appends [bs]. *)
Definition puts (bs : list bool) (e : Z * Z) : Prop := ∀ before j, jwrote base before j →
  awp_ok (stbiw__jpg_writeBits e) j (λ _ j', jwrote base (before ++ bs) j').

Lemma rd_symbol T s : ht_ok T → 0 ≤ s < 256 → wp (rd T s) (puts (sym_bits T s)).
Proof.
  intros HT Hs. pose proof (ht_entry T s HT Hs) as [Hn Hc]. destruct HT as [Hl _].
  rewrite rd_ok by lia. cbn [wp]. unfold sym_bits. destruct (T.[s]) as [c n]. cbn [fst snd] in *.
  intros before j Hj. by apply writeBits_spec.
Qed.

Lemma calc_extra v : v ≠ 0 → Z.abs v < 2 ^ 15 →
  wp (stbiw__jpg_calcBits v) (λ e, puts (extra_bits v) e ∧ e.2 = category v ∧ 1 ≤ category v ≤ 15).
Proof.
  intros Hv Hb. pose proof (category_spec v Hv). pose proof (category_le v 15 Hv ltac:(lia) Hb).
  apply calcBits_spec; [done|lia|]. split; [|split; [done|lia]]. intros before j Hj.
  apply writeBits_spec; [done|lia|by apply extra_value_range].
Qed.

Lemma encode_dc_spec diff bs j : Z.abs diff < 2 ^ 15 → jwrote base bs j →
  awp_ok (encode_dc HTDC diff) j (λ _ j', jwrote base (bs ++ dc_bits HTDC diff) j').
Proof using Hdc.
  intros Hd Hj. unfold encode_dc, dc_bits. destruct (Z.eqb_spec diff 0) as [E|E].
  - awp_step. awp_step. eapply wp_mono; [by apply rd_symbol|]. intros e He. by apply He.
  - awp_step. awp_step. eapply wp_mono; [by apply calc_extra|]. intros e (He & -> & Hcat).
    awp_step. awp_step. eapply wp_mono; [apply rd_symbol; [done|lia]|]. intros e' He'.
    awp_step. eapply awp_ok_mono; [by apply He'|]. intros [] j1 H1. rewrite app_assoc. by apply He.
Qed.

(** The zeros from [i] on. *)
Lemma skip_zeroes_spec DU end0pos fuel i : 0 ≤ i ≤ end0pos → end0pos < zlen DU → DU.[end0pos] ≠ 0 →
  end0pos - i < Z.of_nat fuel →
  wp (skip_zeroes fuel DU end0pos i) (λ p, i ≤ p ≤ end0pos ∧ DU.[p] ≠ 0 ∧
    drop (Z.to_nat i) DU = replicate (Z.to_nat (p - i)) 0 ++ DU.[p] :: drop (Z.to_nat (p + 1)) DU).
Proof.
  revert i. induction fuel as [|fuel IH]; intros i Hi He Hne Hf; [lia|]. cbn [skip_zeroes].
  rewrite rd_ok by lia. cbn [mbind Res_bind].
  assert (drop (Z.to_nat i) DU = DU.[i] :: drop (Z.to_nat (i + 1)) DU) as Ed.
  { rewrite (drop_S DU (DU.[i]) (Z.to_nat i)) by (apply znth_lookup; lia). do 2 f_equal. lia. }
  destruct (Z.eqb_spec (DU.[i]) 0) as [E|E].
  - rewrite (proj2 (Z.leb_le i end0pos)) by lia. cbn [andb].
    assert (i ≠ end0pos) by congruence. eapply wp_mono; [apply IH; lia || done|]. cbn beta.
    intros p (Hp & Hpn & Hd). split; [lia|]. split; [done|]. rewrite Ed, Hd, E.
    by replace (Z.to_nat (p - i)) with (S (Z.to_nat (p - (i + 1)))) by lia.
  - cbn [andb wp]. split; [lia|]. split; [done|]. rewrite Z.sub_diag. done.
Qed.

Lemma last_nonzero_spec DU n : Z.of_nat n < zlen DU →
  wp (last_nonzero DU n) (λ e, 0 ≤ e ≤ Z.of_nat n ∧ (e ≠ 0 → DU.[e] ≠ 0) ∧
    ∀ i, e < i ≤ Z.of_nat n → DU.[i] = 0).
Proof.
  induction n as [|n IH]; intros Hn; cbn [last_nonzero]; [cbn [wp]; split; [lia|]; split; [done|]; lia|].
  rewrite rd_ok by lia. cbn [mbind Res_bind]. destruct (Z.eqb_spec (DU.[Z.of_nat (S n)]) 0) as [E|E].
  - eapply wp_mono; [apply IH; lia|]. cbn beta. intros e (He & Hne & Hz). split; [lia|]. split; [done|].
    intros i Hi. destruct (decide (i = Z.of_nat (S n))) as [->|]; [done|]. apply Hz. lia.
  - cbn [wp]. split; [lia|]. split; [done|]. lia.
Qed.
(** The symbols for whole runs of sixteen zeros. *)
Definition zrl_bits (q : Z) : list bool := mjoin (replicate (Z.to_nat q) (sym_bits HTAC 0xf0)).

Lemma zrl_spec nr before j : 0 ≤ nr < 64 → jwrote base before j →
  awp_ok (if 16 <=? nr then
      M16zeroes ← lift (rd HTAC 0xF0);
      a_for 0 (Z.shiftr nr 4) (λ _ _, stbiw__jpg_writeBits M16zeroes) ();;
      mret (Z.land nr 15)
    else mret nr) j (λ r j', r = nr mod 16 ∧ jwrote base (before ++ zrl_bits (nr / 16)) j').
Proof using Hac.
  intros Hnr Hj. unfold zrl_bits. destruct (Z.leb_spec 16 nr) as [Hge|Hlt].
  - awp_step. awp_step. eapply wp_mono; [by apply rd_symbol|]. intros e He. awp_step.
    rewrite Z.shiftr_div_pow2 by lia. change (2 ^ 4) with 16.
    apply (awp_ok_for (λ i _ j', jwrote base (before ++ mjoin (replicate (Z.to_nat i) (sym_bits HTAC 0xf0))) j')).
    + cbn. by rewrite app_nil_r.
    + intros i _ j1 Hi H1. eapply awp_ok_mono; [by apply He|]. intros [] j2 H2.
      replace (Z.to_nat (i + 1)) with (S (Z.to_nat i)) by lia. rewrite replicate_S_end, join_app. cbn [mjoin list_join].
      by rewrite app_nil_r, app_assoc.
    + intros _ j1. rewrite Z.max_r by (apply Z.div_pos; lia). intros H1. awp_step. split; [|done].
      change 15 with (2 ^ 4 - 1). by rewrite land_mask by lia.
  - awp_step. rewrite Z.mod_small, Z.div_small by lia. cbn. by rewrite app_nil_r.
Qed.

Lemma encode_ac_spec DU end0pos i before j : zlen DU = 64 → Forall (λ v, Z.abs v < 2 ^ 15) DU →
  0 ≤ i ≤ end0pos → end0pos < 64 → DU.[end0pos] ≠ 0 → jwrote base before j →
  awp_ok (encode_ac HTAC DU end0pos i) j (λ i' j', i < i' ≤ end0pos + 1 ∧ ∃ w,
    jwrote base (before ++ w) j' ∧
    ac_bits HTAC 0 (drop (Z.to_nat i) DU) = w ++ ac_bits HTAC 0 (drop (Z.to_nat i') DU)).
Proof using Hac.
  intros Hl HDU Hi He Hne Hj. unfold encode_ac. awp_step. awp_step.
  eapply wp_mono; [apply skip_zeroes_spec; lia || done|]. cbn beta. intros p (Hp & Hv & Hd).
  assert (Z.abs (DU.[p]) < 2 ^ 15) as Hb by (rewrite Forall_lookup in HDU; eapply HDU, znth_lookup; lia).
  rewrite Hd, ac_bits_run by (done || lia). rewrite Z.add_0_l, Z2Nat.id by lia.
  awp_step. eapply awp_ok_mono; [by apply zrl_spec; [lia|]|]. cbn beta. intros r j1 [-> H1].
  awp_step. awp_step. rewrite rd_ok by lia. cbn [wp].
  awp_step. awp_step. eapply wp_mono; [by apply calc_extra|]. intros e (He' & -> & Hcat).
  rewrite Z.shiftl_mul_pow2 by lia. change (2 ^ 4) with 16.
  pose proof (Z.mod_pos_bound (p - i) 16). awp_step. awp_step.
  eapply wp_mono; [apply rd_symbol; [done|lia]|]. intros e1 He1.
  awp_step. eapply awp_ok_mono; [by apply He1|]. intros [] j2 H2.
  awp_step. eapply awp_ok_mono; [by apply He'|]. intros [] j3 H3. awp_step. split; [lia|].
  exists (zrl_bits ((p - i) / 16) ++ sym_bits HTAC ((p - i) mod 16 * 16 + category (DU.[p])) ++ extra_bits (DU.[p])).
  split; [by rewrite !app_assoc in *|]. by rewrite <- !app_assoc.
Qed.

(** The coefficients after the DC one. *)
Lemma encode_acs_spec DU before j : zlen DU = 64 → Forall (λ v, Z.abs v < 2 ^ 15) DU → jwrote base before j →
  awp_ok (encode_acs HTAC DU) j (λ _ j', jwrote base (before ++ ac_bits HTAC 0 (drop 1 DU)) j').
Proof using Hac.
  intros Hl HDU Hj. unfold encode_acs. awp_step. awp_step.
  eapply wp_mono; [apply rd_symbol; [done|lia]|]. intros EOB HEOB.
  awp_step. awp_step. eapply wp_mono; [apply (last_nonzero_spec DU 63); lia|]. cbn beta. intros e (He & Hne & Hz).
  change (Z.of_nat 63) with 63 in *.
  assert (∀ k, e < k < 64 → ac_bits HTAC 0 (drop (Z.to_nat k) DU) = sym_bits HTAC 0) as Hend.
  { intros k Hk. apply ac_bits_end.
    - intros E%(f_equal length). rewrite length_drop in E. cbn in E. lia.
    - apply Forall_lookup. intros n v Hn. rewrite lookup_drop in Hn. pose proof (lookup_lt_Some _ _ _ Hn).
      specialize (Hz (k + Z.of_nat n) ltac:(lia)). replace (Z.to_nat (k + Z.of_nat n)) with (Z.to_nat k + n)%nat in Hz by lia.
      by rewrite (list_lookup_total_correct _ _ _ Hn) in Hz. }
  destruct (Z.eqb_spec e 0) as [E0|E0].
  - rewrite <- (Hend 1) in HEOB by lia. by apply HEOB.
  - awp_step. apply (awp_loop (λ i j', 1 ≤ i ≤ e + 1 ∧ ∃ w, jwrote base (before ++ w) j' ∧
      ac_bits HTAC 0 (drop 1 DU) = w ++ ac_bits HTAC 0 (drop (Z.to_nat i) DU)) (λ i _, Z.to_nat (64 - i))); [|lia|].
    + split; [lia|]. exists []. rewrite app_nil_r. done.
    + intros i j1 (Hi & w & H1 & Hw). destruct (Z.leb_spec i e) as [Hle|Hgt]; cbn [negb].
      * apply awp_bind. eapply awp_mono; [apply (encode_ac_spec DU e i (before ++ w)); [done|done|lia|lia|by apply Hne|done]|].
        intros [i'|err] j2; [|done]. intros (Hi' & w' & H2 & Hw'). apply awp_ret. split; [|lia]. split; [lia|].
        exists (w ++ w'). rewrite app_assoc. split; [done|]. by rewrite Hw, Hw', app_assoc.
      * apply awp_ret. replace i with (e + 1) in Hw by lia. destruct (Z.eqb_spec e 63) as [->|E63]; cbn [negb].
        -- awp_step. rewrite (drop_ge DU (Z.to_nat (63 + 1))) in Hw by lia. rewrite Hw. cbn [ac_bits]. by rewrite app_nil_r.
        -- rewrite Hend in Hw by lia. rewrite Hw, app_assoc. by apply HEOB.
Qed.
End coder.
