(* ===== verification/StbPng.v ===== *)
(** * stb_image: the PNG decoder (facet/gpu/stb_image.h, lines 4596-5341)

    [stbi__png] is the decoder's record; [png_vars] holds the local variables
    of [stbi__parse_png_file], whose chunk switch is split into one definition
    per chunk type.  Byte pointers are positions in lists. *)
From S2P Require Import Prelude StbMonad StbBase StbZlib.

(** ** Filters *)
Definition STBI__F_none : Z := 0.
Definition STBI__F_sub : Z := 1.
Definition STBI__F_up : Z := 2.
Definition STBI__F_avg : Z := 3.
Definition STBI__F_paeth : Z := 4.
Definition STBI__F_avg_first : Z := 5.

Definition first_row_filter : list Z :=
  [STBI__F_none; STBI__F_sub; STBI__F_none; STBI__F_avg_first; STBI__F_sub].

Definition stbi__paeth (a b c : Z) : Z :=
  let thresh := c * 3 - (a + b) in
  let lo := if a <? b then a else b in
  let hi := if a <? b then b else a in
  let t0 := if hi <=? thresh then lo else c in
  if thresh <=? lo then hi else t0.

Definition stbi__depth_scale_table : list Z := [0; 0xff; 0x55; 0; 0x11; 0; 0; 0; 0x01].

(** [for (k = lo; k < hi; ++k) cur[k] = STBI__BYTECAST(f k)], where [f] reads
    the workspace as it is at that moment. *)
Definition filter_bytes (cur lo hi : Z) (f : list Z → Z → Res Z) (fb : list Z) : Res (list Z) :=
  for_range lo hi (λ k fb, v ← f fb k; wr fb (cur + k) (bytecast v)) fb.

(** One row of [nk] bytes from [raw + pos] into the workspace at [cur]; [n] is
    the distance between a byte and the one to its left. *)
Definition unfilter_row (filter n nk : Z) (raw : list Z) (pos cur prior : Z) (fb : list Z)
  : Res (list Z) :=
  if filter =? STBI__F_none then memcpy fb cur raw pos nk
  else if filter =? STBI__F_sub then
    fb ← memcpy fb cur raw pos n;
    filter_bytes cur n nk (λ fb k,
      r ← rd raw (pos + k); l ← rd fb (cur + k - n); Ok (r + l)) fb
  else if filter =? STBI__F_up then
    filter_bytes cur 0 nk (λ fb k,
      r ← rd raw (pos + k); p ← rd fb (prior + k); Ok (r + p)) fb
  else if filter =? STBI__F_avg then
    fb ← filter_bytes cur 0 n (λ fb k,
      r ← rd raw (pos + k); p ← rd fb (prior + k); Ok (r + Z.shiftr p 1)) fb;
    filter_bytes cur n nk (λ fb k,
      r ← rd raw (pos + k); p ← rd fb (prior + k); l ← rd fb (cur + k - n);
      Ok (r + Z.shiftr (p + l) 1)) fb
  else if filter =? STBI__F_paeth then
    fb ← filter_bytes cur 0 n (λ fb k,
      r ← rd raw (pos + k); p ← rd fb (prior + k); Ok (r + p)) fb;
    filter_bytes cur n nk (λ fb k,
      r ← rd raw (pos + k); l ← rd fb (cur + k - n); p ← rd fb (prior + k);
      lp ← rd fb (prior + k - n); Ok (r + stbi__paeth l p lp)) fb
  else if filter =? STBI__F_avg_first then
    fb ← memcpy fb cur raw pos n;
    filter_bytes cur n nk (λ fb k,
      r ← rd raw (pos + k); l ← rd fb (cur + k - n); Ok (r + Z.shiftr l 1)) fb
  else Ok fb.

(** ** Samples *)

(** [src] is [None] when it is [dest] itself. *)
Definition stbi__create_png_alpha_expand8 (dest : list Z) (doff : Z) (src : option (list Z * Z))
    (x img_n : Z) : Res (list Z) :=
  let rds (dest : list Z) (i : Z) :=
    match src with None => rd dest (doff + i) | Some (l, o) => rd l (o + i) end in
  if img_n =? 1 then
    for_downto (x - 1) 0 (λ i dest,
      dest ← wr dest (doff + (i * 2 + 1)) 255;
      v ← rds dest i; wr dest (doff + i * 2) v) dest
  else if img_n =? 3 then
    for_downto (x - 1) 0 (λ i dest,
      dest ← wr dest (doff + (i * 4 + 3)) 255;
      v ← rds dest (i * 3 + 2); dest ← wr dest (doff + (i * 4 + 2)) v;
      v ← rds dest (i * 3 + 1); dest ← wr dest (doff + (i * 4 + 1)) v;
      v ← rds dest (i * 3); wr dest (doff + i * 4) v) dest
  else Undef.

(** The loops of depths 4, 2 and 1: [nsmp] samples of [depth] bits, high bits
    first, from [inp + ipos] to one byte each. *)
Definition expand_bits (depth scale nsmp : Z) (inp : list Z) (ipos : Z) (dest : list Z) (doff : Z)
  : Res (list Z) :=
  if negb ((depth =? 4) || (depth =? 2) || (depth =? 1)) then Undef else
  let last := 8 ÷ depth - 1 in
  '(dest, _, _) ← for_range 0 nsmp (λ i '(dest, ipos, inb),
    '(ipos, inb) ← (if Z.land i last =? 0 then b ← rd inp ipos; Ok (ipos + 1, b)
                    else Ok (ipos, inb));
    dest ← wr dest (doff + i) (u8 (scale * Z.shiftr inb (8 - depth)));
    Ok (dest, ipos, u8 (Z.shiftl inb depth))) (dest, ipos, 0);
  Ok dest.

(** Big-endian sample [k] of the row at [cur] to sample [d] of [dest]. *)
Definition put_be16 (fb : list Z) (cur k : Z) (dest : list Z) (doff d : Z) : Res (list Z) :=
  hi ← rd fb (cur + 2 * k);
  lo ← rd fb (cur + 2 * k + 1);
  let v := Z.lor (Z.shiftl hi 8) lo in
  dest ← wr dest (doff + 2 * d) (v mod 256);
  wr dest (doff + 2 * d + 1) (v / 256).

Definition put_ffff (dest : list Z) (doff d : Z) : Res (list Z) :=
  dest ← wr dest (doff + 2 * d) 255; wr dest (doff + 2 * d + 1) 255.

(** The decoded row at [cur] into the image row at [doff]. *)
Definition expand_row (depth color img_n out_n x : Z) (fb : list Z) (cur : Z)
    (dest : list Z) (doff : Z) : Res (list Z) :=
  if depth <? 8 then
    scale ← (if color =? 0 then rd stbi__depth_scale_table depth else Ok 1);
    dest ← expand_bits depth scale (x * img_n) fb cur dest doff;
    if negb (img_n =? out_n) then stbi__create_png_alpha_expand8 dest doff None x img_n
    else Ok dest
  else if depth =? 8 then
    if img_n =? out_n then memcpy dest doff fb cur (x * img_n)
    else stbi__create_png_alpha_expand8 dest doff (Some (fb, cur)) x img_n
  else if depth =? 16 then
    if img_n =? out_n then for_range 0 (x * img_n) (λ i dest, put_be16 fb cur i dest doff i) dest
    else if negb (img_n + 1 =? out_n) then Undef
    else if img_n =? 1 then
      for_range 0 x (λ i dest,
        dest ← put_be16 fb cur i dest doff (2 * i); put_ffff dest doff (2 * i + 1)) dest
    else if img_n =? 3 then
      for_range 0 x (λ i dest,
        dest ← put_be16 fb cur (3 * i) dest doff (4 * i);
        dest ← put_be16 fb cur (3 * i + 1) dest doff (4 * i + 1);
        dest ← put_be16 fb cur (3 * i + 2) dest doff (4 * i + 2);
        put_ffff dest doff (4 * i + 3)) dest
    else Undef
  else Ok dest.

Section png.
Context `{Env : StbiEnv} {Sw : Switches}.

Record stbi__png := {
  png_s : stbi__context; idata : option (list Z); expanded : option (list Z);
  out : option (list Z); depth : Z
}.

Definition set_s (s : stbi__context) (p : stbi__png) : stbi__png :=
  {| png_s := s; idata := idata p; expanded := expanded p; out := out p; depth := depth p |}.
Definition set_out (o : option (list Z)) (p : stbi__png) : stbi__png :=
  {| png_s := png_s p; idata := idata p; expanded := expanded p; out := o; depth := depth p |}.
Definition set_expanded (e : option (list Z)) (p : stbi__png) : stbi__png :=
  {| png_s := png_s p; idata := idata p; expanded := e; out := out p; depth := depth p |}.
Definition set_idata (d : option (list Z)) (p : stbi__png) : stbi__png :=
  {| png_s := png_s p; idata := d; expanded := expanded p; out := out p; depth := depth p |}.
Definition set_depth (d : Z) (p : stbi__png) : stbi__png :=
  {| png_s := png_s p; idata := idata p; expanded := expanded p; out := out p; depth := d |}.

(** A call on the context, and an update of the image's dimensions. *)
Definition on_s {A} (m : Act stbi__context A) : Act stbi__png A := zoom png_s set_s m.
Definition set_n (n out_n : Z) (p : stbi__png) : stbi__png :=
  let s := png_s p in set_s (set_img (img_x s) (img_y s) n out_n s) p.

(** The image that [z->out] points to; the callers have allocated it. *)
Definition the_out : Act stbi__png (list Z) :=
  p ← get; match out p with Some o => mret o | None => lift Undef end.

(** ** Chunks *)
Record stbi__pngchunk := { length_ : Z; type : Z }.

Definition stbi__get_chunk_header : Act stbi__context stbi__pngchunk :=
  l ← stbi__get32be; t ← stbi__get32be; mret {| length_ := l; type := t |}.

Definition png_sig : list Z := [137; 80; 78; 71; 13; 10; 26; 10].

Definition stbi__check_png_header : Act stbi__context unit :=
  a_for 0 8 (λ i _,
    b ← stbi__get8; g ← lift (rd png_sig i);
    fail_if (negb (b =? g)) "bad png sig") ().

(** ** The image data *)

(** One row: [j] counts the rows, [pos] is [raw]. *)
Definition raw_row (raw : list Z) (out_n x depth color img_n width n stride wb : Z)
    (j : Z) (s : list Z * list Z * Z) : Act stbi__png (list Z * list Z * Z) :=
  let '(o, fb, pos) := s in
  let cur := Z.land j 1 * wb in
  let prior := Z.land (Z.lnot j) 1 * wb in
  nk ← lift (i32 (width * n));
  filter ← lift (rd raw pos);
  fail_if (4 <? filter) "invalid filter";;
  filter ← lift (if j =? 0 then rd first_row_filter filter else Ok filter);
  fb ← lift (unfilter_row filter n nk raw (pos + 1) cur prior fb);
  o ← lift (expand_row depth color img_n out_n x fb cur o (stride * j));
  mret (o, fb, pos + 1 + nk).

Definition stbi__create_png_image_raw (raw : list Z) (pos raw_len out_n x y depth color : Z)
  : Act stbi__png unit :=
  let bytes := if depth =? 16 then 2 else 1 in
  p ← get;
  let img_n := img_n (png_s p) in
  let stride := u32 (x * out_n * bytes) in
  let n := img_n * bytes in
  if negb ((out_n =? img_n) || (out_n =? img_n + 1)) then lift Undef else
  o ← or_outofmem (stbi__malloc_mad3 x y (out_n * bytes) 0);
  modify (set_out (Some o));;
  ok ← lift (stbi__mad3sizes_valid img_n x depth 7);
  fail_if (negb ok) "too large";;
  let wb := Z.shiftr (u32 (img_n * x * depth + 7)) 3 in
  ok ← lift (stbi__mad2sizes_valid wb y wb);
  fail_if (negb ok) "too large";;
  let img_len := u32 ((wb + 1) * y) in
  fail_if (raw_len <? img_len) "not enough pixels";;
  fb ← or_outofmem (stbi__malloc_mad2 wb 2 0);
  let '(n, width) := if depth <? 8 then (1, wb) else (n, x) in
  '(o, _, _) ← a_for 0 y (λ j s,
    s ← raw_row raw out_n x depth color img_n width n stride wb j s;
    let '(o, _, _) := s in modify (set_out (Some o));; mret s) (o, fb, pos);
  mret ().

Definition xorig : list Z := [0; 4; 0; 2; 0; 1; 0].
Definition yorig : list Z := [0; 0; 4; 0; 2; 0; 1].
Definition xspc : list Z := [8; 8; 4; 4; 2; 2; 1].
Definition yspc : list Z := [8; 8; 8; 4; 4; 2; 2].

(** One pass of the interlaced image; [pos] and [len] are the data left. *)
Definition interlace_pass (data : list Z) (out_n depth color out_bytes p : Z)
    (s : list Z * Z * Z) : Act stbi__png (list Z * Z * Z) :=
  let '(final, pos, len) := s in
  a ← get;
  let w := img_x (png_s a) in
  xo ← lift (rd xorig p); yo ← lift (rd yorig p);
  xs ← lift (rd xspc p); ys ← lift (rd yspc p);
  let x := u32 (w - xo + xs - 1) / xs in
  let y := u32 (img_y (png_s a) - yo + ys - 1) / ys in
  if (x =? 0) || (y =? 0) then mret s else
  let img_len := u32 ((Z.shiftr (u32 (img_n (png_s a) * x * depth + 7)) 3 + 1) * y) in
  stbi__create_png_image_raw data pos len out_n x y depth color;;
  o ← the_out;
  final ← lift (for_range 0 y (λ j final,
    for_range 0 x (λ i final,
      let out_y := j * ys + yo in
      let out_x := i * xs + xo in
      memcpy final (out_y * w * out_bytes + out_x * out_bytes) o ((j * x + i) * out_bytes) out_bytes)
      final) final);
  mret (final, pos + img_len, u32 (len - img_len)).

Definition stbi__create_png_image (data : list Z) (len out_n depth color interlaced : Z)
  : Act stbi__png unit :=
  let bytes := if depth =? 16 then 2 else 1 in
  let out_bytes := out_n * bytes in
  a ← get;
  let s := png_s a in
  if interlaced =? 0 then
    stbi__create_png_image_raw data 0 len out_n (img_x s) (img_y s) depth color
  else
    final ← or_outofmem (stbi__malloc_mad3 (img_x s) (img_y s) out_bytes 0);
    '(final, _, _) ← a_for 0 7 (interlace_pass data out_n depth color out_bytes) (final, 0, len);
    modify (set_out (Some final)).

(** ** Transparency and palettes *)

(** The comparison of a pixel with the transparent colour, on samples read
    with [rdv] and written with [wrv]; [full] is the opaque alpha. *)
Definition key_transparent (rdv : list Z → Z → Res Z) (wrv : list Z → Z → Z → Res (list Z))
    (full : Z) (tc : list Z) (out_n pixel_count : Z) (o : list Z) : Res (list Z) :=
  t0 ← rd tc 0;
  if out_n =? 2 then
    for_range 0 pixel_count (λ i o,
      g ← rdv o (i * 2); wrv o (i * 2 + 1) (if g =? t0 then 0 else full)) o
  else if out_n =? 4 then
    t1 ← rd tc 1; t2 ← rd tc 2;
    for_range 0 pixel_count (λ i o,
      r ← rdv o (i * 4); g ← rdv o (i * 4 + 1); b ← rdv o (i * 4 + 2);
      if (r =? t0) && (g =? t1) && (b =? t2) then wrv o (i * 4 + 3) 0 else Ok o) o
  else Undef.

Definition pixel_count (p : stbi__png) : Z := u32 (img_x (png_s p) * img_y (png_s p)).

Definition stbi__compute_transparency (tc : list Z) (out_n : Z) : Act stbi__png unit :=
  p ← get; o ← the_out;
  o ← lift (key_transparent rd wr 255 tc out_n (pixel_count p) o);
  modify (set_out (Some o)).

Definition stbi__compute_transparency16 (tc : list Z) (out_n : Z) : Act stbi__png unit :=
  p ← get; o ← the_out;
  o ← lift (key_transparent rd16 wr16 65535 tc out_n (pixel_count p) o);
  modify (set_out (Some o)).

Definition stbi__expand_png_palette (palette : list Z) (pal_img_n : Z) : Act stbi__png unit :=
  p ← get; orig ← the_out;
  o ← or_outofmem (stbi__malloc_mad2 (pixel_count p) pal_img_n 0);
  let n := if pal_img_n =? 3 then 3 else 4 in
  o ← lift (for_range 0 (pixel_count p) (λ i o,
    v ← rd orig i;
    for_range 0 n (λ k o, c ← rd palette (v * 4 + k); wr o (i * n + k) c) o) o);
  modify (set_out (Some o)).

(** The pixel at [q] of a CgBI image. *)
Definition unswap_pixel (unpremultiply : bool) (q : Z) (o : list Z) : Res (list Z) :=
  if unpremultiply then
    a ← rd o (q + 3); t ← rd o q;
    if negb (a =? 0) then
      let half := a / 2 in
      b ← rd o (q + 2); o ← wr o q (u8 ((b * 255 + half) / a));
      g ← rd o (q + 1); o ← wr o (q + 1) (u8 ((g * 255 + half) / a));
      wr o (q + 2) (u8 ((t * 255 + half) / a))
    else
      b ← rd o (q + 2); o ← wr o q b; wr o (q + 2) t
  else
    t ← rd o q; b ← rd o (q + 2); o ← wr o q b; wr o (q + 2) t.

Definition stbi__de_iphone : Act stbi__png unit :=
  p ← get; o ← the_out;
  o ← lift (
    if img_out_n (png_s p) =? 3 then
      for_range 0 (pixel_count p) (λ i o, unswap_pixel false (i * 3) o) o
    else if img_out_n (png_s p) =? 4 then
      for_range 0 (pixel_count p) (λ i o,
        unswap_pixel (is_on stbi__unpremultiply_on_load) (i * 4) o) o
    else Undef);
  modify (set_out (Some o)).

(** ** The chunk loop *)
Definition STBI__PNG_TYPE (a b c d : Z) : Z :=
  Z.shiftl a 24 + Z.shiftl b 16 + Z.shiftl c 8 + d.
Definition TYPE_CgBI : Z := STBI__PNG_TYPE 67 103 66 73.
Definition TYPE_IHDR : Z := STBI__PNG_TYPE 73 72 68 82.
Definition TYPE_PLTE : Z := STBI__PNG_TYPE 80 76 84 69.
Definition TYPE_tRNS : Z := STBI__PNG_TYPE 116 82 78 83.
Definition TYPE_IDAT : Z := STBI__PNG_TYPE 73 68 65 84.
Definition TYPE_IEND : Z := STBI__PNG_TYPE 73 69 78 68.

Record png_vars := {
  palette : list Z; pal_img_n : Z; has_trans : bool; tc : list Z; tc16 : list Z;
  ioff : Z; idata_limit : Z; pal_len : Z;
  first : bool; interlace : Z; color : Z; is_iphone : bool
}.

Definition png_vars0 : png_vars :=
  {| palette := malloc_arr uninit 1024; pal_img_n := 0; has_trans := false; tc := [0; 0; 0];
     tc16 := malloc_arr uninit 3; ioff := 0; idata_limit := 0; pal_len := 0;
     first := true; interlace := 0; color := 0; is_iphone := false |}.

(** How a chunk's case ends: [break] to the CRC, or [return 1]. *)
Abbreviation chunk_end := (ctl png_vars unit).

Definition chunk_CgBI (c : stbi__pngchunk) (v : png_vars) : Act stbi__png chunk_end :=
  on_s (stbi__skip (sx 32 (length_ c)));;
  mret (Next {| palette := palette v; pal_img_n := pal_img_n v; has_trans := has_trans v;
                tc := tc v; tc16 := tc16 v; ioff := ioff v; idata_limit := idata_limit v;
                pal_len := pal_len v; first := first v; interlace := interlace v;
                color := color v; is_iphone := true |}).

(** The size test of the header, [too_many] components wide. *)
Definition too_large (s : stbi__context) (n : Z) : bool :=
  Z.shiftl 1 30 / img_x s / n <? img_y s.

Definition chunk_IHDR (c : stbi__pngchunk) (v : png_vars) : Act stbi__png chunk_end :=
  fail_if (negb (first v)) "multiple IHDR";;
  fail_if (negb (length_ c =? 13)) "bad IHDR len";;
  x ← on_s stbi__get32be;
  modify (λ p, set_s (set_img x (img_y (png_s p)) (img_n (png_s p)) (img_out_n (png_s p)) (png_s p)) p);;
  y ← on_s stbi__get32be;
  modify (λ p, set_s (set_img x y (img_n (png_s p)) (img_out_n (png_s p)) (png_s p)) p);;
  fail_if (STBI_MAX_DIMENSIONS <? y) "too large";;
  fail_if (STBI_MAX_DIMENSIONS <? x) "too large";;
  d ← on_s stbi__get8;
  modify (set_depth d);;
  fail_if (negb (d =? 1) && negb (d =? 2) && negb (d =? 4) && negb (d =? 8) && negb (d =? 16))
    "1/2/4/8/16-bit only";;
  color ← on_s stbi__get8;
  fail_if (6 <? color) "bad ctype";;
  fail_if ((color =? 3) && (d =? 16)) "bad ctype";;
  fail_if (negb (color =? 3) && Z.testbit color 0) "bad ctype";;
  let pal := if color =? 3 then 3 else pal_img_n v in
  comp ← on_s stbi__get8;
  fail_if (negb (comp =? 0)) "bad comp method";;
  filter ← on_s stbi__get8;
  fail_if (negb (filter =? 0)) "bad filter method";;
  interlace ← on_s stbi__get8;
  fail_if (1 <? interlace) "bad interlace method";;
  fail_if ((x =? 0) || (y =? 0)) "0-pixel image";;
  (if pal =? 0 then
     let n := (if Z.testbit color 1 then 3 else 1) + (if Z.testbit color 2 then 1 else 0) in
     modify (λ p, set_n n (img_out_n (png_s p)) p);;
     p ← get; fail_if (too_large (png_s p) n) "too large"
   else
     modify (λ p, set_n 1 (img_out_n (png_s p)) p);;
     p ← get; fail_if (too_large (png_s p) 4) "too large");;
  mret (Next {| palette := palette v; pal_img_n := pal; has_trans := has_trans v;
                tc := tc v; tc16 := tc16 v; ioff := ioff v; idata_limit := idata_limit v;
                pal_len := pal_len v; first := false; interlace := interlace;
                color := color; is_iphone := is_iphone v |}).

Definition set_palette (pal : list Z) (len : Z) (n : Z) (v : png_vars) : png_vars :=
  {| palette := pal; pal_img_n := n; has_trans := has_trans v; tc := tc v; tc16 := tc16 v;
     ioff := ioff v; idata_limit := idata_limit v; pal_len := len; first := first v;
     interlace := interlace v; color := color v; is_iphone := is_iphone v |}.

Definition chunk_PLTE (c : stbi__pngchunk) (v : png_vars) : Act stbi__png chunk_end :=
  fail_if (first v) "first not IHDR";;
  fail_if (256 * 3 <? length_ c) "invalid PLTE";;
  let len := length_ c / 3 in
  fail_if (negb (len * 3 =? length_ c)) "invalid PLTE";;
  pal ← a_for 0 len (λ i pal,
    r ← on_s stbi__get8; pal ← lift (wr pal (i * 4) r);
    g ← on_s stbi__get8; pal ← lift (wr pal (i * 4 + 1) g);
    b ← on_s stbi__get8; pal ← lift (wr pal (i * 4 + 2) b);
    lift (wr pal (i * 4 + 3) 255)) (palette v);
  mret (Next (set_palette pal len (pal_img_n v) v)).

Definition set_trans (tc tc16 : list Z) (v : png_vars) : png_vars :=
  {| palette := palette v; pal_img_n := pal_img_n v; has_trans := true; tc := tc; tc16 := tc16;
     ioff := ioff v; idata_limit := idata_limit v; pal_len := pal_len v; first := first v;
     interlace := interlace v; color := color v; is_iphone := is_iphone v |}.

Definition chunk_tRNS (scan : scan_mode) (c : stbi__pngchunk) (v : png_vars)
  : Act stbi__png chunk_end :=
  fail_if (first v) "first not IHDR";;
  p ← get;
  fail_if (if idata p then true else false) "tRNS after IDAT";;
  if negb (pal_img_n v =? 0) then
    match scan with
    | SCAN_header => modify (λ p, set_n 4 (img_out_n (png_s p)) p);; mret (Return ())
    | _ =>
      fail_if (pal_len v =? 0) "tRNS before PLTE";;
      fail_if (pal_len v <? length_ c) "bad tRNS len";;
      pal ← a_for 0 (length_ c) (λ i pal,
        a ← on_s stbi__get8; lift (wr pal (i * 4 + 3) a)) (palette v);
      mret (Next (set_palette pal (pal_len v) 4 v))
    end
  else
    let n := img_n (png_s p) in
    fail_if (negb (Z.testbit n 0)) "tRNS with alpha";;
    fail_if (negb (length_ c =? n * 2)) "bad tRNS len";;
    match scan with
    | SCAN_header => modify (λ p, set_n (n + 1) (img_out_n (png_s p)) p);; mret (Return ())
    | _ =>
      if depth p =? 16 then
        t ← a_for 0 (Z.min n 3) (λ k t, x ← on_s stbi__get16be; lift (wr t k (u16 x))) (tc16 v);
        mret (Next (set_trans (tc v) t v))
      else
        scale ← lift (rd stbi__depth_scale_table (depth p));
        t ← a_for 0 (Z.min n 3) (λ k t,
          x ← on_s stbi__get16be; lift (wr t k (u8 (Z.land x 255 * scale)))) (tc v);
        mret (Next (set_trans t (tc16 v) v))
    end.

Definition set_ioff (off limit : Z) (v : png_vars) : png_vars :=
  {| palette := palette v; pal_img_n := pal_img_n v; has_trans := has_trans v; tc := tc v;
     tc16 := tc16 v; ioff := off; idata_limit := limit; pal_len := pal_len v; first := first v;
     interlace := interlace v; color := color v; is_iphone := is_iphone v |}.

(** The new [idata_limit]: doubled until it covers [need], which is below
    [2^31]. *)
Definition grow_limit (len need limit : Z) : Res Z :=
  let limit := if limit =? 0 then (if 4096 <? len then len else 4096) else limit in
  fell <$> loop (R := Empty_set) 33 (λ limit,
    Ok (if limit <? need then Next (u32 (limit * 2)) else Break limit)) limit.

Definition chunk_IDAT (scan : scan_mode) (c : stbi__pngchunk) (v : png_vars)
  : Act stbi__png chunk_end :=
  fail_if (first v) "first not IHDR";;
  fail_if (negb (pal_img_n v =? 0) && (pal_len v =? 0)) "no PLTE";;
  match scan with
  | SCAN_header =>
      (if negb (pal_img_n v =? 0)
       then modify (λ p, set_n (pal_img_n v) (img_out_n (png_s p)) p) else mret ());;
      mret (Return ())
  | _ =>
    let need := u32 (ioff v + length_ c) in
    fail_if (Z.shiftl 1 30 <? length_ c) "IDAT size limit";;
    fail_if (sx 32 need <? sx 32 (ioff v)) "";;
    limit ← (if idata_limit v <? need then
               limit ← lift (grow_limit (length_ c) need (idata_limit v));
               if malloc_ok limit then
                 modify (λ p, let old := default [] (idata p) in
                   set_idata (Some (old ++ malloc_arr uninit (limit - zlen old))) p);; mret limit
               else fail "outofmem"
             else mret (idata_limit v));
    p ← get;
    '(data, there) ← on_s (stbi__getn (default [] (idata p)) (ioff v) (length_ c));
    modify (λ p, set_idata (if idata p then Some data else None) p);;
    fail_if (negb there) "outofdata";;
    mret (Next (set_ioff (u32 (ioff v + length_ c)) limit v))
  end.

Definition chunk_IEND (fuel : nat) (scan : scan_mode) (req_comp : Z) (v : png_vars)
  : Act stbi__png unit :=
  fail_if (first v) "first not IHDR";;
  match scan with
  | SCAN_load =>
      p ← get;
      let s := png_s p in
      match idata p with
      | None => fail "no IDAT"
      | Some data =>
        let bpl := u32 (img_x s * depth p + 7) / 8 in
        let raw_len := u32 (bpl * img_y s * img_n s + img_y s) in
        r ← lift (stbi_zlib_decode_malloc_guesssize_headerflag fuel data (sx 32 (ioff v))
                    (sx 32 raw_len) (negb (is_iphone v)));
        '(ex, raw_len) ← match r with Val x => mret x | Fail e => fail e end;
        modify (λ p, set_idata None (set_expanded (Some ex) p));;
        let n := img_n s in
        let out_n := if ((req_comp =? n + 1) && negb (req_comp =? 3) && (pal_img_n v =? 0))
                        || has_trans v then n + 1 else n in
        modify (set_n n out_n);;
        stbi__create_png_image ex raw_len out_n (depth p) (color v) (interlace v);;
        (if has_trans v then
           if depth p =? 16 then stbi__compute_transparency16 (tc16 v) out_n
           else stbi__compute_transparency (tc v) out_n
         else mret ());;
        (if is_iphone v && is_on stbi__de_iphone_flag && (2 <? out_n)
         then stbi__de_iphone else mret ());;
        (if negb (pal_img_n v =? 0) then
           let o := if 3 <=? req_comp then req_comp else pal_img_n v in
           modify (set_n (pal_img_n v) o);;
           stbi__expand_png_palette (palette v) o
         else if has_trans v then modify (set_n (n + 1) out_n)
         else mret ());;
        modify (set_expanded None);;
        on_s stbi__get32be;;
        mret ()
      end
  | _ => mret ()
  end.

Definition chunk_other (c : stbi__pngchunk) (v : png_vars) : Act stbi__png chunk_end :=
  fail_if (first v) "first not IHDR";;
  fail_if (Z.land (type c) (Z.shiftl 1 29) =? 0) "XXXX PNG chunk not known";;
  on_s (stbi__skip (sx 32 (length_ c)));;
  mret (Next v).

Definition png_chunk (fuel : nat) (scan : scan_mode) (req_comp : Z) (v : png_vars)
  : Act stbi__png chunk_end :=
  c ← on_s stbi__get_chunk_header;
  r ← (if type c =? TYPE_CgBI then chunk_CgBI c v
       else if type c =? TYPE_IHDR then chunk_IHDR c v
       else if type c =? TYPE_PLTE then chunk_PLTE c v
       else if type c =? TYPE_tRNS then chunk_tRNS scan c v
       else if type c =? TYPE_IDAT then chunk_IDAT scan c v
       else if type c =? TYPE_IEND then chunk_IEND fuel scan req_comp v;; mret (Return ())
       else chunk_other c v);
  match r with
  | Next v => on_s stbi__get32be;; mret (Next v)
  | r => mret r
  end.

Definition stbi__parse_png_file (fuel : nat) (scan : scan_mode) (req_comp : Z)
  : Act stbi__png unit :=
  modify (λ p, set_expanded None (set_idata None (set_out None p)));;
  on_s stbi__check_png_header;;
  match scan with
  | SCAN_type => mret ()
  | _ => a_loop fuel (png_chunk fuel scan req_comp) png_vars0;; mret ()
  end.

(** ** Entry points *)

(** [s] of the decoder is set by the callers; the rest is uninitialised. *)
Definition new_png (s : stbi__context) : stbi__png :=
  {| png_s := s; idata := None; expanded := None; out := None; depth := uninit 0 |}.

Definition stbi__do_png (fuel : nat) (req_comp : Z) : Act stbi__png Image :=
  fail_if ((req_comp <? 0) || (4 <? req_comp)) "bad req_comp";;
  stbi__parse_png_file fuel SCAN_load req_comp;;
  p ← get;
  fail_if (negb ((depth p <=? 8) || (depth p =? 16))) "bad bits_per_channel";;
  let bits := if depth p <=? 8 then 8 else 16 in
  result ← the_out;
  modify (set_out None);;
  let s := png_s p in
  result ← (if negb (req_comp =? 0) && negb (req_comp =? img_out_n s) then
              result ← (if bits =? 8
                        then stbi__convert_format result (img_out_n s) req_comp (img_x s) (img_y s)
                        else stbi__convert_format16 result (img_out_n s) req_comp (img_x s) (img_y s));
              modify (set_n (img_n s) req_comp);; mret result
            else mret result);
  mret {| pixels := result; img_w := img_x s; img_h := img_y s; img_comp := img_n s;
          img_bits := bits |}.

(** Runs a PNG decoder of its own on the context. *)
Definition with_png {A} (m : Act stbi__png A) : Act stbi__context A := λ s,
  match m (new_png s) with
  | Ok (o, p) => Ok (o, png_s p)
  | Undef => Undef
  | NoFuel => NoFuel
  end.

Definition stbi__png_load (fuel : nat) (req_comp : Z) : Act stbi__context Image :=
  with_png (stbi__do_png fuel req_comp).

Definition stbi__png_test : Act stbi__context bool :=
  r ← attempt stbi__check_png_header;
  stbi__rewind;;
  mret (match r with Val _ => true | Fail _ => false end).

(** Width, height and components. *)
Definition stbi__png_info_raw (fuel : nat) : Act stbi__png (Z * Z * Z) :=
  r ← attempt (stbi__parse_png_file fuel SCAN_header 0);
  match r with
  | Fail e => on_s stbi__rewind;; fail e
  | Val _ => p ← get; let s := png_s p in mret (img_x s, img_y s, img_n s)
  end.

Definition stbi__png_info (fuel : nat) : Act stbi__context (Z * Z * Z) :=
  with_png (stbi__png_info_raw fuel).

Definition stbi__png_is16 (fuel : nat) : Act stbi__context bool := with_png (
  r ← attempt (stbi__png_info_raw fuel);
  match r with
  | Fail _ => mret false
  | Val _ =>
      p ← get;
      if negb (depth p =? 16) then on_s stbi__rewind;; mret false else mret true
  end).
End png.
