(* ===== verification/StbPngSpec.v ===== *)
(** * stb_image: PNG filters and image data

    The five filters of the PNG specification are undone exactly, row by row
    and for a whole image, including the special treatment of the first row;
    [stbi__paeth] is the predictor of the specification. *)
From S2P Require Import Prelude StbMonad StbBase StbBaseSpec StbStream StbZlib StbPng.

(** ** The Paeth predictor, as the specification words it *)
Definition paeth_predictor (a b c : Z) : Z :=
  let p := a + b - c in
  let pa := Z.abs (p - a) in
  let pb := Z.abs (p - b) in
  let pc := Z.abs (p - c) in
  if (pa <=? pb) && (pa <=? pc) then a else if pb <=? pc then b else c.

Lemma paeth_is_predictor_eq a b c : stbi__paeth a b c = paeth_predictor a b c.
Proof.
  unfold stbi__paeth, paeth_predictor. cbn zeta.
  destruct (Z.ltb_spec a b);
    destruct (Z.leb_spec (Z.abs (a + b - c - a)) (Z.abs (a + b - c - b))),
      (Z.leb_spec (Z.abs (a + b - c - a)) (Z.abs (a + b - c - c))),
      (Z.leb_spec (Z.abs (a + b - c - b)) (Z.abs (a + b - c - c)));
    cbn [andb]; repeat case_match; lia.
Qed.

(** ** Filtering, as an encoder does it

    [n] is the distance to the byte on the left; what lies outside the row is
    zero. *)
Definition left_of (n : Z) (row : list Z) (k : Z) : Z := if k <? n then 0 else row.[k - n].

Definition predict (f n : Z) (prior row : list Z) (k : Z) : Z :=
  let a := left_of n row k in
  let b := prior.[k] in
  let c := left_of n prior k in
  if f =? STBI__F_sub then a
  else if f =? STBI__F_up then b
  else if f =? STBI__F_avg then (a + b) / 2
  else if f =? STBI__F_paeth then paeth_predictor a b c
  else 0.

Definition filter_row (f n : Z) (prior row : list Z) : list Z :=
  (λ k, (row.[k] - predict f n prior row k) mod 256) <$> seqZ 0 (zlen row).

(** Rows with their filters, the rows before the first being [prior]. *)
Fixpoint filter_rows (n : Z) (prior : list Z) (rows : list (Z * list Z)) : list Z :=
  match rows with
  | [] => []
  | (f, row) :: rows => f :: filter_row f n prior row ++ filter_rows n row rows
  end.

Lemma left_of_first n row k : k < n → left_of n row k = 0.
Proof. intros. unfold left_of. by rewrite (proj2 (Z.ltb_lt k n)). Qed.

Lemma paeth_no_left b : paeth_predictor 0 b 0 = b.
Proof. unfold paeth_predictor. cbn zeta. repeat case_match; lia. Qed.

Lemma paeth_left_only a : paeth_predictor a 0 0 = a.
Proof. unfold paeth_predictor. cbn zeta. repeat case_match; lia. Qed.

Lemma length_filter_row f n prior row : length (filter_row f n prior row) = length row.
Proof. unfold filter_row. rewrite length_fmap, length_seqZ. lia. Qed.

Lemma lookup_filter_row f n prior row k : 0 ≤ k < zlen row →
  (filter_row f n prior row).[k] = (row.[k] - predict f n prior row k) mod 256.
Proof.
  intros Hk. apply list_lookup_total_correct. unfold filter_row. rewrite list_lookup_fmap.
  by replace (seqZ 0 (zlen row) !! Z.to_nat k) with (Some k) by (symmetry; apply lookup_seqZ; lia).
Qed.

(** ** Undoing one row *)
Lemma bytecast_mod x : bytecast x = x mod 256.
Proof. unfold bytecast. change 255 with (2 ^ 8 - 1). by rewrite land_mask. Qed.

Lemma unfilter_byte x p : is_byte x → bytecast ((x - p) mod 256 + p) = x.
Proof.
  intros [H0 H1]. rewrite bytecast_mod, Zplus_mod_idemp_l. replace (x - p + p) with x by lia.
  by apply Z.mod_small.
Qed.

(** The workspace [fb] holds [row] up to [k] at [cur], and is [fb0] elsewhere. *)
Definition row_upto (fb0 : list Z) (cur k : Z) (row fb : list Z) : Prop :=
  length fb = length fb0 ∧
  ∀ i, 0 ≤ i → fb.[i] = if decide (cur ≤ i < cur + k) then row.[i - cur] else fb0.[i].

Lemma row_upto_cur fb0 cur k row fb i : 0 ≤ cur → row_upto fb0 cur k row fb → 0 ≤ i < k →
  fb.[cur + i] = row.[i].
Proof.
  intros Hc [_ H] Hi. rewrite H, decide_True by lia. do 2 f_equal. lia.
Qed.

Lemma row_upto_other fb0 cur k row fb i : row_upto fb0 cur k row fb → 0 ≤ i →
  ¬ (cur ≤ i < cur + k) → fb.[i] = fb0.[i].
Proof. intros [_ H] Hi Hn. by rewrite H, decide_False by lia. Qed.

Lemma filter_bytes_wp fb0 fb cur lo hi row (f : list Z → Z → Res Z) (Q : list Z → Prop) :
  0 ≤ cur → 0 ≤ lo ≤ hi → cur + hi ≤ zlen fb0 →
  row_upto fb0 cur lo row fb →
  (∀ k fb, lo ≤ k < hi → row_upto fb0 cur k row fb → wp (f fb k) (λ v, bytecast v = row.[k])) →
  (∀ fb, row_upto fb0 cur hi row fb → Q fb) →
  wp (filter_bytes cur lo hi f fb) Q.
Proof.
  intros Hc Hlo Hin H0 Hf HQ. unfold filter_bytes.
  apply (for_range_wp (λ k fb, row_upto fb0 cur k row fb)); [done| |].
  - intros k fb1 Hk Hr. apply wp_bind. eapply wp_mono; [by apply Hf|]. intros v Hv.
    rewrite wr_ok by (destruct Hr; lia). cbn [wp]. destruct Hr as [Hl Hr].
    split; [by rewrite length_zset|]. intros i Hi. rewrite znth_zset by lia.
    case_decide as E.
    + subst i. rewrite decide_True, Hv by lia. do 2 f_equal. lia.
    + rewrite Hr by done. do 2 case_decide; done || lia.
  - intros fb1. rewrite Z.max_r by lia. apply HQ.
Qed.

Lemma memcpy_row fb0 raw pos cur n row (Q : list Z → Prop) :
  0 ≤ cur → 0 ≤ n → 0 ≤ pos → cur + n ≤ zlen fb0 → pos + n ≤ zlen raw →
  (∀ k, 0 ≤ k < n → raw.[pos + k] = row.[k]) →
  (∀ fb, row_upto fb0 cur n row fb → Q fb) →
  wp (memcpy fb0 cur raw pos n) Q.
Proof.
  intros Hc Hn Hp Hf Hr Hk HQ. apply memcpy_wp; [lia..|]. intros l Hl Hg. apply HQ.
  split; [done|]. intros i Hi. rewrite Hg by done. case_decide; [|done]. apply Hk. lia.
Qed.

Section unfilter.
Variables (f n nk pos cur prior : Z) (raw row prow fb0 : list Z).
Hypotheses (Hf : 0 ≤ f ≤ 4) (Hn : 1 ≤ n ≤ nk) (Hpos : 0 ≤ pos) (Hraw : pos + nk ≤ zlen raw)
  (Hcur : 0 ≤ cur) (Hin : cur + nk ≤ zlen fb0) (Hrow : zlen row = nk) (Hbytes : Forall is_byte row)
  (Hprow : zlen prow = nk)
  (Henc : ∀ k, 0 ≤ k < nk → raw.[pos + k] = (filter_row f n prow row).[k]).

Lemma row_byte k : 0 ≤ k < nk → is_byte (row.[k]).
Proof using All.
  intros Hk. eapply (Forall_lookup_1 _ _ _ _ Hbytes). apply znth_lookup. lia.
Qed.

Lemma raw_byte k : 0 ≤ k < nk → raw.[pos + k] = (row.[k] - predict f n prow row k) mod 256.
Proof using All. intros Hk. rewrite Henc, lookup_filter_row by lia. done. Qed.

(** What a reader of the workspace finds. *)
Lemma read_raw k : 0 ≤ k < nk → rd raw (pos + k) = Ok ((row.[k] - predict f n prow row k) mod 256).
Proof using All. intros Hk. rewrite rd_ok by lia. by rewrite raw_byte. Qed.

Lemma read_left fb k : n ≤ k < nk → row_upto fb0 cur k row fb →
  rd fb (cur + k - n) = Ok (left_of n row k).
Proof using All.
  intros Hk Hr. rewrite rd_ok by (destruct Hr; lia).
  replace (cur + k - n) with (cur + (k - n)) by lia.
  rewrite (row_upto_cur fb0 cur k row) by (done || lia). unfold left_of.
  by rewrite (proj2 (Z.ltb_ge k n)) by lia.
Qed.

Lemma row_upto_start : row_upto fb0 cur 0 row fb0.
Proof using All. split; [done|]. intros i Hi. by rewrite decide_False by lia. Qed.

Lemma unpredict k : 0 ≤ k < nk →
  bytecast ((row.[k] - predict f n prow row k) mod 256 + predict f n prow row k) = row.[k].
Proof using All. intros. by apply unfilter_byte, row_byte. Qed.

(** The filters that do not look at the row above. *)
Lemma copied_wp m (Q : list Z → Prop) : 0 ≤ m ≤ nk →
  (∀ k, 0 ≤ k < m → predict f n prow row k = 0) →
  (∀ fb, row_upto fb0 cur m row fb → Q fb) → wp (memcpy fb0 cur raw pos m) Q.
Proof using All.
  intros Hm H0. apply memcpy_row; try (done || lia). intros k Hk.
  rewrite <- (unpredict k), bytecast_mod, raw_byte, H0, Z.add_0_r, Zmod_mod by lia. done.
Qed.

Lemma unfilter_none_wp (Q : list Z → Prop) :
  (∀ k, 0 ≤ k < nk → predict f n prow row k = 0) →
  (∀ fb, row_upto fb0 cur nk row fb → Q fb) →
  wp (unfilter_row STBI__F_none n nk raw pos cur prior fb0) Q.
Proof using All. intros H0. apply copied_wp; [lia|done]. Qed.

Lemma unfilter_sub_wp (Q : list Z → Prop) :
  (∀ k, 0 ≤ k < nk → predict f n prow row k = left_of n row k) →
  (∀ fb, row_upto fb0 cur nk row fb → Q fb) →
  wp (unfilter_row STBI__F_sub n nk raw pos cur prior fb0) Q.
Proof using All.
  intros Hs HQ. apply wp_bind, copied_wp; [lia|by intros k Hk; rewrite Hs, left_of_first by lia|].
  intros fb Hfb. apply (filter_bytes_wp fb0 _ _ _ _ row); try (done || lia).
  intros k fb1 Hk Hr. rewrite read_raw, (read_left fb1 k) by (done || lia). cbn.
  rewrite <- (unpredict k) at 2 by lia. by rewrite Hs by lia.
Qed.

Lemma unfilter_avg_first_wp (Q : list Z → Prop) :
  (∀ k, 0 ≤ k < nk → predict f n prow row k = left_of n row k / 2) →
  (∀ fb, row_upto fb0 cur nk row fb → Q fb) →
  wp (unfilter_row STBI__F_avg_first n nk raw pos cur prior fb0) Q.
Proof using All.
  intros Hs HQ. apply wp_bind, copied_wp; [lia|by intros k Hk; rewrite Hs, left_of_first by lia|].
  intros fb Hfb. apply (filter_bytes_wp fb0 _ _ _ _ row); try (done || lia).
  intros k fb1 Hk Hr. rewrite read_raw, (read_left fb1 k) by (done || lia). cbn.
  rewrite Z.shiftr_div_pow2 by lia.
  rewrite <- (unpredict k) at 2 by lia. by rewrite Hs by lia.
Qed.

Section with_prior.
Hypotheses (Hprior : 0 ≤ prior) (Hpin : prior + nk ≤ zlen fb0)
  (Hdisj : cur + nk ≤ prior ∨ prior + nk ≤ cur)
  (Hp : ∀ k, 0 ≤ k < nk → fb0.[prior + k] = prow.[k]).

Lemma read_prior fb k i : 0 ≤ i < nk → k ≤ nk → row_upto fb0 cur k row fb →
  rd fb (prior + i) = Ok (prow.[i]).
Proof using All.
  intros Hi Hk Hr. rewrite rd_ok by (destruct Hr; lia).
  rewrite (row_upto_other fb0 cur k row) by (done || lia). by rewrite Hp.
Qed.

(** Every filter is undone. *)
Lemma unfilter_row_wp (Q : list Z → Prop) :
  (∀ fb, row_upto fb0 cur nk row fb → Q fb) →
  wp (unfilter_row f n nk raw pos cur prior fb0) Q.
Proof using All.
  intros HQ. unfold unfilter_row.
  pose proof row_upto_start as H0.
  assert (f = 0 ∨ f = 1 ∨ f = 2 ∨ f = 3 ∨ f = 4) as Hc by lia.
  destruct Hc as [Ef|[Ef|[Ef|[Ef|Ef]]]]; rewrite Ef; cbn [Z.eqb Pos.eqb STBI__F_none STBI__F_sub
    STBI__F_up STBI__F_avg STBI__F_paeth].
  - apply unfilter_none_wp; [|done]. intros k Hk. by rewrite Ef.
  - apply unfilter_sub_wp; [|done]. intros k Hk. by rewrite Ef.
  - apply (filter_bytes_wp fb0 _ _ _ _ row); try (done || lia).
    intros k fb1 Hk Hr. rewrite read_raw, (read_prior fb1 k) by (done || lia). cbn.
    rewrite <- (unpredict k) at 2 by lia. by rewrite Ef.
  - apply wp_bind, (filter_bytes_wp fb0 _ _ _ _ row); try (done || lia).
    { intros k fb1 Hk Hr. rewrite read_raw, (read_prior fb1 k) by (done || lia). cbn.
      rewrite <- (unpredict k) at 2 by lia. rewrite Ef, Z.shiftr_div_pow2 by lia.
      change (predict 3 n prow row k) with ((left_of n row k + prow.[k]) / 2).
      by rewrite left_of_first by lia. }
    intros fb Hfb. apply (filter_bytes_wp fb0 _ _ _ _ row); try (done || lia).
    intros k fb1 Hk Hr. rewrite read_raw, (read_prior fb1 k), (read_left fb1 k) by (done || lia). cbn.
    rewrite <- (unpredict k) at 2 by lia. rewrite Ef, Z.shiftr_div_pow2 by lia.
    change (predict 3 n prow row k) with ((left_of n row k + prow.[k]) / 2).
    by rewrite (Z.add_comm (prow.[k])).
  - apply wp_bind, (filter_bytes_wp fb0 _ _ _ _ row); try (done || lia).
    { intros k fb1 Hk Hr. rewrite read_raw, (read_prior fb1 k) by (done || lia). cbn.
      rewrite <- (unpredict k) at 2 by lia. rewrite Ef.
      change (predict 4 n prow row k)
        with (paeth_predictor (left_of n row k) (prow.[k]) (left_of n prow k)).
      by rewrite !left_of_first, paeth_no_left by lia. }
    intros fb Hfb. apply (filter_bytes_wp fb0 _ _ _ _ row); try (done || lia).
    intros k fb1 Hk Hr.
    rewrite read_raw, (read_left fb1 k), (read_prior fb1 k) by (done || lia). cbn [mbind Res_bind].
    replace (prior + k - n) with (prior + (k - n)) by lia.
    rewrite (read_prior fb1 k) by (done || lia). cbn [mbind Res_bind wp].
    rewrite paeth_is_predictor_eq.
    rewrite <- (unpredict k) at 2 by lia. rewrite Ef.
    change (predict 4 n prow row k)
      with (paeth_predictor (left_of n row k) (prow.[k]) (left_of n prow k)).
    assert (prow.[k - n] = left_of n prow k) as ->; [|done].
    unfold left_of. by rewrite (proj2 (Z.ltb_ge k n)) by lia.
Qed.
End with_prior.

(** In the first row, which has nothing above it, the decoder uses another
    filter than the one the row names. *)
Lemma unfilter_first_wp (Q : list Z → Prop) : prow = replicate (Z.to_nat nk) 0 →
  (∀ fb, row_upto fb0 cur nk row fb → Q fb) →
  wp (g ← rd first_row_filter f; unfilter_row g n nk raw pos cur prior fb0) Q.
Proof using All.
  intros Hz HQ. apply wp_bind. rewrite rd_ok by (cbn; lia). cbn [wp].
  assert (∀ k, 0 ≤ k < nk → prow.[k] = 0) as H0 by (intros; subst prow; apply znth_replicate; lia).
  assert (∀ k, 0 ≤ k < nk → left_of n prow k = 0) as Hl0.
  { intros k Hk. unfold left_of. destruct (Z.ltb_spec k n); [done|]. apply H0. lia. }
  assert (f = 0 ∨ f = 1 ∨ f = 2 ∨ f = 3 ∨ f = 4) as Hc by lia.
  destruct Hc as [Ef|[Ef|[Ef|[Ef|Ef]]]]; rewrite Ef; cbn [Z.to_nat Pos.to_nat Pos.iter_op Nat.add].
  - apply unfilter_none_wp; [|done]. intros k Hk. by rewrite Ef.
  - apply unfilter_sub_wp; [|done]. intros k Hk. by rewrite Ef.
  - apply unfilter_none_wp; [|done]. intros k Hk. rewrite Ef. by apply H0.
  - apply unfilter_avg_first_wp; [|done]. intros k Hk. rewrite Ef.
    change (predict 3 n prow row k) with ((left_of n row k + prow.[k]) / 2).
    by rewrite H0, Z.add_0_r.
  - apply unfilter_sub_wp; [|done]. intros k Hk. rewrite Ef.
    change (predict 4 n prow row k)
      with (paeth_predictor (left_of n row k) (prow.[k]) (left_of n prow k)).
    by rewrite H0, Hl0, paeth_left_only.
Qed.
End unfilter.

(** ** Where the rows are in the encoded data *)
Lemma znth_app_l {A} `{!Inhabited A} (l1 l2 : list A) i : 0 ≤ i < zlen l1 → (l1 ++ l2).[i] = l1.[i].
Proof. intros. apply lookup_total_app_l. lia. Qed.

Lemma znth_app_r {A} `{!Inhabited A} (l1 l2 : list A) i : zlen l1 ≤ i →
  (l1 ++ l2).[i] = l2.[i - zlen l1].
Proof. intros. rewrite lookup_total_app_r by lia. f_equal. lia. Qed.

Definition above (prior : list Z) (rows : list (Z * list Z)) (j : nat) : list Z :=
  match j with O => prior | S j => (rows !!! j).2 end.

Lemma filter_rows_at n nk prior rows j f row : 0 ≤ nk →
  Forall (λ r, zlen r.2 = nk) rows → rows !! j = Some (f, row) →
  (filter_rows n prior rows).[Z.of_nat j * (nk + 1)] = f ∧
  ∀ k, 0 ≤ k < nk → (filter_rows n prior rows).[Z.of_nat j * (nk + 1) + 1 + k] =
    (filter_row f n (above prior rows j) row).[k].
Proof.
  intros Hnk Hrows. revert prior j. induction Hrows as [|[g r] rows Hr _ IH]; intros prior j Hj; [done|].
  cbn [snd] in Hr. cbn [filter_rows]. rewrite app_comm_cons.
  assert (zlen (g :: filter_row g n prior r) = nk + 1) as Hl
    by (cbn [length]; rewrite length_filter_row; lia).
  destruct j as [|j]; cbn in Hj.
  - injection Hj as -> ->. split.
    + by rewrite znth_app_l by lia.
    + intros k Hk. rewrite znth_app_l by lia.
      replace (Z.to_nat (Z.of_nat 0 * (nk + 1) + 1 + k)) with (S (Z.to_nat k)) by lia. done.
  - destruct (IH r j Hj) as [IH1 IH2]. split.
    + rewrite znth_app_r by lia. rewrite <- IH1. f_equal. lia.
    + intros k Hk. rewrite znth_app_r by lia.
      transitivity ((filter_row f n (above r rows j) row).[k]).
      * rewrite <- IH2 by done. f_equal. lia.
      * f_equal. by destruct j.
Qed.

Lemma length_filter_rows n nk prior rows : Forall (λ r, zlen r.2 = nk) rows →
  zlen (filter_rows n prior rows) = Z.of_nat (length rows) * (nk + 1).
Proof.
  intros H. revert prior. induction H as [|[f row] rows Hr _ IH]; intros prior; [done|].
  cbn [snd] in Hr. cbn [filter_rows length]. rewrite length_app, length_filter_row. specialize (IH row). lia.
Qed.

(** The image the rows make. *)
Lemma concat_rows nk (l : list Z) (rows : list (Z * list Z)) : 0 ≤ nk →
  Forall (λ r, zlen r.2 = nk) rows → zlen l = Z.of_nat (length rows) * nk →
  (∀ j k, (j < length rows)%nat → 0 ≤ k < nk → l.[Z.of_nat j * nk + k] = (rows !!! j).2.[k]) →
  l = mjoin (snd <$> rows).
Proof.
  intros Hnk Hrows. revert l. induction Hrows as [|[f row] rows Hr _ IH]; intros l Hl Hg.
  - destruct l; [done|]. cbn in Hl. lia.
  - cbn [snd length] in *. cbn.
    rewrite <- (take_drop (Z.to_nat nk) l). f_equal.
    + apply znth_ext; [rewrite length_take; lia|]. intros i Hi. rewrite length_take in Hi.
      rewrite lookup_total_take, decide_True by lia. apply (Hg 0%nat i); lia.
    + apply IH; [rewrite length_drop; lia|]. intros j k Hj Hk. rewrite lookup_total_drop.
      etransitivity; [|exact (Hg (S j) k ltac:(lia) Hk)]. f_equal. lia.
Qed.

(** ** A whole image *)
Section image.
Context `{Env : StbiEnv}.

(** The rows of an 8-bit image of [x * y] pixels of [n] samples. *)
Record png_rows (rows : list (Z * list Z)) (n x y : Z) : Prop := {
  rows_n : 1 ≤ n ≤ 4;
  rows_x : 0 < x;
  rows_y : zlen rows = y;
  rows_ok : Forall (λ r, 0 ≤ r.1 ≤ 4 ∧ zlen r.2 = x * n ∧ Forall is_byte r.2) rows
}.

Definition row_at (rows : list (Z * list Z)) (j : Z) : list Z := (rows.[j]).2.

(** The workspace has the row above, and the image has the rows before [j]. *)
Record rows_inv (rows : list (Z * list Z)) (n x y pos0 j : Z) (s : list Z * list Z * Z) : Prop := {
  inv_out : zlen s.1.1 = y * (x * n);
  inv_fb : zlen s.1.2 = 2 * (x * n);
  inv_pos : s.2 = pos0 + j * (x * n + 1);
  inv_above : 0 < j → ∀ k, 0 ≤ k < x * n →
    s.1.2.[Z.land (Z.lnot j) 1 * (x * n) + k] = (row_at rows (j - 1)).[k];
  inv_rows : ∀ i k, 0 ≤ i < j → 0 ≤ k < x * n → s.1.1.[i * (x * n) + k] = (row_at rows i).[k]
}.

Lemma land_1 a : Z.land a 1 = a mod 2.
Proof. by apply (land_mask a 1). Qed.

Lemma land_1_cases j :
  Z.land j 1 = 0 ∧ Z.land (Z.lnot j) 1 = 1 ∨ Z.land j 1 = 1 ∧ Z.land (Z.lnot j) 1 = 0.
Proof. rewrite !land_1. unfold Z.lnot, Z.pred. Z.div_mod_to_equations. lia. Qed.

Lemma lnot_succ_land j : Z.land (Z.lnot (j + 1)) 1 = Z.land j 1.
Proof. rewrite !land_1. unfold Z.lnot, Z.pred. Z.div_mod_to_equations. lia. Qed.

Lemma wp_bind_inv {A B} (m : Res A) (k : A → Res B) Q : wp (m ≫= k) Q → wp m (λ a, wp (k a) Q).
Proof. by destruct m. Qed.

Lemma malloc3_fits {S} a b c (s : S) (Q : list Z → S → Prop) :
  0 ≤ a ≤ INT_MAX → 0 ≤ b ≤ INT_MAX → 0 ≤ c ≤ INT_MAX → a * b ≤ INT_MAX → a * b * c ≤ INT_MAX →
  malloc_ok (a * b * c) = true → (∀ o, zlen o = a * b * c → Q o s) →
  awp_ok (or_outofmem (stbi__malloc_mad3 a b c 0)) s Q.
Proof.
  intros Ha Hb Hc Hab Habc Hm HQ. unfold or_outofmem. awp_step. awp_step.
  destruct (malloc_mad_eq a b c 0 0) as (_ & -> & _); [c_unfold; lia..|].
  rewrite Z.add_0_r, bool_decide_true by (cbn [mad_fits]; c_unfold; lia).
  unfold block, stbi__malloc. rewrite Hm. cbn [wp]. awp_step. apply HQ. rewrite length_malloc. nia.
Qed.

Lemma malloc2_fits {S} a b (s : S) (Q : list Z → S → Prop) :
  0 ≤ a ≤ INT_MAX → 0 ≤ b ≤ INT_MAX → a * b ≤ INT_MAX →
  malloc_ok (b * a) = true → (∀ o, zlen o = b * a → Q o s) →
  awp_ok (or_outofmem (stbi__malloc_mad2 a b 0)) s Q.
Proof.
  intros Ha Hb Hab Hm HQ. unfold or_outofmem. awp_step. awp_step.
  destruct (malloc_mad_eq a b 0 0 0) as (-> & _ & _); [c_unfold; lia..|].
  rewrite Z.add_0_r, bool_decide_true by (cbn [mad_fits]; c_unfold; lia).
  unfold block, stbi__malloc. rewrite (Z.mul_comm a), Hm. cbn [wp]. awp_step. apply HQ.
  rewrite length_malloc. nia.
Qed.

Section rows.
Variables (rows : list (Z * list Z)) (n x y pos0 color : Z) (raw : list Z).
Hypotheses (Hrows : png_rows rows n x y) (Hmax : x * n ≤ INT_MAX) (Hpos : 0 ≤ pos0)
  (Hraw : pos0 + y * (x * n + 1) ≤ zlen raw)
  (Hdata : ∀ i, 0 ≤ i < y * (x * n + 1) →
     raw.[pos0 + i] = (filter_rows n (replicate (Z.to_nat (x * n)) 0) rows).[i]).

Lemma raw_row_wp j s (p : stbi__png) (Q : list Z * list Z * Z → stbi__png → Prop) :
  0 ≤ j < y → rows_inv rows n x y pos0 j s →
  (∀ s, rows_inv rows n x y pos0 (j + 1) s → Q s p) →
  awp_ok (raw_row raw n x 8 color n x n (x * n) (x * n) j s) p Q.
Proof using All.
  intros Hj [Ho Hfb Hps Hab Hrs] HQ. destruct s as [[o fb] pos]. cbn [fst snd] in *.
  destruct Hrows as [Hn Hx Hy Hok].
  assert (1 ≤ x * n) as Hnk by nia.
  destruct (rows !! Z.to_nat j) as [[f row]|] eqn:Er; [|apply lookup_ge_None in Er; lia].
  pose proof (Forall_lookup_1 _ _ _ _ Hok Er) as (Hf & Hl & Hb). cbn [fst snd] in *.
  assert (row_at rows j = row) as Hrow by (unfold row_at; by rewrite (list_lookup_total_correct _ _ _ Er)).
  destruct (filter_rows_at n (x * n) (replicate (Z.to_nat (x * n)) 0) rows (Z.to_nat j) f row)
    as [Hat Hrk]; [lia| |done|].
  { eapply Forall_impl; [exact Hok|]. by intros r (_ & ? & _). }
  rewrite Z2Nat.id in Hat, Hrk by lia.
  set (prow := above (replicate (Z.to_nat (x * n)) 0) rows (Z.to_nat j)) in *.
  unfold raw_row. awp_step. awp_step. rewrite i32_ok by (c_unfold; lia). cbn [wp].
  awp_step. awp_step. rewrite rd_ok by nia. cbn [wp].
  rewrite Hps, Hdata, Hat by nia. awp_step. unfold fail_if.
  rewrite (proj2 (Z.ltb_ge 4 f)) by lia. awp_step.
  assert (wp (g ← (if j =? 0 then rd first_row_filter f else Ok f);
      unfilter_row g n (x * n) raw (pos0 + j * (x * n + 1) + 1) (Z.land j 1 * (x * n))
        (Z.land (Z.lnot j) 1 * (x * n)) fb)
    (λ fb', row_upto fb (Z.land j 1 * (x * n)) (x * n) row fb')) as Hu.
  { pose proof (land_1_cases j) as Hpar.
    assert (∀ k, 0 ≤ k < x * n → raw.[pos0 + j * (x * n + 1) + 1 + k] = (filter_row f n prow row).[k])
      as Henc.
    { intros k Hk. rewrite <- Hrk by done. rewrite <- Hdata by nia. f_equal. lia. }
    destruct (Z.eqb_spec j 0) as [Hj0|Hj0].
    - apply (unfilter_first_wp _ _ _ _ _ _ _ row prow); try (done || nia).
      + unfold prow. rewrite Hj0. change (Z.to_nat 0) with 0%nat. cbn [above].
        rewrite length_replicate. lia.
      + unfold prow. by rewrite Hj0.
    - cbn [mbind Res_bind].
      assert (prow = row_at rows (j - 1)) as Hprow.
      { unfold prow, row_at. replace (Z.to_nat j) with (S (Z.to_nat (j - 1))) by lia. done. }
      apply (unfilter_row_wp _ _ _ _ _ _ _ row prow); try (done || nia).
      + rewrite Hprow. unfold row_at. apply (Forall_lookup_total_1 _ _ (Z.to_nat (j - 1)) Hok). lia.
      + intros k Hk. rewrite Hab by lia. by rewrite Hprow. }
  awp_step. apply awp_lift. apply wp_bind_inv in Hu. eapply wp_mono; [exact Hu|]. intros g Hg.
  cbv beta iota. apply awp_bind, awp_lift. eapply wp_mono; [exact Hg|]. intros fb' [Hlf Hfb'].
  cbv beta iota. awp_step. awp_step. unfold expand_row. change (8 <? 8) with false.
  change (8 =? 8) with true. rewrite Z.eqb_refl. cbv iota.
  pose proof (land_1_cases j) as Hpar.
  apply memcpy_wp; [nia..|]. intros o' Hlo Ho'. awp_step. apply HQ. split; cbn [fst snd].
  - by rewrite Hlo.
  - by rewrite Hlf.
  - lia.
  - intros _ k Hk. rewrite lnot_succ_land. replace (j + 1 - 1) with j by lia.
    rewrite Hrow, Hfb', decide_True by nia. f_equal. lia.
  - intros i k Hi Hk. rewrite Ho' by nia. destruct (decide (i = j)) as [->|Hne].
    + rewrite decide_True by nia. rewrite Hrow, Hfb', decide_True by nia. f_equal. lia.
    + rewrite decide_False by nia. apply Hrs; lia.
Qed.

(** The rows come back, from any length that covers them. *)
Lemma create_raw_rows raw_len (p : stbi__png) : y * (x * n + 1) ≤ raw_len →
  img_n (png_s p) = n → n * x * 8 + 7 ≤ INT_MAX → (x * n + 1) * (y + 1) ≤ INT_MAX →
  malloc_ok (x * y * n) = true → malloc_ok (2 * (x * n)) = true →
  awp_ok (stbi__create_png_image_raw raw pos0 raw_len n x y 8 color) p
    (λ _ p', p' = set_out (Some (mjoin (snd <$> rows))) p).
Proof using All.
  intros Hrl Hn Hs1 Hs2 Hm1 Hm2. destruct Hrows as [Hn4 Hx Hy Hok].
  unfold stbi__create_png_image_raw. awp_step. awp_step. cbv beta iota.
  rewrite Hn, Z.eqb_refl. cbn [orb negb]. change (8 =? 16) with false. cbv iota. rewrite !Z.mul_1_r.
  assert (n * x = x * n) as Hnx by lia. assert (0 ≤ y) as Hy0 by lia.
  assert (1 ≤ x * n ∧ 0 ≤ x * n * y) as [Hxn Hxy] by nia.
  assert (Z.shiftr (u32 (n * x * 8 + 7)) 3 = x * n) as Hwb.
  { rewrite u32_small, Z.shiftr_div_pow2 by (c_unfold; nia). change (2 ^ 3) with 8.
    Z.div_mod_to_equations. lia. }
  awp_step. apply malloc3_fits; [c_unfold; nia..|done|]. intros o Ho. awp_step. awp_step.
  awp_step. awp_step. rewrite mad3sizes_valid_spec by (c_unfold; nia). cbn [wp].
  rewrite bool_decide_true by (cbn [mad_fits]; c_unfold; nia). rewrite Hwb.
  awp_step. apply awp_ok_pass; [done|].
  awp_step. awp_step. rewrite mad2sizes_valid_spec by (c_unfold; nia). cbn [wp].
  rewrite bool_decide_true by (cbn [mad_fits]; c_unfold; nia). awp_step. apply awp_ok_pass; [done|].
  rewrite (u32_small (x * n)), (u32_small ((x * n + 1) * y)) by (c_unfold; nia).
  awp_step. apply awp_ok_pass; [apply Z.ltb_ge; nia|].
  awp_step. apply malloc2_fits; [c_unfold; nia..|done|]. intros fb Hfb.
  change (8 <? 8) with false. cbv iota beta. awp_step.
  apply (awp_ok_for (λ j s p', rows_inv rows n x y pos0 j s ∧ p' = set_out (Some s.1.1) p)).
  - split; [|done]. split; cbn [fst snd]; lia.
  - intros j s p' Hj [Hs ->]. awp_step.
    apply raw_row_wp; [done..|]. intros [[o' fb'] pos'] Hs'. awp_step. awp_step. awp_step. done.
  - intros [[o' fb'] pos'] p' [[Hl _ _ _ Hr] ->]. rewrite Z.max_r in Hr by lia. awp_step.
    cbn [fst snd] in *. do 2 f_equal. apply (concat_rows (x * n)); [nia| |lia|].
    + eapply Forall_impl; [exact Hok|]. by intros r (_ & ? & _).
    + intros j k Hj Hk. unfold row_at in Hr. rewrite Hr, Nat2Z.id by lia. done.
Qed.

(** C10. Decoding what an encoder filtered gives the image back: whatever filter
    each row of an 8-bit image names, [stbi__create_png_image_raw] undoes it and
    leaves exactly the rows, one after the other, in the output; no byte outside
    the buffers is touched and the call cannot fail once its two blocks are
    allocated. *)
Theorem png_image_roundtrip (p : stbi__png) :
  img_n (png_s p) = n → n * x * 8 + 7 ≤ INT_MAX → (x * n + 1) * (y + 1) ≤ INT_MAX →
  malloc_ok (x * y * n) = true → malloc_ok (2 * (x * n)) = true →
  awp_ok (stbi__create_png_image_raw raw pos0 (zlen raw - pos0) n x y 8 color) p
    (λ _ p', p' = set_out (Some (mjoin (snd <$> rows))) p).
Proof using All. apply create_raw_rows. lia. Qed.
End rows.
End image.

(** ** A concrete image

    Two rows of two grey pixels, the first filtered by the average, the second
    by the Paeth predictor. *)
Definition toy_rows : list (Z * list Z) := [(3, [10; 20]); (4, [30; 7])].

Definition toy_png : @stbi__png toy_env :=
  @set_n toy_env 1 1 (@new_png toy_env (@stbi__start_mem toy_env [] 0)).

Lemma toy_rows_ok : png_rows toy_rows 1 2 2.
Proof. split; [lia..|done|]. repeat constructor; cbn; lia. Qed.

Lemma png_image_roundtrip_witness :
  ∃ p', @stbi__create_png_image_raw toy_env [3; 10; 15; 4; 20; 233] 0 6 1 2 2 8 0 toy_png =
    Ok (Val (), p') ∧ @out toy_env p' = Some [10; 20; 30; 7].
Proof.
  destruct (awp_ok_elim _ _ _ (@png_image_roundtrip toy_env toy_rows 1 2 2 0 0
    [3; 10; 15; 4; 20; 233] toy_rows_ok ltac:(done) ltac:(done) ltac:(done)
    ltac:(intros i Hi; reflexivity) toy_png ltac:(done) ltac:(done) ltac:(done)
    ltac:(done) ltac:(done))) as ([] & p' & E & ->).
  exists (@set_out toy_env (Some (mjoin (snd <$> toy_rows))) toy_png).
  split; [exact E|reflexivity].
Defined.
