(* ===== verification/StbBmp.v ===== *)
(** * stb_image: the BMP decoder (facet/gpu/stb_image.h, lines 5343-5733 and 7334-7356)

    [bmp_data] is [stbi__bmp_data].  The pixel loops thread the output buffer
    and the write index [z]. *)
From S2P Require Import Prelude StbMonad StbBase StbZlib.

(** ** Bit masks *)
Definition stbi__high_bit (z : Z) : Z :=
  if z =? 0 then -1 else
  let '(n, z) := if 0x10000 <=? z then (16, Z.shiftr z 16) else (0, z) in
  let '(n, z) := if 0x00100 <=? z then (n + 8, Z.shiftr z 8) else (n, z) in
  let '(n, z) := if 0x00010 <=? z then (n + 4, Z.shiftr z 4) else (n, z) in
  let '(n, z) := if 0x00004 <=? z then (n + 2, Z.shiftr z 2) else (n, z) in
  if 0x00002 <=? z then n + 1 else n.

Definition stbi__bitcount (a : Z) : Z :=
  let a := u32 (Z.land a 0x55555555 + Z.land (Z.shiftr a 1) 0x55555555) in
  let a := u32 (Z.land a 0x33333333 + Z.land (Z.shiftr a 2) 0x33333333) in
  let a := Z.land (u32 (a + Z.shiftr a 4)) 0x0f0f0f0f in
  let a := u32 (a + Z.shiftr a 8) in
  let a := u32 (a + Z.shiftr a 16) in
  Z.land a 0xff.

Definition mul_table : list Z := [0; 0xff; 0x55; 0x49; 0x11; 0x21; 0x41; 0x81; 0x01].
Definition shift_table : list Z := [0; 0; 0; 1; 0; 2; 4; 6; 0].

(** The assertions are enabled; the table product is [int] when it is shifted. *)
Definition stbi__shiftsigned (v shift bits : Z) : Res Z :=
  v ← (if shift <? 0 then shl32 v (- shift) else shr32 v shift);
  if negb (v <? 256) then Undef else
  v ← shr32 v (8 - bits);
  if negb ((0 <=? bits) && (bits <=? 8)) then Undef else
  m ← rd mul_table bits;
  t ← rd shift_table bits;
  Ok (Z.shiftr (sx 32 (u32 (v * m))) t).

(** ** The header *)
Record bmp_data := {
  bpp : Z; offset : Z; hsz : Z; mr : Z; mg : Z; mb : Z; ma : Z; all_a : Z; extra_read : Z
}.

Definition set_masks (r g b a : Z) (d : bmp_data) : bmp_data :=
  {| bpp := bpp d; offset := offset d; hsz := hsz d; mr := r; mg := g; mb := b; ma := a;
     all_a := all_a d; extra_read := extra_read d |}.

(** No caller looks at the result, which is 0 only for [compress] other than 0
    and 3. *)
Definition stbi__bmp_set_mask_defaults (compress : Z) (d : bmp_data) : bmp_data :=
  if compress =? 3 then d
  else if compress =? 0 then
    if bpp d =? 16 then
      set_masks (Z.shiftl 31 10) (Z.shiftl 31 5) (Z.shiftl 31 0) (ma d) d
    else if bpp d =? 32 then
      {| bpp := bpp d; offset := offset d; hsz := hsz d; mr := Z.shiftl 0xff 16;
         mg := Z.shiftl 0xff 8; mb := Z.shiftl 0xff 0; ma := Z.shiftl 0xff 24; all_a := 0;
         extra_read := extra_read d |}
    else set_masks 0 0 0 0 d
  else d.

Section bmp.
Context `{Env : StbiEnv}.

Definition stbi__bmp_test_raw : Act stbi__context bool :=
  b ← stbi__get8;
  if negb (b =? 66) then mret false else
  m ← stbi__get8;
  if negb (m =? 77) then mret false else
  stbi__get32le;; stbi__get16le;; stbi__get16le;; stbi__get32le;;
  sz ← stbi__get32le;
  mret ((sz =? 12) || (sz =? 40) || (sz =? 56) || (sz =? 108) || (sz =? 124)).

Definition stbi__bmp_test : Act stbi__context bool :=
  r ← stbi__bmp_test_raw; stbi__rewind;; mret r.

(** [for (i = 0; i < n; ++i) stbi__get32le(s);] *)
Definition discard32 (n : Z) : Act stbi__context unit :=
  a_for 0 n (λ _ _, stbi__get32le;; mret ()) ().

Definition set_dims (x y : Z) : Act stbi__context unit :=
  modify (λ s, set_img x y (img_n s) (img_out_n s) s).

(** The part of the header after the five sizes, for headers of 40 bytes and
    more. *)
Definition bmp_masks (compress : Z) (d : bmp_data) : Act stbi__context bmp_data :=
  if (hsz d =? 40) || (hsz d =? 56) then
    (if hsz d =? 56 then discard32 4 else mret ());;
    if (bpp d =? 16) || (bpp d =? 32) then
      if compress =? 0 then mret (stbi__bmp_set_mask_defaults compress d)
      else if compress =? 3 then
        r ← stbi__get32le; g ← stbi__get32le; b ← stbi__get32le;
        fail_if ((r =? g) && (g =? b)) "bad BMP";;
        mret {| bpp := bpp d; offset := offset d; hsz := hsz d; mr := r; mg := g; mb := b;
                ma := ma d; all_a := all_a d; extra_read := extra_read d + 12 |}
      else fail "bad BMP"
    else mret d
  else
    fail_if (negb (hsz d =? 108) && negb (hsz d =? 124)) "bad BMP";;
    r ← stbi__get32le; g ← stbi__get32le; b ← stbi__get32le; a ← stbi__get32le;
    let d := set_masks r g b a d in
    let d := if negb (compress =? 3) then stbi__bmp_set_mask_defaults compress d else d in
    discard32 1;; discard32 12;;
    (if hsz d =? 124 then discard32 4 else mret ());;
    mret d.

Definition stbi__bmp_parse_header (all_a0 : Z) : Act stbi__context bmp_data :=
  b ← stbi__get8;
  fail_if (negb (b =? 66)) "not BMP";;
  m ← stbi__get8;
  fail_if (negb (m =? 77)) "not BMP";;
  stbi__get32le;; stbi__get16le;; stbi__get16le;;
  off ← stbi__get32le; let off := sx 32 off in
  h ← stbi__get32le; let h := sx 32 h in
  fail_if (off <? 0) "bad BMP";;
  fail_if (negb (h =? 12) && negb (h =? 40) && negb (h =? 56) && negb (h =? 108) && negb (h =? 124))
    "unknown BMP";;
  (if h =? 12 then x ← stbi__get16le; y ← stbi__get16le; set_dims x y
   else x ← stbi__get32le; y ← stbi__get32le; set_dims x y);;
  planes ← stbi__get16le;
  fail_if (negb (planes =? 1)) "bad BMP";;
  bits ← stbi__get16le;
  let d := {| bpp := bits; offset := off; hsz := h; mr := 0; mg := 0; mb := 0; ma := 0;
              all_a := all_a0; extra_read := 14 |} in
  if h =? 12 then mret d else
  compress ← stbi__get32le; let compress := sx 32 compress in
  fail_if ((compress =? 1) || (compress =? 2)) "BMP RLE";;
  fail_if (4 <=? compress) "BMP JPEG/PNG";;
  fail_if ((compress =? 3) && negb (bits =? 16) && negb (bits =? 32)) "bad BMP";;
  discard32 5;;
  bmp_masks compress d.

(** ** The palette: [pal[i][c]] is entry [i * 4 + c]. *)

(** The number of palette entries the header leaves room for. *)
Definition palette_size (d : bmp_data) : Res Z :=
  if hsz d =? 12 then
    if bpp d <? 24 then n ← i32 (offset d - extra_read d - 24); Ok (n ÷ 3) else Ok 0
  else
    if bpp d <? 16 then n ← i32 (offset d - extra_read d - hsz d); Ok (Z.shiftr n 2) else Ok 0.

(** Without a palette the pixels start at [offset], which must be close. *)
Definition skip_to_pixels (d : bmp_data) : Act stbi__context unit :=
  s ← get;
  let bytes_read_so_far := callback_already_read s + (img_buffer s - img_buffer_original s) in
  fail_if ((bytes_read_so_far <=? 0) || (1024 <? bytes_read_so_far)) "bad header";;
  fail_if ((offset d <? bytes_read_so_far) || (256 * 4 <? offset d - bytes_read_so_far))
    "bad offset";;
  stbi__skip (offset d - bytes_read_so_far).

Definition read_palette (d : bmp_data) (psize : Z) : Act stbi__context (list Z) :=
  a_for 0 psize (λ i pal,
    b ← stbi__get8; pal ← lift (wr pal (i * 4 + 2) b);
    g ← stbi__get8; pal ← lift (wr pal (i * 4 + 1) g);
    r ← stbi__get8; pal ← lift (wr pal (i * 4) r);
    (if negb (hsz d =? 12) then stbi__get8;; mret () else mret ());;
    lift (wr pal (i * 4 + 3) 255)) (malloc_arr uninit 1024).

(** ** Pixels *)

(** [out[z++] = v] for each value. *)
Definition emit (s : list Z * Z) (vs : list Z) : Res (list Z * Z) :=
  foldl (λ m v, '(o, z) ← m; o ← wr o z v; Ok (o, z + 1)) (Ok s) vs.

(** One palette pixel. *)
Definition emit_pal (pal : list Z) (target v : Z) (s : list Z * Z) : Res (list Z * Z) :=
  r ← rd pal (v * 4); g ← rd pal (v * 4 + 1); b ← rd pal (v * 4 + 2);
  emit s (r :: g :: b :: (if target =? 4 then [255] else [])).

Definition row_1bpp (pal : list Z) (target x : Z) (s : list Z * Z)
  : Act stbi__context (list Z * Z) :=
  v ← stbi__get8;
  '(s, _, _) ← a_for 0 x (λ i '(s, bit_offset, v),
    let color := Z.land (Z.shiftr v bit_offset) 1 in
    s ← lift (emit_pal pal target color s);
    if i + 1 =? x then mret (s, bit_offset, v)
    else if bit_offset - 1 <? 0 then v ← stbi__get8; mret (s, 7, v)
    else mret (s, bit_offset - 1, v)) (s, 7, v);
  mret s.

(** 4 and 8 bits: two pixels per turn. *)
Definition row_48bpp (bpp : Z) (pal : list Z) (target x : Z) (s : list Z * Z)
  : Act stbi__context (list Z * Z) :=
  a_for 0 ((x + 1) / 2) (λ t s,
    let i := 2 * t in
    v ← stbi__get8;
    let '(v, v2) := if bpp =? 4 then (Z.shiftr v 4, Z.land v 15) else (v, 0) in
    s ← lift (emit_pal pal target v s);
    if i + 1 =? x then mret s else
    v ← (if bpp =? 8 then stbi__get8 else mret v2);
    lift (emit_pal pal target v s)) s.

Definition palette_pixels (d : bmp_data) (psize target x y : Z) (o : list Z)
  : Act stbi__context (list Z) :=
  fail_if ((psize =? 0) || (256 <? psize)) "invalid";;
  pal ← read_palette d psize;
  n ← lift (i32 (offset d - extra_read d - hsz d - psize * (if hsz d =? 12 then 3 else 4)));
  stbi__skip n;;
  width ← (if bpp d =? 1 then mret (Z.shiftr (x + 7) 3)
           else if bpp d =? 4 then mret (Z.shiftr (x + 1) 1)
           else if bpp d =? 8 then mret x
           else fail "bad bpp");
  let pad := Z.land (- width) 3 in
  '(o, _) ← a_for 0 y (λ _ s,
    s ← (if bpp d =? 1 then row_1bpp pal target x s else row_48bpp (bpp d) pal target x s);
    stbi__skip pad;; mret s) (o, 0);
  mret o.

(** The shift and the number of bits of a mask. *)
Definition mask_shape (m : Z) : Z * Z := (stbi__high_bit m - 7, stbi__bitcount m).

(** One row without masks; the loop's value is [(out, z, all_a)]. *)
Definition row_easy (easy target x : Z) (s : list Z * Z * Z) : Act stbi__context (list Z * Z * Z) :=
  a_for 0 x (λ _ '(o, z, all_a),
    b ← stbi__get8; o ← lift (wr o (z + 2) b);
    g ← stbi__get8; o ← lift (wr o (z + 1) g);
    r ← stbi__get8; o ← lift (wr o z r);
    a ← (if easy =? 2 then stbi__get8 else mret 255);
    '(o, z) ← (if target =? 4 then lift (emit (o, z + 3) [a]) else mret (o, z + 3));
    mret (o, z, Z.lor all_a a)) s.

Definition row_masks (d : bmp_data) (target x : Z) (s : list Z * Z * Z)
  : Act stbi__context (list Z * Z * Z) :=
  let '(rshift, rcount) := mask_shape (mr d) in
  let '(gshift, gcount) := mask_shape (mg d) in
  let '(bshift, bcount) := mask_shape (mb d) in
  let '(ashift, acount) := mask_shape (ma d) in
  a_for 0 x (λ _ '(o, z, all_a),
    v ← (if bpp d =? 16 then stbi__get16le else stbi__get32le);
    r ← lift (stbi__shiftsigned (Z.land v (mr d)) rshift rcount);
    g ← lift (stbi__shiftsigned (Z.land v (mg d)) gshift gcount);
    b ← lift (stbi__shiftsigned (Z.land v (mb d)) bshift bcount);
    '(o, z) ← lift (emit (o, z) [bytecast r; bytecast g; bytecast b]);
    a ← (if negb (ma d =? 0) then lift (stbi__shiftsigned (Z.land v (ma d)) ashift acount)
         else mret 255);
    '(o, z) ← (if target =? 4 then lift (emit (o, z) [bytecast a]) else mret (o, z));
    mret (o, z, Z.lor all_a (u32 a))) s.

Definition direct_pixels (d : bmp_data) (target x y : Z) (o : list Z)
  : Act stbi__context (list Z * Z) :=
  n ← lift (i32 (offset d - extra_read d - hsz d));
  stbi__skip n;;
  let width := if bpp d =? 24 then 3 * x else if bpp d =? 16 then 2 * x else 0 in
  let pad := Z.land (- width) 3 in
  let easy := if bpp d =? 24 then 1
              else if (bpp d =? 32) && (mb d =? 0xff) && (mg d =? 0xff00) && (mr d =? 0x00ff0000)
                      && (ma d =? 0xff000000) then 2
              else 0 in
  fail_if ((easy =? 0) && ((mr d =? 0) || (mg d =? 0) || (mb d =? 0))) "bad masks";;
  fail_if ((easy =? 0) && ((8 <? stbi__bitcount (mr d)) || (8 <? stbi__bitcount (mg d))
                           || (8 <? stbi__bitcount (mb d)) || (8 <? stbi__bitcount (ma d))))
    "bad masks";;
  '(o, _, all_a) ← a_for 0 y (λ _ s,
    s ← (if negb (easy =? 0) then row_easy easy target x s else row_masks d target x s);
    stbi__skip pad;; mret s) (o, 0, all_a d);
  mret (o, all_a).

(** [for (i = 4*x*y - 1; i >= 0; i -= 4) out[i] = 255;] *)
Definition opaque (x y : Z) (o : list Z) : Res (list Z) :=
  for_range 0 (x * y) (λ t o, wr o (4 * (x * y - t) - 1) 255) o.

(** Rows [j] and [y - 1 - j] exchanged byte by byte. *)
Definition flip_rows (x y target : Z) (o : list Z) : Res (list Z) :=
  for_range 0 (Z.shiftr y 1) (λ j o,
    let p1 := j * x * target in
    let p2 := (y - 1 - j) * x * target in
    for_range 0 (x * target) (λ i o,
      t ← rd o (p1 + i); v ← rd o (p2 + i);
      o ← wr o (p1 + i) v; wr o (p2 + i) t) o) o.

Definition stbi__bmp_load (req_comp : Z) : Act stbi__context Image :=
  d ← stbi__bmp_parse_header 255;
  s ← get;
  let flip_vertically := 0 <? sx 32 (img_y s) in
  y ← lift (i32 (Z.abs (sx 32 (img_y s))));
  set_dims (img_x s) y;;
  let x := img_x s in
  fail_if (STBI_MAX_DIMENSIONS <? y) "too large";;
  fail_if (STBI_MAX_DIMENSIONS <? x) "too large";;
  psize ← lift (palette_size d);
  (if psize =? 0 then skip_to_pixels d else mret ());;
  let n := if (bpp d =? 24) && (ma d =? 0xff000000) then 3
           else if negb (ma d =? 0) then 4 else 3 in
  modify (λ s, set_img x y n (img_out_n s) s);;
  let target := if negb (req_comp =? 0) && (3 <=? req_comp) then req_comp else n in
  ok ← lift (stbi__mad3sizes_valid target x y 0);
  fail_if (negb ok) "too large";;
  o ← or_outofmem (stbi__malloc_mad3 target x y 0);
  '(o, all_a) ← (if bpp d <? 16 then
                   o ← palette_pixels d psize target x y o; mret (o, all_a d)
                 else direct_pixels d target x y o);
  o ← lift (if (target =? 4) && (all_a =? 0) then opaque x y o else Ok o);
  o ← lift (if flip_vertically then flip_rows x y target o else Ok o);
  o ← (if negb (req_comp =? 0) && negb (req_comp =? target)
       then stbi__convert_format o target req_comp x y else mret o);
  mret {| pixels := o; img_w := x; img_h := y; img_comp := n; img_bits := 8 |}.

Definition stbi__bmp_info : Act stbi__context (Z * Z * Z) :=
  r ← attempt (stbi__bmp_parse_header 255);
  match r with
  | Fail e => stbi__rewind;; fail e
  | Val d =>
      s ← get;
      mret (img_x s, img_y s,
            if (bpp d =? 24) && (ma d =? 0xff000000) then 3
            else if negb (ma d =? 0) then 4 else 3)
  end.
End bmp.
