(* ===== verification/StbJpeg.v ===== *)
(** * stb_image: the JPEG decoder (facet/gpu/stb_image.h, lines 1933-4079)

    Huffman tables, the entropy-coded segments of baseline and progressive
    scans, the inverse DCT, the markers and headers.  The fields of
    [stbi__jpeg] are grouped in records by role.  The kernels are the scalar
    ones, which is what [stbi__setup_jpeg] installs without SIMD.  Coefficient
    blocks are lists of 64 [short]s; a component's planes are lists that start
    at the aligned address. *)
From S2P Require Import Prelude F32 F64 StbMonad StbBase StbZlib.

Definition FAST_BITS : Z := 9.

(** Conversion to [short]. *)
Definition i16 (z : Z) : Z := sx 16 z.

Record stbi__huffman := {
  fast : list Z; code : list Z; values : list Z; size : list Z; maxcode : list Z; delta : list Z
}.

Definition zero_huffman : stbi__huffman :=
  {| fast := replicate 512 0; code := replicate 256 0; values := replicate 256 0;
     size := replicate 257 0; maxcode := replicate 18 0; delta := replicate 17 0 |}.

(** ** Huffman tables *)

(** The size of every symbol, in order; the result is their number. *)
Definition size_list (count : list Z) : Act stbi__huffman Z :=
  k ← a_for 0 16 (λ i k,
    n ← lift (rd count i);
    a_for 0 n (λ _ k,
      h ← get;
      sz ← lift (wr (size h) k (u8 (i + 1)));
      put {| fast := fast h; code := code h; values := values h; size := sz;
             maxcode := maxcode h; delta := delta h |};;
      fail_if (257 <=? k + 1) "bad size list";;
      mret (k + 1)) k) 0;
  h ← get;
  sz ← lift (wr (size h) k 0);
  put {| fast := fast h; code := code h; values := values h; size := sz;
         maxcode := maxcode h; delta := delta h |};;
  mret k.

(** [while (h->size[k] == j) h->code[k++] = code++;] *)
Definition number_codes (j : Z) (szs : list Z) (s : Z * Z * list Z) : Res (Z * Z * list Z) :=
  fell <$> loop (R := Empty_set) 258 (λ '(c, k, codes),
    s ← rd szs k;
    if s =? j then codes ← wr codes k (u16 c); Ok (Next (u32 (c + 1), k + 1, codes))
    else Ok (Break (c, k, codes))) s.

(** The codes of length [j]. *)
Definition assign_codes (j : Z) (s : Z * Z) : Act stbi__huffman (Z * Z) :=
  let '(c, k) := s in
  h ← get;
  dl ← lift (wr (delta h) j (sx 32 (u32 (k - c))));
  sk ← lift (rd (size h) k);
  '(c, k, codes) ← lift (if sk =? j then number_codes j (size h) (c, k, code h)
                         else Ok (c, k, code h));
  fail_if ((sk =? j) && (Z.shiftl 1 j <=? u32 (c - 1))) "bad code lengths";;
  m ← lift (shl32 c (16 - j));
  mc ← lift (wr (maxcode h) j m);
  put {| fast := fast h; code := codes; values := values h; size := size h;
         maxcode := mc; delta := dl |};;
  mret (u32 (c * 2), k).

Definition stbi__build_huffman (count : list Z) : Act stbi__huffman unit :=
  size_list count;;
  '(_, k) ← a_for 1 17 assign_codes (0, 0);
  h ← get;
  mc ← lift (wr (maxcode h) 17 0xffffffff);
  ft ← lift (for_range 0 k (λ i ft,
    s ← rd (size h) i;
    if s <=? FAST_BITS then
      ci ← rd (code h) i;
      let c := Z.shiftl ci (FAST_BITS - s) in
      for_range 0 (Z.shiftl 1 (FAST_BITS - s)) (λ j ft, wr ft (c + j) (u8 i)) ft
    else Ok ft) (replicate 512 255));
  put {| fast := ft; code := code h; values := values h; size := size h;
         maxcode := mc; delta := delta h |}.

Definition stbi__build_fast_ac (h : stbi__huffman) (fast_ac : list Z) : Res (list Z) :=
  for_range 0 512 (λ i fac,
    f ← rd (fast h) i;
    fac ← wr fac i 0;
    if f <? 255 then
      rs ← rd (values h) f;
      let run := Z.land (Z.shiftr rs 4) 15 in
      let magbits := Z.land rs 15 in
      len ← rd (size h) f;
      if negb (magbits =? 0) && (len + magbits <=? FAST_BITS) then
        let k := Z.shiftr (Z.land (Z.shiftl i len) 511) (FAST_BITS - magbits) in
        let m := Z.shiftl 1 (magbits - 1) in
        let k := if k <? m then sx 32 (u32 (k + u32 (Z.shiftl 0xffffffff magbits) + 1)) else k in
        if (-128 <=? k) && (k <=? 127)
        then wr fac i (i16 (k * 256 + run * 16 + (len + magbits)))
        else Ok fac
      else Ok fac
    else Ok fac) fast_ac.

(** ** The inverse DCT *)
Definition stbi__clamp (x : Z) : Z := if x <? 0 then 0 else if 255 <? x then 255 else x.

(** [stbi__f2f(x)] for the float literal [n / d]. *)
Definition stbi__f2f (n d : Z) : Z :=
  match ftrunc (dadd (f2d (fmul (d2f (dlit n d)) (fz 4096))) (dlit 1 2)) with
  | Some z => z
  | None => 0
  end.

Definition F_0_541 : Z := Eval vm_compute in stbi__f2f 5411961 10000000.
Definition F_m1_847 : Z := Eval vm_compute in stbi__f2f (-1847759065) 1000000000.
Definition F_0_765 : Z := Eval vm_compute in stbi__f2f 765366865 1000000000.
Definition F_1_175 : Z := Eval vm_compute in stbi__f2f 1175875602 1000000000.
Definition F_0_298 : Z := Eval vm_compute in stbi__f2f 298631336 1000000000.
Definition F_2_053 : Z := Eval vm_compute in stbi__f2f 2053119869 1000000000.
Definition F_3_072 : Z := Eval vm_compute in stbi__f2f 3072711026 1000000000.
Definition F_1_501 : Z := Eval vm_compute in stbi__f2f 1501321110 1000000000.
Definition F_m0_899 : Z := Eval vm_compute in stbi__f2f (-899976223) 1000000000.
Definition F_m2_562 : Z := Eval vm_compute in stbi__f2f (-2562915447) 1000000000.
Definition F_m1_961 : Z := Eval vm_compute in stbi__f2f (-1961570560) 1000000000.
Definition F_m0_390 : Z := Eval vm_compute in stbi__f2f (-390180644) 1000000000.

(** [x * y] and [x + y] of [int]s; [a +' b] reads better in long sums. *)
Definition mul (x y : Z) : Res Z := i32 (x * y).
Definition add (x y : Z) : Res Z := i32 (x + y).
Definition sub (x y : Z) : Res Z := i32 (x - y).

(** [STBI__IDCT_1D]: the values of [x0..x3] and [t0..t3] it leaves. *)
Definition idct_1d (s0 s1 s2 s3 s4 s5 s6 s7 : Z) : Res (Z * Z * Z * Z * (Z * Z * Z * Z)) :=
  let p2 := s2 in let p3 := s6 in
  p23 ← add p2 p3; p1 ← mul p23 F_0_541;
  a ← mul p3 F_m1_847; t2 ← add p1 a;
  a ← mul p2 F_0_765; t3 ← add p1 a;
  let p2 := s0 in let p3 := s4 in
  a ← add p2 p3; t0 ← mul a 4096;
  a ← sub p2 p3; t1 ← mul a 4096;
  x0 ← add t0 t3; x3 ← sub t0 t3; x1 ← add t1 t2; x2 ← sub t1 t2;
  let t0 := s7 in let t1 := s5 in let t2 := s3 in let t3 := s1 in
  p3 ← add t0 t2; p4 ← add t1 t3; p1 ← add t0 t3; p2 ← add t1 t2;
  a ← add p3 p4; p5 ← mul a F_1_175;
  t0 ← mul t0 F_0_298; t1 ← mul t1 F_2_053; t2 ← mul t2 F_3_072; t3 ← mul t3 F_1_501;
  a ← mul p1 F_m0_899; p1 ← add p5 a;
  a ← mul p2 F_m2_562; p2 ← add p5 a;
  p3 ← mul p3 F_m1_961; p4 ← mul p4 F_m0_390;
  a ← add p1 p4; t3 ← add t3 a;
  a ← add p2 p3; t2 ← add t2 a;
  a ← add p2 p4; t1 ← add t1 a;
  a ← add p1 p3; t0 ← add t0 a;
  Ok (x0, x1, x2, x3, (t0, t1, t2, t3)).

(** Column [i] of the first pass. *)
Definition idct_column (d : list Z) (i : Z) (v : list Z) : Res (list Z) :=
  d0 ← rd d i; d1 ← rd d (i + 8); d2 ← rd d (i + 16); d3 ← rd d (i + 24);
  d4 ← rd d (i + 32); d5 ← rd d (i + 40); d6 ← rd d (i + 48); d7 ← rd d (i + 56);
  if (d1 =? 0) && (d2 =? 0) && (d3 =? 0) && (d4 =? 0) && (d5 =? 0) && (d6 =? 0) && (d7 =? 0) then
    dcterm ← mul d0 4;
    for_range 0 8 (λ r v, wr v (i + 8 * r) dcterm) v
  else
    '(x0, x1, x2, x3, (t0, t1, t2, t3)) ← idct_1d d0 d1 d2 d3 d4 d5 d6 d7;
    x0 ← add x0 512; x1 ← add x1 512; x2 ← add x2 512; x3 ← add x3 512;
    a ← add x0 t3; v ← wr v i (Z.shiftr a 10);
    a ← sub x0 t3; v ← wr v (i + 56) (Z.shiftr a 10);
    a ← add x1 t2; v ← wr v (i + 8) (Z.shiftr a 10);
    a ← sub x1 t2; v ← wr v (i + 48) (Z.shiftr a 10);
    a ← add x2 t1; v ← wr v (i + 16) (Z.shiftr a 10);
    a ← sub x2 t1; v ← wr v (i + 40) (Z.shiftr a 10);
    a ← add x3 t0; v ← wr v (i + 24) (Z.shiftr a 10);
    a ← sub x3 t0; wr v (i + 32) (Z.shiftr a 10).

(** Row [i] of the second pass, to the eight bytes at [o]. *)
Definition idct_row (v : list Z) (i o : Z) (out : list Z) : Res (list Z) :=
  v0 ← rd v (8 * i); v1 ← rd v (8 * i + 1); v2 ← rd v (8 * i + 2); v3 ← rd v (8 * i + 3);
  v4 ← rd v (8 * i + 4); v5 ← rd v (8 * i + 5); v6 ← rd v (8 * i + 6); v7 ← rd v (8 * i + 7);
  '(x0, x1, x2, x3, (t0, t1, t2, t3)) ← idct_1d v0 v1 v2 v3 v4 v5 v6 v7;
  let bias := 65536 + Z.shiftl 128 17 in
  x0 ← add x0 bias; x1 ← add x1 bias; x2 ← add x2 bias; x3 ← add x3 bias;
  a ← add x0 t3; out ← wr out o (stbi__clamp (Z.shiftr a 17));
  a ← sub x0 t3; out ← wr out (o + 7) (stbi__clamp (Z.shiftr a 17));
  a ← add x1 t2; out ← wr out (o + 1) (stbi__clamp (Z.shiftr a 17));
  a ← sub x1 t2; out ← wr out (o + 6) (stbi__clamp (Z.shiftr a 17));
  a ← add x2 t1; out ← wr out (o + 2) (stbi__clamp (Z.shiftr a 17));
  a ← sub x2 t1; out ← wr out (o + 5) (stbi__clamp (Z.shiftr a 17));
  a ← add x3 t0; out ← wr out (o + 3) (stbi__clamp (Z.shiftr a 17));
  a ← sub x3 t0; wr out (o + 4) (stbi__clamp (Z.shiftr a 17)).

Definition stbi__idct_block (out : list Z) (off out_stride : Z) (data : list Z) : Res (list Z) :=
  v ← for_range 0 8 (idct_column data) (replicate 64 0);
  for_range 0 8 (λ i out, idct_row v i (off + i * out_stride) out) out.

(** ** The decoder *)
Section jpeg.
Context `{Env : StbiEnv}.

Record component := {
  id : Z; h : Z; v : Z; tq : Z; hd : Z; ha : Z; dc_pred : Z;
  x : Z; y : Z; w2 : Z; h2 : Z;
  data : list Z; coeff : list Z; coeff_w : Z; coeff_h : Z
}.

Record tables := {
  huff_dc : list stbi__huffman; huff_ac : list stbi__huffman;
  dequant : list (list Z); fast_ac : list (list Z)
}.

Record frame := {
  img_h_max : Z; img_v_max : Z; img_mcu_x : Z; img_mcu_y : Z; img_mcu_w : Z; img_mcu_h : Z
}.

Record bits := { code_buffer : Z; code_bits : Z; marker : Z; nomore : bool }.

Record scan_state := {
  progressive : bool; spec_start : Z; spec_end : Z; succ_high : Z; succ_low : Z;
  scan_n : Z; order : list Z; restart_interval : Z
}.

(** [rgb] counts the components named R, G, B. *)
Record tags := { jfif : bool; app14_color_transform : Z; rgb : Z }.

Record stbi__jpeg := {
  js : stbi__context; jt : tables; jf : frame; img_comp : list component;
  jb : bits; jp : scan_state; jg : tags; eob_run : Z; todo : Z
}.

Definition set_js (s : stbi__context) (j : stbi__jpeg) : stbi__jpeg :=
  {| js := s; jt := jt j; jf := jf j; img_comp := img_comp j; jb := jb j; jp := jp j; jg := jg j;
     eob_run := eob_run j; todo := todo j |}.
Definition set_jt (t : tables) (j : stbi__jpeg) : stbi__jpeg :=
  {| js := js j; jt := t; jf := jf j; img_comp := img_comp j; jb := jb j; jp := jp j; jg := jg j;
     eob_run := eob_run j; todo := todo j |}.
Definition set_jf (f : frame) (j : stbi__jpeg) : stbi__jpeg :=
  {| js := js j; jt := jt j; jf := f; img_comp := img_comp j; jb := jb j; jp := jp j; jg := jg j;
     eob_run := eob_run j; todo := todo j |}.
Definition set_comps (c : list component) (j : stbi__jpeg) : stbi__jpeg :=
  {| js := js j; jt := jt j; jf := jf j; img_comp := c; jb := jb j; jp := jp j; jg := jg j;
     eob_run := eob_run j; todo := todo j |}.
Definition set_jb (b : bits) (j : stbi__jpeg) : stbi__jpeg :=
  {| js := js j; jt := jt j; jf := jf j; img_comp := img_comp j; jb := b; jp := jp j; jg := jg j;
     eob_run := eob_run j; todo := todo j |}.
Definition set_jp (p : scan_state) (j : stbi__jpeg) : stbi__jpeg :=
  {| js := js j; jt := jt j; jf := jf j; img_comp := img_comp j; jb := jb j; jp := p; jg := jg j;
     eob_run := eob_run j; todo := todo j |}.
Definition set_jg (g : tags) (j : stbi__jpeg) : stbi__jpeg :=
  {| js := js j; jt := jt j; jf := jf j; img_comp := img_comp j; jb := jb j; jp := jp j; jg := g;
     eob_run := eob_run j; todo := todo j |}.
Definition set_counts (eob td : Z) (j : stbi__jpeg) : stbi__jpeg :=
  {| js := js j; jt := jt j; jf := jf j; img_comp := img_comp j; jb := jb j; jp := jp j; jg := jg j;
     eob_run := eob; todo := td |}.

Definition on_js {A} (m : Act stbi__context A) : Act stbi__jpeg A := zoom js set_js m.

(** [j->code_buffer = c; j->code_bits = n;] *)
Definition set_code (c n : Z) (j : stbi__jpeg) : stbi__jpeg :=
  set_jb {| code_buffer := c; code_bits := n; marker := marker (jb j); nomore := nomore (jb j) |} j.
Definition set_marker (m : Z) (j : stbi__jpeg) : stbi__jpeg :=
  set_jb {| code_buffer := code_buffer (jb j); code_bits := code_bits (jb j); marker := m;
            nomore := nomore (jb j) |} j.

Definition set_dc_pred (dc : Z) (c : component) : component :=
  {| id := id c; h := h c; v := v c; tq := tq c; hd := hd c; ha := ha c; dc_pred := dc;
     x := x c; y := y c; w2 := w2 c; h2 := h2 c; data := data c; coeff := coeff c;
     coeff_w := coeff_w c; coeff_h := coeff_h c |}.
Definition set_huff (d a : Z) (c : component) : component :=
  {| id := id c; h := h c; v := v c; tq := tq c; hd := d; ha := a; dc_pred := dc_pred c;
     x := x c; y := y c; w2 := w2 c; h2 := h2 c; data := data c; coeff := coeff c;
     coeff_w := coeff_w c; coeff_h := coeff_h c |}.
Definition set_data (d : list Z) (c : component) : component :=
  {| id := id c; h := h c; v := v c; tq := tq c; hd := hd c; ha := ha c; dc_pred := dc_pred c;
     x := x c; y := y c; w2 := w2 c; h2 := h2 c; data := d; coeff := coeff c;
     coeff_w := coeff_w c; coeff_h := coeff_h c |}.
Definition set_coeff (d : list Z) (c : component) : component :=
  {| id := id c; h := h c; v := v c; tq := tq c; hd := hd c; ha := ha c; dc_pred := dc_pred c;
     x := x c; y := y c; w2 := w2 c; h2 := h2 c; data := data c; coeff := d;
     coeff_w := coeff_w c; coeff_h := coeff_h c |}.

(** [z->img_comp[n]] and an update of it. *)
Definition comp (n : Z) : Act stbi__jpeg component := j ← get; lift (rd (img_comp j) n).
Definition upd_comp (n : Z) (f : component → component) : Act stbi__jpeg unit :=
  j ← get; c ← lift (rd (img_comp j) n); cs ← lift (wr (img_comp j) n (f c)); put (set_comps cs j).

(** Loops that end with the input take the number of turns as [fuel]. *)
Context (fuel : nat).

(** [while (c == 0xff) c = stbi__get8(s);] *)
Definition skip_ff (c : Z) : Act stbi__jpeg Z :=
  r ← a_loop (R := Empty_set) fuel (λ c,
    if c =? 0xff then c ← on_js stbi__get8; mret (Next c) else mret (Break c)) c;
  mret (fell r).

(** Eight passes suffice: [code_bits] is at least -16. *)
Definition stbi__grow_buffer_unsafe : Act stbi__jpeg unit :=
  a_loop 8 (λ _,
    j ← get;
    b ← (if nomore (jb j) then mret 0 else on_js stbi__get8);
    c ← (if b =? 0xff then c ← on_js stbi__get8; skip_ff c else mret 0);
    if (b =? 0xff) && negb (c =? 0) then
      modify (λ j, set_jb {| code_buffer := code_buffer (jb j); code_bits := code_bits (jb j);
                             marker := c; nomore := true |} j);;
      mret (Return ())
    else
      j ← get;
      sb ← lift (shl32 b (24 - code_bits (jb j)));
      put (set_code (Z.lor (code_buffer (jb j)) sb) (code_bits (jb j) + 8) j);;
      mret (if code_bits (jb j) + 8 <=? 24 then Next () else Break ())) ();;
  mret ().

(** [if (j->code_bits < n) stbi__grow_buffer_unsafe(j);] *)
Definition need_bits (n : Z) : Act stbi__jpeg unit :=
  j ← get; if code_bits (jb j) <? n then stbi__grow_buffer_unsafe else mret ().

Definition stbi__bmask : list Z :=
  [0;1;3;7;15;31;63;127;255;511;1023;2047;4095;8191;16383;32767;65535].

(** The top [FAST_BITS] of the buffer. *)
Definition peek_fast : Act stbi__jpeg Z :=
  j ← get; mret (Z.land (Z.shiftr (code_buffer (jb j)) (32 - FAST_BITS)) 511).

(** [j->code_buffer <<= s; j->code_bits -= s;] *)
Definition drop_bits (s : Z) : Act stbi__jpeg unit :=
  j ← get; c ← lift (shl32 (code_buffer (jb j)) s); put (set_code c (code_bits (jb j) - s) j).

Definition stbi__jpeg_huff_decode (hf : stbi__huffman) : Act stbi__jpeg Z :=
  need_bits 16;;
  c ← peek_fast;
  k ← lift (rd (fast hf) c);
  j ← get;
  if k <? 255 then
    s ← lift (rd (size hf) k);
    if code_bits (jb j) <? s then mret (-1) else
    drop_bits s;; lift (rd (values hf) k)
  else
    let temp := Z.shiftr (code_buffer (jb j)) 16 in
    k ← lift (fell <$> loop (R := Empty_set) 9 (λ k,
      m ← rd (maxcode hf) k; Ok (if temp <? m then Break k else Next (k + 1))) (FAST_BITS + 1));
    if k =? 17 then
      put (set_code (code_buffer (jb j)) (code_bits (jb j) - 16) j);; mret (-1)
    else if code_bits (jb j) <? k then mret (-1)
    else
      m ← lift (rd stbi__bmask k);
      d ← lift (rd (delta hf) k);
      let c := sx 32 (u32 (Z.land (Z.shiftr (code_buffer (jb j)) (32 - k)) m + d)) in
      if (c <? 0) || (256 <=? c) then mret (-1) else
      sz ← lift (rd (size hf) c);
      m ← lift (rd stbi__bmask sz);
      cd ← lift (rd (code hf) c);
      sh ← lift (shr32 (code_buffer (jb j)) (32 - sz));
      if negb (Z.land sh m =? cd) then lift Undef else
      put (set_code (code_buffer (jb j)) (code_bits (jb j) - k) j);;
      j ← get; c' ← lift (shl32 (code_buffer (jb j)) k);
      put (set_code c' (code_bits (jb j)) j);;
      lift (rd (values hf) c).

Definition stbi__jbias : list Z :=
  [0;-1;-3;-7;-15;-31;-63;-127;-255;-511;-1023;-2047;-4095;-8191;-16383;-32767].

(** [stbi_lrot] *)
Definition stbi_lrot (x y : Z) : Res Z :=
  a ← shl32 x y; b ← shr32 x (Z.land (- y) 31); Ok (Z.lor a b).

(** [n] bits from the top of the buffer. *)
Definition take_bits (n : Z) : Act stbi__jpeg Z :=
  j ← get;
  k ← lift (stbi_lrot (code_buffer (jb j)) n);
  m ← lift (rd stbi__bmask n);
  put (set_code (Z.land k (u32 (Z.lnot m))) (code_bits (jb j) - n) j);;
  mret (Z.land k m).

Definition stbi__extend_receive (n : Z) : Act stbi__jpeg Z :=
  need_bits n;;
  j ← get;
  if code_bits (jb j) <? n then mret 0 else
  let sgn := Z.shiftr (code_buffer (jb j)) 31 in
  k ← take_bits n;
  b ← lift (rd stbi__jbias n);
  mret (sx 32 (u32 (k + Z.land b (sgn - 1)))).

Definition stbi__jpeg_get_bits (n : Z) : Act stbi__jpeg Z :=
  need_bits n;;
  j ← get;
  if code_bits (jb j) <? n then mret 0 else take_bits n.

(** Non-zero when the bit is set. *)
Definition stbi__jpeg_get_bit : Act stbi__jpeg bool :=
  need_bits 1;;
  j ← get;
  if code_bits (jb j) <? 1 then mret false else
  put (set_code (u32 (code_buffer (jb j) * 2)) (code_bits (jb j) - 1) j);;
  mret (Z.testbit (code_buffer (jb j)) 31).

Definition stbi__jpeg_dezigzag : list Z :=
  [ 0;  1;  8; 16;  9;  2;  3; 10; 17; 24; 32; 25; 18; 11;  4;  5;
   12; 19; 26; 33; 40; 48; 41; 34; 27; 20; 13;  6;  7; 14; 21; 28;
   35; 42; 49; 56; 57; 50; 43; 36; 29; 22; 15; 23; 30; 37; 44; 51;
   58; 59; 52; 45; 38; 31; 39; 46; 53; 60; 61; 54; 47; 55; 62; 63;
   63; 63; 63; 63; 63; 63; 63; 63; 63; 63; 63; 63; 63; 63; 63].

(** The fast-AC path: [None] when the table has no entry for the next bits, and
    otherwise the run and the value. *)
Definition fast_ac_path (fac : list Z) : Act stbi__jpeg (option (Z * Z)) :=
  need_bits 16;;
  c ← peek_fast;
  r ← lift (rd fac c);
  if r =? 0 then mret None else
  let s := Z.land r 15 in
  j ← get;
  fail_if (code_bits (jb j) <? s) "bad huffman code";;
  drop_bits s;;
  mret (Some (Z.land (Z.shiftr r 4) 15, Z.shiftr r 8)).

(** The new DC prediction of component [b]; [e] is the message for a bad
    table code. *)
Definition next_dc (hdc : stbi__huffman) (b : Z) (e : string) : Act stbi__jpeg Z :=
  t ← stbi__jpeg_huff_decode hdc;
  fail_if ((t <? 0) || (15 <? t)) e;;
  diff ← (if negb (t =? 0) then stbi__extend_receive t else mret 0);
  c ← comp b;
  ok ← lift (stbi__addints_valid (dc_pred c) diff);
  fail_if (negb ok) "bad delta";;
  dc ← lift (i32 (dc_pred c + diff));
  upd_comp b (set_dc_pred dc);;
  mret dc.

Definition stbi__jpeg_decode_block (hdc hac : stbi__huffman) (fac : list Z) (b : Z)
    (dequant : list Z) : Act stbi__jpeg (list Z) :=
  need_bits 16;;
  dc ← next_dc hdc b "bad huffman code";
  q0 ← lift (rd dequant 0);
  fail_if (negb (stbi__mul2shorts_valid dc q0)) "can't merge dc and ac";;
  m ← lift (i32 (dc * q0));
  data ← lift (wr (replicate 64 0) 0 (i16 m));
  r ← a_loop (R := Empty_set) 64 (λ '(data, k),
    p ← fast_ac_path fac;
    match p with
    | Some (run, val) =>
        zig ← lift (rd stbi__jpeg_dezigzag (k + run));
        q ← lift (rd dequant zig);
        m ← lift (i32 (val * q));
        data ← lift (wr data zig (i16 m));
        let k := k + run + 1 in
        mret (if k <? 64 then Next (data, k) else Break (data, k))
    | None =>
        rs ← stbi__jpeg_huff_decode hac;
        fail_if (rs <? 0) "bad huffman code";;
        let s := Z.land rs 15 in
        let r := Z.shiftr rs 4 in
        if s =? 0 then
          if negb (rs =? 0xf0) then mret (Break (data, k))
          else mret (if k + 16 <? 64 then Next (data, k + 16) else Break (data, k + 16))
        else
          zig ← lift (rd stbi__jpeg_dezigzag (k + r));
          e ← stbi__extend_receive s;
          q ← lift (rd dequant zig);
          m ← lift (i32 (e * q));
          data ← lift (wr data zig (i16 m));
          let k := k + r + 1 in
          mret (if k <? 64 then Next (data, k) else Break (data, k))
    end) (data, 1);
  mret (fst (fell r)).

Definition stbi__jpeg_decode_block_prog_dc (data : list Z) (hdc : stbi__huffman) (b : Z)
  : Act stbi__jpeg (list Z) :=
  j ← get;
  fail_if (negb (spec_end (jp j) =? 0)) "can't merge dc and ac";;
  need_bits 16;;
  let one := Z.shiftl 1 (succ_low (jp j)) in
  if succ_high (jp j) =? 0 then
    dc ← next_dc hdc b "can't merge dc and ac";
    fail_if (negb (stbi__mul2shorts_valid dc one)) "can't merge dc and ac";;
    m ← lift (i32 (dc * one));
    lift (wr (replicate 64 0) 0 (i16 m))
  else
    bit ← stbi__jpeg_get_bit;
    if negb bit then mret data else
    d0 ← lift (rd data 0); lift (wr data 0 (i16 (d0 + i16 one))).

(** First scan of AC coefficients [spec_start..spec_end]. *)
Definition prog_ac_first (data : list Z) (hac : stbi__huffman) (fac : list Z)
  : Act stbi__jpeg (list Z) :=
  j ← get;
  let one := Z.shiftl 1 (succ_low (jp j)) in
  let last := spec_end (jp j) in
  if negb (eob_run j =? 0) then put (set_counts (eob_run j - 1) (todo j) j);; mret data else
  r ← a_loop (R := Empty_set) 64 (λ '(data, k),
    p ← fast_ac_path fac;
    match p with
    | Some (run, val) =>
        zig ← lift (rd stbi__jpeg_dezigzag (k + run));
        m ← lift (i32 (val * one));
        data ← lift (wr data zig (i16 m));
        let k := k + run + 1 in
        mret (if k <=? last then Next (data, k) else Break (data, k))
    | None =>
        rs ← stbi__jpeg_huff_decode hac;
        fail_if (rs <? 0) "bad huffman code";;
        let s := Z.land rs 15 in
        let r := Z.shiftr rs 4 in
        if s =? 0 then
          if r <? 15 then
            x ← (if negb (r =? 0) then stbi__jpeg_get_bits r else mret 0);
            modify (λ j, set_counts (Z.shiftl 1 r + x - 1) (todo j) j);;
            mret (Break (data, k))
          else mret (if k + 16 <=? last then Next (data, k + 16) else Break (data, k + 16))
        else
          zig ← lift (rd stbi__jpeg_dezigzag (k + r));
          e ← stbi__extend_receive s;
          m ← lift (i32 (e * one));
          data ← lift (wr data zig (i16 m));
          let k := k + r + 1 in
          mret (if k <=? last then Next (data, k) else Break (data, k))
    end) (data, spec_start (jp j));
  mret (fst (fell r)).

(** A non-zero coefficient in a refinement scan: one correction bit. *)
Definition refine (bit p : Z) : Act stbi__jpeg Z :=
  b ← stbi__jpeg_get_bit;
  mret (if b && (Z.land p bit =? 0) then (if 0 <? p then i16 (p + bit) else i16 (p - bit)) else p).

(** [while (k <= spec_end)]: skip [r] zero coefficients, refining the others,
    and store [s] in the next. *)
Definition refine_run (bit last s : Z) (st : list Z * Z * Z)
  : Act stbi__jpeg (ctl (list Z * Z * Z) Empty_set) :=
  let '(data, k, r) := st in
  if last <? k then mret (Break st) else
  zig ← lift (rd stbi__jpeg_dezigzag k);
  p ← lift (rd data zig);
  let k := k + 1 in
  if negb (p =? 0) then
    p' ← refine bit p; data ← lift (wr data zig p'); mret (Next (data, k, r))
  else if r =? 0 then data ← lift (wr data zig (i16 s)); mret (Break (data, k, r))
  else mret (Next (data, k, r - 1)).

Definition prog_ac_refine (data : list Z) (hac : stbi__huffman) : Act stbi__jpeg (list Z) :=
  j ← get;
  let bit := i16 (Z.shiftl 1 (succ_low (jp j))) in
  let first := spec_start (jp j) in
  let last := spec_end (jp j) in
  if negb (eob_run j =? 0) then
    put (set_counts (eob_run j - 1) (todo j) j);;
    a_for first (last + 1) (λ k data,
      zig ← lift (rd stbi__jpeg_dezigzag k);
      p ← lift (rd data zig);
      if negb (p =? 0) then p' ← refine bit p; lift (wr data zig p') else mret data) data
  else
    r ← a_loop (R := Empty_set) 65 (λ '(data, k),
      rs ← stbi__jpeg_huff_decode hac;
      fail_if (rs <? 0) "bad huffman code";;
      let s := Z.land rs 15 in
      let r := Z.shiftr rs 4 in
      '(r, s) ← (if s =? 0 then
                   if r <? 15 then
                     x ← (if negb (r =? 0) then stbi__jpeg_get_bits r else mret 0);
                     modify (λ j, set_counts (Z.shiftl 1 r - 1 + x) (todo j) j);;
                     mret (64, s)
                   else mret (r, s)
                 else
                   fail_if (negb (s =? 1)) "bad huffman code";;
                   b ← stbi__jpeg_get_bit;
                   mret (r, if negb b then - bit else bit));
      e ← a_loop 66 (refine_run bit last s) (data, k, r);
      let '(data, k, _) := fell e in
      mret (if k <=? last then Next (data, k) else Break (data, k))) (data, first);
    mret (fst (fell r)).

Definition stbi__jpeg_decode_block_prog_ac (data : list Z) (hac : stbi__huffman) (fac : list Z)
  : Act stbi__jpeg (list Z) :=
  j ← get;
  fail_if (spec_start (jp j) =? 0) "can't merge dc and ac";;
  if succ_high (jp j) =? 0 then prog_ac_first data hac fac else prog_ac_refine data hac.

(** ** Markers and scans *)
Definition STBI__MARKER_none : Z := 0xff.

Definition stbi__get_marker : Act stbi__jpeg Z :=
  j ← get;
  if negb (marker (jb j) =? STBI__MARKER_none) then
    put (set_marker STBI__MARKER_none j);; mret (marker (jb j))
  else
    x ← on_js stbi__get8;
    if negb (x =? 0xff) then mret STBI__MARKER_none else skip_ff x.

Definition STBI__RESTART (x : Z) : bool := (0xd0 <=? x) && (x <=? 0xd7).

Definition stbi__jpeg_reset : Act stbi__jpeg unit :=
  modify (λ j,
    let j := set_jb {| code_buffer := 0; code_bits := 0; marker := STBI__MARKER_none;
                       nomore := false |} j in
    let j := set_comps (set_dc_pred 0 <$> img_comp j) j in
    set_counts 0 (if negb (restart_interval (jp j) =? 0) then restart_interval (jp j)
                  else 0x7fffffff) j).

(** The block of component [n] in column [bx] and row [by] of its blocks:
    decoded and transformed, or collected in the coefficients. *)
Definition scan_block (interleaved : bool) (n bx by_ : Z) : Act stbi__jpeg unit :=
  j ← get;
  c ← comp n;
  hdc ← lift (match huff_dc (jt j) !! Z.to_nat (hd c) with Some t => Ok t | None => Undef end);
  if negb (progressive (jp j)) then
    hac ← lift (match huff_ac (jt j) !! Z.to_nat (ha c) with Some t => Ok t | None => Undef end);
    fac ← lift (rd (fast_ac (jt j)) (ha c));
    dq ← lift (rd (dequant (jt j)) (tq c));
    block ← stbi__jpeg_decode_block hdc hac fac n dq;
    c ← comp n;
    d ← lift (stbi__idct_block (data c) (w2 c * (by_ * 8) + bx * 8) (w2 c) block);
    upd_comp n (set_data d)
  else
    let off := 64 * (bx + by_ * coeff_w c) in
    block ← lift (memcpy (replicate 64 0) 0 (coeff c) off 64);
    block ← (if interleaved || (spec_start (jp j) =? 0) then
               stbi__jpeg_decode_block_prog_dc block hdc n
             else
               hac ← lift (match huff_ac (jt j) !! Z.to_nat (ha c) with
                           | Some t => Ok t | None => Undef end);
               fac ← lift (rd (fast_ac (jt j)) (ha c));
               stbi__jpeg_decode_block_prog_ac block hac fac);
    c ← comp n;
    cf ← lift (memcpy (coeff c) off block 0 64);
    upd_comp n (set_coeff cf).

(** The countdown of the restart interval; [true] bails out of the scan. *)
Definition end_mcu : Act stbi__jpeg bool :=
  modify (λ j, set_counts (eob_run j) (todo j - 1) j);;
  j ← get;
  if todo j <=? 0 then
    need_bits 24;;
    j ← get;
    if negb (STBI__RESTART (marker (jb j))) then mret true
    else stbi__jpeg_reset;; mret false
  else mret false.

(** [w] by [h] turns of [mcu], each followed by the countdown. *)
Definition scan_mcus (w h : Z) (mcu : Z → Z → Act stbi__jpeg unit) : Act stbi__jpeg unit :=
  a_for_ctl (R := unit) 0 h (λ j _,
    r ← a_for_ctl (R := unit) 0 w (λ i _,
      mcu i j;;
      stop ← end_mcu;
      mret (if negb stop then Next () else Return ())) ();
    mret (match r with Fell _ => Next () | Gave _ => Return () end)) ();;
  mret ().

Definition stbi__parse_entropy_coded_data : Act stbi__jpeg unit :=
  stbi__jpeg_reset;;
  z ← get;
  if scan_n (jp z) =? 1 then
    n ← lift (rd (order (jp z)) 0);
    c ← comp n;
    scan_mcus (Z.shiftr (x c + 7) 3) (Z.shiftr (y c + 7) 3) (λ i j, scan_block false n i j)
  else
    scan_mcus (img_mcu_x (jf z)) (img_mcu_y (jf z)) (λ i j,
      a_for 0 (scan_n (jp z)) (λ k _,
        n ← lift (rd (order (jp z)) k);
        c ← comp n;
        a_for 0 (v c) (λ dy _,
          a_for 0 (h c) (λ dx _, scan_block true n (i * h c + dx) (j * v c + dy)) ()) ()) ()).

Definition stbi__jpeg_dequantize (data dequant : list Z) : Res (list Z) :=
  for_range 0 64 (λ i data,
    d ← rd data i; q ← rd dequant i; m ← i32 (d * q); wr data i (i16 m)) data.

Definition stbi__jpeg_finish : Act stbi__jpeg unit :=
  z ← get;
  if negb (progressive (jp z)) then mret () else
  a_for 0 (img_n (js z)) (λ n _,
    c ← comp n;
    dq ← lift (rd (dequant (jt z)) (tq c));
    a_for 0 (Z.shiftr (y c + 7) 3) (λ j _,
      a_for 0 (Z.shiftr (x c + 7) 3) (λ i _,
        c ← comp n;
        let off := 64 * (i + j * coeff_w c) in
        block ← lift (memcpy (replicate 64 0) 0 (coeff c) off 64);
        block ← lift (stbi__jpeg_dequantize block dq);
        cf ← lift (memcpy (coeff c) off block 0 64);
        d ← lift (stbi__idct_block (data c) (w2 c * j * 8 + i * 8) (w2 c) block);
        upd_comp n (λ c, set_data d (set_coeff cf c))) ()) ()) ().

(** ** Segments *)
Definition set_restart_interval (n : Z) (p : scan_state) : scan_state :=
  {| progressive := progressive p; spec_start := spec_start p; spec_end := spec_end p;
     succ_high := succ_high p; succ_low := succ_low p; scan_n := scan_n p; order := order p;
     restart_interval := n |}.

(** DQT: the tables of a segment of length [L]. *)
Definition read_dqt : Act stbi__jpeg unit :=
  L ← on_js stbi__get16be;
  r ← a_loop (R := Empty_set) 1100 (λ L,
    if L <=? 0 then mret (Break L) else
    q ← on_js stbi__get8;
    let p := Z.shiftr q 4 in
    let sixteen := negb (p =? 0) in
    let t := Z.land q 15 in
    fail_if (negb (p =? 0) && negb (p =? 1)) "bad DQT type";;
    fail_if (3 <? t) "bad DQT table";;
    a_for 0 64 (λ i _,
      zig ← lift (rd stbi__jpeg_dezigzag i);
      q ← on_js (if sixteen then stbi__get16be else stbi__get8);
      j ← get;
      table ← lift (rd (dequant (jt j)) t);
      table ← lift (wr table zig q);
      d ← lift (wr (dequant (jt j)) t table);
      put (set_jt {| huff_dc := huff_dc (jt j); huff_ac := huff_ac (jt j); dequant := d;
                     fast_ac := fast_ac (jt j) |} j)) ();;
    mret (Next (L - (if sixteen then 129 else 65)))) (L - 2);
  fail_if (negb (fell r =? 0)) "".

(** [z->huff_dc + th] or [z->huff_ac + th]; the decoder has four of each. *)
Definition huff_table (tc th : Z) (j : stbi__jpeg) : stbi__huffman :=
  default zero_huffman ((if tc =? 0 then huff_dc (jt j) else huff_ac (jt j)) !! Z.to_nat th).
Definition set_huff_table (tc th : Z) (t : stbi__huffman) (j : stbi__jpeg) : stbi__jpeg :=
  set_jt {| huff_dc := if tc =? 0 then <[Z.to_nat th := t]> (huff_dc (jt j)) else huff_dc (jt j);
            huff_ac := if tc =? 0 then huff_ac (jt j) else <[Z.to_nat th := t]> (huff_ac (jt j));
            dequant := dequant (jt j); fast_ac := fast_ac (jt j) |} j.

(** [v[i] = stbi__get8(z->s)] for the [n] values of a table. *)
Definition read_values (tc th n : Z) : Act stbi__jpeg unit :=
  a_for 0 n (λ i _,
    b ← on_js stbi__get8;
    zoom (huff_table tc th) (set_huff_table tc th) (
      h ← get;
      vs ← lift (wr (values h) i b);
      put {| fast := fast h; code := code h; values := vs; size := size h;
             maxcode := maxcode h; delta := delta h |})) ().

(** The sixteen counts of a table and their sum. *)
Definition read_sizes : Act stbi__jpeg (list Z * Z) :=
  a_for 0 16 (λ i '(sizes, n),
    b ← on_js stbi__get8;
    sizes ← lift (wr sizes i b);
    mret (sizes, n + b)) (replicate 16 0, 0).

(** DHT: the tables of a segment of length [L]. *)
Definition read_dht : Act stbi__jpeg unit :=
  L ← on_js stbi__get16be;
  r ← a_loop (R := Empty_set) 4000 (λ L,
    if L <=? 0 then mret (Break L) else
    q ← on_js stbi__get8;
    let tc := Z.shiftr q 4 in
    let th := Z.land q 15 in
    fail_if ((1 <? tc) || (3 <? th)) "bad DHT header";;
    '(sizes, n) ← read_sizes;
    fail_if (256 <? n) "bad DHT header";;
    zoom (huff_table tc th) (set_huff_table tc th) (stbi__build_huffman sizes);;
    read_values tc th n;;
    (if negb (tc =? 0) then
       j ← get;
       fac ← lift (rd (fast_ac (jt j)) th);
       fac ← lift (stbi__build_fast_ac (huff_table tc th j) fac);
       f ← lift (wr (fast_ac (jt j)) th fac);
       put (set_jt {| huff_dc := huff_dc (jt j); huff_ac := huff_ac (jt j);
                      dequant := dequant (jt j); fast_ac := f |} j)
     else mret ());;
    mret (Next (L - 17 - n))) (L - 2);
  fail_if (negb (fell r =? 0)) "".

(** Whether the next bytes are [tag]; all of them are read. *)
Definition read_tag (tag : list Z) : Act stbi__jpeg bool :=
  a_for 0 (zlen tag) (λ i ok,
    b ← on_js stbi__get8;
    t ← lift (rd tag i);
    mret (ok && (b =? t))) true.

(** APP0 (JFIF), APP14 (Adobe), other APP segments and comments. *)
Definition read_app (m : Z) : Act stbi__jpeg unit :=
  L ← on_js stbi__get16be;
  fail_if (L <? 2) (if m =? 0xfe then "bad COM len" else "bad APP len");;
  let L := L - 2 in
  L ← (if (m =? 0xe0) && (5 <=? L) then
         ok ← read_tag [74; 70; 73; 70; 0];
         modify (λ j, if negb ok then j else
           set_jg {| jfif := true; app14_color_transform := app14_color_transform (jg j);
                     rgb := rgb (jg j) |} j);;
         mret (L - 5)
       else if (m =? 0xee) && (12 <=? L) then
         ok ← read_tag [65; 100; 111; 98; 101; 0];
         if negb ok then mret (L - 6) else
         on_js stbi__get8;;
         on_js stbi__get16be;;
         on_js stbi__get16be;;
         t ← on_js stbi__get8;
         modify (λ j, set_jg {| jfif := jfif (jg j); app14_color_transform := t;
                                rgb := rgb (jg j) |} j);;
         mret (L - 6 - 6)
       else mret L);
  on_js (stbi__skip L).

Definition stbi__process_marker (m : Z) : Act stbi__jpeg unit :=
  if m =? STBI__MARKER_none then fail "expected marker"
  else if m =? 0xdd then
    len ← on_js stbi__get16be;
    fail_if (negb (len =? 4)) "bad DRI len";;
    n ← on_js stbi__get16be;
    modify (λ j, set_jp (set_restart_interval n (jp j)) j)
  else if m =? 0xdb then read_dqt
  else if m =? 0xc4 then read_dht
  else if ((0xe0 <=? m) && (m <=? 0xef)) || (m =? 0xfe) then read_app m
  else fail "unknown marker".

(** The component a scan names: [for (which = 0; which < img_n; ++which)]. *)
Definition find_component (ident : Z) : Act stbi__jpeg Z :=
  j ← get;
  r ← a_for_ctl 0 (img_n (js j)) (λ which _,
    c ← comp which;
    mret (if id c =? ident then Return which else Next ())) ();
  match r with Gave which => mret which | Fell _ => fail "" end.

Definition scan_component (i : Z) : Act stbi__jpeg unit :=
  ident ← on_js stbi__get8;
  q ← on_js stbi__get8;
  which ← find_component ident;
  upd_comp which (λ c, set_huff (Z.shiftr q 4) (ha c) c);;
  fail_if (3 <? Z.shiftr q 4) "bad DC huff";;
  upd_comp which (λ c, set_huff (hd c) (Z.land q 15) c);;
  fail_if (3 <? Z.land q 15) "bad AC huff";;
  j ← get;
  o ← lift (wr (order (jp j)) i which);
  put (set_jp {| progressive := progressive (jp j); spec_start := spec_start (jp j);
                 spec_end := spec_end (jp j); succ_high := succ_high (jp j);
                 succ_low := succ_low (jp j); scan_n := scan_n (jp j); order := o;
                 restart_interval := restart_interval (jp j) |} j).

Definition set_scan_n (n : Z) (p : scan_state) : scan_state :=
  {| progressive := progressive p; spec_start := spec_start p; spec_end := spec_end p;
     succ_high := succ_high p; succ_low := succ_low p; scan_n := n; order := order p;
     restart_interval := restart_interval p |}.

Definition set_spectrum (start stop high low : Z) (p : scan_state) : scan_state :=
  {| progressive := progressive p; spec_start := start; spec_end := stop;
     succ_high := high; succ_low := low; scan_n := scan_n p; order := order p;
     restart_interval := restart_interval p |}.

Definition stbi__process_scan_header : Act stbi__jpeg unit :=
  Ls ← on_js stbi__get16be;
  n ← on_js stbi__get8;
  modify (λ j, set_jp (set_scan_n n (jp j)) j);;
  j ← get;
  fail_if ((n <? 1) || (4 <? n) || (img_n (js j) <? n)) "bad SOS component count";;
  fail_if (negb (Ls =? 6 + 2 * n)) "bad SOS len";;
  a_for 0 n (λ i _, scan_component i) ();;
  start ← on_js stbi__get8;
  stop ← on_js stbi__get8;
  aa ← on_js stbi__get8;
  let high := Z.shiftr aa 4 in
  let low := Z.land aa 15 in
  modify (λ j, set_jp (set_spectrum start stop high low (jp j)) j);;
  if progressive (jp j) then
    fail_if ((63 <? start) || (63 <? stop) || (stop <? start) || (13 <? high) || (13 <? low))
      "bad SOS"
  else
    fail_if (negb (start =? 0)) "bad SOS";;
    fail_if (negb (high =? 0) || negb (low =? 0)) "bad SOS";;
    modify (λ j, set_jp (set_spectrum start 63 high low (jp j)) j).

(** ** The frame header *)
Definition set_shape (ident h' v' q : Z) (c : component) : component :=
  {| id := ident; h := h'; v := v'; tq := q; hd := hd c; ha := ha c; dc_pred := dc_pred c;
     x := x c; y := y c; w2 := w2 c; h2 := h2 c; data := data c; coeff := coeff c;
     coeff_w := coeff_w c; coeff_h := coeff_h c |}.

Definition set_img_s (w h n : Z) (j : stbi__jpeg) : stbi__jpeg :=
  set_js (set_img w h n (img_out_n (js j)) (js j)) j.

(** The component specification [i]. *)
Definition frame_component (i : Z) : Act stbi__jpeg unit :=
  ident ← on_js stbi__get8;
  upd_comp i (λ c, set_shape ident (h c) (v c) (tq c) c);;
  j ← get;
  (if img_n (js j) =? 3 then
     t ← lift (rd [82; 71; 66] i);
     modify (λ j, if negb (ident =? t) then j else
       set_jg {| jfif := jfif (jg j); app14_color_transform := app14_color_transform (jg j);
                 rgb := rgb (jg j) + 1 |} j)
   else mret ());;
  q ← on_js stbi__get8;
  let h' := Z.shiftr q 4 in
  let v' := Z.land q 15 in
  upd_comp i (λ c, set_shape (id c) h' (v c) (tq c) c);;
  fail_if ((h' =? 0) || (4 <? h')) "bad H";;
  upd_comp i (λ c, set_shape (id c) h' v' (tq c) c);;
  fail_if ((v' =? 0) || (4 <? v')) "bad V";;
  t ← on_js stbi__get8;
  upd_comp i (λ c, set_shape (id c) h' v' t c);;
  fail_if (3 <? t) "bad TQ".

(** Fresh [short]s. *)
Definition malloc_shorts (n : Z) : list Z :=
  malloc_arr (λ k, i16 (uninit (2 * k) + 256 * uninit (2 * k + 1))) n.

Definition set_planes (x' y' w h' cw ch : Z) (d cf : list Z) (c : component) : component :=
  {| id := id c; h := h c; v := v c; tq := tq c; hd := hd c; ha := ha c; dc_pred := dc_pred c;
     x := x'; y := y'; w2 := w; h2 := h'; data := d; coeff := cf; coeff_w := cw; coeff_h := ch |}.

(** The planes of component [i].  [malloc] returns blocks aligned to sixteen
    bytes, so the sixteen-byte alignment of the planes skips nothing and the
    fifteen spare bytes are never used. *)
Definition alloc_component (h_max v_max mcu_x mcu_y i : Z) : Act stbi__jpeg unit :=
  j ← get;
  c ← comp i;
  let x' := u32 (u32 (u32 (img_x (js j) * h c) + h_max) - 1) / h_max in
  let y' := u32 (u32 (u32 (img_y (js j) * v c) + v_max) - 1) / v_max in
  w ← lift (i32 (mcu_x * h c * 8));
  h' ← lift (i32 (mcu_y * v c * 8));
  or_outofmem (stbi__malloc_mad2 w h' 15);;
  let d := malloc_arr uninit (w * h') in
  if progressive (jp j) then
    or_outofmem (stbi__malloc_mad3 w h' 2 15);;
    upd_comp i (set_planes x' y' w h' (w ÷ 8) (h' ÷ 8) d (malloc_shorts (w * h')))
  else upd_comp i (set_planes x' y' w h' (coeff_w c) (coeff_h c) d []).

Definition stbi__process_frame_header (scan : scan_mode) : Act stbi__jpeg unit :=
  Lf ← on_js stbi__get16be;
  fail_if (Lf <? 11) "bad SOF len";;
  p ← on_js stbi__get8;
  fail_if (negb (p =? 8)) "only 8-bit";;
  iy ← on_js stbi__get16be;
  modify (λ j, set_img_s (img_x (js j)) iy (img_n (js j)) j);;
  fail_if (iy =? 0) "no header height";;
  ix ← on_js stbi__get16be;
  modify (λ j, set_img_s ix iy (img_n (js j)) j);;
  fail_if (ix =? 0) "0 width";;
  fail_if (STBI_MAX_DIMENSIONS <? iy) "too large";;
  fail_if (STBI_MAX_DIMENSIONS <? ix) "too large";;
  c ← on_js stbi__get8;
  fail_if (negb (c =? 3) && negb (c =? 1) && negb (c =? 4)) "bad component count";;
  modify (set_img_s ix iy c);;
  a_for 0 c (λ i _, upd_comp i (set_data [])) ();;
  fail_if (negb (Lf =? 8 + 3 * c)) "bad SOF len";;
  modify (λ j, set_jg {| jfif := jfif (jg j);
                         app14_color_transform := app14_color_transform (jg j); rgb := 0 |} j);;
  a_for 0 c (λ i _, frame_component i) ();;
  match scan with
  | SCAN_load =>
      ok ← lift (stbi__mad3sizes_valid ix iy c 0);
      fail_if (negb ok) "too large";;
      '(h_max, v_max) ← a_for 0 c (λ i '(hm, vm),
        k ← comp i; mret (Z.max hm (h k), Z.max vm (v k))) (1, 1);
      a_for 0 c (λ i _,
        k ← comp i;
        fail_if (negb (Z.rem h_max (h k) =? 0)) "bad H";;
        fail_if (negb (Z.rem v_max (v k) =? 0)) "bad V") ();;
      let mcu_w := h_max * 8 in
      let mcu_h := v_max * 8 in
      let mcu_x := u32 (ix + mcu_w - 1) / mcu_w in
      let mcu_y := u32 (iy + mcu_h - 1) / mcu_h in
      modify (set_jf {| img_h_max := h_max; img_v_max := v_max; img_mcu_x := mcu_x;
                        img_mcu_y := mcu_y; img_mcu_w := mcu_w; img_mcu_h := mcu_h |});;
      a_for 0 c (λ i _, alloc_component h_max v_max mcu_x mcu_y i) ()
  | _ => mret ()
  end.

Definition stbi__DNL (m : Z) : bool := m =? 0xdc.
Definition stbi__SOI (m : Z) : bool := m =? 0xd8.
Definition stbi__EOI (m : Z) : bool := m =? 0xd9.
Definition stbi__SOF (m : Z) : bool := (m =? 0xc0) || (m =? 0xc1) || (m =? 0xc2).
Definition stbi__SOS (m : Z) : bool := m =? 0xda.
Definition stbi__SOF_progressive (m : Z) : bool := m =? 0xc2.

(** [while (m == STBI__MARKER_none)]: scan the padding after a segment. *)
Definition scan_padding (m : Z) : Act stbi__jpeg Z :=
  r ← a_loop (R := Empty_set) fuel (λ m,
    if negb (m =? STBI__MARKER_none) then mret (Break m) else
    eof ← on_js stbi__at_eof;
    fail_if eof "no SOF";;
    m ← stbi__get_marker; mret (Next m)) m;
  mret (fell r).

Definition stbi__decode_jpeg_header (scan : scan_mode) : Act stbi__jpeg unit :=
  modify (λ j, set_marker STBI__MARKER_none
    (set_jg {| jfif := false; app14_color_transform := -1; rgb := rgb (jg j) |} j));;
  m ← stbi__get_marker;
  fail_if (negb (stbi__SOI m)) "no SOI";;
  match scan with
  | SCAN_type => mret ()
  | _ =>
      m ← stbi__get_marker;
      r ← a_loop (R := Empty_set) fuel (λ m,
        if stbi__SOF m then mret (Break m) else
        stbi__process_marker m;;
        m ← stbi__get_marker;
        m ← scan_padding m;
        mret (Next m)) m;
      modify (λ j, set_jp {| progressive := stbi__SOF_progressive (fell r);
                             spec_start := spec_start (jp j); spec_end := spec_end (jp j);
                             succ_high := succ_high (jp j); succ_low := succ_low (jp j);
                             scan_n := scan_n (jp j); order := order (jp j);
                             restart_interval := restart_interval (jp j) |} j);;
      stbi__process_frame_header scan
  end.

(** The inner [while (x == 0xff)] of the scan for a marker. *)
Definition after_ff (c : Z) : Act stbi__jpeg (ctl Z Z) :=
  if negb (c =? 0xff) then mret (Break c) else
  eof ← on_js stbi__at_eof;
  if negb eof then
    c ← on_js stbi__get8;
    mret (if negb (c =? 0) && negb (c =? 0xff) then Return c else Next c)
  else mret (Return STBI__MARKER_none).

Definition stbi__skip_jpeg_junk_at_end : Act stbi__jpeg Z :=
  r ← a_loop fuel (λ _,
    eof ← on_js stbi__at_eof;
    if negb eof then
      c ← on_js stbi__get8;
      r ← a_loop fuel after_ff c;
      mret (match r with Fell _ => Next () | Gave m => Return m end)
    else mret (Break ())) ();
  mret (match r with Fell _ => STBI__MARKER_none | Gave m => m end).

(** One turn of [while (!stbi__EOI(m))].  A marker that is not understood after
    the frame header ends the decoding, successfully. *)
Definition image_segment (m : Z) : Act stbi__jpeg (ctl Z unit) :=
  if stbi__EOI m then mret (Break m)
  else if stbi__SOS m then
    stbi__process_scan_header;;
    stbi__parse_entropy_coded_data;;
    j ← get;
    (if marker (jb j) =? STBI__MARKER_none then
       m ← stbi__skip_jpeg_junk_at_end; modify (set_marker m)
     else mret ());;
    m ← stbi__get_marker;
    m ← (if STBI__RESTART m then stbi__get_marker else mret m);
    mret (Next m)
  else if stbi__DNL m then
    Ld ← on_js stbi__get16be;
    NL ← on_js stbi__get16be;
    fail_if (negb (Ld =? 4)) "bad DNL len";;
    j ← get;
    fail_if (negb (NL =? img_y (js j))) "bad DNL height";;
    m ← stbi__get_marker;
    mret (Next m)
  else
    r ← attempt (stbi__process_marker m);
    match r with
    | Fail _ => mret (Return ())
    | Val _ => m ← stbi__get_marker; mret (Next m)
    end.

Definition stbi__decode_jpeg_image : Act stbi__jpeg unit :=
  modify (λ j, set_jp (set_restart_interval 0 (jp j)) j);;
  stbi__decode_jpeg_header SCAN_load;;
  m ← stbi__get_marker;
  r ← a_loop fuel image_segment m;
  match r with
  | Gave _ => mret ()
  | Fell _ => j ← get; if progressive (jp j) then stbi__jpeg_finish else mret ()
  end.

(** ** Resampling *)

(** A row the resamplers read: a plane from an offset on. *)
Definition row := (list Z * Z)%type.
Definition rd_row (r : row) (i : Z) : Res Z := rd r.1 (r.2 + i).

Definition stbi__div4 (x : Z) : Z := u8 (Z.shiftr x 2).
Definition stbi__div16 (x : Z) : Z := u8 (Z.shiftr x 4).

(** The output of a resampler: a row, of the line buffer it filled or of its
    input. *)
Definition resample_row_1 (out : list Z) (in_near in_far : row) (w hs : Z) : Res row := Ok in_near.

Definition stbi__resample_row_v_2 (out : list Z) (in_near in_far : row) (w hs : Z) : Res row :=
  out ← for_range 0 w (λ i out,
    n ← rd_row in_near i; f ← rd_row in_far i; wr out i (stbi__div4 (3 * n + f + 2))) out;
  Ok (out, 0).

Definition stbi__resample_row_h_2 (out : list Z) (in_near in_far : row) (w hs : Z) : Res row :=
  i0 ← rd_row in_near 0;
  if w =? 1 then
    out ← wr out 1 i0; out ← wr out 0 i0; Ok (out, 0)
  else
    out ← wr out 0 i0;
    i1 ← rd_row in_near 1;
    out ← wr out 1 (stbi__div4 (i0 * 3 + i1 + 2));
    out ← for_range 1 (w - 1) (λ i out,
      c ← rd_row in_near i; p ← rd_row in_near (i - 1); q ← rd_row in_near (i + 1);
      let n := 3 * c + 2 in
      out ← wr out (i * 2) (stbi__div4 (n + p));
      wr out (i * 2 + 1) (stbi__div4 (n + q))) out;
    let i := Z.max 1 (w - 1) in
    p ← rd_row in_near (w - 2);
    l ← rd_row in_near (w - 1);
    out ← wr out (i * 2) (stbi__div4 (p * 3 + l + 2));
    out ← wr out (i * 2 + 1) l;
    Ok (out, 0).

Definition stbi__resample_row_hv_2 (out : list Z) (in_near in_far : row) (w hs : Z) : Res row :=
  n ← rd_row in_near 0; f ← rd_row in_far 0;
  if w =? 1 then
    out ← wr out 1 (stbi__div4 (3 * n + f + 2));
    out ← wr out 0 (stbi__div4 (3 * n + f + 2)); Ok (out, 0)
  else
    let t1 := 3 * n + f in
    out ← wr out 0 (stbi__div4 (t1 + 2));
    '(out, t1) ← for_range 1 w (λ i '(out, t0),
      n ← rd_row in_near i; f ← rd_row in_far i;
      let t1 := 3 * n + f in
      out ← wr out (i * 2 - 1) (stbi__div16 (3 * t0 + t1 + 8));
      out ← wr out (i * 2) (stbi__div16 (3 * t1 + t0 + 8));
      Ok (out, t1)) (out, t1);
    out ← wr out (w * 2 - 1) (stbi__div4 (t1 + 2));
    Ok (out, 0).

Definition stbi__resample_row_generic (out : list Z) (in_near in_far : row) (w hs : Z) : Res row :=
  out ← for_range 0 w (λ i out,
    for_range 0 hs (λ j out, n ← rd_row in_near i; wr out (i * hs + j) n) out) out;
  Ok (out, 0).

(** ** Colour conversion *)

(** [stbi__float2fixed(x)] for the float literal [n / d]. *)
Definition stbi__float2fixed (n d : Z) : Z :=
  match ftrunc (fadd (fmul (flit n d) (fz 4096)) (flit 1 2)) with
  | Some z => Z.shiftl z 8
  | None => 0
  end.

Definition FIX_1_402 : Z := Eval vm_compute in stbi__float2fixed 140200 100000.
Definition FIX_0_714 : Z := Eval vm_compute in stbi__float2fixed 71414 100000.
Definition FIX_0_344 : Z := Eval vm_compute in stbi__float2fixed 34414 100000.
Definition FIX_1_772 : Z := Eval vm_compute in stbi__float2fixed 177200 100000.

(** One pixel; the mask makes the green sum [unsigned]. *)
Definition ycbcr_pixel (y cb cr : Z) : Res (Z * Z * Z) :=
  y_fixed ← add (Z.shiftl y 20) (Z.shiftl 1 19);
  let cr := cr - 128 in
  let cb := cb - 128 in
  a ← mul cr FIX_1_402; r ← add y_fixed a;
  a ← mul cr (- FIX_0_714); g1 ← add y_fixed a;
  a ← mul cb (- FIX_0_344);
  let g := sx 32 (u32 (g1 + Z.land (u32 a) 0xffff0000)) in
  a ← mul cb FIX_1_772; b ← add y_fixed a;
  let clamp c := if u32 c <=? 255 then c else if c <? 0 then 0 else 255 in
  Ok (clamp (Z.shiftr r 20), clamp (Z.shiftr g 20), clamp (Z.shiftr b 20)).

(** Four bytes at [o]; with a [step] of three the fourth is overwritten by the
    next pixel. *)
Definition wr4 (out : list Z) (o r g b a : Z) : Res (list Z) :=
  out ← wr out o r; out ← wr out (o + 1) g; out ← wr out (o + 2) b; wr out (o + 3) a.

Definition stbi__YCbCr_to_RGB_row (out : list Z) (o : Z) (y pcb pcr : row) (count step : Z)
  : Res (list Z) :=
  for_range 0 count (λ i out,
    yi ← rd_row y i; cri ← rd_row pcr i; cbi ← rd_row pcb i;
    '(r, g, b) ← ycbcr_pixel yi cbi cri;
    wr4 out (o + i * step) r g b 255) out.

Definition stbi__blinn_8x8 (x y : Z) : Z :=
  let t := u32 (x * y + 128) in u8 (Z.shiftr (u32 (t + Z.shiftr t 8)) 8).

(** [stbi__resample], with the line buffer of its component: [line0] and
    [line1] are offsets in the plane. *)
Record stbi__resample := {
  hs : Z; vs : Z; line0 : Z; line1 : Z; w_lores : Z; ystep : Z; ypos : Z; linebuf : list Z
}.

Definition resample_kernel (r : stbi__resample) : list Z → row → row → Z → Z → Res row :=
  if (hs r =? 1) && (vs r =? 1) then resample_row_1
  else if (hs r =? 1) && (vs r =? 2) then stbi__resample_row_v_2
  else if (hs r =? 2) && (vs r =? 1) then stbi__resample_row_h_2
  else if (hs r =? 2) && (vs r =? 2) then stbi__resample_row_hv_2
  else stbi__resample_row_generic.

Definition start_resample (k : Z) : Act stbi__jpeg stbi__resample :=
  j ← get;
  c ← comp k;
  buf ← or_outofmem (Ok (stbi__malloc (img_x (js j) + 3)));
  let hs := img_h_max (jf j) ÷ h c in
  let vs := img_v_max (jf j) ÷ v c in
  mret {| hs := hs; vs := vs; line0 := 0; line1 := 0;
          w_lores := u32 (img_x (js j) + hs - 1) / hs; ystep := Z.shiftr vs 1; ypos := 0;
          linebuf := buf |}.

(** The next row of component [c]. *)
Definition next_row (c : component) (r : stbi__resample) : Res (row * stbi__resample) :=
  let y_bot := Z.shiftr (vs r) 1 <=? ystep r in
  cout ← resample_kernel r (linebuf r)
           (data c, if y_bot then line1 r else line0 r)
           (data c, if y_bot then line0 r else line1 r) (w_lores r) (hs r);
  let buf := if (hs r =? 1) && (vs r =? 1) then linebuf r else cout.1 in
  let wrap := vs r <=? ystep r + 1 in
  Ok (cout,
      {| hs := hs r; vs := vs r;
         line0 := if wrap then line1 r else line0 r;
         line1 := if wrap && (ypos r + 1 <? y c) then line1 r + w2 c else line1 r;
         w_lores := w_lores r;
         ystep := if wrap then 0 else ystep r + 1;
         ypos := if wrap then ypos r + 1 else ypos r;
         linebuf := buf |}).

(** A row of the output, from the rows of the components. *)
Section convert.
Context (n img_n transform w : Z) (is_rgb : bool) (c : list row).

Definition px (k i : Z) : Res Z := r ← rd c k; rd_row r i.

(** The three channels of a CMYK pixel. *)
Definition cmyk_px (i : Z) : Res (Z * Z * Z) :=
  m ← px 3 i; c0 ← px 0 i; c1 ← px 1 i; c2 ← px 2 i;
  Ok (stbi__blinn_8x8 c0 m, stbi__blinn_8x8 c1 m, stbi__blinn_8x8 c2 m).

Definition ycc_row (out : list Z) (o : Z) : Res (list Z) :=
  y ← rd c 0; cb ← rd c 1; cr ← rd c 2; stbi__YCbCr_to_RGB_row out o y cb cr w n.

Definition colour_row (out : list Z) (o : Z) : Res (list Z) :=
  if img_n =? 3 then
    if is_rgb then
      for_range 0 w (λ i out,
        r ← px 0 i; g ← px 1 i; b ← px 2 i; wr4 out (o + i * n) r g b 255) out
    else ycc_row out o
  else if img_n =? 4 then
    if transform =? 0 then
      for_range 0 w (λ i out,
        '(r, g, b) ← cmyk_px i; wr4 out (o + i * n) r g b 255) out
    else if transform =? 2 then
      out ← ycc_row out o;
      for_range 0 w (λ i out,
        m ← px 3 i;
        let p := o + i * n in
        r ← rd out p; out ← wr out p (stbi__blinn_8x8 (255 - r) m);
        g ← rd out (p + 1); out ← wr out (p + 1) (stbi__blinn_8x8 (255 - g) m);
        b ← rd out (p + 2); wr out (p + 2) (stbi__blinn_8x8 (255 - b) m)) out
    else ycc_row out o
  else
    for_range 0 w (λ i out, y ← px 0 i; wr4 out (o + i * n) y y y 255) out.

(** One or two channels; with two the second is opaque. *)
Definition grey_row (out : list Z) (o : Z) : Res (list Z) :=
  if is_rgb then
    for_range 0 w (λ i out,
      r ← px 0 i; g ← px 1 i; b ← px 2 i;
      out ← wr out (o + i * n) (stbi__compute_y r g b);
      if n =? 1 then Ok out else wr out (o + i * n + 1) 255) out
  else if (img_n =? 4) && (transform =? 0) then
    for_range 0 w (λ i out,
      '(r, g, b) ← cmyk_px i;
      out ← wr out (o + i * n) (stbi__compute_y r g b);
      wr out (o + i * n + 1) 255) out
  else if (img_n =? 4) && (transform =? 2) then
    for_range 0 w (λ i out,
      y ← px 0 i; m ← px 3 i;
      out ← wr out (o + i * n) (stbi__blinn_8x8 (255 - y) m);
      wr out (o + i * n + 1) 255) out
  else
    for_range 0 w (λ i out,
      y ← px 0 i;
      out ← wr out (o + i * n) y;
      if n =? 1 then Ok out else wr out (o + i * n + 1) 255) out.
End convert.

(** The rows of the [decode_n] components, in order. *)
Definition next_rows (cs : list component) (decode_n : Z) (rs : list stbi__resample)
  : Res (list row * list stbi__resample) :=
  for_range 0 decode_n (λ k '(rows, rs),
    c ← rd cs k; r ← rd rs k;
    '(cout, r) ← next_row c r;
    rs ← wr rs k r;
    Ok (rows ++ [cout], rs)) ([], rs).

Definition load_jpeg_image (req_comp : Z) : Act stbi__jpeg Image :=
  modify (λ j, set_img_s (img_x (js j)) (img_y (js j)) 0 j);;
  fail_if ((req_comp <? 0) || (4 <? req_comp)) "bad req_comp";;
  stbi__decode_jpeg_image;;
  j ← get;
  let X := img_x (js j) in
  let Y := img_y (js j) in
  let N := img_n (js j) in
  let transform := app14_color_transform (jg j) in
  let n := if negb (req_comp =? 0) then req_comp else if 3 <=? N then 3 else 1 in
  let is_rgb := (N =? 3) && ((rgb (jg j) =? 3) || ((transform =? 0) && negb (jfif (jg j)))) in
  let decode_n := if (N =? 3) && (n <? 3) && negb is_rgb then 1 else N in
  fail_if (decode_n <=? 0) "";;
  rs ← a_for 0 decode_n (λ k rs, r ← start_resample k; mret (rs ++ [r])) [];
  output ← or_outofmem (stbi__malloc_mad3 n X Y 1);
  '(output, _) ← lift (for_range 0 Y (λ i '(out, rs),
    '(rows, rs) ← next_rows (img_comp j) decode_n rs;
    out ← (if 3 <=? n then colour_row n N transform X is_rgb rows
           else grey_row n N transform X is_rgb rows) out (u32 (u32 (n * X) * i));
    Ok (out, rs)) (output, rs));
  mret {| pixels := output; img_w := X; img_h := Y;
          StbBase.img_comp := if 3 <=? N then 3 else 1; img_bits := 8 |}.

(** ** The entry points of the format *)
Definition zero_component : component :=
  {| id := 0; h := 0; v := 0; tq := 0; hd := 0; ha := 0; dc_pred := 0; x := 0; y := 0;
     w2 := 0; h2 := 0; data := []; coeff := []; coeff_w := 0; coeff_h := 0 |}.

(** [memset(j, 0, sizeof(stbi__jpeg)); j->s = s;] *)
Definition zero_jpeg (s : stbi__context) : stbi__jpeg :=
  {| js := s;
     jt := {| huff_dc := replicate 4 zero_huffman; huff_ac := replicate 4 zero_huffman;
              dequant := replicate 4 (replicate 64 0); fast_ac := replicate 4 (replicate 512 0) |};
     jf := {| img_h_max := 0; img_v_max := 0; img_mcu_x := 0; img_mcu_y := 0; img_mcu_w := 0;
              img_mcu_h := 0 |};
     img_comp := replicate 4 zero_component;
     jb := {| code_buffer := 0; code_bits := 0; marker := 0; nomore := false |};
     jp := {| progressive := false; spec_start := 0; spec_end := 0; succ_high := 0; succ_low := 0;
              scan_n := 0; order := replicate 4 0; restart_interval := 0 |};
     jg := {| jfif := false; app14_color_transform := 0; rgb := 0 |};
     eob_run := 0; todo := 0 |}.

(** [sizeof(stbi__jpeg)] with 64-bit pointers. *)
Definition sizeof_jpeg : Z := 18568.

(** An action of a fresh decoder. *)
Definition with_jpeg {A} (m : Act stbi__jpeg A) : Act stbi__context A :=
  or_outofmem (Ok (stbi__malloc sizeof_jpeg));;
  zoom zero_jpeg (λ j _, js j) m.

Definition stbi__jpeg_load (req_comp : Z) : Act stbi__context Image :=
  with_jpeg (load_jpeg_image req_comp).

Definition stbi__jpeg_test : Act stbi__context bool :=
  r ← attempt (with_jpeg (
    r ← attempt (stbi__decode_jpeg_header SCAN_type);
    on_js stbi__rewind;;
    mret (match r with Val _ => true | Fail _ => false end)));
  mret (match r with Val b => b | Fail _ => false end).

Definition stbi__jpeg_info_raw : Act stbi__jpeg (Z * Z * Z) :=
  r ← attempt (stbi__decode_jpeg_header SCAN_header);
  match r with
  | Fail e => on_js stbi__rewind;; fail e
  | Val _ =>
      j ← get;
      mret (img_x (js j), img_y (js j), if 3 <=? img_n (js j) then 3 else 1)
  end.

Definition stbi__jpeg_info : Act stbi__context (Z * Z * Z) := with_jpeg stbi__jpeg_info_raw.
End jpeg.
