(* ===== verification/StbPsd.v ===== *)
(** * stb_image: the PSD decoder (facet/gpu/stb_image.h, lines 6081-6322 and 7358-7420)

    A part of the header that [facet_image.c] leaves out of its build.  The
    output has four channels whatever the file has; the planes are decoded one
    after the other into every fourth sample.  The sizes were checked against
    [INT_MAX], so the offsets are not reduced. *)
From S2P Require Import Prelude F32 StbMonad StbBase.

(** "8BPS" *)
Definition psd_signature : Z := 0x38425053.

Section psd.
Context `{Env : StbiEnv} (fuel : nat).

Definition stbi__psd_test : Act stbi__context bool :=
  id ← stbi__get32be; stbi__rewind;; mret (id =? psd_signature).

(** [*p = read(); p += 4;], [len] times; the position is an index of [out]. *)
Definition psd_samples (write : list Z → Z → Z → Res (list Z)) (read : Act stbi__context Z)
    (len : Z) (s : list Z * Z) : Act stbi__context (list Z * Z) :=
  a_for 0 len (λ _ '(out, p), v ← read; out ← lift (write out p v); mret (out, p + 4)) s.

(** One packet of a run-length coded plane. *)
Definition psd_packet (pixelCount : Z) (s : list Z * Z * Z)
  : Act stbi__context (ctl (list Z * Z * Z) Empty_set) :=
  let '(out, p, count) := s in
  let nleft := pixelCount - count in
  if negb (0 <? nleft) then mret (Break s) else
  len ← stbi__get8;
  if len =? 128 then mret (Next s)
  else if len <? 128 then
    let len := len + 1 in
    fail_if (nleft <? len) "corrupt";;
    '(out, p) ← psd_samples wr stbi__get8 len (out, p);
    mret (Next (out, p, count + len))
  else
    let len := 257 - len in
    fail_if (nleft <? len) "corrupt";;
    val ← stbi__get8;
    '(out, p) ← psd_samples wr (mret val) len (out, p);
    mret (Next (out, p, count + len)).

Definition stbi__psd_decode_rle (out : list Z) (p pixelCount : Z) : Act stbi__context (list Z) :=
  r ← a_loop fuel (psd_packet pixelCount) (out, p, 0);
  let '(out, _, _) := fell r in mret out.

Definition psd_plane (write : list Z → Z → Z → Res (list Z)) (read : Act stbi__context Z)
    (channel pixelCount : Z) (out : list Z) : Act stbi__context (list Z) :=
  '(out, _) ← psd_samples write read pixelCount (out, channel); mret out.

(** The default of a channel the file does not have. *)
Definition psd_fill (write : list Z → Z → Z → Res (list Z)) (full channel pixelCount : Z)
    (out : list Z) : Act stbi__context (list Z) :=
  psd_plane write (mret (if channel =? 3 then full else 0)) channel pixelCount out.

Definition psd_rle (channelCount pixelCount : Z) (out : list Z) : Act stbi__context (list Z) :=
  a_for 0 4 (λ channel out,
    if channelCount <=? channel then psd_fill wr 255 channel pixelCount out
    else stbi__psd_decode_rle out channel pixelCount) out.

(** [bits] is [ri->bits_per_channel]. *)
Definition psd_raw (channelCount bitdepth bpc bits pixelCount : Z) (out : list Z)
  : Act stbi__context (list Z) :=
  a_for 0 4 (λ channel out,
    if channelCount <=? channel then
      if (bitdepth =? 16) && (bpc =? 16) then psd_fill wr16 65535 channel pixelCount out
      else psd_fill wr 255 channel pixelCount out
    else if bits =? 16 then
      psd_plane wr16 stbi__get16be channel pixelCount out
    else if bitdepth =? 16 then
      psd_plane wr (v ← stbi__get16be; mret (u8 (Z.shiftr v 8))) channel pixelCount out
    else psd_plane wr stbi__get8 channel pixelCount out) out.

(** The white matte is taken out of the pixels that are partly transparent. *)
Definition psd_matte (read : list Z → Z → Res Z) (write : list Z → Z → Z → Res (list Z))
    (f2u : f32 → Res Z) (full pixelCount : Z) (out : list Z) : Res (list Z) :=
  for_range 0 pixelCount (λ i out,
    p3 ← read out (4 * i + 3);
    if negb (p3 =? 0) && negb (p3 =? full) then
      let a := fdiv (fz p3) (fz full) in
      let ra := fdiv (fz 1) a in
      let inv_a := fmul (fz full) (fsub (fz 1) ra) in
      for_range 0 3 (λ k out,
        v ← read out (4 * i + k);
        v ← f2u (fadd (fmul (fz v) ra) inv_a);
        write out (4 * i + k) v) out
    else Ok out) out.

Definition stbi__psd_load (req_comp bpc : Z) : Act stbi__context Image :=
  id ← stbi__get32be; fail_if (negb (id =? psd_signature)) "not PSD";;
  version ← stbi__get16be; fail_if (negb (version =? 1)) "wrong version";;
  stbi__skip 6;;
  channelCount ← stbi__get16be;
  fail_if ((channelCount <? 0) || (16 <? channelCount)) "wrong channel count";;
  h ← stbi__get32be; w ← stbi__get32be;
  let h := sx 32 h in let w := sx 32 w in
  fail_if (STBI_MAX_DIMENSIONS <? h) "too large";;
  fail_if (STBI_MAX_DIMENSIONS <? w) "too large";;
  bitdepth ← stbi__get16be;
  fail_if (negb (bitdepth =? 8) && negb (bitdepth =? 16)) "unsupported bit depth";;
  mode ← stbi__get16be; fail_if (negb (mode =? 3)) "wrong color format";;
  n ← stbi__get32be; stbi__skip (sx 32 n);;
  n ← stbi__get32be; stbi__skip (sx 32 n);;
  n ← stbi__get32be; stbi__skip (sx 32 n);;
  compression ← stbi__get16be; fail_if (1 <? compression) "bad compression";;
  ok ← lift (stbi__mad3sizes_valid 4 w h 0); fail_if (negb ok) "too large";;
  '(out, bits) ←
    (if (compression =? 0) && (bitdepth =? 16) && (bpc =? 16) then
       out ← or_outofmem (stbi__malloc_mad3 8 w h 0); mret (out, 16)
     else out ← or_outofmem (Ok (stbi__malloc (4 * w * h))); mret (out, 8));
  let pixelCount := w * h in
  out ← (if negb (compression =? 0) then
           stbi__skip (h * channelCount * 2);; psd_rle channelCount pixelCount out
         else psd_raw channelCount bitdepth bpc bits pixelCount out);
  out ← lift (if 4 <=? channelCount then
                if bits =? 16 then psd_matte rd16 wr16 f2u16 65535 pixelCount out
                else psd_matte rd wr f2u8 255 pixelCount out
              else Ok out);
  out ← (if negb (req_comp =? 0) && negb (req_comp =? 4) then
           if bits =? 16 then stbi__convert_format16 out 4 req_comp w h
           else stbi__convert_format out 4 req_comp w h
         else mret out);
  mret {| pixels := out; img_w := w; img_h := h; img_comp := 4; img_bits := bits |}.

(** The start of the header, up to the channels. *)
Definition psd_start : Act stbi__context unit :=
  id ← stbi__get32be; refuse_if (negb (id =? psd_signature));;
  version ← stbi__get16be; refuse_if (negb (version =? 1));;
  stbi__skip 6;;
  channelCount ← stbi__get16be;
  refuse_if ((channelCount <? 0) || (16 <? channelCount)).

Definition stbi__psd_info : Act stbi__context (Z * Z * Z) :=
  psd_start;;
  y ← stbi__get32be; x ← stbi__get32be;
  depth ← stbi__get16be; refuse_if (negb (depth =? 8) && negb (depth =? 16));;
  mode ← stbi__get16be; refuse_if (negb (mode =? 3));;
  mret (sx 32 x, sx 32 y, 4).

Definition stbi__psd_is16 : Act stbi__context bool :=
  psd_start;;
  stbi__get32be;; stbi__get32be;;
  depth ← stbi__get16be; refuse_if (negb (depth =? 16));;
  mret true.
End psd.
