(* ===== verification/StbTga.v ===== *)
(** * stb_image: the TGA decoder (facet/gpu/stb_image.h, lines 5736-6076)

    A part of the header that [facet_image.c] leaves out of its build, and the
    counterpart of the TGA writer.  Every size is a product that was checked
    against [INT_MAX] before the allocation, so the offsets are not reduced. *)
From S2P Require Import Prelude StbMonad StbBase.

(** The channels of a depth, 0 when there are none, and whether a pixel is 16
    bits of RGB. *)
Definition stbi__tga_get_comp (bits_per_pixel : Z) (is_grey : bool) : Z * bool :=
  if bits_per_pixel =? 8 then (1, false)
  else if (bits_per_pixel =? 16) && is_grey then (2, false)
  else if (bits_per_pixel =? 15) || (bits_per_pixel =? 16) then (3, true)
  else if (bits_per_pixel =? 24) || (bits_per_pixel =? 32) then (bits_per_pixel ÷ 8, false)
  else (0, false).

(** The depths of palette entries and pixels. *)
Definition tga_depth (sz : Z) : bool :=
  (sz =? 8) || (sz =? 15) || (sz =? 16) || (sz =? 24) || (sz =? 32).

Section tga.
Context `{Env : StbiEnv}.

(** Width, height and channels. *)
Definition stbi__tga_info : Act stbi__context (Z * Z * Z) :=
  stbi__get8;;
  tga_colormap_type ← stbi__get8;
  refuse_if (1 <? tga_colormap_type);;
  tga_image_type ← stbi__get8;
  tga_colormap_bpp ←
    (if tga_colormap_type =? 1 then
       refuse_if (negb (tga_image_type =? 1) && negb (tga_image_type =? 9));;
       stbi__skip 4;;
       sz ← stbi__get8;
       refuse_if (negb (tga_depth sz));;
       stbi__skip 4;;
       mret sz
     else
       refuse_if (negb (tga_image_type =? 2) && negb (tga_image_type =? 3)
                  && negb (tga_image_type =? 10) && negb (tga_image_type =? 11));;
       stbi__skip 9;;
       mret 0);
  tga_w ← stbi__get16le; refuse_if (tga_w <? 1);;
  tga_h ← stbi__get16le; refuse_if (tga_h <? 1);;
  tga_bits_per_pixel ← stbi__get8;
  stbi__get8;;
  tga_comp ←
    (if negb (tga_colormap_bpp =? 0) then
       refuse_if (negb (tga_bits_per_pixel =? 8) && negb (tga_bits_per_pixel =? 16));;
       mret (stbi__tga_get_comp tga_colormap_bpp false).1
     else
       mret (stbi__tga_get_comp tga_bits_per_pixel ((tga_image_type =? 3) || (tga_image_type =? 11))).1);
  refuse_if (tga_comp =? 0);;
  mret (tga_w, tga_h, tga_comp).

(** [goto errorEnd] leaves with 0; the context is rewound either way. *)
Definition tga_test_body : Act stbi__context unit :=
  stbi__get8;;
  tga_color_type ← stbi__get8;
  fail_if (1 <? tga_color_type) "";;
  sz ← stbi__get8;
  (if tga_color_type =? 1 then
     fail_if (negb (sz =? 1) && negb (sz =? 9)) "";;
     stbi__skip 4;;
     sz ← stbi__get8;
     fail_if (negb (tga_depth sz)) "";;
     stbi__skip 4
   else
     fail_if (negb (sz =? 2) && negb (sz =? 3) && negb (sz =? 10) && negb (sz =? 11)) "";;
     stbi__skip 9);;
  w ← stbi__get16le; fail_if (w <? 1) "";;
  h ← stbi__get16le; fail_if (h <? 1) "";;
  sz ← stbi__get8;
  fail_if ((tga_color_type =? 1) && negb (sz =? 8) && negb (sz =? 16)) "";;
  fail_if (negb (tga_depth sz)) "".

Definition stbi__tga_test : Act stbi__context bool :=
  r ← attempt tga_test_body;
  stbi__rewind;;
  mret (match r with Val _ => true | Fail _ => false end).

(** A 15- or 16-bit pixel, in the order red, green, blue. *)
Definition stbi__tga_read_rgb16 : Act stbi__context (list Z) :=
  px ← stbi__get16le;
  let r := Z.land (Z.shiftr px 10) 31 in
  let g := Z.land (Z.shiftr px 5) 31 in
  let b := Z.land px 31 in
  mret [u8 ((r * 255) ÷ 31); u8 ((g * 255) ÷ 31); u8 ((b * 255) ÷ 31)].

(** The header. *)
Record tga_head := {
  tga_offset : Z; tga_indexed : bool; tga_image_type : Z; tga_is_RLE : bool;
  tga_palette_start : Z; tga_palette_len : Z; tga_palette_bits : Z;
  tga_width : Z; tga_height : Z; tga_bits_per_pixel : Z; tga_inverted : bool
}.

Definition tga_header : Act stbi__context tga_head :=
  offset ← stbi__get8; indexed ← stbi__get8; image_type ← stbi__get8;
  palette_start ← stbi__get16le; palette_len ← stbi__get16le; palette_bits ← stbi__get8;
  stbi__get16le;; stbi__get16le;;
  width ← stbi__get16le; height ← stbi__get16le;
  bits_per_pixel ← stbi__get8; inverted ← stbi__get8;
  let rle := 8 <=? image_type in
  mret {| tga_offset := offset; tga_indexed := negb (indexed =? 0);
          tga_image_type := if rle then image_type - 8 else image_type; tga_is_RLE := rle;
          tga_palette_start := palette_start; tga_palette_len := palette_len;
          tga_palette_bits := palette_bits; tga_width := width; tga_height := height;
          tga_bits_per_pixel := bits_per_pixel;
          tga_inverted := negb (1 - Z.land (Z.shiftr inverted 5) 1 =? 0) |}.

Section load.
Context (h : tga_head) (tga_comp : Z) (tga_rgb16 : bool).

(** Rows of raw bytes; the result of the read is not looked at. *)
Definition tga_raw (data : list Z) : Act stbi__context (list Z) :=
  a_for 0 (tga_height h) (λ i data,
    let row := if tga_inverted h then tga_height h - i - 1 else i in
    '(data, _) ← stbi__getn data (row * tga_width h * tga_comp) (tga_width h * tga_comp);
    mret data) data.

Definition tga_palette : Act stbi__context (list Z) :=
  fail_if (tga_palette_len h =? 0) "bad palette";;
  stbi__skip (tga_palette_start h);;
  pal ← or_outofmem (stbi__malloc_mad2 (tga_palette_len h) tga_comp 0);
  if tga_rgb16 then
    if negb (tga_comp =? 3) then lift Undef else
    a_for 0 (tga_palette_len h) (λ i pal,
      px ← stbi__tga_read_rgb16; lift (wr_samples wr pal (i * tga_comp) px)) pal
  else
    '(pal, ok) ← stbi__getn pal 0 (tga_palette_len h * tga_comp);
    fail_if (negb ok) "bad palette";;
    mret pal.

(** [raw_data] with the next pixel in its first bytes. *)
Definition tga_pixel (palette raw_data : list Z) : Act stbi__context (list Z) :=
  if tga_indexed h then
    pal_idx ← (if tga_bits_per_pixel h =? 8 then stbi__get8 else stbi__get16le);
    let pal_idx := if tga_palette_len h <=? pal_idx then 0 else pal_idx in
    px ← lift (rd_samples rd palette (pal_idx * tga_comp) tga_comp);
    lift (wr_samples wr raw_data 0 px)
  else if tga_rgb16 then
    if negb (tga_comp =? 3) then lift Undef else
    px ← stbi__tga_read_rgb16; lift (wr_samples wr raw_data 0 px)
  else a_for 0 tga_comp (λ j raw_data, b ← stbi__get8; lift (wr raw_data j b)) raw_data.

(** The state of the pixel loop. *)
Record tga_run := { raw_data : list Z; RLE_count : Z; RLE_repeating : bool; read_next_pixel : bool }.

(** A run-length packet is opened when none is left. *)
Definition tga_command (r : tga_run) : Act stbi__context tga_run :=
  if tga_is_RLE h then
    if RLE_count r =? 0 then
      cmd ← stbi__get8;
      mret {| raw_data := raw_data r; RLE_count := 1 + Z.land cmd 127;
              RLE_repeating := negb (Z.shiftr cmd 7 =? 0); read_next_pixel := true |}
    else mret {| raw_data := raw_data r; RLE_count := RLE_count r; RLE_repeating := RLE_repeating r;
                 read_next_pixel := if negb (RLE_repeating r) then true else read_next_pixel r |}
  else mret {| raw_data := raw_data r; RLE_count := RLE_count r; RLE_repeating := RLE_repeating r;
               read_next_pixel := true |}.

Definition tga_step (palette : list Z) (i : Z) (s : list Z * tga_run) : Act stbi__context (list Z * tga_run) :=
  let '(data, r) := s in
  r ← tga_command r;
  raw ← (if read_next_pixel r then tga_pixel palette (raw_data r) else mret (raw_data r));
  px ← lift (rd_samples rd raw 0 tga_comp);
  data ← lift (wr_samples wr data (i * tga_comp) px);
  mret (data, {| raw_data := raw; RLE_count := RLE_count r - 1; RLE_repeating := RLE_repeating r;
                 read_next_pixel := false |}).

Definition tga_pixels (palette data : list Z) : Act stbi__context (list Z) :=
  '(data, _) ← a_for 0 (tga_width h * tga_height h) (tga_step palette)
    (data, {| raw_data := replicate 4 0; RLE_count := 0; RLE_repeating := false; read_next_pixel := true |});
  mret data.

(** [l[a]] and [l[b]] exchanged. *)
Definition swap (a b : Z) (l : list Z) : Res (list Z) :=
  x ← rd l a; y ← rd l b; l ← wr l a y; wr l b x.

Definition tga_invert (data : list Z) : Res (list Z) :=
  let n := tga_width h * tga_comp in
  for_range 0 ((tga_height h + 1) / 2) (λ j data,
    for_range 0 n (λ i data, swap (j * n + i) ((tga_height h - 1 - j) * n + i) data) data) data.

Definition tga_swap_rgb (data : list Z) : Res (list Z) :=
  for_range 0 (tga_width h * tga_height h) (λ i data, swap (i * tga_comp) (i * tga_comp + 2) data) data.
End load.

Definition stbi__tga_load (req_comp : Z) : Act stbi__context Image :=
  h ← tga_header;
  fail_if (STBI_MAX_DIMENSIONS <? tga_height h) "too large";;
  fail_if (STBI_MAX_DIMENSIONS <? tga_width h) "too large";;
  let '(tga_comp, tga_rgb16) :=
    if tga_indexed h then stbi__tga_get_comp (tga_palette_bits h) false
    else stbi__tga_get_comp (tga_bits_per_pixel h) (tga_image_type h =? 3) in
  fail_if (tga_comp =? 0) "bad format";;
  ok ← lift (stbi__mad3sizes_valid (tga_width h) (tga_height h) tga_comp 0);
  fail_if (negb ok) "too large";;
  data ← or_outofmem (stbi__malloc_mad3 (tga_width h) (tga_height h) tga_comp 0);
  stbi__skip (tga_offset h);;
  data ← (if negb (tga_indexed h) && negb (tga_is_RLE h) && negb tga_rgb16 then tga_raw h tga_comp data
          else
            palette ← (if tga_indexed h then tga_palette h tga_comp tga_rgb16 else mret []);
            data ← tga_pixels h tga_comp tga_rgb16 palette data;
            lift (if tga_inverted h then tga_invert h tga_comp data else Ok data));
  data ← lift (if (3 <=? tga_comp) && negb tga_rgb16 then tga_swap_rgb h tga_comp data else Ok data);
  data ← (if negb (req_comp =? 0) && negb (req_comp =? tga_comp)
          then stbi__convert_format data tga_comp req_comp (tga_width h) (tga_height h) else mret data);
  mret {| pixels := data; img_w := tga_width h; img_h := tga_height h; img_comp := tga_comp; img_bits := 8 |}.
End tga.
