(* ===== verification/StbPic.v ===== *)
(** * stb_image: the Softimage PIC decoder (facet/gpu/stb_image.h, lines 6335-6547 and 7423-7479)

    A part of the header that [facet_image.c] leaves out of its build.  A row
    is coded packet by packet; a packet carries some of the four channels of
    every pixel of the row. *)
From S2P Require Import Prelude StbMonad StbBase.

Record pic_packet := { size : Z; type : Z; channel : Z }.

(** ["\x53\x80\xF6\x34"] and ["PICT"] *)
Definition pic_magic : list Z := [0x53; 0x80; 0xF6; 0x34].
Definition pic_id : list Z := [80; 73; 67; 84].

(** [channel & mask] for the mask of sample [i]. *)
Definition has_channel (channel i : Z) : bool := negb (Z.land channel (Z.shiftr 0x80 i) =? 0).

Section pic.
Context `{Env : StbiEnv} (fuel : nat).

Definition stbi__pic_is4 (str : list Z) : Act stbi__context bool :=
  r ← a_for_ctl 0 4 (λ i _,
    b ← stbi__get8; c ← lift (rd str i);
    mret (if negb (b =? c) then Return () else Next ())) ();
  mret (match r with Fell _ => true | Gave _ => false end).

Definition discard8 (n : Z) : Act stbi__context unit :=
  a_for 0 n (λ _ _, stbi__get8;; mret ()) ().

Definition stbi__pic_test_core : Act stbi__context bool :=
  magic ← stbi__pic_is4 pic_magic;
  if negb magic then mret false else
  discard8 84;;
  stbi__pic_is4 pic_id.

Definition stbi__pic_test : Act stbi__context bool :=
  r ← stbi__pic_test_core; stbi__rewind;; mret r.

(** The samples of a pixel the packet carries, at [dest + off]. *)
Definition stbi__readval (channel : Z) (dest : list Z) (off : Z) : Act stbi__context (list Z) :=
  a_for 0 4 (λ i dest,
    if has_channel channel i then
      eof ← stbi__at_eof;
      fail_if eof "bad file";;
      b ← stbi__get8; lift (wr dest (off + i) b)
    else mret dest) dest.

Definition stbi__copyval (channel : Z) (dest : list Z) (off : Z) (src : list Z) : Res (list Z) :=
  for_range 0 4 (λ i dest,
    if has_channel channel i then v ← rd src i; wr dest (off + i) v else Ok dest) dest.

Definition copyvals (channel n : Z) (value : list Z) (dest : list Z) (off : Z) : Res (list Z) :=
  for_range 0 n (λ i dest, stbi__copyval channel dest (off + 4 * i) value) dest.

Definition readvals (channel n : Z) (dest : list Z) (off : Z) : Act stbi__context (list Z) :=
  a_for 0 n (λ i dest, stbi__readval channel dest (off + 4 * i)) dest.

(** One run of a purely run-length coded row: the output, [dest] and what is left. *)
Definition pic_pure_run (channel : Z) (s : list Z * Z * Z)
  : Act stbi__context (ctl (list Z * Z * Z) Empty_set) :=
  let '(result, dest, nleft) := s in
  if negb (0 <? nleft) then mret (Break s) else
  count ← stbi__get8;
  eof ← stbi__at_eof;
  fail_if eof "bad file";;
  let count := if nleft <? count then u8 nleft else count in
  value ← stbi__readval channel (malloc_arr uninit 4) 0;
  result ← lift (copyvals channel count value result dest);
  mret (Next (result, dest + 4 * count, nleft - count)).

(** One run or stretch of a mixed row. *)
Definition pic_mixed_run (channel : Z) (s : list Z * Z * Z)
  : Act stbi__context (ctl (list Z * Z * Z) Empty_set) :=
  let '(result, dest, nleft) := s in
  if negb (0 <? nleft) then mret (Break s) else
  count ← stbi__get8;
  eof ← stbi__at_eof;
  fail_if eof "bad file";;
  if 128 <=? count then
    count ← (if count =? 128 then stbi__get16be else mret (count - 127));
    fail_if (nleft <? count) "bad file";;
    value ← stbi__readval channel (malloc_arr uninit 4) 0;
    result ← lift (copyvals channel count value result dest);
    mret (Next (result, dest + 4 * count, nleft - count))
  else
    let count := count + 1 in
    fail_if (nleft <? count) "bad file";;
    result ← readvals channel count result dest;
    mret (Next (result, dest + 4 * count, nleft - count)).

(** The row of a packet. *)
Definition pic_row (packet : pic_packet) (width dest : Z) (result : list Z)
  : Act stbi__context (list Z) :=
  if type packet =? 0 then readvals (channel packet) width result dest
  else if type packet =? 1 then
    r ← a_loop fuel (pic_pure_run (channel packet)) (result, dest, width);
    let '(result, _, _) := fell r in mret result
  else if type packet =? 2 then
    r ← a_loop fuel (pic_mixed_run (channel packet)) (result, dest, width);
    let '(result, _, _) := fell r in mret result
  else fail "bad format".

Definition read_packet : Act stbi__context (Z * pic_packet) :=
  chained ← stbi__get8; sz ← stbi__get8; ty ← stbi__get8; ch ← stbi__get8;
  mret (chained, {| size := sz; type := ty; channel := ch |}).

(** The packets and [act_comp]; eleven passes are enough, because there are at
    most ten packets. *)
Definition pic_packets : Act stbi__context (list pic_packet * Z) :=
  r ← a_loop 11 (λ '(packets, act_comp),
    fail_if (zlen packets =? 10) "bad format";;
    '(chained, packet) ← read_packet;
    let s := (packets ++ [packet], Z.lor act_comp (channel packet)) in
    eof ← stbi__at_eof;
    fail_if eof "bad file";;
    fail_if (negb (size packet =? 8)) "bad format";;
    mret (if chained =? 0 then Break s else Next s)) ([], 0);
  mret (fell r).

(** [*comp] is set when the packets have been read, and keeps its value [comp0]
    when they have not; the pixels are [NULL] when the decoding fails. *)
Definition stbi__pic_load_core (width height comp0 : Z) (result : list Z)
  : Act stbi__context (Z * outcome (list Z)) :=
  p ← attempt pic_packets;
  match p with
  | Fail e => mret (comp0, Fail e)
  | Val (packets, act_comp) =>
      r ← attempt (a_for 0 height (λ y result,
        a_for 0 (zlen packets) (λ i result,
          packet ← lift (match packets !! Z.to_nat i with Some p => Ok p | None => Undef end);
          pic_row packet width (y * width * 4) result) result) result);
      mret (if Z.land act_comp 0x10 =? 0 then 3 else 4, r)
  end.

(** The conversion runs on [NULL] when the decoding failed: a conversion from
    four channels to four returns it, any other reads it, unless the image is
    empty.  [comp0] is [*comp] before the call. *)
Definition stbi__pic_load (comp0 req_comp : Z) : Act stbi__context Image :=
  discard8 92;;
  x ← stbi__get16be; y ← stbi__get16be;
  fail_if (STBI_MAX_DIMENSIONS <? y) "too large";;
  fail_if (STBI_MAX_DIMENSIONS <? x) "too large";;
  eof ← stbi__at_eof; fail_if eof "bad file";;
  ok ← lift (stbi__mad3sizes_valid x y 4 0); fail_if (negb ok) "too large";;
  stbi__get32be;; stbi__get16be;; stbi__get16be;;
  result ← or_outofmem (stbi__malloc_mad3 x y 4 0);
  result ← lift (memset result 0 0xff (x * y * 4));
  '(comp, r) ← stbi__pic_load_core x y comp0 result;
  let req_comp := if req_comp =? 0 then comp else req_comp in
  result ← (match r with
            | Val result => stbi__convert_format result 4 req_comp x y
            | Fail e => if req_comp =? 4 then fail e else stbi__convert_format [] 4 req_comp x y
            end);
  mret {| pixels := result; img_w := x; img_h := y; img_comp := comp; img_bits := 8 |}.

(** A file with too many packets is not rewound. *)
Definition stbi__pic_info : Act stbi__context (Z * Z * Z) :=
  magic ← stbi__pic_is4 pic_magic; refuse_if (negb magic);;
  stbi__skip 88;;
  x ← stbi__get16be; y ← stbi__get16be;
  eof ← stbi__at_eof; refuse_if eof;;
  refuse_if (negb (x =? 0) && (2 ^ 28 ÷ x <? y));;
  stbi__skip 8;;
  r ← a_loop 11 (λ '(num_packets, act_comp),
    fail_if (num_packets =? 10) "";;
    '(chained, packet) ← read_packet;
    let s := (num_packets + 1, Z.lor act_comp (channel packet)) in
    eof ← stbi__at_eof;
    refuse_if eof;;
    refuse_if (negb (size packet =? 8));;
    mret (if chained =? 0 then Break s else Next s)) (0, 0);
  let '(_, act_comp) := fell r in
  mret (x, y, if Z.land act_comp 0x10 =? 0 then 3 else 4).
End pic.
