(* ===== verification/StbGif.v ===== *)
(** * stb_image: the GIF decoder (facet/gpu/stb_image.h, lines 6552-7081)

    A part of the header that [facet_image.c] leaves out of its build.  An
    action has the context, the [stbi__gif] and [*comp] as its state, because
    [stbi__load_gif_main] uses the structure after a frame has failed.
    [stbi__gif] is cut in three: what describes the file and its frames, the
    place the next pixel goes to, and the table of the codes.  [fuel] bounds
    the loops that end with the input. *)
From S2P Require Import Prelude StbMonad StbBase.

Record stbi__gif_lzw := { prefix : Z; first : Z; suffix : Z }.
#[export] Instance stbi__gif_lzw_inhabited : Inhabited stbi__gif_lzw :=
  populate {| prefix := 0; first := 0; suffix := 0 |}.

(** The table [color_table] points to. *)
Inductive table := NoTable | Global | Local.

(** [start_x], [start_y], [max_x], [max_y], [cur_x], [cur_y], [line_size],
    [parse] and [step]. *)
Record gif_cursor := {
  start_x : Z; start_y : Z; max_x : Z; max_y : Z; cur_x : Z; cur_y : Z; line_size : Z;
  parse : Z; step : Z
}.

(** [pal] and [lpal] are flat, entry [i]'s component [c] at [4 * i + c]. *)
Record stbi__gif := {
  w : Z; h : Z; out : option (list Z); background : list Z; history : list Z;
  flags : Z; bgindex : Z; ratio : Z; transparent : Z; eflags : Z; delay : Z; lflags : Z;
  pal : list Z; lpal : list Z; color_table : table;
  cursor : gif_cursor; codes : list stbi__gif_lzw
}.

(** [memset(&g, 0, sizeof(g))] *)
Definition gif_zero : stbi__gif := {|
  w := 0; h := 0; out := None; background := []; history := [];
  flags := 0; bgindex := 0; ratio := 0; transparent := 0; eflags := 0; delay := 0; lflags := 0;
  pal := replicate 1024 0; lpal := replicate 1024 0; color_table := NoTable;
  cursor := {| start_x := 0; start_y := 0; max_x := 0; max_y := 0; cur_x := 0; cur_y := 0;
               line_size := 0; parse := 0; step := 0 |};
  codes := replicate 8192 {| prefix := 0; first := 0; suffix := 0 |}
|}.

(** ** Updates *)
Definition set_screen (x y f b r : Z) (g : stbi__gif) : stbi__gif := {|
  w := x; h := y; out := out g; background := background g; history := history g;
  flags := f; bgindex := b; ratio := r; transparent := -1; eflags := eflags g; delay := delay g;
  lflags := lflags g; pal := pal g; lpal := lpal g; color_table := color_table g;
  cursor := cursor g; codes := codes g
|}.
Definition set_buffers (o : option (list Z)) (b hist : list Z) (g : stbi__gif) : stbi__gif := {|
  w := w g; h := h g; out := o; background := b; history := hist;
  flags := flags g; bgindex := bgindex g; ratio := ratio g; transparent := transparent g;
  eflags := eflags g; delay := delay g; lflags := lflags g; pal := pal g; lpal := lpal g;
  color_table := color_table g; cursor := cursor g; codes := codes g
|}.
Definition set_control (t e d : Z) (g : stbi__gif) : stbi__gif := {|
  w := w g; h := h g; out := out g; background := background g; history := history g;
  flags := flags g; bgindex := bgindex g; ratio := ratio g; transparent := t;
  eflags := e; delay := d; lflags := lflags g; pal := pal g; lpal := lpal g;
  color_table := color_table g; cursor := cursor g; codes := codes g
|}.
Definition set_tables (p l : list Z) (t : table) (g : stbi__gif) : stbi__gif := {|
  w := w g; h := h g; out := out g; background := background g; history := history g;
  flags := flags g; bgindex := bgindex g; ratio := ratio g; transparent := transparent g;
  eflags := eflags g; delay := delay g; lflags := lflags g; pal := p; lpal := l;
  color_table := t; cursor := cursor g; codes := codes g
|}.
Definition set_frame (lf : Z) (c : gif_cursor) (g : stbi__gif) : stbi__gif := {|
  w := w g; h := h g; out := out g; background := background g; history := history g;
  flags := flags g; bgindex := bgindex g; ratio := ratio g; transparent := transparent g;
  eflags := eflags g; delay := delay g; lflags := lf; pal := pal g; lpal := lpal g;
  color_table := color_table g; cursor := c; codes := codes g
|}.
Definition set_codes (cs : list stbi__gif_lzw) (g : stbi__gif) : stbi__gif := {|
  w := w g; h := h g; out := out g; background := background g; history := history g;
  flags := flags g; bgindex := bgindex g; ratio := ratio g; transparent := transparent g;
  eflags := eflags g; delay := delay g; lflags := lflags g; pal := pal g; lpal := lpal g;
  color_table := color_table g; cursor := cursor g; codes := cs
|}.
Definition set_cur (x y p st : Z) (c : gif_cursor) : gif_cursor := {|
  start_x := start_x c; start_y := start_y c; max_x := max_x c; max_y := max_y c;
  cur_x := x; cur_y := y; line_size := line_size c; parse := p; step := st
|}.

(** [g->color_table[i]] *)
Definition color (g : stbi__gif) (i : Z) : Res Z :=
  match color_table g with
  | Global => rd (pal g) i
  | Local => rd (lpal g) i
  | NoTable => Undef
  end.

(** ** Pixels *)

(** The next pass of an interlaced image. *)
Definition next_pass (c : gif_cursor) : Res (ctl gif_cursor Empty_set) :=
  if (max_y c <=? cur_y c) && (0 <? parse c) then
    step ← i32 (Z.shiftl 1 (parse c) * line_size c);
    y ← i32 (start_y c + Z.shiftr step 1);
    Ok (Next (set_cur (cur_x c) y (parse c - 1) step c))
  else Ok (Break c).

(** [g->cur_x += 4;] and what follows it. *)
Definition advance (c : gif_cursor) : Res gif_cursor :=
  x ← i32 (cur_x c + 4);
  if max_x c <=? x then
    y ← i32 (cur_y c + step c);
    fell <$> loop (S (Z.to_nat (parse c))) next_pass (set_cur (start_x c) y (parse c) (step c) c)
  else Ok (set_cur x (cur_y c) (parse c) (step c) c).

(** The pixel of one code, without those of its prefix. *)
Definition out_pixel (e : stbi__gif_lzw) (g : stbi__gif) : Res stbi__gif :=
  let c := cursor g in
  if max_y c <=? cur_y c then Ok g else
  idx ← i32 (cur_x c + cur_y c);
  hist ← wr (history g) (idx ÷ 4) 1;
  match out g with
  | None => Undef
  | Some o =>
      let at4 k := color g (suffix e * 4 + k) in
      c3 ← at4 3;
      o ← (if 128 <? c3 then
             c2 ← at4 2; c1 ← at4 1; c0 ← at4 0; wr_samples wr o idx [c2; c1; c0; c3]
           else Ok o);
      c ← advance c;
      Ok (set_frame (lflags g) c (set_buffers (Some o) (background g) hist g))
  end.

(** The recursion follows the prefixes; [fuel] bounds their number. *)
Fixpoint stbi__out_gif_code (fuel : nat) (code : Z) (g : stbi__gif) : Res stbi__gif :=
  match fuel with
  | O => NoFuel
  | S fuel =>
      e ← rd (codes g) code;
      g ← (if 0 <=? prefix e then stbi__out_gif_code fuel (prefix e) g else Ok g);
      out_pixel e g
  end.

Section gif.
Context `{Env : StbiEnv} (fuel : nat).

Definition gif_state : Type := stbi__context * stbi__gif * Z.

(** An action on the context, and access to the rest. *)
Definition on_context {A} (m : Act stbi__context A) : Act gif_state A :=
  zoom (λ t, t.1.1) (λ s t, (s, t.1.2, t.2)) m.
Definition get_gif : Act gif_state stbi__gif := gets (λ t, t.1.2).
Definition set_gif (g : stbi__gif) : Act gif_state unit := modify (λ t, (t.1.1, g, t.2)).
Definition set_comp (c : Z) : Act gif_state unit := modify (λ t, (t.1, c)).

Definition stbi__gif_test_raw : Act stbi__context bool :=
  r ← attempt (
    b ← stbi__get8; fail_if (negb (b =? 71)) "";;
    b ← stbi__get8; fail_if (negb (b =? 73)) "";;
    b ← stbi__get8; fail_if (negb (b =? 70)) "";;
    b ← stbi__get8; fail_if (negb (b =? 56)) "";;
    sz ← stbi__get8; fail_if (negb (sz =? 57) && negb (sz =? 55)) "";;
    b ← stbi__get8; fail_if (negb (b =? 97)) "");
  mret (match r with Val _ => true | Fail _ => false end).

Definition stbi__gif_test : Act stbi__context bool :=
  r ← stbi__gif_test_raw; stbi__rewind;; mret r.

Definition stbi__gif_parse_colortable (pal : list Z) (num_entries transp : Z)
  : Act stbi__context (list Z) :=
  a_for 0 num_entries (λ i pal,
    b ← stbi__get8; pal ← lift (wr pal (4 * i + 2) b);
    b ← stbi__get8; pal ← lift (wr pal (4 * i + 1) b);
    b ← stbi__get8; pal ← lift (wr pal (4 * i) b);
    lift (wr pal (4 * i + 3) (if transp =? i then 0 else 255))) pal.

Definition stbi__gif_header (is_info : bool) : Act gif_state unit :=
  b ← on_context stbi__get8; fail_if (negb (b =? 71)) "not GIF";;
  b ← on_context stbi__get8; fail_if (negb (b =? 73)) "not GIF";;
  b ← on_context stbi__get8; fail_if (negb (b =? 70)) "not GIF";;
  b ← on_context stbi__get8; fail_if (negb (b =? 56)) "not GIF";;
  version ← on_context stbi__get8;
  fail_if (negb (version =? 55) && negb (version =? 57)) "not GIF";;
  b ← on_context stbi__get8; fail_if (negb (b =? 97)) "not GIF";;
  x ← on_context stbi__get16le; y ← on_context stbi__get16le;
  f ← on_context stbi__get8; b ← on_context stbi__get8; r ← on_context stbi__get8;
  g ← get_gif;
  set_gif (set_screen x y f b r g);;
  fail_if (STBI_MAX_DIMENSIONS <? x) "too large";;
  fail_if (STBI_MAX_DIMENSIONS <? y) "too large";;
  set_comp 4;;
  if is_info then mret () else
  if negb (Z.land f 0x80 =? 0) then
    g ← get_gif;
    pal ← on_context (stbi__gif_parse_colortable (pal g) (Z.shiftl 2 (Z.land f 7)) (-1));
    set_gif (set_tables pal (lpal g) (color_table g) g)
  else mret ().

(** The structure is on the heap and not cleared. *)
Definition stbi__gif_info_raw : Act stbi__context (Z * Z * Z) := λ s,
  match stbi__malloc 34928 with
  | None => Ok (Fail "outofmem", s)
  | Some _ =>
      match stbi__gif_header true (s, gif_zero, 0) with
      | Ok (Val _, (s, g, comp)) => Ok (Val (w g, h g, comp), s)
      | Ok (Fail e, (s, _, _)) => (stbi__rewind;; fail e) s
      | Undef => Undef
      | NoFuel => NoFuel
      end
  end.

Definition stbi__gif_info : Act stbi__context (Z * Z * Z) := stbi__gif_info_raw.

(** ** The LZW codes of a frame *)
Record raster := {
  rlen : Z; rfirst : bool; codesize : Z; codemask : Z; avail : Z; oldcode : Z;
  rbits : Z; valid_bits : Z
}.

Definition set_bits (len bits valid : Z) (r : raster) : raster := {|
  rlen := len; rfirst := rfirst r; codesize := codesize r; codemask := codemask r;
  avail := avail r; oldcode := oldcode r; rbits := bits; valid_bits := valid
|}.

(** Another byte of the data; a block of length 0 ends them. *)
Definition raster_fill (r : raster) : Act gif_state (ctl raster unit) :=
  len ← (if rlen r =? 0 then on_context stbi__get8 else mret (rlen r));
  if (rlen r =? 0) && (len =? 0) then mret (Return ()) else
  b ← on_context stbi__get8;
  b ← lift (i32 (Z.shiftl b (valid_bits r)));
  mret (Next (set_bits (len - 1) (Z.lor (rbits r) b) (valid_bits r + 8) r)).

(** [while ((len = stbi__get8(s)) > 0) stbi__skip(s, len);] *)
Definition skip_blocks : Act gif_state unit :=
  r ← a_loop fuel (λ _,
    len ← on_context stbi__get8;
    if len =? 0 then mret (Break ()) else on_context (stbi__skip len);; mret (Next ())) ();
  mret (fell r).

(** A code that is not one of the two special ones. *)
Definition raster_code (code : Z) (r : raster) : Act gif_state raster :=
  fail_if (rfirst r) "no clear code";;
  avail' ← (if 0 <=? oldcode r then
      let p := avail r in
      let avail := avail r + 1 in
      fail_if (8192 <? avail) "too many codes";;
      g ← get_gif;
      old ← lift (rd (codes g) (oldcode r));
      own ← lift (rd (codes g) p);
      let own := {| prefix := oldcode r; first := first old; suffix := suffix own |} in
      codes' ← lift (wr (codes g) p own);
      s ← lift (if code =? avail then Ok (first own) else e ← rd codes' code; Ok (first e));
      codes' ← lift (wr codes' p {| prefix := prefix own; first := first own; suffix := s |});
      set_gif (set_codes codes' g);;
      mret avail
    else
      fail_if (code =? avail r) "illegal code in raster";;
      mret (avail r));
  g ← get_gif;
  g ← lift (stbi__out_gif_code (Z.to_nat 8193) code g);
  set_gif g;;
  let grow := (Z.land avail' (codemask r) =? 0) && (avail' <=? 0x0FFF) in
  let cs := if grow then codesize r + 1 else codesize r in
  mret {| rlen := rlen r; rfirst := rfirst r; codesize := cs;
          codemask := if grow then Z.shiftl 1 cs - 1 else codemask r;
          avail := avail'; oldcode := code; rbits := rbits r; valid_bits := valid_bits r |}.

Definition raster_step (lzw_cs : Z) (r : raster) : Act gif_state (ctl raster unit) :=
  let clear := Z.shiftl 1 lzw_cs in
  if valid_bits r <? codesize r then raster_fill r else
  let code := Z.land (rbits r) (codemask r) in
  let r := set_bits (rlen r) (Z.shiftr (rbits r) (codesize r)) (valid_bits r - codesize r) r in
  if code =? clear then
    let cs := lzw_cs + 1 in
    mret (Next {| rlen := rlen r; rfirst := false; codesize := cs; codemask := Z.shiftl 1 cs - 1;
                  avail := clear + 2; oldcode := -1; rbits := rbits r;
                  valid_bits := valid_bits r |})
  else if code =? clear + 1 then
    on_context (stbi__skip (rlen r));; skip_blocks;; mret (Return ())
  else if code <=? avail r then
    r ← raster_code code r; mret (Next r)
  else fail "illegal code in raster".

(** The codes of single values. *)
Definition initial_codes (clear : Z) (cs : list stbi__gif_lzw) : Res (list stbi__gif_lzw) :=
  for_range 0 clear (λ i cs, wr cs i {| prefix := -1; first := u8 i; suffix := u8 i |}) cs.

(** The result is [g->out] when the call returns, whatever the exit. *)
Definition stbi__process_gif_raster : Act gif_state unit :=
  lzw_cs ← on_context stbi__get8;
  fail_if (12 <? lzw_cs) "";;
  let clear := Z.shiftl 1 lzw_cs in
  let codesize := lzw_cs + 1 in
  g ← get_gif;
  cs ← lift (initial_codes clear (codes g));
  set_gif (set_codes cs g);;
  a_loop fuel (raster_step lzw_cs)
    {| rlen := 0; rfirst := true; codesize := codesize; codemask := Z.shiftl 1 codesize - 1;
       avail := clear + 2; oldcode := -1; rbits := 0; valid_bits := 0 |};;
  mret ().

(** ** A frame *)

(** [if (keep(history[pi])) memcpy(&out[pi * 4], &src[off + pi * 4], 4);] for
    every pixel.  A source is a buffer and a position of it. *)
Definition restore_pixels (hist : list Z) (src : list Z) (off pcount : Z) (o : list Z)
  : Res (list Z) :=
  for_range 0 pcount (λ pi o,
    v ← rd hist pi;
    if negb (v =? 0) then memcpy o (pi * 4) src (off + pi * 4) 4 else Ok o) o.

(** The first frame allocates the buffers. *)
Definition gif_start : Act gif_state unit :=
  stbi__gif_header false;;
  g ← get_gif;
  ok ← lift (stbi__mad3sizes_valid 4 (w g) (h g) 0);
  fail_if (negb ok) "too large";;
  let pcount := w g * h g in
  match stbi__malloc (4 * pcount), stbi__malloc (4 * pcount), stbi__malloc pcount with
  | Some o, Some b, Some hist =>
      o ← lift (memset o 0 0 (4 * pcount));
      b ← lift (memset b 0 0 (4 * pcount));
      hist ← lift (memset hist 0 0 pcount);
      set_gif (set_buffers (Some o) b hist g)
  | _, _, _ => fail "outofmem"
  end.

(** A later frame disposes of the one before it.  [two_back] is a position of a
    buffer, [None] for [NULL]. *)
Definition gif_dispose (two_back : option (list Z * Z)) : Act gif_state unit :=
  g ← get_gif;
  let dispose := Z.shiftr (Z.land (eflags g) 0x1C) 2 in
  let pcount := w g * h g in
  match out g with
  | None => lift Undef
  | Some o =>
      o ← lift (match dispose, two_back with
                | 3, Some (src, off) => restore_pixels (history g) src off pcount o
                | 3, None | 2, _ => restore_pixels (history g) (background g) 0 pcount o
                | _, _ => Ok o
                end);
      b ← lift (memcpy (background g) 0 o 0 (4 * w g * h g));
      set_gif (set_buffers (Some o) b (history g) g)
  end.

(** The pixels the first frame has not drawn get the background colour, whose
    alpha is set each time. *)
Definition gif_background : Act gif_state unit :=
  g ← get_gif;
  match out g with
  | None => lift Undef
  | Some o =>
      '(pal, o) ← lift (for_range 0 (w g * h g) (λ pi '(pal, o),
        v ← rd (history g) pi;
        if v =? 0 then
          pal ← wr pal (4 * bgindex g + 3) 255;
          o ← memcpy o (pi * 4) pal (4 * bgindex g) 4;
          Ok (pal, o)
        else Ok (pal, o)) (pal g, o));
      set_gif (set_tables pal (lpal g) (color_table g)
                 (set_buffers (Some o) (background g) (history g) g))
  end.

(** The image descriptor: the rectangle, the colours and the pixels. *)
Definition gif_image (first_frame : bool) : Act gif_state unit :=
  x ← on_context stbi__get16le; y ← on_context stbi__get16le;
  fw ← on_context stbi__get16le; fh ← on_context stbi__get16le;
  g ← get_gif;
  fail_if ((w g <? x + fw) || (h g <? y + fh)) "bad Image Descriptor";;
  line ← lift (i32 (w g * 4));
  sy ← lift (i32 (y * line));
  my ← lift (i32 (sy + fh * line));
  lf ← on_context stbi__get8;
  let interlaced := negb (Z.land lf 0x40 =? 0) in
  g ← get_gif;
  let g := set_frame lf
    {| start_x := x * 4; start_y := sy; max_x := x * 4 + fw * 4; max_y := my;
       cur_x := x * 4; cur_y := if fw =? 0 then my else sy; line_size := line;
       parse := if interlaced then 3 else 0; step := if interlaced then 8 * line else line |} g in
  set_gif g;;
  (if negb (Z.land lf 0x80 =? 0) then
     lpal ← on_context (stbi__gif_parse_colortable (lpal g) (Z.shiftl 2 (Z.land lf 7))
                          (if negb (Z.land (eflags g) 1 =? 0) then transparent g else -1));
     set_gif (set_tables (pal g) lpal Local g)
   else if negb (Z.land (flags g) 0x80 =? 0) then set_gif (set_tables (pal g) (lpal g) Global g)
   else fail "missing color table");;
  stbi__process_gif_raster;;
  if first_frame && (0 <? bgindex g) then gif_background else mret ().

(** The graphic control extension, when its length is 4. *)
Definition gif_control : Act gif_state unit :=
  e ← on_context stbi__get8;
  d ← on_context stbi__get16le;
  g ← get_gif;
  pal' ← lift (if 0 <=? transparent g then wr (pal g) (4 * transparent g + 3) 255 else Ok (pal g));
  if negb (Z.land e 1 =? 0) then
    t ← on_context stbi__get8;
    pal' ← lift (if 0 <=? t then wr pal' (4 * t + 3) 0 else Ok pal');
    set_gif (set_tables pal' (lpal g) (color_table g) (set_control t e (10 * d) g))
  else
    on_context (stbi__skip 1);;
    set_gif (set_tables pal' (lpal g) (color_table g) (set_control (-1) e (10 * d) g)).

(** An extension: a control extension of another length is only skipped. *)
Definition gif_extension : Act gif_state unit :=
  ext ← on_context stbi__get8;
  if ext =? 0xF9 then
    len ← on_context stbi__get8;
    if len =? 4 then gif_control;; skip_blocks else on_context (stbi__skip len)
  else skip_blocks.

(** [true]: a frame is in [g->out]; [false]: the end of the stream. *)
Definition stbi__gif_load_next (two_back : option (list Z * Z)) : Act gif_state bool :=
  g ← get_gif;
  let first_frame := match out g with None => true | Some _ => false end in
  (if first_frame then gif_start else gif_dispose two_back);;
  g ← get_gif;
  hist ← lift (memset (history g) 0 0 (w g * h g));
  set_gif (set_buffers (out g) (background g) hist g);;
  r ← a_loop fuel (λ _,
    tag ← on_context stbi__get8;
    if tag =? 0x2C then gif_image first_frame;; mret (Return true)
    else if tag =? 0x21 then gif_extension;; mret (Next ())
    else if tag =? 0x3B then mret (Return false)
    else fail "unknown code") ();
  mret (match r with Gave b => b | Fell _ => false end).

(** ** Files *)

(** [STBI_REALLOC]: the bytes that were there are kept. *)
Definition stbi__realloc (l : list Z) (size : Z) : option (list Z) :=
  if malloc_ok size then
    Some (take (Z.to_nat size) l ++ malloc_arr uninit (size - zlen l)) else None.

(** The frames: the buffer, their number, the delays and [two_back], which is
    an offset from the start of the buffer. *)
Record frames := { layers : Z; all_out : option (list Z); delays : list Z; back : option Z }.

(** One pass of [do ... while (u != 0)]; every failure of a frame ends the loop
    like the end of the stream.  A failure to allocate returns. *)
Definition gif_next_frame (want_delays : bool) (f : frames)
  : Act gif_state (ctl frames Empty_set) :=
  let two_back :=
    match all_out f, back f with Some o, Some off => Some (o, off) | _, _ => None end in
  u ← attempt (stbi__gif_load_next two_back);
  match u with
  | Val true =>
      g ← get_gif;
      let n := layers f + 1 in
      wh ← lift (i32 (w g * h g)); stride ← lift (i32 (wh * 4));
      size ← lift (i32 (n * stride));
      match (match all_out f with Some o => stbi__realloc o size | None => stbi__malloc size end),
            (if want_delays && negb (malloc_ok (4 * n)) then None else Some ()), out g with
      | Some o, Some _, Some frame =>
          o ← lift (memcpy o ((n - 1) * stride) frame 0 stride);
          off ← lift (i32 (2 * stride));
          mret (Next {| layers := n; all_out := Some o; delays := delays f ++ [delay g];
                        back := if 2 <=? n then Some (- off) else back f |})
      | _, _, None => lift Undef
      | _, _, _ => fail "outofmem"
      end
  | _ => mret (Break f)
  end.

(** The frames one below the other, their number, and the delays when they are
    wanted.  [x0] and [y0] are [*x] and [*y] before the call, which the loader
    leaves when there is no frame; a conversion then makes an empty image of
    the [NULL] buffer. *)
Definition stbi__load_gif_main (want_delays : bool) (x0 y0 comp0 req_comp : Z)
  : Act stbi__context (Image * Z * list Z) := λ s,
  match stbi__gif_test s with
  | Ok (Val true, s) =>
      match a_loop fuel (gif_next_frame want_delays)
              {| layers := 0; all_out := None; delays := []; back := None |} (s, gif_zero, comp0) with
      | Ok (Val r, (s, g, comp)) =>
          let f := fell r in
          let finish := λ o, Ok (Val (
            {| pixels := o; img_w := if layers f =? 0 then x0 else w g;
               img_h := if layers f =? 0 then y0 else h g; img_comp := comp; img_bits := 8 |},
            layers f, if want_delays then delays f else []), s) in
          if negb (req_comp =? 0) && negb (req_comp =? 4) then
            match (x ← lift (i32 (layers f * w g));
                   stbi__convert_format (default [] (all_out f)) 4 req_comp x (h g)) s with
            | Ok (Val o, _) => finish o
            | Ok (Fail e, _) => Ok (Fail e, s)
            | Undef => Undef
            | NoFuel => NoFuel
            end
          else match all_out f with Some o => finish o | None => Ok (Fail "", s) end
      | Ok (Fail e, (s, _, _)) => Ok (Fail e, s)
      | Undef => Undef
      | NoFuel => NoFuel
      end
  | Ok (Val false, s) => Ok (Fail "not GIF", s)
  | Ok (Fail e, s) => Ok (Fail e, s)
  | Undef => Undef
  | NoFuel => NoFuel
  end.

Definition stbi__gif_load (comp0 req_comp : Z) : Act stbi__context Image := λ s,
  match stbi__gif_load_next None (s, gif_zero, comp0) with
  | Ok (Val true, (s, g, comp)) =>
      match out g with
      | None => Undef
      | Some u =>
          (u ← (if negb (req_comp =? 0) && negb (req_comp =? 4)
                then stbi__convert_format u 4 req_comp (w g) (h g) else mret u);
           mret {| pixels := u; img_w := w g; img_h := h g; img_comp := comp; img_bits := 8 |}) s
      end
  | Ok (Val false, (s, _, _)) => Ok (Fail "", s)
  | Ok (Fail e, (s, _, _)) => Ok (Fail e, s)
  | Undef => Undef
  | NoFuel => NoFuel
  end.
End gif.
