(* ===== verification/StbGifSpec.v ===== *)
(** * stb_image: the GIF decoder is safe

    The code table is a forest whose parents come before their children, the
    cursor stays on the canvas, and every loop consumes input: the decoder ends
    on every input without undefined behaviour.  At the end, the pointer to the
    frame before the last one of an animated file. *)
From S2P Require Import Prelude StbMonad StbBase StbBaseSpec StbStream StbGif.

Section input.
Context `{Env : StbiEnv} {Cb : Callbacks}.

(** The context is good, and [R] bytes are to come. *)
Definition upto (R : Z) (s : stbi__context) : Prop :=
  ctx_ok s ∧ Forall is_byte (remaining s) ∧ zlen (remaining s) = R.

Lemma get8_upto R s : upto R s → awp_ok stbi__get8 s (λ b s', is_byte b ∧ upto (Z.max 0 (R - 1)) s' ∧ (R = 0 → b = 0)).
Proof.
  intros (Hok & Hb & HR). eapply awp_ok_mono; [by apply stbi__get8_spec|]. cbn beta. intros b s' (Hok' & -> & Hr).
  split; [by apply bytes_at_byte|]. unfold upto. rewrite Hr. split.
  - split; [done|]. destruct (remaining s) as [|x l]; cbn [tail length] in *; [split; [done|lia]|].
    apply Forall_cons in Hb as [_ Hb]. split; [done|lia].
  - intros ->. destruct (remaining s); [done|cbn in HR; lia].
Qed.

Lemma skip_upto R n s : 0 ≤ n → upto R s → awp_ok (stbi__skip n) s (λ _ s', upto (Z.max 0 (R - n)) s').
Proof.
  intros Hn (Hok & Hb & HR). eapply awp_ok_mono; [by apply stbi__skip_spec|]. cbn beta. intros _ s' (Hok' & Hr).
  unfold upto. rewrite Hr. split; [done|]. split; [by apply Forall_drop|]. rewrite length_drop. lia.
Qed.

Lemma get16_upto R s : upto R s → awp_ok stbi__get16le s (λ v s', 0 ≤ v < 65536 ∧ upto (Z.max 0 (R - 2)) s').
Proof.
  intros H. unfold stbi__get16le. apply awp_ok_bind. eapply awp_ok_mono; [by apply get8_upto|]. cbn beta.
  intros a s1 ([Ha1 Ha2] & H1 & _). apply awp_ok_bind. eapply awp_ok_mono; [by apply get8_upto|]. cbn beta.
  intros b s2 ([Hb1 Hb2] & H2 & _). awp_step. rewrite Z.shiftl_mul_pow2 by lia. split; [lia|].
  by replace (Z.max 0 (R - 2)) with (Z.max 0 (Z.max 0 (R - 1) - 1)) by lia.
Qed.

Lemma upto_nonneg R s : upto R s → 0 ≤ R.
Proof. intros (_ & _ & <-). lia. Qed.

(** At most [R] bytes are to come. *)
Definition within (R : Z) (s : stbi__context) : Prop := ∃ R', 0 ≤ R' ≤ R ∧ upto R' s.

Lemma upto_within R s : upto R s → within R s.
Proof. intros H. exists R. pose proof (upto_nonneg R s H). split; [lia|done]. Qed.

Lemma get8_within R s : within R s → awp_ok stbi__get8 s (λ b s', is_byte b ∧ within R s').
Proof.
  intros (R' & HR & H). eapply awp_ok_mono; [by apply get8_upto|]. cbn beta. intros b s' (Hb & H' & _).
  split; [done|]. eexists. split; [|exact H']. lia.
Qed.

Lemma get16_within R s : within R s → awp_ok stbi__get16le s (λ v s', 0 ≤ v < 65536 ∧ within R s').
Proof.
  intros (R' & HR & H). eapply awp_ok_mono; [by apply get16_upto|]. cbn beta. intros v s' (Hv & H').
  split; [done|]. eexists. split; [|exact H']. lia.
Qed.

Lemma skip_within R n s : 0 ≤ n → within R s → awp_ok (stbi__skip n) s (λ _ s', within R s').
Proof.
  intros Hn (R' & HR & H). eapply awp_ok_mono; [by apply skip_upto|]. cbn beta. intros _ s' H'.
  eexists. split; [|exact H']. lia.
Qed.

(** The input was [l], and [k] bytes of it are read. *)
Definition reads (l : list Z) (k : nat) (s : stbi__context) : Prop := ctx_ok s ∧ remaining s = drop k l ∧ Forall is_byte l.

Lemma reads_within l k s : reads l k s → within (zlen l) s.
Proof.
  intros (Hok & E & Hl). exists (zlen (drop k l)). rewrite length_drop. split; [lia|]. unfold upto.
  rewrite E, length_drop. split; [done|]. split; [by apply Forall_drop|done].
Qed.

Lemma get8_reads l k s : reads l k s → awp_ok stbi__get8 s (λ b s', (b = bytes_at l k ∧ is_byte b) ∧ reads l (S k) s').
Proof.
  intros (Hok & E & Hl). eapply awp_ok_mono; [by apply stbi__get8_spec|]. cbn beta. rewrite E. intros b s' (Hok' & -> & E').
  assert (bytes_at (drop k l) 0 = bytes_at l k) as -> by (unfold bytes_at; by rewrite lookup_drop, Nat.add_0_r).
  split; [split; [done|by apply bytes_at_byte]|].
  split; [done|]. split; [|done]. rewrite E'. by destruct (drop k l) eqn:Ed; rewrite <- Nat.add_1_r, <- drop_drop, Ed.
Qed.

(** Two bytes, the lower one first. *)
Definition le16 (l : list Z) (i : nat) : Z := bytes_at l i + 256 * bytes_at l (S i).

Lemma get16_reads l k s : reads l k s → awp_ok stbi__get16le s (λ v s', v = le16 l k ∧ reads l (S (S k)) s').
Proof.
  intros H. unfold stbi__get16le. apply awp_ok_bind. eapply awp_ok_mono; [by apply get8_reads|]. cbn beta.
  intros a s1 ([-> _] & H1). apply awp_ok_bind. eapply awp_ok_mono; [by apply get8_reads|]. cbn beta.
  intros b s2 ([-> _] & H2). awp_step. rewrite Z.shiftl_mul_pow2 by lia. unfold le16. split; [lia|done].
Qed.

Lemma le16_range l i s : reads l 0 s → 0 ≤ le16 l i < 65536.
Proof.
  intros (_ & _ & Hl). destruct (bytes_at_byte l i Hl), (bytes_at_byte l (S i) Hl). unfold le16. lia.
Qed.

(** The same in the state of the decoder. *)
Lemma on_context_ok {A} (m : Act stbi__context A) t (P : A → stbi__context → Prop) (Q : A → gif_state → Prop) :
  awp_ok m t.1.1 P → (∀ a s, P a s → Q a (s, t.1.2, t.2)) → awp_ok (on_context m) t Q.
Proof.
  intros Hm HQ. unfold on_context. apply awp_zoom. eapply awp_mono; [exact Hm|]. intros [a|e] s; [apply HQ|done].
Qed.
End input.

(** ** The code table

    Entry [i] is [good] below [avail]: a byte of its own, or a byte after a
    good entry before it. *)
Section table.
Context (cs : list stbi__gif_lzw) (clear : Z).

Definition used (avail i : Z) : Prop := 0 ≤ i < clear ∨ clear + 2 ≤ i < avail.

Definition entry_ok (i : Z) (e : stbi__gif_lzw) : Prop :=
  is_byte (first e) ∧ is_byte (suffix e) ∧ (prefix e < 0 ∨ 0 ≤ prefix e < i ∧ (prefix e < clear ∨ clear + 2 ≤ prefix e)).

Definition table_ok (avail : Z) : Prop :=
  zlen cs = 8192 ∧ ∀ i, used avail i → entry_ok i (cs.[i]).
End table.

(** ** The cursor

    On a canvas of [w] by [h], in the rectangle that starts at ([x0], [y0]) and
    ends before ([x1], [y1]). *)
Definition cursor_in (w h : Z) (c : gif_cursor) : Prop := ∃ x0 y0 x1 y1 cx cy k,
  0 ≤ x0 ∧ x0 ≤ x1 ≤ w ∧ 0 ≤ y0 ∧ y0 ≤ y1 ≤ h ∧
  line_size c = 4 * w ∧ start_x c = 4 * x0 ∧ start_y c = y0 * (4 * w) ∧
  max_x c = 4 * x1 ∧ max_y c = y1 * (4 * w) ∧
  cur_x c = 4 * cx ∧ cur_y c = cy * (4 * w) ∧ step c = k * (4 * w) ∧ 0 ≤ k ≤ 8 ∧ 0 ≤ parse c ≤ 3 ∧
  0 ≤ cy ∧ (cy < y1 → x0 ≤ cx < x1).

(** The arithmetic of the next row needs eight rows more than the canvas has. *)
Definition row_room (w h : Z) : Prop := 0 ≤ w ∧ 0 ≤ h ∧ 4 * w * (h + 8) ≤ INT_MAX.

Lemma next_pass_ok w h c : row_room w h → cursor_in w h c → cur_x c = start_x c → start_x c < max_x c →
  wp (next_pass c) (λ r, match r with
    | Next c' => cursor_in w h c' ∧ cur_x c' = start_x c' ∧ start_x c' < max_x c' ∧ parse c' = parse c - 1 ∧ 0 < parse c
    | Break c' => c' = c
    | Return e => False
    end).
Proof.
  intros (Hw & Hh & Hroom) (x0 & y0 & x1 & y1 & cx & cy & k & Hx0 & Hx1 & Hy0 & Hy1 & El & Esx & Esy & Emx & Emy & Ecx & Ecy & Est & Hk & Hp & Hcy & Hin) Hcur Hlt.
  unfold next_pass. destruct (Z.leb_spec (max_y c) (cur_y c)), (Z.ltb_spec 0 (parse c)); cbn [andb wp]; try done.
  assert (parse c = 1 ∨ parse c = 2 ∨ parse c = 3) as Hpc by lia.
  set (m := 2 ^ (parse c - 1)). assert (1 ≤ m ≤ 4 ∧ Z.shiftl 1 (parse c) = 2 * m) as [Hm Es].
  { unfold m. destruct Hpc as [->|[->| ->]]; (split; [split; vm_compute; discriminate|done]). }
  clearbody m. assert (0 ≤ 2 * m * (4 * w) ≤ 4 * w * (h + 8)) as B1 by (clear - Hm Hw Hh; nia).
  assert (0 ≤ y0 * (4 * w) + m * (4 * w) ≤ 4 * w * (h + 8)) as B2 by (clear - Hm Hw Hh Hy0 Hy1; nia).
  rewrite El, Es, i32_ok by (c_unfold; lia). cbn [mbind Res_bind].
  rewrite Z.shiftr_div_pow2 by lia. change (2 ^ 1) with 2.
  replace (2 * m * (4 * w) / 2) with (m * (4 * w)).
  2: { replace (2 * m * (4 * w)) with (m * (4 * w) * 2) by lia. by rewrite Z.div_mul. }
  rewrite Esy, i32_ok by (c_unfold; lia). cbn [mbind Res_bind wp].
  split; [|cbn [set_cur cur_x start_x max_x parse]; split; [done|split; [done|lia]]].
  exists x0, y0, x1, y1, x0, (y0 + m), (2 * m). cbn [set_cur line_size start_x start_y max_x max_y cur_x cur_y step parse].
  repeat (split; [lia|]). lia.
Qed.

Lemma advance_ok w h c : row_room w h → cursor_in w h c → cur_y c < max_y c → wp (advance c) (cursor_in w h).
Proof.
  intros Hroom Hc Hlt. pose proof Hc as (x0 & y0 & x1 & y1 & cx & cy & k & Hx0 & Hx1 & Hy0 & Hy1 & El & Esx & Esy & Emx & Emy & Ecx & Ecy & Est & Hk & Hp & Hcy & Hin).
  destruct Hroom as (Hw & Hh & Hr). assert (cy < y1) as Hy by nia. specialize (Hin Hy).
  assert (4 * w ≤ 4 * w * (h + 8)) as B1 by (clear - Hw Hh; nia).
  assert (0 ≤ cy * (4 * w) + k * (4 * w) ≤ 4 * w * (h + 8)) as B2 by (clear - Hw Hh Hcy Hy Hy1 Hk; nia).
  unfold advance. rewrite (i32_ok (cur_x c + 4)) by (c_unfold; lia). cbn [mbind Res_bind].
  destruct (Z.leb_spec (max_x c) (cur_x c + 4)).
  - rewrite i32_ok by (c_unfold; lia). cbn [mbind Res_bind].
    set (c1 := set_cur (start_x c) (cur_y c + step c) (parse c) (step c) c).
    assert (cursor_in w h c1 ∧ cur_x c1 = start_x c1 ∧ start_x c1 < max_x c1) as H1.
    { cbn [c1 set_cur cur_x start_x max_x]. split; [|lia].
      exists x0, y0, x1, y1, x0, (cy + k), k. cbn [c1 set_cur line_size start_x start_y max_x max_y cur_x cur_y step parse].
      repeat (split; [lia|]). lia. }
    assert (∀ m (Q : gif_cursor → Prop), wp m (λ a : loop_exit gif_cursor Empty_set, Q (fell a)) → wp (fell <$> m) Q) as Hf
      by (intros m Q; by destruct m).
    apply Hf. apply (loop_wp (λ c, cursor_in w h c ∧ cur_x c = start_x c ∧ start_x c < max_x c) (λ c, Z.to_nat (parse c))).
    + exact H1.
    + cbn [c1 set_cur parse]. lia.
    + intros c2 (H2 & H3 & H4). eapply wp_mono; [by apply (next_pass_ok w h)|].
      intros [c3|c3|[]]; [intros (? & ? & ? & ? & ?); split; [done|lia]|by intros ->].
  - cbn [wp]. exists x0, y0, x1, y1, (cx + 1), cy, k.
    cbn [set_cur line_size start_x start_y max_x max_y cur_x cur_y step parse]. repeat (split; [lia|]). lia.
Qed.

(** ** Pixels

    On a canvas of [W] by [H]. *)
Section canvas.
Context (W H : Z) (Hroom : row_room W H).

(** What every frame finds. *)
Record store_ok (g : stbi__gif) : Prop := {
  st_pal : zlen (pal g) = 1024;
  st_pal_bytes : Forall is_byte (pal g);
  st_lpal : zlen (lpal g) = 1024;
  st_lpal_bytes : Forall is_byte (lpal g);
  st_codes : zlen (codes g) = 8192;
  st_transparent : -1 ≤ transparent g < 256;
  st_bgindex : 0 ≤ bgindex g < 256
}.

(** The buffers are there. *)
Record canvas_ok (g : stbi__gif) : Prop := {
  ca_store : store_ok g;
  ca_w : w g = W;
  ca_h : h g = H;
  ca_out : ∃ o, out g = Some o ∧ zlen o = 4 * (W * H) ∧ Forall is_byte o;
  ca_background : zlen (background g) = 4 * (W * H);
  ca_history : zlen (history g) = W * H
}.

(** A frame is being decoded. *)
Definition frame_ok (g : stbi__gif) : Prop :=
  canvas_ok g ∧ color_table g ≠ NoTable ∧ cursor_in W H (cursor g).

Lemma bytes_zset l i v : Forall is_byte l → is_byte v → Forall is_byte (zset l i v).
Proof. intros Hl Hv. by apply Forall_insert. Qed.

Lemma bytes_znth l i : Forall is_byte l → 0 ≤ i < zlen l → is_byte l.[i].
Proof. intros Hl Hi. eapply (Forall_lookup_1 _ _ _ _ Hl). by apply znth_lookup. Qed.

Lemma wr_bytes_wp (l vs : list Z) off : 0 ≤ off → off + zlen vs ≤ zlen l → Forall is_byte l → Forall is_byte vs →
  wp (wr_samples wr l off vs) (λ l', length l' = length l ∧ Forall is_byte l').
Proof.
  intros Hoff Hl Hb Hvs. unfold wr_samples.
  enough (∃ l', foldl (λ m v, '(l, i) ← m; l ← wr l i v; Ok (l, i + 1)) (Ok (l, off)) vs = Ok (l', off + zlen vs) ∧
    length l' = length l ∧ Forall is_byte l') as (l' & -> & E) by done.
  revert l off Hoff Hl Hb. induction Hvs as [|v vs Hv Hvs IH]; intros l off Hoff Hl Hb; cbn [foldl length] in *.
  { exists l. by rewrite Z.add_0_r. }
  cbn [mbind Res_bind]. rewrite wr_ok by lia. cbn [mbind Res_bind].
  destruct (IH (zset l off v) (off + 1)) as (l' & E & El & Hb'); [lia|rewrite length_zset; lia|by apply bytes_zset|].
  exists l'. rewrite E. split; [do 2 f_equal; lia|]. by rewrite El, length_zset.
Qed.

Lemma color_ok g i : store_ok g → color_table g ≠ NoTable → 0 ≤ i < 1024 → ∃ v, color g i = Ok v ∧ is_byte v.
Proof.
  intros Hg Ht Hi. destruct Hg as [Hp Hpb Hl Hlb _ _ _]. unfold color.
  destruct (color_table g); [done| |]; eexists; rewrite rd_ok by lia; (split; [done|]); apply bytes_znth; done || lia.
Qed.

Lemma canvas_buffers g o hist c : canvas_ok g → zlen o = 4 * (W * H) → Forall is_byte o → zlen hist = W * H →
  canvas_ok (set_frame (lflags g) c (set_buffers (Some o) (background g) hist g)).
Proof. intros [[] ? ? ? ? ?]. split; cbn; try done. by exists o. Qed.

Lemma out_pixel_ok e g : is_byte (suffix e) → frame_ok g → wp (out_pixel e g) (λ g', frame_ok g' ∧ codes g' = codes g).
Proof using Hroom.
  intros Hs (Hg & Ht & Hc). unfold out_pixel. destruct (Z.leb_spec (max_y (cursor g)) (cur_y (cursor g))) as [|Hlt]; [done|].
  pose proof Hc as (x0 & y0 & x1 & y1 & cx & cy & k & Hx0 & Hx1 & Hy0 & Hy1 & El & Esx & Esy & Emx & Emy & Ecx & Ecy & Est & Hk & Hp & Hcy & Hin).
  destruct Hroom as (Hw & Hh & Hr). assert (cy < y1) as Hy by nia. specialize (Hin Hy).
  assert (0 ≤ cx + cy * W ∧ cx + cy * W < W * H) as Hidx by (clear - Hin Hx0 Hx1 Hy Hy1 Hcy; nia).
  assert (4 * (W * H) ≤ INT_MAX) as Hmax by (clear - Hr Hw Hh; nia).
  rewrite i32_ok by (c_unfold; lia). cbn [mbind Res_bind].
  replace (cur_x (cursor g) + cur_y (cursor g)) with ((cx + cy * W) * 4) by lia. rewrite Z.quot_mul by lia.
  pose proof (ca_history g Hg) as Hhist. rewrite wr_ok by lia. cbn [mbind Res_bind].
  destruct (ca_out g Hg) as (o & Eo & Ho & Hb). rewrite Eo. destruct Hs as [Hs1 Hs2].
  assert (∀ j, 0 ≤ j < 4 → ∃ v, color g (suffix e * 4 + j) = Ok v ∧ is_byte v) as Hcol
    by (intros j Hj; apply color_ok; [apply Hg|done|lia]).
  destruct (Hcol 3 ltac:(lia)) as (c3 & -> & B3). cbn [mbind Res_bind].
  apply wp_bind. eapply (wp_mono _ (λ o', length o' = length o ∧ Forall is_byte o')).
  { destruct (_ <? _); [|done].
    destruct (Hcol 2 ltac:(lia)) as (c2 & -> & B2). cbn [mbind Res_bind].
    destruct (Hcol 1 ltac:(lia)) as (c1 & -> & B1). cbn [mbind Res_bind].
    destruct (Hcol 0 ltac:(lia)) as (c0 & -> & B0). cbn [mbind Res_bind].
    apply wr_bytes_wp; [lia|cbn [length]; lia|done|]. by rewrite !Forall_cons. }
  intros o' [Ho' Hb']. apply wp_bind. eapply wp_mono; [by apply (advance_ok W H)|]. cbn beta. intros c Hc'. cbn [wp].
  split; [|done]. split; [|done]. apply canvas_buffers; [done|lia|done|]. rewrite length_zset. lia.
Qed.

Lemma out_gif_code_ok clear avail n : ∀ code fuel g, 0 ≤ code < n → n ≤ Z.of_nat fuel → avail ≤ 8192 → 0 ≤ clear ≤ 8190 →
  used clear avail code → table_ok (codes g) clear avail → frame_ok g →
  wp (stbi__out_gif_code fuel code g) (λ g', frame_ok g' ∧ codes g' = codes g).
Proof using Hroom.
  intros code fuel. revert n code. induction fuel as [|fuel IH]; intros n code g Hcode Hfuel Hav Hcl Hu [Hl Ht] Hg; [lia|].
  cbn [stbi__out_gif_code]. unfold used in Hu. rewrite rd_ok by lia. cbn [mbind Res_bind].
  destruct (Ht code Hu) as (_ & Hs & Hp). apply wp_bind.
  eapply (wp_mono _ (λ g', frame_ok g' ∧ codes g' = codes g)).
  - destruct (Z.leb_spec 0 (prefix (codes g).[code])) as [Hle|]; [|done]. destruct Hp as [|[Hp Hp']]; [lia|].
    apply (IH code); try done; try lia. unfold used. lia.
  - intros g1 (H1 & E1). eapply wp_mono; [by apply out_pixel_ok|]. cbn beta. intros g2 (H2 & ->). done.
Qed.

(** ** The codes of a frame *)
Section raster.
Context `{Env : StbiEnv} {Cb : Callbacks} (fuel : nat).

Definition below (R : Z) (t : gif_state) : Prop := within R t.1.1.

(** Only the context has moved on. *)
Definition moved_on (R : Z) (t t' : gif_state) : Prop := t'.1.2 = t.1.2 ∧ below R t'.

Lemma skip_blocks_ok R t : upto R t.1.1 → R < Z.of_nat fuel → awp_ok (skip_blocks fuel) t (λ _ t', moved_on R t t').
Proof.
  intros HR Hf. pose proof (upto_nonneg _ _ HR) as Hnn. unfold skip_blocks. apply awp_ok_bind.
  apply (awp_loop (λ _ t', moved_on R t t') (λ _ t', length (remaining t'.1.1))).
  - split; [done|]. exists R. split; [lia|done].
  - destruct HR as (_ & _ & E). lia.
  - intros [] t1 [E (R1 & HR1 & H1)].
    enough (awp_ok (len ← on_context stbi__get8;
        if len =? 0 then mret (@Break unit Empty_set ()) else on_context (stbi__skip len);; mret (Next ())) t1
      (λ c t2, match c with
        | Next _ => moved_on R t t2 ∧ (length (remaining t2.1.1) < length (remaining t1.1.1))%nat
        | Break _ => moved_on R t t2
        | Return _ => False end)) as H2.
    { eapply awp_mono; [exact H2|]. intros [[[]|[]|[]]|e] t2; cbn beta iota; [done| |done]. intros. by awp_step. }
    apply awp_ok_bind. eapply on_context_ok; [by apply get8_upto|]. cbn beta. intros b s ([Hb0 Hb] & Hs & H0).
    destruct (Z.eqb_spec b 0) as [->|Hne].
    + awp_step. split; [done|]. eexists. split; [|exact Hs]. lia.
    + apply awp_ok_bind. eapply on_context_ok; [apply (skip_upto _ b s Hb0 Hs)|]. cbn beta. intros _ s2 Hs2. awp_step.
      split.
      * split; [done|]. eexists. split; [|exact Hs2]. lia.
      * cbn. destruct H1 as (_ & _ & E1). destruct Hs2 as (_ & _ & E2). lia.
Qed.

Lemma grow_ok av cs : 0 < av → 1 ≤ cs ≤ 13 →
  1 ≤ (if (Z.land av (2 ^ cs - 1) =? 0) && (av <=? 4095) then cs + 1 else cs) ≤ 13.
Proof.
  intros Hav Hcs. destruct (_ && _) eqn:E; [|lia]. apply andb_true_iff in E as [E1 E2].
  rewrite land_mask, Z.eqb_eq in E1 by lia. apply Z.leb_le in E2.
  assert (cs < 12); [|lia]. apply Z.nle_gt. intros Hge.
  assert (2 ^ cs = 4096 ∨ 2 ^ cs = 8192) as Hp by (assert (cs = 12 ∨ cs = 13) as [->| ->] by lia; [left|right]; reflexivity).
  rewrite Z.mod_small in E1 by lia. lia.
Qed.

Section codes.
Context (lzw : Z) (Hlzw : 0 ≤ lzw ≤ 12).
Let clear : Z := Z.shiftl 1 lzw.

Lemma clear_eq : clear = 2 ^ lzw.
Proof. unfold clear. apply Z.shiftl_1_l. Qed.

Lemma clear_range : 1 ≤ clear ≤ 4096.
Proof using Hlzw.
  rewrite clear_eq. change 1 with (2 ^ 0) at 1. change 4096 with (2 ^ 12). split; apply Z.pow_le_mono_r; lia.
Qed.

Record raster_ok (R : Z) (r : raster) (t : gif_state) : Prop := {
  ra_frame : frame_ok t.1.2;
  ra_table : table_ok (codes t.1.2) clear (avail r);
  ra_avail : clear + 2 ≤ avail r ≤ 8192;
  ra_old : oldcode r = -1 ∧ avail r = clear + 2 ∨ 0 ≤ oldcode r ∧ used clear (avail r) (oldcode r);
  ra_size : 1 ≤ codesize r ≤ 13;
  ra_mask : codemask r = 2 ^ codesize r - 1;
  ra_valid : 0 ≤ valid_bits r ≤ 20;
  ra_bits : 0 ≤ rbits r < 2 ^ valid_bits r;
  ra_len : 0 ≤ rlen r < 256;
  ra_input : below R t
}.

(** What is left to do: bytes, and bits that wait. *)
Definition work (r : raster) (t : gif_state) : nat :=
  Z.to_nat (9 * (256 * zlen (remaining t.1.1) + rlen r) + valid_bits r).

(** How a pass ends. *)
Definition pass (R : Z) (r : raster) (t : gif_state) (c : ctl raster unit) (t' : gif_state) : Prop :=
  match c with
  | Next r' => raster_ok R r' t' ∧ (work r' t' < work r t)%nat
  | Break _ => False
  | Return _ => frame_ok t'.1.2 ∧ below R t'
  end.

Lemma raster_fill_ok R r t : raster_ok R r t → valid_bits r < codesize r → awp_ok (raster_fill r) t (pass R r t).
Proof using Hlzw.
  intros [Hf Ht Hav Hold Hcs Hmask Hv Hb Hl (R0 & HR0 & HR)] Hlt. unfold raster_fill.
  apply awp_ok_bind.
  eapply (awp_ok_mono _ _ (λ len t1, t1.1.2 = t.1.2 ∧ 0 ≤ len < 256 ∧ ∃ R1, 0 ≤ R1 ∧ upto R1 t1.1.1 ∧
    (rlen r = 0 ∧ R1 = Z.max 0 (R0 - 1) ∧ (R0 = 0 → len = 0) ∨ rlen r ≠ 0 ∧ len = rlen r ∧ R1 = R0))).
  { destruct (Z.eqb_spec (rlen r) 0) as [E|E].
    - eapply on_context_ok; [by apply get8_upto|]. cbn beta. intros b s ([Hb0 Hb1] & Hs & H0). split; [done|].
      split; [lia|]. eexists. split; [|split; [exact Hs|]]; [lia|]. by left.
    - awp_step. split; [done|]. split; [lia|]. exists R0. split; [lia|]. split; [done|]. by right. }
  cbn beta. intros len t1 (Eg & Hlen & R1 & HR1 & Hs1 & Hcase).
  destruct ((rlen r =? 0) && (len =? 0)) eqn:Ez.
  { awp_step. split; [by rewrite Eg|]. exists R1. split; [lia|done]. }
  assert (len ≠ 0) as Hne by lia.
  apply awp_ok_bind. eapply on_context_ok; [by apply get8_upto|]. cbn beta. intros b s2 ([Hy0 Hy1] & Hs2 & _).
  apply awp_ok_bind, awp_ok_lift. rewrite Z.shiftl_mul_pow2 by lia.
  pose proof (Z.pow_le_mono_r 2 (valid_bits r) 12 ltac:(lia) ltac:(lia)) as Hp. change (2 ^ 12) with 4096 in Hp.
  assert (0 < 2 ^ valid_bits r) as Hp0 by (apply Z.pow_pos_nonneg; lia).
  assert (0 ≤ b * 2 ^ valid_bits r ≤ 255 * 4096) as Hshift by (clear - Hp Hp0 Hy0 Hy1; nia).
  rewrite i32_ok by (c_unfold; lia). cbn [wp]. awp_step. cbv beta iota delta [pass set_bits].
  rewrite <- Z.shiftl_mul_pow2, lor_shiftl_r by lia. split.
  - split; cbn [rlen rfirst codesize codemask avail oldcode rbits valid_bits fst snd]; rewrite ?Eg; try done.
    + lia.
    + rewrite Z.pow_add_r by lia. change (2 ^ 8) with 256. revert Hb Hy0 Hy1 Hp0. clear. intros. nia.
    + lia.
    + eexists. split; [|exact Hs2]. lia.
  - unfold work. cbn [rlen valid_bits fst snd]. destruct HR as (_ & _ & E0). destruct Hs2 as (_ & _ & E2).
    rewrite E2. rewrite E0. lia.
Qed.

Lemma raster_code_ok R r t code : raster_ok R r t → 0 ≤ code ≤ avail r → code ≠ clear → code ≠ clear + 1 →
  awp (raster_code code r) t (λ o t', match o with
    | Val r' => raster_ok R r' t' ∧ work r' t' = work r t
    | Fail _ => True
    end).
Proof using Hroom Hlzw.
  intros [Hf Ht Hav Hold Hcs Hmask Hv Hb Hl HR] Hcode Hn1 Hn2. pose proof clear_range as Hcl.
  unfold raster_code, get_gif, set_gif. awp_step. awp_step; [done|intros _].
  apply awp_bind.
  eapply (awp_mono _ _ (λ o t1, match o with Val av => frame_ok t1.1.2 ∧ t1.1.1 = t.1.1 ∧ table_ok (codes t1.1.2) clear av ∧
    clear + 2 ≤ av ≤ 8192 ∧ used clear av code | Fail _ => True end)).
  - destruct t as [[s g] comp]. cbn [fst snd] in *. destruct Hf as (Hg & Htab & Hcur). destruct Ht as [Hlc Ht].
    destruct (Z.leb_spec 0 (oldcode r)) as [Ho|Ho].
    + destruct Hold as [[Ho' _]|[_ Hu]]; [lia|]. awp_step. awp_step; [done|intros Hfit].
      apply Z.ltb_ge in Hfit. awp_step. awp_step. cbn [fst snd].
      assert (0 ≤ oldcode r < avail r) as Hor by (unfold used in Hu; lia).
      pose proof (Ht _ Hu) as (Hfi & Hsu & Hpr).
      awp_step. awp_step. rewrite rd_ok by lia. cbn [wp].
      awp_step. awp_step. rewrite rd_ok by lia. cbn [wp].
      awp_step. awp_step. rewrite wr_ok by lia. cbn [wp]. rewrite (proj2 (Z.eqb_neq code (avail r + 1))) by lia.
      set (own := {| prefix := oldcode r; first := first (codes g).[oldcode r]; suffix := suffix (codes g).[avail r] |}).
      set (cs1 := zset (codes g) (avail r) own). assert (length cs1 = length (codes g)) as Hl1 by apply length_zset.
      assert (is_byte (first cs1.[code])) as Hbyte.
      { unfold cs1. destruct (decide (code = avail r)) as [->|]; [rewrite znth_zset_eq by lia; exact Hfi|].
        rewrite znth_zset_ne by lia. apply (Ht code). unfold used. lia. }
      awp_step. awp_step. rewrite rd_ok by lia. cbn [wp mbind Res_bind].
      awp_step. awp_step. rewrite wr_ok by lia. cbn [wp].
      awp_step. awp_step. awp_step. cbn [fst snd set_codes codes].
      set (e := {| prefix := prefix own; first := first own; suffix := first cs1.[code] |}).
      assert (table_ok (zset cs1 (avail r) e) clear (avail r + 1)) as Htab'.
      { split; [rewrite length_zset; lia|]. intros i Hi. destruct (decide (i = avail r)) as [->|Hne].
        - rewrite znth_zset_eq by lia. split; [exact Hfi|]. split; [exact Hbyte|]. right. cbn. unfold used in Hu. lia.
        - unfold used in Hi. rewrite znth_zset_ne by lia. unfold cs1. rewrite znth_zset_ne by lia. apply Ht. unfold used. lia. }
      split; [|split; [done|split; [exact Htab'|split; [lia|unfold used; lia]]]].
      split; [|done]. destruct Hg as [[] ? ? ? ? ?]. do 2 (split; try done). apply Htab'.
    + destruct Hold as [[_ Ea]|[]]; [|lia]. awp_step. awp_step; [done|intros Hneq]. awp_step.
      split; [done|]. split; [done|]. split; [done|]. split; [lia|]. unfold used. lia.
  - intros [av|e] t1; [|done]. intros (Hf1 & Es & Ht1 & Hav1 & Hu1). destruct t1 as [[s1 g1] comp1]. cbn [fst snd] in *.
    awp_step. awp_step. cbn [fst snd]. awp_step. awp_step.
    eapply wp_mono; [apply (out_gif_code_ok clear av 8193 code); [unfold used in Hu1; lia|lia|lia|lia|exact Hu1|exact Ht1|exact Hf1]|].
    cbn beta. intros g2 (Hf2 & Ec2). awp_step. awp_step. awp_step. cbn [fst snd]. split; [|unfold work; cbn [fst snd rlen valid_bits]; by rewrite Es].
    pose proof (grow_ok av (codesize r) ltac:(lia) Hcs) as Hgrow. rewrite <- Hmask in Hgrow.
    split; cbn [rlen rfirst codesize codemask avail oldcode rbits valid_bits fst snd]; try done.
    + by rewrite Ec2.
    + right. split; [lia|done].
    + destruct (_ && _); [|done]. by rewrite Z.shiftl_1_l.
    + destruct HR as (R' & HR' & HRs). exists R'. by rewrite <- Es in HRs.
Qed.

Lemma raster_step_ok R r t : raster_ok R r t → R < Z.of_nat fuel →
  awp (raster_step fuel lzw r) t (λ o t', match o with Val c => pass R r t c t' | Fail _ => True end).
Proof using Hroom Hlzw.
  intros Hr Hfuel. pose proof clear_range as Hcl. unfold raster_step. fold clear.
  destruct (Z.ltb_spec (valid_bits r) (codesize r)) as [Hlt|Hge].
  { eapply awp_mono; [by apply raster_fill_ok|]. by intros [c|e] t'. }
  pose proof Hr as [Hf Ht Hav Hold Hcs Hmask Hv Hb Hl HR].
  rewrite Hmask, land_mask by lia.
  assert (0 < 2 ^ codesize r) as Hp by (apply Z.pow_pos_nonneg; lia).
  pose proof (Z.mod_pos_bound (rbits r) (2 ^ codesize r) Hp) as Hcode. set (code := rbits r mod 2 ^ codesize r) in *.
  set (r1 := set_bits (rlen r) (Z.shiftr (rbits r) (codesize r)) (valid_bits r - codesize r) r).
  assert (raster_ok R r1 t ∧ (work r1 t < work r t)%nat) as [Hr1 Hw1].
  { split.
    - split; cbn [r1 set_bits rlen rfirst codesize codemask avail oldcode rbits valid_bits]; try done; [lia|].
      rewrite Z.shiftr_div_pow2 by lia. split; [apply Z.div_pos; lia|]. apply Z.div_lt_upper_bound; [lia|].
      rewrite <- Z.pow_add_r by lia. replace (codesize r + (valid_bits r - codesize r)) with (valid_bits r) by lia. lia.
    - unfold work, r1, set_bits. cbn [rlen valid_bits]. lia. }
  clearbody r1. destruct Hr1 as [Hf1 Ht1 Hav1 Hold1 Hcs1 Hmask1 Hv1 Hb1 Hl1 HR1].
  destruct (Z.eqb_spec code clear) as [->|Hn1].
  - awp_step. cbn beta iota delta [pass]. split; [|exact Hw1].
    split; cbn [rlen rfirst codesize codemask avail oldcode rbits valid_bits]; try done; try lia.
    + destruct Ht as [Hlc Ht]. split; [done|]. intros i Hi. apply Ht. unfold used in *. lia.
    + by rewrite Z.shiftl_1_l.
  - destruct (Z.eqb_spec code (clear + 1)) as [->|Hn2].
    + apply awp_bind. eapply awp_mono.
      { destruct HR1 as (R1 & HR1 & HRs). apply (on_context_ok _ _ _ (λ _ t', moved_on R t t') (skip_upto R1 (rlen r1) _ ltac:(lia) HRs)).
        intros _ s Hs. split; [done|]. eexists. split; [|exact Hs]. lia. }
      intros [[]|e] t1; [|done]. intros [Eg (R2 & HR2 & Hs2)]. apply awp_bind. eapply awp_mono; [apply (skip_blocks_ok R2 t1 Hs2); lia|].
      intros [[]|e] t2; [|done]. intros [Eg2 (R3 & HR3 & Hs3)]. awp_step. split; [by rewrite Eg2, Eg|]. exists R3. split; [lia|done].
    + destruct (Z.leb_spec code (avail r1)) as [Hle|]; [|by awp_step].
      apply awp_bind. eapply awp_mono; [apply (raster_code_ok R r1 t code); [by split|lia|done|done]|].
      intros [r2|e] t2; [|done]. intros [Hr2 Ew]. awp_step. split; [done|lia].
Qed.
End codes.

Lemma initial_codes_ok lzw cs : 0 ≤ lzw ≤ 12 → zlen cs = 8192 →
  wp (initial_codes (Z.shiftl 1 lzw) cs) (λ cs', table_ok cs' (Z.shiftl 1 lzw) (Z.shiftl 1 lzw + 2)).
Proof.
  intros Hl Hcs. pose proof (clear_range lzw Hl) as Hcl. unfold initial_codes.
  apply (for_range_wp (λ i cs', zlen cs' = 8192 ∧ ∀ k, 0 ≤ k < i → entry_ok (Z.shiftl 1 lzw) k (cs'.[k]))).
  - split; [done|lia].
  - intros i cs' Hi [Hlc Hk]. rewrite wr_ok by lia. cbn [wp]. split; [by rewrite length_zset|]. intros k Hki.
    destruct (decide (k = i)) as [->|]; [|rewrite znth_zset_ne by lia; apply Hk; lia].
    rewrite znth_zset_eq by lia. pose proof (u8_range i) as Hu. split; [exact Hu|]. split; [exact Hu|]. left. cbn. lia.
  - intros cs' [Hlc Hk]. split; [done|]. intros i [Hi|Hi]; [apply Hk; lia|lia].
Qed.

(** [fuel] for [R] bytes of input. *)
Definition enough (R : Z) : Prop := 2304 * R + 1 < Z.of_nat fuel.

Lemma raster_ends R t : frame_ok t.1.2 → upto R t.1.1 → enough R →
  awp (stbi__process_gif_raster fuel) t (λ o t', match o with
    | Val _ => frame_ok t'.1.2 ∧ below R t'
    | Fail _ => True
    end).
Proof using Hroom.
  intros Hf HR Hfuel. pose proof (upto_nonneg _ _ HR) as HR0. unfold enough in Hfuel.
  unfold stbi__process_gif_raster, get_gif, set_gif.
  apply awp_bind. eapply awp_mono; [eapply (on_context_ok _ _ _ (λ b t', is_byte b ∧ t'.1.2 = t.1.2 ∧ below R t') (get8_upto R _ HR))|].
  { intros b s (Hb & Hs & _). split; [done|]. split; [done|]. eexists. split; [|exact Hs]. lia. }
  intros [lzw|e] t1; [|done]. intros ([Hl0 _] & Eg & Hin). awp_step. awp_step; [done|intros Hl1]. apply Z.ltb_ge in Hl1.
  pose proof (clear_range lzw ltac:(lia)) as Hcl.
  awp_step. awp_step. rewrite Eg. awp_step. awp_step.
  eapply wp_mono; [apply (initial_codes_ok lzw); [lia|apply (st_codes _ (ca_store _ (proj1 Hf)))]|]. cbn beta. intros cs Hcs.
  awp_step. awp_step. destruct t1 as [[s1 g1] comp1]. cbn [fst snd] in *. subst g1.
  apply awp_bind.
  apply (awp_loop (raster_ok lzw R) work).
  - split; cbn [rlen rfirst codesize codemask avail oldcode rbits valid_bits fst snd set_codes codes]; try done; try lia.
    + destruct Hf as (Hg & Ht & Hc). split; [|done]. destruct Hg as [[] ? ? ? ? ?]. do 2 (split; try done). apply Hcs.
    + by rewrite Z.shiftl_1_l.
  - unfold work. cbn [rlen valid_bits fst snd]. destruct Hin as (R' & HR' & _ & _ & E). cbn [fst] in E. rewrite E. lia.
  - intros r t2 Hr. eapply awp_mono; [apply (raster_step_ok lzw ltac:(lia) R r t2 Hr); lia|].
    intros [[r2|r2|[]]|e] t3; cbn beta iota delta [pass]; [done|done| |done]. intros [H1 H2]. awp_step. done.
Qed.

(** ** Colours *)
Lemma colortable_ok pal0 n tr R s : zlen pal0 = 1024 → Forall is_byte pal0 → n ≤ 256 → within R s →
  awp_ok (stbi__gif_parse_colortable pal0 n tr) s (λ pal1 s', (zlen pal1 = 1024 ∧ Forall is_byte pal1) ∧ within R s').
Proof.
  intros Hl Hb Hn HR. unfold stbi__gif_parse_colortable.
  apply (awp_ok_for (λ _ p s', (zlen p = 1024 ∧ Forall is_byte p) ∧ within R s')); [done| |done].
  intros i p s1 Hi [[Hl1 Hb1] H1].
  assert (∀ q k v (s : stbi__context) (Q : list Z → stbi__context → Prop), zlen q = 1024 → Forall is_byte q → 0 ≤ k < 1024 → is_byte v →
    (∀ q', zlen q' = 1024 → Forall is_byte q' → Q q' s) → awp_ok (lift (wr q k v)) s Q) as Hwr.
  { intros q k v s0 Q Hq Hqb Hk Hv HQ. awp_step. rewrite wr_ok by lia. cbn [wp]. apply HQ; [by rewrite length_zset|by apply bytes_zset]. }
  do 3 (awp_step; (eapply awp_ok_mono; [apply (get8_within R); eassumption|]); cbn beta; intros ? ? [? ?];
    awp_step; (apply Hwr; [done|done|lia|done|]); intros).
  apply Hwr; [done|done|lia|by destruct (tr =? i)|]. intros. done.
Qed.

Lemma colors_range f : is_byte f → Z.shiftl 2 (Z.land f 7) ≤ 256.
Proof.
  intros [Hf _]. change 7 with (2 ^ 3 - 1). rewrite land_mask by lia. rewrite Z.shiftl_mul_pow2 by (apply Z.mod_pos_bound; lia).
  pose proof (Z.mod_pos_bound f (2 ^ 3) ltac:(lia)). change 256 with (2 * 2 ^ 7).
  apply Z.mul_le_mono_nonneg_l; [lia|]. apply Z.pow_le_mono_r; lia.
Qed.

(** ** The file header

    [l] is what remains of the input; the size of the screen is in it. *)
Lemma on_context_next {A B} (m : Act stbi__context A) (k : A → Act gif_state B) s (g : stbi__gif) (c : Z)
    (P : A → stbi__context → Prop) (Q : outcome B → gif_state → Prop) :
  awp_ok m s P → (∀ a s', P a s' → awp (k a) (s', g, c) Q) → awp (on_context m ≫= k) (s, g, c) Q.
Proof.
  intros Hm Hk. apply awp_bind. eapply awp_mono; [exact (on_context_ok m (s, g, c) P (λ a t, awp (k a) t Q) Hm Hk)|].
  by intros [a|e].
Qed.

Definition screen (l : list Z) : Z * Z := (le16 l 6, le16 l 8).

Lemma header_ok l s g c : reads l 0 s → store_ok g →
  awp (stbi__gif_header false) (s, g, c) (λ o t, match o with
    | Val _ => store_ok t.1.2 ∧ (w t.1.2, h t.1.2) = screen l ∧ below (zlen l) t
    | Fail _ => True
    end).
Proof.
  intros Hl Hg. unfold stbi__gif_header, get_gif, set_gif, set_comp.
  do 6 (eapply on_context_next; [by apply get8_reads|]; cbn beta; clear s Hl; intros ? s (_ & Hl); awp_step; awp_step; [done|intros _]).
  do 2 (eapply on_context_next; [by apply get16_reads|]; cbn beta; clear s Hl; intros ? s (? & Hl)).
  do 3 (eapply on_context_next; [by apply get8_reads|]; cbn beta; clear s Hl; intros ? s ([_ ?] & Hl)).
  apply reads_within in Hl. subst.
  awp_step. awp_step. awp_step. awp_step. cbn [fst snd]. do 2 (awp_step; awp_step; [done|intros _]). awp_step. awp_step. cbn beta iota.
  match goal with |- context [set_screen ?x ?y ?f ?b ?r g] => set (g1 := set_screen x y f b r g); rename f into fl end.
  assert (store_ok g1 ∧ (w g1, h g1) = screen l) as [Hg1 E1] by (destruct Hg; split; [split; cbn; done || lia|done]).
  clearbody g1. case_match; [|by awp_step].
  awp_step. awp_step. cbn [fst snd]. destruct Hg1.
  eapply on_context_next; [apply (colortable_ok _ _ _ (zlen l)); [done|done|by apply colors_range|exact Hl]|].
  cbn beta. intros pal1 s1 ([Hp Hpb] & Hs1). awp_step. split; [by split|done].
Qed.

Lemma memcpy_bytes dst doff src soff n : 0 ≤ n → 0 ≤ doff → doff + n ≤ zlen dst → 0 ≤ soff → soff + n ≤ zlen src →
  Forall is_byte dst → Forall is_byte src → wp (memcpy dst doff src soff n) (λ l, length l = length dst ∧ Forall is_byte l).
Proof.
  intros Hn Hd Hdn Hs Hsn Hb1 Hb2. apply memcpy_wp; [done..|]. intros l Hl Hi. split; [done|].
  apply Forall_lookup. intros i v Hv. pose proof (lookup_lt_Some _ _ _ Hv) as Hlt.
  rewrite <- (list_lookup_total_correct _ _ _ Hv). replace i with (Z.to_nat (Z.of_nat i)) by lia.
  rewrite Hi by lia. case_decide; apply bytes_znth; done || lia.
Qed.

(** ** The first frame: [screen l] is [(W, H)] *)
Lemma start_ok l s g c : screen l = (W, H) → reads l 0 s → store_ok g →
  awp gif_start (s, g, c) (λ o t, match o with Val _ => canvas_ok t.1.2 ∧ below (zlen l) t | Fail _ => True end).
Proof using Hroom.
  intros HWH Hl Hg. unfold gif_start, get_gif, set_gif. awp_step. eapply awp_mono; [by apply (header_ok l)|].
  intros [[]|e] [[s1 g1] c1]; [|done]. cbn [fst snd]. rewrite HWH. intros (Hg1 & [= EW EH] & Hs1).
  destruct Hroom as (Hw & Hh & Hr). assert (0 ≤ W * H ∧ 4 * (W * H) ≤ INT_MAX) as [Hp Hmax] by (clear - Hr Hw Hh; split; nia).
  injection HWH as XW XH. pose proof (le16_range l 6 s Hl) as RW. pose proof (le16_range l 8 s Hl) as RH. rewrite XW in RW. rewrite XH in RH.
  awp_step. awp_step. cbn [fst snd]. awp_step. awp_step. rewrite EW, EH.
  destruct (stbi__mad3sizes_valid 4 W H 0) as [ok| |] eqn:Eok.
  2, 3: rewrite mad3sizes_valid_spec in Eok; [done|c_unfold; lia..].
  cbn [wp]. awp_step. awp_step; [done|intros _]. unfold stbi__malloc.
  destruct (malloc_ok (4 * (W * H))); [|by awp_step]. destruct (malloc_ok (W * H)); [|by awp_step].
  assert (∀ n, 0 ≤ n → wp (memset (malloc_arr uninit n) 0 0 n) (λ l, zlen l = n ∧ Forall is_byte l)) as Hset.
  { intros n Hn. apply memset_wp; [lia|lia|rewrite length_malloc; lia|]. intros l' Hl' Hi. rewrite length_malloc in Hl'.
    split; [lia|]. apply Forall_lookup. intros i v Hv. pose proof (lookup_lt_Some _ _ _ Hv) as Hlt.
    rewrite <- (list_lookup_total_correct _ _ _ Hv). replace i with (Z.to_nat (Z.of_nat i)) by lia.
    rewrite Hi, decide_True by lia. split; lia. }
  do 3 (awp_step; awp_step; (eapply wp_mono; [apply Hset; lia|]); cbn beta; intros ? [? ?]).
  awp_step. cbn [fst snd]. split; [|done]. split; cbn; try done. { by destruct Hg1. } by eexists.
Qed.

(** The frame's rectangle is on the canvas. *)
Lemma image_cursor x y fw fh (inter : bool) : 0 ≤ x → 0 ≤ y → 0 ≤ fw → 0 ≤ fh → x + fw ≤ W → y + fh ≤ H →
  cursor_in W H
    {| start_x := x * 4; start_y := y * (W * 4); max_x := x * 4 + fw * 4; max_y := y * (W * 4) + fh * (W * 4);
       cur_x := x * 4; cur_y := if fw =? 0 then y * (W * 4) + fh * (W * 4) else y * (W * 4); line_size := W * 4;
       parse := if inter then 3 else 0; step := if inter then 8 * (W * 4) else W * 4 |}.
Proof.
  intros. exists x, y, (x + fw), (y + fh), x, (if fw =? 0 then y + fh else y), (if inter then 8 else 1).
  cbn. destruct inter; (destruct (Z.eqb_spec fw 0); repeat (split; [lia|]); lia).
Qed.

Lemma background_ok t : canvas_ok t.1.2 →
  awp gif_background t (λ o t', match o with Val _ => canvas_ok t'.1.2 ∧ t'.1.1 = t.1.1 | Fail _ => True end).
Proof using Hroom.
  intros Hg. pose proof Hg as [Hst EW EH (o & Eo & Ho & Hob) Hbg Hhist]. unfold gif_background, get_gif, set_gif.
  awp_step. awp_step. rewrite Eo. awp_step. awp_step.
  set (I := λ (_ : Z) (po : list Z * list Z), (zlen po.1 = 1024 ∧ Forall is_byte po.1) ∧ zlen po.2 = 4 * (W * H) ∧ Forall is_byte po.2).
  apply (for_range_wp I).
  - destruct Hst. by repeat split.
  - intros i [p o1] Hi ([Hp Hpb] & Ho1 & Hob1). cbn [fst snd] in *. rewrite EW, EH in Hi. rewrite rd_ok by lia.
    cbn [mbind Res_bind]. case_match; [|by repeat split]. pose proof (st_bgindex _ Hst) as Hbi.
    rewrite wr_ok by lia. cbn [mbind Res_bind]. apply wp_bind. eapply wp_mono.
    + apply memcpy_bytes; rewrite ?length_zset; try lia; [done|]. by apply bytes_zset.
    + cbn beta. intros o2 [Ho2 Hb2]. cbn [wp]. unfold I. cbn [fst snd]. rewrite length_zset. split; [split; [done|by apply bytes_zset]|].
      split; [lia|done].
  - intros [p o1] ([Hp Hpb] & Ho1 & Hob1). cbn beta iota. awp_step. cbn [fst snd] in *. split; [|done]. destruct Hst.
    split; cbn; try done. by exists o1.
Qed.

(** ** The blocks of a file *)
Lemma image_ok R (first_frame : bool) t : enough R → canvas_ok t.1.2 → below R t →
  awp (gif_image fuel first_frame) t (λ o t', match o with Val _ => canvas_ok t'.1.2 ∧ below R t' | Fail _ => True end).
Proof using Hroom.
  intros Hfuel Hg Hs. destruct t as [[s g] c]. cbn [fst snd] in *. unfold gif_image, get_gif, set_gif.
  eapply on_context_next; [by apply (get16_within R)|]; cbn beta; clear s Hs; intros x s [[Hx0 Hx1] Hs].
  eapply on_context_next; [by apply (get16_within R)|]; cbn beta; clear s Hs; intros y s [[Hy0 Hy1] Hs].
  eapply on_context_next; [by apply (get16_within R)|]; cbn beta; clear s Hs; intros fw s [[Hfw0 Hfw1] Hs].
  eapply on_context_next; [by apply (get16_within R)|]; cbn beta; clear s Hs; intros fh s [[Hfh0 Hfh1] Hs].
  pose proof Hg as [Hst EW EH Hout Hbg Hhist].
  awp_step. awp_step. cbn [fst snd]. rewrite EW, EH. awp_step. awp_step; [done|intros Hfit].
  apply orb_false_iff in Hfit as [Hx%Z.ltb_ge Hy%Z.ltb_ge]. destruct Hroom as (Hw & Hh & Hr).
  assert (0 ≤ y * (W * 4) ∧ 0 ≤ fh * (W * 4) ∧ y * (W * 4) + fh * (W * 4) ≤ 4 * W * (H + 8) ∧ W * 4 ≤ 4 * W * (H + 8))
    as (B1 & B2 & B3 & B4) by (clear - Hy Hw Hh Hy0 Hfh0; repeat split; nia).
  awp_step. awp_step. rewrite i32_ok by (c_unfold; lia). cbn [wp].
  awp_step. awp_step. rewrite i32_ok by (c_unfold; lia). cbn [wp].
  awp_step. awp_step. rewrite i32_ok by (c_unfold; lia). cbn [wp].
  eapply on_context_next; [by apply (get8_within R)|]. cbn beta. clear s Hs. intros lf s [Hlf Hs].
  awp_step. awp_step. cbn [fst snd].
  set (cur := {| start_x := _ |}). assert (cursor_in W H cur) as Hcur by (apply image_cursor; lia). clearbody cur.
  awp_step. awp_step. cbn [fst snd].
  set (g1 := set_frame lf cur g). assert (canvas_ok g1 ∧ cursor g1 = cur) as [Hg1 Ecur]
    by (split; [|done]; clear - Hg; destruct Hg as [[] ? ? ? ? ?]; do 2 (split; try done)). clearbody g1.
  awp_step. eapply (awp_mono _ _ (λ o t', match o with Val _ => frame_ok t'.1.2 ∧ below R t' | Fail _ => True end)).
  { pose proof Hg1 as [[] ? ? ? ? ?]. case_match.
    - eapply on_context_next; [apply (colortable_ok _ _ _ R); [done|done|by apply colors_range|exact Hs]|].
      cbn beta. intros l1 s1 ([Hl1 Hb1] & Hs1). awp_step. cbn [fst snd]. split; [|done]. split; [by split|]. cbn. by rewrite Ecur.
    - case_match; [|by awp_step]. awp_step. cbn [fst snd]. split; [|done]. split; [by split|]. cbn. by rewrite Ecur. }
  intros [[]|e] t1; [|done]. intros [Hf1 (R1 & HR1 & Hs1)].
  awp_step. eapply awp_mono; [apply (raster_ends R1); [done|exact Hs1|unfold enough in *; lia]|].
  intros [[]|e] t2; [|done]. intros [Hf2 (R2 & HR2 & Hs2)].
  assert (below R t2) as Hb2 by (exists R2; split; [lia|done]). destruct Hf2 as (Hg2 & _).
  case_match; [|by awp_step]. eapply awp_mono; [by apply background_ok|].
  intros [[]|e] t3; [|done]. intros [Hg3 E3]. split; [done|]. unfold below. by rewrite E3.
Qed.

Lemma skip_blocks_within R t : R < Z.of_nat fuel → below R t →
  awp_ok (skip_blocks fuel) t (λ _ t', t'.1.2 = t.1.2 ∧ below R t').
Proof.
  intros Hf (R1 & HR1 & Hs1). eapply awp_ok_mono; [apply (skip_blocks_ok R1 t Hs1); lia|]. cbn beta.
  intros _ t' [E (R2 & HR2 & H2)]. split; [done|]. exists R2. split; [lia|done].
Qed.

Lemma control_ok R t : canvas_ok t.1.2 → below R t →
  awp gif_control t (λ o t', match o with Val _ => canvas_ok t'.1.2 ∧ below R t' | Fail _ => True end).
Proof.
  intros Hg Hs. destruct t as [[s g] c]. cbn [fst snd] in *. unfold gif_control, get_gif, set_gif.
  eapply on_context_next; [by apply (get8_within R)|]; cbn beta; clear s Hs; intros e s [He Hs].
  eapply on_context_next; [by apply (get16_within R)|]; cbn beta; clear s Hs; intros d s [Hd Hs].
  awp_step. awp_step. cbn [fst snd]. pose proof Hg as [[] ? ? ? ? ?]. awp_step. awp_step.
  set (okp := λ p : list Z, zlen p = 1024 ∧ Forall is_byte p).
  assert (∀ tr p v, -1 ≤ tr < 256 → okp p → is_byte v → wp (if 0 <=? tr then wr p (4 * tr + 3) v else Ok p) okp) as Hwr.
  { intros tr p v Htr [Hp Hpb] Hv. destruct (Z.leb_spec 0 tr); [|done]. rewrite wr_ok by lia. cbn [wp].
    split; [by rewrite length_zset|by apply bytes_zset]. }
  eapply wp_mono; [by apply (Hwr _ _ 255)|]. cbn beta. intros p1 Hp1. case_match.
  - eapply on_context_next; [by apply (get8_within R)|]; cbn beta; clear s Hs; intros tr s [[Ht0 Ht1] Hs].
    awp_step. awp_step. eapply wp_mono; [apply (Hwr tr p1 0); [lia|done|done]|]. cbn beta. intros p2 [Hp2 Hb2].
    awp_step. cbn [fst snd]. split; [|done]. split; try done. split; cbn; done || lia.
  - eapply on_context_next; [by apply (skip_within R)|]; cbn beta; clear s Hs; intros _ s Hs. destruct Hp1.
    awp_step. cbn [fst snd]. split; [|done]. by split.
Qed.

Lemma extension_ok R t : R < Z.of_nat fuel → canvas_ok t.1.2 → below R t →
  awp (gif_extension fuel) t (λ o t', match o with Val _ => canvas_ok t'.1.2 ∧ below R t' | Fail _ => True end).
Proof.
  intros Hf Hg Hs. destruct t as [[s g] c]. cbn [fst snd] in *. unfold gif_extension.
  assert (∀ t, canvas_ok t.1.2 → below R t → awp (skip_blocks fuel) t (λ o t', match o with Val _ => canvas_ok t'.1.2 ∧ below R t' | Fail _ => True end)) as Hblocks.
  { intros t Hg' Hs'. eapply awp_mono; [by apply (skip_blocks_within R)|]. intros [[]|e] t'; [|done]. by intros [-> ?]. }
  eapply on_context_next; [by apply (get8_within R)|]; cbn beta; clear s Hs; intros ext s [He Hs].
  case_match; [|by apply Hblocks].
  eapply on_context_next; [by apply (get8_within R)|]; cbn beta; clear s Hs; intros len s [[Hl _] Hs].
  case_match.
  - awp_step. eapply awp_mono; [by apply (control_ok R)|]. intros [[]|e] t; [|done]. intros [Hg1 Hs1]. by apply Hblocks.
  - eapply awp_mono; [eapply (on_context_ok _ _ (λ _ s', within R s')); [by apply skip_within|]|].
    + intros a s1 Hs1. instantiate (1 := λ _ t', canvas_ok t'.1.2 ∧ below R t'). by split.
    + by intros [].
Qed.

(** One block: the frame, the end, or an extension, which consumes input. *)
Definition block_post (R : Z) (t : gif_state) (o : outcome (ctl unit bool)) (t' : gif_state) : Prop :=
  match o with
  | Val (Next _) => (canvas_ok t'.1.2 ∧ below R t') ∧ (length (remaining t'.1.1) < length (remaining t.1.1))%nat
  | Val (Break _) => False
  | Val (Return true) => canvas_ok t'.1.2
  | _ => True
  end.

Lemma block_ok R (first_frame : bool) t : enough R → canvas_ok t.1.2 → below R t →
  awp (tag ← on_context stbi__get8;
       if tag =? 0x2C then gif_image fuel first_frame;; mret (Return true)
       else if tag =? 0x21 then gif_extension fuel;; mret (Next ())
       else if tag =? 0x3B then mret (Return false)
       else fail "unknown code") t (block_post R t).
Proof using Hroom.
  intros Hfuel Hg (R1 & HR1 & Hs). destruct t as [[s g] c]. cbn [fst snd] in *.
  assert (zlen (remaining s) = R1) as Elen by apply Hs.
  eapply on_context_next; [by apply (get8_upto R1)|]. cbn beta. intros b s1 (Hb & Hs1 & H0).
  assert (below (Z.max 0 (R1 - 1)) (s1, g, c)) as Hb1 by by apply upto_within.
  case_match.
  { awp_step. eapply awp_mono; [apply (image_ok (Z.max 0 (R1 - 1))); [unfold enough in *; lia|done|done]|].
    intros [[]|e] t; [|done]. intros [Hg1 _]. by awp_step. }
  case_match; [|case_match; by awp_step].
  assert (R1 ≠ 0) as Hne by (intros ->; rewrite H0 in *; done). awp_step. eapply awp_mono; [apply (extension_ok (Z.max 0 (R1 - 1))); [unfold enough in *; lia|done|done]|].
  intros [[]|e] t; [|done]. intros [Hg1 (R2 & HR2 & Hs2)]. awp_step. split.
  - split; [done|]. exists R2. split; [lia|done].
  - destruct Hs2 as (_ & _ & E2). cbn [fst]. lia.
Qed.

Lemma load_next_ok l s g c : screen l = (W, H) → reads l 0 s → enough (zlen l) → store_ok g → out g = None →
  awp (stbi__gif_load_next fuel None) (s, g, c) (λ o t, match o with Val true => canvas_ok t.1.2 | _ => True end).
Proof using Hroom.
  intros HWH Hl Hfuel Hg Hout. unfold stbi__gif_load_next, get_gif, set_gif. awp_step. awp_step. cbn [fst snd]. rewrite Hout. cbn beta iota.
  awp_step. eapply awp_mono; [by apply (start_ok l)|]. intros [[]|e] t1; [|done]. intros [Hg1 Hb1].
  awp_step. awp_step. pose proof Hg1 as [Hst EW EH (o & Eo & Ho & Hob) Hbg Hhist].
  destruct Hroom as (Hw & Hh & Hr). rewrite EW, EH.
  assert (0 ≤ W * H) as Hp by (clear - Hw Hh; nia).
  awp_step. awp_step. apply memset_wp; [lia|lia|lia|]. intros hist Hl1 _. cbv beta iota. awp_step. awp_step.
  awp_step. apply (awp_loop (λ _ t, canvas_ok t.1.2 ∧ below (zlen l) t) (λ _ t, length (remaining t.1.1))).
  - split; [|exact Hb1]. split; cbn; try done; [by destruct Hst|by exists o|lia].
  - destruct Hb1 as (R & HR & _ & _ & E). unfold enough in Hfuel. cbn [fst]. lia.
  - intros [] t2 [Hg2 Hb2]. eapply awp_mono; [by apply (block_ok (zlen l))|].
    intros [[[]|[]|[]]|e] t3; cbv beta iota delta [block_post]; [done|done| | |done]; intros; by awp_step.
Qed.

End raster.
End canvas.

(** ** The whole file *)
Section file.
Context `{Env : StbiEnv} {Cb : Callbacks}.

Lemma gif_zero_ok : store_ok gif_zero.
Proof.
  assert (∀ n, Forall is_byte (replicate n 0)) as Hz by (intros n; apply Forall_replicate; by split).
  split; try apply Hz; try (cbn; lia); cbn [gif_zero pal lpal codes]; by rewrite length_replicate.
Qed.

(** The conversion reads a canvas of the right size. *)
Lemma convert_canvas o x y req s : zlen o = 4 * (x * y) → Forall is_byte o → 1 ≤ req < 4 → 0 ≤ x ≤ INT_MAX → 0 ≤ y ≤ INT_MAX →
  awp (stbi__convert_format o 4 req x y) s (λ r (_ : stbi__context), match r with
    | Val p => zlen p = x * y * req | Fail _ => True end).
Proof.
  intros Ho Hb Hreq Hx Hy. unfold stbi__convert_format, or_outofmem. rewrite (proj2 (Z.eqb_neq req 4)) by lia.
  rewrite (proj2 (Z.leb_le 1 req)), (proj2 (Z.leb_le req 4)) by lia. cbn [andb negb].
  rewrite !sx_32_small by (c_unfold; lia).
  destruct (malloc_mad_eq req x y 0 0) as (_ & -> & _); [c_unfold; lia..|].
  unfold block, stbi__malloc. awp_step. awp_step. awp_step. cbn [wp].
  case_bool_decide as Hf; cbn [mad_fits] in Hf; [|by apply awp_fail]. rewrite Z.add_0_r.
  destruct (malloc_ok (req * x * y)); [|by apply awp_fail]. awp_step. awp_step. awp_step.
  assert (0 ≤ req * x * y) as Hp by (clear - Hreq Hx Hy; destruct Hx, Hy; nia).
  apply convert_rows_wp; [lia..| | | | |].
  - cbn. lia.
  - intros j Hj. cbn in *. destruct (bytes_znth o j Hb Hj). unfold in_range. lia.
  - cbn. rewrite length_malloc. lia.
  - c_unfold. lia.
  - intros p Hl _. awp_step. rewrite Hl, length_malloc. lia.
Qed.

(** C9. [stbi__gif_load] is safe and ends on every input whose screen of [x] by [y]
    pixels leaves room for eight more rows ([4 * x * (y + 8)] fits an [int]):
    whatever the other bytes are, from memory or through callbacks, no access
    leaves a buffer or the code table, no [int] overflows and no loop or
    recursion runs on; it fails with a message or gives an image of the size in
    the header, with four channels or the number asked for.  On the few larger
    screens that are accepted nothing is claimed: an interlaced frame steps up to
    eight rows past the end, and there the position can overflow. *)
Theorem gif_load_safe fuel comp0 req s :
  ctx_ok s → Forall is_byte (remaining s) → 2304 * zlen (remaining s) + 1 < Z.of_nat fuel → 0 ≤ req ≤ 4 →
  (let '(x, y) := screen (remaining s) in row_room x y) →
  awp (stbi__gif_load fuel comp0 req) s (λ o _, match o with
    | Val im => (img_w im, img_h im) = screen (remaining s) ∧
        zlen (pixels im) = img_w im * img_h im * (if req =? 0 then 4 else req)
    | Fail _ => True
    end).
Proof.
  intros Hok Hb Hfuel Hreq Hroom. assert (reads (remaining s) 0 s) as Hl by done.
  destruct (screen (remaining s)) as [x y] eqn:Es.
  pose proof (load_next_ok x y Hroom fuel _ s gif_zero comp0 Es Hl Hfuel gif_zero_ok eq_refl) as H.
  unfold awp, stbi__gif_load in *. destruct (stbi__gif_load_next fuel None (s, gif_zero, comp0)) as [[[[]|e] [[s1 g] c]]| |]; try done.
  destruct H as [Hst EW EH (o & Eo & Ho & Hob) _ _]. cbn [fst snd] in *. rewrite Eo, EW, EH.
  injection Es as Ex Ey. pose proof (le16_range _ 6 s Hl) as Hx. pose proof (le16_range _ 8 s Hl) as Hy. rewrite Ex in Hx. rewrite Ey in Hy.
  match goal with |- wp (?m s1) _ => change (awp m s1 (λ o _, match o with
    | Val im => (img_w im, img_h im) = (x, y) ∧ zlen (pixels im) = img_w im * img_h im * (if req =? 0 then 4 else req) | Fail _ => True end)) end.
  apply awp_bind. destruct (negb (req =? 0) && negb (req =? 4)) eqn:Er.
  - eapply awp_mono; [apply (convert_canvas o x y req s1); [done|done|lia|c_unfold; lia|c_unfold; lia]|].
    intros [p|e] s2; [|done]. intros Hp. awp_step. cbn. split; [done|]. destruct (Z.eqb_spec req 0); [lia|done].
  - awp_step. awp_step. cbn. split; [done|]. destruct (Z.eqb_spec req 0), (Z.eqb_spec req 4); try done; lia.
Qed.

(** ** The frame before the last one

    [two_back] is [out - 2 * stride]: [2 * stride] bytes before the buffer, not
    before the place of the next frame. *)
Lemma restore_before hist src off pcount o : off + 4 * pcount ≤ 0 → zlen hist = pcount → (∃ i, 0 ≤ i < pcount ∧ hist.[i] ≠ 0) →
  restore_pixels hist src off pcount o = Undef.
Proof.
  intros Hoff Hl (k & Hk & Hne). apply wpu_undef. unfold restore_pixels.
  apply (for_range_wpu (λ i _, ∀ j, 0 ≤ j < i → hist.[j] = 0)).
  - intros j Hj. lia.
  - intros i o1 Hi Hz. rewrite rd_ok by lia. cbn [mbind Res_bind]. destruct (Z.eqb_spec hist.[i] 0) as [E|E]; cbn [negb].
    + cbn [wpu]. intros j Hj. destruct (decide (j = i)) as [->|]; [done|]. apply Hz. lia.
    + unfold memcpy. rewrite (proj2 (Z.leb_gt 0 (off + i * 4))) by lia. by rewrite !andb_false_r.
  - intros _ Hz. apply Hne, Hz. lia.
Qed.

(** C40. An animated file whose frames ask for the frame before the last one
    (disposal 3) is decoded out of bounds: once two frames are in the buffer and
    [two_back] is set, the next frame reads memory before the buffer as soon as
    the frame before it has drawn a pixel. *)
Theorem gif_restore_undefined fuel want_delays f s g c o cur :
  all_out f = Some o → back f = Some (- (2 * (w g * h g * 4))) →
  out g = Some cur → zlen (history g) = w g * h g →
  Z.shiftr (Z.land (eflags g) 0x1C) 2 = 3 → (∃ i, 0 ≤ i < w g * h g ∧ (history g).[i] ≠ 0) →
  gif_next_frame fuel want_delays f (s, g, c) = Undef.
Proof.
  intros Ho Hb Hout Hl Hd Hdrawn. unfold gif_next_frame. rewrite Ho, Hb. cbv zeta.
  enough (stbi__gif_load_next fuel (Some (o, - (2 * (w g * h g * 4)))) (s, g, c) = Undef) as E.
  { unfold mbind, Act_bind, attempt at 1. by rewrite E. }
  assert (gif_dispose (Some (o, - (2 * (w g * h g * 4)))) (s, g, c) = Undef) as E.
  { unfold gif_dispose, get_gif, gets, mbind, Act_bind. cbn [fst snd]. rewrite Hd, Hout. cbv beta iota zeta.
    rewrite restore_before; [done| |done|done]. destruct Hdrawn as (i & Hi & _). lia. }
  unfold stbi__gif_load_next, get_gif, gets, mbind, Act_bind in *. cbn [fst snd]. rewrite Hout. cbv beta iota. by rewrite E.
Qed.
End file.

(** ** Concrete inputs

    One red pixel, alone and three times with disposal 3. *)
Section example.
Definition toy_screen : list Z := [0x47; 0x49; 0x46; 0x38; 0x39; 0x61; 1; 0; 1; 0; 0x80; 0; 0; 255; 0; 0; 0; 0; 255].
Definition toy_control : list Z := [0x21; 0xF9; 4; 0x0C; 0; 0; 0; 0].
Definition toy_frame : list Z := [0x2C; 0; 0; 0; 0; 1; 0; 1; 0; 0; 2; 2; 0x44; 1; 0].
Definition toy_gif : list Z := toy_screen ++ toy_frame ++ [0x3B].
Definition toy_animation : list Z := toy_screen ++ mjoin (replicate 3 (toy_control ++ toy_frame)) ++ [0x3B].
Definition toy_fuel : nat := Z.to_nat 100000.

Lemma gif_load_safe_witness : ∃ im s',
  @stbi__gif_load toy_env toy_fuel 0 3 (@stbi__start_mem toy_env toy_gif (zlen toy_gif)) = Ok (Val im, s') ∧
  (img_w im, img_h im) = (1, 1) ∧ zlen (pixels im) = 3.
Proof.
  destruct (@start_mem_ok toy_env toy_callbacks toy_gif (zlen toy_gif) (Z.le_refl _)) as [Hok Hrem].
  rewrite Nat2Z.id, take_ge in Hrem by lia.
  assert (Forall is_byte toy_gif) as Hb by (unfold is_byte; apply (bool_decide_unpack _); vm_compute; exact I).
  pose proof (@gif_load_safe toy_env toy_callbacks toy_fuel 0 3 (stbi__start_mem toy_gif (zlen toy_gif)) Hok) as H.
  rewrite Hrem in H. specialize (H Hb ltac:(vm_compute; reflexivity) ltac:(lia)).
  destruct (awp_elim _ _ _ (H ltac:(vm_compute; repeat split; discriminate))) as ([im|e] & s' & E & Him).
  - exists im, s'. split; [exact E|]. destruct Him as [Hs Hp]. split; [exact Hs|]. change (screen toy_gif) with (1, 1) in Hs.
    injection Hs as Hw Hh. rewrite Hp, Hw, Hh. reflexivity.
  - exfalso. assert (match @stbi__gif_load toy_env toy_fuel 0 3 (@stbi__start_mem toy_env toy_gif (zlen toy_gif)) with
      Ok (Val _, _) => true | _ => false end = true) as Hval by (vm_compute; reflexivity). by rewrite E in Hval.
Defined.

(** The structure after two frames that drew their pixel. *)
Definition toy_drawn : stbi__gif :=
  set_screen 1 1 0x80 0 0 (set_control (-1) 0x0C 0 (set_buffers (Some [255; 0; 0; 255]) [0; 0; 0; 0] [1] gif_zero)).
Definition toy_two : frames :=
  {| layers := 2; all_out := Some [255; 0; 0; 255; 255; 0; 0; 255]; delays := [0; 0]; back := Some (-8) |}.

Lemma gif_restore_undefined_witness :
  @gif_next_frame toy_env toy_fuel false toy_two
    (@stbi__start_mem toy_env [] 0, toy_drawn, 4) = Undef ∧
  @stbi__load_gif_main toy_env toy_fuel false 0 0 0 4 (@stbi__start_mem toy_env toy_animation (zlen toy_animation)) = Undef.
Proof.
  split.
  - apply (@gif_restore_undefined toy_env toy_fuel false toy_two _ toy_drawn 4 _ [255; 0; 0; 255] eq_refl eq_refl eq_refl eq_refl eq_refl).
    exists 0. split; [split; reflexivity || discriminate|discriminate].
  - assert (match @stbi__load_gif_main toy_env toy_fuel false 0 0 0 4 (@stbi__start_mem toy_env toy_animation (zlen toy_animation)) with
      Undef => true | _ => false end = true) as H by (vm_compute; reflexivity).
    by destruct (@stbi__load_gif_main toy_env toy_fuel false 0 0 0 4 _).
Defined.
End example.
