(* ===== verification/StbHdr.v ===== *)
(** * stb_image: the HDR decoder (facet/gpu/stb_image.h, lines 7086-7332)

    A part of the header that [facet_image.c] leaves out of its build, and the
    counterpart of the HDR writer.  A token is a C string in a buffer of 1024
    bytes.  [fuel] bounds the loops that end with the input. *)
From S2P Require Import Prelude F32 StbMonad StbBase.

(** ** Strings of the C library *)

(** The characters of the string at [off]; undefined when nothing ends it. *)
Fixpoint c_string_of (l : list Z) : Res (list Z) :=
  match l with
  | [] => Undef
  | 0 :: _ => Ok []
  | c :: l => s ← c_string_of l; Ok (c :: s)
  end.

Definition isspace (c : Z) : bool :=
  (c =? 32) || (c =? 9) || (c =? 10) || (c =? 11) || (c =? 12) || (c =? 13).

Fixpoint drop_while (p : Z → bool) (s : list Z) : list Z :=
  match s with
  | c :: s' => if p c then drop_while p s' else s
  | [] => []
  end.

(** The value of the digits at the start, how many there are, and the rest. *)
Fixpoint digits (v n : Z) (s : list Z) : Z * Z * list Z :=
  match s with
  | c :: s' => if (48 <=? c) && (c <=? 57) then digits (10 * v + (c - 48)) (n + 1) s' else (v, n, s)
  | [] => (v, n, [])
  end.

(** [strtol(s, &end, 10)]: the value, saturated, and what is left; all of [s]
    when there is no number. *)
Definition strtol (s : list Z) : Z * list Z :=
  let t := drop_while isspace s in
  let '(neg, t) :=
    match t with
    | 45 :: t' => (true, t')
    | 43 :: t' => (false, t')
    | _ => (false, t)
    end in
  let '(v, n, rest) := digits 0 0 t in
  if n =? 0 then (0, s)
  else (if neg then Z.max LONG_MIN (- v) else Z.min LONG_MAX v, rest).

(** [strncmp(s, p, n) == 0] for a [p] of [n] characters, and what follows. *)
Fixpoint after_prefix (p s : list Z) : option (list Z) :=
  match p, s with
  | [], _ => Some s
  | a :: p, b :: s => if a =? b then after_prefix p s else None
  | _ :: _, [] => None
  end.

(** "#?RADIANCE", "#?RGBE", "FORMAT=32-bit_rle_rgbe", "-Y " and "+X ". *)
Definition hdr_radiance : list Z := [35; 63; 82; 65; 68; 73; 65; 78; 67; 69].
Definition hdr_rgbe : list Z := [35; 63; 82; 71; 66; 69].
Definition hdr_format : list Z :=
  [70; 79; 82; 77; 65; 84; 61; 51; 50; 45; 98; 105; 116; 95; 114; 108; 101; 95; 114; 103; 98; 101].
Definition hdr_y : list Z := [45; 89; 32].
Definition hdr_x : list Z := [43; 88; 32].

Definition STBI__HDR_BUFLEN : Z := 1024.

(** ** Pixels *)

(** What is stored for the bytes of a pixel. *)
Definition hdr_values (i0 i1 i2 i3 req_comp : Z) : list f32 :=
  if negb (i3 =? 0) then
    let f1 := dy 1 (i3 - (128 + 8)) in
    let grey := fdiv (fmul (fz (i0 + i1 + i2)) f1) (fz 3) in
    let rgb := [fmul (fz i0) f1; fmul (fz i1) f1; fmul (fz i2) f1] in
    if req_comp <=? 2 then (if req_comp =? 2 then [grey; fz 1] else [grey])
    else (if req_comp =? 4 then rgb ++ [fz 1] else rgb)
  else
    match req_comp with
    | 4 => [fz 0; fz 0; fz 0; fz 1]
    | 3 => [fz 0; fz 0; fz 0]
    | 2 => [fz 0; fz 1]
    | 1 => [fz 0]
    | _ => []
    end.

Definition stbi__hdr_convert (output : list f32) (off : Z) (input : list Z) (req_comp : Z)
  : Res (list f32) :=
  i0 ← rd input 0; i1 ← rd input 1; i2 ← rd input 2; i3 ← rd input 3;
  wr_samples wr output off (hdr_values i0 i1 i2 i3 req_comp).

Section hdr.
Context `{Env : StbiEnv} (fuel : nat).

(** ** The header *)
Definition stbi__hdr_test_core (signature : list Z) : Act stbi__context bool :=
  r ← a_for_ctl 0 (zlen signature) (λ i _,
    b ← stbi__get8; c ← lift (rd signature i);
    mret (if negb (b =? c) then Return () else Next ())) ();
  match r with
  | Gave _ => mret false
  | Fell _ => stbi__rewind;; mret true
  end.

Definition stbi__hdr_test : Act stbi__context bool :=
  r ← stbi__hdr_test_core (hdr_radiance ++ [10]);
  stbi__rewind;;
  if negb r then
    r ← stbi__hdr_test_core (hdr_rgbe ++ [10]); stbi__rewind;; mret r
  else mret true.

(** To the end of a line that is too long. *)
Definition flush_line : Act stbi__context unit :=
  r ← a_loop fuel (λ _,
    eof ← stbi__at_eof;
    if (eof : bool) then mret (Break ()) else
    c ← stbi__get8;
    mret (if c =? 10 then Break () else Next ())) ();
  mret (fell r).

(** A pass writes a character, so the buffer bounds their number. *)
Definition stbi__hdr_gettoken (buffer : list Z) : Act stbi__context (list Z) :=
  c ← stbi__get8;
  r ← a_loop 1024 (λ '(buffer, len, c),
    eof ← stbi__at_eof;
    if negb eof && negb (c =? 10) then
      buffer ← lift (wr buffer len c);
      let len := len + 1 in
      if len =? STBI__HDR_BUFLEN - 1 then flush_line;; mret (Break (buffer, len, c))
      else c ← stbi__get8; mret (Next (buffer, len, c))
    else mret (Break (buffer, len, c))) (buffer, 0, c);
  let '(buffer, len, _) := fell r in
  lift (wr buffer len 0).

Definition next_token (buffer : list Z) : Act stbi__context (list Z * list Z) :=
  buffer ← stbi__hdr_gettoken buffer;
  token ← lift (c_string_of buffer);
  mret (buffer, token).

(** The lines up to an empty one; whether the format is among them. *)
Definition hdr_lines (buffer : list Z) : Act stbi__context (list Z * bool) :=
  r ← a_loop fuel (λ '(buffer, valid),
    '(buffer, token) ← next_token buffer;
    mret (match token with
          | [] => Break (buffer, valid)
          | _ => Next (buffer, valid || bool_decide (token = hdr_format))
          end)) (buffer, false);
  mret (fell r).

(** "-Y height +X width"; [bad] is what the caller does with another layout. *)
Definition hdr_size (bad : Act stbi__context (Z * Z)) (token : list Z)
  : Act stbi__context (Z * Z) :=
  match after_prefix hdr_y token with
  | None => bad
  | Some token =>
      let '(height, token) := strtol token in
      match after_prefix hdr_x (drop_while (λ c, c =? 32) token) with
      | None => bad
      | Some token => mret (sx 32 (strtol token).1, sx 32 height)
      end
  end.

(** ** The pixels *)

(** The label [main_decode_loop] and the loops around it, entered at pixel
    [i0] of row [j0]; a pixel that is cut off keeps what the stack held. *)
Definition hdr_flat (width height req_comp j0 i0 : Z) (hdr_data : list f32)
  : Act stbi__context (list f32) :=
  a_for j0 height (λ j hdr_data,
    a_for (if j =? j0 then i0 else 0) width (λ i hdr_data,
      '(rgbe, _) ← stbi__getn (malloc_arr uninit 4) 0 4;
      lift (stbi__hdr_convert hdr_data (j * width * req_comp + i * req_comp) rgbe req_comp)) hdr_data)
    hdr_data.

(** A packet of channel [k] of a scanline: the scanline and [i]. *)
Definition hdr_packet (width k : Z) (s : list Z * Z) : Act stbi__context (ctl (list Z * Z) Empty_set) :=
  let '(scanline, i) := s in
  let nleft := width - i in
  if negb (0 <? nleft) then mret (Break s) else
  count ← stbi__get8;
  if 128 <? count then
    value ← stbi__get8;
    let count := count - 128 in
    fail_if ((count =? 0) || (nleft <? count)) "corrupt";;
    scanline ← lift (for_range 0 count (λ z sl, wr sl ((i + z) * 4 + k) value) scanline);
    mret (Next (scanline, i + count))
  else
    fail_if ((count =? 0) || (nleft <? count)) "corrupt";;
    scanline ← a_for 0 count (λ z sl, b ← stbi__get8; lift (wr sl ((i + z) * 4 + k) b)) scanline;
    mret (Next (scanline, i + count)).

(** Every packet has a pixel at least. *)
Definition hdr_channel (width k : Z) (scanline : list Z) : Act stbi__context (list Z) :=
  r ← a_loop (S (Z.to_nat width)) (hdr_packet width k) (scanline, 0);
  mret (fell r).1.

Definition hdr_channels (width : Z) (scanline : list Z) : Act stbi__context (list Z) :=
  a_for 0 4 (hdr_channel width) scanline.

(** A row of run-length coded data, or the first flat pixel of data that are
    not: those are decoded from the start. *)
Definition hdr_row (width height req_comp j : Z) (s : option (list Z) * list f32)
  : Act stbi__context (ctl (option (list Z) * list f32) (list f32)) :=
  let '(scanline, hdr_data) := s in
  c1 ← stbi__get8; c2 ← stbi__get8; len ← stbi__get8;
  if negb (c1 =? 2) || negb (c2 =? 2) || negb (Z.land len 0x80 =? 0) then
    e ← stbi__get8;
    hdr_data ← lift (stbi__hdr_convert hdr_data 0 [c1; c2; len; e] req_comp);
    hdr_data ← hdr_flat width height req_comp 0 1 hdr_data;
    mret (Return hdr_data)
  else
    lo ← stbi__get8;
    fail_if (negb (Z.lor (Z.shiftl len 8) lo =? width)) "invalid decoded scanline length";;
    scanline ← (match scanline with
                | Some sl => mret sl
                | None => or_outofmem (stbi__malloc_mad2 width 4 0)
                end);
    scanline ← hdr_channels width scanline;
    hdr_data ← lift (for_range 0 width (λ i hdr_data,
      rgbe ← rd_samples rd scanline (i * 4) 4;
      stbi__hdr_convert hdr_data ((j * width + i) * req_comp) rgbe req_comp) hdr_data);
    mret (Next (Some scanline, hdr_data)).

(** The samples, width, height and channels of the file. *)
Definition stbi__hdr_load (req_comp : Z) : Act stbi__context (list f32 * (Z * Z * Z)) :=
  '(buffer, token) ← next_token (malloc_arr uninit STBI__HDR_BUFLEN);
  fail_if (negb (bool_decide (token = hdr_radiance)) && negb (bool_decide (token = hdr_rgbe)))
    "not HDR";;
  '(buffer, valid) ← hdr_lines buffer;
  fail_if (negb valid) "unsupported format";;
  '(_, token) ← next_token buffer;
  '(width, height) ← hdr_size (fail "unsupported data layout") token;
  fail_if (STBI_MAX_DIMENSIONS <? height) "too large";;
  fail_if (STBI_MAX_DIMENSIONS <? width) "too large";;
  let req_comp := if req_comp =? 0 then 3 else req_comp in
  ok ← lift (stbi__mad4sizes_valid width height req_comp 4 0);
  fail_if (negb ok) "too large";;
  _ ← or_outofmem (stbi__malloc_mad4 width height req_comp 4 0);
  let hdr_data := replicate (Z.to_nat (width * height * req_comp)) (fz 0) in
  hdr_data ←
    (if (width <? 8) || (32768 <=? width) then hdr_flat width height req_comp 0 0 hdr_data
     else
       r ← a_for_ctl 0 height (hdr_row width height req_comp) (None, hdr_data);
       mret (match r with Fell (_, hdr_data) => hdr_data | Gave hdr_data => hdr_data end));
  mret (hdr_data, (width, height, 3)).

Definition stbi__hdr_info : Act stbi__context (Z * Z * Z) :=
  is_hdr ← stbi__hdr_test; refuse_if (negb is_hdr);;
  '(buffer, valid) ← hdr_lines (malloc_arr uninit STBI__HDR_BUFLEN);
  refuse_if (negb valid);;
  '(_, token) ← next_token buffer;
  '(x, y) ← hdr_size refuse token;
  mret (x, y, 3).
End hdr.
