(* ===== verification/StbPnm.v ===== *)
(** * stb_image: the PNM decoder (facet/gpu/stb_image.h, lines 7492-7630)

    A part of the header that [facet_image.c] leaves out of its build.  [char]
    is signed, as on the x86-64 target. *)
From S2P Require Import Prelude StbMonad StbBase.

(** [(char) stbi__get8(s)] *)
Definition char_of (b : Z) : Z := sx 8 b.

Definition stbi__pnm_isspace (c : Z) : bool :=
  (c =? 32) || (c =? 9) || (c =? 10) || (c =? 11) || (c =? 12) || (c =? 13).

Definition stbi__pnm_isdigit (c : Z) : bool := (48 <=? c) && (c <=? 57).

Section pnm.
Context `{Env : StbiEnv} (fuel : nat).

Definition get_char : Act stbi__context Z := b ← stbi__get8; mret (char_of b).

(** 'P', then '5' or '6'. *)
Definition pnm_kind (p t : Z) : bool := (p =? 80) && ((t =? 53) || (t =? 54)).

Definition stbi__pnm_test : Act stbi__context bool :=
  p ← get_char; t ← get_char;
  if negb (pnm_kind p t) then stbi__rewind;; mret false else mret true.

(** The inner loops: characters are read while [p] holds of the last one. *)
Definition skip_while (p : Z → bool) (c : Z) : Act stbi__context Z :=
  r ← a_loop fuel (λ c,
    eof ← stbi__at_eof;
    if negb eof && p c then c ← get_char; mret (Next c) else mret (Break c)) c;
  mret (fell r).

Definition stbi__pnm_skip_whitespace (c : Z) : Act stbi__context Z :=
  r ← a_loop fuel (λ c,
    c ← skip_while stbi__pnm_isspace c;
    eof ← stbi__at_eof;
    if eof || negb (c =? 35) then mret (Break c)
    else c ← skip_while (λ c, negb (c =? 10) && negb (c =? 13)) c; mret (Next c)) c;
  mret (fell r).

(** The number and the character after it; a number that would overflow gives
    0, like an error. *)
Definition stbi__pnm_getinteger (c : Z) : Act stbi__context (Z * Z) :=
  r ← a_loop fuel (λ '(value, c),
    eof ← stbi__at_eof;
    if negb eof && stbi__pnm_isdigit c then
      tens ← lift (i32 (value * 10));
      value ← lift (i32 (tens + (c - 48)));
      c ← get_char;
      mret (if (214748364 <? value) || ((value =? 214748364) && (55 <? c))
            then Return (0, c) else Next (value, c))
    else mret (Break (value, c))) (0, c);
  mret (match r with Fell s | Gave s => s end).

(** The bits of a sample, width, height and channels. *)
Definition stbi__pnm_info : Act stbi__context (Z * (Z * Z * Z)) :=
  stbi__rewind;;
  p ← get_char; t ← get_char;
  refuse_if (negb (pnm_kind p t));;
  let comp := if t =? 54 then 3 else 1 in
  c ← get_char;
  c ← stbi__pnm_skip_whitespace c;
  '(x, c) ← stbi__pnm_getinteger c;
  fail_if (x =? 0) "invalid width";;
  c ← stbi__pnm_skip_whitespace c;
  '(y, c) ← stbi__pnm_getinteger c;
  fail_if (y =? 0) "invalid width";;
  c ← stbi__pnm_skip_whitespace c;
  '(maxv, c) ← stbi__pnm_getinteger c;
  fail_if (65535 <? maxv) "max value > 65535";;
  mret (if 255 <? maxv then 16 else 8, (x, y, comp)).

Definition stbi__pnm_load (req_comp : Z) : Act stbi__context Image :=
  '(bits, (x, y, comp)) ← stbi__pnm_info;
  modify (λ s, set_img x y comp (img_out_n s) s);;
  fail_if (STBI_MAX_DIMENSIONS <? y) "too large";;
  fail_if (STBI_MAX_DIMENSIONS <? x) "too large";;
  ok ← lift (stbi__mad4sizes_valid comp x y (bits ÷ 8) 0); fail_if (negb ok) "too large";;
  out ← or_outofmem (stbi__malloc_mad4 comp x y (bits ÷ 8) 0);
  '(out, ok) ← stbi__getn out 0 (comp * x * y * (bits ÷ 8));
  fail_if (negb ok) "bad PNM";;
  out ← (if negb (req_comp =? 0) && negb (req_comp =? comp) then
           if bits =? 16 then stbi__convert_format16 out comp req_comp x y
           else stbi__convert_format out comp req_comp x y
         else mret out);
  mret {| pixels := out; img_w := x; img_h := y; img_comp := comp; img_bits := bits |}.

Definition stbi__pnm_is16 : Act stbi__context bool :=
  r ← attempt stbi__pnm_info;
  mret (match r with Val (bits, _) => bits =? 16 | Fail _ => false end).
End pnm.
