(* ===== verification/StbLoad.v ===== *)
(** * stb_image: the public interface, and Facet's image bridge

    The format dispatch and post-processing of facet/gpu/stb_image.h for the
    formats compiled in, the entry points that read from memory or through
    callbacks, and facet/gpu/facet_image.c.  [fuel] bounds the loops that end
    with the input. *)
From S2P Require Import Prelude F32 F64 StbMonad StbZlib StbPng StbBmp StbJpeg StbBase.

Section load.
Context `{Env : StbiEnv} `{Flags : Switches} (fuel : nat).

Definition stbi__load_main (req_comp bpc : Z) : Act stbi__context Image :=
  is_png ← stbi__png_test;
  if (is_png : bool) then stbi__png_load fuel req_comp else
  is_bmp ← stbi__bmp_test;
  if (is_bmp : bool) then stbi__bmp_load req_comp else
  is_jpeg ← stbi__jpeg_test fuel;
  if (is_jpeg : bool) then stbi__jpeg_load fuel req_comp else
  fail "unknown image type".

Definition set_pixels (l : list Z) (bits : Z) (i : Image) : Image :=
  {| pixels := l; img_w := img_w i; img_h := img_h i; img_comp := img_comp i; img_bits := bits |}.

(** [req_comp ? req_comp : *comp] *)
Definition channels_of (req_comp : Z) (i : Image) : Z :=
  if req_comp =? 0 then img_comp i else req_comp.

(** [STBI_ASSERT(ri.bits_per_channel == 8 || ri.bits_per_channel == 16);] *)
Definition assert_depth {S} (i : Image) : Act S unit :=
  if (img_bits i =? 8) || (img_bits i =? 16) then mret () else lift Undef.

Definition flip_on_load {S} (req_comp size : Z) (i : Image) : Act S Image :=
  if is_on stbi__vertically_flip_on_load then
    p ← lift (stbi__vertical_flip (pixels i) (img_w i) (img_h i) (channels_of req_comp i * size));
    mret (set_pixels p (img_bits i) i)
  else mret i.

Definition stbi__load_and_postprocess_8bit (req_comp : Z) : Act stbi__context Image :=
  i ← stbi__load_main req_comp 8;
  assert_depth i;;
  i ← (if negb (img_bits i =? 8) then
         p ← stbi__convert_16_to_8 (pixels i) (img_w i) (img_h i) (channels_of req_comp i);
         mret (set_pixels p 8 i)
       else mret i);
  flip_on_load req_comp 1 i.

Definition stbi__load_and_postprocess_16bit (req_comp : Z) : Act stbi__context Image :=
  i ← stbi__load_main req_comp 16;
  assert_depth i;;
  i ← (if negb (img_bits i =? 16) then
         p ← stbi__convert_8_to_16 (pixels i) (img_w i) (img_h i) (channels_of req_comp i);
         mret (set_pixels p 16 i)
       else mret i);
  flip_on_load req_comp 2 i.

(** The image and its samples as linear floats. *)
Definition stbi__loadf_main (l2h_gamma l2h_scale : f32) (req_comp : Z)
  : Act stbi__context (Image * list f32) :=
  r ← attempt (stbi__load_and_postprocess_8bit req_comp);
  match r with
  | Val i =>
      p ← stbi__ldr_to_hdr l2h_gamma l2h_scale (pixels i) (img_w i) (img_h i)
            (channels_of req_comp i);
      mret (i, p)
  | Fail _ => fail "unknown image type"
  end.

(** The first of two tests that succeeds. *)
Definition or_else {S A} (m n : Act S A) : Act S A :=
  r ← attempt m; match r with Val a => mret a | Fail _ => n end.

Definition stbi__info_main : Act stbi__context (Z * Z * Z) :=
  or_else (stbi__jpeg_info fuel) (or_else (stbi__png_info fuel)
    (or_else stbi__bmp_info (fail "unknown image type"))).

Definition stbi__is_16_main : Act stbi__context bool :=
  r ← attempt (stbi__png_is16 fuel);
  mret (match r with Val b => b | Fail _ => false end).

(** ** Sources: a buffer of [len] bytes, or the client's callbacks *)
Definition from_memory {A} (m : Act stbi__context A) (buffer : list Z) (len : Z)
  : Res (outcome A) :=
  fst <$> m (stbi__start_mem buffer len).

Definition from_callbacks {A} (m : Act stbi__context A) (u : user) : Res (outcome A) :=
  s ← stbi__start_callbacks u; fst <$> m s.

Definition stbi_load_from_memory (buffer : list Z) (len req_comp : Z) : Res (outcome Image) :=
  from_memory (stbi__load_and_postprocess_8bit req_comp) buffer len.
Definition stbi_load_from_callbacks (u : user) (req_comp : Z) : Res (outcome Image) :=
  from_callbacks (stbi__load_and_postprocess_8bit req_comp) u.
Definition stbi_load_16_from_memory (buffer : list Z) (len req_comp : Z) : Res (outcome Image) :=
  from_memory (stbi__load_and_postprocess_16bit req_comp) buffer len.
Definition stbi_load_16_from_callbacks (u : user) (req_comp : Z) : Res (outcome Image) :=
  from_callbacks (stbi__load_and_postprocess_16bit req_comp) u.
Definition stbi_loadf_from_memory (gamma scale : f32) (buffer : list Z) (len req_comp : Z)
  : Res (outcome (Image * list f32)) :=
  from_memory (stbi__loadf_main gamma scale req_comp) buffer len.
Definition stbi_loadf_from_callbacks (gamma scale : f32) (u : user) (req_comp : Z)
  : Res (outcome (Image * list f32)) :=
  from_callbacks (stbi__loadf_main gamma scale req_comp) u.
Definition stbi_info_from_memory (buffer : list Z) (len : Z) : Res (outcome (Z * Z * Z)) :=
  from_memory stbi__info_main buffer len.
Definition stbi_info_from_callbacks (u : user) : Res (outcome (Z * Z * Z)) :=
  from_callbacks stbi__info_main u.
Definition stbi_is_16_bit_from_memory (buffer : list Z) (len : Z) : Res (outcome bool) :=
  from_memory stbi__is_16_main buffer len.
Definition stbi_is_16_bit_from_callbacks (u : user) : Res (outcome bool) :=
  from_callbacks stbi__is_16_main u.

(** Without the HDR reader no image is one. *)
Definition stbi_is_hdr_from_memory (buffer : list Z) (len : Z) : bool := false.
Definition stbi_is_hdr_from_callbacks (u : user) : bool := false.

(** ** facet_image.c *)

(** The RGBA pixels, [*out_w] and [*out_h]; [None] is [NULL]. *)
Definition facet_image_decode (bytes : list Z) (len : Z) : Res (option (list Z * Z * Z)) :=
  r ← stbi_load_from_memory bytes len 4;
  Ok (match r with Val i => Some (pixels i, img_w i, img_h i) | Fail _ => None end).
End load.
