(* ===== verification/StbFormats.v ===== *)
(** * stb_image: the dispatch with every format compiled in (facet/gpu/stb_image.h)

    What [StbLoad] is for the configuration of [facet_image.c], for the header
    without any [STBI_NO_...]: the order of the tests, the conversion of HDR
    data to bytes, and animated GIFs.  [h2l_gamma_i] and [h2l_scale_i] are the
    two settings of that conversion. *)
From S2P Require Import Prelude F32 F64 StbMonad StbZlib StbPng StbBmp StbJpeg StbPsd StbTga StbPic.
From S2P Require Import StbGif StbHdr StbPnm StbLoad StbBase.

(** [1/gamma] and [1/scale] *)
Definition stbi_hdr_to_ldr_gamma (gamma : f32) : f32 := fdiv (fz 1) gamma.
Definition stbi_hdr_to_ldr_scale (scale : f32) : f32 := fdiv (fz 1) scale.

Section formats.
Context `{Env : StbiEnv} `{Flags : Switches} (fuel : nat) (h2l_gamma_i h2l_scale_i : f32).

(** [z] between 0 and 255, as a byte; [stbi__float2int] is a conversion. *)
Definition clamp_float (z : f32) : Res Z :=
  let z := if flt z (fz 0) then fz 0 else z in
  let z := if flt (fz 255) z then fz 255 else z in
  i ← f2i z; Ok (u8 i).

Definition stbi__hdr_to_ldr {S} (data : list f32) (x y comp : Z) : Act S (list Z) :=
  output ← or_outofmem (stbi__malloc_mad3 x y comp 0);
  let n := if Z.testbit comp 0 then comp else comp - 1 in
  xy ← lift (i32 (x * y));
  lift (for_range 0 xy (λ i output,
    output ← for_range 0 n (λ k output,
      v ← rd data (i * comp + k);
      b ← clamp_float (fadd (fmul (d2f (pow (f2d (fmul v h2l_scale_i)) (f2d h2l_gamma_i))) (fz 255))
                         (flit 1 2));
      wr output (i * comp + k) b) output;
    if n <? comp then
      v ← rd data (i * comp + n);
      b ← clamp_float (fadd (fmul v (fz 255)) (flit 1 2));
      wr output (i * comp + n) b
    else Ok output) output).

(** [x0], [y0] and [comp0] are what the caller's variables hold, for the two
    loaders that may not set them. *)
Definition load_main_all (comp0 req_comp bpc : Z) : Act stbi__context Image :=
  is_png ← stbi__png_test; if (is_png : bool) then stbi__png_load fuel req_comp else
  is_bmp ← stbi__bmp_test; if (is_bmp : bool) then stbi__bmp_load req_comp else
  is_gif ← stbi__gif_test; if (is_gif : bool) then stbi__gif_load fuel comp0 req_comp else
  is_psd ← stbi__psd_test; if (is_psd : bool) then stbi__psd_load fuel req_comp bpc else
  is_pic ← stbi__pic_test; if (is_pic : bool) then stbi__pic_load fuel comp0 req_comp else
  is_jpeg ← stbi__jpeg_test fuel; if (is_jpeg : bool) then stbi__jpeg_load fuel req_comp else
  is_pnm ← stbi__pnm_test; if (is_pnm : bool) then stbi__pnm_load fuel req_comp else
  is_hdr ← stbi__hdr_test;
  if (is_hdr : bool) then
    '(hdr, (x, y, comp)) ← stbi__hdr_load fuel req_comp;
    data ← stbi__hdr_to_ldr hdr x y (if req_comp =? 0 then comp else req_comp);
    mret {| pixels := data; img_w := x; img_h := y; img_comp := comp; img_bits := 8 |}
  else
  is_tga ← stbi__tga_test; if (is_tga : bool) then stbi__tga_load req_comp else
  fail "unknown image type".

Definition info_main_all : Act stbi__context (Z * Z * Z) :=
  or_else (stbi__jpeg_info fuel) (or_else (stbi__png_info fuel) (or_else stbi__gif_info
    (or_else stbi__bmp_info (or_else stbi__psd_info (or_else stbi__pic_info
      (or_else ('(_, r) ← stbi__pnm_info fuel; mret r) (or_else (stbi__hdr_info fuel)
        (or_else stbi__tga_info (fail "unknown image type"))))))))).

(** A test that fails counts as no. *)
Definition or_no {S} (m : Act S bool) : Act S bool :=
  r ← attempt m; mret (match r with Val b => b | Fail _ => false end).

Definition is_16_main_all : Act stbi__context bool :=
  b ← or_no (stbi__png_is16 fuel); if (b : bool) then mret true else
  b ← or_no stbi__psd_is16; if (b : bool) then mret true else
  stbi__pnm_is16 fuel.

Definition is_hdr_from_memory (buffer : list Z) (len : Z) : Res (outcome bool) :=
  from_memory stbi__hdr_test buffer len.
Definition is_hdr_from_callbacks (u : user) : Res (outcome bool) :=
  from_callbacks stbi__hdr_test u.

(** The frames are flipped one by one, from a moving pointer. *)
Definition stbi__vertical_flip_slices (image : list Z) (w h z bytes_per_pixel : Z) : Res (list Z) :=
  wh ← i32 (w * h); slice_size ← i32 (wh * bytes_per_pixel);
  fst <$> for_range 0 z (λ _ '(bytes, off),
    slice ← (if (0 <=? off) && (off <=? zlen bytes)
             then stbi__vertical_flip (drop (Z.to_nat off) bytes) w h bytes_per_pixel else Undef);
    Ok (take (Z.to_nat off) bytes ++ slice, off + slice_size)) (image, 0).

(** The frames have [comp] channels when they are flipped, whatever was asked
    for.  [x0], [y0], [z0] and [comp0] are the caller's variables, and an empty
    list is [NULL]. *)
Definition stbi_load_gif_from_memory (want_delays : bool) (buffer : list Z) (len x0 y0 z0 comp0 req_comp : Z)
  : Res (outcome (Image * Z * list Z)) :=
  r ← from_memory (stbi__load_gif_main fuel want_delays x0 y0 comp0 req_comp) buffer len;
  if is_on stbi__vertically_flip_on_load then
    match r with
    | Val (i, z, d) =>
        p ← stbi__vertical_flip_slices (pixels i) (img_w i) (img_h i) z (img_comp i);
        Ok (Val (set_pixels p 8 i, z, d))
    | Fail e => stbi__vertical_flip_slices [] x0 y0 z0 comp0;; Ok (Fail e)
    end
  else Ok r.
End formats.
