(* ===== verification/StbJpegBlock.v ===== *)
(** * stb_image and stb_image_write: JPEG blocks there and back

    The decoder's bit buffer over the bits to come, its Huffman tables against
    the writer's, and the round trip: what the writer's entropy coder puts out
    for a sequence of blocks, the decoder turns into the same coefficients. *)
From S2P Require Import Prelude StbMonad StbBase StbBaseSpec StbStream StbZlib StbBits StbJpeg.
From S2P Require Import StbWrite StbWriteJpeg BitString StbWriteJpegSpec.

(** ** The decoder's tables against the writer's

    What a lookup finds for the code [c] of [n] bits of the symbol [s]. *)
Definition shaped (h : stbi__huffman) : bool :=
  (zlen (fast h) =? 512) && (zlen (size h) =? 257) && (zlen (values h) =? 256) &&
  (zlen (maxcode h) =? 18) && (zlen (delta h) =? 17) && (zlen (code h) =? 256).

Definition fast_entry (h : stbi__huffman) (s c n i : Z) : bool :=
  let k := (fast h).[c * 2 ^ (9 - n) + i] in
  (0 <=? k) && (k <? 255) && ((size h).[k] =? n) && ((values h).[k] =? s).

Definition slow_entry (h : stbi__huffman) (s c n : Z) : bool :=
  let d := sx 32 (u32 (c + (delta h).[n])) in
  ((fast h).[c / 2 ^ (n - 9)] =? 255) &&
  forallb (λ k, (maxcode h).[k] <=? c * 2 ^ (16 - n)) (seqZ 10 (n - 10)) &&
  ((c + 1) * 2 ^ (16 - n) <=? (maxcode h).[n]) && (0 <=? d) && (d <? 256) &&
  ((size h).[d] =? n) && ((code h).[d] =? c) && ((values h).[d] =? s).

Definition good_symbol (h : stbi__huffman) (T : HT) (s : Z) : bool :=
  let '(c, n) := T.[s] in
  (1 <=? n) && (n <=? 16) && (0 <=? c) && (c <? 2 ^ n) &&
  if n <=? 9 then forallb (fast_entry h s c n) (seqZ 0 (2 ^ (9 - n))) else slow_entry h s c n.

(** An entry of the table of short AC coefficients. *)
Definition good_fast_ac (h : stbi__huffman) (fac : list Z) (i : Z) : bool :=
  let r := fac.[i] in
  let k := (fast h).[i] in
  let s := (values h).[k] in
  let mag := Z.land s 15 in
  let total := (size h).[k] + mag in
  let e := (i / 2 ^ (9 - total)) mod 2 ^ mag in
  (r =? 0) || ((k <? 255) && (1 <=? mag) && (Z.land r 15 =? total) && (total <=? 9) &&
    (Z.land (Z.shiftr r 4) 15 =? Z.shiftr s 4) &&
    (Z.shiftr r 8 =? (if e <? 2 ^ (mag - 1) then e - 2 ^ mag + 1 else e))).

(** The tables decode every symbol of a DC or an AC table that eight-bit samples
    need. *)
Definition dc_ok (h : stbi__huffman) (T : HT) : bool := shaped h && forallb (good_symbol h T) (seqZ 0 12).
Definition ac_symbols : list Z := 0 :: 0xf0 :: (seqZ 0 16 ≫= λ run, (λ c, run * 16 + c) <$> seqZ 1 10).
Definition ac_ok (h : stbi__huffman) (fac : list Z) (T : HT) : bool :=
  shaped h && (zlen fac =? 512) && forallb (good_fast_ac h fac) (seqZ 0 512) && forallb (good_symbol h T) ac_symbols.

Lemma ac_symbol_in run c : 0 ≤ run ≤ 15 → 1 ≤ c ≤ 10 → run * 16 + c ∈ ac_symbols.
Proof.
  intros Hr Hc. unfold ac_symbols. do 2 right. apply list_elem_of_bind. exists run. split; [|apply elem_of_seqZ; lia].
  apply list_elem_of_fmap. exists c. split; [done|]. apply elem_of_seqZ. lia.
Qed.

(** ** Blocks in natural order *)

(** The coefficients [DU], in zigzag order, multiplied and put in place. *)
Definition dezigzag_block (dequant DU : list Z) : list Z :=
  (λ p, i16 (DU.[stbiw__jpg_ZigZag.[p]] * dequant.[p])) <$> seqZ 0 64.

(** The first [k] coefficients, and zeros. *)
Definition padded (k : Z) (DU : list Z) : list Z := take (Z.to_nat k) DU ++ replicate (Z.to_nat (64 - k)) 0.

Lemma zigzag_inverse k : 0 ≤ k < 64 →
  0 ≤ stbi__jpeg_dezigzag.[k] < 64 ∧ stbiw__jpg_ZigZag.[stbi__jpeg_dezigzag.[k]] = k ∧
  0 ≤ stbiw__jpg_ZigZag.[k] < 64 ∧ stbi__jpeg_dezigzag.[stbiw__jpg_ZigZag.[k]] = k.
Proof.
  intros Hk. pose proof (forallb_elem (λ k, (0 <=? stbi__jpeg_dezigzag.[k]) && (stbi__jpeg_dezigzag.[k] <? 64) &&
    (stbiw__jpg_ZigZag.[stbi__jpeg_dezigzag.[k]] =? k) && (0 <=? stbiw__jpg_ZigZag.[k]) && (stbiw__jpg_ZigZag.[k] <? 64) &&
    (stbi__jpeg_dezigzag.[stbiw__jpg_ZigZag.[k]] =? k)) (seqZ 0 64) k ltac:(by vm_compute)
    ltac:(apply elem_of_seqZ; lia)) as H. cbn beta in H. lia.
Qed.

Lemma length_dezigzag q DU : zlen (dezigzag_block q DU) = 64.
Proof. unfold dezigzag_block. by rewrite length_fmap, length_seqZ. Qed.

Lemma znth_dezigzag q DU p : 0 ≤ p < 64 →
  (dezigzag_block q DU).[p] = i16 (DU.[stbiw__jpg_ZigZag.[p]] * q.[p]).
Proof.
  intros Hp. apply list_lookup_total_correct. unfold dezigzag_block.
  by rewrite list_lookup_fmap, lookup_seqZ_lt, Z2Nat.id by lia.
Qed.

Lemma dezigzag_set q DU k v : zlen DU = 64 → 0 ≤ k < 64 →
  zset (dezigzag_block q DU) (stbi__jpeg_dezigzag.[k]) (i16 (v * q.[stbi__jpeg_dezigzag.[k]])) =
  dezigzag_block q (zset DU k v).
Proof.
  intros Hl Hk. destruct (zigzag_inverse k Hk) as (Hz & Hi & _).
  apply znth_ext; [pose proof (length_dezigzag q DU); pose proof (length_dezigzag q (zset DU k v)); rewrite length_zset; lia|].
  intros p Hp. rewrite length_zset, length_dezigzag in Hp. destruct (zigzag_inverse p Hp) as (_ & _ & Hzp & Hip).
  rewrite znth_zset by (rewrite ?length_dezigzag; lia). rewrite !znth_dezigzag by done.
  case_decide as E.
  - subst p. by rewrite Hi, znth_zset_eq by lia.
  - rewrite znth_zset_ne; [done|lia|lia|]. congruence.
Qed.

Lemma length_padded k DU : zlen DU = 64 → 0 ≤ k ≤ 64 → zlen (padded k DU) = 64.
Proof. intros. unfold padded. rewrite length_app, length_take, length_replicate. lia. Qed.

Lemma znth_padded k DU i : zlen DU = 64 → 0 ≤ k ≤ 64 → 0 ≤ i < 64 → (padded k DU).[i] = if i <? k then DU.[i] else 0.
Proof.
  intros. unfold padded. destruct (Z.ltb_spec i k).
  - rewrite lookup_total_app_l by (rewrite length_take; lia). by rewrite lookup_total_take_lt by lia.
  - rewrite lookup_total_app_r by (rewrite length_take; lia). apply lookup_total_replicate_2. rewrite length_take. lia.
Qed.

Lemma znth_drop (DU : list Z) k i : 0 ≤ k → 0 ≤ i → (drop (Z.to_nat k) DU).[i] = DU.[k + i].
Proof. intros. rewrite lookup_total_drop. f_equal. lia. Qed.

(** A run of zeros and a coefficient. *)
Lemma padded_set DU k m v t : zlen DU = 64 → 0 ≤ k → drop (Z.to_nat k) DU = replicate m 0 ++ v :: t →
  k + Z.of_nat m < 64 ∧ zset (padded k DU) (k + Z.of_nat m) v = padded (k + Z.of_nat m + 1) DU ∧
  t = drop (Z.to_nat (k + Z.of_nat m + 1)) DU.
Proof.
  intros Hl Hk Hd. assert (k + Z.of_nat m < 64) as Hlt.
  { apply (f_equal length) in Hd. rewrite length_drop, length_app, length_replicate in Hd. cbn [length] in Hd. lia. }
  split; [done|]. split.
  - apply znth_ext; rewrite length_zset; [pose proof (length_padded k DU Hl); pose proof (length_padded (k + Z.of_nat m + 1) DU Hl); lia|].
    intros i Hi. rewrite length_padded in Hi by lia.
    assert (∀ i, 0 ≤ i → DU.[k + i] = (replicate m 0 ++ v :: t).[i]) as Hat by (intros; rewrite <- Hd, znth_drop; done || lia).
    rewrite znth_zset by (rewrite ?length_padded; lia). rewrite !znth_padded by lia.
    case_decide as E.
    + subst i. rewrite (proj2 (Z.ltb_lt _ _)) by lia. rewrite Hat by lia.
      rewrite lookup_total_app_r by (rewrite length_replicate; lia). rewrite length_replicate.
      replace (Z.to_nat (Z.of_nat m) - m)%nat with 0%nat by lia. done.
    + destruct (Z.ltb_spec i k), (Z.ltb_spec i (k + Z.of_nat m + 1)); try done; try lia.
      replace i with (k + (i - k)) by lia. rewrite Hat by lia.
      rewrite lookup_total_app_l by (rewrite length_replicate; lia). symmetry. apply lookup_total_replicate_2. lia.
  - replace (Z.to_nat (k + Z.of_nat m + 1)) with (Z.to_nat k + (m + 1))%nat by lia. rewrite <- drop_drop, Hd.
    rewrite drop_app_ge by (rewrite length_replicate; lia). rewrite length_replicate.
    by replace (m + 1 - m)%nat with 1%nat by lia.
Qed.

Lemma padded_zeros DU k n : zlen DU = 64 → 0 ≤ k → 0 ≤ n → k + n ≤ 64 →
  (∀ i, k ≤ i < k + n → DU.[i] = 0) → padded (k + n) DU = padded k DU.
Proof.
  intros Hl Hk Hn Hkn Hz. apply znth_ext; [pose proof (length_padded k DU Hl); pose proof (length_padded (k + n) DU Hl); lia|].
  intros i Hi. rewrite length_padded in Hi by lia. rewrite !znth_padded by lia.
  destruct (Z.ltb_spec i k), (Z.ltb_spec i (k + n)); try done; try lia. apply Hz. lia.
Qed.

Lemma padded_64 DU : zlen DU = 64 → padded 64 DU = DU.
Proof. intros. unfold padded. rewrite take_ge by lia. apply app_nil_r. Qed.

Lemma addints_ok a b : - 2 ^ 30 ≤ a < 2 ^ 30 → - 2 ^ 30 ≤ b < 2 ^ 30 → stbi__addints_valid a b = Ok true.
Proof.
  intros Ha Hb. unfold stbi__addints_valid.
  destruct (Z.leb_spec 0 a), (Z.leb_spec 0 b); cbn [Bool.eqb negb]; try done.
  - rewrite (proj2 (Z.ltb_ge a 0)) by lia. cbn [andb]. rewrite i32_ok by (c_unfold; lia). cbn. f_equal. c_unfold. lia.
  - rewrite (proj2 (Z.ltb_lt a 0)), (proj2 (Z.ltb_lt b 0)) by lia. cbn [andb].
    rewrite i32_ok by (c_unfold; lia). cbn. f_equal. c_unfold. lia.
Qed.

(** A list is zero, or starts with a run of zeros before a coefficient. *)
Lemma zeros_or_run (zs : list Z) : Forall (λ v, v = 0) zs ∨ ∃ m v t, zs = replicate m 0 ++ v :: t ∧ v ≠ 0.
Proof.
  induction zs as [|v zs [IH|(m & w & t' & -> & Hw)]]; [by left|..]; destruct (decide (v = 0)) as [->|Hne].
  - left. by constructor.
  - right. by exists 0%nat, v, zs.
  - right. by exists (S m), w, t'.
  - right. by exists 0%nat, v, (replicate m 0 ++ w :: t').
Qed.
Lemma symbol_fields m c : 0 ≤ m → 0 ≤ c ≤ 15 → Z.land (m * 16 + c) 15 = c ∧ Z.shiftr (m * 16 + c) 4 = m.
Proof.
  intros. change 15 with (2 ^ 4 - 1). rewrite land_mask, Z.shiftr_div_pow2 by lia. change (2 ^ 4) with 16.
  Z.div_mod_to_equations. lia.
Qed.

(** What a block must satisfy for eight-bit baseline coding: [DC] is the last
    block's DC coefficient. *)
Definition coeffs_ok (dequant : list Z) (DC : Z) (DU : list Z) : Prop :=
  zlen DU = 64 ∧ Z.abs (DU.[0] - DC) < 2 ^ 11 ∧ Z.abs (DU.[0]) < 2 ^ 15 ∧
  stbi__mul2shorts_valid (DU.[0]) (dequant.[0]) = true ∧ Forall (λ v, Z.abs v < 2 ^ 10) (drop 1 DU).

Definition dequant_ok (dequant : list Z) : Prop :=
  zlen dequant = 64 ∧ Forall (λ q, 0 ≤ q < 2 ^ 16) dequant.

Lemma padded_first dequant DU : zlen DU = 64 →
  zset (replicate 64 0) 0 (i16 (DU.[0] * dequant.[0])) = dezigzag_block dequant (padded 1 DU).
Proof.
  intros Hl. assert (drop (Z.to_nat 0) DU = replicate 0 0 ++ DU.[0] :: drop 1 DU) as Hd.
  { change (Z.to_nat 0) with 0%nat. rewrite drop_0. destruct DU; [done|]. done. }
  destruct (padded_set DU 0 0 _ _ Hl ltac:(lia) Hd) as (_ & Hset & _). change (0 + Z.of_nat 0) with 0 in Hset.
  change (0 + 1) with 1 in Hset. rewrite <- Hset.
  assert (zlen (padded 0 DU) = 64) as Hp by (apply length_padded; lia).
  pose proof (dezigzag_set dequant (padded 0 DU) 0 (DU.[0]) Hp ltac:(lia)) as Hz.
  change (stbi__jpeg_dezigzag.[0]) with 0 in Hz. rewrite <- Hz. f_equal.
Qed.

Section reader.
Context `{Env : StbiEnv} {Cb : Callbacks}.

(** ** The bits to come

    [bs] are the bits that the scan has left: the first [code_bits] of them in
    the buffer, padded with zeros once the marker behind them has been met, and
    the others in the stuffed bytes before it. *)
Definition incoming (bs : list bool) (j : stbi__jpeg) : Prop :=
  ctx_ok (js j) ∧ 0 ≤ code_bits (jb j) ≤ 32 ∧
  code_buffer (jb j) = win (code_bits (jb j)) bs * 2 ^ (32 - code_bits (jb j)) ∧
  if nomore (jb j) then zlen bs ≤ code_bits (jb j)
  else code_bits (jb j) ≤ zlen bs ∧ ∃ data m tail, Forall is_byte data ∧ m ≠ 0 ∧ m ≠ 255 ∧
    drop (Z.to_nat (code_bits (jb j))) bs = byte_bits data ∧ remaining (js j) = stuff data ++ 255 :: m :: tail.

(** The components are left alone. *)
Definition to_come (bs : list bool) (j0 j : stbi__jpeg) : Prop := incoming bs j ∧ img_comp j = img_comp j0.

Lemma js_get8 j b l (Q : outcome Z → stbi__jpeg → Prop) : ctx_ok (js j) → remaining (js j) = b :: l →
  (∀ s, ctx_ok s → remaining s = l → Q (Val b) (set_js s j)) → awp (on_js stbi__get8) j Q.
Proof.
  intros Hok Hr HQ. apply awp_zoom. eapply awp_mono; [by apply stbi__get8_spec|].
  intros [c|e] s; [|done]. intros (Hs & -> & Hr'). rewrite Hr in *. by apply HQ.
Qed.

Lemma skip_ff_stop fuel c j (Q : outcome Z → stbi__jpeg → Prop) : (1 ≤ fuel)%nat → c ≠ 255 → Q (Val c) j → awp (skip_ff fuel c) j Q.
Proof.
  intros Hfuel Hc HQ. unfold skip_ff. destruct fuel as [|n]; [lia|]. cbn [a_loop].
  rewrite (proj2 (Z.eqb_neq c 255)) by done. exact HQ.
Qed.

(** The end of a pass of the loop that fills the buffer. *)
Definition add_byte (b : Z) : Act stbi__jpeg (ctl unit unit) :=
  j ← get;
  sb ← lift (shl32 b (24 - code_bits (jb j)));
  put (set_code (Z.lor (code_buffer (jb j)) sb) (code_bits (jb j) + 8) j);;
  mret (if code_bits (jb j) + 8 <=? 24 then Next () else Break ()).

(** What a pass from [j] leaves. *)
Definition passed (bs : list bool) (j0 j : stbi__jpeg) (o : outcome (ctl unit unit)) (j' : stbi__jpeg) : Prop :=
  match o with
  | Val (Next _) => to_come bs j0 j' ∧ code_bits (jb j') = code_bits (jb j) + 8 ∧ code_bits (jb j') ≤ 24
  | Val (Break _) => to_come bs j0 j' ∧ 25 ≤ code_bits (jb j')
  | Val (Return _) => to_come bs j0 j' ∧ zlen bs ≤ code_bits (jb j')
  | Fail _ => False
  end.

Lemma push_byte b n j (Q : outcome (ctl unit unit) → stbi__jpeg → Prop) : 0 ≤ b < 256 → n = code_bits (jb j) → 0 ≤ n ≤ 24 →
  (∀ sb, sb = b * 2 ^ (24 - n) → Q (Val (if n + 8 <=? 24 then Next () else Break ()))
     (set_code (Z.lor (code_buffer (jb j)) sb) (n + 8) j)) →
  awp (add_byte b) j Q.
Proof.
  intros Hb -> Hn HQ. apply awp_bind, awp_get, awp_bind, awp_lift.
  unfold shl32. rewrite (proj2 (Z.leb_le 0 _)), (proj2 (Z.ltb_lt _ 32)) by lia. cbn [andb wp].
  apply awp_bind, awp_put, awp_ret, HQ. rewrite Z.shiftl_mul_pow2 by lia. apply u32_small.
  pose proof (Z.pow_le_mono_r 2 (24 - code_bits (jb j)) 24 ltac:(lia) ltac:(lia)).
  assert (0 < 2 ^ (24 - code_bits (jb j))) by (apply Z.pow_pos_nonneg; lia). nia.
Qed.

Lemma lor_window v b n : 0 ≤ n ≤ 24 → 0 ≤ b < 256 →
  Z.lor (v * 2 ^ (32 - n)) (b * 2 ^ (24 - n)) = (v * 256 + b) * 2 ^ (24 - n).
Proof.
  intros Hn Hb. assert (2 ^ (32 - n) = 256 * 2 ^ (24 - n)) as E.
  { change 256 with (2 ^ 8). rewrite <- Z.pow_add_r by lia. f_equal. lia. }
  assert (0 < 2 ^ (24 - n)) by (apply Z.pow_pos_nonneg; lia).
  rewrite <- (Z.shiftl_mul_pow2 v) by lia. rewrite lor_shiftl by nia. rewrite E. lia.
Qed.

Lemma push_incoming b bs j s : incoming bs j → code_bits (jb j) ≤ 24 → nomore (jb j) = false → ∀ data m tail,
  Forall is_byte (b :: data) → m ≠ 0 → m ≠ 255 → drop (Z.to_nat (code_bits (jb j))) bs = byte_bits (b :: data) →
  ctx_ok s → remaining s = stuff data ++ 255 :: m :: tail →
  incoming bs (set_code (Z.lor (code_buffer (jb j)) (b * 2 ^ (24 - code_bits (jb j)))) (code_bits (jb j) + 8)
    (set_js s j)).
Proof.
  intros (_ & Hcb & Hbuf & Hnm) H24 Hno data m tail [Hb Hdata]%Forall_cons_1 Hm0 Hm Hd Hok Hr.
  rewrite Hno in Hnm. destruct Hnm as [Hlen _]. set (n := code_bits (jb j)) in *.
  assert (bs = take (Z.to_nat n) bs ++ nbits 8 b ++ byte_bits data) as Ebs.
  { rewrite <- (take_drop (Z.to_nat n) bs) at 1. by rewrite Hd, byte_bits_cons. }
  assert (zlen (take (Z.to_nat n) bs) = n) as Ht by (rewrite length_take; lia).
  unfold incoming. unfold is_byte in Hb. cbn [js jb code_bits code_buffer nomore set_code set_js set_jb]. rewrite Hno. fold n.
  split; [done|]. split; [lia|]. split; [|split].
  - rewrite Hbuf, lor_window by lia. pose proof (win_byte n _ b (byte_bits data) Ht Hb) as Hw.
    rewrite <- Ebs in Hw. rewrite Hw. do 2 f_equal. lia.
  - rewrite Ebs, !length_app, length_bits. lia.
  - exists data, m, tail. repeat split; try done. rewrite Ebs.
    replace (Z.to_nat (n + 8)) with (Z.to_nat n + 8)%nat by lia. rewrite <- drop_drop.
    rewrite drop_app_length' by lia. by rewrite drop_app_length' by (by rewrite length_bits).
Qed.

(** The same once the marker has been met: zeros follow. *)
Lemma pad_incoming bs j : incoming bs j → code_bits (jb j) ≤ 24 → nomore (jb j) = true →
  incoming bs (set_code (Z.lor (code_buffer (jb j)) (0 * 2 ^ (24 - code_bits (jb j)))) (code_bits (jb j) + 8) j).
Proof.
  intros (Hok & Hcb & Hbuf & Hnm) H24 Hno. rewrite Hno in Hnm. set (n := code_bits (jb j)) in *.
  unfold incoming. cbn [js jb code_bits code_buffer nomore set_code set_jb]. rewrite Hno. fold n.
  split; [done|]. split; [lia|]. split; [|lia].
  rewrite Z.mul_0_l, Z.lor_0_r, Hbuf, (win_pad n (n + 8)), <- Z.mul_assoc, <- Z.pow_add_r by lia.
  do 2 f_equal. lia.
Qed.

Section refill.
Context (fuel : nat) (Hfuel : (1 ≤ fuel)%nat).

Lemma grow_pass bs j (j0 : stbi__jpeg) : incoming bs j → code_bits (jb j) ≤ 24 → img_comp j = img_comp j0 →
  awp (
    j ← get;
    b ← (if nomore (jb j) then mret 0 else on_js stbi__get8);
    c ← (if b =? 0xff then c ← on_js stbi__get8; skip_ff fuel c else mret 0);
    if (b =? 0xff) && negb (c =? 0) then
      modify (λ j, set_jb {| code_buffer := code_buffer (jb j); code_bits := code_bits (jb j);
                             marker := c; nomore := true |} j);;
      mret (Return ())
    else
      add_byte b) j
   (passed bs j0 j).
Proof using Hfuel.
  intros Hin H24 Hcomp. pose proof Hin as (Hok & Hcb & Hbuf & Hnm).
  assert (∀ b s, 0 ≤ b < 256 →
    (∀ sb, sb = b * 2 ^ (24 - code_bits (jb j)) →
       incoming bs (set_code (Z.lor (code_buffer (jb j)) sb) (code_bits (jb j) + 8) (set_js s j))) →
    awp (add_byte b) (set_js s j) (passed bs j0 j)) as Hpush.
  { intros b s Hb Hs. apply (push_byte b (code_bits (jb j))); [done|done|lia|]. intros sb Esb. specialize (Hs sb Esb).
    destruct (Z.leb_spec (code_bits (jb j) + 8) 24); cbn [passed set_code set_js set_jb jb code_bits]; (split; [by split|lia]). }
  apply awp_bind, awp_get, awp_bind. destruct (nomore (jb j)) eqn:Hno.
  - apply awp_ret, awp_bind, awp_ret. change (0 =? 255) with false. cbn [andb].
    replace j with (set_js (js j) j) by (by destruct j). apply Hpush; [lia|]. intros sb ->.
    replace (set_js (js j) j) with j by (by destruct j). by apply pad_incoming.
  - destruct Hnm as [Hlen (data & m & tail & Hby & Hm0 & Hm & Hd & Hr)].
    destruct data as [|b data].
    + cbn [stuff app] in Hr. eapply js_get8; [done|exact Hr|]. intros s1 Hs1 Hr1. change (255 =? 255) with true. cbn [andb].
      apply awp_bind, awp_bind. eapply js_get8; [exact Hs1|exact Hr1|]. intros s2 Hs2 Hr2.
      apply skip_ff_stop; [done|done|]. rewrite (proj2 (Z.eqb_neq m 0)) by done. cbn [negb].
      apply awp_bind, awp_modify, awp_ret.
      assert (zlen bs ≤ code_bits (jb j)).
      { apply (f_equal length) in Hd. rewrite length_drop in Hd. cbn in Hd. lia. }
      split; [|done]. split; [|done]. unfold incoming. cbn. repeat split; done || lia.
    + pose proof Hby as [Hb Hdata]%Forall_cons_1.
      destruct (Z.eqb_spec b 255) as [->|Hne].
      * cbn [stuff app] in Hr. rewrite Z.eqb_refl in Hr. cbn [app] in Hr.
        eapply js_get8; [done|exact Hr|]. intros s1 Hs1 Hr1. change (255 =? 255) with true. cbn [andb].
        apply awp_bind, awp_bind. eapply js_get8; [exact Hs1|exact Hr1|]. intros s2 Hs2 Hr2.
        apply skip_ff_stop; [done|done|]. change (0 =? 0) with true. cbn [negb].
        apply Hpush; [lia|]. intros sb ->. by eapply push_incoming.
      * cbn [stuff app] in Hr. rewrite (proj2 (Z.eqb_neq b 255)) in Hr by done. cbn [app] in Hr.
        eapply js_get8; [done|exact Hr|]. intros s1 Hs1 Hr1. rewrite (proj2 (Z.eqb_neq b 255)) by done. cbn [andb].
        apply awp_bind, awp_ret. apply Hpush; [done|]. intros sb ->. by eapply push_incoming.
Qed.

Lemma need_bits_spec n bs j : n ≤ 25 → incoming bs j →
  awp_ok (need_bits fuel n) j (λ _ j', to_come bs j j' ∧ Z.min n (zlen bs) ≤ code_bits (jb j')).
Proof using Hfuel.
  intros Hn Hin. unfold need_bits. awp_step. apply awp_ok_get.
  destruct (Z.ltb_spec (code_bits (jb j)) n) as [Hlt|Hge].
  2:{ awp_step. split; [by split|lia]. }
  unfold stbi__grow_buffer_unsafe. awp_step.
  apply (awp_loop (λ _ j', to_come bs j j' ∧ code_bits (jb j') ≤ 24) (λ _ j', Z.to_nat ((32 - code_bits (jb j')) / 8))).
  - split; [by split|lia].
  - destruct Hin as (_ & Hcb & _). assert ((32 - code_bits (jb j)) / 8 < 8) by (Z.div_mod_to_equations; lia). lia.
  - intros _ j1 [[Hin1 Hc1] H24]. eapply awp_mono; [by apply grow_pass|]. cbn beta.
    destruct Hin1 as (_ & Hcb1 & _).
    intros [[[]|[]|[]]|e] j2; [| | |done].
    + intros (Hto & Hcb & Hle). split; [done|]. rewrite Hcb.
      replace (32 - (code_bits (jb j1) + 8)) with (32 - code_bits (jb j1) + (-1) * 8) by lia.
      rewrite Z.div_add by lia. assert (1 ≤ (32 - code_bits (jb j1)) / 8) by (Z.div_mod_to_equations; lia). lia.
    + intros [Hto Hle]. awp_step. split; [done|lia].
    + intros [Hto Hle]. awp_step. split; [done|lia].
Qed.
End refill.

(** ** Taking bits *)

(** The top of the buffer shows the bits to come. *)
Lemma peek_bits k bs j : incoming bs j → 0 ≤ k ≤ 32 → k ≤ code_bits (jb j) ∨ zlen bs ≤ code_bits (jb j) →
  Z.shiftr (code_buffer (jb j)) (32 - k) = win k bs.
Proof.
  intros (_ & Hcb & Hbuf & _) Hk Hor. rewrite Hbuf, Z.shiftr_div_pow2 by lia. set (n := code_bits (jb j)) in *.
  destruct (Z.le_gt_cases k n) as [Hle|Hgt].
  - replace (32 - k) with ((32 - n) + (n - k)) by lia. rewrite Z.pow_add_r by lia.
    rewrite <- Z.div_div by (try apply Z.pow_nonzero; try apply Z.pow_pos_nonneg; lia).
    rewrite Z.div_mul by (apply Z.pow_nonzero; lia). apply win_div. lia.
  - rewrite (win_pad n k) by lia. replace (32 - n) with ((32 - k) + (k - n)) by lia. rewrite Z.pow_add_r by lia.
    rewrite (Z.mul_comm (2 ^ (32 - k))), Z.mul_assoc, Z.div_mul by (apply Z.pow_nonzero; lia). done.
Qed.

(** The buffer shifted past the first bits. *)
Lemma shift_buffer s t j : incoming (s ++ t) j → zlen s ≤ code_bits (jb j) →
  (code_buffer (jb j) mod 2 ^ (32 - zlen s)) * 2 ^ zlen s =
    win (code_bits (jb j) - zlen s) t * 2 ^ (32 - (code_bits (jb j) - zlen s)).
Proof.
  intros (_ & Hcb & Hbuf & _) Hs. set (n := code_bits (jb j)) in *.
  replace (32 - zlen s) with ((n - zlen s) + (32 - n)) by lia. rewrite Hbuf, Z.pow_add_r by lia.
  rewrite Z.mul_mod_distr_r by (apply Z.pow_nonzero; lia). rewrite win_drop by lia.
  rewrite <- Z.mul_assoc, <- Z.pow_add_r by lia. do 2 f_equal. lia.
Qed.

Lemma take_incoming s t j c : incoming (s ++ t) j → zlen s ≤ code_bits (jb j) →
  c = (code_buffer (jb j) mod 2 ^ (32 - zlen s)) * 2 ^ zlen s →
  to_come t j (set_code c (code_bits (jb j) - zlen s) j).
Proof.
  intros Hin Hs ->. rewrite (shift_buffer s t) by done. split; [|done].
  destruct Hin as (Hok & Hcb & Hbuf & Hnm). unfold incoming. cbn [js jb code_bits code_buffer nomore set_code set_jb].
  split; [done|]. split; [lia|]. split; [done|]. rewrite length_app in Hnm.
  destruct (nomore (jb j)); [lia|]. destruct Hnm as [Hlen (data & m & tail & H1 & H2 & H3 & Hd & Hr)].
  split; [lia|]. exists data, m, tail. repeat split; try done. rewrite <- Hd.
  replace (Z.to_nat (code_bits (jb j))) with (length s + Z.to_nat (code_bits (jb j) - zlen s))%nat by lia.
  by rewrite <- drop_drop, drop_app_length.
Qed.

Lemma shl_buffer c n : 0 ≤ n < 32 → shl32 c n = Ok ((c mod 2 ^ (32 - n)) * 2 ^ n).
Proof.
  intros. unfold shl32. rewrite (proj2 (Z.leb_le 0 n)), (proj2 (Z.ltb_lt n 32)) by lia. cbn [andb]. f_equal.
  unfold u32. rewrite Z.shiftl_mul_pow2 by lia. replace 32 with ((32 - n) + n) at 1 by lia.
  rewrite Z.pow_add_r by lia. apply Z.mul_mod_distr_r; apply Z.pow_nonzero; lia.
Qed.

Lemma drop_bits_spec s t j : incoming (s ++ t) j → zlen s ≤ code_bits (jb j) → zlen s < 32 →
  awp_ok (drop_bits (zlen s)) j (λ _ j', to_come t j j').
Proof.
  intros Hin Hs H32. unfold drop_bits. awp_step. apply awp_ok_get. awp_step. awp_step.
  rewrite shl_buffer by lia. cbn [wp]. awp_step. by apply take_incoming.
Qed.

(** A rotated buffer, split at its low bits. *)
Lemma rotate_split buf n : 1 ≤ n ≤ 16 → 0 ≤ buf < 2 ^ 32 →
  ∃ k, stbi_lrot buf n = Ok k ∧ Z.land k (2 ^ n - 1) = Z.shiftr buf (32 - n) ∧
    Z.land k (u32 (Z.lnot (2 ^ n - 1))) = (buf mod 2 ^ (32 - n)) * 2 ^ n.
Proof.
  intros Hn Hb. unfold stbi_lrot. rewrite shl_buffer by lia. cbn [mbind Res_bind].
  assert (Z.land (- n) 31 = 32 - n) as ->.
  { change 31 with (2 ^ 5 - 1). rewrite land_mask by lia. symmetry. apply (Z.mod_unique_pos _ _ (-1)); lia. }
  rewrite shr32_ok by lia. cbn [mbind Res_bind]. eexists. split; [done|].
  set (A := buf mod 2 ^ (32 - n)). set (r := Z.shiftr buf (32 - n)).
  assert (0 < 2 ^ n) by (apply Z.pow_pos_nonneg; lia). assert (0 < 2 ^ (32 - n)) by (apply Z.pow_pos_nonneg; lia).
  assert (0 ≤ r < 2 ^ n) as Hr.
  { unfold r. rewrite Z.shiftr_div_pow2 by lia. split; [by apply Z.div_pos; lia|].
    apply Z.div_lt_upper_bound; [done|]. rewrite <- Z.pow_add_r by lia. replace (32 - n + n) with 32 by lia. lia. }
  assert (0 ≤ A < 2 ^ (32 - n)) as HA by (by apply Z.mod_pos_bound).
  rewrite <- (Z.shiftl_mul_pow2 A) by lia. split.
  - rewrite land_mask, lor_shiftl by lia. rewrite Z.add_comm, Z.mod_add by lia. by apply Z.mod_small.
  - assert (u32 (Z.lnot (2 ^ n - 1)) = Z.shiftl (Z.ones (32 - n)) n) as ->.
    { rewrite Z.shiftl_mul_pow2, Z.ones_equiv by lia. unfold u32, Z.lnot.
      symmetry. apply (Z.mod_unique_pos _ _ (-1)); rewrite <- ?Z.sub_1_r.
      - assert (2 ^ 32 = 2 ^ (32 - n) * 2 ^ n) as -> by (rewrite <- Z.pow_add_r by lia; f_equal; lia). nia.
      - assert (2 ^ 32 = 2 ^ (32 - n) * 2 ^ n) as -> by (rewrite <- Z.pow_add_r by lia; f_equal; lia). lia. }
    rewrite Z.land_lor_distr_l, <- Z.shiftl_land, Z.land_ones by lia. rewrite (Z.mod_small A) by done.
    assert (Z.land r (Z.shiftl (Z.ones (32 - n)) n) = 0) as ->; [|apply Z.lor_0_r].
    apply Z.bits_inj'. intros i Hi. rewrite Z.land_spec, Z.shiftl_spec, Z.bits_0 by done.
    destruct (decide (i < n)); [by rewrite (Z.testbit_neg_r _ (i - n)), andb_false_r by lia|].
    rewrite <- (Z.mod_small r (2 ^ n)), Z.mod_pow2_bits_high by lia. done.
Qed.

Lemma bmask_at n : 0 ≤ n ≤ 16 → rd stbi__bmask n = Ok (2 ^ n - 1).
Proof.
  intros. rewrite rd_ok by (cbn; lia). f_equal. apply list_lookup_total_correct.
  assert (stbi__bmask = (λ n, 2 ^ n - 1) <$> seqZ 0 17) as -> by (by vm_compute).
  by rewrite list_lookup_fmap, lookup_seqZ_lt, Z2Nat.id by lia.
Qed.

Lemma buffer_range bs j : incoming bs j → 0 ≤ code_buffer (jb j) < 2 ^ 32.
Proof.
  intros (_ & Hcb & -> & _). set (n := code_bits (jb j)) in *. pose proof (win_range n bs ltac:(lia)).
  assert (2 ^ 32 = 2 ^ n * 2 ^ (32 - n)) as -> by (rewrite <- Z.pow_add_r by lia; f_equal; lia).
  assert (0 < 2 ^ (32 - n)) by (apply Z.pow_pos_nonneg; lia). nia.
Qed.

Lemma take_bits_spec s t j : incoming (s ++ t) j → zlen s ≤ code_bits (jb j) → 1 ≤ zlen s ≤ 16 →
  awp_ok (take_bits (zlen s)) j (λ r j', r = bval s ∧ to_come t j j').
Proof.
  intros Hin Hs Hn. unfold take_bits. awp_step. apply awp_ok_get.
  destruct (rotate_split (code_buffer (jb j)) (zlen s) Hn (buffer_range _ _ Hin)) as (k & Hk & Hlow & Hhigh).
  awp_step. awp_step. rewrite Hk. cbn [wp]. awp_step. awp_step. rewrite bmask_at by lia. cbn [wp].
  awp_step. awp_step. awp_step. rewrite Hlow, Hhigh. split; [|by apply take_incoming].
  rewrite (peek_bits _ (s ++ t)) by (done || lia). rewrite win_app, Z.sub_diag, win_0 by lia. lia.
Qed.

Lemma length_extra v : v ≠ 0 → zlen (extra_bits v) = category v.
Proof. intros Hv. pose proof (category_spec v Hv). unfold extra_bits. rewrite length_bits. lia. Qed.

Lemma bval_extra v : v ≠ 0 → bval (extra_bits v) = extra_value v.
Proof.
  intros Hv. pose proof (category_spec v Hv). unfold extra_bits. apply bval_bits_small. rewrite Z2Nat.id by lia.
  by apply extra_value_range.
Qed.

(** The first of the bits is the sign. *)
Lemma extra_sign v : v ≠ 0 → extra_value v / 2 ^ (category v - 1) = if v <? 0 then 0 else 1.
Proof.
  intros Hv. pose proof (category_spec v Hv) as [Hc H1]. unfold extra_value.
  assert (2 ^ category v = 2 * 2 ^ (category v - 1)) as E.
  { rewrite <- Z.pow_succ_r by lia. f_equal. lia. }
  destruct (Z.ltb_spec v 0); [apply Z.div_small; lia|].
  symmetry. apply (Z.div_unique_pos _ _ _ (v - 2 ^ (category v - 1))); lia.
Qed.

Lemma jbias_at n : 0 ≤ n ≤ 15 → rd stbi__jbias n = Ok (1 - 2 ^ n).
Proof.
  intros. rewrite rd_ok by (cbn; lia). f_equal. apply list_lookup_total_correct.
  assert (stbi__jbias = (λ n, 1 - 2 ^ n) <$> seqZ 0 16) as -> by (by vm_compute).
  by rewrite list_lookup_fmap, lookup_seqZ_lt, Z2Nat.id by lia.
Qed.

Lemma sx_u32_small v : - 2 ^ 31 ≤ v < 2 ^ 31 → sx 32 (u32 v) = v.
Proof.
  intros. unfold sx, u32. change (32 - 1) with 31. rewrite Z.add_mod_idemp_l by lia. rewrite Z.mod_small by lia. lia.
Qed.

(** The code of a symbol, what the window shows of it, and the entries. *)
Lemma good_symbol_spec h T s : good_symbol h T s = true → ∃ c n, 1 ≤ n ≤ 16 ∧ 0 ≤ c < 2 ^ n ∧
  zlen (sym_bits T s) = n ∧ bval (sym_bits T s) = c ∧
  (n ≤ 9 → ∀ i, 0 ≤ i < 2 ^ (9 - n) → fast_entry h s c n i = true) ∧ (9 < n → slow_entry h s c n = true).
Proof.
  unfold good_symbol, sym_bits. destruct (T.[s]) as [c n]. cbn [fst snd]. intros H.
  apply andb_true_iff in H as [H He]. assert (1 ≤ n ≤ 16 ∧ 0 ≤ c < 2 ^ n) as [Hn Hc] by lia.
  exists c, n. rewrite length_bits, bval_bits_small, Z2Nat.id by (rewrite ?Z2Nat.id; lia).
  repeat split; try done; try lia.
  - intros H9 i Hi. rewrite (proj2 (Z.leb_le n 9)) in He by done.
    rewrite forallb_forall in He. apply He, list_elem_of_In, elem_of_seqZ. lia.
  - intros H9. by rewrite (proj2 (Z.leb_gt n 9)) in He by done.
Qed.

(** The nine bits that [fast] is indexed with, for a long code. *)
Lemma window9_long s t : 9 < zlen s → win 9 (s ++ t) = bval s / 2 ^ (zlen s - 9).
Proof.
  intros. rewrite <- (win_div 9 (zlen s)), win_app, Z.sub_diag, win_0 by lia. f_equal. cbn. lia.
Qed.

Lemma peek_fast_spec bs j (Q : Z → stbi__jpeg → Prop) : incoming bs j → Z.min 16 (zlen bs) ≤ code_bits (jb j) →
  Q (win 9 bs) j → awp_ok peek_fast j Q.
Proof.
  intros Hin Hcb HQ. unfold peek_fast. awp_step. apply awp_ok_get. awp_step. unfold FAST_BITS.
  rewrite (peek_bits 9 bs) by (done || lia). change 511 with (2 ^ 9 - 1). rewrite land_mask by lia.
  rewrite Z.mod_small by (apply win_range; lia). done.
Qed.

Lemma shaped_spec h : shaped h = true → zlen (fast h) = 512 ∧ zlen (size h) = 257 ∧ zlen (values h) = 256 ∧
  zlen (maxcode h) = 18 ∧ zlen (delta h) = 17 ∧ zlen (code h) = 256.
Proof. unfold shaped. lia. Qed.

Lemma find_length h s c n x : zlen (maxcode h) = 18 → slow_entry h s c n = true → 9 < n ≤ 16 → 0 ≤ x < 2 ^ (16 - n) →
  wp (fell <$> loop (R := Empty_set) 9 (λ k,
      m ← rd (maxcode h) k; Ok (if c * 2 ^ (16 - n) + x <? m then Break k else Next (k + 1))) (FAST_BITS + 1))
   (λ k, k = n).
Proof.
  intros Hl Hs Hn Hx. unfold slow_entry in Hs. repeat apply andb_true_iff in Hs as [Hs ?].
  match goal with H : forallb _ _ = true |- _ => rename H into Hf end.
  match goal with H : ((c + 1) * _ <=? _) = true |- _ => apply Z.leb_le in H; rename H into Hm end.
  assert (∀ k, 10 ≤ k < n → (maxcode h).[k] ≤ c * 2 ^ (16 - n)) as Hlow.
  { intros k Hk. rewrite forallb_forall in Hf.
    specialize (Hf k ltac:(apply list_elem_of_In, elem_of_seqZ; lia)). lia. }
  clear Hs Hf. unfold FAST_BITS. change (9 + 1) with 10.
  enough (wp (loop (R := Empty_set) 9 (λ k,
      m ← rd (maxcode h) k; Ok (if c * 2 ^ (16 - n) + x <? m then Break k else Next (k + 1))) 10) (λ r, fell r = n)) as Hloop.
  { destruct (loop _ _ _); cbn in *; done. }
  apply (loop_wp (λ k, 10 ≤ k ≤ n) (λ k, Z.to_nat (n - k))); [lia|lia|]. intros k Hk.
  rewrite rd_ok by lia. cbn [mbind Res_bind wp]. destruct (decide (k = n)) as [->|Hne].
  - rewrite (proj2 (Z.ltb_lt _ _)) by lia. done.
  - specialize (Hlow k ltac:(lia)). rewrite (proj2 (Z.ltb_ge _ _)) by lia. lia.
Qed.

(** What an entry says of the symbol at the head. *)
Lemma fac_entry h T s fac t i : good_symbol h T s = true → good_fast_ac h fac i = true → 
  i = win 9 (sym_bits T s ++ t) → fac.[i] ≠ 0 →
  let n := zlen (sym_bits T s) in let mag := Z.land s 15 in
  1 ≤ n ∧ 1 ≤ mag ∧ n + mag ≤ 9 ∧ Z.land (fac.[i]) 15 = n + mag ∧
  Z.land (Z.shiftr (fac.[i]) 4) 15 = Z.shiftr s 4 ∧
  Z.shiftr (fac.[i]) 8 = (let e := (i / 2 ^ (9 - (n + mag))) mod 2 ^ mag in
                          if e <? 2 ^ (mag - 1) then e - 2 ^ mag + 1 else e).
Proof.
  intros Hg Hf Ei Hr n mag. destruct (good_symbol_spec h T s Hg) as (c & n' & Hn & Hcr & Hl & Hb & H9 & H10).
  subst n. rewrite Hl. unfold good_fast_ac in Hf. rewrite (proj2 (Z.eqb_neq (fac.[i]) 0)) in Hf by done. cbn [orb] in Hf.
  destruct (Z.le_gt_cases n' 9) as [Hle|Hgt].
  - specialize (H9 Hle (win (9 - n') t) (win_range (9 - n') t ltac:(lia))). unfold fast_entry in H9.
    rewrite win_app, Hb, Hl in Ei by lia. rewrite <- Ei in H9.
    assert ((size h).[(fast h).[i]] = n' ∧ (values h).[(fast h).[i]] = s) as [Es Ev] by lia.
    rewrite Es, Ev in Hf. fold mag in Hf. cbn zeta in *. lia.
  - specialize (H10 Hgt). unfold slow_entry in H10. rewrite window9_long, Hb, Hl in Ei by lia. rewrite <- Ei in H10. lia.
Qed.

Section decode.
Context (fuel : nat) (Hfuel : (1 ≤ fuel)%nat).

Lemma extend_receive_spec v t j : v ≠ 0 → category v ≤ 15 → incoming (extra_bits v ++ t) j →
  awp_ok (stbi__extend_receive fuel (category v)) j (λ r j', r = v ∧ to_come t j j').
Proof using Hfuel.
  intros Hv Hc Hin. pose proof (category_spec v Hv) as [Hb H1]. pose proof (length_extra v Hv) as Hl.
  unfold stbi__extend_receive. awp_step. eapply awp_ok_mono; [apply need_bits_spec; done || lia|].
  cbn beta. intros _ j1 [[Hin1 Hcomp] Hcb]. rewrite length_app in Hcb. awp_step. apply awp_ok_get.
  rewrite (proj2 (Z.ltb_ge _ _)) by lia.
  awp_step. rewrite <- Hl at 1. eapply awp_ok_mono; [apply take_bits_spec; [done|lia|lia]|]. cbn beta.
  intros r j2 [-> [Hin2 Hcomp2]]. awp_step. awp_step. rewrite jbias_at by lia. cbn [wp]. awp_step.
  split; [|split; [done|congruence]].
  assert (Z.shiftr (code_buffer (jb j1)) 31 = if v <? 0 then 0 else 1) as ->.
  { change 31 with (32 - 1). rewrite (peek_bits 1 (extra_bits v ++ t)) by (done || lia).
    rewrite <- (win_div 1 (category v)), win_app, Hl, Z.sub_diag, win_0, bval_extra by lia.
    rewrite <- extra_sign by done. f_equal. lia. }
  rewrite bval_extra by done. pose proof (Z.pow_le_mono_r 2 (category v) 15 ltac:(lia) ltac:(lia)).
  change (2 ^ 15) with 32768 in *. unfold extra_value in *. destruct (Z.ltb_spec v 0).
  - change (0 - 1) with (-1). rewrite Z.land_m1_r. rewrite sx_u32_small by lia. lia.
  - change (1 - 1) with 0. rewrite Z.land_0_r. rewrite sx_u32_small by lia. lia.
Qed.

(** A symbol at the head of the bits is decoded. *)
Lemma huff_decode_spec h T s t j : shaped h = true → good_symbol h T s = true → incoming (sym_bits T s ++ t) j →
  awp_ok (stbi__jpeg_huff_decode fuel h) j (λ r j', r = s ∧ to_come t j j').
Proof using Hfuel.
  intros Hsh Hg Hin. apply shaped_spec in Hsh as (Hf & Hsz & Hv & Hm & Hd & Hc).
  destruct (good_symbol_spec h T s Hg) as (c & n & Hn & Hcr & Hl & Hb & H9 & H10). set (cs := sym_bits T s) in *.
  unfold stbi__jpeg_huff_decode. awp_step. eapply awp_ok_mono; [apply need_bits_spec; done || lia|].
  cbn beta. intros _ j1 [[Hin1 Hcomp] Hcb]. rewrite length_app in Hcb.
  awp_step. apply (peek_fast_spec (cs ++ t)); [done|rewrite length_app; lia|].
  pose proof (win_range 9 (cs ++ t) ltac:(lia)). change (2 ^ 9) with 512 in *.
  awp_step. awp_step. rewrite rd_ok by lia. cbn [wp]. awp_step. apply awp_ok_get.
  destruct (Z.le_gt_cases n 9) as [Hle|Hgt].
  - specialize (H9 Hle (win (9 - n) t) (win_range (9 - n) t ltac:(lia))). unfold fast_entry in H9.
    rewrite win_app, Hb, Hl by lia. set (k := (fast h).[_]) in *.
    assert (0 ≤ k < 255 ∧ (size h).[k] = n ∧ (values h).[k] = s) as (Hk & Es & Ev) by lia.
    rewrite (proj2 (Z.ltb_lt k 255)) by lia. awp_step. awp_step. rewrite rd_ok, Es by lia. cbn [wp].
    rewrite (proj2 (Z.ltb_ge _ _)) by lia. awp_step. rewrite <- Hl at 1.
    eapply awp_ok_mono; [apply (drop_bits_spec cs t); [done|lia|lia]|]. intros [] j2 [Hin2 Hcomp2].
    awp_step. rewrite rd_ok, Ev by lia. cbn [wp]. split; [done|]. split; [done|congruence].
  - specialize (H10 Hgt). pose proof H10 as Hslow. unfold slow_entry in H10.
    rewrite window9_long, Hb, Hl by lia. set (d := sx 32 _) in *. set (k := (fast h).[_]) in *.
    assert (k = 255 ∧ 0 ≤ d < 256 ∧ (size h).[d] = n ∧ (code h).[d] = c ∧ (values h).[d] = s)
      as (-> & Hdr & Es & Ec & Ev) by lia. clear H10. cbn [Z.ltb].
    change (255 <? 255) with false. cbn match.
    change (Z.shiftr (code_buffer (jb j1)) 16) with (Z.shiftr (code_buffer (jb j1)) (32 - 16)).
    rewrite (peek_bits 16 (cs ++ t)) by (rewrite ?length_app; done || lia). rewrite win_app, Hb, Hl by lia.
    awp_step. awp_step. eapply wp_mono; [apply (find_length h s c n); [done|done|lia|apply win_range; lia]|].
    cbn beta. intros ? ->. rewrite (proj2 (Z.eqb_neq n 17)), (proj2 (Z.ltb_ge _ _)) by lia.
    awp_step. awp_step. rewrite bmask_at by lia. cbn [wp].
    awp_step. awp_step. rewrite rd_ok by lia. cbn [wp].
    rewrite (peek_bits n (cs ++ t)) by (rewrite ?length_app; done || lia).
    rewrite win_app, Hb, Hl, Z.sub_diag, win_0 by lia.
    replace (c * 2 ^ 0 + 0) with c by lia. rewrite land_mask, (Z.mod_small c) by lia. fold d.
    rewrite (proj2 (Z.ltb_ge d 0)), (proj2 (Z.leb_gt 256 d)) by lia. cbn [orb].
    awp_step. awp_step. rewrite rd_ok, Es by lia. cbn [wp]. awp_step. awp_step. rewrite bmask_at by lia. cbn [wp].
    awp_step. awp_step. rewrite rd_ok, Ec by lia. cbn [wp]. awp_step. awp_step. rewrite shr32_ok by lia. cbn [wp].
    rewrite (peek_bits n (cs ++ t)) by (rewrite ?length_app; done || lia).
    rewrite win_app, Hb, Hl, Z.sub_diag, win_0 by lia. replace (c * 2 ^ 0 + 0) with c by lia.
    rewrite land_mask, (Z.mod_small c), Z.eqb_refl by lia. cbn [negb].
    awp_step. awp_step. awp_step. apply awp_ok_get. awp_step. awp_step. cbn [jb code_buffer set_code set_jb].
    rewrite shl_buffer by lia. cbn [wp]. awp_step. awp_step. awp_step. rewrite rd_ok, Ev by lia. cbn [wp].
    split; [done|]. destruct (take_incoming cs t j1 _ Hin1 ltac:(lia) eq_refl) as [Hin2 Hcomp2]. rewrite Hl in Hin2.
    split; [exact Hin2|exact Hcomp].
Qed.

(** ** The table of short coefficients *)

(** No entry for the end of a block or a run of zeros. *)
Lemma fast_ac_none h T s fac t j : shaped h = true → good_symbol h T s = true → Z.land s 15 = 0 →
  zlen fac = 512 → forallb (good_fast_ac h fac) (seqZ 0 512) = true → incoming (sym_bits T s ++ t) j →
  awp_ok (fast_ac_path fuel fac) j (λ r j', r = None ∧ to_come (sym_bits T s ++ t) j j').
Proof using Hfuel.
  intros Hsh Hg Hs Hlf Hf Hin. set (bs := sym_bits T s ++ t) in *. unfold fast_ac_path. awp_step.
  eapply awp_ok_mono; [apply need_bits_spec; done || lia|]. cbn beta. intros _ j1 [[Hin1 Hcomp] Hcb].
  awp_step. apply (peek_fast_spec bs); [done|lia|]. pose proof (win_range 9 bs ltac:(lia)). change (2 ^ 9) with 512 in *.
  awp_step. awp_step. rewrite rd_ok by lia. cbn [wp]. destruct (Z.eqb_spec (fac.[win 9 bs]) 0) as [E|E].
  - awp_step. done.
  - exfalso. rewrite forallb_forall in Hf.
    destruct (fac_entry h T s fac t (win 9 bs) Hg ltac:(apply Hf, list_elem_of_In, elem_of_seqZ; lia) eq_refl E) as (_ & Hm & _).
    lia.
Qed.

(** The entry of a short coefficient is its run and its value. *)
Lemma fast_ac_value h T run v fac t j : shaped h = true → 0 ≤ run ≤ 15 → v ≠ 0 → category v ≤ 15 →
  good_symbol h T (run * 16 + category v) = true →
  zlen fac = 512 → forallb (good_fast_ac h fac) (seqZ 0 512) = true →
  incoming (sym_bits T (run * 16 + category v) ++ extra_bits v ++ t) j →
  awp_ok (fast_ac_path fuel fac) j (λ r j',
    r = None ∧ to_come (sym_bits T (run * 16 + category v) ++ extra_bits v ++ t) j j' ∨
    r = Some (run, v) ∧ to_come t j j').
Proof using Hfuel.
  intros Hsh Hrun Hv Hcat Hg Hlf Hf Hin. pose proof (category_spec v Hv) as [Hcv H1].
  set (s := run * 16 + category v) in *. set (bs := sym_bits T s ++ extra_bits v ++ t) in *.
  assert (Z.land s 15 = category v) as Hmag.
  { change 15 with (2 ^ 4 - 1). rewrite land_mask by lia. unfold s. rewrite Z.add_comm, Z.mod_add by lia.
    apply Z.mod_small. change (2 ^ 4) with 16. lia. }
  assert (Z.shiftr s 4 = run) as Hsr.
  { rewrite Z.shiftr_div_pow2 by lia. unfold s. change (2 ^ 4) with 16. rewrite Z.div_add_l by lia.
    rewrite Z.div_small by lia. lia. }
  pose proof (length_extra v Hv) as Hle. pose proof (bval_extra v Hv) as Hbe.
  unfold fast_ac_path. awp_step.
  eapply awp_ok_mono; [apply need_bits_spec; done || lia|]. cbn beta. intros _ j1 [[Hin1 Hcomp] Hcb].
  awp_step. apply (peek_fast_spec bs); [done|lia|]. pose proof (win_range 9 bs ltac:(lia)). change (2 ^ 9) with 512 in *.
  awp_step. awp_step. rewrite rd_ok by lia. cbn [wp]. destruct (Z.eqb_spec (fac.[win 9 bs]) 0) as [E|E].
  - awp_step. by left.
  - rewrite forallb_forall in Hf.
    destruct (fac_entry h T s fac (extra_bits v ++ t) (win 9 bs) Hg
      ltac:(apply Hf, list_elem_of_In, elem_of_seqZ; lia) eq_refl E) as (Hn1 & _ & Htot & Er & Erun & Ev).
    rewrite Hmag in *. set (n := zlen (sym_bits T s)) in *.
    assert (zlen (sym_bits T s ++ extra_bits v) = n + category v) as Hlen by (rewrite length_app; lia).
    assert (zlen bs = n + category v + zlen t) as Hlbs by (unfold bs; rewrite !length_app; lia).
    assert ((win 9 bs / 2 ^ (9 - (n + category v))) mod 2 ^ category v = extra_value v) as Ee.
    { rewrite (win_div (n + category v)) by lia. unfold bs.
      replace (2 ^ category v) with (2 ^ (n + category v - zlen (sym_bits T s))) by (f_equal; unfold n; lia).
      rewrite win_drop by lia. replace (n + category v - zlen (sym_bits T s)) with (category v) by lia.
      rewrite win_app, Hle, Z.sub_diag, win_0, Hbe by lia. cbn. lia. }
    rewrite Ee in Ev. cbn zeta in Ev. rewrite Er. awp_step. apply awp_ok_get. awp_step.
    apply awp_ok_pass; [apply Z.ltb_ge; lia|]. awp_step. rewrite <- Hlen.
    unfold bs in Hin1. rewrite app_assoc in Hin1.
    eapply awp_ok_mono; [apply (drop_bits_spec (sym_bits T s ++ extra_bits v) t); [done|lia|lia]|].
    intros [] j2 [Hin2 Hcomp2]. awp_step. right. split; [|split; [done|congruence]].
    rewrite Erun, Ev, Hsr. do 2 f_equal. unfold extra_value.
    assert (2 ^ category v = 2 * 2 ^ (category v - 1)) by (rewrite <- Z.pow_succ_r by lia; f_equal; lia).
    destruct (Z.ltb_spec v 0); [rewrite (proj2 (Z.ltb_lt _ _)) by lia|rewrite (proj2 (Z.ltb_ge _ _)) by lia]; lia.
Qed.

(** ** Blocks *)
Lemma next_dc_spec hdc T b e diff DC c t j : dc_ok hdc T = true → Z.abs diff < 2 ^ 11 → Z.abs DC < 2 ^ 15 →
  0 ≤ b → img_comp j !! Z.to_nat b = Some c → dc_pred c = DC → incoming (dc_bits T diff ++ t) j →
  awp_ok (next_dc fuel hdc b e) j (λ r j', r = DC + diff ∧ incoming t j' ∧
    img_comp j' = zset (img_comp j) b (set_dc_pred (DC + diff) c)).
Proof using Hfuel.
  intros [Hsh Hsy]%andb_true_iff Hd HDC Hb Hcb Hp Hin.
  assert (∀ s, 0 ≤ s < 12 → good_symbol hdc T s = true) as Hgood.
  { intros s Hs. apply (forallb_elem _ _ s Hsy), elem_of_seqZ. lia. }
  assert (awp_ok (t ← stbi__jpeg_huff_decode fuel hdc;
      fail_if ((t <? 0) || (15 <? t)) e;;
      (if negb (t =? 0) then stbi__extend_receive fuel t else mret 0)) j
    (λ r j', r = diff ∧ to_come t j j')) as Hdiff.
  { unfold dc_bits in Hin. destruct (Z.eqb_spec diff 0) as [->|Hne].
    - awp_step. eapply awp_ok_mono; [apply (huff_decode_spec hdc T 0 t); [done|by apply Hgood|done]|].
      intros r j1 [-> H1]. awp_step. apply awp_ok_pass; [done|]. cbn [Z.eqb negb]. awp_step. done.
    - pose proof (category_spec diff Hne). pose proof (category_le diff 11 Hne ltac:(lia) Hd).
      rewrite <- app_assoc in Hin. awp_step.
      eapply awp_ok_mono; [apply (huff_decode_spec hdc T (category diff) (extra_bits diff ++ t)); [done|apply Hgood; lia|done]|].
      intros r j1 [-> [H1 Hc1]]. awp_step.
      apply awp_ok_pass; [apply orb_false_iff; split; apply Z.ltb_ge; lia|].
      rewrite (proj2 (Z.eqb_neq (category diff) 0)) by lia. cbn [negb].
      eapply awp_ok_mono; [apply (extend_receive_spec diff t); [done|lia|done]|].
      intros r j2 [-> [H2 Hc2]]. split; [done|]. split; [done|congruence]. }
  unfold next_dc, awp_ok, awp in *. unfold mbind, Act_bind in *.
  destruct (stbi__jpeg_huff_decode fuel hdc j) as [[[t'|] j1]| |]; try done.
  destruct (fail_if _ _ j1) as [[[[]|] j2]| |]; try done.
  apply wp_elim in Hdiff as ([[r|] j3] & E & Hdiff); [|done]. rewrite E. cbn in Hdiff.
  destruct Hdiff as [-> [H3 Hc3]]. unfold comp, upd_comp, mbind, Act_bind, get, lift, put.
  assert (rd (img_comp j) b = Ok c) as Erd by (unfold rd; rewrite (proj2 (Z.ltb_ge b 0)), Hcb by done; done).
  pose proof (lookup_lt_Some _ _ _ Hcb). rewrite Hc3, Erd. rewrite Hp, addints_ok by lia. cbn.
  rewrite i32_ok by (c_unfold; lia). rewrite Hc3, Erd, wr_ok by lia. cbn.
  split; [done|]. split; [|done]. destruct H3 as (Hok & Hr). done.
Qed.

(** The loop over the AC coefficients. *)
Definition ac_body (hac : stbi__huffman) (fac dequant : list Z) : list Z * Z → Act stbi__jpeg (ctl (list Z * Z) Empty_set) :=
  λ '(data, k),
    p ← fast_ac_path fuel fac;
    match p with
    | Some (run, val) =>
        zig ← lift (rd stbi__jpeg_dezigzag (k + run));
        q ← lift (rd dequant zig);
        m ← lift (i32 (val * q));
        data ← lift (wr data zig (i16 m));
        let k := k + run + 1 in
        mret (if k <? 64 then Next (data, k) else Break (data, k))
    | None =>
        rs ← stbi__jpeg_huff_decode fuel hac;
        fail_if (rs <? 0) "bad huffman code";;
        let s := Z.land rs 15 in
        let r := Z.shiftr rs 4 in
        if s =? 0 then
          if negb (rs =? 0xf0) then mret (Break (data, k))
          else mret (if k + 16 <? 64 then Next (data, k + 16) else Break (data, k + 16))
        else
          zig ← lift (rd stbi__jpeg_dezigzag (k + r));
          e ← stbi__extend_receive fuel s;
          q ← lift (rd dequant zig);
          m ← lift (i32 (e * q));
          data ← lift (wr data zig (i16 m));
          let k := k + r + 1 in
          mret (if k <? 64 then Next (data, k) else Break (data, k))
    end.

Section ac.
Context (hac : stbi__huffman) (fac dequant : list Z) (T : HT) (DU : list Z) (t : list bool) (j0 : stbi__jpeg).
Context (Hac : ac_ok hac fac T = true) (HDU : zlen DU = 64) (Hv : Forall (λ v, Z.abs v < 2 ^ 10) (drop 1 DU)).
Context (Hq : zlen dequant = 64) (Hq16 : Forall (λ q, 0 ≤ q < 2 ^ 16) dequant).

(** Before coefficient [k]. *)
Definition ac_inv (s : list Z * Z) (j : stbi__jpeg) : Prop :=
  1 ≤ s.2 ≤ 64 ∧ s.1 = dezigzag_block dequant (padded s.2 DU) ∧
  to_come (ac_bits T 0 (drop (Z.to_nat s.2) DU) ++ t) j0 j.

(** How the loop goes on from coefficient [k]. *)
Definition ac_step (k : Z) (c : ctl (list Z * Z) Empty_set) (j : stbi__jpeg) : Prop :=
  match c with
  | Next s => ac_inv s j ∧ k < s.2 < 64
  | Break s => ac_inv (s.1, 64) j
  | Return _ => False
  end.

Lemma coefficient_bound k m v tl : 1 ≤ k → drop (Z.to_nat k) DU = replicate m 0 ++ v :: tl → Z.abs v < 2 ^ 10.
Proof using All.
  intros Hk Hd. pose proof (Forall_drop _ (Z.to_nat (k - 1)) _ Hv) as Hf. rewrite drop_drop in Hf.
  replace (1 + Z.to_nat (k - 1))%nat with (Z.to_nat k) in Hf by lia. rewrite Hd in Hf.
  apply Forall_app in Hf as [_ Hf]. by apply Forall_cons_1 in Hf as [Hf _].
Qed.

(** A coefficient is put in its place. *)
Lemma place k m v tl j : 1 ≤ k < 64 → drop (Z.to_nat k) DU = replicate m 0 ++ v :: tl →
  to_come (ac_bits T 0 tl ++ t) j0 j →
  awp_ok (q ← lift (rd dequant (stbi__jpeg_dezigzag.[k + Z.of_nat m]));
      m' ← lift (i32 (v * q));
      data ← lift (wr (dezigzag_block dequant (padded k DU)) (stbi__jpeg_dezigzag.[k + Z.of_nat m]) (i16 m'));
      let k := k + Z.of_nat m + 1 in
      mret (if k <? 64 then Next (data, k) else Break (data, k))) j (ac_step k).
Proof using All.
  intros Hk Hd Hj. destruct (padded_set DU k m v tl HDU ltac:(lia) Hd) as (Hlt & Hset & ->).
  destruct (zigzag_inverse (k + Z.of_nat m) ltac:(lia)) as (Hz & _). set (zig := stbi__jpeg_dezigzag.[_]) in *.
  pose proof (coefficient_bound k m v _ ltac:(lia) Hd) as Hvb.
  assert (0 ≤ dequant.[zig] < 2 ^ 16) as Hqb.
  { rewrite Forall_forall in Hq16. apply Hq16. apply list_elem_of_lookup_total_2. lia. }
  awp_step. awp_step. rewrite rd_ok by lia. cbn [wp]. awp_step. awp_step. rewrite i32_ok by (c_unfold; nia). cbn [wp].
  awp_step. awp_step. rewrite wr_ok by (rewrite length_dezigzag; lia). cbn [wp]. awp_step.
  unfold zig. rewrite dezigzag_set, Hset by (rewrite ?length_padded; lia). unfold ac_step.
  assert (∀ k', k' = k + Z.of_nat m + 1 → ac_inv (dezigzag_block dequant (padded k' DU), k') j) as Hinv.
  { intros k' ->. split; [cbn [snd]; lia|]. done. }
  destruct (Z.ltb_spec (k + Z.of_nat m + 1) 64); [split; [by apply Hinv|cbn [snd]; lia]|].
  replace (k + Z.of_nat m + 1) with 64 in * by lia. by apply Hinv.
Qed.

Lemma ac_tables : shaped hac = true ∧ zlen fac = 512 ∧ forallb (good_fast_ac hac fac) (seqZ 0 512) = true ∧
  ∀ s, s ∈ ac_symbols → good_symbol hac T s = true.
Proof using All.
  apply andb_true_iff in Hac as [[[Hsh Hlf]%andb_true_iff Hgf]%andb_true_iff Hgs]. apply Z.eqb_eq in Hlf.
  repeat split; [done..|]. intros s. by apply (forallb_elem _ _ s Hgs).
Qed.

(** The end of the block. *)
Lemma ac_end k j : 1 ≤ k < 64 → Forall (λ v, v = 0) (drop (Z.to_nat k) DU) →
  to_come (ac_bits T 0 (drop (Z.to_nat k) DU) ++ t) j0 j →
  awp_ok (ac_body hac fac dequant (dezigzag_block dequant (padded k DU), k)) j (ac_step k).
Proof using All.
  intros Hk Hz [Hin Hcomp]. destruct ac_tables as (Hsh & Hlf & Hgf & Hgood). unfold ac_body.
  rewrite ac_bits_end in Hin by (done || (intros E%(f_equal length); rewrite length_drop in E; cbn in E; lia)).
  assert (good_symbol hac T 0 = true) as Hg by (apply Hgood; left).
  awp_step. eapply awp_ok_mono; [by apply (fast_ac_none hac T 0 fac t)|]. cbn beta. intros ? j1 [-> [H1 Hc1]].
  awp_step. eapply awp_ok_mono; [by apply (huff_decode_spec hac T 0 t)|]. cbn beta. intros r j2 [-> [H2 Hc2]].
  awp_step. apply awp_ok_pass; [done|]. change (Z.land 0 15 =? 0) with true. change (0 =? 240) with false. cbn [negb].
  awp_step. unfold ac_step, ac_inv. cbn [fst snd]. split; [lia|]. split.
  - f_equal. symmetry. replace 64 with (k + (64 - k)) at 1 by lia. apply padded_zeros; try lia.
    intros i Hi. rewrite Forall_forall in Hz. apply Hz. replace i with (k + (i - k)) by lia. rewrite <- znth_drop by lia.
    apply list_elem_of_lookup_total_2. rewrite length_drop. lia.
  - rewrite drop_ge by lia. split; [done|congruence].
Qed.

(** Sixteen zeros of a longer run. *)
Lemma run_split k m v tl : 0 ≤ k → v ≠ 0 → drop (Z.to_nat k) DU = replicate m 0 ++ v :: tl → (16 ≤ m)%nat →
  drop (Z.to_nat k) DU = replicate 16 0 ++ drop (Z.to_nat (k + 16)) DU ∧
  ac_bits T 0 (drop (Z.to_nat k) DU) = sym_bits T 0xf0 ++ ac_bits T 0 (drop (Z.to_nat (k + 16)) DU).
Proof using All.
  intros Hk Hne Hd Hm.
  assert (drop (Z.to_nat (k + 16)) DU = replicate (m - 16) 0 ++ v :: tl) as E.
  { replace (Z.to_nat (k + 16)) with (Z.to_nat k + 16)%nat by lia. rewrite <- drop_drop, Hd.
    rewrite drop_app_le by (rewrite length_replicate; lia). by rewrite drop_replicate. }
  rewrite E, Hd. split.
  - rewrite app_assoc, <- replicate_add. by replace (16 + (m - 16))%nat with m by lia.
  - rewrite !ac_bits_run by (done || lia). rewrite !Z.add_0_l.
    replace (Z.of_nat m) with (Z.of_nat (m - 16) + 1 * 16) by lia. rewrite Z.div_add, Z.mod_add by lia.
    replace (Z.to_nat (Z.of_nat (m - 16) / 16 + 1)) with (S (Z.to_nat (Z.of_nat (m - 16) / 16)))
      by (pose proof (Z.div_pos (Z.of_nat (m - 16)) 16); lia).
    cbn [replicate mjoin list_join]. by rewrite <- app_assoc.
Qed.

Lemma ac_zrl k m v tl j : 1 ≤ k < 64 → v ≠ 0 → drop (Z.to_nat k) DU = replicate m 0 ++ v :: tl → (16 ≤ m)%nat →
  to_come (ac_bits T 0 (drop (Z.to_nat k) DU) ++ t) j0 j →
  awp_ok (ac_body hac fac dequant (dezigzag_block dequant (padded k DU), k)) j (ac_step k).
Proof using All.
  intros Hk Hne Hd Hm [Hin Hcomp]. destruct ac_tables as (Hsh & Hlf & Hgf & Hgood). unfold ac_body.
  destruct (padded_set DU k m v tl HDU ltac:(lia) Hd) as (Hkm & _ & _).
  destruct (run_split k m v tl ltac:(lia) Hne Hd Hm) as [Hd16 Hb]. rewrite Hb, <- app_assoc in Hin.
  assert (good_symbol hac T 0xf0 = true) as Hg by (apply Hgood; right; left).
  awp_step. eapply awp_ok_mono; [by eapply (fast_ac_none hac T 0xf0 fac)|]. cbn beta. intros ? j1 [-> [H1 Hc1]].
  awp_step. eapply awp_ok_mono; [by eapply (huff_decode_spec hac T 0xf0)|]. cbn beta. intros r j2 [-> [H2 Hc2]].
  awp_step. apply awp_ok_pass; [done|]. change (Z.land 240 15 =? 0) with true. change (240 =? 240) with true.
  cbn match. cbn [negb]. awp_step. rewrite (proj2 (Z.ltb_lt (k + 16) 64)) by lia. unfold ac_step, ac_inv. cbn [fst snd].
  split; [|lia]. split; [lia|]. split; [|split; [done|congruence]].
  f_equal. symmetry. apply padded_zeros; try lia. intros i Hi. replace i with (k + (i - k)) by lia.
  rewrite <- znth_drop, Hd16, lookup_total_app_l by (rewrite ?length_replicate; lia).
  apply lookup_total_replicate_2. lia.
Qed.

(** A coefficient after fewer than sixteen zeros. *)
Lemma ac_coefficient k m v tl j : 1 ≤ k < 64 → v ≠ 0 → drop (Z.to_nat k) DU = replicate m 0 ++ v :: tl → (m < 16)%nat →
  to_come (ac_bits T 0 (drop (Z.to_nat k) DU) ++ t) j0 j →
  awp_ok (ac_body hac fac dequant (dezigzag_block dequant (padded k DU), k)) j (ac_step k).
Proof using All.
  intros Hk Hne Hd Hm [Hin Hcomp]. destruct ac_tables as (Hsh & Hlf & Hgf & Hgood). unfold ac_body.
  destruct (padded_set DU k m v tl HDU ltac:(lia) Hd) as (Hkm & _ & _).
  pose proof (coefficient_bound k m v tl ltac:(lia) Hd) as Hvb.
  pose proof (category_spec v Hne) as [_ Hc1']. pose proof (category_le v 10 Hne ltac:(lia) Hvb) as Hc10.
  rewrite Hd, ac_bits_run, Z.add_0_l, Z.div_small, Z.mod_small in Hin by (done || lia).
  cbn [replicate mjoin list_join app] in Hin. rewrite <- !app_assoc in Hin.
  assert (good_symbol hac T (Z.of_nat m * 16 + category v) = true) as Hg by (apply Hgood, ac_symbol_in; lia).
  awp_step.
  eapply awp_ok_mono; [apply (fast_ac_value hac T (Z.of_nat m) v fac (ac_bits T 0 tl ++ t)); try done; lia|].
  cbn beta. intros p j1 [[-> [H1 Hc1]]|[-> [H1 Hc1]]].
  - awp_step. eapply awp_ok_mono; [by eapply (huff_decode_spec hac T)|]. cbn beta. intros rs j2 [-> [H2 Hc2]].
    awp_step. apply awp_ok_pass; [apply Z.ltb_ge; lia|].
    destruct (symbol_fields (Z.of_nat m) (category v) ltac:(lia) ltac:(lia)) as [-> ->].
    rewrite (proj2 (Z.eqb_neq (category v) 0)) by lia.
    awp_step. awp_step. rewrite rd_ok by (cbn; lia). cbn [wp].
    awp_step. eapply awp_ok_mono; [by apply (extend_receive_spec v (ac_bits T 0 tl ++ t)); [|lia|]|]. cbn beta.
    intros e j3 [-> [H3 Hc3]]. apply (place k m v tl j3); [lia|done|]. split; [done|congruence].
  - awp_step. awp_step. rewrite rd_ok by (cbn; lia). cbn [wp].
    apply (place k m v tl j1); [lia|done|]. split; [done|congruence].
Qed.

Lemma ac_body_spec s j : ac_inv s j → s.2 < 64 → awp_ok (ac_body hac fac dequant s) j (ac_step s.2).
Proof using All.
  destruct s as [data k]. intros (Hk & Hdata & Hin) Hlt. cbn [fst snd] in *. subst data.
  destruct (zeros_or_run (drop (Z.to_nat k) DU)) as [Hz|(m & v & tl & Hd & Hne)]; [by apply ac_end; [lia|..]|].
  destruct (decide (16 ≤ m)%nat); [apply (ac_zrl k m v tl)|apply (ac_coefficient k m v tl)]; done || lia.
Qed.
End ac.

Lemma decode_block_spec hdc hac fac b dequant T TA c DC DU t j :
  dc_ok hdc T = true → ac_ok hac fac TA = true → dequant_ok dequant → coeffs_ok dequant DC DU → Z.abs DC < 2 ^ 15 →
  0 ≤ b → img_comp j !! Z.to_nat b = Some c → dc_pred c = DC → incoming (block_bits T TA DC DU ++ t) j →
  awp_ok (stbi__jpeg_decode_block fuel hdc hac fac b dequant) j (λ data j', data = dezigzag_block dequant DU ∧
    incoming t j' ∧ img_comp j' = zset (img_comp j) b (set_dc_pred (DU.[0]) c)).
Proof using Hfuel.
  intros Hdc Hac [Hq Hq16] (Hl & Hdiff & H0 & Hmul & Hv) HDC Hb Hc Hp Hin. unfold block_bits in Hin.
  rewrite <- app_assoc in Hin. unfold stbi__jpeg_decode_block. awp_step.
  eapply awp_ok_mono; [apply need_bits_spec; done || lia|]. cbn beta. intros _ j1 [[H1 Hc1] _].
  awp_step. eapply awp_ok_mono; [apply (next_dc_spec hdc T b _ (DU.[0] - DC) DC c); try done; by rewrite Hc1|].
  cbn beta. intros dc j2 (-> & H2 & Hc2). replace (DC + (DU.[0] - DC)) with (DU.[0]) in * by lia.
  awp_step. awp_step. rewrite rd_ok by lia. cbn [wp]. awp_step. apply awp_ok_pass; [by rewrite Hmul|].
  assert (0 ≤ dequant.[0] < 2 ^ 16) as Hqb.
  { rewrite Forall_forall in Hq16. apply Hq16. apply list_elem_of_lookup_total_2. lia. }
  awp_step. awp_step. rewrite i32_ok by (c_unfold; nia). cbn [wp]. awp_step. awp_step.
  rewrite wr_ok by (rewrite length_replicate; lia). cbn [wp]. rewrite padded_first by done.
  awp_step. change (awp_ok (a_loop 64 (ac_body hac fac dequant) (dezigzag_block dequant (padded 1 DU), 1)) j2
    (λ r s', awp_ok (mret (fell r).1) s' (λ data j', data = dezigzag_block dequant DU ∧
      incoming t j' ∧ img_comp j' = zset (img_comp j) b (set_dc_pred (DU.[0]) c)))).
  apply (awp_loop (λ s j', ac_inv dequant TA DU t j2 s j' ∧ s.2 < 64) (λ s _, Z.to_nat (64 - s.2))).
  - split; [|cbn [snd]; lia]. split; [cbn [snd]; lia|]. split; [done|]. split; done.
  - cbn [snd]. lia.
  - intros s j3 [Hs Hlt]. eapply awp_mono; [by apply (ac_body_spec hac fac dequant TA DU t j2 Hac Hl Hv Hq Hq16)|].
    intros [[s'|s'|[]]|e] j4; [| |done].
    + intros [Hs' Hk]. split; [split; [done|lia]|lia].
    + intros (_ & Hd & H4 & Hc4). awp_step. cbn [fell fst snd] in *. rewrite Hd, padded_64 by done.
      split; [done|]. rewrite drop_ge in H4 by lia. split; [done|]. rewrite Hc4, Hc2. by rewrite Hc1.
Qed.
End decode.
End reader.

(** ** Scans

    The blocks of a scan come with the number of their component: 0 is luma,
    1 and 2 are chroma. *)
Definition dc_codes (n : Z) : HT := if n =? 0 then YDC_HT else UVDC_HT.
Definition ac_codes (n : Z) : HT := if n =? 0 then YAC_HT else UVAC_HT.

(** The writer's side: [dc] are [DCY], [DCU], [DCV]. *)
Fixpoint write_blocks (dc : list Z) (blocks : list (Z * list Z)) : Jw unit :=
  match blocks with
  | [] => stbiw__jpg_writeBits fillBits
  | (n, DU) :: blocks =>
      DC ← lift (rd dc n);
      d ← encode_block DU DC (dc_codes n) (ac_codes n);
      dc ← lift (wr dc n d);
      write_blocks dc blocks
  end.

(** The Huffman tables of the writer's header. *)
Definition dht_segment : list Z :=
  [0x01; 0xA2; 0] ++ drop 1 std_dc_luminance_nrcodes ++ std_dc_luminance_values ++
  [0x10] ++ drop 1 std_ac_luminance_nrcodes ++ std_ac_luminance_values ++
  [1] ++ drop 1 std_dc_chrominance_nrcodes ++ std_dc_chrominance_values ++
  [0x11] ++ drop 1 std_ac_chrominance_nrcodes ++ std_ac_chrominance_values.

Lemma func_out l c (Q : unit → stbi__write_context → Prop) :
  (∀ c', mjoin (sent c') = mjoin (sent c) ++ l → Q () c') → awp_ok (func l) c Q.
Proof. intros HQ. apply HQ. cbn [sent]. apply mjoin_snoc. Qed.

Lemma headers_dht w h ss YT UVT c : awp_ok (write_headers w h ss YT UVT) c (λ _ c', ∃ before,
  mjoin (sent c') = before ++ [0xFF; 0xC4] ++ dht_segment ++ head2).
Proof.
  unfold write_headers, stbiw__putc.
  do 16 (apply awp_ok_bind, func_out; intros ? ?). apply func_out. intros cz Hcz.
  set (start := take 19 (head1 w h ss)).
  assert (head1 w h ss = start ++ [0xFF; 0xC4; 0x01; 0xA2; 0]) as E by done. clearbody start.
  exists ((((mjoin (sent c) ++ head0) ++ YT) ++ [1]) ++ UVT ++ start).
  rewrite E in *. repeat match goal with H : mjoin (sent ?x) = _ |- context [mjoin (sent ?x)] => rewrite H; clear H end.
  unfold dht_segment. by rewrite <- !app_assoc.
Qed.

Section scans.
Context `{Env : StbiEnv} {Cb : Callbacks}.

(** The tables a fresh decoder builds from it. *)
Definition dht_tables : tables :=
  let j := zero_jpeg (stbi__start_mem dht_segment (zlen dht_segment)) in
  match read_dht j with Ok (Val _, j') => jt j' | _ => jt j end.

(** The tables of component [n], as the scan header selects them. *)
Definition table_of (n : Z) : nat := if n =? 0 then 0%nat else 1%nat.
Definition read_block (fuel : nat) (dq : Z → list Z) (n : Z) : Act stbi__jpeg (list Z) :=
  hdc ← lift (rd (huff_dc dht_tables) (Z.of_nat (table_of n)));
  hac ← lift (rd (huff_ac dht_tables) (Z.of_nat (table_of n)));
  fac ← lift (rd (fast_ac dht_tables) (Z.of_nat (table_of n)));
  stbi__jpeg_decode_block fuel hdc hac fac n (dq n).

(** The decoder's side: the blocks of the components [ns], in order. *)
Fixpoint read_blocks (fuel : nat) (dq : Z → list Z) (ns : list Z) : Act stbi__jpeg (list (list Z)) :=
  match ns with
  | [] => mret []
  | n :: ns => d ← read_block fuel dq n; ds ← read_blocks fuel dq ns; mret (d :: ds)
  end.

Fixpoint scan_ok (dq : Z → list Z) (dc : list Z) (blocks : list (Z * list Z)) : Prop :=
  match blocks with
  | [] => True
  | (n, DU) :: blocks => 0 ≤ n < 3 ∧ coeffs_ok (dq n) (dc.[n]) DU ∧ scan_ok dq (zset dc n (DU.[0])) blocks
  end.

Fixpoint scan_bits (dc : list Z) (blocks : list (Z * list Z)) : list bool :=
  match blocks with
  | [] => []
  | (n, DU) :: blocks => block_bits (dc_codes n) (ac_codes n) (dc.[n]) DU ++ scan_bits (zset dc n (DU.[0])) blocks
  end.

Lemma tables_ok n : wp (hdc ← rd (huff_dc dht_tables) (Z.of_nat (table_of n));
    hac ← rd (huff_ac dht_tables) (Z.of_nat (table_of n));
    fac ← rd (fast_ac dht_tables) (Z.of_nat (table_of n)); Ok (hdc, hac, fac))
  (λ '(hdc, hac, fac), dc_ok hdc (dc_codes n) = true ∧ ac_ok hac fac (ac_codes n) = true).
Proof. unfold table_of, dc_codes, ac_codes. destruct (n =? 0); vm_compute; split; reflexivity. Qed.

Lemma write_blocks_spec dq blocks base dc before j : scan_ok dq dc blocks → zlen dc = 3 → Forall (λ d, Z.abs d < 2 ^ 15) dc →
  jwrote base before j →
  awp_ok (write_blocks dc blocks) j (λ _ j', jwrote base (before ++ scan_bits dc blocks ++ nbits 7 0x7F) j').
Proof.
  revert dc before j. induction blocks as [|[n DU] blocks IH]; intros dc before j Hok Hl Hdc Hj.
  - cbn [write_blocks scan_bits app]. unfold fillBits. apply (writeBits_spec base before j 127 7); [done|lia|lia].
  - destruct Hok as (Hn & (HDU & Hdiff & H0 & _ & Hv) & Hok). cbn [write_blocks scan_bits].
    assert (Z.abs (dc.[n]) < 2 ^ 15) as Hdn.
    { rewrite Forall_forall in Hdc. apply Hdc, list_elem_of_lookup_total_2. lia. }
    assert (ht_ok (dc_codes n) ∧ ht_ok (ac_codes n)) as [Hd Ha].
    { unfold dc_codes, ac_codes. destruct (n =? 0); split; auto using YDC_ok, YAC_ok, UVDC_ok, UVAC_ok. }
    awp_step. awp_step. rewrite rd_ok by lia. cbn [wp]. awp_step. unfold encode_block.
    awp_step. awp_step. rewrite rd_ok by lia. cbn [wp]. awp_step. awp_step. rewrite i32_ok by (c_unfold; lia). cbn [wp].
    awp_step. eapply awp_ok_mono; [apply (encode_dc_spec _ Hd base _ before); [lia|done]|]. intros [] j1 H1.
    awp_step. eapply awp_ok_mono; [eapply (encode_acs_spec _ Ha base DU); [done| |exact H1]|].
    { destruct DU as [|d0 DU]; [done|]. constructor; [done|]. eapply Forall_impl; [exact Hv|]. cbn. lia. }
    intros [] j2 H2. awp_step. awp_step. awp_step. rewrite wr_ok by lia. cbn [wp].
    eapply awp_ok_mono; [apply IH; [done|by rewrite length_zset| |exact H2]|].
    { apply Forall_insert; [done|done]. }
    intros [] j3 H3. unfold block_bits. by rewrite <- !app_assoc in *.
Qed.

(** The decoder's predictors. *)
Definition preds_match (dc : list Z) (j : stbi__jpeg) : Prop := zlen dc = 3 ∧
  ∀ n, 0 ≤ n < 3 → ∃ c, img_comp j !! Z.to_nat n = Some c ∧ dc_pred c = dc.[n].

Lemma read_blocks_spec fuel dq blocks dc t j : (1 ≤ fuel)%nat → (∀ n, 0 ≤ n < 3 → dequant_ok (dq n)) →
  scan_ok dq dc blocks → Forall (λ d, Z.abs d < 2 ^ 15) dc → preds_match dc j → incoming (scan_bits dc blocks ++ t) j →
  awp_ok (read_blocks fuel dq blocks.*1) j (λ ds _, ds = (λ b, dezigzag_block (dq b.1) b.2) <$> blocks).
Proof.
  intros Hfuel Hdq. revert dc j. induction blocks as [|[n DU] blocks IH]; intros dc j Hok Hdc [Hl Hp] Hin; [done|].
  destruct Hok as (Hn & Hco & Hok). cbn [scan_bits fmap list_fmap fst read_blocks] in *. rewrite <- app_assoc in Hin.
  destruct (Hp n Hn) as (c & Hc & Hcp). pose proof (lookup_lt_Some _ _ _ Hc) as Hcl.
  assert (Z.abs (dc.[n]) < 2 ^ 15) as Hdn.
  { rewrite Forall_forall in Hdc. apply Hdc, list_elem_of_lookup_total_2. lia. }
  pose proof (tables_ok n) as Ht. unfold read_block. awp_step.
  destruct (rd (huff_dc dht_tables) _) as [hdc| |]; [|done..]. destruct (rd (huff_ac dht_tables) _) as [hac| |]; [|done..].
  destruct (rd (fast_ac dht_tables) _) as [fac| |]; [|done..]. destruct Ht as [Htd Hta].
  do 6 (awp_step; cbn [wp]).
  eapply awp_ok_mono; [apply (decode_block_spec fuel Hfuel hdc hac fac n (dq n) (dc_codes n) (ac_codes n) c (dc.[n]) DU);
    [done|done|by apply Hdq|done|done|lia|done|done|exact Hin]|].
  cbn beta. intros d j1 (-> & H1 & Hc1). awp_step.
  eapply awp_ok_mono; [apply (IH (zset dc n (DU.[0])) j1); [done| | |exact H1]|].
  - destruct Hco as (_ & _ & H0 & _). apply Forall_insert; done.
  - split; [by rewrite length_zset|]. intros k Hk. rewrite Hc1. destruct (decide (k = n)) as [->|Hne].
    + exists (set_dc_pred (DU.[0]) c). unfold zset at 1. rewrite list_lookup_insert_eq by lia. split; [done|]. by rewrite znth_zset_eq by lia.
    + destruct (Hp k Hk) as (ck & Hck & Hckp). exists ck. unfold zset at 1. rewrite list_lookup_insert_ne by lia.
      split; [done|]. rewrite znth_zset_ne by lia. done.
  - cbn beta. intros ds j2 ->. by awp_step.
Qed.

(** The padding of the last byte is dropped with the bits that do not fill one. *)
Lemma scan_bytes base bs j : jwrote base (bs ++ nbits 7 0x7F) j → ∃ bytes fill,
  mjoin (sent (ctx j)) = base ++ stuff bytes ∧ Forall is_byte bytes ∧ byte_bits bytes = bs ++ fill.
Proof.
  intros [(bytes & pend & Hs & Hby & E & Hn & _) Hlt]. exists bytes, (take (7 - length pend) (nbits 7 0x7F)).
  split; [done|]. split; [done|].
  assert (take (length (byte_bits bytes)) (byte_bits bytes ++ pend) = byte_bits bytes) as Ht by apply take_app_length.
  rewrite <- E in Ht. rewrite <- Ht. apply (f_equal length) in E. rewrite !length_app, length_bits in E.
  rewrite take_app_ge by lia. do 2 f_equal. lia.
Qed.

(** C3. What the writer's entropy coder puts out for the blocks of a scan (any
    interleaving of the three components, coefficients in the range of
    eight-bit samples) the decoder reads back: with the Huffman tables it builds
    from the writer's DHT segment, block after block, it returns the
    coefficients that were written, multiplied by the quantisers and in natural
    order.  The data is followed by any marker. *)
Theorem jpeg_scan_roundtrip (fuel : nat) (dq : Z → list Z) (blocks : list (Z * list Z)) (c : stbi__write_context) :
  (1 ≤ fuel)%nat → (∀ n, 0 ≤ n < 3 → dequant_ok (dq n)) → scan_ok dq [0; 0; 0] blocks →
  ∃ c' data, with_bits (write_blocks [0; 0; 0] blocks) c = Ok (Val (), c') ∧
    mjoin (sent c') = mjoin (sent c) ++ data ∧
    ∀ j m tail, ctx_ok (js j) → remaining (js j) = data ++ 255 :: m :: tail → m ≠ 0 → m ≠ 255 →
      (3 ≤ length (img_comp j))%nat →
      awp_ok (stbi__jpeg_reset;; read_blocks fuel dq blocks.*1) j
        (λ ds _, ds = (λ b, dezigzag_block (dq b.1) b.2) <$> blocks).
Proof.
  intros Hfuel Hdq Hok. set (j0 := {| ctx := c; bitBuf := 0; bitCnt := 0 |}).
  assert (Forall (λ d, Z.abs d < 2 ^ 15) [0; 0; 0]) as Hz by (repeat constructor).
  assert (jwrote (mjoin (sent c)) [] j0) as H0.
  { split; [|done]. exists [], []. cbn. rewrite app_nil_r. done. }
  pose proof (write_blocks_spec dq blocks (mjoin (sent c)) [0; 0; 0] [] j0 Hok eq_refl Hz H0) as Hw.
  apply awp_ok_elim in Hw as ([] & j1 & E & Hw). cbn [app] in Hw.
  apply scan_bytes in Hw as (bytes & fill & Hs & Hby & Eb).
  exists (ctx j1), (stuff bytes). unfold with_bits. fold j0. rewrite E. split; [done|]. split; [done|].
  intros j m tail Hctx Hr Hm0 Hm Hc. apply awp_ok_bind. unfold stbi__jpeg_reset. cbv beta delta [awp_ok]. apply awp_modify.
  apply (read_blocks_spec fuel dq blocks [0; 0; 0] fill); try done.
  - split; [done|]. intros n Hn. cbn [img_comp set_counts set_comps set_jb].
    destruct (lookup_lt_is_Some_2 (img_comp j) (Z.to_nat n) ltac:(lia)) as [cn Ecn].
    exists (set_dc_pred 0 cn). rewrite list_lookup_fmap, Ecn. split; [done|]. cbn [dc_pred set_dc_pred].
    assert (n = 0 ∨ n = 1 ∨ n = 2) as [->|[->| ->]] by lia; done.
  - rewrite <- Eb. split; [done|]. cbn [set_counts set_comps set_jb jb code_bits code_buffer nomore js].
    split; [lia|]. split; [done|]. split; [lia|]. exists bytes, m, tail. done.
Qed.
End scans.

(** Two luma blocks and one of each chroma component. *)
Definition toy_blocks : list (Z * list Z) :=
  [(0, [-30; 12; 0; 0; -3] ++ replicate 40 0 ++ [7] ++ replicate 18 0);
   (0, [25] ++ replicate 63 0); (1, [4; 0; 1] ++ replicate 61 0);
   (2, [-9] ++ replicate 62 0 ++ [-1])].

(** The conditions on a scan, decided. *)
Definition coeffs_okb (dequant : list Z) (DC : Z) (DU : list Z) : bool :=
  (zlen DU =? 64) && (Z.abs (DU.[0] - DC) <? 2 ^ 11) && (Z.abs (DU.[0]) <? 2 ^ 15) &&
  stbi__mul2shorts_valid (DU.[0]) (dequant.[0]) && forallb (λ v, Z.abs v <? 2 ^ 10) (drop 1 DU).

Lemma coeffs_ok_b dequant DC DU : coeffs_okb dequant DC DU = true → coeffs_ok dequant DC DU.
Proof.
  unfold coeffs_okb.
  intros [[[[H1 H2]%andb_true_iff H3]%andb_true_iff H4]%andb_true_iff H5]%andb_true_iff.
  split; [lia|]. split; [lia|]. split; [lia|]. split; [done|]. apply Forall_forall. intros v Hv.
  pose proof (forallb_elem _ _ v H5 Hv) as Hb. cbn beta in Hb. lia.
Qed.

Fixpoint scan_okb (dq : Z → list Z) (dc : list Z) (blocks : list (Z * list Z)) : bool :=
  match blocks with
  | [] => true
  | (n, DU) :: blocks =>
      (0 <=? n) && (n <? 3) && coeffs_okb (dq n) (dc.[n]) DU && scan_okb dq (zset dc n (DU.[0])) blocks
  end.

Lemma scan_ok_b dq blocks : ∀ dc, scan_okb dq dc blocks = true → scan_ok dq dc blocks.
Proof.
  induction blocks as [|[n DU] blocks IH]; intros dc; [done|]. cbn [scan_okb scan_ok].
  intros [[H1 H2]%andb_true_iff H3]%andb_true_iff. split; [lia|]. split; [by apply coeffs_ok_b|by apply IH].
Qed.

Lemma jpeg_scan_roundtrip_witness : ∃ c' data,
  with_bits (write_blocks [0; 0; 0] toy_blocks) stbi__start_write_callbacks = Ok (Val (), c') ∧
  mjoin (sent c') = data ∧
  awp_ok (stbi__jpeg_reset;; @read_blocks toy_env 1 (λ _, replicate 64 3) toy_blocks.*1)
    (zero_jpeg (@stbi__start_mem toy_env (data ++ [255; 0xD9]) (zlen data + 2)))
    (λ ds _, ds = (λ b, dezigzag_block (replicate 64 3) b.2) <$> toy_blocks).
Proof.
  destruct (@jpeg_scan_roundtrip toy_env toy_callbacks 1 (λ _, replicate 64 3) toy_blocks stbi__start_write_callbacks)
    as (c' & data & E & Hs & H).
  - lia.
  - intros n _. split; [done|]. apply Forall_replicate. lia.
  - apply scan_ok_b. vm_compute. reflexivity.
  - exists c', data. split; [exact E|]. split; [exact Hs|].
    refine (H (zero_jpeg (@stbi__start_mem toy_env (data ++ [255; 0xD9]) (zlen data + 2))) 0xD9 [] _ _ _ _ _).
    + split; [done|]. cbn -[Z.of_nat]. rewrite length_app. cbn [length]. lia.
    + unfold remaining, window. cbn -[Z.of_nat Z.to_nat]. rewrite Z.sub_0_r. change (Z.to_nat 0) with 0%nat.
      rewrite drop_0. apply take_ge. rewrite length_app. cbn [length]. lia.
    + lia.
    + lia.
    + cbn. lia.
Defined.
