(* ===== verification/StbHdrFile.v ===== *)
(** * stb_image and stb_image_write: HDR files there and back

    The run-length coding of a channel is a sequence of packets ([rle]); the
    writer produces one, the decoder reads any.  On top of it: scanlines,
    the header as lines of text, and the file. *)
From Stdlib Require Import Ascii String.
From stdpp Require Import pretty.
From S2P Require Import Prelude F32 F64 StbMonad StbBase StbBaseSpec StbStream StbPngSpec StbWrite StbWriteSpec StbWriteHdr StbHdr.

(** ** The code

    A packet is a stretch of up to 128 bytes or a run of up to 127. *)
Inductive rle : list Z → list Z → Prop :=
| rle_nil : rle [] []
| rle_dump d bs vs : 0 < zlen d ≤ 128 → rle bs vs → rle (zlen d :: d ++ bs) (d ++ vs)
| rle_run n v bs vs : 0 < n ≤ 127 → rle bs vs → rle (n + 128 :: v :: bs) (replicate (Z.to_nat n) v ++ vs).

Lemma rle_app a u b v : rle a u → rle b v → rle (a ++ b) (u ++ v).
Proof.
  intros H Hb. induction H as [|d bs vs Hd _ IH|n x bs vs Hn _ IH]; [done| |].
  - cbn [app]. rewrite <- !app_assoc. by constructor.
  - cbn [app]. rewrite <- !app_assoc. by constructor.
Qed.

Lemma rle_packet_dump d : 0 < zlen d ≤ 128 → rle (zlen d :: d) d.
Proof. intros. pose proof (rle_dump d [] [] ltac:(lia) rle_nil) as H1. by rewrite !app_nil_r in H1. Qed.

Lemma rle_packet_run n v : 0 < n ≤ 127 → rle [n + 128; v] (replicate (Z.to_nat n) v).
Proof. intros. pose proof (rle_run n v [] [] ltac:(lia) rle_nil) as H1. by rewrite app_nil_r in H1. Qed.

(** ** Windows of a list *)
Lemma window_app l a b c : 0 ≤ a → a ≤ b ≤ c → window l a b ++ window l b c = window l a c.
Proof.
  intros Ha Hb. replace b with (a + (b - a)) by lia. rewrite (window_drop l a c), (window_take l a c) by lia.
  apply take_drop.
Qed.

Lemma window_same l a b v : 0 ≤ a → b ≤ zlen l → (∀ i, a ≤ i < b → l.[i] = v) →
  window l a b = replicate (Z.to_nat (b - a)) v.
Proof.
  intros Ha Hb Hv. destruct (decide (b ≤ a)).
  { rewrite window_nil by lia. by replace (Z.to_nat (b - a)) with 0%nat by lia. }
  apply znth_ext; [rewrite length_replicate; pose proof (length_window l a b); lia|].
  intros i Hi. rewrite length_window in Hi by lia. rewrite znth_window, znth_replicate by lia. apply Hv. lia.
Qed.

Lemma rd_samples_window l off n : 0 ≤ off → 0 ≤ n → off + n ≤ zlen l →
  wp (rd_samples rd l off n) (λ v, v = window l off (off + n)).
Proof.
  intros Ho Hn Hl. unfold rd_samples.
  apply (for_range_wp (λ k acc, 0 ≤ k ≤ n ∧ acc = window l off (off + k))).
  - split; [lia|]. by rewrite window_nil by lia.
  - intros k acc Hk [_ ->]. rewrite rd_ok by lia. cbn [mbind Res_bind wp]. split; [lia|].
    rewrite <- (window_app l off (off + k) (off + (k + 1))) by lia. f_equal.
    rewrite window_cons, window_nil by lia. done.
  - intros acc [_ ->]. f_equal. lia.
Qed.

(** ** The writer *)
Section channel.
Context (scratch : list Z) (off width : Z).
Hypothesis Hoff : 0 ≤ off.
Hypothesis Hwidth : 0 ≤ width.
Hypothesis Hfits : off + width ≤ zlen scratch.

(** Bytes [a] to [b] of the channel. *)
Let seg (a b : Z) : list Z := window scratch (off + a) (off + b).

Lemma seg_join a b c : 0 ≤ a → a ≤ b ≤ c → seg a b ++ seg b c = seg a c.
Proof using Hoff. intros. apply window_app; lia. Qed.

Lemma seg_len a b : 0 ≤ a ≤ b → b ≤ width → zlen (seg a b) = b - a.
Proof using Hoff Hfits. intros. unfold seg. rewrite length_window; lia. Qed.

Lemma dump_spec len x s : 0 ≤ x → 0 < len ≤ 128 → x + len ≤ width →
  awp_ok (stbiw__write_dump_data len scratch (off + x)) s (λ _ s', ∃ bs, wrote bs s s' ∧ rle bs (seg x (x + len))).
Proof using Hoff Hfits.
  intros Hx Hl Hb. unfold stbiw__write_dump_data. apply awp_ok_bind, awp_ok_pass; [by rewrite (proj2 (Z.leb_le _ _)) by lia|].
  apply (then_writes _ _ [len] s (λ _ bs, rle bs (seg x (x + len)))).
  { rewrite u8_small by lia. apply func_spec. }
  intros s1. apply awp_ok_bind, awp_ok_lift. eapply wp_mono; [apply rd_samples_window; lia|].
  intros v ->. eapply awp_ok_mono; [apply func_spec|]. cbn beta. intros _ s2 H2. eexists. split; [exact H2|].
  pose proof (seg_len x (x + len) ltac:(lia) ltac:(lia)) as Hs. unfold seg in *.
  replace (off + x + len) with (off + (x + len)) by lia. cbn [app].
  replace len with (zlen (window scratch (off + x) (off + (x + len)))) at 1 by lia.
  apply rle_packet_dump. lia.
Qed.

Lemma run_spec len x v s : 0 ≤ x → 0 < len ≤ 127 → x + len ≤ width →
  (∀ i, x ≤ i < x + len → scratch.[off + i] = v) →
  awp_ok (stbiw__write_run_data len v) s (λ _ s', ∃ bs, wrote bs s s' ∧ rle bs (seg x (x + len))).
Proof using Hoff Hfits.
  intros Hx Hl Hb Hv. unfold stbiw__write_run_data. apply awp_ok_bind, awp_ok_pass; [by rewrite (proj2 (Z.leb_le _ _)) by lia|].
  apply (then_writes _ _ [len + 128] s (λ _ bs, rle bs (seg x (x + len)))).
  { rewrite u8_small by lia. apply func_spec. }
  intros s1. eapply awp_ok_mono; [apply func_spec|]. cbn beta. intros _ s2 H2. eexists. split; [exact H2|].
  unfold seg. rewrite (window_same _ _ _ v) by (try lia; intros i Hi; replace i with (off + (i - off)) by lia; apply Hv; lia).
  replace (off + (x + len) - (off + x)) with len by lia. by apply rle_packet_run.
Qed.

Lemma find_run_spec x : 0 ≤ x < width → wp (find_run scratch off width x) (λ r, x ≤ r ≤ width ∧ (width ≤ r + 2 → r = width)).
Proof using Hoff Hfits.
  intros Hx. unfold find_run. apply wp_bind.
  assert (wp (fell <$> loop (S (Z.to_nat width)) (λ r,
    if negb (r + 2 <? width) then Ok (Break r) else
    a ← rd scratch (off + r); b ← rd scratch (off + (r + 1));
    if negb (a =? b) then Ok (Next (r + 1)) else
    c ← rd scratch (off + (r + 2));
    Ok (if a =? c then Break r else Next (r + 1))) x) (λ r, x ≤ r < width)) as H.
  { apply wp_fmap. apply (loop_wp (λ r, x ≤ r < width) (λ r, Z.to_nat (width - r))); [lia|lia|].
    intros r Hr. destruct (Z.ltb_spec (r + 2) width); cbn [negb wp]; [|done].
    rewrite !rd_ok by lia. cbn [mbind Res_bind]. destruct (_ =? _); cbn [negb wp]; [|lia].
    destruct (_ =? _); cbn [wp fell]; lia. }
  eapply wp_mono; [exact H|]. cbn beta. intros r Hr. cbn [wp]. destruct (Z.leb_spec width (r + 2)); lia.
Qed.

Lemma run_end_spec r : 0 ≤ r < width → wp (run_end scratch off width r r) (λ r',
  r < r' ≤ width ∧ ∀ i, r ≤ i < r' → scratch.[off + i] = scratch.[off + r]).
Proof using Hoff Hfits.
  intros Hr. unfold run_end. apply wp_fmap.
  apply (loop_wp (λ e, r ≤ e ≤ width ∧ ∀ i, r ≤ i < e → scratch.[off + i] = scratch.[off + r])
    (λ e, Z.to_nat (width - e))); [split; [lia|intros; lia]|lia|].
  intros e [He Hsame]. destruct (Z.ltb_spec e width); cbn [negb wp].
  - rewrite !rd_ok by lia. cbn [mbind Res_bind wp]. destruct (Z.eqb_spec (scratch.[off + e]) (scratch.[off + r])) as [E|E].
    + split; [|lia]. split; [lia|]. intros i Hi. destruct (decide (i = e)) as [->|]; [done|]. apply Hsame. lia.
    + cbn [fell]. split; [|done]. destruct (decide (e = r)) as [->|]; [done|lia].
  - cbn [fell]. split; [lia|done].
Qed.

(** The two inner loops write up to [r]. *)
Lemma up_to_spec (m : Z → Wr (ctl Z Empty_set)) r x s : 0 ≤ x ≤ r → r ≤ width →
  (∀ p s, x ≤ p ≤ r → awp_ok (m p) s (λ c s', match c with
     | Next p' => p < p' ≤ r ∧ ∃ bs, wrote bs s s' ∧ rle bs (seg p p')
     | Break p' => p' = p ∧ p = r ∧ s' = s
     | Return e => False
     end)) →
  awp_ok (e ← a_loop (S (Z.to_nat width)) m x; mret (fell e)) s
    (λ x' s', x' = r ∧ ∃ bs, wrote bs s s' ∧ rle bs (seg x r)).
Proof using Hoff.
  intros Hx Hr Hm. apply awp_ok_bind.
  apply (awp_loop (λ x' s', x ≤ x' ≤ r ∧ ∃ bs, wrote bs s s' ∧ rle bs (seg x x')) (λ x' _, Z.to_nat (r - x'))).
  - split; [lia|]. exists []. split; [apply wrote_nil|]. unfold seg. rewrite window_nil by lia. constructor.
  - lia.
  - intros x' s' (Hx' & bs & Hbs & Hrle). eapply awp_mono; [apply (Hm x' s'); lia|].
    intros [[x2|x2|[]]|e] s2; cbn beta iota; [| |done].
    + intros (Hx2 & bs2 & Hw2 & Hr2). split; [|lia]. split; [lia|]. exists (bs ++ bs2).
      split; [by eapply wrote_trans|]. rewrite <- (seg_join x x' x2) by lia. by apply rle_app.
    + intros (-> & -> & ->). awp_step. cbn [fell]. split; [done|]. by exists bs.
Qed.

Lemma dump_up_to_spec r x s : 0 ≤ x ≤ r → r ≤ width →
  awp_ok (dump_up_to scratch off width r x) s (λ x' s', x' = r ∧ ∃ bs, wrote bs s s' ∧ rle bs (seg x r)).
Proof using Hoff Hfits.
  intros Hx Hr. apply up_to_spec; [done..|]. intros p s' Hp.
  destruct (Z.ltb_spec p r); cbn [negb]; [|awp_step; split; [done|split; [lia|done]]].
  set (len := if 128 <? r - p then 128 else r - p). assert (0 < len ≤ 128 ∧ p + len ≤ r) as Hlen
    by (unfold len; destruct (Z.ltb_spec 128 (r - p)); lia). clearbody len.
  apply awp_ok_bind. eapply awp_ok_mono; [apply dump_spec; lia|]. cbn beta. intros _ s1 H1. awp_step.
  split; [lia|exact H1].
Qed.

Lemma run_up_to_spec r x v s : 0 ≤ x ≤ r → r ≤ width → (∀ i, x ≤ i < r → scratch.[off + i] = v) →
  awp_ok (run_up_to scratch off width r x) s (λ x' s', x' = r ∧ ∃ bs, wrote bs s s' ∧ rle bs (seg x r)).
Proof using Hoff Hfits.
  intros Hx Hr Hv. apply up_to_spec; [done..|]. intros p s' Hp.
  destruct (Z.ltb_spec p r); cbn [negb]; [|awp_step; split; [done|split; [lia|done]]].
  set (len := if 127 <? r - p then 127 else r - p). assert (0 < len ≤ 127 ∧ p + len ≤ r) as Hlen
    by (unfold len; destruct (Z.ltb_spec 127 (r - p)); lia). clearbody len.
  apply awp_ok_bind, awp_ok_lift. rewrite rd_ok by lia. cbn [wp]. rewrite Hv by lia.
  apply awp_ok_bind. eapply awp_ok_mono; [apply (run_spec len p v); [lia..|intros i Hi; apply Hv; lia]|].
  cbn beta. intros _ s1 H1. awp_step. split; [lia|exact H1].
Qed.

Lemma rle_channel_spec s : awp_ok (rle_channel scratch off width) s (λ _ s', ∃ bs, wrote bs s s' ∧ rle bs (seg 0 width)).
Proof using Hoff Hwidth Hfits.
  unfold rle_channel. apply awp_ok_bind.
  apply (awp_loop (λ x s', 0 ≤ x ≤ width ∧ ∃ bs, wrote bs s s' ∧ rle bs (seg 0 x)) (λ x _, Z.to_nat (width - x))).
  - split; [lia|]. exists []. split; [apply wrote_nil|]. unfold seg. rewrite window_nil by lia. constructor.
  - lia.
  - intros x s1 (Hx & bs & Hbs & Hrle).
    enough (awp_ok (rle_step scratch off width x) s1 (λ c s2, match c with
      | Next x' => x < x' ≤ width ∧ ∃ bs, wrote bs s1 s2 ∧ rle bs (seg x x')
      | Break x' => x' = width ∧ x = width ∧ s2 = s1
      | Return e => False end)) as H.
    { eapply awp_mono; [exact H|]. intros [[x2|x2|[]]|e] s2; cbn beta iota; [| |done].
      - intros (Hx2 & bs2 & Hw2 & Hr2). split; [|lia]. split; [lia|]. exists (bs ++ bs2).
        split; [by eapply wrote_trans|]. rewrite <- (seg_join 0 x x2) by lia. by apply rle_app.
      - intros (-> & -> & ->). awp_step. by exists bs. }
    unfold rle_step. destruct (Z.ltb_spec x width); cbn [negb]; [|awp_step; split; [lia|split; [lia|done]]].
    apply awp_ok_bind, awp_ok_lift. eapply wp_mono; [apply find_run_spec; lia|]. cbn beta. intros r [Hr Hend].
    apply awp_ok_bind. eapply awp_ok_mono; [apply dump_up_to_spec; lia|]. cbn beta. intros _ s2 (-> & b1 & Hb1 & Hr1).
    destruct (Z.ltb_spec (r + 2) width).
    + apply awp_ok_bind, awp_ok_lift. eapply wp_mono; [apply run_end_spec; lia|]. cbn beta. intros r' [Hr' Hsame].
      apply awp_ok_bind. eapply awp_ok_mono; [apply (run_up_to_spec r' r (scratch.[off + r])); [lia..|done]|].
      cbn beta. intros _ s3 (-> & b2 & Hb2 & Hr2). awp_step. split; [lia|]. exists (b1 ++ b2).
      split; [by eapply wrote_trans|]. rewrite <- (seg_join x r r') by lia. by apply rle_app.
    + awp_step. rewrite (Hend ltac:(lia)) in *. split; [lia|]. by exists b1.
Qed.
End channel.

(** ** Scanlines

    [q x] are the four bytes of pixel [x]. *)
Lemma rgbe_length l0 l1 l2 l : stbiw__linear_to_rgbe l0 l1 l2 = Ok l → length l = 4%nat.
Proof.
  unfold stbiw__linear_to_rgbe. destruct (flt _ _); [by intros [= <-]|].
  destruct (SFfrexp _ _ _) as [m e]. intros H. inv_ok. by subst.
Qed.

Lemma hdr_pixel_length data row ncomp x l : hdr_pixel data row ncomp x = Ok l → length l = 4%nat.
Proof.
  unfold hdr_pixel. intros H. inv_ok. destruct (_ || _); inv_ok; by eapply rgbe_length.
Qed.

Definition plane (q : Z → list Z) (width k : Z) : list Z := (λ x, (q x).[k]) <$> seqZ 0 width.

(** [width] is coded channel by channel, or pixel by pixel. *)
Definition coded (width : Z) : bool := negb ((width <? 8) || (32768 <=? width)).

Definition scanline_bytes (width : Z) (q : Z → list Z) (bs : list Z) : Prop :=
  if coded width then ∃ b0 b1 b2 b3,
    rle b0 (plane q width 0) ∧ rle b1 (plane q width 1) ∧ rle b2 (plane q width 2) ∧ rle b3 (plane q width 3) ∧
    bs = [2; 2; width / 256; width mod 256] ++ b0 ++ b1 ++ b2 ++ b3
  else bs = mjoin (q <$> seqZ 0 width).

Lemma znth_plane q width k x : 0 ≤ x < width → (plane q width k).[x] = (q x).[k].
Proof.
  intros Hx. unfold plane. apply list_lookup_total_correct. rewrite list_lookup_fmap, lookup_seqZ_lt by lia.
  cbn. do 2 f_equal. f_equal. lia.
Qed.

(** Cells of different planes, or of different pixels. *)
Lemma cell_ne w a b k k' : 0 ≤ a < w → 0 ≤ b < w → a ≠ b ∨ k ≠ k' → a + w * k ≠ b + w * k'.
Proof.
  intros Ha Hb Hne E. assert (k = k') as -> by (destruct (Z.lt_trichotomy k k') as [?|[?|?]]; nia). lia.
Qed.

Section scanline.
Context (data : list f32) (row ncomp width : Z) (q : Z → list Z).
Hypothesis Hwidth : 0 < width.
Hypothesis Hpixels : ∀ x, 0 ≤ x < width → hdr_pixel data row ncomp x = Ok (q x).

Lemma hdr_scratch_spec scratch : 4 * width ≤ zlen scratch → wp (hdr_scratch width ncomp data row scratch) (λ sc,
  length sc = length scratch ∧ ∀ k, 0 ≤ k < 4 → window sc (width * k) (width * k + width) = plane q width k).
Proof using Hwidth Hpixels.
  intros Hlen. unfold hdr_scratch.
  apply (for_range_wp (λ x sc, length sc = length scratch ∧
    ∀ k p, 0 ≤ k < 4 → 0 ≤ p < x → sc.[p + width * k] = (q p).[k])); [by split; [|lia]| |].
  - intros x sc Hx [Hl Hsc]. rewrite (Hpixels x Hx). cbn [mbind Res_bind].
    pose proof (hdr_pixel_length _ _ _ _ _ (Hpixels x Hx)) as Hq.
    apply (for_range_wp (λ k sc, length sc = length scratch ∧ (∀ k p, 0 ≤ k < 4 → 0 ≤ p < x → sc.[p + width * k] = (q p).[k]) ∧
      ∀ k', 0 ≤ k' < k → sc.[x + width * k'] = (q x).[k'])); [split; [done|split; [done|lia]]| |].
    + intros k sc' Hk (Hl' & Hp' & Hk'). rewrite rd_ok by lia. cbn [mbind Res_bind]. rewrite wr_ok by nia. cbn [wp].
      split; [by rewrite length_zset|]. split.
      * intros k2 p Hk2 Hp. rewrite znth_zset_ne by (try apply cell_ne; nia). by apply Hp'.
      * intros k2 Hk2. destruct (decide (k2 = k)) as [->|]; [apply znth_zset_eq; nia|].
        rewrite znth_zset_ne by (try apply cell_ne; nia). apply Hk'. lia.
    + intros sc' (Hl' & Hp' & Hk'). split; [done|]. intros k p Hk Hp.
      destruct (decide (p = x)) as [->|]; [apply Hk'; lia|apply Hp'; lia].
  - intros sc [Hl Hsc]. split; [done|]. intros k Hk.
    assert (0 ≤ width * k ∧ width * k + width ≤ zlen sc) as [H1 H2] by nia.
    pose proof (length_window sc (width * k) (width * k + width) H1 H2) as Hw. apply znth_ext.
    + unfold plane. rewrite length_fmap, length_seqZ. lia.
    + intros i Hi. assert (0 ≤ i < width) as Hi' by lia. rewrite znth_window by lia. rewrite znth_plane by lia.
      rewrite <- Hsc by lia. f_equal. lia.
Qed.

Lemma scanline_written scratch s : (coded width = true → 4 * width ≤ zlen scratch) →
  awp_ok (stbiw__write_hdr_scanline width ncomp scratch data row) s (λ sc s', length sc = length scratch ∧
    ∃ bs, wrote bs s s' ∧ scanline_bytes width q bs).
Proof using Hwidth Hpixels.
  intros Hlen. unfold stbiw__write_hdr_scanline, scanline_bytes, coded in *.
  destruct (_ || _) eqn:Ec; cbn [negb] in *.
  - apply awp_ok_bind. apply (awp_ok_for (λ x _ s', wrote (mjoin (q <$> seqZ 0 x)) s s')); [apply wrote_nil| |].
    + intros x [] s' Hx Hw. apply awp_ok_bind, awp_ok_lift. rewrite Hpixels by lia. cbn [wp].
      eapply awp_ok_mono; [apply func_spec|]. cbn beta. intros [] s2 H2.
      rewrite seqZ_snoc, fmap_app, join_app by lia. cbn. rewrite app_nil_r. by eapply wrote_trans.
    + intros [] s' Hw. awp_step. split; [done|]. rewrite Z.max_r in Hw by lia. by eexists.
  - apply orb_false_iff in Ec as [Ec1 Ec2]. assert (8 ≤ width < 32768) as Hw by lia. specialize (Hlen eq_refl).
    apply awp_ok_bind, awp_ok_lift. eapply wp_mono; [by apply hdr_scratch_spec|]. cbn beta. intros sc [Hl Hsc].
    apply awp_ok_bind. eapply awp_ok_mono; [apply func_spec|]. cbn beta. intros _ s1 H1.
    replace (u8 (Z.shiftr (Z.land width 65280) 8)) with (width / 256) in H1.
    2: { rewrite Z.shiftr_land, Z.shiftr_div_pow2 by lia. change (Z.shiftr 65280 8) with (2 ^ 8 - 1).
         rewrite land_mask by lia. change (2 ^ 8) with 256. unfold u8. change (2 ^ 8) with 256.
         rewrite !Z.mod_small; Z.div_mod_to_equations; lia. }
    replace (u8 (Z.land width 255)) with (width mod 256) in H1.
    2: { change 255 with (2 ^ 8 - 1). rewrite land_mask by lia. unfold u8. by rewrite Z.mod_mod. }
    apply awp_ok_bind. apply (awp_ok_for (λ c _ s', ∃ bss, length bss = Z.to_nat c ∧ wrote (mjoin bss) s1 s' ∧
      ∀ k bs, bss !! Z.to_nat k = Some bs → 0 ≤ k → rle bs (plane q width k))).
    + exists []. split; [done|]. split; [apply wrote_nil|]. intros k bs H. done.
    + intros c [] s' Hc (bss & Hlb & Hwb & Hrb).
      eapply awp_ok_mono; [apply (rle_channel_spec sc (width * c) width); nia|]. cbn beta.
      intros [] s2 (bs & Hb & Hr). exists (bss ++ [bs]). split; [rewrite length_app; cbn; lia|]. split.
      { rewrite join_app. cbn. rewrite app_nil_r. by eapply wrote_trans. }
      intros k b Hk Hk0. rewrite Z.add_0_r, Hsc in Hr by lia. apply lookup_app_Some in Hk as [Hk|[Hk1 Hk2]]; [by apply Hrb|].
      destruct (Z.to_nat k - length bss)%nat as [|n] eqn:En; [|done]. injection Hk2 as <-.
      by replace k with c by lia.
    + intros [] s2 (bss & Hlb & Hwb & Hrb). destruct bss as [|b0 [|b1 [|b2 [|b3 [|]]]]]; try done.
      awp_step. split; [done|]. eexists. split; [eapply wrote_trans; [exact H1|exact Hwb]|].
      exists b0, b1, b2, b3. cbn. rewrite app_nil_r.
      split; [apply (Hrb 0); [done|lia]|]. split; [apply (Hrb 1); [done|lia]|]. split; [apply (Hrb 2); [done|lia]|].
      split; [apply (Hrb 3); [done|lia]|done].
Qed.
End scanline.

(** ** The decoder *)
Section reader.
Context `{Env : StbiEnv} {Cb : Callbacks}.

Lemma at_eof_has l s : has l s → awp_ok stbi__at_eof s (λ b s', b = bool_decide (l = []) ∧ s' = s).
Proof.
  intros [Hok Hr]. eapply awp_ok_mono; [by apply stbi__at_eof_spec|]. cbn beta.
  intros b s' [-> Hb]. split; [|done]. rewrite Hr in Hb. destruct b.
  - symmetry. apply bool_decide_true. by apply Hb.
  - symmetry. apply bool_decide_false. intros E. by apply Hb in E.
Qed.

(** *** A channel *)

(** The first [i] pixels of channel [k] are those of [vs]; the rest of the
    scanline is that of [sl0]. *)
Definition channel_up_to (sl0 : list Z) (k : Z) (vs : list Z) (i : Z) (sl : list Z) : Prop :=
  length sl = length sl0 ∧ ∀ p c, 0 ≤ p → 0 ≤ c < 4 → p * 4 + c < zlen sl0 →
    sl.[p * 4 + c] = if (c =? k) && (p <? i) then vs.[p] else sl0.[p * 4 + c].

Lemma drop_split (vs : list Z) i d vs2 : 0 ≤ i → drop (Z.to_nat i) vs = d ++ vs2 →
  i + zlen d ≤ zlen vs ∨ d = [] ∧ vs2 = [].
Proof.
  intros Hi E. destruct (decide (i ≤ zlen vs)).
  - left. apply (f_equal length) in E. rewrite length_drop, length_app in E. lia.
  - right. rewrite drop_ge in E by lia. symmetry in E. by apply app_nil in E.
Qed.

Lemma drop_next (vs : list Z) i d vs2 : 0 ≤ i → drop (Z.to_nat i) vs = d ++ vs2 → drop (Z.to_nat (i + zlen d)) vs = vs2.
Proof.
  intros Hi E. replace (Z.to_nat (i + zlen d)) with (Z.to_nat i + length d)%nat by lia.
  rewrite <- drop_drop, E. apply drop_app_length.
Qed.

Lemma znth_left (vs : list Z) i d vs2 z : 0 ≤ i → drop (Z.to_nat i) vs = d ++ vs2 → 0 ≤ z < zlen d → vs.[i + z] = d.[z].
Proof.
  intros Hi E Hz. replace (Z.to_nat (i + z)) with (Z.to_nat i + Z.to_nat z)%nat by lia.
  rewrite <- lookup_total_drop, E. apply lookup_total_app_l. lia.
Qed.

Section packet.
Context (sl0 : list Z) (width k : Z) (vs : list Z).
Hypothesis Hk : 0 ≤ k < 4.
Hypothesis Hsl : zlen sl0 = 4 * width.
Hypothesis Hvs : zlen vs = width.

Lemma channel_next sl i v : channel_up_to sl0 k vs i sl → 0 ≤ i < width → v = vs.[i] →
  wp (wr sl (i * 4 + k) v) (channel_up_to sl0 k vs (i + 1)).
Proof using Hk Hsl.
  intros [Hl Hsl'] Hi ->. rewrite wr_ok by lia. cbn [wp]. split; [by rewrite length_zset|]. intros p c Hp Hc Hpc.
  destruct (decide (p = i ∧ c = k)) as [[-> ->]|Hne].
  - rewrite znth_zset_eq by lia. by rewrite Z.eqb_refl, (proj2 (Z.ltb_lt _ _)) by lia.
  - rewrite znth_zset_ne, Hsl' by lia. destruct (Z.eqb_spec c k); cbn [andb]; [|done].
    destruct (Z.ltb_spec p i), (Z.ltb_spec p (i + 1)); done || lia.
Qed.

(** What is left of the channel after [i] pixels. *)
Definition packets_left (i : Z) (tl : list Z) (s : stbi__context) : Prop :=
  0 ≤ i ∧ ∃ bs, rle bs (drop (Z.to_nat i) vs) ∧ has (bs ++ tl) s.

Lemma hdr_packet_ok tl sl i s : channel_up_to sl0 k vs i sl → i ≤ width → packets_left i tl s →
  awp_ok (hdr_packet width k (sl, i)) s (λ c s', match c with
    | Next (sl', i') => channel_up_to sl0 k vs i' sl' ∧ i < i' ≤ width ∧ packets_left i' tl s'
    | Break (sl', i') => channel_up_to sl0 k vs width sl' ∧ has tl s'
    | Return e => False
    end).
Proof using Hk Hsl Hvs.
  intros Hsl' Hi (Hi0 & bs & Hrle & Hhas). unfold hdr_packet.
  destruct (Z.ltb_spec 0 (width - i)) as [Hlt|Hge]; cbn [negb].
  2: { awp_step. assert (i = width) as -> by lia. split; [done|]. rewrite drop_ge in Hrle by lia.
       inversion Hrle; subst; [done| |]; exfalso.
       - match goal with H : ?d ++ _ = [] |- _ => apply app_nil in H as [-> _] end. cbn in *. lia.
       - match goal with H : ?d ++ _ = [] |- _ => apply app_nil in H as [E%(f_equal length) _] end.
         rewrite length_replicate in E. cbn in E. lia. }
  inversion Hrle as [E1 E2|d bs2 vs2 Hd Hrle2 E1 E2|n v bs2 vs2 Hn Hrle2 E1 E2]; subst bs.
  - apply (f_equal length) in E2. rewrite length_drop in E2. cbn in E2. lia.
  - cbn [app] in Hhas. symmetry in E2. destruct (drop_split vs i d vs2 Hi0 E2) as [Hfit|[-> _]]; [|cbn in Hd; lia].
    apply awp_ok_bind. eapply awp_ok_mono; [by apply get8_has|]. cbn beta. intros c s1 [-> Hs1].
    rewrite (proj2 (Z.ltb_ge _ _)) by lia.
    apply awp_ok_bind, awp_ok_pass.
    { by rewrite (proj2 (Z.eqb_neq _ _)), (proj2 (Z.ltb_ge _ _)) by lia. }
    apply awp_ok_bind. rewrite <- app_assoc in Hs1.
    apply (awp_ok_for (λ z sl s', channel_up_to sl0 k vs (i + z) sl ∧ has (drop (Z.to_nat z) d ++ bs2 ++ tl) s')).
    + rewrite Z.add_0_r. done.
    + intros z sl2 s2 Hz [Hc2 Hs2]. rewrite (drop_S d (d.[z]) (Z.to_nat z)) in Hs2 by (apply znth_lookup; lia).
      apply awp_ok_bind. eapply awp_ok_mono; [by apply get8_has|]. cbn beta. intros b s3 [-> Hs3].
      apply awp_ok_lift. eapply wp_mono; [apply (channel_next sl2 (i + z) _ Hc2); [lia|]|].
      { symmetry. by eapply znth_left. }
      cbn beta. intros sl3 H3. split; [by rewrite Z.add_assoc|].
      by replace (Z.to_nat (z + 1)) with (S (Z.to_nat z)) by lia.
    + intros sl2 s2 [Hc2 Hs2]. rewrite Z.max_r in * by lia. awp_step. split; [done|]. split; [lia|]. split; [lia|].
      exists bs2. rewrite (drop_next vs i d vs2 Hi0 E2). split; [done|]. rewrite Nat2Z.id, drop_all in Hs2. done.
  - cbn [app] in Hhas. symmetry in E2.
    assert (zlen (replicate (Z.to_nat n) v) = n) as Hlen by (rewrite length_replicate; lia).
    destruct (drop_split vs i _ vs2 Hi0 E2) as [Hfit|[E _]]; [|rewrite E in Hlen; cbn in Hlen; lia].
    apply awp_ok_bind. eapply awp_ok_mono; [by apply get8_has|]. cbn beta. intros c s1 [-> Hs1].
    rewrite (proj2 (Z.ltb_lt _ _)) by lia.
    apply awp_ok_bind. eapply awp_ok_mono; [by apply get8_has|]. cbn beta. intros v' s2 [-> Hs2].
    replace (n + 128 - 128) with n by lia.
    apply awp_ok_bind, awp_ok_pass.
    { by rewrite (proj2 (Z.eqb_neq _ _)), (proj2 (Z.ltb_ge _ _)) by lia. }
    apply awp_ok_bind, awp_ok_lift.
    apply (for_range_wp (λ z sl, channel_up_to sl0 k vs (i + z) sl)); [by rewrite Z.add_0_r| |].
    + intros z sl2 Hz Hc2. eapply wp_mono; [apply (channel_next sl2 (i + z) v Hc2); [lia|]|].
      { rewrite (znth_left vs i _ vs2 z Hi0 E2) by lia. by rewrite znth_replicate by lia. }
      cbn beta. intros sl3 H3. by rewrite Z.add_assoc.
    + intros sl2 Hc2. rewrite Z.max_r in * by lia. awp_step. split; [done|]. split; [lia|]. split; [lia|].
      exists bs2. replace (i + n) with (i + zlen (replicate (Z.to_nat n) v)) by lia.
      rewrite (drop_next vs i _ vs2 Hi0 E2). done.
Qed.

Lemma hdr_channel_ok bs tl s : 0 ≤ width → rle bs vs → has (bs ++ tl) s →
  awp_ok (hdr_channel width k sl0) s (λ sl s', channel_up_to sl0 k vs width sl ∧ has tl s').
Proof using Hk Hsl Hvs.
  intros Hw Hrle Hhas. unfold hdr_channel. apply awp_ok_bind.
  apply (awp_loop (λ '(sl, i) s', channel_up_to sl0 k vs i sl ∧ i ≤ width ∧ packets_left i tl s') (λ '(_, i) _, Z.to_nat (width - i))).
  - split; [split; [done|]|split; [lia|]].
    + intros p c Hp Hc Hpc. rewrite (proj2 (Z.ltb_ge p 0)) by lia. by rewrite andb_false_r.
    + split; [lia|]. exists bs. done.
  - lia.
  - intros [sl i] s1 (Hc & Hi & Hp). eapply awp_mono; [by apply (hdr_packet_ok tl)|].
    intros [[[sl2 i2]|[sl2 i2]|[]]|e] s2; cbn beta iota; [| |done].
    + intros (Hc2 & Hi2 & Hp2). split; [split; [done|split; [lia|done]]|lia].
    + intros [Hc2 Hs2]. awp_step. done.
Qed.
End packet.

(** *** A scanline *)

(** Four channels one after the other, and the pixels they make. *)
Lemma hdr_channels_ok q width sl0 b0 b1 b2 b3 tl s : 0 ≤ width → zlen sl0 = 4 * width →
  rle b0 (plane q width 0) → rle b1 (plane q width 1) → rle b2 (plane q width 2) → rle b3 (plane q width 3) →
  has (b0 ++ b1 ++ b2 ++ b3 ++ tl) s →
  awp_ok (hdr_channels width sl0) s (λ sl s', zlen sl = 4 * width ∧ has tl s' ∧
    ∀ p c, 0 ≤ p < width → 0 ≤ c < 4 → sl.[p * 4 + c] = (q p).[c]).
Proof.
  intros Hw Hsl H0 H1 H2 H3 Hhas. unfold hdr_channels.
  set (bss := [b0; b1; b2; b3]).
  assert (∀ k, 0 ≤ k < 4 → rle (bss.[k]) (plane q width k)) as Hrle.
  { intros k Hk. assert (k = 0 ∨ k = 1 ∨ k = 2 ∨ k = 3) as [->|[->|[->| ->]]] by lia; done. }
  assert (has (mjoin bss ++ tl) s) as Hb by (unfold bss; cbn; by rewrite app_nil_r, <- !app_assoc).
  assert (length bss = 4%nat) as Hlb by done. clearbody bss. clear b0 b1 b2 b3 H0 H1 H2 H3 Hhas.
  apply (awp_ok_for (λ k sl s', zlen sl = 4 * width ∧ has (mjoin (drop (Z.to_nat k) bss) ++ tl) s' ∧
    ∀ p c, 0 ≤ p < width → 0 ≤ c < k → sl.[p * 4 + c] = (q p).[c])).
  - split; [done|]. split; [done|lia].
  - intros k sl s' Hk (Hl & Hs & Hc). rewrite (drop_S bss (bss.[k]) (Z.to_nat k)) in Hs by (apply znth_lookup; lia).
    cbn [mjoin list_join] in Hs. rewrite <- app_assoc in Hs.
    eapply awp_ok_mono; [apply (hdr_channel_ok sl width k (plane q width k) Hk Hl) with (bs := bss.[k]); [|lia|by apply Hrle|exact Hs]|].
    { unfold plane. rewrite length_fmap, length_seqZ. lia. }
    cbn beta. intros sl' s2 [[Hl' Hc'] Hs2]. split; [lia|]. split.
    { by replace (Z.to_nat (k + 1)) with (S (Z.to_nat k)) by lia. }
    intros p c Hp Hc2. rewrite Hc' by lia. rewrite (proj2 (Z.ltb_lt p width)) by lia.
    destruct (Z.eqb_spec c k) as [->|]; cbn [andb]; [by apply znth_plane|apply Hc; lia].
  - intros sl s' (Hl & Hs & Hc). split; [done|]. split; [|intros; apply Hc; lia].
    rewrite drop_ge in Hs by (change (Z.to_nat (Z.max 0 4)) with 4%nat; lia). done.
Qed.

(** What the samples of a pixel become. *)
Definition values (l : list Z) (req : Z) : list f32 := hdr_values (l.[0]) (l.[1]) (l.[2]) (l.[3]) req.

Lemma values_length l req : 1 ≤ req ≤ 4 → zlen (values l req) = req.
Proof.
  intros Hr. unfold values, hdr_values. assert (req = 1 ∨ req = 2 ∨ req = 3 ∨ req = 4) as [->|[->|[->| ->]]] by lia;
    by destruct (negb _).
Qed.

Lemma wr_samples_app {A} `{!Inhabited A} (vs a b : list A) : zlen vs ≤ zlen b →
  wr_samples wr (a ++ b) (zlen a) vs = Ok (a ++ vs ++ drop (length vs) b).
Proof.
  unfold wr_samples. intros Hl.
  enough (foldl (λ m v, '(l, i) ← m; l ← wr l i v; Ok (l, i + 1)) (Ok (a ++ b, zlen a)) vs =
    Ok (a ++ vs ++ drop (length vs) b, zlen a + zlen vs)) as -> by done.
  revert a b Hl. induction vs as [|v vs IH]; intros a b Hl; cbn [foldl length drop app].
  { by rewrite Z.add_0_r. }
  destruct b as [|x b]; cbn [length] in Hl; [lia|]. cbn [mbind Res_bind].
  rewrite wr_ok by (rewrite length_app; cbn [length]; lia). cbn [mbind Res_bind].
  assert (zset (a ++ x :: b) (zlen a) v = (a ++ [v]) ++ b) as ->.
  { unfold zset. rewrite Nat2Z.id, insert_app_r_alt, Nat.sub_diag by lia. cbn. by rewrite <- app_assoc. }
  replace (zlen a + 1) with (zlen (a ++ [v])) by (rewrite length_app; cbn; lia).
  rewrite IH by lia. rewrite <- app_assoc. cbn [app drop]. do 2 f_equal. rewrite length_app. cbn [length]. lia.
Qed.

Section pixels.
Context (q : Z → Z → list Z) (width height req : Z).
Hypothesis Hsize : 0 < width ∧ 0 < height.
Hypothesis Hreq : 1 ≤ req ≤ 4.
Hypothesis Hlen : ∀ j i, 0 ≤ j < height → 0 ≤ i < width → length (q j i) = 4%nat.

(** The first [n] pixels of the image; the rest is still zero. *)
Definition pixel (n : Z) : list f32 := values (q (n / width) (n mod width)) req.
Definition decoded (n : Z) : list f32 :=
  mjoin (pixel <$> seqZ 0 n) ++ replicate (Z.to_nat ((width * height - n) * req)) (fz 0).

Lemma pixels_length n : 0 ≤ n → zlen (mjoin (pixel <$> seqZ 0 n)) = n * req.
Proof using Hreq.
  intros Hn. pattern n. apply Zlt_0_ind; [|done]. clear n Hn. intros n IH Hn.
  destruct (decide (n = 0)) as [->|]; [done|]. replace n with (n - 1 + 1) at 1 by lia.
  rewrite seqZ_snoc, fmap_app, join_app by lia. cbn. rewrite app_nil_r, length_app.
  pose proof (IH (n - 1) ltac:(lia)) as E. pose proof (values_length (q ((n - 1) / width) ((n - 1) mod width)) req Hreq) as E2.
  unfold pixel at 2. lia.
Qed.

Lemma convert_next j i : 0 ≤ j < height → 0 ≤ i < width →
  stbi__hdr_convert (decoded (j * width + i)) ((j * width + i) * req) (q j i) req = Ok (decoded (j * width + i + 1)).
Proof using Hsize Hreq Hlen.
  intros Hj Hi. set (n := j * width + i). assert (0 ≤ n < width * height) as Hn by (unfold n; nia).
  unfold stbi__hdr_convert. rewrite !rd_ok by (rewrite Hlen by done; lia). cbn [mbind Res_bind].
  change (hdr_values _ _ _ _ _) with (values (q j i) req). unfold decoded.
  rewrite <- (pixels_length n) by lia. rewrite wr_samples_app.
  2: { rewrite length_replicate, values_length by done. nia. }
  f_equal. rewrite seqZ_snoc, fmap_app, join_app by lia. cbn. rewrite app_nil_r, <- app_assoc. f_equal.
  assert (pixel n = values (q j i) req) as ->.
  { unfold pixel, n. f_equal. rewrite Z.div_add_l, Z.div_small, Z.add_0_r by lia.
    by rewrite Z.add_comm, Z.mod_add, Z.mod_small by lia. }
  f_equal. rewrite drop_replicate. f_equal. pose proof (values_length (q j i) req Hreq). nia.
Qed.

(** A coded row. *)
Lemma hdr_row_ok j bs tl scanline s : 0 ≤ j < height → 8 ≤ width < 32768 → malloc_ok (width * 4) = true →
  scanline_bytes width (q j) bs → has (bs ++ tl) s → (∀ sl, scanline = Some sl → zlen sl = 4 * width) →
  awp_ok (hdr_row width height req j (scanline, decoded (j * width))) s (λ c s', match c with
    | Next (scanline', d) => d = decoded ((j + 1) * width) ∧ has tl s' ∧ (∀ sl, scanline' = Some sl → zlen sl = 4 * width)
    | _ => False
    end).
Proof using Hsize Hreq Hlen Cb.
  intros Hj Hw Hm Hbytes Hhas Hscan. unfold scanline_bytes in Hbytes.
  assert (coded width = true) as Ec by (unfold coded; rewrite (proj2 (Z.ltb_ge _ _)), (proj2 (Z.leb_gt _ _)) by lia; done).
  rewrite Ec in Hbytes. destruct Hbytes as (b0 & b1 & b2 & b3 & H0 & H1 & H2 & H3 & ->). cbn [app] in Hhas.
  unfold hdr_row.
  apply awp_ok_bind. eapply awp_ok_mono; [by apply get8_has|]. cbn beta. intros c s1 [-> Hs1].
  apply awp_ok_bind. eapply awp_ok_mono; [by apply get8_has|]. cbn beta. intros c s2 [-> Hs2].
  apply awp_ok_bind. eapply awp_ok_mono; [by apply get8_has|]. cbn beta. intros c s3 [-> Hs3].
  assert (Z.land (width / 256) 128 = 0) as ->.
  { apply Z.bits_inj'. intros n Hn. rewrite Z.land_spec, Z.bits_0. change 128 with (2 ^ 7).
    destruct (decide (n = 7)) as [->|]; [|rewrite Z.pow2_bits_false by lia; apply andb_false_r].
    rewrite (Z.bits_above_log2 (width / 256) 7); [done|Z.div_mod_to_equations; lia|].
    destruct (decide (width / 256 = 0)) as [->|]; [done|]. apply Z.log2_lt_pow2; Z.div_mod_to_equations; lia. }
  cbn [Z.eqb negb orb Pos.eqb].
  apply awp_ok_bind. eapply awp_ok_mono; [by apply get8_has|]. cbn beta. intros c s4 [-> Hs4].
  apply awp_ok_bind, awp_ok_pass.
  { rewrite (lor_shiftl _ _ 8) by (try lia; apply Z.mod_pos_bound; lia). change (2 ^ 8) with 256.
    rewrite (proj2 (Z.eqb_eq _ _)); [done|]. Z.div_mod_to_equations. lia. }
  apply awp_ok_bind. eapply (awp_ok_mono _ _ (λ sl s', zlen sl = 4 * width ∧ s' = s4)).
  { destruct scanline as [sl|]; [awp_step; by split; [apply Hscan|]|].
    apply malloc2_fits; [c_unfold; lia..|by rewrite Z.mul_comm|]. intros o Ho. split; [lia|done]. }
  cbn beta. intros sl s' [Hsl ->]. rewrite <- !app_assoc in Hs4.
  apply awp_ok_bind. eapply awp_ok_mono; [by apply (hdr_channels_ok (q j) width sl b0 b1 b2 b3 tl s4); try done; lia|].
  cbn beta. intros sl' s5 (Hl' & Hs5 & Hsl').
  apply awp_ok_bind, awp_ok_lift.
  apply (for_range_wp (λ i d, d = decoded (j * width + i))); [by rewrite Z.add_0_r| |].
  - intros i d Hi ->. apply wp_bind. eapply wp_mono; [apply rd_samples_window; lia|]. cbn beta. intros v ->.
    assert (window sl' (i * 4) (i * 4 + 4) = q j i) as ->.
    { pose proof (length_window sl' (i * 4) (i * 4 + 4) ltac:(lia) ltac:(lia)) as Hwl.
      apply znth_ext; [rewrite (Hlen j i Hj Hi); lia|]. intros c Hc. rewrite znth_window by lia. apply Hsl'; lia. }
    rewrite convert_next by done. cbn [wp]. f_equal. lia.
  - intros d ->. awp_step. split; [|split; [done|by intros ? [= <-]]]. f_equal. lia.
Qed.

(** Flat pixels. *)
Lemma hdr_flat_ok rows tl s : coded width = false → length rows = Z.to_nat height →
  (∀ j, 0 ≤ j < height → rows.[j] = mjoin (q j <$> seqZ 0 width)) → has (mjoin rows ++ tl) s →
  awp_ok (hdr_flat width height req 0 0 (decoded 0)) s (λ d s', d = decoded (height * width) ∧ has tl s').
Proof using Hsize Hreq Hlen Cb.
  intros Hc Hl Hrows Hhas. unfold hdr_flat.
  apply (awp_ok_for (λ j d s', d = decoded (j * width) ∧ has (mjoin (drop (Z.to_nat j) rows) ++ tl) s')); [done| |].
  - intros j d s1 Hj [-> Hs1]. rewrite (drop_S rows (rows.[j]) (Z.to_nat j)) in Hs1 by (apply znth_lookup; lia).
    cbn [mjoin list_join] in Hs1. rewrite Hrows in Hs1 by done.
    replace (if j =? 0 then 0 else 0) with 0 by (by destruct (j =? 0)).
    set (after := mjoin (drop (S (Z.to_nat j)) rows) ++ tl).
    apply (awp_ok_for (λ i d s', d = decoded (j * width + i) ∧
      has (mjoin (drop (Z.to_nat i) (q j <$> seqZ 0 width)) ++ after) s')).
    + rewrite Z.add_0_r, <- app_assoc in *. done.
    + intros i d s2 Hi [-> Hs2].
      rewrite (drop_S _ (q j i) (Z.to_nat i)) in Hs2.
      2: { rewrite list_lookup_fmap, lookup_seqZ_lt by lia. cbn. do 2 f_equal. lia. }
      cbn [mjoin list_join] in Hs2. rewrite <- app_assoc in Hs2. destruct Hs2 as [Hok Hr].
      pose proof (Hlen j i Hj Hi) as Hq.
      apply awp_ok_bind. eapply awp_ok_mono; [apply (stbi__getn_spec s2 (malloc_arr uninit 4) 0 4 Hok); rewrite ?length_malloc; lia|].
      cbn beta. intros [rgbe ok] s3 (Hok3 & _ & Hgot). destruct Hgot as (_ & Hr3 & E).
      { rewrite Hr, length_app. lia. }
      cbn [fst] in E. rewrite Hr in E, Hr3. rewrite (drop_ge (malloc_arr _ _)) in E by (rewrite length_malloc; lia).
      change (take (Z.to_nat 0) (malloc_arr uninit 4)) with (@nil Z) in E. cbn [app] in E.
      rewrite app_nil_r, take_app_length' in E by lia. rewrite drop_app_length' in Hr3 by lia. subst rgbe.
      apply awp_ok_lift. rewrite <- Z.mul_add_distr_r, convert_next by done. cbn [wp]. split; [f_equal; lia|].
      split; [done|]. by replace (Z.to_nat (i + 1)) with (S (Z.to_nat i)) by lia.
    + intros d s2 [-> Hs2]. rewrite Z.max_r in * by lia. split; [f_equal; lia|].
      rewrite drop_ge in Hs2 by (rewrite length_fmap, length_seqZ; lia). cbn [mjoin list_join app] in Hs2.
      by replace (Z.to_nat (j + 1)) with (S (Z.to_nat j)) by lia.
  - intros d s1 [-> Hs1]. rewrite Z.max_r in * by lia. split; [done|].
    by rewrite drop_ge in Hs1 by lia.
Qed.
End pixels.

(** *** The header *)

(** A line of text: what a token can hold. *)
Definition line_ok (l : list Z) : Prop := zlen l < 1023 ∧ 10 ∉ l ∧ 0 ∉ l.

Lemma c_string_app l t : 0 ∉ l → c_string_of (l ++ 0 :: t) = Ok l.
Proof.
  induction l as [|c l IH]; intros H0; [done|]. apply not_elem_of_cons in H0 as [Hc H0]. cbn [app c_string_of].
  rewrite (IH H0). destruct c; [done|done..].
Qed.

Lemma gettoken_line fuel buf l tl s : length buf = 1024%nat → line_ok l → has (l ++ 10 :: tl) s →
  awp_ok (stbi__hdr_gettoken fuel buf) s (λ b s', length b = 1024%nat ∧ (∃ t, b = l ++ 0 :: t) ∧ has tl s').
Proof.
  intros Hbuf (Hlen & H10 & _) Hhas. unfold stbi__hdr_gettoken.
  assert (∃ c r, l ++ 10 :: tl = c :: r) as (c0 & r0 & E0) by (destruct l; cbn; eauto).
  rewrite E0 in Hhas. apply awp_ok_bind. eapply awp_ok_mono; [by apply get8_has|]. cbn beta. intros c s1 [-> Hs1].
  apply awp_ok_bind.
  apply (awp_loop (λ '(b, len, c) s', length b = 1024%nat ∧ ∃ l1 l2 t r, l = l1 ++ l2 ∧ len = zlen l1 ∧ b = l1 ++ t ∧
    l2 ++ 10 :: tl = c :: r ∧ has r s') (λ '(_, len, _) _, Z.to_nat (1023 - len))).
  - split; [done|]. exists [], l, buf, r0. done.
  - lia.
  - intros [[b len] c] s' (Hb & l1 & l2 & t & r & -> & -> & -> & Er & Hr). rewrite length_app in *.
    assert (∀ o : bool, (negb o && negb (c =? 10) = true ∧ l2 ≠ []) ∨
      (l2 = [] ∧ c = 10 ∧ r = tl) ∨ o = true) as Hcase.
    { intros o. destruct l2 as [|x l2]; [injection Er as <- <-; by right; left|]. injection Er as <- <-.
      destruct o; [by right; right|]. left. split; [|done]. destruct (Z.eqb_spec x 10) as [->|]; [|done].
      exfalso. apply H10. apply elem_of_app. right. left. }
    eapply (awp_ok_bind (A := bool)). eapply awp_ok_mono; [by apply at_eof_has|]. cbn beta. intros o s2 [-> ->].
    destruct l2 as [|x l2].
    + injection Er as <- <-. cbn [Z.eqb Pos.eqb negb]. rewrite andb_false_r. awp_step. cbn [fell].
      rewrite app_nil_r, Nat.add_0_r in *. destruct t as [|y t]; [cbn in Hb; lia|].
      apply awp_ok_lift. rewrite wr_ok by (rewrite length_app; cbn [length]; lia). cbn [wp].
      split; [rewrite length_zset, length_app; cbn [length] in *; lia|]. split; [|done]. exists t.
      unfold zset. rewrite Nat2Z.id, insert_app_r_alt, Nat.sub_diag by lia. done.
    + injection Er as <- <-. cbn [length] in *.
      assert (x ≠ 10) as Hx by (intros ->; apply H10, elem_of_app; right; left).
      rewrite (bool_decide_false (l2 ++ _ = [])) by (by destruct l2).
      rewrite (proj2 (Z.eqb_neq x 10) Hx). cbn [negb andb]. destruct t as [|y t]; [cbn in Hb; lia|].
      assert (wr (l1 ++ y :: t) (zlen l1) x = Ok ((l1 ++ [x]) ++ t)) as Ew.
      { rewrite wr_ok by (rewrite length_app; cbn [length]; lia). unfold zset.
        rewrite Nat2Z.id, insert_app_r_alt, Nat.sub_diag by lia. cbn. by rewrite <- app_assoc. }
      apply awp_ok_bind, awp_ok_lift. rewrite Ew. cbn [wp].
      unfold STBI__HDR_BUFLEN. rewrite (proj2 (Z.eqb_neq _ _)) by lia.
      assert (∃ c r, l2 ++ 10 :: tl = c :: r) as (c1 & r1 & E1) by (destruct l2; cbn; eauto). rewrite E1 in Hr.
      apply awp_ok_bind. eapply awp_ok_mono; [by apply get8_has|]. cbn beta. intros c s3 [-> Hs3]. awp_step.
      split; [|lia]. split; [rewrite !length_app in *; cbn [length] in *; lia|].
      exists (l1 ++ [x]), l2, t, r1. rewrite <- app_assoc. split; [done|]. split; [rewrite length_app; cbn; lia|]. done.
Qed.

Lemma next_token_line fuel buf l tl s : length buf = 1024%nat → line_ok l → has (l ++ 10 :: tl) s →
  awp_ok (next_token fuel buf) s (λ r s', length r.1 = 1024%nat ∧ r.2 = l ∧ has tl s').
Proof.
  intros Hbuf Hl Hhas. unfold next_token. apply awp_ok_bind. eapply awp_ok_mono; [by apply gettoken_line|].
  cbn beta. intros b s1 (Hb & (t & ->) & Hs1). apply awp_ok_bind, awp_ok_lift. rewrite c_string_app by apply Hl. cbn [wp].
  by awp_step.
Qed.

(** The lines of a header, the empty one included. *)
Definition text (ls : list (list Z)) : list Z := mjoin ((λ l, l ++ [10]) <$> ls).

Lemma hdr_lines_ok fuel ls buf tl s : length buf = 1024%nat → Forall (λ l, line_ok l ∧ l ≠ []) ls → (length ls < fuel)%nat →
  has (text ls ++ 10 :: tl) s →
  awp_ok (hdr_lines fuel buf) s (λ r s', length r.1 = 1024%nat ∧
    r.2 = existsb (λ l, bool_decide (l = hdr_format)) ls ∧ has tl s').
Proof.
  unfold hdr_lines. intros Hbuf Hls Hn Hhas. match goal with |- context [a_loop fuel ?b] => set (body := b) end.
  revert Hn. generalize fuel at 1 2. intros n Hn. apply awp_ok_bind.
  change (existsb _ ls) with (false || existsb (λ l, bool_decide (l = hdr_format)) ls). generalize false as v. intros v.
  revert n Hn buf Hbuf v s Hhas. induction Hls as [|l ls [Hl Hne] Hls IH]; intros n Hn buf Hbuf v s Hhas;
    (destruct n as [|n]; [cbn in Hn; lia|]); cbn [a_loop]; unfold body at 1.
  - apply awp_ok_bind, awp_ok_bind. cbn [text fmap list_fmap mjoin list_join app] in Hhas.
    eapply awp_ok_mono; [apply (next_token_line fuel buf [] tl s Hbuf); [|exact Hhas]|].
    { split; [cbn; lia|]. split; apply not_elem_of_nil. }
    cbn beta. intros [b t] s1 (Hb & Et & Hs1). cbn in Hb, Et. subst t. awp_step. awp_step. awp_step. cbn [fell fst snd].
    by rewrite orb_false_r.
  - apply awp_ok_bind, awp_ok_bind. unfold text in Hhas. cbn [fmap list_fmap mjoin list_join] in Hhas.
    rewrite <- !app_assoc in Hhas. cbn [app] in Hhas.
    eapply awp_ok_mono; [apply (next_token_line fuel buf l _ s Hbuf Hl Hhas)|].
    cbn beta. intros [b t] s1 (Hb & Et & Hs1). cbn in Hb, Et. subst t. awp_step. destruct l as [|c l]; [done|].
    eapply awp_mono; [apply (IH n ltac:(cbn in Hn; lia) b Hb _ s1 Hs1)|].
    cbn beta. intros [o|e] s2; [|done]. intros H. cbn [existsb]. rewrite orb_assoc. exact H.
Qed.
End reader.

(** ** Numbers in decimal *)
Definition dec (n : Z) : list Z := bytes_of (pretty n).
Definition is_digit (c : Z) : Prop := 48 ≤ c ≤ 57.

Lemma bytes_of_cons c s : bytes_of (String c s) = Z.of_N (N_of_ascii c) :: bytes_of s.
Proof. done. Qed.

Lemma digit_char n : (n < 10)%N → Z.of_N (N_of_ascii (pretty_N_char n)) = 48 + Z.of_N n.
Proof. intros Hn. destruct n as [|p]; [done|]. do 4 (destruct p as [p|p|]; try done); lia. Qed.

(** The digits in front of [s], as [digits] reads them. *)
Lemma go_digits n : ∀ s, (n > 0)%N → ∃ ds, bytes_of (pretty_N_go n s) = ds ++ bytes_of s ∧ ds ≠ [] ∧ Forall is_digit ds ∧
  (∀ k, (Z.of_N n < 10 ^ Z.of_nat k) → (length ds ≤ k)%nat) ∧
  ∀ c t, digits 0 c (ds ++ t) = digits (Z.of_N n) (c + zlen ds) t.
Proof.
  induction (N.lt_wf_0 n) as [n _ IH]. intros s Hn. rewrite pretty_N_go_step by lia.
  pose proof (digit_char (n mod 10) ltac:(apply N.mod_lt; lia)) as Hc.
  set (d := 48 + Z.of_N (n mod 10)) in *. assert (is_digit d) as Hd.
  { unfold is_digit, d. pose proof (N.mod_lt n 10 ltac:(lia)) as Hm. revert Hm. generalize (n `mod` 10)%N. intros; lia. }
  assert (∀ v c t, digits v c (d :: t) = digits (10 * v + Z.of_N (n mod 10)) (c + 1) t) as Hstep.
  { intros v c t. cbn [digits]. unfold is_digit in Hd. rewrite (proj2 (Z.leb_le _ _)), (proj2 (Z.leb_le _ _)) by lia.
    cbn [andb]. f_equal. unfold d. lia. }
  assert (Z.of_N n = 10 * Z.of_N (n / 10) + Z.of_N (n `mod` 10)) as Hdm.
  { rewrite (N.div_mod n 10) at 1 by lia. by rewrite N2Z.inj_add, N2Z.inj_mul. }
  assert (0 ≤ Z.of_N (n `mod` 10)) as Hm0 by apply N2Z.is_nonneg.
  destruct (decide (n < 10)%N) as [Hlt|Hge].
  - rewrite N.div_small by done. rewrite pretty_N_go_0. exists [d]. rewrite bytes_of_cons, Hc. split; [done|].
    split; [done|]. split; [by apply Forall_singleton|]. split.
    + intros k Hk. cbn. destruct k; [cbn in Hk; lia|lia].
    + intros c t. cbn [app]. rewrite Hstep. cbn [length]. f_equal. rewrite N.mod_small by done. lia.
  - destruct (IH (n / 10)%N) with (s := String (pretty_N_char (n mod 10)) s) as (ds & E & Hne & Hds & Hlen & Hdig).
    { apply N.div_lt; lia. }
    { pose proof (N.div_str_pos n 10). lia. }
    exists (ds ++ [d]). rewrite E, bytes_of_cons, Hc, <- app_assoc. split; [done|]. split; [by destruct ds|].
    split; [apply Forall_app; split; [done|by apply Forall_singleton]|]. split.
    + intros k Hk. destruct k as [|k]; [cbn in Hk; lia|]. rewrite length_app. cbn [length].
      enough (length ds ≤ k)%nat by lia. apply Hlen. rewrite Nat2Z.inj_succ, Z.pow_succ_r in Hk by lia.
      revert Hdm Hm0. generalize (Z.of_N (n / 10)) (Z.of_N (n `mod` 10)). intros; lia.
    + intros c t. rewrite <- app_assoc, Hdig. cbn [app]. rewrite Hstep, length_app, <- Hdm. cbn [length]. f_equal. lia.
Qed.

Lemma dec_spec n : 0 < n → ∃ c ds, dec n = c :: ds ∧ Forall is_digit (dec n) ∧
  (∀ k, n < 10 ^ Z.of_nat k → (length (dec n) ≤ k)%nat) ∧
  ∀ t, digits 0 0 (dec n ++ t) = digits n (zlen (dec n)) t.
Proof.
  intros Hn. destruct n as [|p|p]; [lia| |lia]. unfold dec.
  change (pretty (Z.pos p)) with (pretty (N.pos p)). unfold pretty, pretty_N. rewrite decide_False by lia.
  destruct (go_digits (N.pos p) "" ltac:(lia)) as (ds & E & Hne & Hds & Hlen & Hdig).
  change (bytes_of "") with (@nil Z) in E. rewrite app_nil_r in E. rewrite E. destruct ds as [|c ds]; [done|]. exists c, ds. split; [done|]. split; [done|]. split; [exact Hlen|].
  intros t. apply Hdig.
Qed.

(** [strtol] at a decimal number that something else follows. *)
Lemma strtol_dec n t : 0 < n ≤ LONG_MAX → (∀ c t', t = c :: t' → ¬ is_digit c) → strtol (dec n ++ t) = (n, t).
Proof.
  intros Hn Ht. destruct (dec_spec n ltac:(lia)) as (c & ds & E & Hd & _ & Hdig). unfold strtol.
  assert (drop_while isspace (dec n ++ t) = dec n ++ t) as ->.
  { rewrite E in *. apply Forall_cons in Hd as [Hc _]. unfold is_digit in Hc. cbn [app drop_while].
    unfold isspace. repeat rewrite (proj2 (Z.eqb_neq c _)) by lia. done. }
  assert (match dec n ++ t with 45 :: t' => (true, t') | 43 :: t' => (false, t') | _ => (false, dec n ++ t) end = (false, dec n ++ t)) as ->.
  { rewrite E in *. apply Forall_cons in Hd as [Hc _]. unfold is_digit in Hc. cbn [app].
    destruct c as [|c|c]; [done| |done].
    do 6 (destruct c as [c|c|]; try done); try lia. }
  rewrite Hdig. assert (digits n (zlen (dec n)) t = (n, zlen (dec n), t)) as ->.
  { destruct t as [|x t]; [done|]. cbn [digits]. specialize (Ht x t eq_refl). unfold is_digit in Ht.
    destruct (Z.leb_spec 48 x), (Z.leb_spec x 57); done || lia. }
  rewrite E. cbn [length]. rewrite (proj2 (Z.eqb_neq _ _)) by lia. f_equal. lia.
Qed.

(** ** The file *)
Definition line_okb (l : list Z) : bool := (zlen l <? 1023) && forallb (λ c, negb (c =? 10) && negb (c =? 0)) l.

Lemma line_okb_ok l : line_okb l = true → line_ok l.
Proof.
  intros [H1 H2]%andb_true_iff. split; [lia|]. split; intros Hin; apply list_elem_of_In in Hin;
    rewrite forallb_forall in H2; by apply H2 in Hin.
Qed.

Definition comment_line : list Z := bytes_of "# Written by stb_image_write.h".
Definition exposure_line : list Z := bytes_of "EXPOSURE=          1.0000000000000".
Definition size_line (x y : Z) : list Z := hdr_y ++ dec y ++ 32 :: hdr_x ++ dec x.

(** The header as the decoder reads it. *)
Lemma header_lines x y tl : hdr_header ++ hdr_dimensions x y ++ tl =
  hdr_radiance ++ 10 :: text [comment_line; hdr_format; exposure_line] ++ 10 :: size_line x y ++ 10 :: tl.
Proof.
  unfold hdr_header, hdr_dimensions, size_line, text.
  change (bytes_of " +X ") with (32 :: hdr_x). change (bytes_of "-Y ") with hdr_y.
  fold (dec x) (dec y). cbn [fmap list_fmap mjoin list_join]. fold comment_line exposure_line.
  change (bytes_of "#?RADIANCE") with hdr_radiance. change (bytes_of "FORMAT=32-bit_rle_rgbe") with hdr_format.
  generalize comment_line exposure_line hdr_format hdr_radiance (dec x) (dec y). intros c e f r dx dy.
  rewrite <- !app_assoc. cbn [app]. rewrite <- !app_assoc. done.
Qed.

Lemma digits_clean l : Forall is_digit l → 10 ∉ l ∧ 0 ∉ l.
Proof. rewrite Forall_forall. unfold is_digit. intros H. split; intros Hin; apply H in Hin; lia. Qed.

Lemma size_line_ok x y : 0 < x ≤ 2 ^ 24 → 0 < y ≤ 2 ^ 24 → line_ok (size_line x y).
Proof.
  intros Hx Hy. unfold size_line.
  destruct (dec_spec x ltac:(lia)) as (cx & dx & _ & Hdx & Hlx & _).
  destruct (dec_spec y ltac:(lia)) as (cy & dy & _ & Hdy & Hly & _).
  specialize (Hlx 8%nat ltac:(cbn; lia)). specialize (Hly 8%nat ltac:(cbn; lia)).
  apply digits_clean in Hdx as [Hx1 Hx0]. apply digits_clean in Hdy as [Hy1 Hy0].
  split; [|split]; [rewrite !length_app; cbn [length]; rewrite length_app; cbn [length hdr_y hdr_x]; lia| |];
    rewrite !elem_of_app, elem_of_cons, elem_of_app; intros [H|[H|[H|[H|H]]]]; try done;
    unfold hdr_y, hdr_x in *; apply list_elem_of_In in H; cbn in H; lia.
Qed.

Lemma hdr_size_ok `{Env : StbiEnv} bad x y s : 0 < x ≤ 2 ^ 24 → 0 < y ≤ 2 ^ 24 →
  awp_ok (hdr_size bad (size_line x y)) s (λ r s', r = (x, y) ∧ s' = s).
Proof.
  intros Hx Hy. unfold hdr_size, size_line.
  assert (∀ p t, after_prefix p (p ++ t) = Some t) as Hpre.
  { induction p as [|c p IH]; intros t; [by destruct t|]. cbn [app after_prefix]. by rewrite Z.eqb_refl. }
  rewrite Hpre, strtol_dec.
  2: { unfold LONG_MAX. lia. } 2: { intros c t' [= <- <-]. unfold is_digit. lia. }
  assert (drop_while (λ c, c =? 32) (32 :: hdr_x ++ dec x) = hdr_x ++ dec x) as -> by done.
  rewrite Hpre. rewrite <- (app_nil_r (dec x)), strtol_dec by (unfold LONG_MAX; lia || done). awp_step. cbn [fst].
  assert (∀ v, 0 < v ≤ 2 ^ 24 → sx 32 v = v) as Hsx.
  { intros v Hv. unfold sx. rewrite Z.mod_small; lia. }
  by rewrite !Hsx.
Qed.

Section file.
Context `{Env : StbiEnv} {Cb : Callbacks} {Sw : WriteSwitches}.
Hypothesis Hrich : ∀ n, 0 ≤ n < 2 ^ 32 → malloc_ok n = true.
Variables (data : list f32) (x y comp : Z) (q : Z → Z → list Z).
Hypotheses (Hx : 0 < x ≤ 2 ^ 24) (Hy : 0 < y ≤ 2 ^ 24) (Hcomp : 0 < comp) (Hsize : comp * x * y ≤ INT_MAX).

(** Row [j] of the file in the image. *)
Definition row_of (j : Z) : Z := comp * x * (if stbi__flip_vertically_on_write then y - 1 - j else j).

Hypothesis Hpixels : ∀ j i, 0 ≤ j < y → 0 ≤ i < x → hdr_pixel data (row_of j) comp i = Ok (q j i).

Lemma write_hdr_spec s : awp_ok (stbi_write_hdr_core x y comp data) s (λ b s', b = true ∧ ∃ rows,
  length rows = Z.to_nat y ∧ (∀ j, 0 ≤ j < y → scanline_bytes x (q j) (rows.[j])) ∧
  wrote (hdr_header ++ hdr_dimensions x y ++ mjoin rows) s s').
Proof using All.
  unfold stbi_write_hdr_core. rewrite (proj2 (Z.leb_gt y 0)), (proj2 (Z.leb_gt x 0)) by lia. cbn [orb].
  apply awp_ok_bind, awp_ok_lift. rewrite i32_ok by (c_unfold; lia). cbn [wp].
  unfold stbi__malloc. rewrite Hrich by lia. cbn [from_option]. unfold id.
  apply awp_ok_bind. eapply awp_ok_mono; [apply func_spec|]. cbn beta. intros _ s1 H1.
  apply awp_ok_bind. eapply awp_ok_mono; [apply func_spec|]. cbn beta. intros _ s2 H2.
  apply awp_ok_bind.
  apply (awp_ok_for (λ j sc s', zlen sc = 4 * x ∧ ∃ rows, length rows = Z.to_nat j ∧
    (∀ k, 0 ≤ k < j → scanline_bytes x (q k) (rows.[k])) ∧ wrote (mjoin rows) s2 s')).
  - split; [rewrite length_malloc; lia|]. exists []. split; [done|]. split; [lia|apply wrote_nil].
  - intros j sc s3 Hj (Hsc & rows & Hl & Hrows & Hw).
    apply awp_ok_bind, awp_ok_lift. rewrite i32_ok by (c_unfold; nia). cbn [wp].
    apply awp_ok_bind, awp_ok_lift.
    assert (0 ≤ (if stbi__flip_vertically_on_write then y - 1 - j else j) < y) as Hr by (destruct stbi__flip_vertically_on_write; lia).
    rewrite i32_ok by (c_unfold; nia). cbn [wp]. fold (row_of j).
    eapply awp_ok_mono; [apply (scanline_written data (row_of j) comp x (q j) ltac:(lia)); [intros i Hi; by apply Hpixels|lia]|].
    cbn beta. intros sc' s4 (Hl' & bs & Hb & Hbytes). split; [lia|]. exists (rows ++ [bs]).
    split; [rewrite length_app; cbn; lia|]. split.
    + intros k Hk. destruct (decide (k = j)) as [->|].
      * rewrite lookup_total_app_r by lia. by replace (Z.to_nat j - length rows)%nat with 0%nat by lia.
      * rewrite lookup_total_app_l by lia. apply Hrows. lia.
    + rewrite join_app. cbn. rewrite app_nil_r. by eapply wrote_trans.
  - intros sc s3 (_ & rows & Hl & Hrows & Hw). rewrite Z.max_r in * by lia. awp_step. split; [done|].
    exists rows. split; [done|]. split; [done|]. rewrite app_assoc. eapply wrote_trans; [|exact Hw]. by eapply wrote_trans.
Qed.

(** The pixels in the order of the file. *)
Definition hdr_samples (req : Z) : list f32 :=
  mjoin ((λ n, values (q (n / x) (n mod x)) req) <$> seqZ 0 (x * y)).

Lemma hdr_rows_ok rows req s : 1 ≤ req ≤ 4 → length rows = Z.to_nat y →
  (∀ j, 0 ≤ j < y → scanline_bytes x (q j) (rows.[j])) → has (mjoin rows) s →
  awp_ok (if (x <? 8) || (32768 <=? x) then hdr_flat x y req 0 0 (decoded q x y req 0)
          else r ← a_for_ctl 0 y (hdr_row x y req) (None, decoded q x y req 0);
               mret (match r with Fell (_, hdr_data) => hdr_data | Gave hdr_data => hdr_data end)) s
    (λ d _, d = hdr_samples req).
Proof using All.
  intros Hreq Hl Hrows Hhas.
  assert (∀ j i, 0 ≤ j < y → 0 ≤ i < x → length (q j i) = 4%nat) as Hlen.
  { intros j i Hj Hi. eapply hdr_pixel_length. by apply Hpixels. }
  assert (decoded q x y req (y * x) = hdr_samples req) as Hend.
  { unfold decoded, hdr_samples, pixel. replace (x * y - y * x) with 0 by lia. cbn [Z.to_nat Z.mul replicate].
    rewrite app_nil_r. by rewrite Z.mul_comm. }
  rewrite <- Hend. unfold scanline_bytes in Hrows. destruct (coded x) eqn:Ec.
  - assert ((x <? 8) || (32768 <=? x) = false) as -> by (unfold coded in Ec; by destruct (_ || _)).
    assert (8 ≤ x < 32768) as Hx8 by (unfold coded in Ec; lia).
    apply awp_ok_bind. unfold a_for_ctl. rewrite Z.sub_0_r.
    enough (∀ n j sc s, Z.of_nat n = y - j → 0 ≤ j → (∀ sl, sc = Some sl → zlen sl = 4 * x) →
      has (mjoin (drop (Z.to_nat j) rows)) s →
      awp_ok (a_up_ctl n j (hdr_row x y req) (sc, decoded q x y req (j * x))) s
        (λ r _, ∃ sc', r = Fell (sc', decoded q x y req (y * x)))) as Hloop.
    { eapply awp_ok_mono; [apply (Hloop (Z.to_nat y) 0 None s); [lia|lia|done|done]|].
      cbn beta. intros r s' (sc & ->). by awp_step. }
    induction n as [|n IH]; intros j sc s1 Hn Hj Hsc Hs1; cbn [a_up_ctl].
    + assert (j = y) as -> by lia. awp_step. by exists sc.
    + rewrite (drop_S rows (rows.[j]) (Z.to_nat j)) in Hs1 by (apply znth_lookup; lia). cbn [mjoin list_join] in Hs1.
      apply awp_ok_bind. eapply awp_ok_mono.
      { apply (hdr_row_ok q x y req ltac:(lia) Hreq Hlen j (rows.[j]) (mjoin (drop (S (Z.to_nat j)) rows)) sc s1); try done; try lia.
        - apply Hrich. lia.
        - unfold scanline_bytes. rewrite Ec. apply Hrows. lia. }
      cbn beta. intros [[sc' d]|[sc' d]|d] s2; [|done|done]. intros (-> & Hs2 & Hsc').
      apply IH; [lia|lia|done|]. by replace (Z.to_nat (j + 1)) with (S (Z.to_nat j)) by lia.
  - assert ((x <? 8) || (32768 <=? x) = true) as -> by (unfold coded in Ec; by destruct (_ || _)).
    eapply awp_ok_mono; [apply (hdr_flat_ok q x y req ltac:(lia) Hreq Hlen rows [] s Ec Hl)|].
    + intros j Hj. by apply Hrows.
    + by rewrite app_nil_r.
    + cbn beta. by intros d s' [-> _].
Qed.

(** C4. An HDR file that [stbi_write_hdr_to_func] wrote comes back: for every image
    of up to 2^24 by 2^24 pixels that is inside its array and whose pixels have
    an RGBE value, of any number of channels, upright or flipped, the writer
    succeeds, and [stbi__hdr_load] on the bytes, from memory or through
    callbacks, gives the dimensions, three channels, and for each pixel in the
    order of the file the floats of its RGBE value, in 1 to 4 channels.  The
    scanlines are run-length coded between 8 and 32767 pixels, flat otherwise. *)
Theorem hdr_file_roundtrip : ∃ blocks,
  stbi_write_hdr_to_func x y comp data = Ok (Val true, blocks) ∧
  ∀ fuel req s, (4 ≤ fuel)%nat → 0 ≤ req ≤ 4 → x * y * 16 ≤ INT_MAX → ctx_ok s → remaining s = mjoin blocks →
    ∃ s', stbi__hdr_load fuel req s =
      Ok (Val (hdr_samples (if req =? 0 then 3 else req), (x, y, 3)), s').
Proof using All.
  destruct (awp_ok_elim _ _ _ (write_hdr_spec stbi__start_write_callbacks)) as (b & s' & E & -> & rows & Hl & Hrows & Hw).
  exists (sent s'). split; [unfold stbi_write_hdr_to_func, to_func; by rewrite E|].
  intros fuel req s Hfuel Hreq Hxy Hok Hrem. unfold wrote in Hw.
  change (mjoin (sent stbi__start_write_callbacks)) with (@nil Z) in Hw. cbn [app] in Hw. rewrite Hw, header_lines in Hrem.
  assert (has _ s) as Hhas by (split; [exact Hok|exact Hrem]). clear Hok Hrem Hw E.
  enough (awp_ok (stbi__hdr_load fuel req) s (λ r _, r = (hdr_samples (if req =? 0 then 3 else req), (x, y, 3)))) as H.
  { apply awp_ok_elim in H as (r & s1 & E & ->). by exists s1. }
  unfold stbi__hdr_load.
  apply awp_ok_bind. eapply awp_ok_mono; [eapply (next_token_line fuel _ hdr_radiance); [by rewrite length_malloc|by apply line_okb_ok|exact Hhas]|].
  cbn beta. intros [b1 t1] s1 (Hb1 & E & Hs1). cbn in Hb1, E. subst t1.
  apply awp_ok_bind, awp_ok_pass; [done|].
  apply awp_ok_bind. eapply awp_ok_mono; [eapply (hdr_lines_ok fuel [comment_line; hdr_format; exposure_line] b1 _ s1 Hb1); [|cbn; lia|exact Hs1]|].
  { repeat (constructor; [split; [by apply line_okb_ok|done]|]). constructor. }
  cbn beta. intros [b2 v] s2 (Hb2 & E & Hs2). cbn [fst] in Hb2.
  assert (v = true) as -> by (cbn [snd] in E; by rewrite E). clear E.
  apply awp_ok_bind, awp_ok_pass; [done|].
  apply awp_ok_bind. eapply awp_ok_mono; [eapply (next_token_line fuel b2 (size_line x y)); [done|by apply size_line_ok|exact Hs2]|].
  cbn beta. intros [b3 t3] s3 (Hb3 & E & Hs3). cbn in Hb3, E. subst t3.
  apply awp_ok_bind. eapply awp_ok_mono; [by apply hdr_size_ok|]. cbn beta. intros wh s4 [-> ->].
  apply awp_ok_bind, awp_ok_pass; [unfold STBI_MAX_DIMENSIONS; by rewrite (proj2 (Z.ltb_ge _ _)) by lia|].
  apply awp_ok_bind, awp_ok_pass; [unfold STBI_MAX_DIMENSIONS; by rewrite (proj2 (Z.ltb_ge _ _)) by lia|].
  set (n := if req =? 0 then 3 else req). assert (1 ≤ n ≤ 4) as Hn by (unfold n; destruct (Z.eqb_spec req 0); lia).
  assert (mad_fits 1 [x; y; n; 4] 0) as Hfits by (cbn [mad_fits]; c_unfold; nia).
  apply awp_ok_bind, awp_ok_lift. rewrite mad4sizes_valid_spec by (c_unfold; lia).
  rewrite bool_decide_true by done. cbn [wp].
  apply awp_ok_bind, awp_ok_pass; [done|].
  apply awp_ok_bind. unfold or_outofmem. apply awp_ok_bind, awp_ok_lift.
  destruct (malloc_mad_eq x y n 4 0) as (_ & _ & ->); [c_unfold; lia..|]. rewrite bool_decide_true by done.
  unfold block, stbi__malloc. rewrite Hrich by (c_unfold; nia). cbn [wp]. awp_step.
  apply awp_ok_bind.
  change (replicate (Z.to_nat (x * y * n)) (fz 0)) with (replicate (Z.to_nat (x * y * n)) (fz 0)).
  assert (replicate (Z.to_nat (x * y * n)) (fz 0) = decoded q x y n 0) as ->.
  { unfold decoded. cbn [seqZ fmap]. by rewrite Z.sub_0_r. }
  eapply awp_ok_mono; [by apply (hdr_rows_ok rows n s3 Hn Hl Hrows)|].
  cbn beta. intros d s5 ->. by awp_step.
Qed.
End file.

(** A grey line of eight pixels, run-length coded. *)
Definition toy_line : list f32 := replicate 6 (fz 1) ++ [flit 1 2; fz 3].
Definition toy_rgbe (_ i : Z) : list Z :=
  match hdr_pixel toy_line 0 1 i with Ok l => l | _ => [] end.

Lemma toy_rgbe_ok j i : 0 ≤ j < 1 → 0 ≤ i < 8 →
  hdr_pixel toy_line (@row_of default_write_switches 8 1 1 j) 1 i = Ok (toy_rgbe j i).
Proof.
  intros Hj Hi. assert (j = 0) as -> by lia. change (row_of 8 1 1 0) with 0. unfold toy_rgbe.
  assert (forallb (λ i, match hdr_pixel toy_line 0 1 i with Ok _ => true | _ => false end) (seqZ 0 8) = true) as H
    by (vm_compute; reflexivity).
  rewrite forallb_forall in H. specialize (H i ltac:(apply list_elem_of_In, elem_of_seqZ; lia)). cbn beta in H.
  by destruct (hdr_pixel toy_line 0 1 i).
Qed.

Lemma toy_malloc n : 0 ≤ n < 2 ^ 32 → @malloc_ok toy_env n = true.
Proof. intros. apply Z.ltb_lt. lia. Qed.

Lemma hdr_file_roundtrip_witness : ∃ blocks,
  @stbi_write_hdr_to_func toy_env default_write_switches 8 1 1 toy_line = Ok (Val true, blocks) ∧
  ∃ s', @stbi__hdr_load toy_env 4 3 (stbi__start_mem (mjoin blocks) (zlen (mjoin blocks))) =
    Ok (Val (hdr_samples 8 1 toy_rgbe 3, (8, 1, 3)), s').
Proof.
  destruct (@hdr_file_roundtrip toy_env toy_callbacks default_write_switches toy_malloc toy_line 8 1 1 toy_rgbe
    ltac:(lia) ltac:(lia) ltac:(lia) ltac:(c_unfold; lia) toy_rgbe_ok) as (blocks & E & H).
  exists blocks. split; [exact E|].
  destruct (@start_mem_ok toy_env toy_callbacks (mjoin blocks) (zlen (mjoin blocks)) (Z.le_refl _)) as [Hok Hrem].
  rewrite Nat2Z.id, take_ge in Hrem by lia.
  exact (H 4%nat 3 _ ltac:(lia) ltac:(lia) ltac:(c_unfold; lia) Hok Hrem).
Defined.
