(* ===== verification/StbBmpFile.v ===== *)
(** * stb_image and stb_image_write: BMP files there and back

    Rows bottom up, blue first, padded to four bytes; three channels of 24 bits
    behind a header of 40 bytes, or four of 32 bits behind one of 108. *)
From S2P Require Import Prelude StbMonad StbBase StbBaseSpec StbStream StbWrite StbWriteSpec StbBmp.

(** Linear arithmetic with quotients and remainders. *)
Local Ltac div_lia := Z.to_euclidean_division_equations; lia.

(** ** The file *)
Definition w2 (v : Z) : list Z := [u8 v; u8 (Z.shiftr v 8)].
Definition w4 (v : Z) : list Z := [u8 (u32 v); u8 (Z.shiftr (u32 v) 8); u8 (Z.shiftr (u32 v) 16); u8 (Z.shiftr (u32 v) 24)].

Definition bmp_pad (comp x : Z) : Z := if comp =? 4 then 0 else Z.land (- x * 3) 3.

(** Everything up to the pixels. *)
Definition bmp_head (comp size x y : Z) : list Z :=
  let hsz := if comp =? 4 then 108 else 40 in
  [66; 77] ++ w4 size ++ w2 0 ++ w2 0 ++ w4 (14 + hsz) ++ w4 hsz ++ w4 x ++ w4 y ++ w2 1
  ++ w2 (if comp =? 4 then 32 else 24) ++ w4 (if comp =? 4 then 3 else 0)
  ++ mjoin (replicate 5 (w4 0))
  ++ (if comp =? 4 then w4 0xff0000 ++ w4 0xff00 ++ w4 0xff ++ w4 0xff000000 ++ mjoin (replicate 13 (w4 0)) else []).

Definition bmp_size (comp x y : Z) : Z :=
  if comp =? 4 then 122 + x * y * 4 else 54 + (x * 3 + bmp_pad comp x) * y.

(** [src t] is the image row in row [t] of the file. *)
Definition bmp_rows (data : list Z) (comp x y : Z) (src : Z → Z) : list Z :=
  mjoin ((λ t, bmp_row data comp x (src t) ++ replicate (Z.to_nat (bmp_pad comp x)) 0) <$> seqZ 0 y).

Lemma bmp_pad_range comp x : 0 ≤ bmp_pad comp x ≤ 3.
Proof.
  unfold bmp_pad. destruct (comp =? 4); [lia|]. pose proof (land_mask (- x * 3) 2 ltac:(lia)) as Hm. change (2 ^ 2 - 1) with 3 in Hm. rewrite Hm.
  pose proof (Z.mod_pos_bound (- x * 3) 4 ltac:(lia)). change (2 ^ 2) with 4. lia.
Qed.

(** ** The writer *)
Definition direct (bs : list Z) (s s' : stbi__write_context) : Prop := puts bs s s' ∧ buf_used s' = 0.

Lemma func_direct l s : wctx_ok s → buf_used s = 0 → zlen l ≤ 64 → awp_ok (func l) s (λ _ s', direct l s s').
Proof.
  intros [Hl Hu Hb] E0 Hlen. unfold func. awp_step. split; [|done]. split.
  - split; cbn [buffer buf_used sent]; [done|done|]. apply Forall_app. split; [done|]. by apply Forall_singleton.
  - unfold stream. cbn [buffer buf_used sent]. rewrite E0. change (Z.to_nat 0) with 0%nat. by rewrite mjoin_snoc, take_0, !app_nil_r.
Qed.

Lemma direct_trans a b s s1 s2 : direct a s s1 → direct b s1 s2 → direct (a ++ b) s s2.
Proof. intros [H1 _] [H2 E]. split; [by eapply puts_trans|done]. Qed.

Lemma writefv_next {A} l (k : Wr A) s (Q : A → stbi__write_context → Prop) bs s0 : direct bs s0 s → zlen l ≤ 64 →
  (∀ s', direct (bs ++ l) s0 s' → awp_ok k s' Q) → awp_ok (func l;; k) s Q.
Proof.
  intros H Hl Hk. awp_step. eapply awp_ok_mono; [apply func_direct; [apply H|apply H|done]|]. cbn beta. intros _ s1 H1.
  apply Hk. by eapply direct_trans.
Qed.

Lemma head24_direct size x y s : wctx_ok s → buf_used s = 0 →
  awp_ok (stbiw__writefv "11 4 22 44 44 22 444444" [66; 77; size; 0; 0; 14 + 40; 40; x; y; 1; 24; 0; 0; 0; 0; 0; 0]) s
    (λ _ s', direct (bmp_head 3 size x y) s s').
Proof.
  intros Hs E. assert (direct [] s s) as H by (split; [by apply puts_nil|done]).
  cbn [stbiw__writefv Ascii.eqb Bool.eqb].
  repeat (eapply writefv_next; [exact H|cbn; lia|]; clear H; intros ? H).
  awp_step. exact H.
Qed.

Lemma head32_direct size x y s : wctx_ok s → buf_used s = 0 →
  awp_ok (stbiw__writefv "11 4 22 44 44 22 444444 4444 4 444 444 444 444"
      [66; 77; size; 0; 0; 14 + 108; 108; x; y; 1; 32; 3; 0; 0; 0; 0; 0;
       0xff0000; 0xff00; 0xff; 0xff000000; 0; 0; 0; 0; 0; 0; 0; 0; 0; 0; 0; 0; 0]) s
    (λ _ s', direct (bmp_head 4 size x y) s s').
Proof.
  intros Hs E. assert (direct [] s s) as H by (split; [by apply puts_nil|done]).
  cbn [stbiw__writefv Ascii.eqb Bool.eqb].
  repeat (eapply writefv_next; [exact H|cbn; lia|]; clear H; intros ? H).
  awp_step. exact H.
Qed.

(** The image row in row [t] of a file of [y] rows. *)
Definition file_row {Sw : WriteSwitches} (y t : Z) : Z := if stbi__flip_vertically_on_write then t else y - 1 - t.

Lemma file_row_range {Sw : WriteSwitches} y t : 0 ≤ t < y → 0 ≤ file_row y t < y.
Proof. intros. unfold file_row. destruct stbi__flip_vertically_on_write; lia. Qed.

Section writer.
Context {Sw : WriteSwitches} (data : list Z) (x y comp : Z).
Hypotheses (Hcomp : 1 ≤ comp ≤ 4) (Hx : 0 < x) (Hy : 0 < y) (Hdata : x * y * comp ≤ zlen data)
  (Hint : x * y * comp ≤ INT_MAX).

Let src : Z → Z := file_row y.

Lemma bmp_pixels_direct s : wctx_ok s → buf_used s = 0 →
  awp_ok (stbiw__write_pixels (-1) (-1) x y comp data (if comp =? 4 then 1 else 0) (bmp_pad comp x) true) s
    (λ _ s', direct (bmp_rows data comp x y src) s s').
Proof using Hcomp Hx Hy Hdata Hint.
  intros Hs E0. unfold stbiw__write_pixels. rewrite (proj2 (Z.leb_gt y 0)) by lia.
  pose proof (bmp_pad_range comp x) as Hpad. set (pad := bmp_pad comp x) in *.
  set (rows := λ n, mjoin ((λ t, bmp_row data comp x (src t) ++ replicate (Z.to_nat pad) 0) <$> seqZ 0 n)).
  set (vdir := if stbi__flip_vertically_on_write then - -1 else -1).
  assert ((let '(j_end, j) := if vdir <? 0 then (-1, y - 1) else (y, 0) in (j_end, j)) = (src y, src 0)) as Eends
    by (unfold vdir, src, file_row; destruct stbi__flip_vertically_on_write; cbn; f_equal; lia).
  destruct (if vdir <? 0 then (-1, y - 1) else (y, 0)) as [j_end j0] eqn:Ej. cbn [fst snd] in Eends.
  injection Eends as -> ->. clear Ej.
  assert (∀ t, src t + vdir = src (t + 1)) as Hnext by (intros t; unfold src, file_row, vdir; destruct stbi__flip_vertically_on_write; lia).
  assert (∀ t, src t = src y → t = y) as Hinj by (intros t; unfold src, file_row; destruct stbi__flip_vertically_on_write; lia).
  clearbody vdir. awp_step.
  apply (awp_loop (λ j s', ∃ t, 0 ≤ t ≤ y ∧ j = src t ∧ direct (rows t) s s')
                  (λ j _, Z.to_nat (y - if stbi__flip_vertically_on_write then j else y - 1 - j))).
  - exists 0. split; [lia|]. split; [done|]. split; [by apply puts_nil|done].
  - unfold src, file_row. destruct stbi__flip_vertically_on_write; lia.
  - intros j s1 (t & Ht & -> & H1). destruct (Z.eqb_spec (src t) (src y)) as [E|E].
    { apply Hinj in E as ->. awp_step. cbv beta iota. awp_step. exact H1. }
    assert (t ≠ y) as Hty by congruence. assert (0 ≤ src t < y) as Hsrc by (apply file_row_range; lia).
    awp_step. eapply awp_mono; [apply (write_row_puts data comp Hcomp x y (src t)); [apply H1|lia|lia|done|done]|].
    intros [[]|e] s2; [|done]. intros H2. awp_step. eapply awp_mono; [apply flush_puts, H2|].
    intros [[]|e] s3; [|done]. intros H3. awp_step.
    rewrite (proj2 (Z.leb_le 0 pad)), (proj2 (Z.leb_le pad 4)) by lia. cbn [andb].
    eapply awp_mono; [apply (func_direct (replicate (Z.to_nat pad) 0)); [apply H3|apply H3|rewrite length_replicate; lia]|].
    intros [[]|e] s4; [|done]. intros H4. awp_step. rewrite Hnext. split.
    + exists (t + 1). split; [lia|]. split; [done|].
      assert (rows (t + 1) = rows t ++ bmp_row data comp x (src t) ++ [] ++ replicate (Z.to_nat pad) 0) as ->.
      { unfold rows. rewrite seqZ_snoc, fmap_app, join_app by lia. cbn. by rewrite app_nil_r. }
      split; [|apply H4]. eapply puts_trans; [apply H1|]. eapply puts_trans; [exact H2|]. eapply puts_trans; [apply H3|apply H4].
    + revert Hsrc. unfold src, file_row. destruct stbi__flip_vertically_on_write; lia.
Qed.

Lemma write_bmp_spec s : bmp_size comp x y ≤ INT_MAX → wctx_ok s → buf_used s = 0 →
  awp_ok (stbi_write_bmp_core x y comp data) s (λ b s', b = true ∧
    direct (bmp_head comp (bmp_size comp x y) x y ++ bmp_rows data comp x y src) s s').
Proof using Hcomp Hx Hy Hdata Hint.
  intros Hsize Hs E0. unfold stbi_write_bmp_core. pose proof (bmp_pad_range comp x) as Hpad.
  pose proof (bmp_pixels_direct) as Hpix. unfold bmp_size, bmp_pad, bmp_head in *.
  destruct (Z.eqb_spec comp 4) as [->|Hne]; cbn [negb].
  - assert (x * y ≤ x * y * 4 ∧ 0 ≤ x * y) as [B1 B2] by (clear - Hx Hy; split; nia).
    do 3 (awp_step; awp_step; rewrite i32_ok by (c_unfold; lia); cbn [wp]).
    unfold stbiw__outfile. rewrite (proj2 (Z.ltb_ge y 0)), (proj2 (Z.ltb_ge x 0)) by lia. cbn [orb].
    awp_step. eapply awp_ok_mono; [by apply head32_direct|]. cbn beta. intros _ s1 H1.
    awp_step. eapply awp_ok_mono; [apply Hpix; apply H1|]. cbn beta. intros _ s2 H2. awp_step. split; [done|].
    replace (14 + 108 + x * y * 4) with (122 + x * y * 4) in H1 by lia. by eapply direct_trans.
  - set (pad := Z.land (- x * 3) 3) in *.
    assert (x * 3 + pad ≤ (x * 3 + pad) * y) as B1 by (clear - Hx Hy Hpad; nia).
    do 2 (awp_step; awp_step; rewrite i32_ok by (c_unfold; lia); cbn [wp]).
    fold pad.
    do 4 (awp_step; awp_step; rewrite i32_ok by (c_unfold; lia); cbn [wp]).
    unfold stbiw__outfile. rewrite (proj2 (Z.ltb_ge y 0)), (proj2 (Z.ltb_ge x 0)) by lia. cbn [orb].
    awp_step. eapply awp_ok_mono; [by apply head24_direct|]. cbn beta. intros _ s1 H1.
    awp_step. eapply awp_ok_mono; [apply Hpix; apply H1|]. cbn beta. intros _ s2 H2. awp_step. split; [done|].
    replace (14 + 40 + (x * 3 + pad) * y) with (54 + (x * 3 + pad) * y) in H1 by lia. by eapply direct_trans.
Qed.
End writer.

(** ** The reader *)
Section reader.
Context `{Env : StbiEnv} {Cb : Callbacks}.

(** After [k] bytes, [l] to come. *)
Definition standing (k : Z) (l : list Z) (d : Z * Z * Z * Z) (s : stbi__context) : Prop :=
  has l s ∧ position s = k ∧ dims s = d.

Lemma get8_standing k b l d s : standing k (b :: l) d s → awp_ok stbi__get8 s (λ r s', r = b ∧ standing (k + 1) l d s').
Proof.
  intros (Hh & Hk & Hd). pose proof (get8_has b l s Hh) as H. destruct Hh as [Hok Hr].
  unfold awp_ok, awp in *. destruct (stbi__get8 s) as [[o s']| |] eqn:E; cbn [wp] in *; try done. cbn [fst snd] in *.
  destruct o as [r|e]; [|done]. destruct H as [-> H]. split; [done|]. split; [done|]. split.
  - rewrite (get8_position s _ _ Hok ltac:(by rewrite Hr) E). lia.
  - by rewrite (get8_dims _ _ _ E).
Qed.

Lemma w2_value v : 0 ≤ v < 65536 → u8 v + Z.shiftl (u8 (Z.shiftr v 8)) 8 = v.
Proof.
  intros Hv. rewrite Z.shiftl_mul_pow2, Z.shiftr_div_pow2 by lia. change (2 ^ 8) with 256. rewrite (u8_small (v / 256)) by div_lia.
  unfold u8. change (2 ^ 8) with 256. div_lia.
Qed.

Lemma get16_standing k v l d s : 0 ≤ v < 65536 → standing k (w2 v ++ l) d s →
  awp_ok stbi__get16le s (λ r s', r = v ∧ standing (k + 2) l d s').
Proof.
  intros Hv H. unfold stbi__get16le. awp_step. eapply awp_ok_mono; [eapply get8_standing; exact H|]. cbn beta. intros ? s1 [-> H1].
  awp_step. eapply awp_ok_mono; [eapply get8_standing; exact H1|]. cbn beta. intros ? s2 [-> H2]. awp_step.
  split; [by apply w2_value|]. by replace (k + 2) with (k + 1 + 1) by lia.
Qed.

Lemma w4_halves v : 0 ≤ v < 2 ^ 32 → w4 v = w2 (v mod 65536) ++ w2 (v / 65536).
Proof.
  intros Hv. unfold w4, w2. rewrite u32_small by lia. rewrite !Z.shiftr_div_pow2 by lia. cbn [app].
  change (2 ^ 8) with 256. change (2 ^ 16) with 65536. change (2 ^ 24) with 16777216. unfold u8. change (2 ^ 8) with 256.
  apply (f_equal2 cons); [div_lia|]. apply (f_equal2 cons); [div_lia|]. apply (f_equal2 cons); [div_lia|].
  apply (f_equal2 cons); [div_lia|done].
Qed.

Lemma get32_standing k v l d s : 0 ≤ v < 2 ^ 32 → standing k (w4 v ++ l) d s →
  awp_ok stbi__get32le s (λ r s', r = v ∧ standing (k + 4) l d s').
Proof.
  intros Hv H. rewrite w4_halves, <- app_assoc in H by done. unfold stbi__get32le. awp_step.
  eapply awp_ok_mono; [apply get16_standing; [|exact H]; div_lia|]. cbn beta. intros ? s1 [-> H1].
  awp_step. eapply awp_ok_mono; [apply get16_standing; [|exact H1]; div_lia|]. cbn beta. intros ? s2 [-> H2]. awp_step.
  rewrite Z.shiftl_mul_pow2 by lia. change (2 ^ 16) with 65536. pose proof (Z.div_mod v 65536 ltac:(lia)) as Ev.
  pose proof (Z.mod_pos_bound v 65536 ltac:(lia)) as Hm. pose proof (Z.div_pos v 65536 ltac:(lia) ltac:(lia)) as Hq.
  rewrite (u32_small (v / 65536 * 65536)), u32_small by lia. split; [lia|]. by replace (k + 4) with (k + 2 + 2) by lia.
Qed.

Lemma discard32_standing n k l d s : standing k (mjoin (replicate n (w4 0)) ++ l) d s →
  awp_ok (discard32 (Z.of_nat n)) s (λ _ s', standing (k + 4 * Z.of_nat n) l d s').
Proof.
  intros H. unfold discard32.
  apply (awp_ok_for (λ i _ s', 0 ≤ i ∧ standing (k + 4 * i) (mjoin (replicate (n - Z.to_nat i) (w4 0)) ++ l) d s')).
  - split; [lia|]. rewrite Z.mul_0_r, Z.add_0_r, Nat.sub_0_r. exact H.
  - intros i [] s1 Hi [_ H1]. replace (n - Z.to_nat i)%nat with (S (n - Z.to_nat (i + 1))) in H1 by lia. cbn [replicate mjoin list_join] in H1.
    rewrite <- app_assoc in H1. awp_step. eapply awp_ok_mono; [apply get32_standing; [|exact H1]; lia|]. cbn beta.
    intros ? s2 [_ H2]. awp_step. split; [lia|]. by replace (k + 4 * (i + 1)) with (k + 4 * i + 4) by lia.
  - intros [] s1 [_ H1]. replace (Z.max 0 (Z.of_nat n)) with (Z.of_nat n) in H1 by lia. by rewrite Nat2Z.id, Nat.sub_diag in H1.
Qed.

Lemma set_dims_standing x y k l d s : standing k l d s →
  awp_ok (set_dims x y) s (λ _ s', standing k l (x, y, d.1.2, d.2) s').
Proof. intros (Hh & Hk & Hd). unfold set_dims. awp_step. split; [exact Hh|]. split; [exact Hk|]. by rewrite <- Hd. Qed.

(** What the decoder learns from the header. *)
Definition bmp_known (comp : Z) : bmp_data :=
  if comp =? 4
  then {| bpp := 32; offset := 122; hsz := 108; mr := 0xff0000; mg := 0xff00; mb := 0xff; ma := 0xff000000; all_a := 255; extra_read := 14 |}
  else {| bpp := 24; offset := 54; hsz := 40; mr := 0; mg := 0; mb := 0; ma := 0; all_a := 255; extra_read := 14 |}.

Definition head_length (comp : Z) : Z := if comp =? 4 then 122 else 54.

Ltac head_step H := awp_step; (eapply awp_ok_mono;
  [first [eapply get8_standing; exact H|eapply get16_standing; [|exact H]; lia|eapply get32_standing; [|exact H]; lia]|]);
  cbn beta; clear H; intros ? ? [-> H].

Lemma parse_header_ok comp size x y l d s : 0 ≤ size < 2 ^ 32 → 0 < x < 2 ^ 31 → 0 < y < 2 ^ 31 →
  standing 0 (bmp_head comp size x y ++ l) d s →
  awp_ok (stbi__bmp_parse_header 255) s (λ r s', r = bmp_known comp ∧ standing (head_length comp) l (x, y, d.1.2, d.2) s').
Proof.
  intros Hsize Hx Hy H. unfold stbi__bmp_parse_header, bmp_head, bmp_known, head_length in *.
  rewrite <- !app_assoc in H. cbn [app] in H.
  head_step H. awp_step. apply awp_ok_pass; [done|]. head_step H. awp_step. apply awp_ok_pass; [done|].
  head_step H. head_step H. head_step H.
  destruct (comp =? 4).
  - do 2 head_step H. change (sx 32 (14 + 108)) with 122. change (sx 32 108) with 108. cbv zeta.
    do 2 (awp_step; apply awp_ok_pass; [done|]). cbn [Z.eqb Pos.eqb]. awp_step.
    head_step H. head_step H. eapply awp_ok_mono; [by apply set_dims_standing|]. cbn beta. clear H. intros _ s1 H.
    head_step H. awp_step. apply awp_ok_pass; [done|]. head_step H. cbv zeta.
    head_step H. change (sx 32 3) with 3. do 3 (awp_step; apply awp_ok_pass; [done|]).
    awp_step. eapply awp_ok_mono; [eapply (discard32_standing 5); exact H|]. cbn beta. clear H. intros _ s2 H.
    unfold bmp_masks. cbn [hsz]. cbn [Z.eqb Pos.eqb orb]. awp_step. apply awp_ok_pass; [done|].
    do 4 head_step H. cbv zeta. cbn [negb Z.eqb Pos.eqb].
    awp_step. eapply awp_ok_mono; [eapply (discard32_standing 1 _ (mjoin (replicate 12 (w4 0)) ++ l)); exact H|]. cbn beta. clear H. intros _ s3 H.
    awp_step. eapply awp_ok_mono; [eapply (discard32_standing 12 _ l); exact H|]. cbn beta. clear H. intros _ s4 H.
    awp_step. cbn [set_masks hsz Z.eqb Pos.eqb]. awp_step. awp_step. split; [done|exact H].
  - do 2 head_step H. change (sx 32 (14 + 40)) with 54. change (sx 32 40) with 40. cbv zeta.
    do 2 (awp_step; apply awp_ok_pass; [done|]). cbn [Z.eqb Pos.eqb]. awp_step.
    head_step H. head_step H. eapply awp_ok_mono; [by apply set_dims_standing|]. cbn beta. clear H. intros _ s1 H.
    head_step H. awp_step. apply awp_ok_pass; [done|]. head_step H. cbv zeta.
    head_step H. change (sx 32 0) with 0. do 3 (awp_step; apply awp_ok_pass; [done|]).
    awp_step. eapply awp_ok_mono; [eapply (discard32_standing 5); exact H|]. cbn beta. clear H. intros _ s2 H.
    unfold bmp_masks. cbn [hsz bpp]. cbn [Z.eqb Pos.eqb orb]. awp_step. awp_step. awp_step. split; [done|exact H].
Qed.
End reader.

(** ** Pixels

    [fp t i] is pixel [i] of row [t] of the file. *)
Section pixels.
Context `{Env : StbiEnv} {Cb : Callbacks} (x y target easy : Z) (fp : Z → Z → list Z).
Hypotheses (Hx : 0 < x) (Hy : 0 < y) (Htarget : target = 3 ∨ target = 4) (Heasy : easy = 1 ∨ easy = 2).
Hypothesis Hlen : ∀ t i, 0 ≤ t < y → 0 ≤ i < x → zlen (fp t i) = if easy =? 2 then 4 else 3.
Hypothesis Hbytes : ∀ t i, 0 ≤ t < y → 0 ≤ i < x → Forall is_byte (fp t i).

(** Channel [c] of the pixel in the output. *)
Definition want (px : list Z) (c : Z) : Z := if c <? 3 then px.[2 - c] else if easy =? 2 then px.[3] else 255.

Definition decoded_upto (n : Z) (o : list Z) : Prop := ∀ t i c, 0 ≤ t → 0 ≤ i < x → t * x + i < n → 0 ≤ c < target →
  o.[(t * x + i) * target + c] = want (fp t i) c.

(** The stores of one pixel. *)
Lemma store_pixel o b g r a n : 0 ≤ n → (n + 1) * target ≤ zlen o →
  ∃ o', (o ← wr o (n * target + 2) b; o ← wr o (n * target + 1) g; o ← wr o (n * target) r;
         if target =? 4 then emit (o, n * target + 3) [a] else Ok (o, n * target + 3)) = Ok (o', (n + 1) * target) ∧
    length o' = length o ∧
    ∀ m c, 0 ≤ m → 0 ≤ c < target → o'.[m * target + c] = if decide (m = n) then [r; g; b; a].[c] else o.[m * target + c].
Proof using Htarget.
  intros Hn Hl. assert (0 ≤ n * target) as Hz by (clear - Hn Htarget; nia).
  do 3 (rewrite wr_ok by (rewrite ?length_zset; lia); cbn [mbind Res_bind]).
  set (o3 := zset (zset (zset o (n * target + 2) b) (n * target + 1) g) (n * target) r).
  assert (length o3 = length o) as Hl3 by (unfold o3; by rewrite !length_zset).
  assert (∀ m c, 0 ≤ m → 0 ≤ c < target → m ≠ n → m * target + c < n * target ∨ n * target + target ≤ m * target + c) as Hne
    by (clear - Hn Htarget; intros m c Hm Hc Hne; nia).
  assert (∀ m c, 0 ≤ m → 0 ≤ c < target → (m = n → c < 3) → o3.[m * target + c] = if decide (m = n) then [r; g; b; a].[c] else o.[m * target + c]) as H3.
  { intros m c Hm Hc Hc3. assert (0 ≤ m * target) by (clear - Hm Htarget; nia). case_decide as Hmn.
    - subst m. specialize (Hc3 eq_refl). assert (c = 0 ∨ c = 1 ∨ c = 2) as [->|[->| ->]] by lia; unfold o3.
      + rewrite Z.add_0_r, znth_zset_eq by (rewrite !length_zset; lia). done.
      + rewrite znth_zset_ne, znth_zset_eq by (rewrite ?length_zset; lia). done.
      + rewrite !znth_zset_ne, znth_zset_eq by (rewrite ?length_zset; lia). done.
    - unfold o3. destruct (Hne m c Hm Hc Hmn); by rewrite !znth_zset_ne by (rewrite ?length_zset; lia). }
  clearbody o3. destruct Htarget as [Et|Et]; rewrite Et in *; cbn [Z.eqb Pos.eqb].
  - exists o3. split; [do 2 f_equal; lia|]. split; [done|]. intros m c Hm Hc. apply H3; lia.
  - unfold emit. cbn [foldl mbind Res_bind]. rewrite wr_ok by lia. cbn [mbind Res_bind].
    eexists. split; [do 2 f_equal; lia|]. split; [by rewrite length_zset|]. intros m c Hm Hc.
    destruct (decide (m * 4 + c = n * 4 + 3)) as [E|E].
    + assert (m = n ∧ c = 3) as [-> ->] by lia. rewrite znth_zset_eq, decide_True by lia. done.
    + rewrite znth_zset_ne by lia. apply H3; lia.
Qed.

Lemma row_easy_ok t o all tl s : 0 ≤ t < y → zlen o = x * y * target → decoded_upto (t * x) o → 0 < all →
  has (mjoin (fp t <$> seqZ 0 x) ++ tl) s →
  awp_ok (row_easy easy target x (o, t * x * target, all)) s (λ r s', zlen r.1.1 = x * y * target ∧
    decoded_upto ((t + 1) * x) r.1.1 ∧ r.1.2 = (t + 1) * x * target ∧ 0 < r.2 ∧ has tl s').
Proof using Hx Htarget Heasy Hlen Hbytes.
  intros Ht Ho Hdone Hall Hs. unfold row_easy.
  apply (awp_ok_for (λ i r s', zlen r.1.1 = x * y * target ∧ decoded_upto (t * x + i) r.1.1 ∧ r.1.2 = (t * x + i) * target ∧
    0 < r.2 ∧ has (mjoin (fp t <$> seqZ i (x - i)) ++ tl) s')).
  - rewrite Z.add_0_r, Z.sub_0_r. done.
  - intros i [[o1 z] all1] s1 Hi. cbn [fst snd]. intros (Ho1 & Hd1 & -> & Ha1 & H1).
    rewrite seqZ_cons in H1 by lia. cbn [fmap list_fmap mjoin list_join] in H1. rewrite <- app_assoc in H1.
    replace (Z.succ i) with (i + 1) in H1 by lia. replace (Z.pred (x - i)) with (x - (i + 1)) in H1 by lia.
    pose proof (Hlen t i Ht Hi) as Hl. pose proof (Hbytes t i Ht Hi) as Hb.
    set (rest := mjoin (fp t <$> seqZ (i + 1) (x - (i + 1))) ++ tl) in *.
    destruct (fp t i) as [|p0 [|p1 [|p2 q]]] eqn:Ep; cbn [length] in Hl; try (destruct (easy =? 2); lia).
    rewrite !Forall_cons in Hb. destruct Hb as (Hb0 & Hb1 & Hb2 & Hq).
    set (a := if easy =? 2 then q.[0] else 255).
    assert (is_byte a) as Ha by (unfold a; destruct (easy =? 2); [destruct q; [cbn in Hl; lia|by inversion Hq]|by split]).
    assert ((t * x + i + 1) * target ≤ zlen o1) as Hroom by (rewrite Ho1; clear - Ht Hi Htarget Hx; nia).
    assert (0 ≤ t * x + i) as Hn0 by (clear - Ht Hi Hx; nia).
    destruct (store_pixel o1 p0 p1 p2 a (t * x + i) Hn0 Hroom) as (o2 & E2 & Hl2 & Hv2).
    apply bind_Ok in E2 as (oa & Ea & E2). apply bind_Ok in E2 as (ob & Eb & E2). apply bind_Ok in E2 as (oc & Ec & E2).
    cbn [app] in H1.
    awp_step. eapply awp_ok_mono; [eapply get8_has; exact H1|]. cbn beta. intros ? s2 [-> H2]. awp_step. awp_step. rewrite Ea. cbn [wp].
    awp_step. eapply awp_ok_mono; [eapply get8_has; exact H2|]. cbn beta. intros ? s3 [-> H3]. awp_step. awp_step. rewrite Eb. cbn [wp].
    awp_step. eapply awp_ok_mono; [eapply get8_has; exact H3|]. cbn beta. intros ? s4 [-> H4]. awp_step. awp_step. rewrite Ec. cbn [wp].
    awp_step. eapply (awp_ok_mono _ _ (λ v s', v = a ∧ has rest s')).
    { unfold a. destruct (easy =? 2).
      - destruct q as [|a0 [|]]; [cbn in Hl; lia| |cbn in Hl; lia]. eapply awp_ok_mono; [eapply get8_has; exact H4|]. done.
      - destruct q; [|cbn in Hl; lia]. awp_step. done. }
    cbn beta. intros ? s5 [-> H5]. awp_step.
    eapply (awp_ok_mono _ _ (λ oz s', oz = (o2, (t * x + i + 1) * target) ∧ s' = s5)).
    { destruct (target =? 4); [awp_step; by rewrite E2|]. awp_step. by injection E2 as <- <-. }
    cbn beta. intros ? ? [-> ->]. awp_step. cbn [fst snd].
    replace (t * x + (i + 1)) with (t * x + i + 1) by lia.
    split; [lia|]. split; [|split; [done|split; [|exact H5]]].
    + intros t' i' c Ht' Hi' Hlt Hc. assert (0 ≤ t' * x) by (clear - Ht' Hx; nia). rewrite Hv2 by lia. case_decide as E.
      * assert (t' = t ∧ i' = i) as [-> ->] by (clear - E Hi Hi' Hx; assert (t' = t) by nia; lia).
        rewrite Ep. unfold want. assert (c = 0 ∨ c = 1 ∨ c = 2 ∨ c = 3 ∧ target = 4) as [->|[->|[->|[-> _]]]] by lia; done.
      * apply Hd1; lia || done.
    + destruct Ha as [Ha0 _]. pose proof (Z.lor_nonneg all1 a) as Hn. pose proof (Z.lor_eq_0_iff all1 a) as Hz. lia.
  - intros [[o1 z] all1] s1. cbn [fst snd]. replace (Z.max 0 x) with x by lia. intros (Ho1 & Hd1 & Ez & Ha1 & H1).
    replace (t * x + x) with ((t + 1) * x) in * by lia. rewrite Z.sub_diag in H1. done.
Qed.

(** ** The rows exchanged in the end *)
Lemma swap_row_ok b r0 r1 n : 0 ≤ n → 0 ≤ r0 → r0 + n ≤ r1 → r1 + n ≤ zlen b →
  wp (for_range 0 n (λ i o, t ← rd o (r0 + i); v ← rd o (r1 + i); o ← wr o (r0 + i) v; wr o (r1 + i) t) b) (swapped b r0 r1 n).
Proof using Type.
  intros Hn Hr0 Hr1 Hl. apply (for_range_wp (λ i o, 0 ≤ i ∧ swapped b r0 r1 i o)).
  - split; [lia|]. split; [done|]. intros k Hk. by rewrite !decide_False by lia.
  - intros i o Hi [_ [Ho Hs]]. rewrite !rd_ok by lia. cbn [mbind Res_bind]. rewrite wr_ok by lia. cbn [mbind Res_bind].
    rewrite wr_ok by (rewrite length_zset; lia). cbn [wp]. split; [lia|]. split; [by rewrite !length_zset|]. intros k Hk.
    destruct (decide (k = r1 + i)) as [->|N1].
    + rewrite znth_zset_eq by (rewrite length_zset; lia). rewrite decide_False, decide_True by lia.
      rewrite Hs by lia. rewrite !decide_False by lia. f_equal. lia.
    + rewrite znth_zset_ne by lia. destruct (decide (k = r0 + i)) as [->|N2].
      * rewrite znth_zset_eq by lia. rewrite decide_True by lia. rewrite Hs by lia. rewrite !decide_False by lia. f_equal. lia.
      * rewrite znth_zset_ne by lia. rewrite Hs by lia. repeat case_decide; done || lia.
  - intros o [_ H]. by replace (Z.max 0 n) with n in H by lia.
Qed.

Lemma flip_rows_ok o : zlen o = x * y * target →
  wp (flip_rows x y target o) (λ o', length o' = length o ∧ ∀ r k, 0 ≤ r < y → 0 ≤ k < x * target →
    o'.[r * (x * target) + k] = o.[(y - 1 - r) * (x * target) + k]).
Proof using Hx Hy Htarget.
  intros Ho. set (n := x * target). assert (0 ≤ n) as Hn by (unfold n; clear - Hx Htarget; nia).
  assert (zlen o = y * n) as Hol by (unfold n; lia).
  unfold flip_rows. rewrite Z.shiftr_div_pow2 by lia. change (2 ^ 1) with 2. pose proof (Z.mul_div_le y 2 ltac:(lia)) as Hhalf.
  apply (for_range_wp (λ j b, 0 ≤ j ∧ flipped o y n j b)).
  - split; [lia|]. split; [done|]. intros j k Hj Hk. rewrite decide_True by lia. done.
  - intros j b Hj [_ Hf]. pose proof (proj1 Hf) as Hl. fold n.
    replace (j * x * target) with (j * n) by (unfold n; lia).
    replace ((y - 1 - j) * x * target) with ((y - j - 1) * n) by (unfold n; lia).
    eapply wp_mono; [apply swap_row_ok; [done|clear - Hj Hn; nia|clear - Hj Hn Hhalf; nia|rewrite Hl, Hol; clear - Hj Hn; nia]|].
    cbn beta. intros b' Hb'. split; [lia|]. by eapply flipped_step.
  - intros b [_ [Hl Hf]]. split; [done|]. intros r k Hr Hk. rewrite Hf by done. case_decide; [|done].
    replace (y - 1 - r) with r; [done|]. rewrite Z.max_r in * by (apply Z.div_pos; lia).
    pose proof (Z.div_mod y 2 ltac:(lia)). pose proof (Z.mod_pos_bound y 2 ltac:(lia)). lia.
Qed.
End pixels.

(** ** The file, there and back *)
Section file.
Context `{Env : StbiEnv} {Cb : Callbacks} {Sw : WriteSwitches} (data : list Z) (x y comp : Z).
Hypotheses (Hcomp : 1 ≤ comp ≤ 4) (Hx : 0 < x ≤ 2 ^ 24) (Hy : 0 < y ≤ 2 ^ 24) (Hdata : x * y * comp ≤ zlen data)
  (Hint : x * y * comp ≤ INT_MAX) (Hbytes : Forall is_byte data).
Hypothesis Hrich : ∀ n, 0 ≤ n < 2 ^ 32 → malloc_ok n = true.

Definition file_pixel (t i : Z) : list Z := bmp_pixel data comp ((file_row y t * x + i) * comp).

Definition channels (req : Z) : Z := if req =? 0 then (if comp =? 4 then 4 else 3) else req.

(** Channel [c] of the pixel at [d] of the image, as the decoder gives it. *)
Definition bmp_value (d c : Z) : Z :=
  if c =? 3 then (if comp =? 4 then data.[d + 3] else 255) else if comp <=? 2 then data.[d] else data.[d + c].

Lemma pixel_inside t i : 0 ≤ t < y → 0 ≤ i < x →
  0 ≤ (file_row y t * x + i) * comp ∧ (file_row y t * x + i) * comp + comp ≤ x * y * comp.
Proof using All.
  intros Ht Hi. pose proof (file_row_range y t Ht) as Hr. set (j := file_row y t) in *. clearbody j.
  assert (0 ≤ j * x + i ∧ j * x + i + 1 ≤ x * y) as [B1 B2] by (clear - Hr Hi Hx; split; nia).
  clear - B1 B2 Hcomp. split; nia.
Qed.

Lemma file_pixel_length t i : 0 ≤ t < y → 0 ≤ i < x → zlen (file_pixel t i) = if (if comp =? 4 then 2 else 1) =? 2 then 4 else 3.
Proof using All.
  intros Ht Hi. unfold file_pixel, bmp_pixel. destruct (Z.leb_spec comp 2); [by rewrite (proj2 (Z.eqb_neq comp 4)) by lia|].
  by destruct (comp =? 4).
Qed.

Lemma file_pixel_bytes t i : 0 ≤ t < y → 0 ≤ i < x → Forall is_byte (file_pixel t i).
Proof using All.
  intros Ht Hi. destruct (pixel_inside t i Ht Hi) as [B1 B2]. unfold file_pixel, bmp_pixel. set (d := (_ + i) * comp) in *. clearbody d.
  assert (∀ k, 0 ≤ k < comp → is_byte data.[d + k]) as Hk
    by (intros k Hk; eapply (Forall_lookup_1 _ _ _ _ Hbytes); apply znth_lookup; lia).
  pose proof (Hk 0 ltac:(lia)) as Hk0. rewrite Z.add_0_r in Hk0.
  destruct (Z.leb_spec comp 2); [by rewrite !Forall_cons|]. apply Forall_app. rewrite !Forall_cons. split.
  - split; [apply Hk; lia|]. split; [apply Hk; lia|done].
  - destruct (Z.eqb_spec comp 4); [|done]. apply Forall_singleton, Hk. lia.
Qed.

Lemma want_value t i c : 0 ≤ t < y → 0 ≤ i < x → 0 ≤ c < 4 →
  want (if comp =? 4 then 2 else 1) (file_pixel t i) c = bmp_value ((file_row y t * x + i) * comp) c.
Proof using All.
  intros Ht Hi Hc. unfold want, file_pixel, bmp_pixel, bmp_value. set (d := (_ + i) * comp). clearbody d.
  assert (comp = 1 ∨ comp = 2 ∨ comp = 3 ∨ comp = 4) as Hcs by lia. assert (c = 0 ∨ c = 1 ∨ c = 2 ∨ c = 3) as Hc' by lia.
  destruct Hcs as [->|[->|[->| ->]]], Hc' as [->|[->|[->| ->]]]; cbn -[lookup_total]; rewrite ?Z.add_0_r; done.
Qed.

Lemma direct_ok req s : (req = 0 ∨ req = 3 ∨ req = 4) → x * y * channels req ≤ INT_MAX → ∀ o, zlen o = x * y * channels req →
  has (bmp_rows data comp x y (file_row y)) s →
  awp_ok (direct_pixels (bmp_known comp) (channels req) x y o) s (λ r _, 0 < r.2 ∧ zlen r.1 = x * y * channels req ∧
    decoded_upto x (channels req) (if comp =? 4 then 2 else 1) file_pixel (y * x) r.1).
Proof using All.
  intros Hreq Hmax o Ho Hs. set (easy := if comp =? 4 then 2 else 1). set (target := channels req) in *.
  assert (target = 3 ∨ target = 4) as Htarget by (unfold target, channels; destruct (req =? 0) eqn:E; [destruct (comp =? 4); lia|lia]).
  unfold direct_pixels.
  assert (i32 (offset (bmp_known comp) - extra_read (bmp_known comp) - hsz (bmp_known comp)) = Ok 0) as ->
    by (unfold bmp_known; by destruct (comp =? 4)).
  awp_step. awp_step. cbn [wp]. awp_step. eapply (awp_ok_mono _ _ (λ _ s', s' = s)); [unfold stbi__skip; awp_step; awp_step; cbn [Z.eqb]; by awp_step|].
  cbn beta. intros _ ? ->. cbv zeta.
  match goal with |- context [Z.land (- ?w) 3] => assert (Z.land (- w) 3 = bmp_pad comp x) as -> end.
  { unfold bmp_known, bmp_pad. destruct (comp =? 4); cbn [bpp Z.eqb Pos.eqb]; [done|f_equal; lia]. }
  match goal with |- context [if bpp _ =? 24 then 1 else ?e] => assert ((if bpp (bmp_known comp) =? 24 then 1 else e) = easy) as ->
    by (unfold bmp_known, easy; by destruct (comp =? 4)) end.
  assert (easy = 1 ∨ easy = 2) as Heasy by (unfold easy; destruct (comp =? 4); lia).
  assert ((easy =? 0) = false) as E0 by lia. rewrite E0. cbn [andb negb].
  do 2 (awp_step; apply awp_ok_pass; [done|]). awp_step.
  pose proof (bmp_pad_range comp x) as Hpad.
  apply (awp_ok_for (λ t r s', zlen r.1.1 = x * y * target ∧ decoded_upto x target easy file_pixel (t * x) r.1.1 ∧
    r.1.2 = t * x * target ∧ 0 < r.2 ∧
    has (mjoin ((λ t, bmp_row data comp x (file_row y t) ++ replicate (Z.to_nat (bmp_pad comp x)) 0) <$> seqZ t (y - t))) s')).
  - cbn [fst snd]. split; [done|]. split; [intros t i c Ht Hi Hlt; clear - Hlt Ht Hi Hx; nia|]. split; [done|].
    split; [unfold bmp_known; by destruct (comp =? 4)|]. by rewrite Z.sub_0_r.
  - intros t [[o1 z] all1] s1 Ht. cbn [fst snd]. intros (Ho1 & Hd1 & -> & Ha1 & H1).
    rewrite seqZ_cons in H1 by lia. cbn [fmap list_fmap mjoin list_join] in H1. rewrite <- !app_assoc in H1.
    replace (Z.succ t) with (t + 1) in H1 by lia. replace (Z.pred (y - t)) with (y - (t + 1)) in H1 by lia.
    awp_step. eapply awp_ok_mono; [apply (row_easy_ok x y target easy file_pixel); try done; try lia|].
    + apply file_pixel_length.
    + apply file_pixel_bytes.
    + cbn beta. intros [[o2 z2] all2] s2. cbn [fst snd]. intros (Ho2 & Hd2 & -> & Ha2 & Hok2 & Hr2).
      awp_step. eapply awp_ok_mono; [apply stbi__skip_spec; [done|lia]|]. cbn beta. intros _ s3 (Hok3 & Hr3). awp_step. cbn [fst snd].
      split; [done|]. split; [done|]. split; [done|]. split; [done|]. split; [done|]. rewrite Hr3, Hr2.
      rewrite drop_app_ge by (rewrite length_replicate; lia). rewrite length_replicate, Nat.sub_diag. by rewrite drop_0.
  - intros [[o1 z] all1] s1. cbn [fst snd]. replace (Z.max 0 y) with y by lia. intros (Ho1 & Hd1 & _ & Ha1 & _).
    awp_step. done.
Qed.

Lemma bmp_load_ok req size s : (req = 0 ∨ req = 3 ∨ req = 4) → x * y * channels req ≤ INT_MAX → 0 ≤ size < 2 ^ 32 →
  standing 0 (bmp_head comp size x y ++ bmp_rows data comp x y (file_row y)) (dims s) s →
  awp_ok (stbi__bmp_load req) s (λ im _, (img_w im, img_h im, img_comp im) = (x, y, channels 0) ∧
    zlen (pixels im) = x * y * channels req ∧
    ∀ r i c, 0 ≤ r < y → 0 ≤ i < x → 0 ≤ c < channels req →
      (pixels im).[(r * x + i) * channels req + c] =
        bmp_value (((if stbi__flip_vertically_on_write then y - 1 - r else r) * x + i) * comp) c).
Proof using All.
  intros Hreq Hmax Hsize H. set (target := channels req) in *.
  assert (target = 3 ∨ target = 4) as Htarget by (unfold target, channels; destruct (req =? 0) eqn:E; [destruct (comp =? 4); lia|lia]).
  unfold stbi__bmp_load. awp_step. eapply awp_ok_mono; [apply (parse_header_ok comp size x y (bmp_rows data comp x y (file_row y)) (dims s) s Hsize); [lia|lia|exact H]|].
  cbn beta. clear H. intros ? s1 [-> (Hh & Hpos & Hd)]. awp_step. awp_step. cbv zeta. unfold dims in Hd. injection Hd as Ex Ey _ _.
  rewrite Ey, Ex. assert (sx 32 y = y) as -> by (unfold sx; rewrite Z.mod_small; lia).
  rewrite Z.abs_eq by lia. awp_step. awp_step. rewrite i32_ok by (c_unfold; lia). cbn [wp].
  awp_step. eapply (awp_ok_mono _ _ (λ _ s', has (bmp_rows data comp x y (file_row y)) s' ∧ position s' = head_length comp)).
  { unfold set_dims. awp_step. split; [exact Hh|exact Hpos]. }
  cbn beta. clear Hh Hpos. intros _ s2 [Hh Hpos]. unfold STBI_MAX_DIMENSIONS. do 2 (awp_step; apply awp_ok_pass; [lia|]).
  assert (palette_size (bmp_known comp) = Ok 0) as -> by (unfold palette_size, bmp_known; by destruct (comp =? 4)).
  awp_step. awp_step. cbn [wp Z.eqb]. awp_step.
  eapply (awp_ok_mono _ _ (λ _ s', s' = s2)).
  { unfold skip_to_pixels. awp_step. awp_step. cbv zeta. fold (position s2). rewrite Hpos.
    assert (offset (bmp_known comp) = head_length comp) as -> by (unfold bmp_known, head_length; by destruct (comp =? 4)).
    assert (0 < head_length comp ≤ 122) as Hhl by (unfold head_length; destruct (comp =? 4); lia).
    do 2 (awp_step; apply awp_ok_pass; [apply orb_false_iff; split; lia|]). rewrite Z.sub_diag. unfold stbi__skip.
    awp_step. awp_step. cbn [Z.eqb]. by awp_step. }
  cbn beta. intros _ ? ->.
  match goal with |- context [if (bpp _ =? 24) && ?c then 3 else ?e] => assert ((if (bpp (bmp_known comp) =? 24) && c then 3 else e) = channels 0) as ->
    by (unfold bmp_known, channels; by destruct (comp =? 4)) end.
  awp_step. awp_step. cbn beta.
  assert ((if negb (req =? 0) && (3 <=? req) then req else channels 0) = target) as ->
    by (unfold target, channels; destruct Hreq as [->|[->| ->]]; reflexivity).
  assert (has (bmp_rows data comp x y (file_row y)) (set_img x y (channels 0) (img_out_n s2) s2)) as H3 by exact Hh.
  set (s3 := set_img x y (channels 0) (img_out_n s2) s2) in *. clearbody s3.
  assert (0 ≤ target * x * y ∧ target * x ≤ x * y * target ∧ target * x * y = x * y * target) as (B1 & B2 & B3)
    by (clear - Htarget Hx Hy; repeat split; nia).
  destruct (malloc_mad_eq target x y 0 0) as (_ & Em & _); [c_unfold; lia..|]. rewrite Em.
  rewrite mad3sizes_valid_spec by (c_unfold; lia).
  assert (bool_decide (mad_fits 1 [target; x; y] 0) = true) as Efit
    by (apply bool_decide_eq_true; cbn [mad_fits]; rewrite !Z.mul_1_l; c_unfold; lia).
  awp_step. awp_step. cbn [wp]. awp_step. rewrite Efit. apply awp_ok_pass; [done|].
  unfold or_outofmem, block. rewrite Z.add_0_r. rewrite ?Efit.
  unfold stbi__malloc. rewrite Hrich by (c_unfold; lia). awp_step. awp_step. awp_step. cbn [wp]. awp_step.
  set (o := malloc_arr uninit (target * x * y)). assert (zlen o = x * y * target) as Ho by (unfold o; rewrite length_malloc; lia).
  assert ((bpp (bmp_known comp) <? 16) = false) as -> by (unfold bmp_known; by destruct (comp =? 4)).
  awp_step. eapply awp_ok_mono; [by apply (direct_ok req s3 Hreq Hmax o Ho)|]. cbn beta. intros [o1 all1] s4. cbn [fst snd].
  intros (Ha1 & Ho1 & Hd1). rewrite (proj2 (Z.eqb_neq all1 0)), andb_false_r by lia. awp_step. awp_step. cbn [wp].
  rewrite (proj2 (Z.ltb_lt 0 y)) by lia. awp_step. awp_step.
  eapply wp_mono; [apply (flip_rows_ok x y target ltac:(lia) ltac:(lia) Htarget o1 Ho1)|]. cbn beta. intros o2 [Ho2 Hf].
  assert (negb (req =? 0) && negb (req =? target) = false) as ->
    by (unfold target, channels; destruct Hreq as [->|[->| ->]]; reflexivity).
  awp_step. awp_step. awp_step. cbn [img_w img_h img_comp pixels]. split; [done|]. split; [lia|].
  intros r i c Hr Hi Hc.
  replace ((r * x + i) * target + c) with (r * (x * target) + (i * target + c)) by lia.
  rewrite Hf; [|done|clear - Hi Hc Htarget; nia].
  replace ((y - 1 - r) * (x * target) + (i * target + c)) with (((y - 1 - r) * x + i) * target + c) by lia.
  rewrite Hd1; [|lia|lia|clear - Hr Hi Hx; nia|done]. rewrite want_value by lia.
  unfold file_row. destruct stbi__flip_vertically_on_write; do 3 f_equal; lia.
Qed.

(** C5. A BMP file that [stbi_write_bmp_to_func] wrote comes back: for every image
    of up to 2^24 by 2^24 pixels with 1 to 4 channels whose file fits an [int],
    upright or flipped, the writer succeeds, and [stbi__bmp_load] on the bytes,
    from memory or through callbacks, gives the dimensions and every pixel in
    its place: grey spread to the three colours, colours as they were, alpha
    when there were four channels (even when all of it is 0) and opaque
    otherwise, in as many channels as the file has or as were asked for. *)
Theorem bmp_file_roundtrip : bmp_size comp x y ≤ INT_MAX → ∃ blocks,
  stbi_write_bmp_to_func x y comp data = Ok (Val true, blocks) ∧
  ∀ req s, (req = 0 ∨ req = 3 ∨ req = 4) → x * y * channels req ≤ INT_MAX →
    ctx_ok s → remaining s = mjoin blocks → position s = 0 →
    ∃ im s', stbi__bmp_load req s = Ok (Val im, s') ∧
      (img_w im, img_h im, img_comp im) = (x, y, channels 0) ∧ zlen (pixels im) = x * y * channels req ∧
      ∀ r i c, 0 ≤ r < y → 0 ≤ i < x → 0 ≤ c < channels req →
        (pixels im).[(r * x + i) * channels req + c] =
          bmp_value (((if stbi__flip_vertically_on_write then y - 1 - r else r) * x + i) * comp) c.
Proof using All.
  intros Hsize.
  assert (0 ≤ bmp_size comp x y) as Hs0.
  { unfold bmp_size. pose proof (bmp_pad_range comp x). destruct (comp =? 4); clear - Hx Hy H; nia. }
  destruct (awp_ok_elim _ _ _ (write_bmp_spec data x y comp Hcomp ltac:(lia) ltac:(lia) Hdata Hint stbi__start_write_callbacks
    Hsize start_wctx_ok eq_refl)) as (b & s' & E & -> & [_ Hst] & Hused).
  exists (sent s'). split; [unfold stbi_write_bmp_to_func, to_func; by rewrite E|].
  assert (mjoin (sent s') = bmp_head comp (bmp_size comp x y) x y ++ bmp_rows data comp x y (file_row y)) as Hfile.
  { unfold stream in Hst. rewrite Hused in Hst. change (Z.to_nat 0) with 0%nat in Hst. rewrite take_0, app_nil_r in Hst. by rewrite Hst. }
  intros req s Hreq Hmax Hok Hrem Hpos.
  destruct (awp_ok_elim _ _ _ (bmp_load_ok req (bmp_size comp x y) s Hreq Hmax ltac:(c_unfold; lia)
    ltac:(split; [split; [done|by rewrite Hrem, Hfile]|done]))) as (im & s1 & El & H).
  exists im, s1. split; [exact El|exact H].
Qed.
End file.

(** ** Concrete inputs

    Three by two pixels of colour: each row has three bytes of padding. *)
Section example.
Definition toy_picture : list Z := [10; 20; 30; 11; 21; 31; 12; 22; 32; 200; 100; 0; 201; 101; 1; 202; 102; 255].

Lemma bmp_file_roundtrip_witness : ∃ blocks,
  @stbi_write_bmp_to_func default_write_switches 3 2 3 toy_picture = Ok (Val true, blocks) ∧
  ∃ im s', @stbi__bmp_load toy_env 0 (@stbi__start_mem toy_env (mjoin blocks) (zlen (mjoin blocks))) = Ok (Val im, s') ∧
    (img_w im, img_h im, img_comp im) = (3, 2, 3) ∧ pixels im = toy_picture.
Proof.
  assert (∀ n, 0 ≤ n < 2 ^ 32 → @malloc_ok toy_env n = true) as Hrich by (intros n Hn; apply Z.ltb_lt; lia).
  assert (Forall is_byte toy_picture) as Hb by (unfold is_byte; apply (bool_decide_unpack _); vm_compute; exact I).
  destruct (@bmp_file_roundtrip toy_env toy_callbacks default_write_switches toy_picture 3 2 3
    ltac:(lia) ltac:(lia) ltac:(lia) ltac:(cbn; lia) ltac:(c_unfold; lia) Hb Hrich ltac:(vm_compute; discriminate)) as (blocks & E & H).
  exists blocks. split; [exact E|].
  destruct (@start_mem_ok toy_env toy_callbacks (mjoin blocks) (zlen (mjoin blocks)) (Z.le_refl _)) as [Hok Hrem].
  rewrite Nat2Z.id, take_ge in Hrem by lia.
  destruct (H 0 _ (or_introl eq_refl) ltac:(vm_compute; discriminate) Hok Hrem eq_refl) as (im & s' & El & Hd & Hl & Hp).
  exists im, s'. split; [exact El|]. split; [exact Hd|]. apply znth_ext; [change (zlen (pixels im) = 18) in Hl; cbn; lia|].
  intros k Hk. change (zlen (pixels im) = 18) in Hl. change (channels 3 0) with 3 in Hp. cbn [stbi__flip_vertically_on_write default_write_switches] in Hp.
  specialize (Hp (k / 9) (k mod 9 / 3) (k mod 3) ltac:(div_lia) ltac:(div_lia) ltac:(div_lia)).
  replace ((k / 9 * 3 + k mod 9 / 3) * 3 + k mod 3) with k in Hp by div_lia. rewrite Hp. unfold bmp_value.
  rewrite (proj2 (Z.eqb_neq (k mod 3) 3)) by div_lia. cbn [Z.leb Z.compare Pos.compare Pos.compare_cont]. f_equal. div_lia.
Defined.
End example.
