(* ===== verification/StbPngFile.v ===== *)
(** * stb_image and stb_image_write: PNG files there and back

    The decoder of stb_image on a file that [stb_image_write] wrote: the chunk
    loop reads the header, collects the data and decodes it, and the image is
    the one that was written. *)
From S2P Require Import Prelude StbMonad StbBase StbBaseSpec StbStream StbZlib StbPng StbPngSpec StbLoad.
From S2P Require Import StbZlibRun StbWriteZlib StbWriteZlibSpec StbWrite StbWritePng StbWritePngSpec.

(** ** The decoder's state over the bytes to come *)
Section reader.
Context `{Env : StbiEnv} {Cb : Callbacks} {Flags : Switches}.

(** The context of [p'] has [l] to come; nothing else of [p] has changed. *)
Definition moved (l : list Z) (p p' : stbi__png) : Prop := ∃ s,
  p' = set_s s p ∧ ctx_ok s ∧ remaining s = l ∧ dims s = dims (png_s p).
Definition at_bytes (l : list Z) (p : stbi__png) : Prop := ctx_ok (png_s p) ∧ remaining (png_s p) = l.

Lemma moved_at l p p' : moved l p p' → at_bytes l p'.
Proof. intros (s & -> & H1 & H2 & _). done. Qed.

Lemma moved_trans l1 l2 p p1 p2 : moved l1 p p1 → moved l2 p1 p2 → moved l2 p p2.
Proof.
  intros (s1 & -> & H1 & H2 & H3) (s2 & -> & H4 & H5 & H6). exists s2. split; [done|]. split; [done|].
  split; [done|]. by rewrite H6.
Qed.

(** The same of a context. *)
Definition went (l : list Z) (s s' : stbi__context) : Prop := ctx_ok s' ∧ remaining s' = l ∧ dims s' = dims s.

Lemma on_s_ok {A} (m : Act stbi__context A) l (P : A → Prop) p :
  awp_ok m (png_s p) (λ r s', P r ∧ went l (png_s p) s') → awp_ok (on_s m) p (λ r p', P r ∧ moved l p p').
Proof.
  intros H. unfold on_s. apply awp_zoom. eapply awp_ok_mono; [exact H|].
  cbn beta. intros r s [HP (H1 & H2 & H3)]. split; [done|]. by exists s.
Qed.

Lemma went_trans l1 l2 s s1 s2 : went l1 s s1 → went l2 s1 s2 → went l2 s s2.
Proof. intros (_ & _ & H) (H1 & H2 & H3). split; [done|]. split; [done|]. by rewrite H3. Qed.

Lemma get8_bytes b l s : ctx_ok s → remaining s = b :: l →
  awp_ok stbi__get8 s (λ r s', r = b ∧ went l s s').
Proof.
  intros Hok Hr. eapply awp_ok_mono; [apply awp_ok_dims; [apply get8_dims|by apply stbi__get8_spec]|].
  cbn beta. intros r s' ((Hok' & -> & Hr') & Hd). rewrite Hr in *. done.
Qed.

Lemma be32_value v l : 0 ≤ v < 2 ^ 32 → u32 (be_value 4 (be32 v ++ l)) = v.
Proof.
  intros Hv. unfold be32, be_value, u8. cbn [app seq foldl]. unfold bytes_at. cbn [lookup list_lookup default].
  rewrite !Z.shiftr_div_pow2 by lia. change (2 ^ 24) with 16777216. change (2 ^ 16) with 65536. change (2 ^ 8) with 256.
  unfold id. rewrite u32_small; Z.div_mod_to_equations; lia.
Qed.

Lemma get32_bytes v l s : 0 ≤ v < 2 ^ 32 → ctx_ok s → remaining s = be32 v ++ l →
  awp_ok stbi__get32be s (λ r s', r = v ∧ went l s s').
Proof.
  intros Hv Hok Hr. eapply awp_ok_mono; [apply awp_ok_dims; [apply get32be_dims|by apply get32_spec]|].
  cbn beta. intros r s' ((Hok' & -> & Hr') & Hd). rewrite Hr in *. split; [by apply be32_value|done].
Qed.

Lemma header_bytes v t l s : 0 ≤ v < 2 ^ 32 → 0 ≤ t < 2 ^ 32 → ctx_ok s → remaining s = be32 v ++ be32 t ++ l →
  awp_ok stbi__get_chunk_header s (λ r s', r = {| length_ := v; type := t |} ∧ went l s s').
Proof.
  intros Hv Ht Hok Hr. unfold stbi__get_chunk_header. awp_step.
  eapply awp_ok_mono; [by apply (get32_bytes v (be32 t ++ l))|]. intros r s1 (-> & Hw). pose proof Hw as (H1 & H2 & _).
  awp_step. eapply awp_ok_mono; [by apply (get32_bytes t l)|]. intros r s2 (-> & Hw2).
  awp_step. split; [done|]. by eapply went_trans.
Qed.

Lemma signature_bytes l s : ctx_ok s → remaining s = sig ++ l →
  awp_ok stbi__check_png_header s (λ _ s', went l s s').
Proof.
  intros Hok Hr. unfold stbi__check_png_header.
  apply (awp_ok_for (λ i _ s', went (drop (Z.to_nat i) sig ++ l) s s')).
  - done.
  - intros i _ s1 Hi Hw. pose proof Hw as (H1 & H2 & _).
    assert (drop (Z.to_nat i) sig = png_sig.[i] :: drop (Z.to_nat (i + 1)) sig) as E.
    { replace (Z.to_nat (i + 1)) with (S (Z.to_nat i)) by lia. apply drop_S. apply (znth_lookup png_sig). cbn. lia. }
    rewrite E in H2. awp_step. eapply awp_ok_mono; [by apply (get8_bytes (png_sig.[i]) (drop (Z.to_nat (i + 1)) sig ++ l))|].
    intros r s2 (-> & Hw2). awp_step. awp_step. rewrite rd_ok by (cbn; lia). cbn [wp].
    apply awp_ok_pass; [by rewrite Z.eqb_refl|]. by eapply went_trans.
  - intros _ s' H. exact H.
Qed.

Lemma read8 b l p : at_bytes (b :: l) p → awp_ok (on_s stbi__get8) p (λ r p', r = b ∧ moved l p p').
Proof. intros [Hok Hr]. apply (on_s_ok _ l (λ r, r = b)). by apply get8_bytes. Qed.

Lemma read32 v l p : 0 ≤ v < 2 ^ 32 → at_bytes (be32 v ++ l) p →
  awp_ok (on_s stbi__get32be) p (λ r p', r = v ∧ moved l p p').
Proof. intros Hv [Hok Hr]. apply (on_s_ok _ l (λ r, r = v)). by apply get32_bytes. Qed.

Lemma readn buf n w l p : 0 < n → n ≤ zlen buf → zlen w = n → at_bytes (w ++ l) p →
  awp_ok (on_s (stbi__getn buf 0 n)) p (λ r p', r = (w ++ drop (Z.to_nat n) buf, true) ∧ moved l p p').
Proof.
  intros Hn Hb Hw [Hok Hr]. unfold on_s. apply awp_zoom.
  eapply awp_ok_mono; [apply awp_ok_dims; [apply getn_dims|apply stbi__getn_spec; [done|lia..]]|].
  cbn beta. intros [r b] s ((Hok' & Hl & H) & Hd). rewrite Hr in *. rewrite length_app in H.
  destruct (H ltac:(lia)) as (H1 & H2 & H3). cbn in H1, H3. subst b r.
  split; [|exists s; split; [done|split; [done|split; [|done]]]].
  - rewrite take_app_length' by lia. by rewrite Z.add_0_l.
  - rewrite H2. apply drop_app_length'. lia.
Qed.

(** ** The chunks of a written file *)
Record ready (l : list Z) (x y n : Z) (data : option (list Z)) (p : stbi__png) : Prop := {
  r_at : at_bytes l p;
  r_x : img_x (png_s p) = x;
  r_y : img_y (png_s p) = y;
  r_n : img_n (png_s p) = n;
  r_depth : depth p = 8;
  r_data : idata p = data
}.

Lemma ready_moved l l' x y n data p p' : ready l x y n data p → moved l' p p' → ready l' x y n data p'.
Proof.
  intros [] (s & -> & H1 & H2 & H3). unfold dims in H3. injection H3 as E1 E2 E3 _.
  split; cbn; try congruence. done.
Qed.

(** The local variables behind the header. *)
Definition after_IHDR (n : Z) : png_vars :=
  {| palette := palette png_vars0; pal_img_n := 0; has_trans := false; tc := tc png_vars0; tc16 := tc16 png_vars0;
     ioff := 0; idata_limit := 0; pal_len := 0; first := false; interlace := 0; color := png_color n;
     is_iphone := false |}.

(** What the decoder accepts as dimensions. *)
Definition fits (x y n : Z) : Prop :=
  1 ≤ n ≤ 4 ∧ 0 < x ≤ 2 ^ 24 ∧ 0 < y ≤ 2 ^ 24 ∧ y * (x * n + 1) ≤ 2 ^ 28 - 8.

Lemma fits_not_too_large x y n s : fits x y n → img_x s = x → img_y s = y → too_large s n = false.
Proof using Type.
  intros (Hn & Hx & Hy & Hs) Ex Ey. unfold too_large. rewrite Ex, Ey. apply Z.ltb_ge.
  change (Z.shiftl 1 30) with (2 ^ 30). rewrite Z.div_div by lia. apply Z.div_le_lower_bound; [nia|]. nia.
Qed.

Lemma png_color_cases n : 1 ≤ n ≤ 4 →
  png_color n ≤ 6 ∧ png_color n ≠ 3 ∧ Z.testbit (png_color n) 0 = false ∧
  (if Z.testbit (png_color n) 1 then 3 else 1) + (if Z.testbit (png_color n) 2 then 1 else 0) = n.
Proof using Type. intros Hn. assert (n = 1 ∨ n = 2 ∨ n = 3 ∨ n = 4) as [->|[->|[->| ->]]] by lia; done. Qed.

Lemma IHDR_ok x y n l p : fits x y n → at_bytes (ihdr x y n ++ l) p →
  awp_ok (chunk_IHDR {| length_ := 13; type := TYPE_IHDR |} png_vars0) p (λ r p',
    r = Next (after_IHDR n) ∧ ready l x y n (idata p) p').
Proof.
  intros Hf Hat. pose proof Hf as (Hn & Hx & Hy & Hs). unfold ihdr in Hat. rewrite <- !app_assoc in Hat.
  destruct (png_color_cases n Hn) as (C6 & C3 & C0 & Cn).
  unfold chunk_IHDR. cbn [first png_vars0 length_ negb]. awp_step. apply awp_ok_pass; [done|].
  awp_step. apply awp_ok_pass; [done|].
  awp_step. eapply awp_ok_mono; [apply (read32 x); [lia|exact Hat]|]. clear Hat. intros r p1 (-> & s1 & -> & Hok1 & Hr1 & _).
  awp_step. awp_step.
  awp_step. eapply awp_ok_mono; [apply (read32 y); [lia|split; [exact Hok1|exact Hr1]]|].
  intros r p2 (-> & s2 & -> & Hok2 & Hr2 & _). awp_step. awp_step.
  awp_step. apply awp_ok_pass; [apply Z.ltb_ge; unfold STBI_MAX_DIMENSIONS; lia|].
  awp_step. apply awp_ok_pass; [apply Z.ltb_ge; unfold STBI_MAX_DIMENSIONS; lia|].
  cbn [app] in Hr2.
  awp_step. eapply awp_ok_mono; [apply (read8 8); split; [exact Hok2|exact Hr2]|].
  intros r p3 (-> & s3 & -> & Hok3 & Hr3 & Hd3). awp_step. awp_step. awp_step. apply awp_ok_pass; [done|].
  awp_step. eapply awp_ok_mono; [apply (read8 (png_color n)); split; [exact Hok3|exact Hr3]|].
  intros r p4 (-> & s4 & -> & Hok4 & Hr4 & Hd4).
  awp_step. apply awp_ok_pass; [apply Z.ltb_ge; lia|].
  rewrite (proj2 (Z.eqb_neq (png_color n) 3)) by done. rewrite C0. cbn [negb andb].
  awp_step. apply awp_ok_pass; [done|]. awp_step. apply awp_ok_pass; [done|].
  awp_step. eapply awp_ok_mono; [apply (read8 0); split; [exact Hok4|exact Hr4]|].
  intros r p5 (-> & s5 & -> & Hok5 & Hr5 & Hd5). awp_step. apply awp_ok_pass; [done|].
  awp_step. eapply awp_ok_mono; [apply (read8 0); split; [exact Hok5|exact Hr5]|].
  intros r p6 (-> & s6 & -> & Hok6 & Hr6 & Hd6). awp_step. apply awp_ok_pass; [done|].
  awp_step. eapply awp_ok_mono; [apply (read8 0); split; [exact Hok6|exact Hr6]|].
  intros r p7 (-> & s7 & -> & Hok7 & Hr7 & Hd7). awp_step. apply awp_ok_pass; [done|].
  awp_step. apply awp_ok_pass; [apply orb_false_iff; split; apply Z.eqb_neq; lia|].
  assert (dims s7 = (x, y, img_n s2, img_out_n s2)) as Hd by
    (etrans; [exact Hd7|]; etrans; [exact Hd6|]; etrans; [exact Hd5|]; etrans; [exact Hd4|exact Hd3]).
  injection Hd as Ex Ey _ _. change (pal_img_n png_vars0) with 0. change (0 =? 0) with true. cbv iota. rewrite Cn.
  awp_step. awp_step. awp_step. awp_step. awp_step.
  apply awp_ok_pass; [by apply (fits_not_too_large x y)|]. awp_step. split; [done|].
  split; cbn; done.
Qed.

Lemma skip32 v l p : at_bytes (be32 v ++ l) p → awp_ok (on_s stbi__get32be) p (λ _ p', moved l p p').
Proof.
  intros [Hok Hr]. eapply awp_ok_mono; [apply (on_s_ok _ l (λ _, True))|by intros ? ? [_ ?]].
  eapply awp_ok_mono; [apply awp_ok_dims; [apply get32be_dims|by apply get32_spec]|].
  cbn beta. intros r s' ((Hok' & _ & Hr') & Hd). rewrite Hr in *. done.
Qed.

Lemma chunk_start tag data l p : zlen data < 2 ^ 32 → zlen tag = 4 → at_bytes (png_chunk_bytes tag data ++ l) p →
  ∀ t, 0 ≤ t < 2 ^ 32 → tag = be32 t →
  awp_ok (on_s stbi__get_chunk_header) p (λ c p', c = {| length_ := zlen data; type := t |} ∧
    moved (data ++ be32 (crc32 (tag ++ data)) ++ l) p p').
Proof.
  intros Hd Htag [Hok Hr] t Ht Et. unfold png_chunk_bytes in Hr. rewrite <- !app_assoc in Hr.
  apply (on_s_ok _ _ (λ c, c = {| length_ := zlen data; type := t |})).
  rewrite Et in Hr at 1. apply header_bytes; done || lia.
Qed.

Lemma png_chunk_IHDR fuel scan req x y n l p : fits x y n →
  at_bytes (png_chunk_bytes tag_IHDR (ihdr x y n) ++ l) p →
  awp_ok (png_chunk fuel scan req png_vars0) p (λ r p', r = Next (after_IHDR n) ∧ ready l x y n (idata p) p').
Proof.
  intros Hf Hat. unfold png_chunk. awp_step.
  eapply awp_ok_mono; [apply (chunk_start tag_IHDR (ihdr x y n) l p) with (t := TYPE_IHDR); done|].
  intros c p1 (-> & Hm). change (zlen (ihdr x y n)) with 13. cbn [type].
  change (TYPE_IHDR =? TYPE_CgBI) with false. change (TYPE_IHDR =? TYPE_IHDR) with true. cbv iota.
  pose proof (moved_at _ _ _ Hm) as Hat1.
  awp_step. eapply awp_ok_mono; [apply (IHDR_ok x y n _ p1 Hf Hat1)|]. intros r p2 (-> & Hr).
  awp_step. eapply awp_ok_mono; [eapply skip32; apply Hr|]. intros u p3 Hm3. awp_step. split; [done|].
  replace (idata p) with (idata p1) by (by destruct Hm as (s & -> & _)).
  by eapply ready_moved.
Qed.

(** [z] is collected, with junk behind it. *)
Definition after_IDAT (n : Z) (z : list Z) (limit : Z) : png_vars := set_ioff (zlen z) limit (after_IHDR n).

Hypothesis Hrich : ∀ n, 0 ≤ n < 2 ^ 32 → malloc_ok n = true.
Hypothesis Huninit : ∀ i, is_byte (uninit i).

Lemma grow_limit_first len : 0 < len < 2 ^ 31 → grow_limit len len 0 = Ok (Z.max len 4096).
Proof using Type.
  clear. intros Hl. unfold grow_limit. change (0 =? 0) with true. cbv iota.
  assert ((if 4096 <? len then len else 4096) = Z.max len 4096) as -> by (destruct (Z.ltb_spec 4096 len); lia).
  cbn [loop]. rewrite (proj2 (Z.ltb_ge _ _)) by lia. done.
Qed.

Lemma png_chunk_IDAT fuel req x y n z l p : 0 < zlen z < 2 ^ 30 → ready (png_chunk_bytes tag_IDAT z ++ l) x y n None p →
  awp_ok (png_chunk fuel SCAN_load req (after_IHDR n)) p (λ r p', ∃ limit junk, r = Next (after_IDAT n z limit) ∧
    ready l x y n (Some (z ++ junk)) p' ∧ Forall is_byte junk).
Proof using Hrich Huninit.
  intros Hz Hrd. pose proof Hrd as [Hat _ _ _ _ Hd]. unfold png_chunk. awp_step.
  eapply awp_ok_mono; [apply (chunk_start tag_IDAT z l p) with (t := TYPE_IDAT); done || lia|].
  intros c p1 (-> & Hm). cbn [type].
  change (TYPE_IDAT =? TYPE_CgBI) with false. change (TYPE_IDAT =? TYPE_IHDR) with false.
  change (TYPE_IDAT =? TYPE_PLTE) with false. change (TYPE_IDAT =? TYPE_tRNS) with false.
  change (TYPE_IDAT =? TYPE_IDAT) with true. cbv iota.
  pose proof (ready_moved _ _ _ _ _ _ _ _ Hrd Hm) as Hr1. pose proof (moved_at _ _ _ Hm) as Hat1.
  pose proof Hr1 as [_ _ _ _ _ Hd1].
  awp_step. unfold chunk_IDAT. cbn [first after_IHDR pal_img_n ioff idata_limit length_ negb andb].
  awp_step. apply awp_ok_pass; [done|]. awp_step. apply awp_ok_pass; [done|].
  rewrite Z.add_0_l, (u32_small (zlen z)) by lia.
  awp_step. apply awp_ok_pass; [apply Z.ltb_ge; change (Z.shiftl 1 30) with (2 ^ 30); lia|].
  rewrite (sx_32_small (zlen z)), (sx_32_small 0) by lia.
  awp_step. apply awp_ok_pass; [apply Z.ltb_ge; lia|]. rewrite (proj2 (Z.ltb_lt 0 (zlen z))) by lia.
  set (limit := Z.max (zlen z) 4096). awp_step. awp_step. awp_step.
  rewrite grow_limit_first by lia. cbn [wp]. fold limit. rewrite Hrich by lia. awp_step. awp_step. awp_step.
  rewrite Hd1. cbn [default from_option id]. set (buf := malloc_arr uninit (limit - zlen [])).
  assert (zlen ([] ++ buf) = limit) as Hbl by (cbn [app]; unfold buf; rewrite length_malloc; cbn [length]; lia).
  awp_step. awp_step.
  awp_step. eapply awp_ok_mono; [apply (readn _ (zlen z) z (be32 (crc32 (tag_IDAT ++ z)) ++ l)); [lia| |done|]|].
  { change (zlen z ≤ zlen ([] ++ buf)). lia. } { split; apply Hat1. }
  intros r p2 (-> & s2 & -> & Hok2 & Hr2 & Hd2). awp_step. awp_step. awp_step. apply awp_ok_pass; [done|]. awp_step.
  awp_step. eapply awp_ok_mono; [eapply skip32; split; [exact Hok2|exact Hr2]|]. intros u p3 Hm3. awp_step.
  exists limit, (drop (Z.to_nat (zlen z)) buf). split; [done|].
  split; [|apply Forall_drop; unfold buf, malloc_arr; apply Forall_fmap, Forall_true; intros; apply Huninit].
  eapply ready_moved; [|exact Hm3]. destruct Hr1. unfold dims in Hd2. cbn in Hd2. injection Hd2 as E1 E2 E3 _.
  split; cbn; try congruence. done.
Qed.

(** The decoded picture. *)
Record decoded (x y n : Z) (pix : list Z) (p : stbi__png) : Prop := {
  d_out : out p = Some pix;
  d_x : img_x (png_s p) = x;
  d_y : img_y (png_s p) = y;
  d_n : img_n (png_s p) = n;
  d_out_n : img_out_n (png_s p) = n;
  d_depth : depth p = 8
}.

Section data.
Variables (x y n req : Z) (rows : list (Z * list Z)) (data bs junk : list Z) (blocks : list zblock) (fuel : nat).
Hypotheses (Hfits : fits x y n) (Hrows : png_rows rows n x y) (Hreq : req = 0 ∨ req = n)
  (Hdata : data = filter_rows n (replicate (Z.to_nat (x * n)) 0) rows) (Hlen : zlen data = y * (x * n + 1))
  (Hc : is_compressed data bs blocks) (Hne : blocks ≠ []) (Hbs : zlen bs ≤ stored_size (zlen data))
  (Hfuel : 8 * zlen data + 64 ≤ Z.of_nat fuel) (Hjunk : Forall is_byte junk).

Abbreviation z := (zlib_head ++ bs ++ adler_bytes data).
Abbreviation picture := (mjoin (snd <$> rows)).

Lemma image_decoded ex raw_len (p : stbi__png) : take (length data) ex = data → raw_len = zlen data →
  img_x (png_s p) = x → img_y (png_s p) = y → img_n (png_s p) = n →
  awp_ok (stbi__create_png_image ex raw_len n 8 (png_color n) 0) p
    (λ _ p', p' = set_out (Some picture) p).
Proof using All.
  intros Hex -> Ex Ey En. destruct Hfits as (Hn & Hx & Hy & Hs). assert (n ≤ x * n) by nia.
  assert (zlen data ≤ zlen ex) as Hle by (rewrite <- Hex, length_take; lia).
  unfold stbi__create_png_image. awp_step. awp_step. change (0 =? 0) with true. cbv iota. rewrite Ex, Ey.
  apply (create_raw_rows rows n x y 0 (png_color n) ex Hrows); [c_unfold; nia|lia|lia| |lia|done|c_unfold; nia|c_unfold; nia|..].
  - intros i Hi. rewrite <- Hdata, <- Hex, lookup_total_take, decide_True by lia. done.
  - apply Hrich. nia.
  - apply Hrich. nia.
Qed.

Lemma IEND_ok limit l p : ready (be32 (crc32 tag_IEND) ++ l) x y n (Some (z ++ junk)) p →
  awp_ok (chunk_IEND fuel SCAN_load req (after_IDAT n z limit)) p (λ _ p', decoded x y n picture p').
Proof using All.
  intros Hr. pose proof Hfits as (Hn & Hx & Hy & Hs). pose proof Hr as [Hat Ex Ey En Ed Edat]. assert (n ≤ x * n) by nia.
  assert (y ≤ y * (x * n + 1)) by nia.
  assert (stored_size (zlen data) ≤ 2 * zlen data + 10) as Hst by (unfold stored_size; Z.div_mod_to_equations; lia).
  assert (zlen z = 6 + zlen bs) as Hz by (rewrite !length_app; cbn [length zlib_head adler_bytes]; lia).
  unfold chunk_IEND. cbn [first after_IDAT set_ioff after_IHDR ioff is_iphone pal_img_n has_trans color interlace].
  awp_step. apply awp_ok_pass; [done|]. awp_step. awp_step. rewrite Edat, Ex, Ey, En, Ed. cbv zeta.
  rewrite (sx_32_small (zlen z)) by lia.
  assert (u32 (x * 8 + 7) / 8 = x) as -> by (rewrite u32_small by lia; Z.div_mod_to_equations; lia).
  assert (u32 (x * y * n + y) = zlen data) as -> by (rewrite u32_small; lia).
  rewrite (sx_32_small (zlen data)) by lia. cbn [negb].
  destruct (compressed_decodes Hrich data bs blocks (zlen data) fuel junk Hc Hne Hjunk) as (ex & Edec & Eex);
    [lia|lia|c_unfold; lia|lia|lia|].
  awp_step. awp_step. rewrite Edec. cbn [wp]. awp_step. awp_step. awp_step. awp_step.
  assert ((if (req =? n + 1) && negb (req =? 3) && (0 =? 0) || false then n + 1 else n) = n) as ->.
  { rewrite (proj2 (Z.eqb_neq req (n + 1))) by lia. done. }
  awp_step. awp_step. awp_step.
  eapply awp_ok_mono; [apply (image_decoded ex (zlen data)); done|]. intros u p1 ->.
  awp_step. awp_step. awp_step. cbn [andb]. awp_step. awp_step. change (negb (0 =? 0)) with false. cbv iota.
  awp_step. awp_step. awp_step. awp_step. eapply awp_ok_mono; [eapply (skip32 _ l); split; apply Hat|].
  intros u' p2 (s2 & -> & _ & _ & Hd). awp_step. unfold dims in Hd. cbn in Hd. rewrite Ex, Ey in Hd.
  injection Hd as E1 E2 E3 E4. split; cbn; done.
Qed.

Lemma png_chunk_IEND limit p : ready (png_chunk_bytes tag_IEND []) x y n (Some (z ++ junk)) p →
  awp_ok (png_chunk fuel SCAN_load req (after_IDAT n z limit)) p (λ r p', r = Return () ∧ decoded x y n picture p').
Proof using All.
  intros Hr. pose proof Hr as [Hat _ _ _ _ _]. rewrite <- (app_nil_r (png_chunk_bytes _ _)) in Hat. unfold png_chunk. awp_step.
  eapply awp_ok_mono; [apply (chunk_start tag_IEND [] [] p) with (t := TYPE_IEND); done|].
  intros c p1 (-> & Hm). cbn [type].
  change (TYPE_IEND =? TYPE_CgBI) with false. change (TYPE_IEND =? TYPE_IHDR) with false.
  change (TYPE_IEND =? TYPE_PLTE) with false. change (TYPE_IEND =? TYPE_tRNS) with false.
  change (TYPE_IEND =? TYPE_IDAT) with false. change (TYPE_IEND =? TYPE_IEND) with true. cbv iota.
  pose proof (ready_moved _ _ _ _ _ _ _ _ Hr Hm) as Hr1.
  awp_step. awp_step. eapply awp_ok_mono; [by apply (IEND_ok limit [])|]. intros u p2 Hd. awp_step. by awp_step.
Qed.

End data.

(** What the file holds. *)
Record png_content (x y n : Z) (rows : list (Z * list Z)) (data bs : list Z) (blocks : list zblock) : Prop := {
  pc_fits : fits x y n;
  pc_rows : png_rows rows n x y;
  pc_data : data = filter_rows n (replicate (Z.to_nat (x * n)) 0) rows;
  pc_len : zlen data = y * (x * n + 1);
  pc_comp : is_compressed data bs blocks;
  pc_ne : blocks ≠ [];
  pc_size : zlen bs ≤ stored_size (zlen data)
}.

Section file.
Variables (x y n req : Z) (rows : list (Z * list Z)) (data bs : list Z) (blocks : list zblock) (fuel : nat).
Hypotheses (Hpc : png_content x y n rows data bs blocks) (Hreq : req = 0 ∨ req = n)
  (Hfuel : 8 * zlen data + 64 ≤ Z.of_nat fuel).

Abbreviation z := (zlib_head ++ bs ++ adler_bytes data).
Abbreviation picture := (mjoin (snd <$> rows)).

Lemma parse_file_ok p : at_bytes (png_bytes x y n z) p →
  awp_ok (stbi__parse_png_file fuel SCAN_load req) p (λ _ p', decoded x y n picture p').
Proof using All.
  intros Hat. destruct Hpc as [Hf Hrows Hd Hl Hc Hne Hbs].
  assert (0 < zlen z < 2 ^ 30) as Hz.
  { assert (stored_size (zlen data) ≤ 2 * zlen data + 10) by (unfold stored_size; Z.div_mod_to_equations; lia).
    destruct Hf as (? & ? & ? & ?). rewrite !length_app. cbn [length zlib_head adler_bytes]. lia. }
  unfold stbi__parse_png_file. awp_step. awp_step.
  set (p0 := set_expanded None (set_idata None (set_out None p))).
  assert (at_bytes (png_bytes x y n z) p0) as [Hok Hr] by exact Hat.
  awp_step. eapply awp_ok_mono; [apply (on_s_ok _ (png_chunk_bytes tag_IHDR (ihdr x y n) ++
    png_chunk_bytes tag_IDAT z ++ png_chunk_bytes tag_IEND []) (λ _, True))|].
  { eapply awp_ok_mono; [by apply signature_bytes|]. done. }
  intros u p1 [_ Hm1]. pose proof (moved_at _ _ _ Hm1) as Hat1.
  assert (idata p1 = None) as Hid by (by destruct Hm1 as (s & -> & _)).
  destruct fuel as [|[|[|f]]] eqn:Ef; [lia..|]. rewrite <- Ef in *. rewrite Ef at 1. cbn [a_loop].
  awp_step. awp_step. eapply awp_ok_mono; [by apply png_chunk_IHDR|]. intros r p2 (-> & Hr2). rewrite Hid in Hr2.
  cbn beta iota. awp_step. eapply awp_ok_mono; [by apply png_chunk_IDAT|]. intros r p3 (limit & junk & -> & Hr3 & Hj).
  cbn beta iota. awp_step. eapply awp_ok_mono; [by apply (png_chunk_IEND x y n req rows data bs junk blocks)|].
  intros r p4 (-> & Hd4). cbn beta iota. awp_step. by awp_step.
Qed.

Definition the_image : Image :=
  {| pixels := picture; img_w := x; img_h := y; img_comp := n; img_bits := 8 |}.

Lemma png_load_ok s : ctx_ok s → remaining s = png_bytes x y n z →
  awp_ok (stbi__png_load fuel req) s (λ i _, i = the_image).
Proof using All.
  intros Hok Hr. destruct Hpc as [(Hn & _) _ _ _ _ _ _].
  assert (awp_ok (stbi__do_png fuel req) (new_png s) (λ i _, i = the_image)) as H.
  { unfold stbi__do_png. awp_step. apply awp_ok_pass; [apply orb_false_iff; split; apply Z.ltb_ge; lia|].
    awp_step. eapply awp_ok_mono; [by apply parse_file_ok|]. intros u p [Ho Ex Ey En Eo Ed].
    awp_step. awp_step. awp_step. rewrite Ed. apply awp_ok_pass; [done|].
    unfold the_out. awp_step. awp_step. awp_step. rewrite Ho. awp_step. awp_step. awp_step.
    change (8 <=? 8) with true. cbv iota. rewrite Eo, Ex, Ey, En.
    assert (negb (req =? 0) && negb (req =? n) = false) as ->.
    { destruct Hreq as [->| ->]; [done|]. rewrite Z.eqb_refl. apply andb_false_r. }
    awp_step. awp_step. by awp_step. }
  unfold stbi__png_load, with_png, awp_ok, awp in *. destruct (stbi__do_png fuel req (new_png s)) as [[o p]| |]; cbn in *; done.
Qed.
End file.
End reader.

(** ** From memory *)
Section memory.
Context `{Env : StbiEnv} {Cb : Callbacks} {Flags : Switches}.

(** The test for the signature leaves a memory context as it was. *)
Lemma png_test_memory buffer len l : zlen buffer = len → buffer = sig ++ l →
  stbi__png_test (stbi__start_mem buffer len) = Ok (Val true, stbi__start_mem buffer len).
Proof.
  intros Hlen E. set (s0 := stbi__start_mem buffer len).
  assert (awp_ok stbi__check_png_header s0 (λ _ s, s = set_img_buffer 8 s0)) as H.
  { unfold stbi__check_png_header. apply (awp_ok_for (λ i _ s, s = set_img_buffer i s0)); [done| |done].
    intros i _ s Hi ->. assert (8 ≤ len) by (rewrite <- Hlen, E, length_app; cbn [length sig]; lia).
    awp_step. unfold stbi__get8. awp_step. awp_step. cbn [img_buffer img_buffer_end set_img_buffer s0 stbi__start_mem].
    rewrite (proj2 (Z.ltb_lt _ _)) by lia. unfold next_byte. awp_step. awp_step. awp_step. awp_step. unfold pointed.
    cbn [io memory img_buffer set_img_buffer s0 stbi__start_mem]. rewrite rd_ok by lia. cbn [wp].
    awp_step. awp_step. awp_step. awp_step. awp_step. rewrite rd_ok by (cbn; lia). cbn [wp].
    apply awp_ok_pass; [|done]. rewrite E, lookup_total_app_l by (cbn; lia). by rewrite Z.eqb_refl. }
  apply awp_ok_elim in H as (u & s & E1 & ->). unfold stbi__png_test, attempt, mbind, Act_bind.
  rewrite E1. done.
Qed.

Lemma load_memory fuel req buffer len l i : zlen buffer = len → buffer = sig ++ l →
  is_on stbi__vertically_flip_on_load = false → img_bits i = 8 →
  awp_ok (stbi__png_load fuel req) (stbi__start_mem buffer len) (λ i' _, i' = i) →
  stbi_load_from_memory fuel buffer len req = Ok (Val i).
Proof.
  intros Hlen E Hflip Hbits H. unfold stbi_load_from_memory, from_memory.
  assert (awp_ok (stbi__load_and_postprocess_8bit fuel req) (stbi__start_mem buffer len) (λ i' _, i' = i)) as H'.
  { unfold stbi__load_and_postprocess_8bit, stbi__load_main. awp_step. awp_step.
    unfold awp_ok at 1, awp. rewrite (png_test_memory buffer len l Hlen E). cbn [wp fst snd].
    eapply awp_ok_mono; [exact H|]. intros i' s ->. unfold assert_depth. rewrite Hbits.
    awp_step. cbn [orb negb Z.eqb Pos.eqb]. awp_step. awp_step. awp_step. unfold flip_on_load. rewrite Hflip. by awp_step. }
  apply awp_ok_elim in H' as (i' & s & -> & ->). done.
Qed.
End memory.

(** ** There and back *)

(** The rows of the image, in the order of the file. *)
Definition written_pixels {Sw : WriteSwitches} (pixels : list Z) (base stride x y n : Z) : list Z :=
  mjoin (img_row pixels base (the_stride stride x n) x y n <$> seqZ 0 y).

Lemma written_rows {Sw : WriteSwitches} pixels base stride x y n fs : zlen fs = y →
  mjoin (snd <$> with_filters pixels base (the_stride stride x n) x y n fs) = written_pixels pixels base stride x y n.
Proof.
  intros Hf. unfold written_pixels, with_filters. f_equal. apply list_eq. intros i.
  rewrite !list_lookup_fmap, list_lookup_imap. destruct (decide (Z.of_nat i < y)).
  - rewrite lookup_seqZ_lt by lia. destruct (lookup_lt_is_Some_2 fs i ltac:(lia)) as [f ->]. done.
  - rewrite lookup_seqZ_ge, lookup_ge_None_2 by lia. done.
Qed.

(** Without strides and flips that is the array. *)
Lemma concat_windows (pixels : list Z) w : 0 ≤ w → ∀ k (lo : nat), (Z.of_nat lo + Z.of_nat k) * w ≤ zlen pixels →
  mjoin ((λ j, window pixels (w * j) (w * j + w)) <$> seqZ (Z.of_nat lo) (Z.of_nat k)) =
    window pixels (w * Z.of_nat lo) (w * (Z.of_nat lo + Z.of_nat k)).
Proof.
  intros Hw k. induction k as [|k IH]; intros lo Hl.
  - rewrite window_nil by lia. done.
  - rewrite seqZ_cons by lia. replace (Z.pred (Z.of_nat (S k))) with (Z.of_nat k) by lia.
    replace (Z.succ (Z.of_nat lo)) with (Z.of_nat (S lo)) by lia. cbn [fmap list_fmap]. unfold mjoin at 1. cbn [list_join].
    fold (mjoin (M := list) (A := Z)). rewrite IH by lia. unfold window.
    replace (Z.to_nat (w * (Z.of_nat lo + Z.of_nat (S k)) - w * Z.of_nat lo))
      with (Z.to_nat (w * Z.of_nat lo + w - w * Z.of_nat lo) +
            Z.to_nat (w * (Z.of_nat (S lo) + Z.of_nat k) - w * Z.of_nat (S lo)))%nat by nia.
    rewrite <- take_take_drop. do 2 f_equal. rewrite drop_drop. f_equal. nia.
Qed.

Lemma written_whole {Sw : WriteSwitches} pixels x y n : stbi__flip_vertically_on_write = false → 0 < x → 0 < y → 0 < n →
  zlen pixels = x * y * n → written_pixels pixels 0 0 x y n = pixels.
Proof.
  intros Hf Hx Hy Hn Hl. unfold written_pixels, the_stride. change (0 =? 0) with true. cbv iota.
  transitivity (mjoin ((λ j, window pixels (x * n * j) (x * n * j + x * n)) <$> seqZ (Z.of_nat 0) (Z.of_nat (Z.to_nat y)))).
  { f_equal. rewrite Z2Nat.id by lia. apply list_fmap_ext. intros i j _. unfold img_row, row_start. by rewrite Hf. }
  rewrite concat_windows by nia. rewrite Z2Nat.id by lia. cbn [Z.of_nat]. rewrite Z.mul_0_r, Z.add_0_l.
  unfold window. rewrite Z.sub_0_r. change (Z.to_nat 0) with 0%nat. rewrite drop_0. apply take_ge. lia.
Qed.

Section roundtrip.
Context `{Env : StbiEnv} {Cb : Callbacks} {Flags : Switches} {Sw : WriteSwitches} {S : Type}.
Hypotheses (Hrich : ∀ n, 0 ≤ n < 2 ^ 32 → malloc_ok n = true) (Huninit : ∀ i, is_byte (uninit i)).

Lemma png_of_content pixels base stride x y n out : png_source pixels base stride x y n → x ≤ 2 ^ 24 → y ≤ 2 ^ 24 →
  is_png_of pixels base stride x y n out →
  ∃ rows data bs blocks, png_content x y n rows data bs blocks ∧ zlen data = y * (x * n + 1) ∧
    out = png_bytes x y n (zlib_head ++ bs ++ adler_bytes data) ∧
    mjoin (snd <$> rows) = written_pixels pixels base stride x y n.
Proof using Type.
  intros [Hpix Hn Hx Hy Hsize Hst Hoff Hin Hlev Hest] Hx24 Hy24 (fs & bs & blocks & Hfs & Hr & Hc & Hne & Hbs & Hl & ->).
  exists (with_filters pixels base (the_stride stride x n) x y n fs), (filtered_data pixels base stride x y n fs), bs, blocks.
  split; [|split; [done|split; [done|by apply written_rows]]].
  split; try done.
  assert (length (with_filters pixels base (the_stride stride x n) x y n fs) = length fs) as Hlw
    by (unfold with_filters; by rewrite length_imap).
  split; [done|done|by rewrite Hlw|]. apply Forall_lookup. intros i r Hi. unfold with_filters in Hi.
  rewrite list_lookup_imap in Hi. destruct (fs !! i) as [f|] eqn:E; [|done]. injection Hi as <-. cbn [fst snd].
  pose proof (lookup_lt_Some _ _ _ E). split; [by apply (Forall_lookup_1 _ _ _ _ Hr E)|].
  split; [|by apply img_row_byte]. apply img_row_length; try done. lia.
Qed.

(** C1. An image written as PNG and loaded again is the same image: with memory to
    spare, [stbi_write_png_to_mem] succeeds on every image of one to four channels
    that has its rows inside the array (up to 2^28 - 8 filtered bytes), with any
    stride, upright or flipped, any filter setting and compression level; and
    [stbi_load_from_memory], asked for the channels it has, gives its rows, its
    dimensions and 8 bits per channel. *)
Theorem png_file_roundtrip pixels base stride x y n (s : S) : png_source pixels base stride x y n →
  x ≤ 2 ^ 24 → y ≤ 2 ^ 24 →
  ∃ png s', stbi_write_png_to_mem pixels base stride x y n s = Ok (Val png, s') ∧
  ∀ fuel req, req = 0 ∨ req = n → 8 * (y * (x * n + 1)) + 64 ≤ Z.of_nat fuel →
    is_on stbi__vertically_flip_on_load = false →
    stbi_load_from_memory fuel png (zlen png) req =
      Ok (Val {| pixels := written_pixels pixels base stride x y n;
                 img_w := x; img_h := y; img_comp := n; img_bits := 8 |}).
Proof using Cb Hrich Huninit.
  intros Hsrc Hx Hy. destruct (awp_ok_elim _ _ _ (write_png_spec Hrich pixels base stride x y n s Hsrc)) as (png & s' & E & Hpng).
  destruct (png_of_content pixels base stride x y n png Hsrc Hx Hy Hpng) as (rows & data & bs & blocks & Hpc & Hl & Ep & Epix).
  exists png, s'. split; [exact E|]. intros fuel req Hreq Hfuel Hflip.
  apply (load_memory fuel req png (zlen png) (png_chunk_bytes tag_IHDR (ihdr x y n) ++
    png_chunk_bytes tag_IDAT (zlib_head ++ bs ++ adler_bytes data) ++ png_chunk_bytes tag_IEND []));
    [done|by rewrite Ep|done|done|].
  destruct (start_mem_ok png (zlen png) ltac:(lia)) as [Hok Hrem]. rewrite Nat2Z.id, take_ge in Hrem by lia.
  eapply awp_ok_mono; [apply (png_load_ok Hrich Huninit x y n req rows data bs blocks fuel Hpc Hreq)|].
  { lia. } { done. } { by rewrite Hrem. }
  intros i s1 ->. unfold the_image. by rewrite Epix.
Qed.

(** The file is a well-formed PNG: the signature, then the IHDR, IDAT and IEND
    chunks, each with its length and with the CRC-32 of the specification over its
    tag and data; IDAT holds a zlib stream of the rows, every row filtered by one
    of the five filters, within the bound of the stored form. *)
Theorem png_file_wellformed pixels base stride x y n (s : S) : png_source pixels base stride x y n →
  ∃ z s', stbi_write_png_to_mem pixels base stride x y n s =
      Ok (Val (sig ++ png_chunk_bytes tag_IHDR (ihdr x y n) ++ png_chunk_bytes tag_IDAT z ++
               png_chunk_bytes tag_IEND []), s') ∧
    zlen z ≤ 6 + stored_size (y * (x * n + 1)) ∧
    ∃ fs, zlen fs = y ∧ Forall (λ f, 0 ≤ f ≤ 4) fs ∧
      ∀ fuel, 8 * (y * (x * n + 1)) + 64 ≤ Z.of_nat fuel → ∃ raw,
        stbi_zlib_decode_malloc_guesssize_headerflag fuel z (zlen z) 16384 true =
          Ok (Val (raw, y * (x * n + 1))) ∧
        take (Z.to_nat (y * (x * n + 1))) raw = filtered_data pixels base stride x y n fs.
Proof using Hrich.
  intros Hsrc. destruct (awp_ok_elim _ _ _ (write_png_spec Hrich pixels base stride x y n s Hsrc))
    as (png & s' & E & fs & bs & blocks & Hfs & Hr & Hc & Hne & Hbs & Hl & ->).
  set (data := filtered_data pixels base stride x y n fs) in *.
  destruct Hsrc as [_ _ Hx Hy Hsize _ _ _ _ _].
  assert (stored_size (zlen data) ≤ 2 * zlen data + 10) as Hs by (unfold stored_size; Z.div_mod_to_equations; lia).
  exists (zlib_head ++ bs ++ adler_bytes data), s'. split; [exact E|]. rewrite <- Hl. split.
  { rewrite !length_app. cbn [length zlib_head adler_bytes]. lia. }
  exists fs. split; [done|]. split; [done|]. intros fuel Hfuel.
  pose proof (compressed_decodes Hrich data bs blocks 16384 fuel [] Hc Hne) as H. cbv zeta in H. rewrite app_nil_r in H.
  destruct H as (raw & H1 & H2); [done|lia|lia|c_unfold; lia|lia|lia|].
  exists raw. split; [exact H1|]. by rewrite Nat2Z.id.
Qed.
End roundtrip.

(** A picture of two by two pixels of three channels, with the default settings. *)
Definition toy_pixels : list Z := [10; 20; 30; 11; 21; 31; 12; 22; 32; 200; 100; 0].

Lemma toy_source : @png_source default_write_switches toy_pixels 0 0 2 2 3.
Proof.
  split; try (cbn; c_unfold; lia).
  - repeat constructor; lia.
  - intros j Hj. unfold row_start. change (the_stride 0 2 3) with 6.
    change (@stbi__flip_vertically_on_write default_write_switches) with false. change (zlen toy_pixels) with 12. lia.
Qed.

Lemma toy_uninit i : is_byte (@uninit toy_env i).
Proof. cbn. unfold is_byte. lia. Qed.

Lemma png_file_roundtrip_witness : ∃ png,
  @stbi_write_png_to_mem toy_env default_write_switches unit toy_pixels 0 0 2 2 3 () = Ok (Val png, ()) ∧
  @stbi_load_from_memory toy_env switches_default 200 png (zlen png) 3 =
    Ok (Val {| pixels := toy_pixels; img_w := 2; img_h := 2; img_comp := 3; img_bits := 8 |}).
Proof.
  destruct (@png_file_roundtrip toy_env toy_callbacks switches_default default_write_switches unit toy_rich toy_uninit
    toy_pixels 0 0 2 2 3 () toy_source ltac:(lia) ltac:(lia)) as (png & [] & E & H).
  exists png. split; [exact E|]. specialize (H 200%nat 3 ltac:(by right) ltac:(lia) eq_refl). exact H.
Defined.

Lemma png_file_wellformed_witness : ∃ z,
  @stbi_write_png_to_mem toy_env default_write_switches unit toy_pixels 0 0 2 2 3 () =
    Ok (Val (sig ++ png_chunk_bytes tag_IHDR (ihdr 2 2 3) ++ png_chunk_bytes tag_IDAT z ++
             png_chunk_bytes tag_IEND []), ()).
Proof.
  destruct (@png_file_wellformed toy_env default_write_switches unit toy_rich toy_pixels 0 0 2 2 3 () toy_source)
    as (z & [] & E & _). exists z. exact E.
Defined.
