(* ===== verification/Runtime.v ===== *)
(** * The KeuOS runtime substrate (keuos_rt/keuos_rt.c)

    The bump arena, the deadline register and the kqueue wrappers.  The
    16 GB reservation is one block: [arena_base] is its address once [mmap] has
    been called, and [arena_ptr] an offset in it.  What the kernel does is the
    class [Kernel]; [mlock] only pins pages and is not modelled. *)
From S2P Require Import Prelude.

Definition ARENA_SIZE : Z := 16 * 1024 * 1024 * 1024.
Definition ARENA_ALIGN : Z := 64.

(** A kevent: the fields the wrappers set or pass on. *)
Record kevent_t := { ident : Z; filter : Z; flags : Z; udata : Z }.

Class Kernel := {
  kernel : Type;
  (** [MAP_ANON] reservation of that many bytes: the address, [None] for [MAP_FAILED] *)
  mmap : kernel → Z → option Z * kernel;
  kqueue : kernel → Z * kernel;
  (** [kevent(kq, changes, nevents)]: result and events; [None] blocks for ever *)
  kevent : kernel → Z → list kevent_t → Z → Z * list kevent_t * kernel;
  sys_close : kernel → Z → kernel
}.

Section runtime.
Context `{K : Kernel}.

Record Rt := {
  arena_base : option Z; arena_ptr : Z; kq_fd : Z; x19 : Z; os : kernel
}.

(** The static initialisers. *)
Definition rt_start (k : kernel) : Rt :=
  {| arena_base := None; arena_ptr := 0; kq_fd := -1; x19 := 0; os := k |}.

Definition set_arena (base : option Z) (off : Z) (k : kernel) (r : Rt) : Rt :=
  {| arena_base := base; arena_ptr := off; kq_fd := kq_fd r; x19 := x19 r; os := k |}.
Definition set_kq (fd : Z) (k : kernel) (r : Rt) : Rt :=
  {| arena_base := arena_base r; arena_ptr := arena_ptr r; kq_fd := fd; x19 := x19 r; os := k |}.

(** [(size + (ARENA_ALIGN - 1)) & ~(ARENA_ALIGN - 1)] *)
Definition arena_round (size : Z) : Z :=
  Z.land (u64 (size + (ARENA_ALIGN - 1))) (2 ^ 64 - 1 - (ARENA_ALIGN - 1)).

(** The lazy reservation; the result of [mmap] is not tested, so a failure
    leaves a pointer that no arithmetic is defined on. *)
Definition arena_init (r : Rt) : Res Rt :=
  match arena_base r with
  | Some _ => Ok r
  | None =>
      match mmap (os r) ARENA_SIZE with
      | (Some a, k) => Ok (set_arena (Some a) 0 k r)
      | (None, _) => Undef
      end
  end.

(** The offset handed out.  A bump past the end of the block is undefined. *)
Definition isolated_arena_alloc (size : Z) (r : Rt) : Res (Z * Rt) :=
  r ← arena_init r;
  let off := arena_ptr r + arena_round size in
  if off <=? ARENA_SIZE
  then Ok (arena_ptr r, set_arena (arena_base r) off (os r) r)
  else Undef.

Definition isolated_arena_reset (r : Rt) : Rt := set_arena (arena_base r) 0 (os r) r.

(** [mov x19, #-1] *)
Definition salt_init_x19 (r : Rt) : Rt :=
  {| arena_base := arena_base r; arena_ptr := arena_ptr r; kq_fd := kq_fd r; x19 := 2 ^ 64 - 1;
     os := os r |}.

(** ** kqueue *)
Definition EVFILT_READ : Z := -1.
Definition EV_ADD : Z := 1.
Definition EV_ENABLE : Z := 4.

Definition salt_kqueue_init (r : Rt) : Z * Rt :=
  let '(fd, k) := kqueue (os r) in (fd, set_kq fd k r).

Definition salt_kqueue_submit (sock_fd conn_ptr : Z) (r : Rt) : Z * Rt :=
  let ev := {| ident := sock_fd; filter := EVFILT_READ; flags := Z.lor EV_ADD EV_ENABLE;
               udata := conn_ptr |} in
  let '(n, _, k) := kevent (os r) (kq_fd r) [ev] 0 in (n, set_kq (kq_fd r) k r).

Definition salt_kqueue_reap (max_events : Z) (r : Rt) : Z * list kevent_t * Rt :=
  let '(n, evs, k) := kevent (os r) (kq_fd r) [] max_events in (n, evs, set_kq (kq_fd r) k r).

Definition salt_kqueue_teardown (r : Rt) : Rt := set_kq (-1) (sys_close (os r) (kq_fd r)) r.

(** [_start]: the launcher runs with the deadline register primed; the exit
    status is 0 whatever it does. *)
Definition rt_main (launcher : Rt → Res Rt) (r : Rt) : Res (Z * Rt) :=
  r ← launcher (salt_init_x19 r); Ok (0, r).

(** ** Runs of allocations *)
Fixpoint arena_allocs (sizes : list Z) (r : Rt) : Res (list Z * Rt) :=
  match sizes with
  | [] => Ok ([], r)
  | size :: sizes =>
      '(a, r) ← isolated_arena_alloc size r;
      '(rest, r) ← arena_allocs sizes r;
      Ok (a :: rest, r)
  end.

(** The bytes a run takes. *)
Fixpoint arena_total (sizes : list Z) : Z :=
  match sizes with [] => 0 | size :: sizes => arena_round size + arena_total sizes end.

(** The blocks, in order: each starts where the previous one ends, rounded. *)
Fixpoint arena_layout (off : Z) (sizes : list Z) : list Z :=
  match sizes with [] => [] | size :: sizes => off :: arena_layout (off + arena_round size) sizes end.

Lemma arena_round_eq size : 0 ≤ size < 2 ^ 64 - 63 →
  arena_round size = (size + 63) / 64 * 64.
Proof using Type.
  intros Hs. unfold arena_round, ARENA_ALIGN. rewrite u64_small by lia.
  replace (2 ^ 64 - 1 - (64 - 1)) with (Z.shiftl (Z.ones 58) 6) by reflexivity.
  apply Z.bits_inj'. intros n Hn. rewrite Z.land_spec.
  change 64 with (2 ^ 6). rewrite <- Z.shiftl_mul_pow2, <- Z.shiftr_div_pow2 by lia.
  destruct (Z.ltb_spec n 6).
  - rewrite !Z.shiftl_spec_low by lia. by rewrite andb_false_r.
  - rewrite !Z.shiftl_spec_high, Z.shiftr_spec by lia.
    replace (n - 6 + 6) with n by lia.
    destruct (Z.ltb_spec n 64).
    + rewrite Z.ones_spec_low by lia. by rewrite andb_true_r.
    + rewrite Z.ones_spec_high, andb_false_r by lia. symmetry. apply Z.bits_above_log2; [lia|].
      destruct (decide (size + 63 = 0)) as [->|]; [cbn; lia|].
      apply Z.log2_lt_pow2; [lia|]. apply Z.lt_le_trans with (2 ^ 64); [lia|].
      by apply Z.pow_le_mono_r.
Qed.

Lemma arena_round_bounds size : 0 ≤ size < 2 ^ 64 - 63 →
  size ≤ arena_round size < size + 64 ∧ (64 | arena_round size).
Proof using Type.
  intros Hs. rewrite arena_round_eq by done.
  pose proof (Z.div_mod (size + 63) 64 ltac:(lia)).
  pose proof (Z.mod_pos_bound (size + 63) 64 ltac:(lia)).
  split; [lia|]. exists ((size + 63) / 64). lia.
Qed.

Lemma arena_total_nonneg sizes : Forall (λ s, 0 ≤ s < 2 ^ 64 - 63) sizes → 0 ≤ arena_total sizes.
Proof using Type.
  induction 1 as [|s l Hs _ IH]; cbn [arena_total]; [lia|].
  pose proof (arena_round_bounds s Hs). lia.
Qed.

Lemma arena_allocs_ok sizes r a :
  arena_base r = Some a → Forall (λ s, 0 ≤ s < 2 ^ 64 - 63) sizes →
  arena_ptr r + arena_total sizes ≤ ARENA_SIZE →
  arena_allocs sizes r
  = Ok (arena_layout (arena_ptr r) sizes,
        set_arena (Some a) (arena_ptr r + arena_total sizes) (os r) r).
Proof using Type.
  revert r. induction sizes as [|s l IH]; intros r Hb HF Ht; cbn [arena_allocs arena_total arena_layout] in *.
  { rewrite Z.add_0_r. unfold set_arena. destruct r; cbn in *. by subst. }
  inversion HF as [|? ? Hs HF']; subst. pose proof (arena_total_nonneg l HF').
  unfold isolated_arena_alloc, arena_init. rewrite Hb. cbn [mbind Res_bind].
  destruct (Z.leb_spec (arena_ptr r + arena_round s) ARENA_SIZE); [|lia]. cbn [mbind Res_bind].
  rewrite IH; [|done|done|cbn [set_arena arena_ptr]; lia]. cbn [mbind Res_bind set_arena arena_ptr].
  do 2 f_equal. unfold set_arena; cbn. f_equal. lia.
Qed.

(** Consecutive blocks are aligned and do not overlap. *)
Lemma arena_layout_spec off sizes i j ai aj si sj :
  Forall (λ s, 0 ≤ s < 2 ^ 64 - 63) sizes → (64 | off) →
  (i < j)%nat → arena_layout off sizes !! i = Some ai → arena_layout off sizes !! j = Some aj →
  sizes !! i = Some si → sizes !! j = Some sj →
  off ≤ ai ∧ (64 | ai) ∧ (64 | aj) ∧ ai + si ≤ aj ∧ aj + sj ≤ off + arena_total sizes.
Proof using Type.
  revert off i j. induction sizes as [|s l IH]; intros off i j HF Hd Hij Hi Hj Hsi Hsj; [done|].
  inversion HF as [|? ? Hs HF']; subst. cbn [arena_layout arena_total] in *.
  destruct (arena_round_bounds s Hs) as [Hr Hr64].
  assert (Hd' : (64 | off + arena_round s)) by by apply Z.divide_add_r.
  destruct j as [|j]; [lia|]. cbn in Hj, Hsj.
  assert (Haj : off + arena_round s ≤ aj ∧ (64 | aj) ∧
            aj + sj ≤ off + arena_round s + arena_total l).
  { clear -Hj Hsj HF' Hd'. revert Hj Hsj Hd'. generalize (off + arena_round s) as o. revert j.
    induction HF' as [|t l Ht HF IH]; intros j o Hj Hsj Hd; [done|].
    cbn [arena_layout arena_total] in *. destruct (arena_round_bounds t Ht) as [Hr Hr64].
    pose proof (arena_total_nonneg l HF).
    destruct j as [|j]; cbn in Hj, Hsj.
    - injection Hj as <-. injection Hsj as <-. split; [lia|]. split; [done|]. lia.
    - destruct (IH j (o + arena_round t) Hj Hsj) as (H1 & H2 & H3);
        [by apply Z.divide_add_r|]. split; [lia|]. split; [done|]. lia. }
  destruct Haj as (Ha1 & Ha2 & Ha3).
  destruct i as [|i]; cbn in Hi, Hsi.
  - injection Hi as <-. injection Hsi as <-. repeat split; try done; lia.
  - destruct (IH (off + arena_round s) i j HF' Hd' ltac:(lia) Hi Hj Hsi Hsj)
      as (H1 & H2 & H3 & H4 & H5). repeat split; try done; lia.
Qed.

(** C23. The arena: as long as the rounded sizes fit the reservation, a run of
    allocations from a fresh or reset arena succeeds and hands out 64-byte
    aligned blocks, pairwise disjoint, in order and inside the reservation; an
    epoch reset makes the same run give the same blocks again. *)
Theorem arena_blocks_disjoint sizes r a k :
  Forall (λ s, 0 ≤ s < 2 ^ 64 - 63) sizes → arena_total sizes ≤ ARENA_SIZE →
  arena_base r = None → mmap (os r) ARENA_SIZE = (Some a, k) → sizes ≠ [] →
  ∃ blocks r', arena_allocs sizes r = Ok (blocks, r') ∧
    arena_allocs sizes (isolated_arena_reset r') = Ok (blocks, r') ∧
    length blocks = length sizes ∧
    (∀ i j ai aj si sj, (i < j)%nat → blocks !! i = Some ai → blocks !! j = Some aj →
       sizes !! i = Some si → sizes !! j = Some sj →
       0 ≤ ai ∧ (64 | ai) ∧ (64 | aj) ∧ ai + si ≤ aj ∧ aj + sj ≤ ARENA_SIZE).
Proof using Type.
  intros HF Ht Hb Hm Hne.
  exists (arena_layout 0 sizes), (set_arena (Some a) (arena_total sizes) k r).
  assert (Hrun : ∀ r', arena_base r' = Some a → arena_ptr r' = 0 → os r' = k →
            kq_fd r' = kq_fd r → x19 r' = x19 r →
            arena_allocs sizes r' = Ok (arena_layout 0 sizes, set_arena (Some a) (arena_total sizes) k r)).
  { intros r' H1 H2 H3 H4 H5. rewrite (arena_allocs_ok sizes r' a) by (rewrite ?H2; done || lia).
    rewrite H2. unfold set_arena. by rewrite H3, H4, H5. }
  split.
  { rewrite <- (Hrun (set_arena (Some a) 0 k r)) by done.
    destruct sizes as [|s l]; [done|]. cbn [arena_allocs]. unfold isolated_arena_alloc.
    f_equal. unfold arena_init at 1. rewrite Hb, Hm. cbn [arena_base set_arena arena_init]. done. }
  split; [by apply Hrun|]. split.
  { clear. generalize 0 as o. induction sizes as [|s l IH]; intros o; cbn; [done|]. by rewrite IH. }
  intros i j ai aj si sj Hij Hi Hj Hsi Hsj.
  destruct (arena_layout_spec 0 sizes i j ai aj si sj HF ltac:(by exists 0) Hij Hi Hj Hsi Hsj)
    as (H1 & H2 & H3 & H4 & H5). repeat split; try done; lia.
Qed.

(** Nothing checks the bump: a request within 63 bytes of 2^64 is rounded
    to zero bytes, so it is granted and the next block starts at the same
    address; and a request that leaves the reservation moves the pointer past
    its end, undefined behaviour, instead of failing. *)
Theorem arena_unchecked size next r a :
  arena_base r = Some a → 0 ≤ arena_ptr r → 0 ≤ next →
  (2 ^ 64 - 63 ≤ size < 2 ^ 64 → arena_ptr r + arena_round next ≤ ARENA_SIZE →
     ∃ r', arena_allocs [size; next] r = Ok ([arena_ptr r; arena_ptr r], r')) ∧
  (0 ≤ size < 2 ^ 64 - 63 → ARENA_SIZE < arena_ptr r + size → isolated_arena_alloc size r = Undef).
Proof using Type.
  intros Hb Hp Hn. split.
  - intros Hs Hfit. assert (Hr : arena_round size = 0).
    { unfold arena_round, ARENA_ALIGN, u64.
      replace ((size + (64 - 1)) mod 2 ^ 64) with (size + 63 - 2 ^ 64).
      2:{ apply (Z.mod_unique _ _ 1); lia. }
      replace (2 ^ 64 - 1 - (64 - 1)) with (Z.shiftl (Z.ones 58) 6) by reflexivity.
      apply Z.bits_inj'. intros n Hn'. rewrite Z.land_spec, Z.bits_0.
      destruct (Z.ltb_spec n 6).
      - rewrite Z.shiftl_spec_low, andb_false_r by lia. done.
      - rewrite (Z.bits_above_log2 (size + 63 - 2 ^ 64) n); [done|lia|].
        destruct (decide (size + 63 - 2 ^ 64 = 0)) as [->|]; [cbn; lia|].
        apply Z.log2_lt_pow2; [lia|]. apply Z.lt_le_trans with (2 ^ 6); [lia|].
        by apply Z.pow_le_mono_r. }
    assert (Hrn : 0 ≤ arena_round next).
    { unfold arena_round. apply Z.land_nonneg. left. apply u64_range. }
    cbn [arena_allocs]. unfold isolated_arena_alloc, arena_init. rewrite Hb. cbn [mbind Res_bind].
    rewrite Hr, Z.add_0_r. destruct (Z.leb_spec (arena_ptr r) ARENA_SIZE); [|lia].
    cbn [mbind Res_bind set_arena arena_base arena_ptr]. rewrite Hb. cbn [mbind Res_bind set_arena arena_ptr].
    destruct (Z.leb_spec (arena_ptr r + arena_round next) ARENA_SIZE); [|lia].
    cbn [mbind Res_bind]. eauto.
  - intros Hs Hout. destruct (arena_round_bounds size Hs) as [Hr _].
    unfold isolated_arena_alloc, arena_init. rewrite Hb. cbn [mbind Res_bind].
    destruct (Z.leb_spec (arena_ptr r + arena_round size) ARENA_SIZE); [lia|done].
Qed.
End runtime.

(** A kernel that grants every reservation at a fixed page. *)
#[local] Instance toy_kernel : Kernel := {|
  kernel := unit;
  mmap := λ k _, (Some 0x100000000, k);
  kqueue := λ k, (3, k);
  kevent := λ k _ _ _, (0, [], k);
  sys_close := λ k _, k
|}.

Definition toy_rt : Rt := @rt_start toy_kernel ().

Lemma arena_blocks_disjoint_witness :
  ∃ blocks r', arena_allocs [100; 1; 64] toy_rt = Ok (blocks, r') ∧
    blocks = [0; 128; 192] ∧
    arena_allocs [100; 1; 64] (isolated_arena_reset r') = Ok (blocks, r').
Proof.
  destruct (arena_blocks_disjoint [100; 1; 64] toy_rt 0x100000000 (os toy_rt))
    as (bl & r' & E & E' & _); [repeat constructor; lia|vm_compute; discriminate|reflexivity..|discriminate|].
  exists bl, r'. split; [exact E|]. split; [|exact E']. vm_compute in E. congruence.
Defined.

Lemma arena_unchecked_witness :
  ∃ r', arena_allocs [2 ^ 64 - 1; 8] (set_arena (Some 0) 64 (os toy_rt) toy_rt)
        = Ok ([64; 64], r').
Proof.
  destruct (arena_unchecked (2 ^ 64 - 1) 8 (set_arena (Some 0) 64 (os toy_rt) toy_rt) 0) as [H _];
    [reflexivity|vm_compute; discriminate|lia|].
  apply H; [lia|vm_compute; discriminate].
Defined.
