(* ===== verification/FacetOs.v ===== *)
(** * Facet's operating-system bridge (facet_os.c)

    The thin wrappers over POSIX and the command-line scan for the IPC
    descriptor.  The system calls are the class [Posix]: each takes and
    returns the state of the system.  A C string is the list of its bytes
    before the terminator; [None] is a null pointer. *)
From S2P Require Import Prelude.

Class Posix := {
  sys : Type;
  fork : sys → Z * sys;
  execv : sys → list Z → list (list Z) → sys;
  sys_exit : sys → Z → sys;
  kill : sys → Z → Z → sys;
  waitpid : sys → Z → sys;
  usleep : sys → Z → sys;
  shm_open : sys → list Z → Z → Z → Z * sys;
  ftruncate : sys → Z → Z → Z * sys;
  mmap_pages : sys → Z → Z → Z → Z → Z → Z * sys;
  (** constants of the system headers *)
  PROT_READ : Z; PROT_WRITE : Z; MAP_SHARED : Z; MAP_ANONYMOUS : Z;
  O_RDWR : Z; O_CREAT : Z; SIGTERM : Z;
  (** the arguments of the process *)
  salt_get_argc : Z;
  salt_get_argv : Z → option (list Z)
}.

Section facet_os.
Context `{P : Posix}.

Definition PROT_RW : Z := Z.lor PROT_READ PROT_WRITE.

Definition facet_os_fork (s : sys) : Z * sys := let '(pid, s) := fork s in (sx 32 pid, s).

Definition facet_os_mmap_shared (size : Z) (s : sys) : Z * sys :=
  mmap_pages s (u64 size) PROT_RW (Z.lor MAP_SHARED MAP_ANONYMOUS) (-1) 0.

(** The result of [ftruncate] is not tested. *)
Definition facet_os_create_shm (name : list Z) (size : Z) (s : sys) : Z * sys :=
  let '(fd, s) := shm_open s name (Z.lor O_CREAT O_RDWR) 0x1b6 in
  if 0 <=? fd then let '(_, s) := ftruncate s fd size in (fd, s) else (fd, s).

Definition facet_os_shm_open (name : list Z) (s : sys) : Z * sys := shm_open s name O_RDWR 0x1b6.

Definition facet_os_mmap_fd (fd size : Z) (s : sys) : Z * sys :=
  mmap_pages s (u64 size) PROT_RW MAP_SHARED fd 0.

Definition facet_os_exit (code : Z) (s : sys) : sys := sys_exit s code.
Definition facet_os_usleep (microseconds : Z) (s : sys) : sys := usleep s (u32 microseconds).

(** In the child the program is replaced; should [execv] return, it exits with
    status 1. *)
Definition facet_os_spawn (path : list Z) (s : sys) : Z * sys :=
  let '(pid, s) := fork s in
  if pid =? 0 then (pid, sys_exit (execv s path [path]) 1) else (sx 32 pid, s).

Definition facet_os_kill (pid : Z) (s : sys) : sys := waitpid (kill s pid SIGTERM) pid.

(** ** The IPC descriptor *)
Definition is_space (c : Z) : bool := (c =? 32) || ((9 <=? c) && (c <=? 13)).
Definition is_digit (c : Z) : bool := (48 <=? c) && (c <=? 57).

Fixpoint skip_space (l : list Z) : list Z :=
  match l with
  | c :: l' => if is_space c then skip_space l' else l
  | [] => []
  end.

(** The value of the leading digits, from [acc]. *)
Fixpoint digits (acc : Z) (l : list Z) : Z :=
  match l with
  | c :: l => if is_digit c then digits (acc * 10 + (c - 48)) l else acc
  | [] => acc
  end.

(** [atoi]: undefined when the value is not an [int] or the pointer is null. *)
Definition atoi (s : option (list Z)) : Res Z :=
  match s with
  | None => Undef
  | Some s =>
      match skip_space s with
      | 43 :: l => i32 (digits 0 l)
      | 45 :: l => i32 (- digits 0 l)
      | l => i32 (digits 0 l)
      end
  end.

Definition ipc_fd_flag : list Z := [45; 45; 105; 112; 99; 45; 102; 100].

(** [arg && strcmp(arg, flag) == 0] *)
Definition is_ipc_fd (arg : option (list Z)) : bool :=
  match arg with Some a => bool_decide (a = ipc_fd_flag) | None => false end.

Definition ext_get_ipc_fd : Res Z :=
  m ← i32 (salt_get_argc - 1);
  r ← for_ctl 0 m (λ i _,
    if is_ipc_fd (salt_get_argv i) then
      v ← atoi (salt_get_argv (i + 1)); Ok (Return v)
    else Ok (Next ())) ();
  Ok (match r with Gave v => v | Fell _ => -1 end).

(** C38. The scan: with a non-negative argument count it returns -1 exactly
    when no argument but possibly the last is the flag, and otherwise what
    [atoi] makes of the argument after the first such flag. *)
Theorem ipc_fd_scan :
  0 ≤ salt_get_argc ≤ INT_MAX →
  ((∀ i, 0 ≤ i < salt_get_argc - 1 → is_ipc_fd (salt_get_argv i) = false) →
     ext_get_ipc_fd = Ok (-1)) ∧
  (∀ i, 0 ≤ i < salt_get_argc - 1 → is_ipc_fd (salt_get_argv i) = true →
     (∀ k, 0 ≤ k < i → is_ipc_fd (salt_get_argv k) = false) →
     ext_get_ipc_fd = atoi (salt_get_argv (i + 1))).
Proof using Type.
  intros Hc. unfold ext_get_ipc_fd. rewrite i32_ok by (c_unfold; lia). cbn [mbind Res_bind].
  set (body := λ (i : Z) (_ : unit), _).
  assert (Hno_flag : ∀ i, is_ipc_fd (salt_get_argv i) = false → body i () = Ok (Next ()))
    by (intros i Hi; unfold body; by rewrite Hi).
  assert (Hskip : ∀ n lo, (∀ k, lo ≤ k < lo + Z.of_nat n → is_ipc_fd (salt_get_argv k) = false) →
            ∀ m, for_up_ctl (n + m) lo body () = for_up_ctl m (lo + Z.of_nat n) body ()).
  { induction n as [|n IH]; intros lo Hn m; [by rewrite Z.add_0_r|].
    cbn [for_up_ctl Nat.add]. rewrite Hno_flag by (apply Hn; lia). cbn [mbind Res_bind].
    rewrite IH by (intros; apply Hn; lia). f_equal. lia. }
  unfold for_ctl. split.
  - intros Hno. rewrite <- (Nat.add_0_r (Z.to_nat _)), Hskip; [done|]. intros; apply Hno; lia.
  - intros i Hi Hf Hno.
    replace (Z.to_nat (salt_get_argc - 1 - 0))
      with (Z.to_nat i + S (Z.to_nat (salt_get_argc - 2 - i)))%nat by lia.
    rewrite Hskip by (intros; apply Hno; lia). cbn [for_up_ctl].
    replace (0 + Z.of_nat (Z.to_nat i)) with i by lia.
    assert (body i () = (v ← atoi (salt_get_argv (i + 1)); Ok (Return v))) as ->
      by (unfold body; by rewrite Hf).
    by destruct (atoi (salt_get_argv (i + 1))).
Qed.
End facet_os.

(** A command line [prog --ipc-fd 12 x]. *)
#[local] Instance toy_posix : Posix := {|
  sys := unit; fork := λ s, (1, s); execv := λ s _ _, s; sys_exit := λ s _, s;
  kill := λ s _ _, s; waitpid := λ s _, s; usleep := λ s _, s;
  shm_open := λ s _ _ _, (3, s); ftruncate := λ s _ _, (0, s);
  mmap_pages := λ s _ _ _ _ _, (4096, s);
  PROT_READ := 1; PROT_WRITE := 2; MAP_SHARED := 1; MAP_ANONYMOUS := 32;
  O_RDWR := 2; O_CREAT := 64; SIGTERM := 15;
  salt_get_argc := 4;
  salt_get_argv := λ i, [[112]; ipc_fd_flag; [49; 50]; [120]] !! Z.to_nat i
|}.

Lemma ipc_fd_scan_witness : @ext_get_ipc_fd toy_posix = Ok 12.
Proof.
  destruct (@ipc_fd_scan toy_posix) as [_ H]; [c_unfold; cbn; lia|].
  rewrite (H 1); [reflexivity|cbn; lia|reflexivity|].
  intros k Hk. assert (k = 0) as -> by lia. reflexivity.
Defined.
